(* ===== verification/_CoqProject ===== *)
-Q . S2P
Prelude.v
Memory.v
Chunk.v
LinkedList.v
Hashtable.v
Bio.v
Host.v
TrafficSelector.v
Crypto.v
EspContext.v
IpPacket.v
EspPacket.v
IpsecPolicy.v
PolicyList.v
IpsecSa.v
IpsecSaMgr.v
IpsecProcessor.v
Payloads.v
Codec.v
CodecParser.v
CodecGenerator.v
PayloadVerify.v
CodecTyping.v
MessageRules.v
EncryptedPayload.v
Message.v
MessageParse.v
Defragment.v
PayloadChain.v
MessageOrder.v
MessageRoundtrip.v
Prf.v
Array.v
Scheduler.v
Proposal.v
ProposalConfig.v
Keymat.v
IkeSession.v
TaskManager.v
ExchangeSpec.v
TaskManagerRefine.v
IkeTasks.v
IkeExchange.v
MessageIds.v
