(* ===== verification/Prelude.v ===== *)
(** * Verification of strongSwan's userland IPsec stack and IKEv2 exchanges

    The repository is strongSwan with an Android front end.  On Android the
    kernel offers no IPsec, so the packets of a tunnel are processed in user
    space by [src/libipsec], on top of the base library [src/libstrongswan]; the
    IKE daemon in [src/libcharon] negotiates keys and policies and hands them to
    it.  This library models that packet path, what it is built on, how the
    daemon negotiates algorithms and derives keys, how it encodes, protects,
    fragments and reads the messages of IKEv2, and how it runs exchanges of them.

    ** The program and the files

    An outbound IP packet is queued at the processor, matched against the
    policies, encapsulated with the SA of the policy's reqid and passed to the
    callback that sends it; an inbound ESP packet is queued, its SA is found by
    SPI and destination, it is checked against the anti-replay window,
    decrypted and authenticated, matched against the inbound policies and
    delivered.  From the bottom up:

    - [Prelude]: fixed-width integers, byte order ([utils/byteorder.h]), padding
      ([utils/align.h]), status codes, the tactics and hint databases.
    - [Memory]: [utils/utils/memory.c]: [memxor] by words, constant-time
      comparison, searching.
    - [Chunk]: [utils/chunk.c]: byte strings, Internet checksum, base64, hex.
    - [LinkedList]: [collections/linked_list.c]: elements in a heap with their
      pointers, and enumerators.
    - [Hashtable]: [collections/hashtable.c]: pairs in a heap, buckets, growth,
      enumerators, the class [HashKey] of hash and equality functions.
    - [Bio]: [bio/bio_reader.c], [bio/bio_writer.c].  Modules [Reader] and
      [Writer]; pointers into a writer's buffer carry the generation of the
      buffer, so that a use after a reallocation is undefined.
    - [Host]: [networking/host.c].
    - [TrafficSelector]: [selectors/traffic_selector.c].
    - [Crypto]: the interfaces of [crypto/] as type classes ([Hasher], [Mac],
      [Signer], [Crypter], [Rng], [Aead]) with classes of laws; the
      implementations [Hmac] ([plugins/hmac/hmac.c]), [MacSigner]
      ([crypto/signers/mac_signer.c]), [AeadWrapper] ([crypto/aead.c]) and [Iv]
      ([crypto/iv/]) are instances that discharge the laws.  [Module Toy] is a
      concrete instance of all of them.
    - [EspContext]: [libipsec/esp_context.c]: sequence numbers, window, creation.
    - [IpPacket]: [libipsec/ip_packet.c]: parsing and building IP packets.
    - [EspPacket]: [libipsec/esp_packet.c] and [networking/packet.c].
    - [IpsecPolicy]: [libipsec/ipsec_policy.c], [ipsec_policy_mgr.c]: policies
      are reference counted objects in a store; the list holds identities.
    - [PolicyList]: the loops of [ipsec_policy_mgr.c] over the linked list.
    - [IpsecSa]: [libipsec/ipsec_sa.c]: usage statistics, limits, expiry.
    - [IpsecSaMgr]: [libipsec/ipsec_sa_mgr.c]: entries in a heap, SPI
      allocation, and [Module Threads]: any number of threads that call the
      manager.
    - [IpsecProcessor]: [libipsec/ipsec_processor.c],
      [libipsec/ipsec_event_relay.c], [collections/blocking_queue.c].
    - [Payloads]: [libcharon/encoding/payloads]: the payload types, the tables of
      encoding rules, the objects they describe.
    - [Codec]: [libcharon/encoding/generator.c], [parser.c]: the interpreters of
      the tables, and the encoding of a payload as a function of its own.
      [CodecParser] and [CodecGenerator] relate them, [CodecTyping] shows that
      what is parsed is well typed.
    - [PayloadVerify]: the [verify] methods of the payload classes, and the types
      and lengths the classes report.
    - [MessageRules]: the rules of the exchanges in [libcharon/encoding/message.c].
    - [EncryptedPayload]: [payloads/encrypted_payload.c]: the encrypted payload
      and the encrypted fragment, over the class [Aead].
    - [Message]: [libcharon/encoding/message.c]: building, ordering, wrapping,
      generating, fragmenting, parsing, decrypting, verifying and reassembling.
      [MessageParse] is about parsing, [Defragment] about reassembly with
      [handle_fragment] of [libcharon/sa/ikev2/task_manager_v2.c], [PayloadChain],
      [MessageOrder] and [MessageRoundtrip] about generating.
    - [Prf]: [crypto/prfs/prf.h] as the class [Prf] with laws, the instance
      [MacPrf] ([crypto/prfs/mac_prf.c]) and the key stream [PrfPlus]
      ([crypto/prf_plus.c]).
    - [Array]: [collections/array.c]: the bytes of the buffer with the room at its
      ends.
    - [Scheduler]: [processing/scheduler.c]: the heap of timed jobs, and the
      thread that serves it as a state machine.
    - [Proposal]: [libcharon/config/proposal.c]: selecting, checking and reading
      proposals, and the token enumerator of [collections/enumerator.c].
      [ProposalConfig]: the lists of proposals in [config/ike_cfg.c] (Module
      [IkeCfg]) and [config/child_cfg.c] (Module [ChildCfg]).
    - [Keymat]: [libcharon/sa/ikev2/keymat_v2.c], [libcharon/sa/keymat.c]: the
      keys of IKE and CHILD SAs and authentication with shared secrets.
    - [IkeSession]: no code of its own; negotiation, keys and messages together.
    - [TaskManager]: [libcharon/sa/ikev2/task_manager_v2.c] and what it uses of
      [libcharon/sa/ike_sa.c]: queueing and activating tasks, requests and
      responses, retransmission, fragments, message IDs.  The class [Tasks] is the
      interface of [libcharon/sa/task.h], the class [Daemon] the rest of the daemon.
    - [ExchangeSpec]: no code; what the exchanges of two ends promise.
    - [TaskManagerRefine]: the class [TaskLaws] of what tasks leave to the
      manager, and that the manager then implements [ExchangeSpec].
    - [IkeTasks]: the tasks [libcharon/sa/ikev2/tasks/ike_dpd.c] and
      [ike_mid_sync.c] as an instance of [Tasks]; [Module ToyDaemon] is a concrete
      daemon with these tasks only.
    - [IkeExchange]: two ends and a network.
    - [MessageIds]: retransmission, synchronization of message IDs, and what moves
      the IDs beyond the exchanges; the fuel of the task manager.

    A message is built from payloads, ordered and generated: the header and the
    payloads that need no protection are written by the generator, the others are
    collected in an encrypted payload, which is generated, padded, encrypted and
    authenticated together with what is in front of it.  The receiver parses the
    header, finds its keys, parses the payloads, decrypts the encrypted one and
    checks the result against the rules of the exchange.  The task manager of an
    IKE SA activates queued tasks, lets them build a request, sends it until the
    response arrives and lets them process that; for a request it creates tasks,
    lets them process it and build the response, and keeps that for repetitions.

    ** How the code is modelled

    Bytes and machine integers are [Z] with the wrap-around written out ([u8],
    [u16], [u32], [u64]); the host is little endian, [htons] and [htonl] are byte
    swaps.  A chunk is a list of bytes; where the parser, the decryption of payloads
    and the checks of what was received read from a buffer, the read is checked
    ([load]): it is defined only within the buffer, so that a missing check of a
    length shows as undefined behaviour.  A C struct is a record, a method a
    function of the record that returns the new one.  [NULL] and [FALSE] results
    are [None]; the same type stands for undefined behaviour (a dangling or null
    pointer) where a function cannot fail, and the theorems show that it does not
    occur.  Shared objects (policies, SA entries) live in maps from identities, and
    reference counts wrap around at 32 bits like [refcount_t].
    Code behind an interface (block ciphers, hash functions, random numbers) is
    a parameter with the documented behaviour of the interface as laws; the
    contents of new memory are the parameter [junk], the clock is an argument.
    A task is a pointer and may change all of the IKE SA, its manager included;
    packets sent, jobs scheduled and calls of the bus are events in a log.
    A step of a thread is what it does while it holds the manager's mutex, up to
    a wait on a condition variable; the thread a signal wakes is an arbitrary
    choice and wakeups may be spurious.

    ** What the theorems show

    - The packet path ([IpsecProcessor]): what one gateway sends its peer
      delivers unchanged; nothing is delivered that was not authenticated, fresh
      and permitted by a policy; nothing is sent in the clear; every run gives
      back its locks and references.
    - ESP ([EspPacket], [EspContext], [Crypto]): the round trip of packets and of
      the AEAD, authenticity, padding, validity of all buffer pointers, the
      window ring as an implementation of the set of accepted numbers, no replay,
      sequence numbers and IVs that never repeat, HMAC of data in pieces.
    - The SA manager ([IpsecSaMgr], [IpsecSa]): under every interleaving no use
      after free, exclusive checkout and no lost wakeup; fresh SPIs; limits and
      their announcements.
    - The policies ([IpsecPolicy]): reference counts, the order of priorities,
      the best match, matching as selection by the traffic selectors.  What depends
      on reference counts, the packet path too, is for fewer than 2^32 - 1 references
      that are held ([IpsecPolicy.few]).
    - The base ([TrafficSelector], [IpPacket], [Bio], [Chunk], [Memory]):
      intersection and containment of selectors, subnets, building and parsing
      of packets with checksums, encodings and their decodings.
    - The collections ([LinkedList], [Hashtable], [PolicyList], [Array]): lists,
      tables and arrays implement sequences and finite maps, with enumerators open
      on them.  For lists [LinkedList.permitted] says which operations are allowed:
      what an enumerator is at is removed through it only
      ([LinkedList.removed_current_undefined]).
    - The scheduler ([Scheduler]): the heap implements a bag of events of which the
      earliest is served, and what is due is served.
    - Negotiation ([Proposal], [ProposalConfig]): the preferred common algorithms
      are selected, the initiator comes to what the responder selected, and the
      check of configured proposals accepts exactly what is valid.
    - Keys ([Prf], [Keymat]): prf+ and the keys taken from it are those of RFC
      7296, and both ends derive keys that fit; [IkeSession]: after negotiation and
      key derivation each end understands the messages of the other.
    - Payloads ([CodecGenerator]): the parser takes every input without leaving
      it or its tables, what it makes of the input generates the same input
      again, and consistent payloads survive generating and parsing; the fields it
      makes have the types of their rules ([CodecTyping]).
    - Messages ([MessageParse], [MessageRoundtrip], [Defragment]): every packet is
      parsed or refused without undefined behaviour, with keys if the transform has
      an IV ([MessageParse.decrypt_content_no_iv]); what is accepted in an
      exchange under an IKE SA was authenticated; what one end generates the other
      accepts with the same payloads in the order of the rules; fragments are
      reassembled in whatever order and number they arrive.  [PayloadVerify]
      describes the SA payloads and traffic selectors that are accepted.
    - Exchanges ([IkeExchange], [MessageIds]): two task managers over a network that
      loses, repeats and reorders packets stay in lockstep, each step being one of
      the specification; a request is sent a fixed number of times before the
      IKE SA is given up; message IDs are synchronized forward only, and the notify
      for it is read as it was built.  The theorems on the network are for established
      IKE SAs with keys, for messages that are not fragmented, have all that generating
      them needs and synchronize no message IDs, for message IDs that do not overflow,
      for listeners of the bus that do not alter messages, for operations that return,
      and for tasks under [TaskLaws]: not those of [ike_init.c], which reset the
      manager, [ike_auth.c], which send a request of their own, and [ike_mid_sync.c],
      nor tasks that initiate an exchange while they answer a request, which
      [child_delete.c] and [ike_mobike.c] can do.  The number of retransmissions is that
      of requests without a MOBIKE task.
    - Some theorems state defects: a request that cannot be parsed moves the
      expected message ID ([MessageIds.parse_error_advances_mid]), a fragment that
      arrives late blocks the fragments of the next request
      ([MessageIds.stale_fragment_blocks]), synchronizing message IDs may use one
      again ([MessageIds.mid_sync_reuses_id]), a message that consists of a header is accepted
      unauthenticated ([MessageParse.empty_message_unprotected]), an encrypted
      payload may contain another ([MessageParse.nested_encrypted_accepted]), more
      port ranges than OPAQUE may be in the wrong order
      ([PayloadVerify.selector_accepted]), IPv6 packets cannot be built from data
      ([IpPacket.create_from_data_v6_null]), the generator keeps a format from
      one payload to the next, so that every configuration behind a key length is
      written without its values ([CodecGenerator.generator_format_kept]), prf+ goes
      on without a counter after 255 blocks ([Prf.prf_plus_wraps]), DH groups are
      stripped from one of two compared proposals only
      ([ProposalConfig.child_strip_no_match]), and [update_sa] and [query_sa] report success for an SA that is being removed
      ([IpsecSaMgr.Threads.update_of_removed_sa_succeeds]); the bound in
      [Crypto.iv_gen_seq_unique] is where the sequential IV generator stops to
      enforce uniqueness.

    ** Fuel

    Loops over lists are structural.  The walk over IPv6 extension headers has
    the length of the packet as fuel, and [IpPacket.ext_headers_terminate] shows
    that more changes nothing.  [IpsecSaMgr.get_spi] is bounded by the number of
    draws: [IpsecSaMgr.get_spi_fresh] shows that it runs out of it only if every
    SPI drawn was taken; the C loop has no bound.  Walks over the heaps of the
    collections are bounded by the number of their elements, which the
    refinement theorems show to be enough.  The recursion of the payload parser and
    generator is bounded by [CodecParser.max_depth], the deepest nesting of the
    tables, and the loop over a list by the bytes left;
    [CodecGenerator.parser_total] shows that neither runs out.  The loops over the
    payloads of a message are bounded by its bytes, which
    [MessageParse.ike_parse_total] shows to be enough.  The heap of the scheduler is
    walked within its height, the transforms of a proposal within twice their
    number and the tokens of a string within its length, which [Scheduler],
    [Proposal.remove_walk_spec], [Proposal.add_prfs_walk_spec] and
    [Proposal.tokens_unfold] show to be enough; prf+ ends for every PRF with a block
    size other than zero ([Prf.PrfPlus.allocate_bytes_spec]).  The loops of the task
    manager have the number of tasks as fuel ([MessageIds.task_loops_end]), the
    recursion of [initiate] needs more than that number ([MessageIds.initiate_ends]);
    [depth] of [TaskManager.sa_process_message] counts how often a reassembled
    message is a fragment again.

    ** What is not modelled

    Destructors and the ownership of memory that is not shared, debug output,
    printf hooks, the constructors of hosts and selectors from text (they call
    the resolver), the worker threads that run the jobs, what only IKEv1 and the
    mediation extension do with messages and payloads, the keywords of proposals
    (their table is generated, the lookup is an argument), reauthentication on a new
    IKE SA and the floating point arithmetic of retransmission timeouts (parameters
    of [TaskManager]), and the rest of the repository: the other tasks of the IKE
    daemon and the management of its SAs, the plugins, the configuration front ends
    and the Java code of the Android app. *)
From stdpp Require Import base numbers list.
From Stdlib Require Import Lia ZArith.
From Stdlib Require Export ZifyBool.

Declare Scope swan_scope.
Delimit Scope swan_scope with swan.
Local Open Scope Z_scope.

(** ** Automation *)

(** [swan_len]: the rewriting database of the lengths of the list operations that
    model pointer arithmetic; [swan_bytes]: the resolution database of the
    "every element is a byte" side conditions. *)
Create HintDb swan_bytes.
Create Rewrite HintDb swan_len.

#[export] Hint Rewrite @length_app @length_take @length_drop @length_reverse
  @length_replicate @length_fmap @length_insert : swan_len.

(** Normalise list lengths everywhere, then close the goal arithmetically. *)
Ltac len := repeat (autorewrite with swan_len in *; simpl length in *); lia.

(** Case analysis on every conditional and match in sight. *)
Ltac split_ifs :=
  repeat match goal with
  | |- context [if ?b then _ else _] => destruct b eqn:?
  | H : context [if ?b then _ else _] |- _ => destruct b eqn:?
  end.

(** Split the boolean connectives of the hypotheses into propositions. *)
Ltac bsplit :=
  repeat match goal with
  | H : _ && _ = true |- _ => apply andb_true_iff in H as [? ?]
  | H : _ || _ = false |- _ => apply orb_false_iff in H as [? ?]
  | H : negb _ = true |- _ => apply negb_true_iff in H
  | H : negb _ = false |- _ => apply negb_false_iff in H
  | H : bool_decide _ = true |- _ => apply bool_decide_eq_true in H
  | H : bool_decide _ = false |- _ => apply bool_decide_eq_false in H
  end.

(** ** Fixed-width unsigned integers *)

(** The conversion of an integer to an unsigned C type of [w] bits. *)
Definition uwrap (w x : Z) : Z := x mod 2 ^ w.

Abbreviation u8 := (uwrap 8).
Abbreviation u16 := (uwrap 16).
Abbreviation u32 := (uwrap 32).
Abbreviation u64 := (uwrap 64).

Definition UINT32_MAX : Z := 2 ^ 32 - 1.

Lemma uwrap_range w x : 0 <= w -> 0 <= uwrap w x < 2 ^ w.
Proof. intros. apply Z.mod_pos_bound, Z.pow_pos_nonneg; lia. Qed.

Lemma uwrap_small w x : 0 <= x < 2 ^ w -> uwrap w x = x.
Proof. apply Z.mod_small. Qed.

Lemma uwrap_idemp w x : uwrap w (uwrap w x) = uwrap w x.
Proof. apply Zmod_mod. Qed.

(** Reducing modulo a power of two that divides the width is not affected by
    the wrap-around. *)
Lemma uwrap_mod_pow2 w k x :
  0 <= k <= w -> uwrap w x mod 2 ^ k = x mod 2 ^ k.
Proof.
  intros Hk. unfold uwrap.
  replace (2 ^ w) with (2 ^ k * 2 ^ (w - k))
    by (rewrite <- Z.pow_add_r by lia; f_equal; lia).
  assert (0 < 2 ^ k) by (apply Z.pow_pos_nonneg; lia).
  assert (0 < 2 ^ (w - k)) by (apply Z.pow_pos_nonneg; lia).
  rewrite Z.rem_mul_r by lia.
  rewrite Z.mul_comm, Z_mod_plus_full. apply Zmod_mod.
Qed.

(** The padding needed to bring [size] to a multiple of [alignment]. *)
Definition pad_len (size alignment : nat) : nat :=
  let remainder := (size mod alignment)%nat in
  if (remainder =? 0)%nat then 0%nat else (alignment - remainder)%nat.

Lemma pad_len_aligns size alignment :
  alignment <> 0%nat -> ((size + pad_len size alignment) mod alignment = 0)%nat.
Proof.
  intros Ha. unfold pad_len. destruct (Nat.eqb_spec (size mod alignment) 0) as [E|E].
  { by rewrite Nat.add_0_r. }
  pose proof (Nat.mod_upper_bound size alignment Ha).
  rewrite (Nat.div_mod_eq size alignment) at 1.
  replace (alignment * (size / alignment) + size mod alignment
           + (alignment - size mod alignment))%nat
    with ((size / alignment + 1) * alignment)%nat by lia.
  apply Nat.Div0.mod_mul.
Qed.

Lemma pad_len_lt size alignment :
  alignment <> 0%nat -> (pad_len size alignment < alignment)%nat.
Proof.
  intros Ha. unfold pad_len. pose proof (Nat.mod_upper_bound size alignment Ha).
  destruct (Nat.eqb_spec (size mod alignment) 0); lia.
Qed.

(** ** Bytes and byte strings *)

(** A [chunk_t] is the byte string it points to. *)
Abbreviation chunk := (list Z).

Definition byte_ok (b : Z) : Prop := 0 <= b < 256.
Abbreviation bytes_ok := (Forall byte_ok).

#[export] Instance byte_ok_dec b : Decision (byte_ok b).
Proof. unfold byte_ok. apply _. Defined.

Lemma byte_ok_u8 x : byte_ok (u8 x).
Proof. apply (uwrap_range 8); lia. Qed.

Lemma u8_byte b : byte_ok b -> u8 b = b.
Proof. apply (uwrap_small 8). Qed.

#[export] Hint Resolve byte_ok_u8 Forall_nil_2 Forall_cons_2 Forall_app_2
  Forall_take Forall_drop Forall_replicate : swan_bytes.
#[export] Hint Extern 1 (byte_ok _) => (unfold byte_ok; lia) : swan_bytes.

Ltac bytes := eauto 8 with swan_bytes.

(** Big-endian (network order) value of a byte string, and the big-endian
    encoding of a value in [n] bytes. *)
Fixpoint be_value (l : chunk) : Z :=
  match l with
  | [] => 0
  | b :: t => b * 256 ^ Z.of_nat (length t) + be_value t
  end.

Fixpoint be_bytes (n : nat) (v : Z) : chunk :=
  match n with
  | O => []
  | S m => (v / 256 ^ Z.of_nat m) mod 256 :: be_bytes m v
  end.

Lemma length_be_bytes n v : length (be_bytes n v) = n.
Proof. induction n; simpl; congruence. Qed.
#[export] Hint Rewrite length_be_bytes : swan_len.

Lemma be_bytes_ok n v : bytes_ok (be_bytes n v).
Proof.
  induction n; simpl; constructor; auto. apply Z.mod_pos_bound. lia.
Qed.
#[export] Hint Resolve be_bytes_ok : swan_bytes.

Lemma pow256_pos n : 0 < 256 ^ Z.of_nat n.
Proof. apply Z.pow_pos_nonneg; lia. Qed.

Lemma pow256_S n : 256 ^ Z.of_nat (S n) = 256 * 256 ^ Z.of_nat n.
Proof. rewrite Nat2Z.inj_succ, Z.pow_succ_r by lia. reflexivity. Qed.

Lemma be_value_range l : bytes_ok l -> 0 <= be_value l < 256 ^ Z.of_nat (length l).
Proof.
  induction 1 as [|b t Hb Ht IH]; [simpl; lia|]. cbn [be_value length].
  rewrite pow256_S. pose proof (pow256_pos (length t)). unfold byte_ok in Hb. nia.
Qed.

Lemma be_value_app l1 l2 :
  be_value (l1 ++ l2) = be_value l1 * 256 ^ Z.of_nat (length l2) + be_value l2.
Proof.
  induction l1 as [|b t IH]; simpl; [lia|].
  rewrite IH, length_app, Nat2Z.inj_add, Z.pow_add_r by lia. ring.
Qed.

Lemma be_value_bytes n v : be_value (be_bytes n v) = v mod 256 ^ Z.of_nat n.
Proof.
  induction n as [|n IH]; [symmetry; apply Z.mod_1_r|].
  cbn [be_bytes be_value]. rewrite length_be_bytes, IH, pow256_S.
  pose proof (pow256_pos n).
  rewrite (Z.mul_comm 256), Z.rem_mul_r by lia. ring.
Qed.

Lemma be_bytes_mod n m v : (n <= m)%nat -> be_bytes n (v mod 256 ^ Z.of_nat m) = be_bytes n v.
Proof.
  intros Hnm. induction n as [|n IH]; [done|]. cbn [be_bytes].
  rewrite IH by lia. f_equal.
  pose proof (pow256_pos n). pose proof (pow256_pos (m - S n)).
  replace (256 ^ Z.of_nat m) with (256 ^ Z.of_nat n * (256 * 256 ^ Z.of_nat (m - S n))).
  2:{ rewrite <- pow256_S, <- Z.pow_add_r by lia. f_equal. lia. }
  rewrite Z.rem_mul_r by lia.
  rewrite Z.mul_comm, Z.div_add by lia.
  rewrite Z.div_small by (apply Z.mod_pos_bound; lia).
  rewrite Z.add_0_l, Z.rem_mul_r by lia.
  rewrite Z.mul_comm, Z_mod_plus_full. apply Zmod_mod.
Qed.

Lemma be_bytes_value l : bytes_ok l -> be_bytes (length l) (be_value l) = l.
Proof.
  induction 1 as [|b t Hb Ht IH]; [done|]. cbn [be_bytes be_value length].
  pose proof (be_value_range t Ht). pose proof (pow256_pos (length t)).
  f_equal.
  - rewrite Z.div_add_l, Z.div_small, Z.add_0_r by lia. apply Z.mod_small, Hb.
  - rewrite <- (be_bytes_mod _ (length t)) by lia.
    rewrite Z.add_comm, Z_mod_plus_full, Z.mod_small by lia. apply IH.
Qed.

Lemma be_value_inj l1 l2 :
  bytes_ok l1 -> bytes_ok l2 -> length l1 = length l2 ->
  be_value l1 = be_value l2 -> l1 = l2.
Proof.
  intros H1 H2 Hl Hv. rewrite <- (be_bytes_value l1), <- (be_bytes_value l2) by done.
  by rewrite Hl, Hv.
Qed.

(** Byte-swapping: [htons], [htonl] and their inverses on a little-endian
    host, for an [n]-byte integer. *)
Definition bswap (n : nat) (v : Z) : Z := be_value (reverse (be_bytes n v)).

Abbreviation htons := (bswap 2).
Abbreviation ntohs := (bswap 2).
Abbreviation htonl := (bswap 4).
Abbreviation ntohl := (bswap 4).

Lemma bswap_range n v : 0 <= bswap n v < 256 ^ Z.of_nat n.
Proof.
  unfold bswap. pose proof (be_value_range (reverse (be_bytes n v))) as H.
  autorewrite with swan_len in H. apply H.
  apply Forall_reverse, be_bytes_ok.
Qed.

Lemma bswap_involutive n v :
  0 <= v < 256 ^ Z.of_nat n -> bswap n (bswap n v) = v.
Proof.
  intros Hv. unfold bswap at 1.
  assert (be_bytes n (bswap n v) = reverse (be_bytes n v)) as ->.
  { unfold bswap. rewrite <- (be_bytes_value (reverse (be_bytes n v))) at 2.
    - f_equal. len.
    - apply Forall_reverse, be_bytes_ok. }
  rewrite reverse_involutive, be_value_bytes. by apply Z.mod_small.
Qed.

(** Reading a byte string into a little-endian integer. *)
Definition le_value (l : chunk) : Z := be_value (reverse l).

Lemma bswap_le_value n l :
  length l = n -> bytes_ok l -> bswap n (le_value l) = be_value l.
Proof.
  intros Hl Hb. unfold bswap, le_value.
  assert (be_bytes n (be_value (reverse l)) = reverse l) as ->.
  { rewrite <- (be_bytes_value (reverse l)) at 2; [f_equal; len|]. by apply Forall_reverse. }
  by rewrite reverse_involutive.
Qed.

(** The [len] bytes at the offset [off] of the data.  [None] is an access outside of it;
    a negative length is one that wraps around to a size larger than any data. *)
Definition load (data : chunk) (off len : Z) : option chunk :=
  if (0 <=? off) && (0 <=? len) && (off + len <=? Z.of_nat (length data))
  then Some (take (Z.to_nat len) (drop (Z.to_nat off) data)) else None.

Lemma load_within data off len : 0 <= off -> 0 <= len -> off + len <= Z.of_nat (length data) ->
  load data off len = Some (take (Z.to_nat len) (drop (Z.to_nat off) data)).
Proof. intros. unfold load. by replace (_ && _) with true by lia. Qed.

Lemma load_prefix data n : (n <= length data)%nat -> load data 0 (Z.of_nat n) = Some (take n data).
Proof. intros. rewrite load_within, Nat2Z.id by lia. done. Qed.

Lemma load_suffix data n : (n <= length data)%nat ->
  load data (Z.of_nat n) (Z.of_nat (length data) - Z.of_nat n) = Some (drop n data).
Proof. intros. rewrite load_within, Nat2Z.id by lia. f_equal. apply take_ge. rewrite length_drop. lia. Qed.

Lemma load_Some data off len out : load data off len = Some out ->
  Z.of_nat (length out) = len /\ out = take (Z.to_nat len) (drop (Z.to_nat off) data).
Proof.
  unfold load. destruct (_ && _) eqn:E; [|done]. intros [= <-]. split; [|done].
  rewrite length_take, length_drop. lia.
Qed.

Lemma load_prefix_take data len out : load data 0 len = Some out -> out = take (Z.to_nat len) data.
Proof. intros [_ ->]%load_Some. done. Qed.

(** Unaligned network-order accessors: [memcpy] from or to a little-endian
    integer that is byte-swapped. *)
Definition untoh16 (network : chunk) : Z := ntohs (le_value (take 2 network)).
Definition untoh32 (network : chunk) : Z := ntohl (le_value (take 4 network)).
Definition untoh64 (network : chunk) : Z := bswap 8 (le_value (take 8 network)).

(** The memory image of an [n]-byte little-endian integer. *)
Definition le_image (n : nat) (host : Z) : chunk := reverse (be_bytes n host).

Definition htoun16 (host : Z) : chunk := le_image 2 (htons host).
Definition htoun32 (host : Z) : chunk := le_image 4 (htonl host).
Definition htoun64 (host : Z) : chunk := le_image 8 (bswap 8 host).

Lemma le_image_bswap n v : le_image n (bswap n v) = be_bytes n v.
Proof.
  unfold le_image, bswap.
  assert (be_bytes n (be_value (reverse (be_bytes n v))) = reverse (be_bytes n v)) as ->.
  { rewrite <- (be_bytes_value (reverse (be_bytes n v))) at 2; [f_equal; len|].
    apply Forall_reverse, be_bytes_ok. }
  apply reverse_involutive.
Qed.

Lemma htoun16_be v : htoun16 v = be_bytes 2 v.
Proof. apply le_image_bswap. Qed.
Lemma htoun32_be v : htoun32 v = be_bytes 4 v.
Proof. apply le_image_bswap. Qed.
Lemma htoun64_be v : htoun64 v = be_bytes 8 v.
Proof. apply le_image_bswap. Qed.

Lemma untoh_be n l :
  (n <= length l)%nat -> bytes_ok l -> bswap n (le_value (take n l)) = be_value (take n l).
Proof. intros. apply bswap_le_value; [len|bytes]. Qed.

(** [memcmp(a, b, n)]: the difference of the first pair of bytes that differ,
    zero when the first [n] bytes agree. *)
Fixpoint memcmp (n : nat) (a b : chunk) : Z :=
  match n, a, b with
  | S n, x :: a, y :: b => if x =? y then memcmp n a b else x - y
  | _, _, _ => 0
  end.

(** On strings of the same length, [memcmp] orders by big-endian value. *)
Lemma memcmp_sgn n a b :
  length a = n -> length b = n -> bytes_ok a -> bytes_ok b ->
  Z.sgn (memcmp n a b) = Z.sgn (be_value a - be_value b).
Proof.
  intros <- Hl Ha. revert b Hl.
  induction Ha as [|x a Hx Ha IH]; intros [|y b] Hl Hb; try done.
  apply Forall_cons in Hb as [Hy Hb]. injection Hl as Hl.
  cbn [memcmp be_value length]. rewrite Hl.
  pose proof (be_value_range a Ha). pose proof (be_value_range b Hb).
  rewrite Hl in *. pose proof (pow256_pos (length a)).
  destruct (Z.eqb_spec x y) as [->|Hne].
  - rewrite IH by done. f_equal. lia.
  - unfold byte_ok in *.
    assert (x < y \/ y < x) as [?|?] by lia.
    + rewrite !Z.sgn_neg by nia. done.
    + rewrite !Z.sgn_pos by nia. done.
Qed.

Lemma memcmp_gt n a b :
  length a = n -> length b = n -> bytes_ok a -> bytes_ok b ->
  (0 <? memcmp n a b) = (be_value b <? be_value a).
Proof. intros H1 H2 H3 H4. pose proof (memcmp_sgn n a b H1 H2 H3 H4). lia. Qed.

Lemma memcmp_eq0 n a b :
  length a = n -> length b = n -> bytes_ok a -> bytes_ok b ->
  memcmp n a b = 0 <-> a = b.
Proof.
  intros H1 H2 H3 H4. pose proof (memcmp_sgn n a b H1 H2 H3 H4). split.
  - intros E. apply be_value_inj; auto; [congruence|]. lia.
  - intros ->. lia.
Qed.

(** ** Buffers *)

(** [memcpy(buf + off, data, length data)]. *)
Definition splice (off : nat) (data buf : chunk) : chunk :=
  take off buf ++ data ++ drop (off + length data) buf.

Lemma length_splice off data buf :
  (off + length data <= length buf)%nat -> length (splice off data buf) = length buf.
Proof. intros. unfold splice. len. Qed.

Lemma take_splice off data buf :
  (off <= length buf)%nat ->
  take (off + length data) (splice off data buf) = take off buf ++ data.
Proof.
  intros. unfold splice. rewrite app_assoc, take_app_length'; [done|len].
Qed.

Lemma splice_before n off data buf :
  (n <= off)%nat -> (off <= length buf)%nat ->
  take n (splice off data buf) = take n buf.
Proof.
  intros. unfold splice. rewrite take_app_le, take_take by len. f_equal. lia.
Qed.

Lemma splice_bytes off data buf :
  bytes_ok data -> bytes_ok buf -> bytes_ok (splice off data buf).
Proof. intros. unfold splice. bytes. Qed.
#[export] Hint Resolve splice_bytes : swan_bytes.

Lemma alter_bytes (f : Z -> Z) i l :
  (forall b, byte_ok b -> byte_ok (f b)) -> bytes_ok l -> bytes_ok (alter f i l).
Proof. intros Hf. revert i. induction l; intros [|i] H; decompose_Forall_hyps; bytes. Qed.

Lemma nth_splice off d buf j :
  (off + length d <= length buf)%nat ->
  nth j (splice off d buf) 0
  = if (j <? off)%nat then nth j buf 0
    else if (j <? off + length d)%nat then nth (j - off) d 0 else nth j buf 0.
Proof.
  intros Hl. unfold splice.
  destruct (Nat.ltb_spec j off); [|destruct (Nat.ltb_spec j (off + length d))].
  - rewrite app_nth1 by len. rewrite <- (take_drop off buf) at 2. by rewrite app_nth1 by len.
  - rewrite app_nth2, app_nth1 by len. f_equal. len.
  - rewrite !app_nth2 by len. rewrite length_take, Nat.min_l by lia.
    rewrite <- (take_drop (off + length d) buf) at 2. rewrite app_nth2 by len.
    f_equal. len.
Qed.

Lemma nth_alter (f : Z -> Z) i (l : chunk) j :
  (i < length l)%nat ->
  nth j (alter f i l) 0 = if (j =? i)%nat then f (nth j l 0) else nth j l 0.
Proof.
  intros Hi. rewrite !nth_lookup. destruct (Nat.eqb_spec j i) as [->|Hne].
  - destruct (lookup_lt_is_Some_2 l i Hi) as [x Hx].
    by rewrite list_lookup_alter_eq, Hx.
  - by rewrite list_lookup_alter_ne.
Qed.

Lemma nth_take_lt (l : chunk) n j : (j < n)%nat -> nth j (take n l) 0 = nth j l 0.
Proof.
  intros. rewrite !nth_lookup. by rewrite lookup_take_lt.
Qed.

Lemma nth_rep n x j : (j < n)%nat -> nth j (replicate n x) 0 = x.
Proof. intros. rewrite nth_lookup. by rewrite lookup_replicate_2. Qed.

(** ** Bits *)

Lemma byte_ones_bit k : 0 <= k < 8 -> Z.testbit 255 k = true.
Proof. intros. change 255 with (Z.ones 8). rewrite Z.testbit_ones_nonneg by lia. lia. Qed.

Lemma testbit_above v n k : 0 <= v < 2 ^ n -> 0 <= n <= k -> Z.testbit v k = false.
Proof.
  intros Hv Hk. rewrite <- (Z.mod_small v (2 ^ n)) by done. by apply Z.mod_pow2_bits_high.
Qed.

Lemma testbit_split b v m k :
  0 <= v < 2 ^ m -> 0 <= m -> 0 <= k ->
  Z.testbit (b * 2 ^ m + v) k = if k <? m then Z.testbit v k else Z.testbit b (k - m).
Proof.
  intros Hv Hm Hk. destruct (Z.ltb_spec k m).
  - rewrite <- (Z.mod_pow2_bits_low _ m) by done.
    by rewrite Z.add_comm, Z_mod_plus_full, Z.mod_small.
  - replace k with (k - m + m) at 1 by lia. rewrite <- Z.div_pow2_bits by lia.
    by rewrite Z.div_add_l, Z.div_small, Z.add_0_r by lia.
Qed.

Lemma u8_lnot_bit m k : 0 <= k < 8 -> Z.testbit (u8 (Z.lnot m)) k = negb (Z.testbit m k).
Proof.
  intros. unfold uwrap. rewrite Z.mod_pow2_bits_low by lia. apply Z.lnot_spec. lia.
Qed.

Lemma byte_land_l a b : byte_ok a -> 0 <= b -> byte_ok (Z.land a b).
Proof.
  unfold byte_ok. intros Ha Hb. pose proof (proj2 (Z.land_nonneg a b) ltac:(lia)).
  split; [done|]. destruct (decide (Z.land a b < 256)); [done|exfalso].
  assert (Z.land a b = Z.land (Z.land a b) 255) as E.
  { apply Z.bits_inj'. intros k Hk. rewrite !Z.land_spec.
    destruct (decide (k < 8)).
    - rewrite byte_ones_bit by lia. by rewrite andb_true_r.
    - rewrite (testbit_above a 8) by lia. done. }
  change 255 with (Z.ones 8) in E. rewrite Z.land_ones in E by lia.
  pose proof (Z.mod_pos_bound (Z.land a b) (2 ^ 8)). lia.
Qed.

Lemma byte_lor a b : byte_ok a -> byte_ok b -> byte_ok (Z.lor a b).
Proof.
  unfold byte_ok. intros Ha Hb. split; [apply Z.lor_nonneg; lia|].
  assert (Z.lor a b = Z.lor a b mod 2 ^ 8) as ->.
  { apply Z.bits_inj'. intros k Hk. destruct (decide (k < 8)).
    - by rewrite Z.mod_pow2_bits_low.
    - rewrite Z.mod_pow2_bits_high, Z.lor_spec, !(testbit_above _ 8) by lia. done. }
  apply (Z.mod_pos_bound _ (2 ^ 8)). lia.
Qed.

(** The result of the fallible operations ([status_t]). *)
Inductive status_t : Type :=
  | SUCCESS | FAILED | OUT_OF_RES | ALREADY_DONE | NOT_SUPPORTED | INVALID_ARG
  | NOT_FOUND | PARSE_ERROR | VERIFY_ERROR | INVALID_STATE | DESTROY_ME | NEED_MORE.

#[export] Instance status_eq_dec : EqDecision status_t.
Proof. solve_decision. Defined.
