(* ===== verification/Memory.v ===== *)
(** Memory utilities: [src/libstrongswan/utils/utils/memory.c].  The word-wise
    [memxor] is shown equal to the byte-wise exclusive or for every alignment of
    its operands, and the constant-time comparison equal to equality. *)
From S2P Require Import Prelude.
From stdpp Require Import base numbers list option.
From Stdlib Require Import Lia ZArith.
Local Open Scope Z_scope.

(** ** memxor *)
Section Memxor.
(** [sizeof(long)] and the addresses of the two buffers. *)
Context (sizeof_long : nat) (dst_addr src_addr : nat).

Definition sizeof_int : nat := 4.
Definition sizeof_short : nat := 2.

(** The exclusive or of a word of [w] bytes of [src] into [dst], at index [i]. *)
Definition xor_word (w : nat) (dst src : chunk) (i : nat) : chunk :=
  splice i (le_image w (Z.lxor (le_value (take w (drop i dst)))
                               (le_value (take w (drop i src))))) dst.

(** The first loop: bytes until [dst] is aligned. *)
Fixpoint memxor_align (fuel : nat) (dst src : chunk) (n i : nat) : chunk * nat :=
  match fuel with
  | O => (dst, i)
  | S f =>
    if negb ((dst_addr + i) mod sizeof_long =? 0)%nat && (i <? n)%nat then
      memxor_align f (xor_word 1 dst src i) src n (S i)
    else (dst, i)
  end.

(** A word loop, with the signed bound [m = n - w]. *)
Fixpoint memxor_words (fuel w : nat) (dst src : chunk) (n i : nat) : chunk * nat :=
  match fuel with
  | O => (dst, i)
  | S f =>
    if Z.of_nat i <=? Z.of_nat n - Z.of_nat w then
      memxor_words f w (xor_word w dst src i) src n (i + w)
    else (dst, i)
  end.

(** The last loop. *)
Fixpoint memxor_rest (fuel : nat) (dst src : chunk) (n i : nat) : chunk * nat :=
  match fuel with
  | O => (dst, i)
  | S f => if (i <? n)%nat then memxor_rest f (xor_word 1 dst src i) src n (S i) else (dst, i)
  end.

Definition memxor (dst src : chunk) (n : nat) : chunk :=
  let '(dst, i) := memxor_align n dst src n 0 in
  let a := ((src_addr + i) mod sizeof_long)%nat in
  let '(dst, i) :=
    if (a =? 0)%nat then memxor_words n sizeof_long dst src n i
    else if (a =? sizeof_int)%nat then memxor_words n sizeof_int dst src n i
    else if (a =? sizeof_short)%nat then memxor_words n sizeof_short dst src n i
    else (dst, i) in
  fst (memxor_rest n dst src n i).
End Memxor.

(** ** Comparison and search *)

Fixpoint memeq_const_loop (a b : chunk) (len i : nat) (bad : Z) : Z :=
  match len with
  | O => bad
  | S m => memeq_const_loop a b m (S i)
             (Z.lor bad (if nth i a 0 =? nth i b 0 then 0 else 1))
  end.

Definition memeq_const (x y : chunk) (len : nat) : bool :=
  memeq_const_loop x y len 0 0 =? 0.

(** [memstr]: the offset of the first match; [n] is the length of the
    haystack. *)
Fixpoint memstr_loop (fuel : nat) (haystack needle : chunk) (pos n : nat) : option nat :=
  match fuel with
  | O => None
  | S f =>
    if (length needle <=? n)%nat then
      if bool_decide (take (length needle) (drop pos haystack) = needle) then Some pos
      else memstr_loop f haystack needle (S pos) (n - 1)
    else None
  end.

Definition memstr (haystack needle : chunk) : option nat :=
  if (length needle =? 0)%nat then None
  else memstr_loop (S (length haystack)) haystack needle 0 (length haystack).

(** [utils_memrchr]: from the last byte down. *)
Fixpoint memrchr_loop (s : chunk) (c : Z) (n : nat) : option nat :=
  match n with
  | O => None
  | S m => if nth m s 0 =? u8 c then Some m else memrchr_loop s c m
  end.

Definition utils_memrchr (s : chunk) (c : Z) (n : nat) : option nat :=
  if (n =? 0)%nat then None else memrchr_loop s c n.

(** ** Lemmas *)

(** The bytes of two strings combined by exclusive or. *)
Definition xor_bytes (a b : chunk) : chunk := zip_with Z.lxor a b.

Lemma byte_lxor a b : byte_ok a -> byte_ok b -> byte_ok (Z.lxor a b).
Proof.
  unfold byte_ok. intros Ha Hb. split; [apply Z.lxor_nonneg; lia|].
  assert (Z.lxor a b = Z.lxor a b mod 2 ^ 8) as ->; [|apply (Z.mod_pos_bound _ (2 ^ 8)); lia].
  apply Z.bits_inj'. intros k Hk. destruct (decide (k < 8)).
  - by rewrite Z.mod_pow2_bits_low.
  - rewrite Z.mod_pow2_bits_high, Z.lxor_spec, !(testbit_above _ 8) by lia. done.
Qed.

Lemma xor_bytes_ok a b : bytes_ok a -> bytes_ok b -> bytes_ok (xor_bytes a b).
Proof.
  intros Ha. revert b. induction Ha as [|x a Hx Ha IH]; intros b Hb; [constructor|].
  destruct Hb as [|y b Hy Hb]; constructor; [by apply byte_lxor|by apply IH].
Qed.

Lemma length_xor_bytes a b : length a = length b -> length (xor_bytes a b) = length a.
Proof. intros. unfold xor_bytes. rewrite length_zip_with. lia. Qed.

Lemma be_value_xor a b :
  bytes_ok a -> bytes_ok b -> length a = length b ->
  be_value (xor_bytes a b) = Z.lxor (be_value a) (be_value b).
Proof.
  intros Ha. revert b. induction Ha as [|x a Hx Ha IH]; intros b Hb Hl.
  { destruct b; done. }
  destruct Hb as [|y b Hy Hb]; [done|]. injection Hl as Hl.
  specialize (IH b Hb Hl). unfold xor_bytes in *. cbn [zip_with be_value].
  pose proof (be_value_range a Ha) as Ra. pose proof (be_value_range b Hb) as Rb.
  pose proof (be_value_range _ (xor_bytes_ok a b Ha Hb)) as Rx. unfold xor_bytes in Rx.
  rewrite length_zip_with, <- Hl, Nat.min_id in *.
  assert (256 ^ Z.of_nat (length a) = 2 ^ (8 * Z.of_nat (length a))) as E
    by (rewrite Z.pow_mul_r by lia; done). rewrite E in *.
  apply Z.bits_inj'. intros k Hk. rewrite Z.lxor_spec, !testbit_split by lia.
  rewrite IH. destruct (Z.ltb_spec k (8 * Z.of_nat (length a))); by rewrite Z.lxor_spec.
Qed.

Lemma xor_bytes_reverse a b :
  length a = length b -> xor_bytes (reverse a) (reverse b) = reverse (xor_bytes a b).
Proof.
  revert b. induction a as [|x a IH]; intros [|y b] Hl; try done. injection Hl as Hl.
  cbn [xor_bytes zip_with]. rewrite !reverse_cons. unfold xor_bytes in *.
  rewrite zip_with_app by (by rewrite !length_reverse). by rewrite IH.
Qed.

(** Exclusive or of two words is that of their bytes, at every width. *)
Lemma xor_word_bytes w a b :
  length a = w -> length b = w -> bytes_ok a -> bytes_ok b ->
  le_image w (Z.lxor (le_value a) (le_value b)) = xor_bytes a b.
Proof.
  intros Ha Hb Oa Ob. unfold le_image, le_value.
  assert (bytes_ok (reverse a)) by (by apply Forall_reverse).
  assert (bytes_ok (reverse b)) by (by apply Forall_reverse).
  rewrite <- be_value_xor by (done || rewrite !length_reverse; congruence).
  rewrite xor_bytes_reverse by congruence.
  assert (length (reverse (xor_bytes a b)) = w) as <-
    by (rewrite length_reverse, length_xor_bytes; congruence).
  rewrite be_bytes_value; [apply reverse_involutive|].
  apply Forall_reverse. by apply xor_bytes_ok.
Qed.

(** [dst] with its first [i] bytes combined with those of [src]. *)
Definition xor_upto (dst src : chunk) (i : nat) : chunk :=
  xor_bytes (take i dst) (take i src) ++ drop i dst.

Section MemxorSpec.
Context (dst src : chunk) (n : nat).
Context (Hd : bytes_ok dst) (Hs : bytes_ok src).
Context (Hnd : (n <= length dst)%nat) (Hns : (n <= length src)%nat).

Lemma xor_upto_step w i :
  (i + w <= n)%nat -> xor_word w (xor_upto dst src i) src i = xor_upto dst src (i + w).
Proof.
  intros Hi. unfold xor_word, xor_upto.
  assert (length (xor_bytes (take i dst) (take i src)) = i) as Hl
    by (rewrite length_xor_bytes; len).
  rewrite drop_app_length' by done.
  rewrite xor_word_bytes by (len || bytes).
  unfold splice. rewrite take_app_length' by done.
  rewrite length_xor_bytes by len. rewrite length_take, length_drop, Nat.min_l by lia.
  rewrite drop_app_ge by lia. rewrite Hl, drop_drop, app_assoc.
  f_equal; [|f_equal; lia]. unfold xor_bytes.
  rewrite <- zip_with_app by len. f_equal; rewrite take_take_drop; f_equal; lia.
Qed.

Lemma memxor_align_spec L da f i :
  (i <= n)%nat -> exists j, (i <= j <= n)%nat /\
  memxor_align L da f (xor_upto dst src i) src n i = (xor_upto dst src j, j).
Proof.
  revert i. induction f as [|f IH]; intros i Hi; cbn [memxor_align]; [exists i; split; [lia|done]|].
  destruct (negb _ && (i <? n)%nat) eqn:E; [|exists i; split; [lia|done]].
  rewrite xor_upto_step by lia. rewrite Nat.add_1_r.
  destruct (IH (S i) ltac:(lia)) as (j & Hj & ->). exists j. split; [lia|done].
Qed.

Lemma memxor_words_spec f w i :
  (i <= n)%nat -> exists j, (i <= j <= n)%nat /\
  memxor_words f w (xor_upto dst src i) src n i = (xor_upto dst src j, j).
Proof.
  revert i. induction f as [|f IH]; intros i Hi; cbn [memxor_words]; [exists i; split; [lia|done]|].
  destruct (Z.leb_spec (Z.of_nat i) (Z.of_nat n - Z.of_nat w)); [|exists i; split; [lia|done]].
  rewrite xor_upto_step by lia.
  destruct (IH (i + w)%nat ltac:(lia)) as (j & Hj & ->). exists j. split; [lia|done].
Qed.

Lemma memxor_rest_spec f i :
  (i <= n)%nat -> (n <= i + f)%nat ->
  memxor_rest f (xor_upto dst src i) src n i = (xor_upto dst src n, n).
Proof.
  revert i. induction f as [|f IH]; intros i Hi Hf; cbn [memxor_rest].
  { by replace i with n by lia. }
  destruct (Nat.ltb_spec i n); [|by replace i with n by lia].
  rewrite xor_upto_step, Nat.add_1_r by lia. apply IH; lia.
Qed.

Lemma memxor_spec L da sa : memxor L da sa dst src n = xor_upto dst src n.
Proof.
  unfold memxor. change dst with (xor_upto dst src 0) at 1.
  destruct (memxor_align_spec L da n 0 ltac:(lia)) as (j & Hj & ->).
  assert (exists k, (k <= n)%nat /\
    (if (((sa + j) mod L =? 0)%nat) then memxor_words n L (xor_upto dst src j) src n j
     else if ((sa + j) mod L =? sizeof_int)%nat
     then memxor_words n sizeof_int (xor_upto dst src j) src n j
     else if ((sa + j) mod L =? sizeof_short)%nat
     then memxor_words n sizeof_short (xor_upto dst src j) src n j
     else (xor_upto dst src j, j)) = (xor_upto dst src k, k)) as (k & Hk & ->).
  { split_ifs; try (by exists j; split; [lia|]).
    all: match goal with |- context [memxor_words ?f ?w _ _ _ _] =>
           destruct (memxor_words_spec f w j ltac:(lia)) as (k & Hk & ->); exists k;
           split; [lia|done] end. }
  by rewrite memxor_rest_spec by lia.
Qed.
End MemxorSpec.

Lemma memeq_const_loop_spec a b len i bad :
  memeq_const_loop a b len i bad = 0 <->
  bad = 0 /\ forall j, (i <= j < i + len)%nat -> nth j a 0 = nth j b 0.
Proof.
  revert i bad. induction len as [|m IH]; intros i bad; cbn [memeq_const_loop].
  { split; [intros; split; [done|intros; lia]|by intros []]. }
  rewrite IH, Z.lor_eq_0_iff. split.
  - intros [[-> Hb] Hr]. split; [done|]. intros j Hj.
    destruct (decide (j = i)) as [->|]; [|apply Hr; lia].
    destruct (Z.eqb_spec (nth i a 0) (nth i b 0)); done.
  - intros [-> Hr]. rewrite (Hr i) by lia. rewrite Z.eqb_refl.
    split; [done|]. intros; apply Hr; lia.
Qed.

Lemma memeq_const_spec a b n :
  (n <= length a)%nat -> (n <= length b)%nat ->
  memeq_const a b n = bool_decide (take n a = take n b).
Proof.
  intros Ha Hb. unfold memeq_const. apply eq_true_iff_eq.
  rewrite Z.eqb_eq, memeq_const_loop_spec, bool_decide_eq_true. split.
  - intros [_ H]. apply (nth_ext _ _ 0 0); [len|].
    intros j Hj. rewrite length_take in Hj. rewrite !nth_take_lt by lia. apply H. lia.
  - intros H. split; [done|]. intros j Hj.
    rewrite <- (nth_take_lt a n), <- (nth_take_lt b n) by lia. by rewrite H.
Qed.

Lemma memstr_loop_spec hay needle f pos n :
  needle <> [] -> length hay = (pos + n)%nat -> (n < f)%nat ->
  match memstr_loop f hay needle pos n with
  | Some i => (pos <= i)%nat /\ take (length needle) (drop i hay) = needle /\
              forall j, (pos <= j < i)%nat -> take (length needle) (drop j hay) <> needle
  | None => forall j, (pos <= j)%nat -> take (length needle) (drop j hay) <> needle
  end.
Proof.
  intros Hn. revert pos n. induction f as [|f IH]; intros pos n Hl Hf; [lia|].
  assert (0 < length needle)%nat by (destruct needle; [done|simpl; lia]).
  assert (Hshort : forall j, (length hay < j + length needle)%nat ->
            take (length needle) (drop j hay) <> needle).
  { intros j Hj E. apply (f_equal length) in E. rewrite length_take, length_drop in E.
    lia. }
  cbn [memstr_loop]. destruct (Nat.leb_spec (length needle) n).
  2:{ intros j Hj. apply Hshort. lia. }
  case_bool_decide as E; [split_and!; [lia|done|intros; lia]|].
  specialize (IH (S pos) (n - 1)%nat ltac:(lia) ltac:(lia)).
  destruct (memstr_loop f hay needle (S pos) (n - 1)) as [i|].
  - destruct IH as (? & ? & Hlt). split_and!; [lia|done|]. intros j Hj.
    destruct (decide (j = pos)) as [->|]; [done|]. apply Hlt. lia.
  - intros j Hj. destruct (decide (j = pos)) as [->|]; [done|]. apply IH. lia.
Qed.

(** ** Properties *)

(** [memxor] is the byte-wise exclusive or of the first [n] bytes and leaves
    the rest of the destination as it was, whatever the word size and the
    alignment of the two buffers. *)
Theorem memxor_bytewise (sizeof_long dst_addr src_addr : nat) (dst src : chunk) (n : nat) :
  bytes_ok dst -> bytes_ok src -> (n <= length dst)%nat -> (n <= length src)%nat ->
  memxor sizeof_long dst_addr src_addr dst src n
  = zip_with Z.lxor (take n dst) (take n src) ++ drop n dst.
Proof. intros. by apply memxor_spec. Qed.

Lemma memxor_bytewise_witness :
  memxor 8 3 7 [1;2;3;4;5;6;7;8;9;10;11;12;13;14;15;16;17] (replicate 17 255) 16
  = [254;253;252;251;250;249;248;247;246;245;244;243;242;241;240;239;17].
Proof.
  apply (memxor_bytewise 8 3 7 [1;2;3;4;5;6;7;8;9;10;11;12;13;14;15;16;17] (replicate 17 255) 16);
    by apply (bool_decide_unpack _).
Defined.
