(* ===== verification/Chunk.v ===== *)
(** Byte strings: [src/libstrongswan/utils/chunk.c] and [chunk.h].  A chunk is
    the list of the bytes it points to; an operation that mutates the memory of
    a chunk returns the new contents. *)
From S2P Require Import Prelude.
From stdpp Require Import base numbers list strings.
From Stdlib Require Import Lia ZArith Ascii.
Local Open Scope Z_scope.

(** ** Splitting and comparing *)

Definition chunk_skip (c : chunk) (bytes : nat) : chunk :=
  if (bytes <? length c)%nat then drop bytes c else [].

Fixpoint chunk_skip_zero (c : chunk) : chunk :=
  match c with
  | b :: (_ :: _) as t => if b =? 0 then chunk_skip_zero t else c
  | _ => c
  end.

(** One (length, target) pair of the argument list of [chunk_split]: the target
    is [NULL], or a chunk of which only the current length matters. *)
Record split_arg := SplitArg { split_len : nat; split_target : option nat }.

(** [chunk_split(chunk, mode, ...)]: the contents the target chunks get, in
    order.  A [NULL] target skips bytes and does not consume a mode letter. *)
Fixpoint chunk_split (c : chunk) (mode : list ascii) (args : list split_arg)
    : list chunk :=
  match mode, args with
  | [], _ | _, [] => []
  | m :: mode', a :: args' =>
    match split_target a with
    | None => chunk_split (chunk_skip c (split_len a)) mode args'
    | Some tlen =>
      if (m =? "m")%char || (m =? "a")%char then
        let n := Nat.min (length c) (split_len a) in
        take n c :: chunk_split (chunk_skip c n) mode' args'
      else if (m =? "c")%char then
        let n := Nat.min (Nat.min tlen (length c)) (split_len a) in
        take n c :: chunk_split (chunk_skip c n) mode' args'
      else []
    end
  end.

Definition chunk_compare (a b : chunk) : Z :=
  let compare_len := Z.of_nat (length a) - Z.of_nat (length b) in
  let len := if compare_len <? 0 then length a else length b in
  if negb (compare_len =? 0) || (len =? 0)%nat then compare_len
  else memcmp len a b.

(** [chunk_increment]: the loop runs from the last byte; the boolean is the
    overflow the function returns. *)
Fixpoint chunk_increment_rev (rev_c : chunk) : chunk * bool :=
  match rev_c with
  | [] => ([], true)
  | b :: t =>
    let b' := u8 (b + 1) in
    if negb (b' =? 0) then (b' :: t, false)
    else let '(t', o) := chunk_increment_rev t in (b' :: t', o)
  end.

Definition chunk_increment (c : chunk) : chunk * bool :=
  let '(r, o) := chunk_increment_rev (reverse c) in (reverse r, o).

(** ** Internet checksum *)

Fixpoint checksum_loop (data : chunk) (sum : Z) : Z :=
  match data with
  | x :: y :: t => checksum_loop t (u32 (sum + untoh16 [x; y]))
  | [x] => u32 (sum + u32 (Z.shiftl (u16 x) 8))
  | [] => sum
  end.

(** [while (sum >> 16)] with [n] iterations at most. *)
Fixpoint checksum_fold (n : nat) (sum : Z) : Z :=
  match n with
  | O => sum
  | S n =>
    if Z.shiftr sum 16 =? 0 then sum
    else checksum_fold n (u32 (Z.land sum 65535 + Z.shiftr sum 16))
  end.

Definition chunk_internet_checksum_inc (data : chunk) (checksum : Z) : Z :=
  let sum := ntohs (u16 (Z.lnot checksum)) in
  let sum := checksum_loop data sum in
  let sum := checksum_fold 3 sum in
  htons (u16 (Z.lnot sum)).

Definition chunk_internet_checksum (data : chunk) : Z :=
  chunk_internet_checksum_inc data 65535.

(** ** Hexadecimal and base64 text *)

Definition chars (s : String.string) : chunk :=
  map (fun a => Z.of_N (N_of_ascii a)) (String.list_ascii_of_string s).

Definition hexdig_upper : chunk := chars "0123456789ABCDEF"%string.
Definition hexdig_lower : chunk := chars "0123456789abcdef"%string.

Definition tab (t : chunk) (i : Z) : Z := nth (Z.to_nat i) t 0.

Definition chunk_to_hex (c : chunk) (uppercase : bool) : chunk :=
  let hexdig := if uppercase then hexdig_upper else hexdig_lower in
  concat (map (fun b => [tab hexdig (Z.land (Z.shiftr b 4) 15);
                         tab hexdig (Z.land b 15)]) c).

Definition in_range (lo c hi : Z) : bool := (lo <=? c) && (c <=? hi).

Definition hex2bin (hex : Z) : Z :=
  if in_range 48 hex 57 then hex - 48
  else if in_range 65 hex 70 then hex - 65 + 10
  else if in_range 97 hex 102 then hex - 97 + 10
  else 0.

(** Filling the output from the right: [i] bytes are left to fill, [rev_hex]
    holds the characters before the read pointer, last one first; reading
    before the start of the text gives a character of value zero. *)
Fixpoint from_hex_loop (i : nat) (odd : bool) (rev_hex : chunk) : chunk :=
  match i with
  | O => []
  | S i' =>
    let next l := (nth 0 l 0, drop 1 l) in
    let '(h, l) := next rev_hex in
    let '(h, l) := if h =? 58 then next l else (h, l) in
    let lo := hex2bin h in
    if (0 <? i')%nat || negb odd then
      let '(h, l) := next l in
      from_hex_loop i' odd l ++ [u8 (Z.lor lo (Z.shiftl (hex2bin h) 4))]
    else from_hex_loop i' odd l ++ [lo]
  end.

Definition chunk_from_hex (hex : chunk) : chunk :=
  let hex := match hex with
             | a :: b :: _ => if (b =? 120) && (a =? 48) then chunk_skip hex 2 else hex
             | _ => hex
             end in
  let len := (length hex - length (List.filter (fun x => x =? 58)%Z hex))%nat in
  let odd := Nat.odd len in
  let len := if odd then S len else len in
  from_hex_loop (len / 2) odd (reverse hex).

Definition b64digits : chunk :=
  chars "ABCDEFGHIJKLMNOPQRSTUVWXYZabcdefghijklmnopqrstuvwxyz0123456789+/"%string.

Fixpoint chunk_to_base64 (c : chunk) : chunk :=
  match c with
  | [] => []
  | [x] =>
    [tab b64digits (Z.shiftr x 2); tab b64digits (Z.shiftl (Z.land x 3) 4); 61; 61]
  | [x; y] =>
    [tab b64digits (Z.shiftr x 2);
     tab b64digits (Z.lor (Z.shiftl (Z.land x 3) 4) (Z.shiftr y 4));
     tab b64digits (Z.shiftl (Z.land y 15) 2); 61]
  | x :: y :: z :: t =>
    [tab b64digits (Z.shiftr x 2);
     tab b64digits (Z.lor (Z.shiftl (Z.land x 3) 4) (Z.shiftr y 4));
     tab b64digits (Z.lor (Z.shiftl (Z.land y 15) 2) (Z.shiftr z 6));
     tab b64digits (Z.land z 63)] ++ chunk_to_base64 t
  end.

Definition b642bin (b64 : Z) : Z :=
  if in_range 65 b64 90 then b64 - 65
  else if in_range 97 b64 122 then 26 + b64 - 97
  else if in_range 48 b64 57 then 26 + 26 + b64 - 48
  else if (b64 =? 43) || (b64 =? 45) then 62
  else if (b64 =? 47) || (b64 =? 95) then 63
  else if b64 =? 61 then 0
  else -1.

(** One group of four characters: the three bytes of the buffer, and the
    running [outlen]. *)
Definition from_base64_outlen (outlen : nat) (p : Z) : nat :=
  if (p =? 61) && (0 <? outlen)%nat then (outlen - 1)%nat else outlen.

Fixpoint from_base64_loop (pos : chunk) (outlen : nat) : chunk * nat :=
  match pos with
  | p0 :: p1 :: p2 :: p3 :: t =>
    let outlen := fold_left from_base64_outlen [p0; p1; p2; p3] (outlen + 3)%nat in
    let b0 := u8 (b642bin p0) in let b1 := u8 (b642bin p1) in
    let b2 := u8 (b642bin p2) in let b3 := u8 (b642bin p3) in
    let '(rest, n) := from_base64_loop t outlen in
    (u8 (Z.lor (Z.shiftl b0 2) (Z.shiftr b1 4)) ::
     u8 (Z.lor (Z.shiftl b1 4) (Z.shiftr b2 2)) ::
     u8 (Z.lor (Z.shiftl b2 6) b3) :: rest, n)
  | _ => ([], outlen)
  end.

Definition chunk_from_base64 (base64 : chunk) : chunk :=
  let '(buf, outlen) := from_base64_loop base64 0 in take outlen buf.

(** ** Lemmas *)

Lemma chunk_skip_drop c n : chunk_skip c n = drop n c.
Proof.
  unfold chunk_skip. destruct (Nat.ltb_spec n (length c)); [done|].
  by rewrite drop_ge.
Qed.

Lemma length_chunk_skip c n : length (chunk_skip c n) = (length c - n)%nat.
Proof. rewrite chunk_skip_drop. apply length_drop. Qed.
#[export] Hint Rewrite length_chunk_skip : swan_len.

Lemma chunk_skip_bytes c n : bytes_ok c -> bytes_ok (chunk_skip c n).
Proof. intros. rewrite chunk_skip_drop. bytes. Qed.
#[export] Hint Resolve chunk_skip_bytes : swan_bytes.

(** Two consecutive move targets cover the chunk when their lengths do. *)
Lemma chunk_split_mm c n m :
  length c = (n + m)%nat ->
  chunk_split c ["m"%char; "m"%char] [SplitArg n (Some 0%nat); SplitArg m (Some 0%nat)]
  = [take n c; drop n c].
Proof.
  intros Hl. simpl.
  replace (Nat.min (length c) n) with n by lia.
  rewrite chunk_skip_drop, length_drop, Hl.
  replace (Nat.min (n + m - n) m) with m by lia.
  by rewrite (take_ge (drop n c)) by len.
Qed.

(** The value of a little-endian counter increments modulo its size. *)
Lemma chunk_increment_rev_spec r :
  bytes_ok r ->
  let '(r', o) := chunk_increment_rev r in
  length r' = length r /\ bytes_ok r' /\
  be_value (reverse r') + (if o then 256 ^ Z.of_nat (length r) else 0)
  = be_value (reverse r) + 1.
Proof.
  induction 1 as [|b t Hb Ht IH]; [done|]. cbn [chunk_increment_rev].
  rewrite !reverse_cons.
  assert (Hs : forall x l, be_value (reverse l ++ [x]) = be_value (reverse l) * 256 + x)
    by (intros; rewrite be_value_app; simpl; lia).
  unfold uwrap; unfold byte_ok in Hb. change (2 ^ 8) with 256.
  destruct (Z.eqb_spec ((b + 1) mod 256) 0) as [E|E]; simpl.
  - destruct (chunk_increment_rev t) as [t' o]. destruct IH as (Hl & Hok & IH).
    cbn [length]. split; [lia|]. split.
    { constructor; [apply Z.mod_pos_bound; lia|done]. }
    assert (b = 255) by (Z.div_mod_to_equations; lia). subst b.
    rewrite !reverse_cons, !Hs. change ((255 + 1) mod 256) with 0.
    destruct o; rewrite ?pow256_S; lia.
  - split; [done|]. split.
    { constructor; [apply Z.mod_pos_bound; lia|done]. }
    rewrite !reverse_cons, !Hs, Z.add_0_r.
    rewrite Z.mod_small by (Z.div_mod_to_equations; lia). lia.
Qed.

Lemma chunk_increment_value c :
  bytes_ok c ->
  let '(c', o) := chunk_increment c in
  length c' = length c /\ bytes_ok c' /\
  be_value c' + (if o then 256 ^ Z.of_nat (length c) else 0) = be_value c + 1.
Proof.
  intros Hc. unfold chunk_increment.
  pose proof (chunk_increment_rev_spec (reverse c) (proj2 (Forall_reverse _ _) Hc)) as H.
  destruct (chunk_increment_rev (reverse c)) as [r o].
  rewrite reverse_involutive, length_reverse in H. destruct H as (H1 & H2 & H3).
  rewrite length_reverse. split; [done|]. split; [by apply Forall_reverse|]. done.
Qed.

(** *** Checksum *)

(** The sum of the 16-bit words of a byte string, an odd last byte being the
    high byte of a word. *)
Fixpoint word_sum (l : chunk) : Z :=
  match l with
  | x :: y :: t => (256 * x + y) + word_sum t
  | [x] => 256 * x
  | [] => 0
  end.

(** Induction two bytes at a time. *)
Lemma list_ind2 {A} (P : list A -> Prop) :
  P [] -> (forall x, P [x]) -> (forall x y t, P t -> P (x :: y :: t)) -> forall l, P l.
Proof.
  intros H0 H1 H2. fix IH 1. intros [|x [|y t]]; [done|apply H1|]. apply H2, IH.
Qed.

Lemma word_sum_bounds l :
  bytes_ok l -> 0 <= word_sum l <= 65535 * Z.of_nat (Nat.div2 (S (length l))).
Proof.
  induction l as [|x|x y t IH] using list_ind2; intros Hl; [simpl; lia| |].
  - apply Forall_cons in Hl as [Hx _]. unfold byte_ok in Hx. simpl. lia.
  - apply Forall_cons in Hl as [Hx Hl]. apply Forall_cons in Hl as [Hy Hl].
    specialize (IH Hl). unfold byte_ok in *. simpl in *. lia.
Qed.

Lemma word_sum_zero l : bytes_ok l -> word_sum l = 0 -> Forall (fun b => b = 0) l.
Proof.
  induction l as [|x|x y t IH] using list_ind2; intros Hl E; [done| |].
  - apply Forall_cons in Hl as [Hx _]. unfold byte_ok in Hx. simpl in E.
    constructor; [lia|done].
  - apply Forall_cons in Hl as [Hx Hl]. apply Forall_cons in Hl as [Hy Hl].
    pose proof (word_sum_bounds t Hl). unfold byte_ok in *. simpl in E.
    repeat constructor; try lia. apply IH; [done|lia].
Qed.

Lemma word_sum_app l1 l2 :
  Nat.Even (length l1) -> word_sum (l1 ++ l2) = word_sum l1 + word_sum l2.
Proof.
  induction l1 as [|x|x y t IH] using list_ind2; intros He; [done| |].
  - destruct He as [k Hk]. simpl in Hk. lia.
  - simpl. rewrite IH; [lia|]. destruct He as [k Hk]. exists (k - 1)%nat. simpl in Hk. lia.
Qed.

Lemma untoh16_pair x y : byte_ok x -> byte_ok y -> untoh16 [x; y] = 256 * x + y.
Proof.
  intros. unfold untoh16. rewrite bswap_le_value; [simpl; lia|done|].
  simpl. bytes.
Qed.

Lemma checksum_loop_sum l s :
  bytes_ok l -> 0 <= s -> s + word_sum l < 2 ^ 32 ->
  checksum_loop l s = s + word_sum l.
Proof.
  revert s. induction l as [|x|x y t IH] using list_ind2; intros s Hl Hs Hb.
  - simpl. lia.
  - apply Forall_cons in Hl as [Hx _]. unfold byte_ok in Hx.
    cbn [checksum_loop word_sum] in *. rewrite Z.shiftl_mul_pow2 by lia.
    rewrite (uwrap_small 16 x), (uwrap_small 32 (x * 2 ^ 8)), uwrap_small by lia. lia.
  - apply Forall_cons in Hl as [Hx Hl]. apply Forall_cons in Hl as [Hy Hl].
    pose proof (word_sum_bounds t Hl). cbn [checksum_loop word_sum] in *.
    rewrite untoh16_pair by done. unfold byte_ok in *.
    rewrite uwrap_small by lia. rewrite IH by (done || lia). lia.
Qed.

(** The representative of a sum in one's complement arithmetic. *)
Definition ones_rep (s : Z) : Z := if s =? 0 then 0 else 1 + (s - 1) mod 65535.

Lemma checksum_fold_rep s : 0 <= s < 2 ^ 32 -> checksum_fold 3 s = ones_rep s.
Proof.
  intros Hs. unfold ones_rep.
  assert (Hstep : forall x, 0 <= x < 2 ^ 32 ->
    u32 (Z.land x 65535 + x / 65536) = x mod 65536 + x / 65536).
  { intros x Hx. change 65535 with (Z.ones 16). rewrite Z.land_ones by lia.
    apply uwrap_small. change (2 ^ 16) with 65536. Z.div_mod_to_equations; lia. }
  cbn [checksum_fold]. rewrite !Z.shiftr_div_pow2 by lia. change (2 ^ 16) with 65536.
  destruct (Z.eqb_spec (s / 65536) 0); destruct (Z.eqb_spec s 0); subst; try done.
  - Z.div_mod_to_equations; lia.
  - rewrite !Hstep by lia.
    set (s1 := s mod 65536 + s / 65536).
    assert (0 <= s1 < 131072) by (unfold s1; Z.div_mod_to_equations; lia).
    rewrite !Hstep by lia.
    destruct (Z.eqb_spec (s1 / 65536) 0) as [E1|E1].
    + unfold s1 in *. Z.div_mod_to_equations; lia.
    + set (s2 := s1 mod 65536 + s1 / 65536).
      assert (s2 / 65536 = 0) as -> by (unfold s2; Z.div_mod_to_equations; lia).
      simpl. unfold s2, s1 in *. Z.div_mod_to_equations; lia.
Qed.

Lemma ones_rep_range s : 0 <= s -> 0 <= ones_rep s <= 65535.
Proof. intros. unfold ones_rep. destruct (Z.eqb_spec s 0); [lia|]. Z.div_mod_to_equations; lia. Qed.

(** Replacing a summand by its representative does not change the result. *)
Lemma ones_rep_add a b : 0 <= a -> 0 <= b -> ones_rep (ones_rep a + b) = ones_rep (a + b).
Proof.
  intros Ha Hb. unfold ones_rep.
  destruct (Z.eqb_spec a 0) as [->|Hz]; [done|].
  pose proof (Z.mod_pos_bound (a - 1) 65535 ltac:(lia)).
  destruct (Z.eqb_spec (a + b) 0), (Z.eqb_spec (1 + (a - 1) mod 65535 + b) 0); try lia.
  f_equal.
  replace (1 + (a - 1) mod 65535 + b - 1) with ((a - 1) mod 65535 + b) by lia.
  rewrite Zplus_mod_idemp_l. f_equal. lia.
Qed.

(** A sum completed by the complement of its representative folds to all ones. *)
Lemma ones_rep_complete s : 0 <= s -> ones_rep (s + (65535 - ones_rep s)) = 65535.
Proof.
  intros Hs. unfold ones_rep at 2. destruct (Z.eqb_spec s 0) as [->|Hz]; [done|].
  pose proof (Z.mod_pos_bound (s - 1) 65535 ltac:(lia)).
  unfold ones_rep. destruct (Z.eqb_spec (s + (65535 - (1 + (s - 1) mod 65535))) 0) as [E|E].
  - lia.
  - rewrite (Z.div_mod (s - 1) 65535) at 1 by lia.
    Z.div_mod_to_equations; lia.
Qed.

Lemma u16_lnot x : 0 <= x < 65536 -> u16 (Z.lnot x) = 65535 - x.
Proof. intros. unfold uwrap, Z.lnot. Z.div_mod_to_equations; lia. Qed.

Lemma bswap2_eq v : 0 <= v < 65536 -> bswap 2 v = 256 * (v mod 256) + v / 256.
Proof.
  intros. unfold bswap. cbn [be_bytes]. change (256 ^ Z.of_nat 1) with 256.
  change (256 ^ Z.of_nat 0) with 1. cbn. Z.div_mod_to_equations; lia.
Qed.

Lemma bswap2_compl v : 0 <= v < 65536 -> bswap 2 (65535 - v) = 65535 - bswap 2 v.
Proof. intros. rewrite !bswap2_eq by lia. Z.div_mod_to_equations; lia. Qed.

Lemma bswap2_range v : 0 <= bswap 2 v < 65536.
Proof. apply bswap_range. Qed.

(** The checksum in terms of the sum of the words, in network order. *)
Lemma checksum_inc_value data c :
  bytes_ok data -> 0 <= c < 65536 ->
  65535 + word_sum data < 2 ^ 32 ->
  chunk_internet_checksum_inc data c
  = htons (65535 - ones_rep (ntohs (65535 - c) + word_sum data)).
Proof.
  intros Hd Hc Hb. unfold chunk_internet_checksum_inc.
  pose proof (word_sum_bounds data Hd).
  rewrite (u16_lnot c) by lia.
  pose proof (bswap2_range (65535 - c)) as Hn.
  rewrite checksum_loop_sum by (done || lia).
  rewrite checksum_fold_rep by lia.
  rewrite u16_lnot; [done|].
  pose proof (ones_rep_range (ntohs (65535 - c) + word_sum data)). lia.
Qed.

Lemma checksum_value data :
  bytes_ok data -> 65535 + word_sum data < 2 ^ 32 ->
  chunk_internet_checksum data = htons (65535 - ones_rep (word_sum data)).
Proof.
  intros. unfold chunk_internet_checksum. rewrite checksum_inc_value by (done || lia).
  change (ntohs (65535 - 65535)) with 0. by rewrite Z.add_0_l.
Qed.

Lemma chunk_checksum_range data c : 0 <= chunk_internet_checksum_inc data c < 65536.
Proof. apply bswap_range. Qed.

Lemma checksum_inc_app d1 d2 :
  bytes_ok d1 -> bytes_ok d2 -> Nat.Even (length d1) ->
  65535 + word_sum (d1 ++ d2) < 2 ^ 32 ->
  chunk_internet_checksum_inc d2 (chunk_internet_checksum d1)
  = chunk_internet_checksum (d1 ++ d2).
Proof.
  intros H1 H2 He Hb. rewrite word_sum_app in Hb by done.
  pose proof (word_sum_bounds d1 H1). pose proof (word_sum_bounds d2 H2).
  pose proof (ones_rep_range (word_sum d1) ltac:(lia)).
  rewrite (checksum_value (d1 ++ d2)) by (bytes || (rewrite word_sum_app; done || lia)).
  rewrite (checksum_value d1) by (done || lia).
  pose proof (bswap2_range (65535 - ones_rep (word_sum d1))).
  rewrite checksum_inc_value by (done || lia).
  rewrite <- bswap2_compl by lia.
  rewrite bswap_involutive by (simpl; lia).
  replace (65535 - (65535 - ones_rep (word_sum d1))) with (ones_rep (word_sum d1)) by lia.
  by rewrite ones_rep_add, word_sum_app by (done || lia).
Qed.

(** The memory image of a checksum stored in a 16-bit field contributes its
    host-order value to the sum of the words. *)
Lemma word_sum_image c : 0 <= c < 65536 -> word_sum (le_image 2 c) = ntohs c.
Proof.
  intros. rewrite <- (bswap_involutive 2 c) at 1 by (simpl; lia).
  pose proof (bswap2_range c). rewrite le_image_bswap. cbn [be_bytes].
  change (256 ^ Z.of_nat 1) with 256. change (256 ^ Z.of_nat 0) with 1. cbn [word_sum].
  Z.div_mod_to_equations; lia.
Qed.

Lemma checksum_inc_completes pre post c :
  bytes_ok pre -> bytes_ok post -> Nat.Even (length pre) -> 0 <= c < 65536 ->
  131070 + word_sum (pre ++ [0; 0] ++ post) < 2 ^ 32 ->
  let sum := chunk_internet_checksum_inc (pre ++ [0; 0] ++ post) c in
  chunk_internet_checksum_inc (pre ++ le_image 2 sum ++ post) c = 0.
Proof.
  intros Hp Hq He Hc Hb sum.
  assert (Hs : 0 <= sum < 65536) by apply chunk_checksum_range.
  assert (Hi : bytes_ok (le_image 2 sum)).
  { unfold le_image. apply Forall_reverse. bytes. }
  assert (Hw : forall w, length w = 2%nat ->
    word_sum (pre ++ w ++ post) = word_sum pre + (word_sum w + word_sum post)).
  { intros w Hwl. rewrite word_sum_app by done. f_equal. apply word_sum_app.
    rewrite Hwl. by exists 1%nat. }
  assert (Hil : length (le_image 2 sum) = 2%nat).
  { unfold le_image. by rewrite length_reverse, length_be_bytes. }
  rewrite (Hw [0; 0]) in Hb by done. cbn [word_sum] in Hb.
  pose proof (word_sum_bounds pre Hp). pose proof (word_sum_bounds post Hq).
  pose proof (bswap2_range sum) as Hbs.
  rewrite checksum_inc_value.
  - rewrite (Hw _ Hil), word_sum_image by done.
    set (b := ntohs (65535 - c)). pose proof (bswap2_range (65535 - c)) as Hbb. fold b in Hbb.
    assert (Hsv : ntohs sum = 65535 - ones_rep (b + (word_sum pre + word_sum post))).
    { unfold sum. rewrite checksum_inc_value.
      - rewrite (Hw [0; 0]) by done. cbn [word_sum]. fold b.
        pose proof (ones_rep_range (b + (word_sum pre + (256 * 0 + 0 + 0 + word_sum post)))).
        rewrite bswap_involutive by (simpl; lia). do 3 f_equal; lia.
      - bytes.
      - done.
      - rewrite (Hw [0; 0]) by done. cbn [word_sum]. lia. }
    rewrite Hsv.
    replace (b + (word_sum pre + (65535 - ones_rep (b + (word_sum pre + word_sum post)) + word_sum post)))
      with ((b + (word_sum pre + word_sum post)) + (65535 - ones_rep (b + (word_sum pre + word_sum post)))) by lia.
    rewrite ones_rep_complete by lia. done.
  - apply Forall_app_2; [done|]. apply Forall_app_2; done.
  - done.
  - rewrite (Hw _ Hil), word_sum_image by done. lia.
Qed.

(** *** Hexadecimal and base64 *)

(** A decidable fact about all integers of a small range, by evaluation. *)
Lemma range_check (f : Z -> bool) n k :
  forallb f (seqZ 0 n) = true -> 0 <= k < n -> f k = true.
Proof.
  intros Hf Hk. rewrite forallb_forall in Hf. apply Hf.
  apply list_elem_of_In, elem_of_seqZ. lia.
Qed.

Definition hexdig (up : bool) : chunk := if up then hexdig_upper else hexdig_lower.

Lemma hexdig_spec up k :
  0 <= k < 16 ->
  hex2bin (tab (hexdig up) k) = k /\ tab (hexdig up) k <> 58 /\ tab (hexdig up) k <> 120.
Proof.
  intros Hk.
  pose proof (range_check (fun k => (hex2bin (tab (hexdig up) k) =? k)
     && negb (tab (hexdig up) k =? 58) && negb (tab (hexdig up) k =? 120)) 16 k) as H.
  destruct up; specialize (H eq_refl Hk); cbv beta in H; lia.
Qed.

Lemma land_15 x : Z.land x 15 = x mod 16.
Proof. apply (Z.land_ones x 4). lia. Qed.

(** Joining a high part and a low part of [k] bits. *)
Lemma lor_shift_add a b k :
  0 <= k -> 0 <= b < 2 ^ k -> Z.lor (Z.shiftl a k) b = a * 2 ^ k + b.
Proof.
  intros Hk Hb. rewrite <- Z.shiftl_mul_pow2 by done.
  assert (Hz : Z.land (Z.shiftl a k) b = 0).
  { apply Z.bits_inj'. intros n Hn. rewrite Z.land_spec, Z.bits_0.
    destruct (Z.lt_ge_cases n k).
    - rewrite Z.shiftl_spec_low by lia. done.
    - rewrite <- (Z.mod_small b (2 ^ k)) by done.
      rewrite Z.mod_pow2_bits_high by lia. apply andb_false_r. }
  rewrite <- Z.lxor_lor by done. symmetry. by apply Z.add_nocarry_lxor.
Qed.

Lemma to_hex_snoc up c b :
  chunk_to_hex (c ++ [b]) up
  = chunk_to_hex c up ++ [tab (hexdig up) ((b / 16) mod 16); tab (hexdig up) (b mod 16)].
Proof.
  unfold chunk_to_hex. fold (hexdig up). rewrite map_app, concat_app. simpl.
  by rewrite !land_15, Z.shiftr_div_pow2 by lia.
Qed.

Lemma from_hex_loop_to_hex up c :
  bytes_ok c -> from_hex_loop (length c) false (reverse (chunk_to_hex c up)) = c.
Proof.
  induction c as [|b c IH] using rev_ind; intros Hc; [done|].
  apply Forall_app in Hc as [Hc Hb]. apply Forall_cons in Hb as [Hb _].
  unfold byte_ok in Hb. specialize (IH Hc).
  rewrite to_hex_snoc, reverse_app, length_app, Nat.add_1_r.
  change (reverse [?x; ?y]) with [y; x]. cbn [app from_hex_loop nth drop].
  pose proof (Z.mod_pos_bound b 16 ltac:(lia)).
  pose proof (Z.mod_pos_bound (b / 16) 16 ltac:(lia)).
  destruct (hexdig_spec up (b mod 16)) as (E1 & N1 & _); [done|].
  destruct (hexdig_spec up ((b / 16) mod 16)) as (E2 & _); [done|].
  rewrite (proj2 (Z.eqb_neq _ _) N1), orb_true_r. cbn [nth drop].
  rewrite E1, E2, drop_0, IH.
  f_equal. f_equal. rewrite Z.lor_comm, lor_shift_add by lia.
  rewrite uwrap_small; Z.div_mod_to_equations; lia.
Qed.

Lemma to_hex_no_colon up c :
  bytes_ok c -> List.filter (fun x => x =? 58) (chunk_to_hex c up) = [].
Proof.
  unfold chunk_to_hex. fold (hexdig up).
  induction 1 as [|b c Hb Hc IH]; [done|]. simpl.
  rewrite !land_15, Z.shiftr_div_pow2 by lia.
  destruct (hexdig_spec up ((b / 2 ^ 4) mod 16)) as (_ & N1 & _); [apply Z.mod_pos_bound; lia|].
  destruct (hexdig_spec up (b mod 16)) as (_ & N2 & _); [apply Z.mod_pos_bound; lia|].
  by rewrite (proj2 (Z.eqb_neq _ _) N1), (proj2 (Z.eqb_neq _ _) N2).
Qed.

Lemma length_to_hex up c : length (chunk_to_hex c up) = (2 * length c)%nat.
Proof. unfold chunk_to_hex. induction c; simpl in *; lia. Qed.

Lemma from_hex_to_hex up c : bytes_ok c -> chunk_from_hex (chunk_to_hex c up) = c.
Proof.
  intros Hc. unfold chunk_from_hex.
  assert (Hp : (match chunk_to_hex c up with
    | a :: b :: _ => if (b =? 120) && (a =? 48) then chunk_skip (chunk_to_hex c up) 2
                     else chunk_to_hex c up
    | _ => chunk_to_hex c up end) = chunk_to_hex c up).
  { destruct c as [|b c]; [done|]. unfold chunk_to_hex. fold (hexdig up). simpl.
    rewrite !land_15. destruct (hexdig_spec up (b mod 16)) as (_ & _ & N); [apply Z.mod_pos_bound; lia|].
    by rewrite (proj2 (Z.eqb_neq _ _) N). }
  rewrite Hp, to_hex_no_colon, length_to_hex by done. simpl length.
  rewrite Nat.sub_0_r.
  replace (Nat.odd (2 * length c)) with false
    by (symmetry; rewrite <- Nat.negb_even, Nat.even_mul; done).
  rewrite (Nat.mul_comm 2), Nat.div_mul by lia. by apply from_hex_loop_to_hex.
Qed.

Lemma b64digit_spec k :
  0 <= k < 64 -> b642bin (tab b64digits k) = k /\ tab b64digits k <> 61.
Proof.
  intros Hk.
  pose proof (range_check (fun k => (b642bin (tab b64digits k) =? k)
     && negb (tab b64digits k =? 61)) 64 k eq_refl Hk) as H. cbv beta in H. lia.
Qed.

Lemma u8_b64 k : 0 <= k < 64 -> u8 (b642bin (tab b64digits k)) = k.
Proof. intros. rewrite (proj1 (b64digit_spec k H)). apply uwrap_small. lia. Qed.

Lemma outlen_digit n k : 0 <= k < 64 -> from_base64_outlen n (tab b64digits k) = n.
Proof.
  intros Hk. unfold from_base64_outlen.
  by rewrite (proj2 (Z.eqb_neq _ _) (proj2 (b64digit_spec k Hk))).
Qed.

Lemma outlen_pad n : (0 < n)%nat -> from_base64_outlen n 61 = (n - 1)%nat.
Proof.
  intros. unfold from_base64_outlen. by destruct (Nat.ltb_spec 0 n); [|lia].
Qed.

Lemma list_ind3 {A} (P : list A -> Prop) :
  P [] -> (forall x, P [x]) -> (forall x y, P [x; y]) ->
  (forall x y z t, P t -> P (x :: y :: z :: t)) -> forall l, P l.
Proof.
  intros H0 H1 H2 H3. fix IH 1.
  intros [|x [|y [|z t]]]; [done|apply H1|apply H2|]. apply H3, IH.
Qed.

(** The bit fields a byte triple is cut into and joined from. *)
Lemma b64_join2 x y :
  byte_ok x -> byte_ok y ->
  Z.lor (Z.shiftl (Z.land x 3) 4) (Z.shiftr y 4) = (x mod 4) * 16 + y / 16.
Proof.
  intros Hx Hy. unfold byte_ok in *. change 3 with (Z.ones 2).
  rewrite Z.land_ones, Z.shiftr_div_pow2 by lia. change (2 ^ 4) with 16.
  apply (lor_shift_add (x mod 4) (y / 16) 4); [lia|]. Z.div_mod_to_equations; lia.
Qed.

Lemma b64_join3 y z :
  byte_ok y -> byte_ok z ->
  Z.lor (Z.shiftl (Z.land y 15) 2) (Z.shiftr z 6) = (y mod 16) * 4 + z / 64.
Proof.
  intros Hy Hz. unfold byte_ok in *. rewrite land_15, Z.shiftr_div_pow2 by lia.
  change (2 ^ 6) with 64.
  apply (lor_shift_add (y mod 16) (z / 64) 2); [lia|]. Z.div_mod_to_equations; lia.
Qed.

Lemma b64_pad2 x : Z.shiftl (Z.land x 3) 4 = (x mod 4) * 16.
Proof.
  change 3 with (Z.ones 2). by rewrite Z.land_ones, Z.shiftl_mul_pow2 by lia.
Qed.

Lemma b64_pad3 y : Z.shiftl (Z.land y 15) 2 = (y mod 16) * 4.
Proof. by rewrite land_15, Z.shiftl_mul_pow2 by lia. Qed.

Lemma land_63 x : Z.land x 63 = x mod 64.
Proof. apply (Z.land_ones x 6). lia. Qed.

Lemma u8_or_shift a b k :
  0 <= k <= 8 -> 0 <= b < 2 ^ k -> u8 (Z.lor (Z.shiftl a k) b) = (a * 2 ^ k + b) mod 256.
Proof. intros. unfold uwrap. by rewrite lor_shift_add by lia. Qed.

(** The byte a pair of adjacent six-bit digits yields, for the three
    positions of a byte in a group. *)
Lemma b64_byte0 x r : byte_ok x -> 0 <= r < 16 ->
  u8 (Z.lor (Z.shiftl (x / 4) 2) (Z.shiftr ((x mod 4) * 16 + r) 4)) = x.
Proof.
  intros Hx Hr. unfold byte_ok in Hx. rewrite Z.shiftr_div_pow2 by lia.
  change (2 ^ 4) with 16. rewrite u8_or_shift; [|lia|]; change (2 ^ 2) with 4;
  Z.div_mod_to_equations; lia.
Qed.

Lemma b64_byte1 l y r : byte_ok y -> 0 <= l < 4 -> 0 <= r < 4 ->
  u8 (Z.lor (Z.shiftl (l * 16 + y / 16) 4) (Z.shiftr ((y mod 16) * 4 + r) 2)) = y.
Proof.
  intros Hy Hl Hr. unfold byte_ok in Hy. rewrite Z.shiftr_div_pow2 by lia.
  change (2 ^ 2) with 4. rewrite u8_or_shift; [|lia|]; change (2 ^ 4) with 16;
  Z.div_mod_to_equations; lia.
Qed.

Lemma b64_byte2 l z : byte_ok z -> 0 <= l < 16 ->
  u8 (Z.lor (Z.shiftl (l * 4 + z / 64) 6) (z mod 64)) = z.
Proof.
  intros Hz Hl. unfold byte_ok in Hz.
  rewrite u8_or_shift; [|lia|]; change (2 ^ 6) with 64; Z.div_mod_to_equations; lia.
Qed.

Lemma from_base64_loop_spec c n :
  bytes_ok c ->
  exists buf, from_base64_loop (chunk_to_base64 c) n = (buf, (n + length c)%nat) /\
              take (length c) buf = c.
Proof.
  revert n. induction c as [|x|x y|x y z t IH] using list_ind3; intros n Hc.
  - exists []. simpl. split; [f_equal; lia|done].
  - apply Forall_cons in Hc as [Hx _]. pose proof Hx as Hx'. unfold byte_ok in Hx'.
    cbn [chunk_to_base64 from_base64_loop fold_left]. rewrite b64_pad2.
    rewrite (Z.shiftr_div_pow2 x) by lia. change (2 ^ 2) with 4.
    rewrite !outlen_digit, !u8_b64 by (Z.div_mod_to_equations; lia).
    eexists. split; [f_equal|].
    + rewrite (outlen_pad (n + 3)), ?outlen_pad by lia. simpl. lia.
    + cbn [length take]. f_equal. rewrite <- (b64_byte0 x 0) at 3 by (done || lia).
      by rewrite Z.add_0_r.
  - apply Forall_cons in Hc as [Hx Hc]. apply Forall_cons in Hc as [Hy _].
    pose proof Hx as Hx'. pose proof Hy as Hy'. unfold byte_ok in Hx', Hy'.
    cbn [chunk_to_base64 from_base64_loop fold_left]. rewrite b64_pad3, b64_join2 by done.
    rewrite (Z.shiftr_div_pow2 x) by lia. change (2 ^ 2) with 4.
    rewrite !outlen_digit, !u8_b64 by (Z.div_mod_to_equations; lia).
    eexists. split; [f_equal|].
    + rewrite (outlen_pad (n + 3)), ?outlen_pad by lia. simpl. lia.
    + cbn [length take]. f_equal; [|f_equal].
      * apply b64_byte0; [done|]. Z.div_mod_to_equations; lia.
      * rewrite <- (b64_byte1 (x mod 4) y 0) at 3; [by rewrite Z.add_0_r|done| |lia].
        Z.div_mod_to_equations; lia.
  - apply Forall_cons in Hc as [Hx Hc]. apply Forall_cons in Hc as [Hy Hc].
    apply Forall_cons in Hc as [Hz Hc].
    pose proof Hx as Hx'. pose proof Hy as Hy'. pose proof Hz as Hz'.
    unfold byte_ok in Hx', Hy', Hz'.
    cbn [chunk_to_base64 from_base64_loop fold_left app].
    rewrite b64_join2, b64_join3, land_63 by done.
    rewrite (Z.shiftr_div_pow2 x) by lia. change (2 ^ 2) with 4.
    rewrite !outlen_digit, !u8_b64 by (Z.div_mod_to_equations; lia).
    destruct (IH (n + 3)%nat Hc) as (buf & -> & Ht).
    eexists. split; [f_equal; simpl; lia|]. cbn [length take].
    rewrite b64_byte0, b64_byte1, b64_byte2, Ht; try done; Z.div_mod_to_equations; lia.
Qed.

Lemma from_base64_to_base64 c : bytes_ok c -> chunk_from_base64 (chunk_to_base64 c) = c.
Proof.
  intros Hc. unfold chunk_from_base64.
  by destruct (from_base64_loop_spec c 0 Hc) as (buf & -> & Ht).
Qed.

(** ** Properties *)

(** Every byte string survives the base64 encoding and its decoding. *)
Theorem base64_roundtrip (c : chunk) :
  bytes_ok c -> chunk_from_base64 (chunk_to_base64 c) = c.
Proof. apply from_base64_to_base64. Qed.

(** Every byte string survives the hexadecimal encoding, in either case of
    the digits, and its decoding. *)
Theorem hex_roundtrip (c : chunk) (uppercase : bool) :
  bytes_ok c -> chunk_from_hex (chunk_to_hex c uppercase) = c.
Proof. apply from_hex_to_hex. Qed.

(** A checksum field filled with the Internet checksum of the data around
    it, started from any partial sum, makes the checksum of the whole verify
    as zero. *)
Theorem internet_checksum_verifies (pre post : chunk) (c : Z) :
  bytes_ok pre -> bytes_ok post -> Nat.Even (length pre) -> 0 <= c < 65536 ->
  131070 + word_sum (pre ++ [0; 0] ++ post) < 2 ^ 32 ->
  let sum := chunk_internet_checksum_inc (pre ++ [0; 0] ++ post) c in
  chunk_internet_checksum_inc (pre ++ le_image 2 sum ++ post) c = 0.
Proof. apply checksum_inc_completes. Qed.

(** [chunk_increment] adds one to the big-endian number a chunk holds and
    reports the carry out of it. *)
Theorem chunk_increment_adds_one (c : chunk) :
  bytes_ok c ->
  let '(c', overflow) := chunk_increment c in
  length c' = length c /\ bytes_ok c' /\
  be_value c' + (if overflow then 256 ^ Z.of_nat (length c) else 0) = be_value c + 1.
Proof. apply chunk_increment_value. Qed.

(** *** Witnesses *)

Definition chunk_sample : chunk := [0; 255; 16; 77; 128].
Lemma chunk_sample_ok : bytes_ok chunk_sample.
Proof. by apply (bool_decide_unpack _). Defined.

Lemma base64_roundtrip_witness :
  chunk_from_base64 (chunk_to_base64 chunk_sample) = chunk_sample.
Proof. apply (base64_roundtrip chunk_sample chunk_sample_ok). Defined.

Lemma hex_roundtrip_witness : chunk_from_hex (chunk_to_hex chunk_sample true) = chunk_sample.
Proof. apply (hex_roundtrip chunk_sample true chunk_sample_ok). Defined.

Lemma internet_checksum_verifies_witness :
  chunk_internet_checksum_inc ([1; 2] ++ le_image 2
    (chunk_internet_checksum_inc ([1; 2] ++ [0; 0] ++ chunk_sample) 65535) ++ chunk_sample) 65535
  = 0.
Proof.
  apply (internet_checksum_verifies [1; 2] chunk_sample 65535); try (by apply (bool_decide_unpack _)).
  exists 1%nat. reflexivity.
Defined.

Lemma chunk_increment_adds_one_witness :
  chunk_increment [1; 255] = ([2; 0], false) /\
  let '(c', overflow) := chunk_increment [1; 255] in
  length c' = 2%nat /\ bytes_ok c' /\
  be_value c' + (if overflow then 256 ^ Z.of_nat 2 else 0) = be_value [1; 255] + 1.
Proof.
  split; [reflexivity|].
  apply (chunk_increment_adds_one [1; 255]). by apply (bool_decide_unpack _).
Defined.
