(* ===== verification/LinkedList.v ===== *)
(** Doubly linked lists, [src/libstrongswan/collections/linked_list.c], at the
    level of their pointers: the elements live in a heap, following a pointer to
    a freed element or dereferencing [NULL] is undefined ([None]), and so is the
    overflow of the element count.  A list is shown to implement the sequence of
    its values, and enumerators the walk over it with insertions and removals. *)
From S2P Require Import Prelude.
From stdpp Require Import base numbers list option gmap.
From Stdlib Require Import Lia ZArith.
Local Open Scope Z_scope.

Definition INT_MAX : Z := 2147483647.

Record element (V : Type) := Elem {
  value : V;
  previous : option nat;               (* None if first element in list *)
  next : option nat;                   (* None if last element in list *)
}.
Arguments Elem {V}. Arguments value {V}. Arguments previous {V}. Arguments next {V}.

(** The list object together with the heap its elements are allocated in. *)
Record linked_list (V : Type) := LList {
  heap : gmap nat (element V);
  free_addr : nat;                     (* addresses from here on are unused *)
  count : Z;
  first : option nat;
  last : option nat;
}.
Arguments LList {V}. Arguments heap {V}. Arguments free_addr {V}. Arguments count {V}.
Arguments first {V}. Arguments last {V}.

(** A list enumerator. *)
Record enumerator := Enum { current : option nat; finished : bool }.

Section List.
Context {V : Type}.
Abbreviation ll := (linked_list V).

Definition linked_list_create : ll := LList ∅ 0 0 None None.
Definition create_enumerator : enumerator := Enum None false.
Definition reset_enumerator (en : enumerator) : enumerator := Enum None false.
Definition get_count (this : ll) : Z := count this.

(** Assignments through a pointer. *)
Definition set_previous (h : gmap nat (element V)) (p : nat) (x : option nat)
    : option (gmap nat (element V)) :=
  e ← h !! p; Some (<[p := Elem (value e) x (next e)]> h).
Definition set_next (h : gmap nat (element V)) (p : nat) (x : option nat)
    : option (gmap nat (element V)) :=
  e ← h !! p; Some (<[p := Elem (value e) (previous e) x]> h).

Definition enumerate (this : ll) (en : enumerator) : option (option V * enumerator) :=
  if finished en then Some (None, en)
  else
    cur ← match current en with
          | None => Some (first this)
          | Some c => e ← heap this !! c; Some (next e)
          end;
    match cur with
    | None => Some (None, Enum None true)
    | Some c => e ← heap this !! c; Some (Some (value e), Enum (Some c) (finished en))
    end.

Definition incr_count (n : Z) : option Z := if n =? INT_MAX then None else Some (n + 1).

Definition insert_first (this : ll) (item : V) : option ll :=
  let id := free_addr this in
  let h := <[id := Elem item None None]> (heap this) in
  n ← incr_count (count this);
  if count this =? 0 then Some (LList h (S id) n (Some id) (Some id))
  else
    h ← set_next h id (first this);
    f ← first this;
    h ← set_previous h f (Some id);
    Some (LList h (S id) n (Some id) (last this)).

Definition insert_last (this : ll) (item : V) : option ll :=
  let id := free_addr this in
  let h := <[id := Elem item None None]> (heap this) in
  n ← incr_count (count this);
  if count this =? 0 then Some (LList h (S id) n (Some id) (Some id))
  else
    h ← set_previous h id (last this);
    l ← last this;
    h ← set_next h l (Some id);
    Some (LList h (S id) n (first this) (Some id)).

(** Unlink an element, returns the following one. *)
Definition remove_element (this : ll) (id : nat) : option (option nat * ll) :=
  e ← heap this !! id;
  let next := next e in
  let previous := previous e in
  let h := delete id (heap this) in
  '(h, last) ← match next with
               | Some n => h ← set_previous h n previous; Some (h, last this)
               | None => Some (h, previous)
               end;
  '(h, first) ← match previous with
                | Some p => h ← set_next h p next; Some (h, first this)
                | None => Some (h, next)
                end;
  let n := count this - 1 in
  Some (next, if n =? 0 then LList h (free_addr this) n None None
              else LList h (free_addr this) n first last).

Definition get_first (this : ll) : option (option V) :=
  if count this =? 0 then Some None
  else f ← first this; e ← heap this !! f; Some (Some (value e)).

Definition get_last (this : ll) : option (option V) :=
  if count this =? 0 then Some None
  else l ← last this; e ← heap this !! l; Some (Some (value e)).

Definition remove_first (this : ll) : option (option V * ll) :=
  item ← get_first this;
  match item with
  | Some v => f ← first this; '(_, this) ← remove_element this f; Some (Some v, this)
  | None => Some (None, this)
  end.

Definition remove_last (this : ll) : option (option V * ll) :=
  item ← get_last this;
  match item with
  | Some v => l ← last this; '(_, this) ← remove_element this l; Some (Some v, this)
  | None => Some (None, this)
  end.

Definition insert_before (this : ll) (en : enumerator) (item : V) : option ll :=
  match current en with
  | None => if finished en then insert_last this item else insert_first this item
  | Some c =>
    let id := free_addr this in
    let h := <[id := Elem item None None]> (heap this) in
    n ← incr_count (count this);
    ec ← h !! c;
    match previous ec with
    | Some p =>
      h ← set_next h p (Some id);
      h ← set_previous h id (Some p);
      h ← set_previous h c (Some id);
      h ← set_next h id (Some c);
      Some (LList h (S id) n (first this) (last this))
    | None =>
      h ← set_previous h c (Some id);
      h ← set_next h id (Some c);
      Some (LList h (S id) n (Some id) (last this))
    end
  end.

Definition remove_at (this : ll) (en : enumerator) : option (ll * enumerator) :=
  match current en with
  | None => Some (this, en)
  | Some c =>
    e ← heap this !! c;
    '(_, this) ← remove_element this c;
    Some (this, Enum (previous e) (finished en))
  end.

(** The loop of [remove]; [fuel] bounds the number of elements. *)
Fixpoint remove_loop (fuel : nat) (this : ll) (cur : option nat) (f : V -> bool) (removed : Z)
    : option (Z * ll) :=
  match fuel with
  | O => None
  | S fuel =>
    match cur with
    | None => Some (removed, this)
    | Some c =>
      e ← heap this !! c;
      if f (value e) then
        '(nxt, this) ← remove_element this c;
        remove_loop fuel this nxt f (removed + 1)
      else remove_loop fuel this (next e) f removed
    end
  end.

(** The condition of [remove]: the comparison function, or pointer equality. *)
Definition compares `{EqDecision V} (item : V) (compare : option (V -> V -> bool)) (v : V) : bool :=
  match compare with
  | Some compare => compare v item
  | None => bool_decide (v = item)
  end.

(** [remove]: all the elements that compare equal to the item. *)
Definition remove_ `{EqDecision V} (this : ll) (item : V) (compare : option (V -> V -> bool))
    : option (Z * ll) :=
  remove_loop (S (size (heap this))) this (first this) (compares item compare) 0.

(** A walk along the [next] pointers. *)
Fixpoint find_loop (fuel : nat) (h : gmap nat (element V)) (cur : option nat) (f : V -> bool)
    : option (option V) :=
  match fuel with
  | O => None
  | S fuel =>
    match cur with
    | None => Some None
    | Some c =>
      e ← h !! c;
      if f (value e) then Some (Some (value e)) else find_loop fuel h (next e) f
    end
  end.

(** [find_first] with the match function ([match] may be [NULL]) and what [item]
    points to ([None] for a [NULL] pointer). *)
Definition find_first `{EqDecision V} (this : ll) (matcher : option (V -> bool)) (item : option V)
    : option (option V) :=
  match matcher, item with
  | None, None => Some None
  | Some f, _ => find_loop (S (size (heap this))) (heap this) (first this) f
  | None, Some x => find_loop (S (size (heap this))) (heap this) (first this) (fun v => bool_decide (v = x))
  end.

(** [invoke_function]: the values the function is called with, in order. *)
Fixpoint invoke_loop (fuel : nat) (h : gmap nat (element V)) (cur : option nat) : option (list V) :=
  match fuel with
  | O => None
  | S fuel =>
    match cur with
    | None => Some []
    | Some c => e ← h !! c; vs ← invoke_loop fuel h (next e); Some (value e :: vs)
    end
  end.

Definition invoke_function (this : ll) : option (list V) :=
  invoke_loop (S (size (heap this))) (heap this) (first this).

Fixpoint equals_loop (fuel : nat) (h h' : gmap nat (element V)) (cur cur' : option nat)
    (fn : V -> V -> bool) : option bool :=
  match fuel with
  | O => None
  | S fuel =>
    match cur, cur' with
    | Some c, Some c' =>
      e ← h !! c; e' ← h' !! c';
      if fn (value e) (value e') then equals_loop fuel h h' (next e) (next e') fn else Some false
    | _, _ => Some true
    end
  end.

Definition equals_function (this other : ll) (fn : V -> V -> bool) : option bool :=
  if negb (count this =? count other) then Some false
  else equals_loop (S (size (heap this))) (heap this) (heap other) (first this) (first other) fn.

(** The loop of [destroy], with the elements that are left allocated. *)
Fixpoint destroy_loop (fuel : nat) (this : ll) : option ll :=
  match fuel with
  | O => None
  | S fuel =>
    '(item, this) ← remove_first this;
    match item with Some _ => destroy_loop fuel this | None => Some this end
  end.

Definition destroy (this : ll) : option (gmap nat (element V)) :=
  this ← destroy_loop (S (size (heap this))) this; Some (heap this).

(** The loop of [destroy_function] and [destroy_offset]: the values that are
    destroyed, in order, and the elements that are left allocated. *)
Fixpoint destroy_function_loop (fuel : nat) (h : gmap nat (element V)) (cur : option nat)
    : option (list V * gmap nat (element V)) :=
  match fuel with
  | O => None
  | S fuel =>
    match cur with
    | None => Some ([], h)
    | Some c =>
      e ← h !! c;
      '(vs, h) ← destroy_function_loop fuel (delete c h) (next e);
      Some (value e :: vs, h)
    end
  end.

Definition destroy_function (this : ll) : option (list V * gmap nat (element V)) :=
  destroy_function_loop (S (size (heap this))) (heap this) (first this).
End List.

(** [clone_offset], with the method at the offset as a function. *)
Fixpoint clone_loop {V : Type} (fuel : nat) (h : gmap nat (element V)) (cur : option nat)
    (method : V -> V) (clone : linked_list V) : option (linked_list V) :=
  match fuel with
  | O => None
  | S fuel =>
    match cur with
    | None => Some clone
    | Some c =>
      e ← h !! c;
      clone ← insert_last clone (method (value e));
      clone_loop fuel h (next e) method clone
    end
  end.

Definition clone_offset {V : Type} (this : linked_list V) (method : V -> V) : option (linked_list V) :=
  clone_loop (S (size (heap this))) (heap this) (first this) method linked_list_create.

(** ** Representation *)
Section Rep.
Context {V : Type}.
Abbreviation ll := (linked_list V).
Abbreviation store := (gmap nat (element V)).

Abbreviation addrs xs := (fst <$> xs).
Abbreviation vals xs := (snd <$> xs).

(** The pointer to the first element of a segment, or to what follows it. *)
Definition head_ptr (xs : list (nat * V)) (nxt : option nat) : option nat :=
  match xs with [] => nxt | (id, _) :: _ => Some id end.

Fixpoint last_ptr (prev : option nat) (xs : list (nat * V)) : option nat :=
  match xs with [] => prev | (id, _) :: xs => last_ptr (Some id) xs end.

(** A doubly linked segment between two pointers. *)
Fixpoint dseg (h : store) (prev : option nat) (xs : list (nat * V)) (nxt : option nat) : Prop :=
  match xs with
  | [] => True
  | (id, v) :: xs => h !! id = Some (Elem v prev (head_ptr xs nxt)) /\ dseg h (Some id) xs nxt
  end.

(** The list holds the values at the addresses, and nothing else is allocated. *)
Definition rep (this : ll) (xs : list (nat * V)) : Prop :=
  dseg (heap this) None xs None /\ NoDup (addrs xs) /\
  (forall id, is_Some (heap this !! id) <-> id ∈ addrs xs) /\
  (forall id, id ∈ addrs xs -> (id < free_addr this)%nat) /\
  count this = Z.of_nat (length xs) /\ count this <= INT_MAX /\
  first this = head_ptr xs None /\ last this = last_ptr None xs.

Lemma head_ptr_app xs ys nxt : head_ptr (xs ++ ys) nxt = head_ptr xs (head_ptr ys nxt).
Proof. by destruct xs as [|[]]. Qed.

Lemma last_ptr_app prev xs ys : last_ptr prev (xs ++ ys) = last_ptr (last_ptr prev xs) ys.
Proof. revert prev. induction xs as [|[id v] xs IH]; intros prev; [done|apply IH]. Qed.

Lemma dseg_app h prev xs ys nxt :
  dseg h prev (xs ++ ys) nxt <->
  dseg h prev xs (head_ptr ys nxt) /\ dseg h (last_ptr prev xs) ys nxt.
Proof.
  revert prev. induction xs as [|[id v] xs IH]; intros prev; cbn; [tauto|].
  rewrite IH, head_ptr_app. tauto.
Qed.

(** A segment depends only on its own elements. *)
Lemma dseg_frame h h' prev xs nxt :
  (forall id, id ∈ addrs xs -> h' !! id = h !! id) -> dseg h prev xs nxt -> dseg h' prev xs nxt.
Proof.
  revert prev. induction xs as [|[id v] xs IH]; intros prev Hf; [done|]. cbn. intros [Hid Hs]. split.
  - rewrite Hf; [done|]. cbn. left.
  - apply IH; [|done]. intros i Hi. apply Hf. cbn. by right.
Qed.

Lemma set_previous_seg h prev n v xs nxt x :
  dseg h prev ((n, v) :: xs) nxt -> n ∉ addrs xs ->
  exists h', set_previous h n x = Some h' /\ dseg h' x ((n, v) :: xs) nxt /\
    (forall i, i <> n -> h' !! i = h !! i) /\ (forall i, is_Some (h' !! i) <-> is_Some (h !! i)).
Proof.
  cbn. intros [Hn Hs] Hni. unfold set_previous. rewrite Hn. cbn. eexists. split; [reflexivity|].
  split; [split; [by rewrite lookup_insert_eq|]|split].
  - eapply dseg_frame; [|exact Hs]. intros i Hi. apply lookup_insert_ne. by intros ->.
  - intros i Hi. by apply lookup_insert_ne.
  - intros i. rewrite lookup_insert_is_Some'. split; [|by right]. intros [<-|?]; [by rewrite Hn|done].
Qed.

Lemma set_next_seg h prev p v xs nxt x :
  dseg h prev (xs ++ [(p, v)]) nxt -> p ∉ addrs xs ->
  exists h', set_next h p x = Some h' /\ dseg h' prev (xs ++ [(p, v)]) x /\
    (forall i, i <> p -> h' !! i = h !! i) /\ (forall i, is_Some (h' !! i) <-> is_Some (h !! i)).
Proof.
  rewrite dseg_app. cbn. intros [Hs [Hp _]] Hni. unfold set_next. rewrite Hp. cbn.
  eexists. split; [reflexivity|]. split; [apply dseg_app; cbn; split; [|by rewrite lookup_insert_eq]|split].
  - eapply dseg_frame; [|exact Hs]. intros i Hi. apply lookup_insert_ne. by intros ->.
  - intros i Hi. by apply lookup_insert_ne.
  - intros i. rewrite lookup_insert_is_Some'. split; [|by right]. intros [<-|?]; [by rewrite Hp|done].
Qed.

(** The pointers that [next] and [previous] of an element are. *)
Lemma rep_lookup l pre id v post :
  rep l (pre ++ (id, v) :: post) ->
  heap l !! id = Some (Elem v (last_ptr None pre) (head_ptr post None)).
Proof. intros (Hs & _). apply dseg_app in Hs as [_ Hs]. cbn in Hs. by destruct Hs. Qed.

(** Making room for, and closing the gap behind, an element in the middle. *)
Lemma relink_next h pre post x (Hnd : NoDup (addrs (pre ++ post))) nxt :
  dseg h None pre nxt -> dseg h x post None ->
  exists h', match head_ptr post None with
             | Some n => set_previous h n (last_ptr None pre)
             | None => Some h
             end = Some h' /\
    dseg h' None pre nxt /\ dseg h' (last_ptr None pre) post None /\
    (forall i, i ∉ addrs post -> h' !! i = h !! i) /\ (forall i, is_Some (h' !! i) <-> is_Some (h !! i)).
Proof.
  intros Hpre Hpost. rewrite fmap_app in Hnd. apply NoDup_app in Hnd as (_ & Hdis & Hnd).
  destruct post as [|[n v] post]; cbn [head_ptr]; [by exists h|].
  cbn in Hnd. apply NoDup_cons in Hnd as [Hn _].
  destruct (set_previous_seg h x n v post None (last_ptr None pre) Hpost Hn) as (h' & -> & Hs & Hf & Hd).
  exists h'. split_and!; try done.
  - eapply dseg_frame; [|exact Hpre]. intros i Hi. apply Hf. intros ->. apply (Hdis n Hi). cbn. left.
  - intros i Hi. apply Hf. intros ->. apply Hi. cbn. left.
Qed.

Lemma relink_prev h pre post x (Hnd : NoDup (addrs (pre ++ post))) prv :
  dseg h None pre x -> dseg h prv post None ->
  exists h', match last_ptr None pre with
             | Some p => set_next h p (head_ptr post None)
             | None => Some h
             end = Some h' /\
    dseg h' None pre (head_ptr post None) /\ dseg h' prv post None /\
    (forall i, i ∉ addrs pre -> h' !! i = h !! i) /\ (forall i, is_Some (h' !! i) <-> is_Some (h !! i)).
Proof.
  intros Hpre Hpost. rewrite fmap_app in Hnd. apply NoDup_app in Hnd as (Hnd & Hdis & _).
  destruct pre as [|[p v] pre _] using rev_ind; [by exists h|].
  rewrite last_ptr_app. cbn [last_ptr]. rewrite fmap_app in Hnd, Hdis. apply NoDup_app in Hnd as (_ & Hp & _).
  destruct (set_next_seg h None p v pre x (head_ptr post None) Hpre) as (h' & -> & Hs & Hf & Hd).
  { intros Hin. apply (Hp p Hin). cbn. left. }
  exists h'. split_and!; try done.
  - eapply dseg_frame; [|exact Hpost]. intros i Hi. apply Hf. intros ->.
    apply (Hdis p); [|done]. apply elem_of_app. right. cbn. left.
  - intros i Hi. apply Hf. intros ->. apply Hi. rewrite fmap_app. apply elem_of_app. right. cbn. left.
Qed.

Lemma remove_element_rep l pre id v post :
  rep l (pre ++ (id, v) :: post) ->
  exists l', remove_element l id = Some (head_ptr post None, l') /\ rep l' (pre ++ post) /\
             free_addr l' = free_addr l.
Proof.
  intros Hrep. pose proof (rep_lookup _ _ _ _ _ Hrep) as Hid.
  destruct Hrep as (Hs & Hnd & Hdom & Hfree & Hc & Hmax & Hf & Hl).
  assert ((id ∉ addrs (pre ++ post)) /\ NoDup (addrs (pre ++ post))) as [Hni Hnd'].
  { rewrite fmap_app, fmap_cons in Hnd. rewrite fmap_app.
    rewrite <- Permutation_middle in Hnd. by apply NoDup_cons in Hnd. }
  apply dseg_app in Hs as [Hpre [_ Hpost]]. cbn in Hpre.
  unfold remove_element. rewrite Hid. cbn [mbind option_bind next previous].
  set (h0 := delete id (heap l)).
  assert (forall xs prev nxt, id ∉ addrs xs -> dseg (heap l) prev xs nxt -> dseg h0 prev xs nxt) as Hdel.
  { intros xs prev nxt Hx. apply dseg_frame. intros i Hi. apply lookup_delete_ne. by intros ->. }
  rewrite fmap_app in Hni. apply not_elem_of_app in Hni as [Hni1 Hni2].
  destruct (relink_next h0 pre post (Some id) Hnd' (Some id)) as (h1 & E1 & P1 & Q1 & _ & D1); [by apply Hdel..|].
  destruct (relink_prev h1 pre post (Some id) Hnd' (last_ptr None pre) P1 Q1) as (h2 & E2 & P2 & Q2 & _ & D2).
  assert (exists la, match head_ptr post None with
          | Some n => h ← set_previous h0 n (last_ptr None pre); Some (h, last l)
          | None => Some (h0, last_ptr None pre)
          end = Some (h1, la) /\ la = last_ptr None (pre ++ post)) as (la & -> & Hla).
  { rewrite last_ptr_app. destruct post as [|[n vn] post]; cbn [head_ptr] in *.
    - injection E1 as <-. by eexists.
    - rewrite E1. eexists. split; [reflexivity|]. rewrite Hl, last_ptr_app. done. }
  cbn [mbind option_bind].
  assert (exists fi, match last_ptr None pre with
          | Some p => h ← set_next h1 p (head_ptr post None); Some (h, first l)
          | None => Some (h1, head_ptr post None)
          end = Some (h2, fi) /\ fi = head_ptr (pre ++ post) None) as (fi & -> & Hfi).
  { rewrite head_ptr_app. destruct (last_ptr None pre) as [p|] eqn:El.
    - rewrite E2. eexists. split; [reflexivity|]. rewrite Hf, head_ptr_app.
      destruct pre as [|[]]; done.
    - injection E2 as <-. eexists. split; [reflexivity|]. destruct pre as [|[i w] pre]; [done|].
      exfalso. clear -El. cbn in El. revert i w El. induction pre as [|[j u] pre IH]; [done|]. cbn. eauto. }
  cbn [mbind option_bind]. eexists. split; [reflexivity|]. rewrite length_app in Hc. cbn in Hc.
  assert (rep (LList h2 (free_addr l) (count l - 1) fi la) (pre ++ post)) as Hr.
  { split_and!; cbn [heap free_addr count first last]; try done; [| | |rewrite length_app|]; try lia.
    - by apply dseg_app.
    - intros i. rewrite D2, D1. unfold h0. rewrite lookup_delete_is_Some, Hdom, !fmap_app, fmap_cons.
      rewrite !elem_of_app, elem_of_cons. cbn [fst]. split.
      + intros [? [?|[?|?]]]; [by left|congruence|by right].
      + intros Hi. split; [intros <-; tauto|tauto].
    - intros i Hi. apply Hfree. rewrite fmap_app, fmap_cons. rewrite fmap_app in Hi.
      apply elem_of_app in Hi. apply elem_of_app. rewrite elem_of_cons. tauto. }
  destruct (Z.eqb_spec (count l - 1) 0) as [E|E]; [|done]. split; [|done].
  assert (pre ++ post = []) as Hnil by (apply nil_length_inv; rewrite length_app; lia).
  rewrite Hnil in *. destruct Hr as (R1 & R2 & R3 & R4 & R5 & R6 & _). by split_and!.
Qed.

(** ** Insertion *)

Lemma rep_fresh l xs : rep l xs -> (free_addr l ∉ addrs xs) /\ heap l !! free_addr l = None.
Proof.
  intros (_ & _ & Hdom & Hfree & _). assert (free_addr l ∉ addrs xs) as Hn.
  { intros Hin. apply Hfree in Hin. lia. }
  split; [done|]. apply eq_None_not_Some. by rewrite Hdom.
Qed.

(** The list after an element was linked in between two parts. *)
Lemma link_rep l pre post v h' (id := free_addr l) :
  rep l (pre ++ post) -> count l < INT_MAX ->
  dseg h' None pre (Some id) -> h' !! id = Some (Elem v (last_ptr None pre) (head_ptr post None)) ->
  dseg h' (Some id) post None -> (forall i, is_Some (h' !! i) <-> i = id \/ is_Some (heap l !! i)) ->
  rep (LList h' (S id) (count l + 1) (head_ptr (pre ++ (id, v) :: post) None)
         (last_ptr None (pre ++ (id, v) :: post))) (pre ++ (id, v) :: post).
Proof.
  intros Hrep Hc Hpre Hid Hpost Hd. destruct (rep_fresh _ _ Hrep) as [Hni _].
  destruct Hrep as (_ & Hnd & Hdom & Hfree & Hcnt & _).
  split_and!; cbn [heap free_addr count first last]; try done; try lia.
  - apply dseg_app. cbn. by split_and!.
  - rewrite fmap_app, fmap_cons, <- Permutation_middle. constructor; [by rewrite <- fmap_app|].
    by rewrite <- fmap_app.
  - intros i. rewrite Hd, Hdom, !fmap_app, fmap_cons, !elem_of_app, elem_of_cons. cbn [fst]. tauto.
  - intros i. rewrite fmap_app, fmap_cons, elem_of_app, elem_of_cons. cbn [fst].
    intros [Hi|[->|Hi]]; [|lia|]; assert (i < id)%nat; try lia; apply Hfree;
      rewrite fmap_app, elem_of_app; tauto.
  - rewrite Hcnt, !length_app. cbn. lia.
Qed.

Lemma set_previous_at (h : store) id v p n x :
  h !! id = Some (Elem v p n) -> set_previous h id x = Some (<[id := Elem v x n]> h).
Proof. intros E. unfold set_previous. by rewrite E. Qed.

Lemma set_next_at (h : store) id v p n x :
  h !! id = Some (Elem v p n) -> set_next h id x = Some (<[id := Elem v p x]> h).
Proof. intros E. unfold set_next. by rewrite E. Qed.

(** Storing into an element outside of a segment. *)
Lemma dseg_insert h prev xs nxt id e :
  id ∉ addrs xs -> dseg h prev xs nxt -> dseg (<[id := e]> h) prev xs nxt.
Proof. intros Hn. apply dseg_frame. intros i Hi. apply lookup_insert_ne. by intros ->. Qed.

Lemma insert_dom (h : store) id e i : is_Some (<[id := e]> h !! i) <-> i = id \/ is_Some (h !! i).
Proof. rewrite lookup_insert_is_Some'. split; intros [?|?]; auto. Qed.

Lemma incr_count_ok n : n < INT_MAX -> incr_count n = Some (n + 1).
Proof. intros. unfold incr_count. destruct (Z.eqb_spec n INT_MAX); [lia|done]. Qed.

Lemma insert_first_rep l xs v :
  rep l xs -> count l < INT_MAX ->
  exists l', insert_first l v = Some l' /\ rep l' ((free_addr l, v) :: xs).
Proof.
  intros Hrep Hmax. pose proof (rep_fresh _ _ Hrep) as [Hni Hnone].
  pose proof Hrep as (Hs & Hnd & Hdom & _ & Hc & _ & Hf & Hl).
  unfold insert_first. rewrite incr_count_ok by done. cbn [mbind option_bind].
  set (id := free_addr l) in *. destruct xs as [|[n w] xs].
  - assert ((count l =? 0) = true) as -> by (cbn in Hc; lia). eexists. split; [reflexivity|].
    apply (link_rep l [] [] v); try done; [by rewrite lookup_insert_eq|intros i; apply insert_dom].
  - assert ((count l =? 0) = false) as -> by (cbn in Hc; lia).
    rewrite (set_next_at _ id v None None) by (by rewrite lookup_insert_eq). cbn [mbind option_bind].
    rewrite insert_insert_eq, Hf. cbn [head_ptr mbind option_bind].
    assert (dseg (<[id := Elem v None (Some n)]> (heap l)) None ((n, w) :: xs) None) as Hs1
      by (by apply dseg_insert).
    cbn in Hnd. apply NoDup_cons in Hnd as [Hn _].
    destruct (set_previous_seg _ _ _ _ _ _ (Some id) Hs1 Hn) as (h' & -> & Hs' & Hframe & Hd).
    cbn [mbind option_bind]. eexists. split; [reflexivity|].
    rewrite Hl. apply (link_rep l [] ((n, w) :: xs) v); try done.
    + rewrite Hframe; [by rewrite lookup_insert_eq|]. intros E. apply Hni. cbn. rewrite <- E. left.
    + intros i. rewrite Hd. apply insert_dom.
Qed.

Lemma insert_last_rep l xs v :
  rep l xs -> count l < INT_MAX ->
  exists l', insert_last l v = Some l' /\ rep l' (xs ++ [(free_addr l, v)]).
Proof.
  intros Hrep Hmax. pose proof (rep_fresh _ _ Hrep) as [Hni Hnone].
  pose proof Hrep as (Hs & Hnd & Hdom & _ & Hc & _ & Hf & Hl).
  unfold insert_last. rewrite incr_count_ok by done. cbn [mbind option_bind].
  set (id := free_addr l) in *. destruct xs as [|[p w] xs _] using rev_ind.
  - assert ((count l =? 0) = true) as -> by (cbn in Hc; lia). eexists. split; [reflexivity|].
    apply (link_rep l [] [] v); try done; [by rewrite lookup_insert_eq|intros i; apply insert_dom].
  - assert ((count l =? 0) = false) as -> by (rewrite length_app in Hc; cbn in Hc; lia).
    rewrite (set_previous_at _ id v None None) by (by rewrite lookup_insert_eq). cbn [mbind option_bind].
    rewrite insert_insert_eq, Hl, last_ptr_app. cbn [last_ptr mbind option_bind].
    assert (dseg (<[id := Elem v (Some p) None]> (heap l)) None (xs ++ [(p, w)]) None) as Hs1
      by (by apply dseg_insert).
    rewrite fmap_app in Hnd. apply NoDup_app in Hnd as (_ & Hdis & _).
    destruct (set_next_seg _ _ _ _ _ _ (Some id) Hs1) as (h' & -> & Hs' & Hframe & Hd).
    { intros Hin. apply (Hdis p Hin). cbn. left. }
    cbn [mbind option_bind]. eexists. split; [reflexivity|].
    pose proof (link_rep l (xs ++ [(p, w)]) [] v h') as Hlink. rewrite app_nil_r in Hlink.
    assert (first l = head_ptr ((xs ++ [(p, w)]) ++ [(id, v)]) None) as ->
      by (rewrite Hf, !head_ptr_app; by destruct xs as [|[]]).
    assert (Some id = last_ptr None ((xs ++ [(p, w)]) ++ [(id, v)])) as Hlast by (by rewrite last_ptr_app).
    rewrite Hlast. apply Hlink; try done.
    + rewrite Hframe; [by rewrite lookup_insert_eq, last_ptr_app|]. intros E. apply Hni.
      rewrite fmap_app. apply elem_of_app. right. cbn. rewrite <- E. left.
    + intros i. rewrite Hd. apply insert_dom.
Qed.

Lemma insert_before_rep l pre c w post v fin :
  rep l (pre ++ (c, w) :: post) -> count l < INT_MAX ->
  exists l', insert_before l (Enum (Some c) fin) v = Some l' /\
             rep l' (pre ++ (free_addr l, v) :: (c, w) :: post).
Proof.
  intros Hrep Hmax. pose proof (rep_fresh _ _ Hrep) as [Hni Hnone].
  pose proof (rep_lookup _ _ _ _ _ Hrep) as Hc0.
  pose proof Hrep as (Hs & Hnd & Hdom & _ & Hc & _ & Hf & Hl).
  unfold insert_before. cbn [current]. rewrite incr_count_ok by done. cbn [mbind option_bind].
  set (id := free_addr l) in *. rewrite fmap_app in Hni. apply not_elem_of_app in Hni as [Hni1 Hni2].
  assert (id <> c) as Hidc by (intros E; apply Hni2; cbn; rewrite <- E; left).
  rewrite lookup_insert_ne by done. rewrite Hc0. cbn [mbind option_bind previous].
  apply dseg_app in Hs as [Hpre Hpost]. cbn [head_ptr] in Hpre.
  rewrite fmap_app in Hnd. apply NoDup_app in Hnd as (Hnd1 & Hdis & Hnd2).
  cbn [fmap list_fmap fst] in Hnd2. apply NoDup_cons in Hnd2 as [Hcn _].
  destruct pre as [|[p wp] pre _] using rev_ind.
  - cbn [last_ptr]. cbn [last_ptr] in Hpost.
    destruct (set_previous_seg (<[id := Elem v None None]> (heap l)) None c w post None (Some id))
      as (h' & -> & Hs' & Hframe & Hd); [by apply dseg_insert|done|]. cbn [mbind option_bind].
    rewrite (set_next_at _ id v None None) by (by rewrite Hframe, lookup_insert_eq).
    cbn [mbind option_bind]. eexists. split; [reflexivity|].
    rewrite Hl. apply (link_rep l [] ((c, w) :: post) v); try done.
    + by rewrite lookup_insert_eq.
    + by apply dseg_insert.
    + intros i. rewrite insert_dom, Hd, insert_dom. tauto.
  - rewrite last_ptr_app. cbn [last_ptr]. rewrite last_ptr_app in Hpost. cbn [last_ptr] in Hpost.
    rewrite fmap_app in Hnd1, Hni1. apply NoDup_app in Hnd1 as (_ & Hp & _).
    assert (id <> p) as Hidp
      by (intros E; apply Hni1, elem_of_app; right; cbn; rewrite <- E; left).
    assert (p <> c) as Hpc by (intros ->; apply (Hdis c);
      [rewrite fmap_app; apply elem_of_app; right; cbn; left|cbn; left]).
    destruct (set_next_seg (<[id := Elem v None None]> (heap l)) None p wp pre (Some c) (Some id))
      as (h1 & -> & Hs1 & Hf1 & Hd1);
      [apply dseg_insert; [by rewrite fmap_app|done]|intros Hin; apply (Hp p Hin); cbn; left|].
    cbn [mbind option_bind].
    rewrite (set_previous_at _ id v None None) by (by rewrite Hf1, lookup_insert_eq).
    cbn [mbind option_bind].
    assert (dseg (<[id := Elem v (Some p) None]> h1) (Some p) ((c, w) :: post) None) as Hpost1.
    { apply dseg_insert; [done|]. eapply dseg_frame; [|exact (dseg_insert _ _ _ _ id (Elem v None None) Hni2 Hpost)].
      intros i Hi. apply Hf1. intros ->. apply (Hdis p); [|done].
      rewrite fmap_app. apply elem_of_app. right. cbn. left. }
    destruct (set_previous_seg _ _ _ _ _ _ (Some id) Hpost1 Hcn) as (h2 & -> & Hs2 & Hf2 & Hd2).
    cbn [mbind option_bind].
    rewrite (set_next_at _ id v (Some p) None) by (by rewrite Hf2, lookup_insert_eq).
    cbn [mbind option_bind]. eexists. split; [reflexivity|].
    assert (first l = head_ptr ((pre ++ [(p, wp)]) ++ (id, v) :: (c, w) :: post) None) as ->
      by (rewrite Hf, !head_ptr_app; by destruct pre as [|[]]).
    assert (last l = last_ptr None ((pre ++ [(p, wp)]) ++ (id, v) :: (c, w) :: post)) as ->
      by (by rewrite Hl, !last_ptr_app).
    apply (link_rep l (pre ++ [(p, wp)]) ((c, w) :: post) v); try done.
    + apply dseg_insert; [by rewrite fmap_app|]. eapply dseg_frame; [|exact Hs1].
      intros i Hi. rewrite Hf2, lookup_insert_ne; [done| |]; intros ->.
      * apply Hni1. by rewrite fmap_app in Hi.
      * apply (Hdis c Hi). cbn. left.
    + rewrite lookup_insert_eq, last_ptr_app. done.
    + by apply dseg_insert.
    + intros i. rewrite insert_dom, Hd2, insert_dom, Hd1, insert_dom. tauto.
Qed.

(** ** Loops *)

Lemma rep_create : rep linked_list_create [].
Proof.
  split_and!; cbn; try done; [constructor| |]; intros id; [|by intros ?%not_elem_of_nil].
  rewrite lookup_empty. split; [by intros []|by intros ?%not_elem_of_nil].
Qed.

Lemma rep_size l xs : rep l xs -> size (heap l) = length xs.
Proof.
  intros (_ & Hnd & Hdom & _). rewrite <- size_dom.
  assert (dom (heap l) = list_to_set (addrs xs)) as ->.
  { apply set_eq. intros i. by rewrite elem_of_dom, Hdom, elem_of_list_to_set. }
  rewrite size_list_to_set by done. apply length_fmap.
Qed.

Lemma find_loop_spec h f ys : forall fuel prev,
  dseg h prev ys None -> (length ys < fuel)%nat ->
  find_loop fuel h (head_ptr ys None) f = Some (find f (vals ys)).
Proof.
  induction ys as [|[c v] ys IH]; intros [|fuel] prev Hs Hf; try (cbn in Hf; lia); [done|].
  cbn in Hs. destruct Hs as [Hc Hs]. cbn [find_loop head_ptr]. rewrite Hc. cbn.
  destruct (f v); [done|]. eapply IH; [done|]. cbn in Hf. lia.
Qed.

Lemma invoke_loop_spec h ys : forall fuel prev,
  dseg h prev ys None -> (length ys < fuel)%nat ->
  invoke_loop fuel h (head_ptr ys None) = Some (vals ys).
Proof.
  induction ys as [|[c v] ys IH]; intros [|fuel] prev Hs Hf; try (cbn in Hf; lia); [done|].
  cbn in Hs. destruct Hs as [Hc Hs]. cbn [invoke_loop head_ptr]. rewrite Hc. cbn [mbind option_bind next].
  erewrite IH; [done|done|]. cbn in Hf. lia.
Qed.

Lemma equals_loop_spec h h' fn ys : forall zs fuel prev prev',
  dseg h prev ys None -> dseg h' prev' zs None -> length ys = length zs -> (length ys < fuel)%nat ->
  equals_loop fuel h h' (head_ptr ys None) (head_ptr zs None) fn
  = Some (forallb (fun '(a, b) => fn a b) (zip (vals ys) (vals zs))).
Proof.
  induction ys as [|[c v] ys IH]; intros [|[d w] zs] [|fuel] prev prev' Hs Hs' Hl Hf;
    try (cbn in *; lia); [done|].
  cbn in Hs, Hs'. destruct Hs as [Hc Hs], Hs' as [Hd Hs'].
  cbn [equals_loop head_ptr]. rewrite Hc, Hd. cbn. destruct (fn v w); [|done].
  eapply IH; [done|done|cbn in Hl; lia|cbn in Hf; lia].
Qed.

Lemma remove_loop_spec f ys : forall fuel l pre removed,
  rep l (pre ++ ys) -> (length ys < fuel)%nat ->
  exists l', remove_loop fuel l (head_ptr ys None) f removed
             = Some (removed + Z.of_nat (length (filter (fun y => f (snd y) = true) ys)), l') /\
    rep l' (pre ++ filter (fun y => f (snd y) <> true) ys).
Proof.
  induction ys as [|[c v] ys IH]; intros [|fuel] l pre removed Hr Hf; try (cbn in Hf; lia).
  { exists l. cbn. by rewrite Z.add_0_r. }
  cbn [remove_loop head_ptr]. rewrite (rep_lookup _ _ _ _ _ Hr). cbn [mbind option_bind value next].
  rewrite !filter_cons. cbn [snd]. cbn in Hf. destruct (f v) eqn:Efv.
  - destruct (remove_element_rep _ _ _ _ _ Hr) as (l1 & -> & Hr1 & _). cbn [mbind option_bind].
    rewrite decide_True by done. rewrite decide_False by (intros []; done).
    destruct (IH fuel l1 pre (removed + 1) Hr1 ltac:(lia)) as (l' & -> & Hr').
    exists l'. split; [|done]. cbn [length]. do 2 f_equal. lia.
  - rewrite decide_False by done. rewrite decide_True by done.
    destruct (IH fuel l (pre ++ [(c, v)]) removed) as (l' & -> & Hr'); [by rewrite <- app_assoc|lia|].
    exists l'. split; [done|]. by rewrite <- app_assoc in Hr'.
Qed.

Lemma clone_loop_spec (h : store) method ys : forall fuel prev cl cs,
  dseg h prev ys None -> (length ys < fuel)%nat -> rep cl cs ->
  count cl + Z.of_nat (length ys) <= INT_MAX ->
  exists cl' cs', clone_loop fuel h (head_ptr ys None) method cl = Some cl' /\ rep cl' cs' /\
    vals cs' = vals cs ++ (method <$> vals ys).
Proof.
  induction ys as [|[c v] ys IH]; intros [|fuel] prev cl cs Hs Hf Hr Hmax; try (cbn in Hf; lia).
  { exists cl, cs. cbn. by rewrite app_nil_r. }
  cbn in Hs. destruct Hs as [Hc Hs]. cbn [clone_loop head_ptr]. rewrite Hc. cbn [mbind option_bind value next].
  destruct (insert_last_rep cl cs (method v) Hr) as (cl1 & -> & Hr1); [cbn in Hmax; lia|].
  cbn [mbind option_bind].
  assert (count cl1 = count cl + 1) as Ec.
  { destruct Hr as (_ & _ & _ & _ & -> & _), Hr1 as (_ & _ & _ & _ & -> & _). rewrite length_app. cbn. lia. }
  destruct (IH fuel (Some c) cl1 _ Hs ltac:(cbn in Hf; lia) Hr1) as (cl' & cs' & -> & Hr' & Hv);
    [cbn in Hmax; lia|].
  exists cl', cs'. split_and!; [done|done|]. rewrite Hv, fmap_app. cbn. by rewrite <- app_assoc.
Qed.

(** ** Operations *)

Lemma rep_count_zero l xs : rep l xs -> (count l =? 0) = bool_decide (xs = []).
Proof.
  intros (_ & _ & _ & _ & -> & _). destruct xs as [|x xs]; [done|].
  rewrite bool_decide_eq_false_2 by done. cbn. lia.
Qed.

Lemma get_first_rep l xs : rep l xs -> get_first l = Some (head (vals xs)).
Proof.
  intros Hr. unfold get_first. rewrite (rep_count_zero _ _ Hr). destruct xs as [|[c v] xs]; [done|].
  rewrite bool_decide_eq_false_2 by done.
  pose proof (rep_lookup l [] c v xs Hr) as E. destruct Hr as (_ & _ & _ & _ & _ & _ & -> & _).
  cbn. by rewrite E.
Qed.

Lemma get_last_rep l xs : rep l xs -> get_last l = Some (list.last (vals xs)).
Proof.
  intros Hr. unfold get_last. rewrite (rep_count_zero _ _ Hr).
  destruct xs as [|[c v] xs _] using rev_ind; [done|].
  rewrite bool_decide_eq_false_2 by (by destruct xs).
  pose proof (rep_lookup l xs c v [] Hr) as E. destruct Hr as (_ & _ & _ & _ & _ & _ & _ & ->).
  rewrite last_ptr_app, fmap_app. cbn. rewrite E. cbn. by rewrite last_snoc.
Qed.

Lemma remove_first_rep l xs :
  rep l xs -> exists l', remove_first l = Some (head (vals xs), l') /\ rep l' (tail xs).
Proof.
  intros Hr. unfold remove_first. rewrite (get_first_rep _ _ Hr). cbn [mbind option_bind].
  destruct xs as [|[c v] xs]; [by exists l|]. cbn [fmap list_fmap head snd tail].
  destruct (remove_element_rep l [] c v xs Hr) as (l' & E & Hr' & _).
  destruct Hr as (_ & _ & _ & _ & _ & _ & -> & _). cbn [head_ptr mbind option_bind].
  rewrite E. by exists l'.
Qed.

Lemma remove_last_rep l xs :
  rep l xs -> exists l', remove_last l = Some (list.last (vals xs), l') /\ rep l' (removelast xs).
Proof.
  intros Hr. unfold remove_last. rewrite (get_last_rep _ _ Hr). cbn [mbind option_bind].
  destruct xs as [|[c v] xs _] using rev_ind; [by exists l|].
  rewrite fmap_app. cbn [fmap list_fmap snd]. rewrite last_snoc, removelast_last.
  destruct (remove_element_rep l xs c v [] Hr) as (l' & E & Hr' & _).
  destruct Hr as (_ & _ & _ & _ & _ & _ & _ & ->). rewrite last_ptr_app. cbn [last_ptr mbind option_bind].
  rewrite E. rewrite app_nil_r in Hr'. by exists l'.
Qed.

Lemma rep_loop l xs : rep l xs ->
  dseg (heap l) None xs None /\ first l = head_ptr xs None /\ (length xs < S (size (heap l)))%nat.
Proof. intros Hr. rewrite (rep_size _ _ Hr). destruct Hr as (? & _ & _ & _ & _ & _ & ? & _). auto. Qed.

Lemma vals_filter (f : V -> bool) (xs : list (nat * V)) :
  vals (filter (fun y => f (snd y) <> true) xs) = filter (fun v => f v <> true) (vals xs) /\
  length (filter (fun y => f (snd y) = true) xs) = length (filter (fun v => f v = true) (vals xs)).
Proof.
  induction xs as [|[c v] xs [IH1 IH2]]; [done|]. rewrite !fmap_cons, !filter_cons. cbn [snd].
  destruct (decide (f v <> true)), (decide (f v = true)); cbn; rewrite ?IH1, ?IH2; auto.
Qed.

Lemma remove_rep `{EqDecision V} l xs item compare :
  rep l xs -> exists l', remove_ l item compare
    = Some (Z.of_nat (length (filter (fun v => compares item compare v = true) (vals xs))), l') /\
    rep l' (filter (fun y => compares item compare (snd y) <> true) xs).
Proof.
  intros Hr. destruct (rep_loop _ _ Hr) as (_ & Hf & Hlt). unfold remove_. rewrite Hf.
  destruct (remove_loop_spec (compares item compare) xs _ l [] 0 Hr Hlt) as (l' & -> & Hr').
  destruct (vals_filter (compares item compare) xs) as [E1 E2]. eexists. by rewrite E2.
Qed.

Lemma find_first_rep `{EqDecision V} l xs matcher item : rep l xs ->
  find_first l matcher item = Some match matcher, item with
    | None, None => None
    | Some f, _ => find f (vals xs)
    | None, Some x => find (fun v => bool_decide (v = x)) (vals xs)
    end.
Proof.
  intros Hr. destruct (rep_loop _ _ Hr) as (Hs & Hf & Hlt). unfold find_first. rewrite Hf.
  destruct matcher as [f|]; [|destruct item; [|done]]; by eapply find_loop_spec.
Qed.

Lemma clone_offset_rep l xs method : rep l xs ->
  exists l' xs', clone_offset l method = Some l' /\ rep l' xs' /\ vals xs' = method <$> vals xs.
Proof.
  intros Hr. destruct (rep_loop _ _ Hr) as (Hs & Hf & Hlt). unfold clone_offset. rewrite Hf.
  destruct Hr as (_ & _ & _ & _ & Hc & Hmax & _).
  eapply (clone_loop_spec _ method xs _ _ _ [] Hs Hlt rep_create). cbn. lia.
Qed.

Lemma equals_function_rep l xs l' xs' fn : rep l xs -> rep l' xs' ->
  equals_function l l' fn =
  Some (bool_decide (length xs = length xs') && forallb (fun '(a, b) => fn a b) (zip (vals xs) (vals xs'))).
Proof.
  intros Hr Hr'. destruct (rep_loop _ _ Hr) as (Hs & Hf & Hlt), (rep_loop _ _ Hr') as (Hs' & Hf' & _).
  unfold equals_function. rewrite Hf, Hf'.
  destruct Hr as (_ & _ & _ & _ & -> & _), Hr' as (_ & _ & _ & _ & -> & _).
  destruct (decide (length xs = length xs')) as [E|E].
  - rewrite E, Z.eqb_refl, bool_decide_eq_true_2 by done. cbn [negb andb]. by eapply equals_loop_spec.
  - rewrite bool_decide_eq_false_2 by done. by rewrite (proj2 (Z.eqb_neq _ _)) by lia.
Qed.

Lemma rep_nil_heap l : rep l [] -> heap l = ∅.
Proof.
  intros (_ & _ & Hdom & _). apply map_empty. intros i. apply eq_None_not_Some.
  rewrite Hdom. apply not_elem_of_nil.
Qed.

Lemma destroy_loop_spec xs : forall fuel l,
  rep l xs -> (length xs < fuel)%nat -> exists l', destroy_loop fuel l = Some l' /\ rep l' [].
Proof.
  induction xs as [|[c v] xs IH]; intros [|fuel] l Hr Hf; try (cbn in Hf; lia);
    cbn [destroy_loop]; destruct (remove_first_rep _ _ Hr) as (l1 & -> & Hr1); cbn; [eauto|].
  apply IH; [done|]. cbn in Hf. lia.
Qed.

Lemma destroy_rep l xs : rep l xs -> destroy l = Some ∅.
Proof.
  intros Hr. destruct (rep_loop _ _ Hr) as (_ & _ & Hlt). unfold destroy.
  destruct (destroy_loop_spec xs _ l Hr Hlt) as (l' & -> & Hr'). cbn. by rewrite (rep_nil_heap _ Hr').
Qed.

Lemma destroy_function_loop_spec ys : forall fuel h prev,
  dseg h prev ys None -> NoDup (addrs ys) -> (length ys < fuel)%nat ->
  exists h', destroy_function_loop fuel h (head_ptr ys None) = Some (vals ys, h') /\
    forall i, is_Some (h' !! i) <-> is_Some (h !! i) /\ (i ∉ addrs ys).
Proof.
  induction ys as [|[c v] ys IH]; intros [|fuel] h prev Hs Hnd Hf; try (cbn in Hf; lia).
  { exists h. split; [done|]. intros i. split; [|by intros []]. split; [done|apply not_elem_of_nil]. }
  cbn in Hs. destruct Hs as [Hc Hs]. cbn in Hnd. apply NoDup_cons in Hnd as [Hn Hnd].
  cbn [destroy_function_loop head_ptr]. rewrite Hc. cbn [mbind option_bind next].
  destruct (IH fuel (delete c h) (Some c)) as (h' & -> & Hd); [|done|cbn in Hf; lia|].
  { eapply dseg_frame; [|exact Hs]. intros i Hi. apply lookup_delete_ne. by intros ->. }
  exists h'. split; [done|]. intros i. rewrite Hd, lookup_delete_is_Some, fmap_cons, not_elem_of_cons.
  cbn [fst]. split; [intros [[? ?] ?]|intros [? [? ?]]]; auto.
Qed.

Lemma destroy_function_rep l xs : rep l xs -> destroy_function l = Some (vals xs, ∅).
Proof.
  intros Hr. destruct (rep_loop _ _ Hr) as (Hs & Hf & Hlt). destruct Hr as (_ & Hnd & Hdom & _).
  unfold destroy_function. rewrite Hf.
  destruct (destroy_function_loop_spec xs _ _ _ Hs Hnd Hlt) as (h' & -> & Hd). do 2 f_equal.
  apply map_empty. intros i. apply eq_None_not_Some. rewrite Hd, Hdom. tauto.
Qed.

Lemma invoke_function_rep l xs : rep l xs -> invoke_function l = Some (vals xs).
Proof.
  intros Hr. destruct (rep_loop _ _ Hr) as (Hs & Hf & Hlt). unfold invoke_function. rewrite Hf.
  by eapply invoke_loop_spec.
Qed.

(** ** Enumerators *)

(** An enumerator that has yielded the elements [pre], the last of them current. *)
Lemma enumerate_rep l pre ys : rep l (pre ++ ys) ->
  enumerate l (Enum (last_ptr None pre) false) = Some match ys with
    | [] => (None, Enum None true)
    | (c, v) :: _ => (Some v, Enum (Some c) false)
    end.
Proof.
  intros Hr. unfold enumerate. cbn [finished current].
  assert (match last_ptr None pre with
          | Some c => e ← heap l !! c; Some (next e)
          | None => Some (first l)
          end = Some (head_ptr ys None)) as ->.
  { destruct pre as [|[p w] pre _] using rev_ind.
    - destruct Hr as (_ & _ & _ & _ & _ & _ & -> & _). done.
    - rewrite last_ptr_app. cbn [last_ptr]. rewrite <- app_assoc in Hr. cbn in Hr.
      by rewrite (rep_lookup _ _ _ _ _ Hr). }
  cbn [mbind option_bind]. destruct ys as [|[c v] ys]; [done|]. cbn [head_ptr].
  by rewrite (rep_lookup _ _ _ _ _ Hr).
Qed.

Lemma remove_at_rep l pre c v post : rep l (pre ++ (c, v) :: post) ->
  exists l', remove_at l (Enum (Some c) false) = Some (l', Enum (last_ptr None pre) false) /\
    rep l' (pre ++ post).
Proof.
  intros Hr. unfold remove_at. cbn [current]. rewrite (rep_lookup _ _ _ _ _ Hr). cbn [mbind option_bind].
  destruct (remove_element_rep _ _ _ _ _ Hr) as (l' & -> & Hr' & _). by exists l'.
Qed.
End Rep.

(** ** Refinement

    The operations on a list with one enumerator open on it. *)
Inductive command (V : Type) :=
  | InsertFirst (item : V)
  | InsertLast (item : V)
  | RemoveFirst
  | RemoveLast
  | Remove (item : V) (compare : option (V -> V -> bool))
  | GetFirst
  | GetLast
  | FindFirst (matcher : option (V -> bool)) (item : option V)
  | GetCount
  | InvokeFunction
  | Enumerate
  | InsertBefore (item : V)
  | RemoveAt
  | ResetEnumerator.
Arguments InsertFirst {V}. Arguments InsertLast {V}. Arguments RemoveFirst {V}. Arguments RemoveLast {V}.
Arguments Remove {V}. Arguments GetFirst {V}. Arguments GetLast {V}. Arguments FindFirst {V}.
Arguments GetCount {V}. Arguments InvokeFunction {V}. Arguments Enumerate {V}. Arguments InsertBefore {V}.
Arguments RemoveAt {V}. Arguments ResetEnumerator {V}.

Inductive output (V : Type) :=
  | ODone
  | OItem (item : option V)
  | ONumber (n : Z)
  | OItems (items : list V).
Arguments ODone {V}. Arguments OItem {V}. Arguments ONumber {V}. Arguments OItems {V}.

Section Refinement.
Context {V : Type} `{EqDecision V}.

Definition step (st : linked_list V * enumerator) (c : command V)
    : option (output V * (linked_list V * enumerator)) :=
  let '(l, en) := st in
  match c with
  | InsertFirst v => l ← insert_first l v; Some (ODone, (l, en))
  | InsertLast v => l ← insert_last l v; Some (ODone, (l, en))
  | RemoveFirst => '(r, l) ← remove_first l; Some (OItem r, (l, en))
  | RemoveLast => '(r, l) ← remove_last l; Some (OItem r, (l, en))
  | Remove v compare => '(n, l) ← remove_ l v compare; Some (ONumber n, (l, en))
  | GetFirst => r ← get_first l; Some (OItem r, st)
  | GetLast => r ← get_last l; Some (OItem r, st)
  | FindFirst m v => r ← find_first l m v; Some (OItem r, st)
  | GetCount => Some (ONumber (get_count l), st)
  | InvokeFunction => vs ← invoke_function l; Some (OItems vs, st)
  | Enumerate => '(r, en) ← enumerate l en; Some (OItem r, (l, en))
  | InsertBefore v => l ← insert_before l en v; Some (ODone, (l, en))
  | RemoveAt => '(l, en) ← remove_at l en; Some (ODone, (l, en))
  | ResetEnumerator => Some (ODone, (l, reset_enumerator en))
  end.

(** The sequence the list stands for: the items the enumerator has passed, the
    last of them the current one, those before it, and whether it is finished. *)
Record sequence := Seq { passed : list V; ahead : list V; exhausted : bool }.
Definition items (s : sequence) : list V := passed s ++ ahead s.

(** Room for one more item. *)
Definition room (s : sequence) : bool := Z.of_nat (length (items s)) <? INT_MAX.

(** What the caller has a right to.  The item the enumerator is at is removed only
    through the enumerator, or the next call of the latter would follow the pointer to
    a freed element; and the number of items stays in the range of the count. *)
Definition permitted (s : sequence) (c : command V) : bool :=
  match c with
  | InsertFirst _ | InsertLast _ | InsertBefore _ => room s
  | RemoveFirst => negb (length (passed s) =? 1)%nat
  | RemoveLast => (length (passed s) =? 0)%nat || negb (length (ahead s) =? 0)%nat
  | Remove v compare => negb (from_option (compares v compare) false (list.last (passed s)))
  | _ => true
  end.

(** What each operation does to the sequence, [None] if it is not permitted. *)
Definition spec_step (s : sequence) (c : command V) : option (output V * sequence) :=
  let '(Seq pre post d) := s in
  match c with
  | InsertFirst v =>
    if room s then
      Some (ODone, match pre with [] => Seq [] (v :: post) d | _ => Seq (v :: pre) post d end)
    else None
  | InsertLast v => if room s then Some (ODone, Seq pre (post ++ [v]) d) else None
  | RemoveFirst =>
    match pre with
    | [] => Some (OItem (head post), Seq [] (tail post) d)
    | [_] => None
    | v :: pre => Some (OItem (Some v), Seq pre post d)
    end
  | RemoveLast =>
    match pre, post with
    | _ :: _, [] => None
    | _, _ => Some (OItem (list.last post), Seq pre (removelast post) d)
    end
  | Remove v compare =>
    if from_option (compares v compare) false (list.last pre) then None
    else Some (ONumber (Z.of_nat (length (filter (fun x => compares v compare x = true) (items s)))),
               Seq (filter (fun x => compares v compare x <> true) pre)
                   (filter (fun x => compares v compare x <> true) post) d)
  | GetFirst => Some (OItem (head (items s)), s)
  | GetLast => Some (OItem (list.last (items s)), s)
  | FindFirst None None => Some (OItem None, s)
  | FindFirst (Some f) _ => Some (OItem (find f (items s)), s)
  | FindFirst None (Some v) => Some (OItem (find (fun x => bool_decide (x = v)) (items s)), s)
  | GetCount => Some (ONumber (Z.of_nat (length (items s))), s)
  | InvokeFunction => Some (OItems (items s), s)
  | Enumerate =>
    if d then Some (OItem None, s)
    else match post with
         | [] => Some (OItem None, Seq [] pre true)
         | v :: post => Some (OItem (Some v), Seq (pre ++ [v]) post false)
         end
  | InsertBefore v =>
    if room s then
      Some (ODone, match list.last pre with
                   | Some c => Seq (removelast pre ++ [v; c]) post d
                   | None => Seq [] (if d then post ++ [v] else v :: post) d
                   end)
    else None
  | RemoveAt => Some (ODone, Seq (removelast pre) post d)
  | ResetEnumerator => Some (ODone, Seq [] (items s) false)
  end.

(** A run of commands, with the outputs. *)
Fixpoint run {St : Type} (stp : St -> command V -> option (output V * St)) (st : St)
    (cs : list (command V)) : option (list (output V) * St) :=
  match cs with
  | [] => Some ([], st)
  | c :: cs => '(o, st) ← stp st c; '(os, st) ← run stp st cs; Some (o :: os, st)
  end.

(** Every operation of the series is permitted where it is done. *)
Fixpoint permitted_run (s : sequence) (cs : list (command V)) : bool :=
  match cs with
  | [] => true
  | c :: cs => permitted s c && match spec_step s c with Some (_, s) => permitted_run s cs | None => false end
  end.

Lemma spec_step_permitted s c : permitted s c = true <-> is_Some (spec_step s c).
Proof.
  destruct s as [pre post d]. destruct c as [v|v| | |v cmp| | |[f|] [v|]| | | |v| |]; cbn;
    try (destruct (room _); split; done || by intros []); try done.
  - destruct pre as [|x [|y pre]]; cbn; split; done || by intros [].
  - destruct pre as [|x pre], post as [|y post]; cbn; split; done || by intros [].
  - destruct (from_option _ _ _); cbn; split; done || by intros [].
  - destruct d; [done|]. by destruct post.
Qed.

Lemma spec_run_defined cs : forall s, permitted_run s cs = true -> is_Some (run spec_step s cs).
Proof.
  induction cs as [|c cs IH]; intros s Hp; cbn in Hp |- *; [done|]. apply andb_true_iff in Hp as [_ Hp].
  destruct (spec_step s c) as [[o s1]|]; [|done]. destruct (IH s1 Hp) as [[os s2] E]. cbn. by rewrite E.
Qed.

(** The list implements the sequence. *)
Definition implements (st : linked_list V * enumerator) (s : sequence) : Prop :=
  exists xs ys, rep (fst st) (xs ++ ys) /\ snd <$> xs = passed s /\ snd <$> ys = ahead s /\
    snd st = Enum (last_ptr None xs) (exhausted s) /\ (exhausted s = true -> passed s = []).

Lemma implements_create : implements (linked_list_create, create_enumerator) (Seq [] [] false).
Proof. exists [], []. split_and!; try done. apply rep_create. Qed.

Definition refines_at (c : command V) : Prop := forall st s o s',
  implements st s -> spec_step s c = Some (o, s') ->
  exists st', step st c = Some (o, st') /\ implements st' s'.

Lemma room_count l (xs : list (nat * V)) s :
  rep l xs -> snd <$> xs = items s -> room s = true -> count l < INT_MAX.
Proof.
  intros (_ & _ & _ & _ & -> & _) E. unfold room. rewrite <- E, length_fmap. lia.
Qed.

Lemma last_ptr_nonempty p q (xs : list (nat * V)) : xs <> [] -> last_ptr p xs = last_ptr q xs.
Proof. destruct xs as [|[]]; done. Qed.

(** Names the parts of [implements] and of the step of the specification. *)
Ltac open_implements :=
  intros [l en] [pre post d] o s' (xs & ys & Hr & Hpre & Hpost & Hen & Hd) Hs;
  cbn in Hr, Hpre, Hpost, Hen, Hd, Hs; subst pre post en.

Lemma insert_first_refines v : refines_at (InsertFirst v).
Proof.
  open_implements.
  destruct (room _) eqn:Hroom; [|done]. injection Hs as <- <-.
  destruct (insert_first_rep l (xs ++ ys) v Hr) as (l' & E & Hr').
  { eapply room_count; [done| |done]. apply fmap_app. }
  cbn. rewrite E. eexists. split; [reflexivity|]. destruct xs as [|x xs].
  - by exists [], ((free_addr l, v) :: ys).
  - exists ((free_addr l, v) :: x :: xs), ys. split_and!; try done.
    intros Hx. cbn in Hx. by apply Hd in Hx.
Qed.

Lemma insert_last_refines v : refines_at (InsertLast v).
Proof.
  open_implements.
  destruct (room _) eqn:Hroom; [|done]. injection Hs as <- <-.
  destruct (insert_last_rep l (xs ++ ys) v Hr) as (l' & E & Hr').
  { eapply room_count; [done| |done]. apply fmap_app. }
  cbn. rewrite E. eexists. split; [reflexivity|]. rewrite <- app_assoc in Hr'.
  exists xs, (ys ++ [(free_addr l, v)]). split_and!; try done. by rewrite fmap_app.
Qed.

Lemma insert_before_refines v : refines_at (InsertBefore v).
Proof.
  open_implements.
  destruct (room _) eqn:Hroom; [|done]. injection Hs as <- <-.
  destruct xs as [|[c w] xs _] using rev_ind.
  - destruct d.
    + apply (insert_last_refines v (l, _) (Seq [] (snd <$> ys) true)); [by exists [], ys|].
      cbn. cbn in Hroom. by rewrite Hroom.
    + apply (insert_first_refines v (l, _) (Seq [] (snd <$> ys) false)); [by exists [], ys|].
      cbn. cbn in Hroom. by rewrite Hroom.
  - pose proof Hr as Hr0. rewrite <- app_assoc in Hr0. cbn in Hr0.
    rewrite last_ptr_app. cbn [last_ptr].
    destruct (insert_before_rep l xs c w ys v d Hr0) as (l' & E & Hr').
    { eapply room_count; [exact Hr| |exact Hroom]. apply fmap_app. }
    unfold step. rewrite E. cbn [mbind option_bind]. eexists. split; [reflexivity|].
    rewrite fmap_app. cbn [fmap list_fmap snd]. rewrite last_snoc, removelast_last.
    exists (xs ++ [(free_addr l, v); (c, w)]), ys. split_and!; try done.
    + by rewrite <- app_assoc.
    + by rewrite fmap_app.
    + by rewrite last_ptr_app.
    + intros Hx. apply Hd in Hx. rewrite fmap_app in Hx. by destruct (snd <$> xs).
Qed.

Lemma remove_first_refines : refines_at RemoveFirst.
Proof.
  open_implements.
  destruct (remove_first_rep l _ Hr) as (l' & E & Hr'). cbn. rewrite E. cbn.
  destruct xs as [|[c v] xs]; cbn in *.
  - injection Hs as <- <-. eexists. split; [reflexivity|]. exists [], (tail ys). split_and!; try done.
    by destruct ys as [|[]].
  - destruct xs as [|x xs]; [done|]. cbn in Hs. injection Hs as <- <-. eexists. split; [reflexivity|].
    exists (x :: xs), ys. split_and!; try done. intros Hx. by apply Hd in Hx.
Qed.

Lemma removelast_fmap {A B : Type} (f : A -> B) (xs : list A) :
  removelast (f <$> xs) = f <$> removelast xs.
Proof.
  destruct xs as [|x xs _] using rev_ind; [done|]. rewrite fmap_app. cbn [fmap list_fmap].
  by rewrite !removelast_last.
Qed.

Lemma remove_last_refines : refines_at RemoveLast.
Proof.
  open_implements.
  destruct (remove_last_rep l _ Hr) as (l' & E & Hr'). unfold step. rewrite E. cbn [mbind option_bind].
  destruct ys as [|y ys].
  - destruct xs as [|x xs]; [|done]. injection Hs as <- <-. eexists. split; [reflexivity|]. by exists [], [].
  - assert (OItem (list.last (snd <$> y :: ys)) = o /\
            Seq (snd <$> xs) (removelast (snd <$> y :: ys)) d = s') as [<- <-]
      by (destruct xs; by injection Hs as <- <-).
    rewrite removelast_app in Hr' by done.
    exists (l', Enum (last_ptr None xs) d).
    split; [|exists xs, (removelast (y :: ys)); split_and!; try done].
    + rewrite fmap_app, last_app. by destruct (list.last (snd <$> y :: ys)) eqn:El; [|apply last_None in El].
    + symmetry. apply removelast_fmap.
Qed.

Lemma last_ptr_filter (f : V -> bool) (xs : list (nat * V)) :
  from_option f false (list.last (snd <$> xs)) = false ->
  last_ptr None (filter (fun y => f (snd y) <> true) xs) = last_ptr None xs.
Proof.
  destruct xs as [|[c v] xs _] using rev_ind; [done|].
  rewrite fmap_app. cbn [fmap list_fmap snd]. rewrite last_snoc. cbn. intros Hf.
  rewrite filter_app, filter_cons, decide_True by (cbn; congruence). by rewrite !last_ptr_app.
Qed.

Lemma remove_refines v compare : refines_at (Remove v compare).
Proof.
  open_implements. destruct (from_option _ _ _) eqn:Hlast; [done|]. injection Hs as <- <-.
  destruct (remove_rep l _ v compare Hr) as (l' & E & Hr'). unfold step. rewrite E. cbn [mbind option_bind].
  eexists. rewrite fmap_app. split; [reflexivity|]. rewrite filter_app in Hr'.
  eexists _, _. split; [exact Hr'|]. cbn [snd passed ahead exhausted]. split_and!.
  - apply vals_filter.
  - apply vals_filter.
  - by rewrite last_ptr_filter.
  - intros Hx. apply Hd in Hx. by rewrite Hx.
Qed.

Lemma query_refines c : match c with
  | GetFirst | GetLast | FindFirst _ _ | GetCount | InvokeFunction => True
  | _ => False
  end -> refines_at c.
Proof.
  intros Hq. open_implements. exists (l, Enum (last_ptr None xs) d).
  assert (s' = Seq (snd <$> xs) (snd <$> ys) d /\ step (l, Enum (last_ptr None xs) d) c
    = Some (o, (l, Enum (last_ptr None xs) d))) as [-> ->]; [|split; [done|by exists xs, ys]].
  destruct c; try done.
  - injection Hs as <- <-. split; [done|]. unfold step. rewrite (get_first_rep _ _ Hr), fmap_app. done.
  - injection Hs as <- <-. split; [done|]. unfold step. rewrite (get_last_rep _ _ Hr), fmap_app. done.
  - unfold step. rewrite (find_first_rep _ _ matcher item Hr), fmap_app.
    destruct matcher, item; by injection Hs as <- <-.
  - injection Hs as <- <-. split; [done|]. cbn. unfold get_count, items. cbn.
    destruct Hr as (_ & _ & _ & _ & -> & _). by rewrite <- fmap_app, length_fmap.
  - injection Hs as <- <-. split; [done|]. unfold step. rewrite (invoke_function_rep _ _ Hr), fmap_app. done.
Qed.

Lemma enumerate_refines : refines_at Enumerate.
Proof.
  open_implements. unfold step. destruct d.
  - injection Hs as <- <-. eexists. split; [reflexivity|]. by exists xs, ys.
  - rewrite (enumerate_rep _ _ _ Hr). cbn [mbind option_bind]. destruct ys as [|[c v] ys]; cbn in Hs.
    + injection Hs as <- <-. eexists. split; [reflexivity|]. rewrite app_nil_r in Hr.
      by exists [], xs.
    + injection Hs as <- <-. eexists. split; [reflexivity|].
      exists (xs ++ [(c, v)]), ys. split_and!; try done.
      * by rewrite <- app_assoc.
      * by rewrite fmap_app.
      * by rewrite last_ptr_app.
Qed.

Lemma remove_at_refines : refines_at RemoveAt.
Proof.
  open_implements. injection Hs as <- <-. unfold step.
  destruct xs as [|[c v] xs _] using rev_ind.
  - eexists. split; [reflexivity|]. by exists [], ys.
  - destruct d; [by rewrite fmap_app in Hd; destruct (snd <$> xs); specialize (Hd eq_refl)|].
    rewrite last_ptr_app. cbn [last_ptr]. rewrite <- app_assoc in Hr. cbn in Hr.
    destruct (remove_at_rep _ _ _ _ _ Hr) as (l' & -> & Hr'). eexists. split; [reflexivity|].
    rewrite fmap_app. cbn [fmap list_fmap]. rewrite removelast_last. by exists xs, ys.
Qed.

Lemma step_refines c : refines_at c.
Proof.
  destruct c; try (by apply query_refines).
  - apply insert_first_refines.
  - apply insert_last_refines.
  - apply remove_first_refines.
  - apply remove_last_refines.
  - apply remove_refines.
  - apply enumerate_refines.
  - apply insert_before_refines.
  - apply remove_at_refines.
  - open_implements. injection Hs as <- <-. eexists. split; [reflexivity|].
    exists [], (xs ++ ys). split_and!; try done. apply fmap_app.
Qed.

Lemma run_refines cs : forall st s os s',
  implements st s -> run spec_step s cs = Some (os, s') ->
  exists st', run step st cs = Some (os, st') /\ implements st' s'.
Proof.
  induction cs as [|c cs IH]; intros st s os s' Hi Hrun; cbn in Hrun.
  { injection Hrun as <- <-. by exists st. }
  destruct (spec_step s c) as [[o s1]|] eqn:E; [|done]. cbn in Hrun.
  destruct (run spec_step s1 cs) as [[os1 s2]|] eqn:E2; [|done]. injection Hrun as <- <-.
  destruct (step_refines c _ _ _ _ Hi E) as (st1 & E1 & Hi1).
  destruct (IH _ _ _ _ Hi1 E2) as (st' & E' & Hi'). exists st'. cbn. rewrite E1. cbn. by rewrite E'.
Qed.
End Refinement.

(** C27: A list implements the sequence of its items.  Take any series of operations, on
    a new list with one enumerator open on it, in which the item the enumerator is at is
    never removed other than through the enumerator and no more than [INT_MAX] items are
    inserted.  All of it is defined: no pointer to a freed element or [NULL] is followed
    and the count does not overflow.  It gives the results the sequence gives, among them
    what the enumerator yields while items are inserted before and removed at its
    position, and ends with a list whose walk and count are those of the sequence and
    whose destruction frees every element. *)
Theorem linked_list_refines {V : Type} `{EqDecision V} (cs : list (command V)) :
  permitted_run (Seq [] [] false) cs = true ->
  exists os s l en, run spec_step (Seq [] [] false) cs = Some (os, s) /\
    run step (linked_list_create, create_enumerator) cs = Some (os, (l, en)) /\
    invoke_function l = Some (items s) /\ get_count l = Z.of_nat (length (items s)) /\
    destroy l = Some ∅ /\ destroy_function l = Some (items s, ∅).
Proof.
  intros [[os s] Hrun]%spec_run_defined.
  destruct (run_refines cs _ _ _ _ implements_create Hrun) as ([l en] & Er & (xs & ys & Hr & Hp & Ha & _)).
  assert (snd <$> (xs ++ ys) = items s) as Hi by (unfold items; by rewrite <- Hp, <- Ha, fmap_app).
  cbn in Hr. exists os, s, l, en. rewrite <- Hi.
  split_and!; [done|done|by apply invoke_function_rep| |by eapply destroy_rep|by apply destroy_function_rep].
  unfold get_count. destruct Hr as (_ & _ & _ & _ & -> & _). by rewrite length_fmap.
Qed.

Lemma linked_list_refines_witness :
  let cs := [InsertLast 1; InsertLast 2; InsertLast 3; Enumerate; RemoveAt; Enumerate; InsertBefore 7;
             Enumerate; Enumerate; InsertBefore 8; RemoveFirst; Remove 2 None; GetLast] in
  exists os s l en, run spec_step (Seq [] [] false) cs = Some (os, s) /\
    run step (linked_list_create, create_enumerator) cs = Some (os, (l, en)) /\
    invoke_function l = Some (items s) /\ get_count l = Z.of_nat (length (items s)) /\
    destroy l = Some ∅ /\ destroy_function l = Some (items s, ∅).
Proof. intros cs. refine (linked_list_refines cs _). vm_compute. reflexivity. Defined.

(** What is not permitted is undefined indeed: the enumerator follows the pointer to the
    element that was freed. *)
Lemma removed_current_undefined :
  run step (linked_list_create, create_enumerator) [InsertLast 1; Enumerate; RemoveFirst; Enumerate] = None.
Proof. reflexivity. Qed.

(** ** Walks

    The loop clients use to find a position: enumerate until an item satisfies the
    condition. *)
Fixpoint seek {V : Type} (fuel : nat) (l : linked_list V) (en : enumerator) (f : V -> bool)
    : option enumerator :=
  match fuel with
  | O => None
  | S fuel =>
    '(item, en) ← enumerate l en;
    match item with
    | None => Some en
    | Some v => if f v then Some en else seek fuel l en f
    end
  end.

Definition seek_start {V : Type} (l : linked_list V) (f : V -> bool) : option enumerator :=
  seek (S (size (heap l))) l create_enumerator f.

Lemma seek_spec {V : Type} (f : V -> bool) (ys : list (nat * V)) : forall fuel l pre,
  rep l (pre ++ ys) -> (length ys < fuel)%nat ->
  seek fuel l (Enum (last_ptr None pre) false) f = Some (Enum None true) /\
    Forall (fun y => f (snd y) = false) ys \/
  exists p c v post, ys = p ++ (c, v) :: post /\ Forall (fun y => f (snd y) = false) p /\ f v = true /\
    seek fuel l (Enum (last_ptr None pre) false) f = Some (Enum (Some c) false).
Proof.
  induction ys as [|[c v] ys IH]; intros [|fuel] l pre Hr Hf; try (cbn in Hf; lia);
    cbn [seek]; rewrite (enumerate_rep _ _ _ Hr); cbn [mbind option_bind]; [by left|].
  destruct (f v) eqn:Efv; [right; by exists [], c, v, ys|].
  assert (Enum (Some c) false = Enum (last_ptr None (pre ++ [(c, v)])) false) as ->
    by (by rewrite last_ptr_app).
  destruct (IH fuel l (pre ++ [(c, v)])) as [[E Hall]|(p & c' & v' & post & -> & Hall & Hv' & E)];
    [by rewrite <- app_assoc|cbn in Hf; lia|left|right].
  - split; [done|]. by constructor.
  - exists ((c, v) :: p), c', v', post. split_and!; try done. by constructor.
Qed.

(** Insertion in front of the first item with the condition, and removal of it. *)
Definition insert_where {V : Type} (l : linked_list V) (f : V -> bool) (v : V) : option (linked_list V) :=
  en ← seek_start l f; insert_before l en v.

Definition remove_where {V : Type} (l : linked_list V) (f : V -> bool) : option (linked_list V) :=
  en ← seek_start l f; '(l, _) ← remove_at l en; Some l.

Lemma seek_start_spec {V : Type} (f : V -> bool) l (xs : list (nat * V)) : rep l xs ->
  seek_start l f = Some (Enum None true) /\ Forall (fun y => f (snd y) = false) xs \/
  exists p c v post, xs = p ++ (c, v) :: post /\ Forall (fun y => f (snd y) = false) p /\ f v = true /\
    seek_start l f = Some (Enum (Some c) false).
Proof.
  intros Hr. destruct (rep_loop _ _ Hr) as (_ & _ & Hlt). exact (seek_spec f xs _ l [] Hr Hlt).
Qed.

Lemma insert_where_rep {V : Type} (f : V -> bool) l (xs : list (nat * V)) v :
  rep l xs -> count l < INT_MAX ->
  exists l' pre post, insert_where l f v = Some l' /\ xs = pre ++ post /\
    rep l' (pre ++ (free_addr l, v) :: post) /\ Forall (fun y => f (snd y) = false) pre /\
    (forall y, head post = Some y -> f (snd y) = true).
Proof.
  intros Hr Hmax. unfold insert_where.
  destruct (seek_start_spec f l xs Hr) as [[-> Hall]|(p & c & w & post & -> & Hall & Hw & ->)];
    cbn [mbind option_bind].
  - destruct (insert_last_rep l xs v Hr Hmax) as (l' & E & Hr'). exists l', xs, [].
    by rewrite app_nil_r.
  - destruct (insert_before_rep l p c w post v false Hr Hmax) as (l' & E & Hr').
    exists l', p, ((c, w) :: post). split_and!; try done. by intros y [= <-].
Qed.

Lemma remove_where_rep {V : Type} (f : V -> bool) l (xs : list (nat * V)) :
  rep l xs ->
  exists l', remove_where l f = Some l' /\
    (rep l' xs /\ Forall (fun y => f (snd y) = false) xs \/
     exists pre c v post, xs = pre ++ (c, v) :: post /\ rep l' (pre ++ post) /\
       Forall (fun y => f (snd y) = false) pre /\ f v = true).
Proof.
  intros Hr. unfold remove_where.
  destruct (seek_start_spec f l xs Hr) as [[-> Hall]|(p & c & w & post & -> & Hall & Hw & ->)];
    cbn [mbind option_bind].
  - exists l. split; [done|]. by left.
  - destruct (remove_at_rep l p c w post Hr) as (l' & -> & Hr'). exists l'. split; [done|].
    right. by exists p, c, w, post.
Qed.

(** ** Sequences for clients

    What a client relies on when it walks a list with one enumerator and changes it. *)
Definition seq_of {V : Type} (l : list V) : sequence := Seq [] l false.

Definition seq_enumerate {V : Type} (s : sequence) : option V * sequence :=
  let '(Seq pre post d) := s in
  if d then (None, s)
  else match post with
       | [] => (None, Seq [] pre true)
       | v :: post => (Some v, Seq (pre ++ [v]) post false)
       end.

Definition seq_remove_at {V : Type} (s : sequence) : @sequence V :=
  Seq (removelast (passed s)) (ahead s) (exhausted s).

Definition seq_insert_last {V : Type} (s : sequence) (v : V) : sequence :=
  Seq (passed s) (ahead s ++ [v]) (exhausted s).

(** The list refines these operations. *)
Lemma spec_step_sequence {V : Type} `{EqDecision V} (s : sequence) (v : V) :
  spec_step s Enumerate = Some (OItem (fst (seq_enumerate s)), snd (seq_enumerate s)) /\
  spec_step s RemoveAt = Some (ODone, seq_remove_at s) /\
  (room s = true -> spec_step s (InsertLast v) = Some (ODone, seq_insert_last s v)).
Proof.
  destruct s as [pre post d]. split; [|split; [done|by intros Hr; cbn; rewrite Hr]].
  cbn. destruct d; [done|]. by destruct post.
Qed.
