(* ===== verification/Hashtable.v ===== *)
(** Hash tables, [src/libstrongswan/collections/hashtable.c], at the level of their
    pointers: an array of rows, each the head of a chain of pairs in a heap, that
    is doubled when it fills up.  Following a pointer to a freed pair or indexing
    outside of the array is undefined ([None]).  A table is shown to implement the
    finite map of its keys, and enumerators the walk over it with removals. *)
From S2P Require Import Prelude.
From stdpp Require Import base numbers list option gmap.
From Stdlib Require Import Lia ZArith.
Local Open Scope Z_scope.

Definition MAX_CAPACITY : Z := Z.shiftl 1 30.

(** The hashing and the equality function a table is created with, and what a table
    relies on: an equivalence, with equal keys hashed equally. *)
Class HashKey (K : Type) := {
  hash : K -> Z;
  equals : K -> K -> bool;
  hash_range k : 0 <= hash k < 2 ^ 32;
  equals_refl k : equals k k = true;
  equals_sym k k' : equals k k' = true -> equals k' k = true;
  equals_trans k k' k'' : equals k k' = true -> equals k' k'' = true -> equals k k'' = true;
  equals_hash k k' : equals k k' = true -> hash k = hash k';
}.

Record pair (K V : Type) := Pair {
  key : K;
  value : V;
  hash_ : Z;                           (* cached, used in case of a resize *)
  next : option nat;                   (* next pair in an overflow list *)
}.
Arguments Pair {K V}. Arguments key {K V}. Arguments value {K V}. Arguments hash_ {K V}.
Arguments next {K V}.

(** A table with the heap its pairs are allocated in.  The load factor is constant. *)
Record hashtable (K V : Type) := HTable {
  heap : gmap nat (pair K V);
  free_addr : nat;                     (* addresses from here on are unused *)
  count : Z;
  capacity : Z;                        (* always a power of 2 *)
  mask : Z;                            (* capacity - 1 *)
  table : list (option nat);
}.
Arguments HTable {K V}. Arguments heap {K V}. Arguments free_addr {K V}. Arguments count {K V}.
Arguments capacity {K V}. Arguments mask {K V}. Arguments table {K V}.

Record enumerator := Enum {
  row : Z;
  remaining : Z;                       (* number of items left *)
  current : option nat;
  prev : option nat;                   (* used by remove_at *)
}.

(** [for (i = 1; i < 32; i <<= 1)]. *)
Definition get_nearest_powerof2 (n : Z) : Z :=
  let n := uwrap 32 (n - 1) in
  let n := Z.lor n (Z.shiftr n 1) in
  let n := Z.lor n (Z.shiftr n 2) in
  let n := Z.lor n (Z.shiftr n 4) in
  let n := Z.lor n (Z.shiftr n 8) in
  let n := Z.lor n (Z.shiftr n 16) in
  uwrap 32 (n + 1).

(** [capacity], [mask] and [table]. *)
Definition init_hashtable (capacity : Z) : Z * Z * list (option nat) :=
  let capacity := Z.max 1 (Z.min capacity MAX_CAPACITY) in
  let capacity := get_nearest_powerof2 capacity in
  (capacity, uwrap 32 (capacity - 1), replicate (Z.to_nat capacity) None).

(** An unsigned integer as a [float]: 24 significant bits, ties to even. *)
Definition float_of_uint (n : Z) : Z :=
  let e := Z.max 0 (Z.log2 n - 23) in
  let q := n / 2 ^ e in
  let r := n mod 2 ^ e in
  let up := (2 ^ e <? 2 * r) || ((2 * r =? 2 ^ e) && Z.odd q) in
  (if up then q + 1 else q) * 2 ^ e.

(** [count >= capacity * load_factor], which is 0.75; the product is exact. *)
Definition overloaded (count capacity : Z) : bool :=
  3 * float_of_uint capacity <=? 4 * float_of_uint count.

Section Table.
Context {K V : Type} `{HashKey K}.
Abbreviation ht := (hashtable K V).

Definition hashtable_create (capacity : Z) : ht :=
  let '(capacity, mask, table) := init_hashtable capacity in HTable ∅ 0 0 capacity mask table.

Definition row_of (hash mask : Z) : nat := Z.to_nat (Z.land hash mask).

(** The chain of a row of the old table moved into the new one; [fuel] bounds its
    length. *)
Fixpoint rehash_row (fuel : nat) (h : gmap nat (pair K V)) (mask : Z) (table : list (option nat))
    (cur : option nat) : option (gmap nat (pair K V) * list (option nat)) :=
  match fuel with
  | O => None
  | S fuel =>
    match cur with
    | None => Some (h, table)
    | Some id =>
      p ← h !! id;
      let new_row := row_of (hash_ p) mask in
      first ← table !! new_row;
      rehash_row fuel (<[id := Pair (key p) (value p) (hash_ p) first]> h) mask
        (<[new_row := Some id]> table) (next p)
    end
  end.

Fixpoint rehash_rows (h : gmap nat (pair K V)) (mask : Z) (table old_table : list (option nat))
    : option (gmap nat (pair K V) * list (option nat)) :=
  match old_table with
  | [] => Some (h, table)
  | cur :: old_table =>
    '(h, table) ← rehash_row (S (size h)) h mask table cur;
    rehash_rows h mask table old_table
  end.

Definition rehash (this : ht) : option ht :=
  if MAX_CAPACITY <=? capacity this then Some this
  else
    let '(capacity', mask, new_table) := init_hashtable (uwrap 32 (Z.shiftl (capacity this) 1)) in
    '(h, new_table) ← rehash_rows (heap this) mask new_table
                        (take (Z.to_nat (capacity this)) (table this));
    Some (HTable h (free_addr this) (count this) capacity' mask new_table).

(** The first pair of a chain whose key satisfies the condition. *)
Fixpoint search (fuel : nat) (h : gmap nat (pair K V)) (cur : option nat) (f : K -> bool)
    : option (option nat) :=
  match fuel with
  | O => None
  | S fuel =>
    match cur with
    | None => Some None
    | Some id => p ← h !! id; if f (key p) then Some (Some id) else search fuel h (next p) f
    end
  end.

Definition put (this : ht) (k : K) (v : V) : option (option V * ht) :=
  let hash := hash k in
  let row := row_of hash (mask this) in
  cur ← table this !! row;
  found ← search (S (size (heap this))) (heap this) cur (equals k);
  '(old_value, this) ← match found with
    | Some id =>
      p ← heap this !! id;
      Some (Some (value p),
            HTable (<[id := Pair k v (hash_ p) (next p)]> (heap this)) (free_addr this)
              (count this) (capacity this) (mask this) (table this))
    | None =>
      let id := free_addr this in
      Some (None,
            HTable (<[id := Pair k v hash cur]> (heap this)) (S id)
              (uwrap 32 (count this + 1)) (capacity this) (mask this) (<[row := Some id]> (table this)))
    end;
  if overloaded (count this) (capacity this)
  then this ← rehash this; Some (old_value, this)
  else Some (old_value, this).

Definition get_internal (this : ht) (k : K) (eq : K -> K -> bool) : option (option V) :=
  if count this =? 0 then Some None
  else
    cur ← table this !! row_of (hash k) (mask this);
    found ← search (S (size (heap this))) (heap this) cur (eq k);
    match found with
    | Some id => p ← heap this !! id; Some (Some (value p))
    | None => Some None
    end.

Definition get (this : ht) (k : K) : option (option V) := get_internal this k equals.
Definition get_match (this : ht) (k : K) (mtch : K -> K -> bool) : option (option V) :=
  get_internal this k mtch.

(** The pair unlinked from its chain: [prev->next], or the row, is set to [next]. *)
Definition unlink (this : ht) (row : nat) (prv : option nat) (nxt : option nat)
    : option (gmap nat (pair K V) * list (option nat)) :=
  match prv with
  | Some id => p ← heap this !! id;
               Some (<[id := Pair (key p) (value p) (hash_ p) nxt]> (heap this), table this)
  | None => _ ← table this !! row; Some (heap this, <[row := nxt]> (table this))
  end.

Fixpoint remove_loop (fuel : nat) (this : ht) (row : nat) (prv cur : option nat) (k : K)
    : option (option V * ht) :=
  match fuel with
  | O => None
  | S fuel =>
    match cur with
    | None => Some (None, this)
    | Some id =>
      p ← heap this !! id;
      if equals k (key p) then
        '(h, tbl) ← unlink this row prv (next p);
        Some (Some (value p), HTable (delete id h) (free_addr this) (uwrap 32 (count this - 1))
                                (capacity this) (mask this) tbl)
      else remove_loop fuel this row (Some id) (next p) k
    end
  end.

Definition remove_ (this : ht) (k : K) : option (option V * ht) :=
  let row := row_of (hash k) (mask this) in
  cur ← table this !! row;
  remove_loop (S (size (heap this))) this row None cur k.

Definition remove_at (this : ht) (en : enumerator) : option (ht * enumerator) :=
  match current en with
  | None => Some (this, en)
  | Some id =>
    p ← heap this !! id;
    '(h, tbl) ← unlink this (Z.to_nat (row en)) (prev en) (next p);
    Some (HTable (delete id h) (free_addr this) (uwrap 32 (count this - 1)) (capacity this)
            (mask this) tbl,
          Enum (row en) (remaining en) (prev en) (prev en))
  end.

Definition get_count (this : ht) : Z := count this.

(** The rows an enumerator goes on to; [fuel] bounds them. *)
Fixpoint enumerate_loop (fuel : nat) (this : ht) (en : enumerator)
    : option (option (K * V) * enumerator) :=
  match fuel with
  | O => None
  | S fuel =>
    if negb (remaining en =? 0) && (row en <? capacity this) then
      cur ← match current en with
            | Some id => p ← heap this !! id; Some (next p)
            | None => table this !! Z.to_nat (row en)
            end;
      match cur with
      | Some id => p ← heap this !! id;
                   Some (Some (key p, value p), Enum (row en) (remaining en - 1) cur (current en))
      | None => enumerate_loop fuel this (Enum (row en + 1) (remaining en) None (current en))
      end
    else Some (None, en)
  end.

Definition enumerate (this : ht) (en : enumerator) : option (option (K * V) * enumerator) :=
  enumerate_loop (S (Z.to_nat (capacity this - row en))) this en.

Definition create_enumerator (this : ht) : enumerator := Enum 0 (count this) None None.

(** [destroy_internal]: what the function is called with, in order, and the pairs
    that are left allocated. *)
Fixpoint destroy_row (fuel : nat) (h : gmap nat (pair K V)) (cur : option nat)
    : option (list (V * K) * gmap nat (pair K V)) :=
  match fuel with
  | O => None
  | S fuel =>
    match cur with
    | None => Some ([], h)
    | Some id =>
      p ← h !! id;
      '(l, h) ← destroy_row fuel (delete id h) (next p);
      Some ((value p, key p) :: l, h)
    end
  end.

Fixpoint destroy_rows (h : gmap nat (pair K V)) (tbl : list (option nat))
    : option (list (V * K) * gmap nat (pair K V)) :=
  match tbl with
  | [] => Some ([], h)
  | cur :: tbl =>
    '(l, h) ← destroy_row (S (size h)) h cur;
    '(l', h) ← destroy_rows h tbl;
    Some (l ++ l', h)
  end.

Definition destroy_internal (this : ht) : option (list (V * K) * gmap nat (pair K V)) :=
  destroy_rows (heap this) (take (Z.to_nat (capacity this)) (table this)).
End Table.

(** ** Capacities *)

(** The bits of the topmost [w] positions up to [L] are set, and none above. *)
Definition smeared (L w r : Z) : Prop :=
  0 <= r /\ (forall j, 0 <= j -> L - w < j <= L -> Z.testbit r j = true) /\
  (forall j, L < j -> Z.testbit r j = false).

Lemma smear_step L w r : 0 < w -> smeared L w r -> smeared L (2 * w) (Z.lor r (Z.shiftr r w)).
Proof.
  intros Hw (H0 & Hset & Hclear). split_and!.
  - apply Z.lor_nonneg. split; [done|]. by apply Z.shiftr_nonneg.
  - intros j Hj HL. rewrite Z.lor_spec, Z.shiftr_spec by done. apply orb_true_iff.
    destruct (Z.le_gt_cases j (L - w)); [right|left]; apply Hset; lia.
  - intros j HL. rewrite Z.lor_spec. rewrite Hclear by done. cbn.
    destruct (Z.le_gt_cases 0 j); [|by rewrite Z.testbit_neg_r].
    rewrite Z.shiftr_spec by done. apply Hclear. lia.
Qed.

Lemma smeared_all L w r : 0 <= L < w -> smeared L w r -> r = 2 ^ (L + 1) - 1.
Proof.
  intros HL (_ & Hset & Hclear). rewrite Z.sub_1_r, <- Z.ones_equiv. apply Z.bits_inj'. intros j Hj.
  destruct (Z.le_gt_cases j L).
  - rewrite Hset, Z.ones_spec_low by lia. done.
  - rewrite Hclear, Z.ones_spec_high by lia. done.
Qed.

Lemma smeared_start n : 0 < n -> smeared (Z.log2 n) 1 n.
Proof.
  intros Hn. split_and!; [lia| |].
  - intros j _ Hj. assert (j = Z.log2 n) as -> by lia. by apply Z.bit_log2.
  - intros j Hj. apply Z.bits_above_log2; lia.
Qed.

(** The least power of two that is not smaller. *)
Lemma get_nearest_powerof2_spec n : 1 <= n <= 2 ^ 31 ->
  exists m, 0 <= m <= 31 /\ get_nearest_powerof2 n = 2 ^ m /\ n <= 2 ^ m /\ (m = 0 \/ 2 ^ (m - 1) < n).
Proof.
  intros Hn. unfold get_nearest_powerof2. rewrite (uwrap_small 32 (n - 1)) by lia.
  destruct (Z.eq_dec n 1) as [->|Hn1]; [exists 0; split; [lia|split; [reflexivity|lia]]|].
  set (L := Z.log2 (n - 1)). assert (0 <= L < 31) as HL.
  { split; [apply Z.log2_nonneg|]. apply (Z.log2_lt_pow2 (n - 1) 31); lia. }
  pose proof (Z.log2_spec (n - 1) ltac:(lia)) as Hspec. fold L in Hspec. rewrite <- Z.add_1_r in Hspec.
  exists (L + 1). pose proof (smeared_start (n - 1) ltac:(lia)) as Hs. fold L in Hs.
  apply (smear_step L 1) in Hs; [|lia]. apply (smear_step L 2) in Hs; [|lia].
  apply (smear_step L 4) in Hs; [|lia]. apply (smear_step L 8) in Hs; [|lia].
  apply (smear_step L 16) in Hs; [|lia]. apply smeared_all in Hs; [|lia]. rewrite Hs.
  assert (2 ^ (L + 1) <= 2 ^ 31) by (apply Z.pow_le_mono_r; lia).
  rewrite uwrap_small by lia. replace (L + 1 - 1) with L by lia. lia.
Qed.

(** A power of two up to the maximum, its mask, and an array of that size. *)
Definition sized (c m : Z) (tbl : list (option nat)) : Prop :=
  exists e, 0 <= e <= 30 /\ c = 2 ^ e /\ m = c - 1 /\ Z.of_nat (length tbl) = c.

Lemma init_hashtable_sized c c' m tbl : init_hashtable c = (c', m, tbl) ->
  sized c' m tbl /\ Forall (fun p => p = None) tbl.
Proof.
  unfold init_hashtable, MAX_CAPACITY. change (Z.shiftl 1 30) with (2 ^ 30). intros [= <- <- <-].
  set (n := Z.max 1 (Z.min c (2 ^ 30))).
  destruct (get_nearest_powerof2_spec n) as (e & He & -> & Hle & Hlt); [lia|].
  assert (e <= 30) as He30.
  { destruct Hlt as [->|Hlt]; [lia|]. destruct (Z.le_gt_cases e 30); [done|].
    assert (2 ^ 30 <= 2 ^ (e - 1)) by (apply Z.pow_le_mono_r; lia). lia. }
  assert (2 ^ e <= 2 ^ 30) by (apply Z.pow_le_mono_r; lia). assert (0 < 2 ^ e) by (apply Z.pow_pos_nonneg; lia).
  split; [|by apply Forall_replicate].
  exists e. rewrite length_replicate, uwrap_small by lia. lia.
Qed.

Lemma row_of_bound c m tbl x : sized c m tbl -> (row_of x m < length tbl)%nat.
Proof.
  intros (e & He & Hc & -> & Hl). unfold row_of.
  assert (0 < 2 ^ e) by (apply Z.pow_pos_nonneg; lia).
  replace (c - 1) with (Z.ones e) by (rewrite Z.ones_equiv; lia).
  rewrite Z.land_ones by lia. pose proof (Z.mod_pos_bound x (2 ^ e) ltac:(lia)). lia.
Qed.

(** ** Representation *)
Section Rep.
Context {K V : Type} `{HashKey K}.
Abbreviation ht := (hashtable K V).
Abbreviation store := (gmap nat (pair K V)).
Abbreviation addrs es := (fst <$> es).

Definition hptr (es : list (nat * (K * V))) (nxt : option nat) : option nat :=
  match es with [] => nxt | (id, _) :: _ => Some id end.

(** A linked segment up to a pointer, with the hashes cached. *)
Fixpoint lseg (h : store) (es : list (nat * (K * V))) (nxt : option nat) : Prop :=
  match es with
  | [] => True
  | (id, (k, v)) :: es => h !! id = Some (Pair k v (hash k) (hptr es nxt)) /\ lseg h es nxt
  end.

Definition rows_ok (h : store) (tbl : list (option nat)) (rows : list (list (nat * (K * V)))) : Prop :=
  Forall2 (fun p r => p = hptr r None /\ lseg h r None) tbl rows.

(** Exactly the pairs of these entries are allocated. *)
Definition owned (h : store) (es : list (nat * (K * V))) : Prop :=
  NoDup (addrs es) /\ (forall id, is_Some (h !! id) <-> id ∈ addrs es).

(** Each entry is in the row of its hash. *)
Definition placed (m : Z) (rows : list (list (nat * (K * V)))) : Prop :=
  forall i r, rows !! i = Some r -> Forall (fun e => row_of (hash (fst (snd e))) m = i) r.

(** No two entries for the same key. *)
Definition unique (es : list (K * V)) : Prop :=
  forall k, (length (filter (fun e => equals k (fst e) = true) es) <= 1)%nat.

Record rep (t : ht) (rows : list (list (nat * (K * V)))) : Prop := {
  rep_rows : rows_ok (heap t) (table t) rows;
  rep_owned : owned (heap t) (concat rows);
  rep_sized : sized (capacity t) (mask t) (table t);
  rep_placed : placed (mask t) rows;
  rep_free id : id ∈ addrs (concat rows) -> (id < free_addr t)%nat;
  rep_unique : unique (snd <$> concat rows);
  rep_count : count t = Z.of_nat (length (concat rows));
  rep_count_lt : count t < 2 ^ 32;
}.

Lemma hptr_app xs ys nxt : hptr (xs ++ ys) nxt = hptr xs (hptr ys nxt).
Proof. by destruct xs as [|[]]. Qed.

Lemma lseg_app h xs ys nxt : lseg h (xs ++ ys) nxt <-> lseg h xs (hptr ys nxt) /\ lseg h ys nxt.
Proof. induction xs as [|[id [k v]] xs IH]; cbn; [tauto|]. rewrite IH, hptr_app. tauto. Qed.

Lemma lseg_frame h h' es nxt :
  (forall id, id ∈ addrs es -> h' !! id = h !! id) -> lseg h es nxt -> lseg h' es nxt.
Proof.
  induction es as [|[id [k v]] es IH]; intros Hf; [done|]. cbn. intros [Hid Hs]. split.
  - rewrite Hf; [done|]. cbn. left.
  - apply IH; [|done]. intros i Hi. apply Hf. cbn. by right.
Qed.

Lemma rows_split {A : Type} (rows : list (list A)) i r r' :
  rows !! i = Some r ->
  concat rows ≡ₚ r ++ concat (take i rows ++ drop (S i) rows) /\
  concat (<[i := r']> rows) ≡ₚ r' ++ concat (take i rows ++ drop (S i) rows).
Proof.
  intros Hi. rewrite insert_take_drop by (by eapply lookup_lt_Some).
  rewrite <- (take_drop_middle rows i r Hi) at 1. rewrite !concat_app. cbn [concat].
  split; by rewrite Permutation_app_swap_app.
Qed.

Lemma rows_elem {A : Type} (rows : list (list A)) j r x :
  rows !! j = Some r -> x ∈ r -> x ∈ concat rows.
Proof. intros Hj Hx. destruct (rows_split rows j r r Hj) as [-> _]. apply elem_of_app. by left. Qed.

(** Different rows share no pair. *)
Lemma rows_disjoint (rows : list (list (nat * (K * V)))) i j r r' id :
  NoDup (addrs (concat rows)) -> rows !! i = Some r -> rows !! j = Some r' -> i <> j ->
  id ∈ addrs r -> id ∉ addrs r'.
Proof.
  intros Hnd Hi Hj Hij Hr Hr'. destruct (rows_split rows i r r Hi) as [Hp _]. rewrite Hp, fmap_app in Hnd.
  apply NoDup_app in Hnd as (_ & Hd & _). apply (Hd id Hr).
  apply list_elem_of_fmap in Hr' as (e & -> & He). apply list_elem_of_fmap. exists e. split; [done|].
  assert ((take i rows ++ drop (S i) rows) !! (if decide (j < i)%nat then j else (j - 1)%nat) = Some r').
  { pose proof (lookup_lt_Some _ _ _ Hi). destruct (decide (j < i)%nat).
    - rewrite lookup_app_l by (rewrite length_take; lia). by rewrite lookup_take_lt.
    - rewrite lookup_app_r by (rewrite length_take; lia). rewrite lookup_drop, length_take.
      replace (S i + (j - 1 - i `min` length rows))%nat with j by lia. done. }
  by eapply rows_elem.
Qed.

(** A row replaced by another. *)
Lemma rows_ok_insert h h' tbl rows i r r' :
  NoDup (addrs (concat rows)) -> rows_ok h tbl rows -> rows !! i = Some r ->
  (forall id, id ∈ addrs (concat rows) -> id ∉ addrs r -> h' !! id = h !! id) -> lseg h' r' None ->
  rows_ok h' (<[i := hptr r' None]> tbl) (<[i := r']> rows).
Proof.
  intros Hnd Hok Hi Hframe Hr'. apply Forall2_same_length_lookup in Hok as [Hlen Hok].
  apply Forall2_same_length_lookup. split; [by rewrite !length_insert|]. intros j p rj Hp Hj.
  pose proof (lookup_lt_Some _ _ _ Hi). destruct (decide (j = i)) as [->|Hji].
  - rewrite list_lookup_insert_eq in Hp by lia. rewrite list_lookup_insert_eq in Hj by lia. by simplify_eq.
  - rewrite list_lookup_insert_ne in Hp by done. rewrite list_lookup_insert_ne in Hj by done. destruct (Hok j p rj Hp Hj) as [-> Hs].
    split; [done|]. eapply lseg_frame; [|exact Hs]. intros id Hid. apply Hframe.
    + apply list_elem_of_fmap in Hid as (e & -> & He). apply list_elem_of_fmap. exists e. split; [done|].
      by eapply rows_elem.
    + intros Hr. by apply (rows_disjoint rows i j r rj id Hnd Hi Hj).
Qed.

Lemma rows_ok_row h tbl rows i p :
  rows_ok h tbl rows -> tbl !! i = Some p -> exists r, rows !! i = Some r /\ p = hptr r None /\ lseg h r None.
Proof. intros Hok Hp. destruct (Forall2_lookup_l _ _ _ _ _ Hok Hp) as (r & ? & ? & ?). eauto. Qed.

Lemma placed_insert m rows i r :
  placed m rows -> Forall (fun e => row_of (hash (fst (snd e))) m = i) r -> placed m (<[i := r]> rows).
Proof.
  intros Hp Hr j rj Hj. apply list_lookup_insert_Some in Hj as [(<- & <- & _)|[_ Hj]]; [done|].
  by apply Hp.
Qed.

Lemma owned_perm h es es' : es ≡ₚ es' -> owned h es -> owned h es'.
Proof.
  intros Hp [Hnd Hd]. split; [by rewrite <- Hp|]. intros id. by rewrite Hd, Hp.
Qed.

Lemma owned_size h es : owned h es -> size h = length es.
Proof.
  intros [Hnd Hd]. rewrite <- size_dom.
  assert (dom h = list_to_set (addrs es)) as ->.
  { apply set_eq. intros i. by rewrite elem_of_dom, Hd, elem_of_list_to_set. }
  rewrite size_list_to_set by done. apply length_fmap.
Qed.

Lemma row_length h rows i r : owned h (concat rows) -> rows !! i = Some r -> (length r < S (size h))%nat.
Proof.
  intros Ho Hi. rewrite (owned_size _ _ Ho). destruct (rows_split rows i r r Hi) as [-> _].
  rewrite length_app. lia.
Qed.

Lemma search_spec h f r : forall fuel, lseg h r None -> (length r < fuel)%nat ->
  search fuel h (hptr r None) f = Some None /\ Forall (fun e => f (fst (snd e)) = false) r \/
  exists p id k v q, r = p ++ (id, (k, v)) :: q /\ Forall (fun e => f (fst (snd e)) = false) p /\
    f k = true /\ search fuel h (hptr r None) f = Some (Some id).
Proof.
  induction r as [|[id [k v]] r IH]; intros [|fuel] Hs Hf; try (cbn in Hf; lia); [by left|].
  cbn in Hs. destruct Hs as [Hid Hs]. cbn [search hptr]. rewrite Hid. cbn [mbind option_bind key next].
  destruct (f k) eqn:Ek.
  - right. exists [], id, k, v, r. by split_and!.
  - destruct (IH fuel Hs) as [[E Hall]|(p & id' & k' & v' & q & -> & Hall & Hk & E)];
      [cbn in Hf; lia|left|right].
    + split; [done|]. by constructor.
    + exists ((id, (k, v)) :: p), id', k', v', q. split_and!; try done. by constructor.
Qed.

(** ** The entries as a finite map *)

Definition lookup_key (es : list (K * V)) (k : K) : option V :=
  snd <$> head (filter (fun e => equals k (fst e) = true) es).

Definition without (k : K) (es : list (K * V)) : list (K * V) :=
  filter (fun e => equals k (fst e) <> true) es.

Lemma unique_perm es es' : es ≡ₚ es' -> unique es -> unique es'.
Proof. intros Hp Hu k. by rewrite <- Hp. Qed.

Lemma unique_filter P `{!forall x, Decision (P x)} es : unique es -> unique (filter P es).
Proof.
  intros Hu k. etrans; [|apply (Hu k)]. rewrite list_filter_filter.
  clear Hu. induction es as [|e es IH]; [done|]. rewrite !filter_cons.
  repeat case_decide; cbn; try lia; tauto.
Qed.

Lemma equals_false_l k k' k'' : equals k k' = true -> equals k k'' = false -> equals k' k'' = false.
Proof.
  intros E1 E2. destruct (equals k' k'') eqn:E3; [|done]. by rewrite (equals_trans _ _ _ E1 E3) in E2.
Qed.

Lemma unique_insert k v es : unique es -> unique ((k, v) :: without k es).
Proof.
  intros Hu k'. rewrite filter_cons. cbn [fst]. case_decide as E; [|apply (unique_filter _ _ Hu)].
  cbn [length]. assert (filter (fun e => equals k' (fst e) = true) (without k es) = []) as ->; [|done].
  unfold without. rewrite list_filter_filter. clear Hu. induction es as [|e es IH]; [done|].
  rewrite filter_cons, decide_False; [done|]. intros [E1 E2]. apply E2.
  apply equals_sym in E. by rewrite (equals_trans _ _ _ E E1).
Qed.

(** The other entries, when one for the key is known. *)
Lemma unique_others es k e es' :
  unique es -> es ≡ₚ e :: es' -> equals k (fst e) = true ->
  Forall (fun x => equals k (fst x) <> true) es'.
Proof.
  intros Hu Hp He. specialize (Hu k). rewrite Hp, filter_cons, decide_True in Hu by done. cbn [length] in Hu.
  apply Forall_forall. intros x Hx Ex.
  assert (x ∈ filter (fun e => equals k (fst e) = true) es') as Hin by (by apply list_elem_of_filter).
  destruct (filter _ es'); [by apply not_elem_of_nil in Hin|]. cbn in Hu. lia.
Qed.

Lemma without_id k es : Forall (fun x => equals k (fst x) <> true) es -> without k es = es.
Proof.
  induction 1 as [|x es Hx _ IH]; [done|]. unfold without. rewrite filter_cons, decide_True by done.
  f_equal. exact IH.
Qed.

Lemma lookup_absent k es : Forall (fun x => equals k (fst x) <> true) es -> lookup_key es k = None.
Proof.
  unfold lookup_key. induction 1 as [|x es Hx _ IH]; [done|]. by rewrite filter_cons, decide_False.
Qed.

Lemma lookup_present k e es es' :
  es ≡ₚ e :: es' -> unique es -> equals k (fst e) = true ->
  lookup_key es k = Some (snd e) /\ without k es ≡ₚ es'.
Proof.
  intros Hp Hu He. pose proof (unique_others _ _ _ _ Hu Hp He) as Ho. split.
  - unfold lookup_key. assert (filter (fun e => equals k (fst e) = true) es ≡ₚ [e]) as Hf.
    { rewrite Hp, filter_cons, decide_True by done. f_equiv.
      clear -Ho. induction Ho; [done|]. by rewrite filter_cons, decide_False. }
    apply Permutation_singleton_r in Hf. by rewrite Hf.
  - unfold without. rewrite Hp, filter_cons, decide_False by (intros E; by apply E).
    pose proof (without_id k es' Ho) as E. unfold without in E. by rewrite E.
Qed.

(** ** Operations on a row *)

Abbreviation others i rows := (concat (take i rows ++ drop (S i) rows)).

Lemma others_elem {A : Type} i (rows : list (list A)) x :
  x ∈ others i rows -> exists j r, j <> i /\ rows !! j = Some r /\ x ∈ r.
Proof.
  rewrite concat_app, elem_of_app.
  assert (forall (l : list (list A)), x ∈ concat l -> exists j r, l !! j = Some r /\ x ∈ r) as Hc.
  { induction l as [|r l IH]; cbn; [by intros ?%not_elem_of_nil|]. rewrite elem_of_app.
    intros [Hx|Hx]; [by exists 0%nat, r|]. destruct (IH Hx) as (j & r' & Hj & Hr). by exists (S j), r'. }
  intros [Hx|Hx]; apply Hc in Hx as (j & r & Hj & Hr).
  - apply lookup_take_Some in Hj as [Hj Hlt]. exists j, r. split_and!; try done. lia.
  - rewrite lookup_drop in Hj. exists (S i + j)%nat, r. split_and!; try done. lia.
Qed.

(** The row of a key holds all the entries for it. *)
Lemma key_row t rows k : rep t rows ->
  let i := row_of (hash k) (mask t) in
  exists r, table t !! i = Some (hptr r None) /\ rows !! i = Some r /\ lseg (heap t) r None /\
    Forall (fun x => equals k (fst x) <> true) (snd <$> others i rows).
Proof.
  intros Hr i. assert (is_Some (table t !! i)) as [cur Hcur].
  { apply lookup_lt_is_Some. eapply row_of_bound, rep_sized, Hr. }
  destruct (rows_ok_row _ _ _ _ _ (rep_rows _ _ Hr) Hcur) as (r & Hi & -> & Hs).
  exists r. split_and!; try done. apply Forall_fmap, Forall_forall. intros x Hx E.
  apply others_elem in Hx as (j & r' & Hj & Hr' & Hx). apply Hj.
  pose proof (rep_placed _ _ Hr j r' Hr') as Hp. rewrite Forall_forall in Hp.
  rewrite <- (Hp x Hx). unfold i. by rewrite (equals_hash _ _ E).
Qed.

(** A row replaced by another, in the table. *)
Lemma rep_update t rows i r h' fa' cnt' r' :
  rep t rows -> rows !! i = Some r -> lseg h' r' None ->
  (forall id, id ∈ addrs (others i rows) -> h' !! id = heap t !! id) ->
  owned h' (r' ++ others i rows) ->
  Forall (fun e => row_of (hash (fst (snd e))) (mask t) = i) r' ->
  (free_addr t <= fa')%nat -> (forall id, id ∈ addrs r' -> (id < fa')%nat) ->
  unique (snd <$> (r' ++ others i rows)) ->
  cnt' = Z.of_nat (length (r' ++ others i rows)) -> cnt' < 2 ^ 32 ->
  rep (HTable h' fa' cnt' (capacity t) (mask t) (<[i := hptr r' None]> (table t))) (<[i := r']> rows).
Proof.
  intros Hr Hi Hs Hf Ho Hpl Hle Hfa Hu Hc Hlt. destruct (rows_split rows i r r' Hi) as [Hp Hp'].
  constructor; cbn [heap free_addr count capacity mask table].
  - eapply rows_ok_insert; [apply (rep_owned _ _ Hr)|apply (rep_rows _ _ Hr)|done| |done].
    intros id Hin Hni. apply Hf. rewrite Hp, fmap_app, elem_of_app in Hin. tauto.
  - eapply owned_perm; [by symmetry|done].
  - destruct (rep_sized _ _ Hr) as (e & ? & ? & ? & ?). exists e. by rewrite length_insert.
  - apply placed_insert; [apply (rep_placed _ _ Hr)|done].
  - intros id. rewrite Hp', fmap_app, elem_of_app. intros [Hin|Hin]; [by apply Hfa|].
    assert (id < free_addr t)%nat; [|lia]. apply (rep_free _ _ Hr). rewrite Hp, fmap_app, elem_of_app. by right.
  - eapply unique_perm; [|exact Hu]. by rewrite Hp'.
  - by rewrite Hp'.
  - done.
Qed.

(** What is known of a row of the table. *)
Lemma rep_row t rows i r : rep t rows -> rows !! i = Some r ->
  table t !! i = Some (hptr r None) /\ lseg (heap t) r None /\ owned (heap t) (r ++ others i rows) /\
  Forall (fun e => row_of (hash (fst (snd e))) (mask t) = i) r /\
  (forall id, id ∈ addrs (r ++ others i rows) -> (id < free_addr t)%nat) /\
  unique (snd <$> (r ++ others i rows)) /\ count t = Z.of_nat (length (r ++ others i rows)).
Proof.
  intros Hr Hi. destruct (rows_split rows i r r Hi) as [Hp _].
  destruct (Forall2_lookup_r _ _ _ _ _ (rep_rows _ _ Hr) Hi) as (c & Hc & -> & Hs). split_and!; try done.
  - eapply owned_perm; [exact Hp|apply (rep_owned _ _ Hr)].
  - by apply (rep_placed _ _ Hr).
  - intros id. rewrite <- Hp. apply (rep_free _ _ Hr).
  - eapply unique_perm; [|apply (rep_unique _ _ Hr)]. by rewrite Hp.
  - rewrite <- Hp. apply (rep_count _ _ Hr).
Qed.

Lemma owned_middle h p id e q rest :
  owned h ((p ++ (id, e) :: q) ++ rest) ->
  (id ∉ addrs (p ++ q ++ rest)) /\ NoDup (addrs (p ++ q ++ rest)) /\
  (forall i, is_Some (h !! i) <-> i = id \/ i ∈ addrs (p ++ q ++ rest)).
Proof.
  rewrite <- app_assoc. cbn [app]. intros [Hnd Hd].
  assert (addrs (p ++ (id, e) :: q ++ rest) ≡ₚ id :: addrs (p ++ q ++ rest)) as Hp
    by (by rewrite <- Permutation_middle).
  rewrite Hp in Hnd. apply NoDup_cons in Hnd as [Hni Hnd]. split_and!; try done.
  intros i. by rewrite Hd, Hp, elem_of_cons.
Qed.

(** An entry of a row replaced by one for an equal key. *)
Lemma rep_replace t rows i p id k0 v0 q k v :
  rep t rows -> rows !! i = Some (p ++ (id, (k0, v0)) :: q) -> equals k k0 = true ->
  rep (HTable (<[id := Pair k v (hash k0) (hptr q None)]> (heap t)) (free_addr t) (count t)
         (capacity t) (mask t) (table t)) (<[i := p ++ (id, (k, v)) :: q]> rows).
Proof.
  intros Hr Hi E. destruct (rep_row _ _ _ _ Hr Hi) as (Ht & Hs & Ho & Hpl & Hfr & Hu & Hc).
  destruct (owned_middle _ _ _ _ _ _ Ho) as (Hni & Hnd & Hd).
  rewrite !fmap_app, !not_elem_of_app in Hni. destruct Hni as (Hnp & Hnq & Hnr).
  apply lseg_app in Hs as [Hs1 Hs2]. cbn in Hs2. destruct Hs2 as [Hid Hs2].
  assert (table t = <[i := hptr (p ++ (id, (k, v)) :: q) None]> (table t)) as Ht'
    by (symmetry; apply list_insert_id; rewrite Ht; by rewrite !hptr_app).
  rewrite Ht'. eapply rep_update; [done|exact Hi| | | | |done| | | |apply (rep_count_lt _ _ Hr)].
  - apply lseg_app. cbn. rewrite lookup_insert_eq, (equals_hash _ _ E). split_and!; [|done|].
    + eapply lseg_frame; [|exact Hs1]. intros j Hj. apply lookup_insert_ne. by intros <-.
    + eapply lseg_frame; [|exact Hs2]. intros j Hj. apply lookup_insert_ne. by intros <-.
  - intros j Hj. apply lookup_insert_ne. by intros <-.
  - destruct Ho as [Hnd0 _]. split.
    + rewrite !fmap_app in *. exact Hnd0.
    + intros j. rewrite lookup_insert_is_Some', Hd, <- app_assoc. cbn [app].
      rewrite <- Permutation_middle, fmap_cons, elem_of_cons. cbn [fst].
      split; [intros [->|?]; auto|auto].
  - apply Forall_app in Hpl as [Hpl1 Hpl2]. apply Forall_cons in Hpl2 as [Hpl2 Hpl3].
    apply Forall_app. split; [done|]. constructor; [|done]. cbn in *. by rewrite (equals_hash _ _ E).
  - intros j Hj. apply Hfr. rewrite !fmap_app in *. apply elem_of_app. by left.
  - eapply unique_perm; [|exact (unique_insert k v _ Hu)].
    destruct (lookup_present k (k0, v0) (snd <$> (p ++ (id, (k0, v0)) :: q) ++ others i rows)
                (snd <$> p ++ q ++ others i rows)) as [_ Hw]; [|done|done|].
    + rewrite <- app_assoc. cbn [app]. by rewrite <- Permutation_middle.
    + rewrite Hw, <- app_assoc. cbn [app]. by rewrite <- Permutation_middle.
  - rewrite Hc, !length_app. done.
Qed.

(** A pair for a new key at the front of its row. *)
Lemma rep_push t rows i r k v :
  rep t rows -> rows !! i = Some r -> row_of (hash k) (mask t) = i ->
  Forall (fun x => equals k (fst x) <> true) (snd <$> r ++ others i rows) -> count t + 1 < 2 ^ 32 ->
  rep (HTable (<[free_addr t := Pair k v (hash k) (hptr r None)]> (heap t)) (S (free_addr t)) (count t + 1)
         (capacity t) (mask t) (<[i := Some (free_addr t)]> (table t)))
      (<[i := (free_addr t, (k, v)) :: r]> rows).
Proof.
  intros Hr Hi Hrow Hnew Hlt. destruct (rep_row _ _ _ _ Hr Hi) as (Ht & Hs & [Hnd Hd] & Hpl & Hfr & Hu & Hc).
  set (id := free_addr t) in *.
  assert (id ∉ addrs (r ++ others i rows)) as Hni by (intros Hin; apply Hfr in Hin; lia).
  pose proof Hni as Hni'. rewrite fmap_app, not_elem_of_app in Hni'. destruct Hni' as [Hni1 Hni2].
  eapply (rep_update t rows i r _ _ _ ((id, (k, v)) :: r)); [done|done| | | | |unfold id; lia| | | |done].
  - cbn. rewrite lookup_insert_eq. split; [done|].
    eapply lseg_frame; [|exact Hs]. intros j Hj. apply lookup_insert_ne. by intros <-.
  - intros j Hj. apply lookup_insert_ne. by intros <-.
  - split; cbn [app fmap list_fmap fst]; [by constructor|].
    intros j. rewrite lookup_insert_is_Some', Hd, elem_of_cons. split; intros [?|?]; auto.
  - by constructor.
  - intros j. rewrite fmap_cons, elem_of_cons. cbn [fst]. intros [->|Hj]; [lia|].
    assert (j < id)%nat; [|lia]. apply Hfr. rewrite fmap_app, elem_of_app. by left.
  - cbn [app]. rewrite fmap_cons. cbn [snd]. rewrite <- (without_id k _ Hnew). by apply unique_insert.
  - rewrite Hc. cbn [app length]. lia.
Qed.

(** The pointer to the last pair of a segment, or to what precedes it. *)
Fixpoint lptr (prv : option nat) (es : list (nat * (K * V))) : option nat :=
  match es with [] => prv | (id, _) :: es => lptr (Some id) es end.

Lemma lptr_app prv xs ys : lptr prv (xs ++ ys) = lptr (lptr prv xs) ys.
Proof. revert prv. induction xs as [|[id e] xs IH]; intros prv; [done|apply IH]. Qed.

(** The chain without a pair, before that is freed. *)
Lemma unlink_seg t rows i p id k v q :
  rep t rows -> rows !! i = Some (p ++ (id, (k, v)) :: q) ->
  exists h, unlink t i (lptr None p) (hptr q None) = Some (h, <[i := hptr (p ++ q) None]> (table t)) /\
    lseg h (p ++ q) None /\ (forall j, j ∉ addrs p -> h !! j = heap t !! j) /\
    (forall j, is_Some (h !! j) <-> is_Some (heap t !! j)).
Proof.
  intros Hr Hi. destruct (rep_row _ _ _ _ Hr Hi) as (Ht & Hs & Ho & _).
  destruct (owned_middle _ _ _ _ _ _ Ho) as (_ & Hnd & _).
  apply lseg_app in Hs as [Hs1 [_ Hs2]]. destruct p as [|[pid [pk pv]] p _] using rev_ind.
  - cbn [lptr unlink]. rewrite Ht. exists (heap t). by split_and!.
  - rewrite lptr_app. cbn [lptr]. unfold unlink. apply lseg_app in Hs1 as [Hs1 [Hp _]]. rewrite Hp.
    cbn [mbind option_bind key value hash_].
    rewrite <- app_assoc, fmap_app in Hnd. apply NoDup_app in Hnd as (_ & Hdis & Hnd).
    cbn [app fmap list_fmap fst] in Hnd, Hdis. apply NoDup_cons in Hnd as [Hnq _].
    eexists. split_and!.
    + do 2 f_equal. symmetry. apply list_insert_id. rewrite Ht. by rewrite !hptr_app.
    + apply lseg_app. split; [apply lseg_app; split|].
      * eapply lseg_frame; [|exact Hs1]. intros j Hj. apply lookup_insert_ne. intros <-. apply (Hdis pid Hj). left.
      * cbn. by rewrite lookup_insert_eq.
      * eapply lseg_frame; [|exact Hs2]. intros j Hj. apply lookup_insert_ne. intros <-. apply Hnq.
        change (pid ∈ addrs (q ++ others i rows)). rewrite fmap_app. apply elem_of_app. by left.
    + intros j Hj. apply lookup_insert_ne. intros <-. apply Hj. rewrite fmap_app. apply elem_of_app. right. left.
    + intros j. rewrite lookup_insert_is_Some'. split; [|by right]. intros [<-|?]; [by rewrite Hp|done].
Qed.

Lemma rep_unlink t rows i p id k v q :
  rep t rows -> rows !! i = Some (p ++ (id, (k, v)) :: q) ->
  exists h tbl, unlink t i (lptr None p) (hptr q None) = Some (h, tbl) /\
    rep (HTable (delete id h) (free_addr t) (uwrap 32 (count t - 1)) (capacity t) (mask t) tbl)
        (<[i := p ++ q]> rows).
Proof.
  intros Hr Hi. destruct (unlink_seg _ _ _ _ _ _ _ _ Hr Hi) as (h & Eh & Hs & Hf & Hd').
  exists h, (<[i := hptr (p ++ q) None]> (table t)). split; [done|].
  destruct (rep_row _ _ _ _ Hr Hi) as (_ & _ & Ho & Hpl & Hfr & Hu & Hc). pose proof (rep_count_lt _ _ Hr).
  destruct (owned_middle _ _ _ _ _ _ Ho) as (Hni & Hnd & Hd). destruct Ho as [Hnd0 _].
  assert (count t - 1 = Z.of_nat (length ((p ++ q) ++ others i rows))) as Hc'.
  { rewrite Hc, !length_app. cbn [length]. lia. }
  rewrite uwrap_small by lia. pose proof Hni as Hni'. rewrite !fmap_app, !not_elem_of_app in Hni'.
  destruct Hni' as (Hnp & Hnq & Hnr).
  eapply rep_update; [done|exact Hi| | | | |done| | |done|lia].
  - eapply lseg_frame; [|exact Hs]. intros j Hj. apply lookup_delete_ne. intros <-.
    rewrite fmap_app, elem_of_app in Hj. tauto.
  - intros j Hj. rewrite lookup_delete_ne by (by intros <-). apply Hf.
    rewrite !fmap_app in Hnd. apply NoDup_app in Hnd as (_ & Hdis & _). intros Hp. apply (Hdis j Hp).
    apply elem_of_app. by right.
  - rewrite <- app_assoc. split; [done|]. intros j. rewrite lookup_delete_is_Some, Hd', Hd.
    split; [intros [? [?|?]]; congruence || done|]. intros Hj. split; [by intros <-|by right].
  - apply Forall_app in Hpl as [? Hpl]. apply Forall_cons in Hpl as [_ ?]. by apply Forall_app.
  - intros j Hj. apply Hfr. rewrite !fmap_app, fmap_cons, !elem_of_app, elem_of_cons.
    rewrite fmap_app, elem_of_app in Hj. tauto.
  - assert (snd <$> (p ++ (id, (k, v)) :: q) ++ others i rows ≡ₚ (k, v) :: (snd <$> (p ++ q) ++ others i rows)) as Hp
      by (rewrite <- !app_assoc; cbn [app]; by rewrite <- Permutation_middle).
    destruct (lookup_present k (k, v) _ _ Hp Hu (equals_refl k)) as [_ Hw].
    eapply unique_perm; [exact Hw|]. by apply unique_filter.
Qed.

(** ** Rehashing *)

(** A table under construction, with entries that are not in it yet. *)
Definition moving (h : store) (c m : Z) (tbl : list (option nat)) (rows : list (list (nat * (K * V))))
    (left : list (nat * (K * V))) : Prop :=
  rows_ok h tbl rows /\ owned h (concat rows ++ left) /\ placed m rows /\ sized c m tbl.

Lemma moving_step h c m tbl rows id k v left :
  moving h c m tbl rows ((id, (k, v)) :: left) ->
  let i := row_of (hash k) m in
  exists r, rows !! i = Some r /\ tbl !! i = Some (hptr r None) /\
    moving (<[id := Pair k v (hash k) (hptr r None)]> h) c m (<[i := Some id]> tbl)
      (<[i := (id, (k, v)) :: r]> rows) left /\
    (id ∉ addrs left) /\ concat (<[i := (id, (k, v)) :: r]> rows) ≡ₚ (id, (k, v)) :: concat rows.
Proof.
  intros (Hok & Ho & Hpl & Hsz) i. assert (is_Some (tbl !! i)) as [cur Hcur].
  { apply lookup_lt_is_Some. by eapply row_of_bound. }
  destruct (rows_ok_row _ _ _ _ _ Hok Hcur) as (r & Hi & -> & Hs). exists r.
  destruct (rows_split rows i r ((id, (k, v)) :: r) Hi) as [Hp Hp'].
  assert (owned h ((id, (k, v)) :: concat rows ++ left)) as [Hnd Hd].
  { eapply owned_perm; [|exact Ho]. by rewrite <- Permutation_middle. }
  assert (concat (<[i := (id, (k, v)) :: r]> rows) ≡ₚ (id, (k, v)) :: concat rows) as Hpp by (by rewrite Hp', Hp).
  cbn [fmap list_fmap fst] in Hnd. apply NoDup_cons in Hnd as [Hni Hnd].
  change (id ∉ addrs (concat rows ++ left)) in Hni.
  pose proof Hni as Hni'. rewrite fmap_app, not_elem_of_app in Hni'. destruct Hni' as [Hn1 Hn2].
  split_and!; try done. split_and!.
  - apply (rows_ok_insert h _ tbl rows i r ((id, (k, v)) :: r)); [|done|done| |].
    + change (NoDup (addrs (concat rows ++ left))) in Hnd. rewrite fmap_app in Hnd. by apply NoDup_app in Hnd as (? & _).
    + intros j Hj _. apply lookup_insert_ne. by intros <-.
    + cbn. rewrite lookup_insert_eq. split; [done|]. eapply lseg_frame; [|exact Hs].
      intros j Hj. apply lookup_insert_ne. intros <-. apply Hn1. rewrite Hp, fmap_app. apply elem_of_app. by left.
  - eapply owned_perm; [by rewrite Hpp|]. split; [by constructor|]. intros j.
    rewrite lookup_insert_is_Some', Hd. cbn [fmap list_fmap fst app].
    rewrite elem_of_cons. split; [intros [->|?]; auto|auto].
  - apply placed_insert; [done|]. constructor; [done|]. by apply Hpl.
  - destruct Hsz as (e & ? & ? & ? & ?). exists e. by rewrite length_insert.
Qed.

Lemma rehash_row_spec c m es : forall fuel h tbl rows left,
  moving h c m tbl rows (es ++ left) -> lseg h es None -> (length es < fuel)%nat ->
  exists h' tbl' rows', rehash_row fuel h m tbl (hptr es None) = Some (h', tbl') /\
    moving h' c m tbl' rows' left /\ concat rows' ≡ₚ concat rows ++ es /\
    (forall j, j ∈ addrs left -> h' !! j = h !! j).
Proof.
  induction es as [|[id [k v]] es IH]; intros [|fuel] h tbl rows left Hm Hs Hf; try (cbn in Hf; lia).
  { exists h, tbl, rows. cbn. rewrite app_nil_r. by split_and!. }
  cbn [app] in Hm. destruct (moving_step _ _ _ _ _ _ _ _ _ Hm) as (r & Hi & Ht & Hm1 & Hni & Hp).
  cbn in Hs. destruct Hs as [Hid Hs]. cbn [rehash_row hptr]. rewrite Hid. cbn [mbind option_bind key value hash_ next].
  rewrite Ht. cbn [mbind option_bind]. rewrite fmap_app, not_elem_of_app in Hni. destruct Hni as [Hn1 Hn2].
  destruct (IH fuel _ _ _ _ Hm1) as (h' & tbl' & rows' & E & Hm' & Hp' & Hfr); [|cbn in Hf; lia|].
  { eapply lseg_frame; [|exact Hs]. intros j Hj. apply lookup_insert_ne. by intros <-. }
  exists h', tbl', rows'. split_and!; [done|done| |].
  - rewrite Hp', Hp. cbn [app]. by rewrite <- Permutation_middle.
  - intros j Hj. rewrite Hfr by done. apply lookup_insert_ne. by intros <-.
Qed.

Lemma rehash_rows_spec c m old : forall old_rows h tbl rows,
  moving h c m tbl rows (concat old_rows) -> rows_ok h old old_rows ->
  exists h' tbl' rows', rehash_rows h m tbl old = Some (h', tbl') /\
    moving h' c m tbl' rows' [] /\ concat rows' ≡ₚ concat rows ++ concat old_rows.
Proof.
  induction old as [|cur old IH]; intros old_rows h tbl rows Hm Hok; inversion Hok as [|? r ? rest [-> Hs] Hok' E1 E2];
    subst; clear Hok.
  { exists h, tbl, rows. cbn. rewrite app_nil_r. by split_and!. }
  cbn [rehash_rows concat] in *.
  destruct (rehash_row_spec c m r (S (size h)) h tbl rows (concat rest) Hm Hs)
    as (h1 & tbl1 & rows1 & -> & Hm1 & Hp1 & Hf).
  { destruct Hm as (_ & Ho & _). rewrite (owned_size _ _ Ho), !length_app. lia. }
  cbn [mbind option_bind].
  destruct (IH rest h1 tbl1 rows1 Hm1) as (h' & tbl' & rows' & -> & Hm' & Hp').
  { clear -Hok' Hf. induction Hok' as [|c r old rest [-> Hs] _ IH]; constructor.
    - split; [done|]. eapply lseg_frame; [|exact Hs]. intros j Hj. apply Hf. cbn [concat].
      rewrite fmap_app. apply elem_of_app. by left.
    - apply IH. intros j Hj. apply Hf. cbn [concat]. rewrite fmap_app. apply elem_of_app. by right. }
  exists h', tbl', rows'. split_and!; [done|done|]. by rewrite Hp', Hp1, app_assoc.
Qed.

Lemma empty_rows_ok h tbl : Forall (fun p => p = None) tbl ->
  rows_ok h tbl ((fun _ => []) <$> tbl) /\ concat ((fun _ : option nat => @nil (nat * (K * V))) <$> tbl) = [].
Proof. induction 1 as [|p tbl -> _ [IH1 IH2]]; [by split; [constructor|]|]. split; [by constructor|done]. Qed.

Lemma empty_rows_placed m (tbl : list (option nat)) :
  placed m ((fun _ => @nil (nat * (K * V))) <$> tbl).
Proof. intros i r Hi. apply list_lookup_fmap_Some in Hi as (? & -> & _). done. Qed.

Lemma rep_take_table t rows : rep t rows -> take (Z.to_nat (capacity t)) (table t) = table t.
Proof. intros Hr. destruct (rep_sized _ _ Hr) as (e & _ & _ & _ & <-). rewrite Nat2Z.id. by apply take_ge. Qed.

Lemma rehash_rep t rows : rep t rows ->
  exists t' rows', rehash t = Some t' /\ rep t' rows' /\ concat rows' ≡ₚ concat rows.
Proof.
  intros Hr. unfold rehash. destruct (_ <=? _); [by exists t, rows|].
  destruct (init_hashtable _) as [[c' m'] tbl'] eqn:Ei. apply init_hashtable_sized in Ei as [Hsz Hn].
  destruct (empty_rows_ok (heap t) tbl' Hn) as [Hok Hc].
  destruct (rehash_rows_spec c' m' (table t) rows (heap t) tbl' ((fun _ => []) <$> tbl'))
    as (h & tbl & rows' & E & (Hok' & Ho' & Hpl' & Hsz') & Hp); [|apply (rep_rows _ _ Hr)|].
  { split_and!; [done| |apply empty_rows_placed|done]. rewrite Hc. apply (rep_owned _ _ Hr). }
  rewrite (rep_take_table _ _ Hr), E. cbn [mbind option_bind]. eexists _, rows'. split; [reflexivity|].
  rewrite Hc in Hp. cbn [app] in Hp. rewrite app_nil_r in Ho'. split; [|done].
  constructor; cbn [heap free_addr count capacity mask table]; try done.
  - intros id. rewrite Hp. apply (rep_free _ _ Hr).
  - eapply unique_perm; [|apply (rep_unique _ _ Hr)]. by rewrite Hp.
  - rewrite Hp. apply (rep_count _ _ Hr).
  - apply (rep_count_lt _ _ Hr).
Qed.

Lemma create_rep c : exists rows, rep (hashtable_create c) rows /\ concat rows = [].
Proof.
  unfold hashtable_create. destruct (init_hashtable c) as [[c' m'] tbl'] eqn:Ei.
  apply init_hashtable_sized in Ei as [Hsz Hn]. destruct (empty_rows_ok ∅ tbl' Hn) as [Hok Hc].
  exists ((fun _ => []) <$> tbl'). split; [|done].
  constructor; cbn [heap free_addr count capacity mask table]; rewrite ?Hc; try done.
  - split; [constructor|]. intros id. rewrite lookup_empty. cbn.
    split; [by intros []|by intros ?%not_elem_of_nil].
  - apply empty_rows_placed.
  - by intros id ?%not_elem_of_nil.
  - intros k. cbn. lia.
Qed.

(** ** The operations on the map *)

(** A table implements a finite map, given as its entries in any order. *)
Definition implements (t : ht) (m : list (K * V)) : Prop :=
  exists rows, rep t rows /\ snd <$> concat rows ≡ₚ m.

Lemma implements_unique t m : implements t m -> unique m.
Proof. intros (rows & Hr & Hp). eapply unique_perm; [exact Hp|apply (rep_unique _ _ Hr)]. Qed.

(** The search for a key in its row. *)
Lemma find_key t m k : implements t m ->
  let i := row_of (hash k) (mask t) in
  exists rows r, rep t rows /\ rows !! i = Some r /\ table t !! i = Some (hptr r None) /\
    snd <$> r ++ others i rows ≡ₚ m /\
    (search (S (size (heap t))) (heap t) (hptr r None) (equals k) = Some None /\
       Forall (fun x => equals k (fst x) <> true) (snd <$> r ++ others i rows) \/
     exists p id k0 v0 q, r = p ++ (id, (k0, v0)) :: q /\ equals k k0 = true /\
       Forall (fun e => equals k (fst (snd e)) = false) p /\
       search (S (size (heap t))) (heap t) (hptr r None) (equals k) = Some (Some id) /\
       heap t !! id = Some (Pair k0 v0 (hash k0) (hptr q None)) /\
       m ≡ₚ (k0, v0) :: (snd <$> (p ++ q) ++ others i rows)).
Proof.
  intros (rows & Hr & Hm) i. destruct (key_row t rows k Hr) as (r & Ht & Hi & Hs & Hoth). fold i in Ht, Hi, Hoth.
  destruct (rows_split rows i r r Hi) as [Hp _].
  exists rows, r. split_and!; try done; [by rewrite <- Hm, <- Hp|].
  destruct (search_spec (heap t) (equals k) r (S (size (heap t))) Hs) as [[E Hall]|(p & id & k0 & v0 & q & -> & Hall & Ek & E)].
  - eapply row_length; [apply (rep_owned _ _ Hr)|done].
  - left. split; [done|]. rewrite fmap_app. apply Forall_app. split; [|done].
    apply Forall_fmap. eapply Forall_impl; [exact Hall|]. cbn. intros x Hx. by rewrite Hx.
  - right. exists p, id, k0, v0, q. apply lseg_app in Hs as [_ [Hid _]]. split_and!; try done.
    rewrite <- Hm, Hp. rewrite <- !app_assoc. cbn [app]. by rewrite <- Permutation_middle.
Qed.

Lemma implements_count t m : implements t m -> count t = Z.of_nat (length m).
Proof. intros (rows & Hr & Hm). by rewrite (rep_count _ _ Hr), <- Hm, length_fmap. Qed.

Lemma get_implements t m k : implements t m -> get t k = Some (lookup_key m k).
Proof.
  intros Hi. pose proof (implements_unique _ _ Hi) as Hu. unfold get, get_internal.
  rewrite (implements_count _ _ Hi). destruct m as [|e m]; [done|].
  assert ((Z.of_nat (length (e :: m)) =? 0) = false) as -> by (cbn; lia).
  destruct (find_key t _ k Hi) as (rows & r & Hr & Hrow & -> & Hm & Hcase). cbn [mbind option_bind].
  destruct Hcase as [[-> Hno]|(p & id & k0 & v0 & q & -> & Ek & _ & -> & Hid & Hp)]; cbn [mbind option_bind].
  - rewrite lookup_absent; [done|]. by rewrite <- Hm.
  - rewrite Hid. cbn. by destruct (lookup_present k (k0, v0) _ _ Hp Hu Ek) as [-> _].
Qed.

Lemma rehash_implements t m b : implements t m ->
  exists t', (if b : bool then rehash t else Some t) = Some t' /\ implements t' m.
Proof.
  intros (rows & Hr & Hm). destruct b; [|exists t; split; [done|by exists rows]].
  destruct (rehash_rep t rows Hr) as (t' & rows' & -> & Hr' & Hp). exists t'. split; [done|].
  exists rows'. by rewrite Hp.
Qed.

Lemma put_implements t m k v : implements t m -> Z.of_nat (length m) + 1 < 2 ^ 32 ->
  exists t', put t k v = Some (lookup_key m k, t') /\ implements t' ((k, v) :: without k m).
Proof.
  intros Hi Hlt. pose proof (implements_unique _ _ Hi) as Hu. pose proof (implements_count _ _ Hi) as Hcnt.
  destruct (find_key t _ k Hi) as (rows & r & Hr & Hrow & Ht & Hm & Hcase).
  set (i := row_of (hash k) (mask t)) in *.
  unfold put. fold i. rewrite Ht. cbn [mbind option_bind].
  assert (forall (o : option V) (t1 : ht) m1, implements t1 m1 ->
    exists t', (if overloaded (count t1) (capacity t1) then this ← rehash t1; Some (o, this) else Some (o, t1))
               = Some (o, t') /\ implements t' m1) as Hfin.
  { intros o t1 m1 Hi1. destruct (rehash_implements t1 m1 (overloaded (count t1) (capacity t1)) Hi1) as (t' & E & Hi').
    exists t'. split; [|done]. destruct (overloaded _ _); [by rewrite E|by injection E as ->]. }
  destruct Hcase as [[-> Hno]|(p & id & k0 & v0 & q & -> & Ek & _ & -> & Hid & Hp)]; cbn [mbind option_bind].
  - rewrite lookup_absent by (by rewrite <- Hm). apply Hfin. rewrite uwrap_small by (rewrite Hcnt; lia).
    exists (<[i := (free_addr t, (k, v)) :: r]> rows). split.
    + apply rep_push; try done. lia.
    + destruct (rows_split rows i r ((free_addr t, (k, v)) :: r) Hrow) as [_ ->].
      cbn [app]. rewrite fmap_cons. cbn [snd]. rewrite Hm, without_id by (by rewrite <- Hm). done.
  - rewrite Hid. cbn [mbind option_bind value hash_ next].
    destruct (lookup_present k (k0, v0) _ _ Hp Hu Ek) as [-> Hw]. apply Hfin.
    exists (<[i := p ++ (id, (k, v)) :: q]> rows). split; [by eapply rep_replace|].
    destruct (rows_split rows i _ (p ++ (id, (k, v)) :: q) Hrow) as [_ ->].
    rewrite Hw, <- !app_assoc. cbn [app]. by rewrite <- Permutation_middle.
Qed.

Lemma table_remove_loop_spec t rows i k suf : forall fuel pre,
  rep t rows -> rows !! i = Some (pre ++ suf) -> (length suf < fuel)%nat ->
  remove_loop fuel t i (lptr None pre) (hptr suf None) k = Some (None, t) /\
    Forall (fun e => equals k (fst (snd e)) = false) suf \/
  exists p id k0 v0 q t', suf = p ++ (id, (k0, v0)) :: q /\ equals k k0 = true /\
    remove_loop fuel t i (lptr None pre) (hptr suf None) k = Some (Some v0, t') /\
    rep t' (<[i := pre ++ p ++ q]> rows).
Proof.
  induction suf as [|[id [k0 v0]] suf IH]; intros [|fuel] pre Hr Hi Hf; try (cbn in Hf; lia); [by left|].
  destruct (rep_row _ _ _ _ Hr Hi) as (_ & Hs & _). apply lseg_app in Hs as [_ [Hid _]].
  cbn [remove_loop hptr]. rewrite Hid. cbn [mbind option_bind key value next].
  destruct (equals k k0) eqn:Ek.
  - right. destruct (rep_unlink _ _ _ _ _ _ _ _ Hr Hi) as (h & tbl & -> & Hr').
    eexists [], id, k0, v0, suf, _. by split_and!.
  - assert (Some id = lptr None (pre ++ [(id, (k0, v0))])) as -> by (by rewrite lptr_app).
    destruct (IH fuel (pre ++ [(id, (k0, v0))]) Hr) as [[-> Hall]|(p & id' & k' & v' & q & t' & -> & Ek' & -> & Hr')];
      [by rewrite <- app_assoc|cbn in Hf; lia|left|right].
    + split; [done|]. by constructor.
    + exists ((id, (k0, v0)) :: p), id', k', v', q, t'. split_and!; try done.
      rewrite <- app_assoc in Hr'. exact Hr'.
Qed.

Lemma remove_implements t m k : implements t m ->
  exists t', remove_ t k = Some (lookup_key m k, t') /\ implements t' (without k m).
Proof.
  intros Hi. pose proof (implements_unique _ _ Hi) as Hu.
  destruct (find_key t _ k Hi) as (rows & r & Hr & Hrow & Ht & Hm & _).
  destruct (key_row t rows k Hr) as (r' & _ & Hrow' & _ & Hoth). rewrite Hrow in Hrow'. injection Hrow' as <-.
  set (i := row_of (hash k) (mask t)) in *. unfold remove_. fold i. rewrite Ht. cbn [mbind option_bind].
  pose proof (table_remove_loop_spec t rows i k r (S (size (heap t))) [] Hr Hrow
    (row_length _ _ _ _ (rep_owned _ _ Hr) Hrow)) as Hl. cbn [lptr] in Hl.
  destruct Hl as [[-> Hall]|(p & id & k0 & v0 & q & t' & -> & Ek & -> & Hr')].
  - assert (Forall (fun x => equals k (fst x) <> true) m) as Hno.
    { rewrite <- Hm, fmap_app. apply Forall_app. split; [|done].
      apply Forall_fmap. eapply Forall_impl; [exact Hall|]. cbn. intros x Hx. by rewrite Hx. }
    exists t. by rewrite lookup_absent, without_id.
  - assert (m ≡ₚ (k0, v0) :: (snd <$> (p ++ q) ++ others i rows)) as Hp
      by (rewrite <- Hm, <- !app_assoc; cbn [app]; by rewrite <- Permutation_middle).
    destruct (lookup_present k (k0, v0) _ _ Hp Hu Ek) as [-> Hw]. exists t'. split; [done|].
    exists (<[i := p ++ q]> rows). split; [done|]. rewrite Hw.
    by destruct (rows_split rows i _ (p ++ q) Hrow) as [_ ->].
Qed.

(** ** Enumerators *)

(** An enumerator in row [i] that has passed the pairs [pre] of it moves on to the
    first of the pairs that follow in the row and in the rows after it. *)
Lemma enumerate_loop_spec t rows : rep t rows -> forall fuel i pre suf n pv todo,
  rows !! i = Some (pre ++ suf) -> suf ++ concat (drop (S i) rows) = todo ->
  n = Z.of_nat (length todo) -> (length rows < fuel + i)%nat ->
  let en := Enum (Z.of_nat i) n (lptr None pre) pv in
  match todo with
  | [] => enumerate_loop fuel t en = Some (None, en)
  | (id, e) :: todo' => exists j pre' suf', rows !! j = Some (pre' ++ (id, e) :: suf') /\
      suf' ++ concat (drop (S j) rows) = todo' /\
      enumerate_loop fuel t en = Some (Some e, Enum (Z.of_nat j) (n - 1) (Some id) (lptr None pre'))
  end.
Proof.
  intros Hr. induction fuel as [|fuel IH]; intros i pre suf n pv todo Hi Htodo Hn Hf; [|cbn zeta].
  { apply lookup_lt_Some in Hi. lia. }
  cbn [enumerate_loop remaining row current]. destruct todo as [|[id e] todo]; [by rewrite Hn|].
  assert ((n =? 0) = false) as -> by (rewrite Hn; cbn; lia).
  assert (Z.of_nat i < capacity t) as Hlt.
  { destruct (rep_sized _ _ Hr) as (? & _ & _ & _ & <-). apply lookup_lt_Some in Hi.
    rewrite (Forall2_length _ _ _ (rep_rows _ _ Hr)). lia. }
  rewrite (proj2 (Z.ltb_lt _ _) Hlt). cbn [negb andb].
  destruct (rep_row _ _ _ _ Hr Hi) as (Ht & Hs & _).
  assert (match lptr None pre with
          | Some id => p ← heap t !! id; Some (next p)
          | None => table t !! Z.to_nat (Z.of_nat i)
          end = Some (hptr suf None)) as ->.
  { rewrite Nat2Z.id. destruct pre as [|[pid [pk pv']] pre _] using rev_ind; [by rewrite Ht|].
    rewrite lptr_app. cbn [lptr]. rewrite <- app_assoc in Hs. apply lseg_app in Hs as [_ [-> _]]. done. }
  cbn [mbind option_bind]. destruct suf as [|[id' [k v]] suf]; cbn [hptr].
  - cbn [app] in Htodo. destruct (rows !! S i) as [r|] eqn:Hi'.
    + rewrite (drop_S rows r (S i)) in Htodo by done. cbn [concat] in Htodo.
      replace (Z.of_nat i + 1) with (Z.of_nat (S i)) by lia.
      exact (IH (S i) [] r n (lptr None pre) ((id, e) :: todo) Hi' Htodo Hn ltac:(lia)).
    + apply lookup_ge_None in Hi'. by rewrite drop_ge in Htodo by done.
  - cbn [app] in Htodo. injection Htodo as -> <- <-. apply lseg_app in Hs as [_ [-> _]].
    cbn [mbind option_bind key value]. by exists i, pre, suf.
Qed.

Lemma rep_rows_length t rows : rep t rows -> Z.of_nat (length rows) = capacity t.
Proof.
  intros Hr. destruct (rep_sized _ _ Hr) as (? & _ & _ & _ & <-).
  by rewrite (Forall2_length _ _ _ (rep_rows _ _ Hr)).
Qed.

(** The walk clients make: every pair is visited, some are removed with [remove_at]. *)
Fixpoint sweep (fuel : nat) (t : ht) (en : enumerator) (f : K -> V -> bool) : option (list (K * V) * ht) :=
  match fuel with
  | O => None
  | S fuel =>
    '(item, en) ← enumerate t en;
    match item with
    | None => Some ([], t)
    | Some (k, v) =>
      '(t, en) ← (if f k v then remove_at t en else Some (t, en));
      '(seen, t) ← sweep fuel t en f;
      Some ((k, v) :: seen, t)
    end
  end.

Abbreviation kept f := (fun e : K * V => f (fst e) (snd e) <> true).

Lemma sweep_spec (f : K -> V -> bool) todo : forall fuel t rows i pre suf pv done_,
  rep t rows -> rows !! i = Some (pre ++ suf) -> suf ++ concat (drop (S i) rows) = todo ->
  (length todo < fuel)%nat -> snd <$> concat rows ≡ₚ done_ ++ (snd <$> todo) ->
  exists t' rows', sweep fuel t (Enum (Z.of_nat i) (Z.of_nat (length todo)) (lptr None pre) pv) f
                   = Some (snd <$> todo, t') /\ rep t' rows' /\
    snd <$> concat rows' ≡ₚ done_ ++ filter (kept f) (snd <$> todo).
Proof.
  induction todo as [|[id [k v]] todo IH]; intros [|fuel] t rows i pre suf pv done_ Hr Hi Htodo Hf Hp;
    try (cbn in Hf; lia); cbn [sweep]; unfold enumerate; cbn [row];
    pose proof (enumerate_loop_spec t rows Hr (S (Z.to_nat (capacity t - Z.of_nat i))) i pre suf _ pv _ Hi Htodo eq_refl) as E;
    cbn zeta in E; rewrite <- (rep_rows_length _ _ Hr) in E |- *;
    specialize (E ltac:(apply lookup_lt_Some in Hi; lia)).
  { rewrite E. cbn. by exists t, rows. }
  destruct E as (j & pre' & suf' & Hj & Htodo' & ->). cbn [mbind option_bind].
  replace (Z.of_nat (length ((id, (k, v)) :: todo)) - 1) with (Z.of_nat (length todo)) by (cbn [length]; lia).
  rewrite fmap_cons, filter_cons. cbn [fst snd]. destruct (f k v) eqn:Efv.
  - rewrite decide_False by (intros Hx; by apply Hx).
    destruct (rep_unlink _ _ _ _ _ _ _ _ Hr Hj) as (h & tbl & Eu & Hr').
    destruct (rep_row _ _ _ _ Hr Hj) as (_ & Hs & _). apply lseg_app in Hs as [_ [Hid _]].
    unfold remove_at. cbn [current row prev remaining]. rewrite Hid. cbn [mbind option_bind next].
    rewrite Nat2Z.id, Eu. cbn [mbind option_bind].
    edestruct (IH fuel _ _ j pre' suf' (lptr None pre') done_ Hr') as (t' & rows' & -> & Hr'' & Hp'').
    + rewrite list_lookup_insert_eq; [done|]. by eapply lookup_lt_Some.
    + rewrite drop_insert_lt by lia. done.
    + cbn in Hf. lia.
    + destruct (rows_split rows j _ (pre' ++ suf') Hj) as [Hp1 Hp2].
      rewrite Hp1 in Hp. rewrite Hp2. apply (Permutation_cons_inv (a := (k, v))).
      rewrite fmap_cons in Hp. cbn [snd] in Hp. rewrite Permutation_middle, <- Hp, <- !app_assoc.
      cbn [app]. by rewrite <- Permutation_middle.
    + cbn [mbind option_bind]. by exists t', rows'.
  - rewrite decide_True by congruence. cbn [mbind option_bind].
    assert (Some id = lptr None (pre' ++ [(id, (k, v))])) as -> by (by rewrite lptr_app).
    edestruct (IH fuel t rows j (pre' ++ [(id, (k, v))]) suf' (lptr None pre') (done_ ++ [(k, v)]) Hr)
      as (t' & rows' & -> & Hr'' & Hp''); [by rewrite <- app_assoc|done|cbn in Hf; lia| |].
    + by rewrite Hp, <- app_assoc.
    + cbn [mbind option_bind]. exists t', rows'. rewrite <- app_assoc in Hp''. done.
Qed.

Lemma sweep_implements t m f : implements t m ->
  exists seen t', sweep (S (length m)) t (create_enumerator t) f = Some (seen, t') /\ seen ≡ₚ m /\
    implements t' (filter (kept f) m).
Proof.
  intros (rows & Hr & Hp). assert (is_Some (rows !! 0%nat)) as [r Hrow].
  { apply lookup_lt_is_Some. pose proof (rep_rows_length _ _ Hr).
    destruct (rep_sized _ _ Hr) as (e & ? & ? & _). assert (0 < 2 ^ e) by (apply Z.pow_pos_nonneg; lia). lia. }
  assert (r ++ concat (drop 1 rows) = concat rows) as Hc by (destruct rows as [|r' rows]; [done|]; by injection Hrow as ->).
  destruct (sweep_spec f (concat rows) (S (length m)) t rows 0 [] r None [] Hr Hrow Hc)
    as (t' & rows' & E & Hr' & Hp'); [rewrite <- Hp, length_fmap; lia|done|].
  exists (snd <$> concat rows), t'. split_and!; [|done|].
  - rewrite <- E. unfold create_enumerator. by rewrite (rep_count _ _ Hr).
  - exists rows'. split; [done|]. cbn [app] in Hp'. by rewrite Hp', Hp.
Qed.

(** ** Destruction *)

Lemma destroy_row_spec es : forall fuel h rest,
  owned h (es ++ rest) -> lseg h es None -> (length es < fuel)%nat ->
  exists h', destroy_row fuel h (hptr es None) = Some ((fun e => (snd (snd e), fst (snd e))) <$> es, h') /\
    owned h' rest /\ (forall j, j ∈ addrs rest -> h' !! j = h !! j).
Proof.
  induction es as [|[id [k v]] es IH]; intros [|fuel] h rest Ho Hs Hf; try (cbn in Hf; lia); [by exists h|].
  cbn in Hs. destruct Hs as [Hid Hs]. cbn [destroy_row hptr]. rewrite Hid. cbn [mbind option_bind next value key].
  destruct Ho as [Hnd Hd]. cbn [app fmap list_fmap fst] in Hnd. apply NoDup_cons in Hnd as [Hni Hnd].
  change (id ∉ addrs (es ++ rest)) in Hni. change (NoDup (addrs (es ++ rest))) in Hnd.
  pose proof Hni as Hni'. rewrite fmap_app, not_elem_of_app in Hni'. destruct Hni' as [Hn1 Hn2].
  destruct (IH fuel (delete id h) rest) as (h' & -> & Ho' & Hfr); [| |cbn in Hf; lia|].
  - split; [done|]. intros j. rewrite lookup_delete_is_Some, Hd. cbn [app]. rewrite fmap_cons, elem_of_cons.
    cbn [fst]. split; [intros [? [?|?]]; congruence || done|]. intros Hj. split; [by intros <-|by right].
  - eapply lseg_frame; [|exact Hs]. intros j Hj. apply lookup_delete_ne. by intros <-.
  - exists h'. split_and!; [done|done|]. intros j Hj. rewrite Hfr by done. apply lookup_delete_ne. by intros <-.
Qed.

Lemma destroy_rows_spec tbl : forall rows h,
  owned h (concat rows) -> rows_ok h tbl rows ->
  destroy_rows h tbl = Some ((fun e => (snd (snd e), fst (snd e))) <$> concat rows, ∅).
Proof.
  induction tbl as [|p tbl IH]; intros rows h Ho Hok; inversion Hok as [|? r ? rest [-> Hs] Hok' E1 E2]; subst.
  - cbn. do 2 f_equal. apply map_empty. intros i. apply eq_None_not_Some. destruct Ho as [_ ->].
    apply not_elem_of_nil.
  - cbn [destroy_rows concat] in *.
    destruct (destroy_row_spec r (S (size h)) h (concat rest) Ho Hs) as (h' & -> & Ho' & Hf).
    { rewrite (owned_size _ _ Ho), length_app. lia. }
    cbn [mbind option_bind]. rewrite (IH rest h' Ho'); [cbn [mbind option_bind]; by rewrite fmap_app|].
    clear -Hok' Hf. induction Hok' as [|c r old rest [-> Hs] _ IH]; constructor.
    + split; [done|]. eapply lseg_frame; [|exact Hs]. intros j Hj. apply Hf. cbn [concat].
      rewrite fmap_app. apply elem_of_app. by left.
    + apply IH. intros j Hj. apply Hf. cbn [concat]. rewrite fmap_app. apply elem_of_app. by right.
Qed.

Lemma destroy_implements t m : implements t m ->
  exists l, destroy_internal t = Some (l, ∅) /\ l ≡ₚ (fun e => (snd e, fst e)) <$> m.
Proof.
  intros (rows & Hr & Hp). unfold destroy_internal. rewrite (rep_take_table _ _ Hr).
  eexists. split; [apply (destroy_rows_spec _ rows); apply Hr|].
  by rewrite <- Hp, <- list_fmap_compose.
Qed.
End Rep.

(** ** Refinement *)
Inductive command (K V : Type) :=
  | Put (k : K) (v : V)
  | Get (k : K)
  | Remove (k : K)
  | GetCount
  | Sweep (f : K -> V -> bool).        (* a walk that removes some of the pairs *)
Arguments Put {K V}. Arguments Get {K V}. Arguments Remove {K V}. Arguments GetCount {K V}. Arguments Sweep {K V}.

Inductive output (K V : Type) :=
  | OValue (v : option V)
  | ONumber (n : Z)
  | OSeen (l : list (K * V)).
Arguments OValue {K V}. Arguments ONumber {K V}. Arguments OSeen {K V}.

Section Refinement.
Context {K V : Type} `{HashKey K}.

Definition step (t : hashtable K V) (c : command K V) : option (output K V * hashtable K V) :=
  match c with
  | Put k v => '(r, t) ← put t k v; Some (OValue r, t)
  | Get k => r ← get t k; Some (OValue r, t)
  | Remove k => '(r, t) ← remove_ t k; Some (OValue r, t)
  | GetCount => Some (ONumber (get_count t), t)
  | Sweep f => '(seen, t) ← sweep (S (Z.to_nat (count t))) t (create_enumerator t) f; Some (OSeen seen, t)
  end.

Fixpoint run (t : hashtable K V) (cs : list (command K V)) : option (list (output K V) * hashtable K V) :=
  match cs with
  | [] => Some ([], t)
  | c :: cs => '(o, t) ← step t c; '(os, t) ← run t cs; Some (o :: os, t)
  end.

(** What the operations do to the map of entries. *)
Definition spec_step (m : list (K * V)) (c : command K V) : output K V * list (K * V) :=
  match c with
  | Put k v => (OValue (lookup_key m k), (k, v) :: without k m)
  | Get k => (OValue (lookup_key m k), m)
  | Remove k => (OValue (lookup_key m k), without k m)
  | GetCount => (ONumber (Z.of_nat (length m)), m)
  | Sweep f => (OSeen m, filter (fun e => f (fst e) (snd e) <> true) m)
  end.

Fixpoint spec_run (m : list (K * V)) (cs : list (command K V)) : list (output K V) * list (K * V) :=
  match cs with
  | [] => ([], m)
  | c :: cs => let '(o, m) := spec_step m c in let '(os, m) := spec_run m cs in (o :: os, m)
  end.

(** The order of a walk is not part of the contract. *)
Definition same_output (o o' : output K V) : Prop :=
  match o, o' with
  | OSeen l, OSeen l' => l ≡ₚ l'
  | _, _ => o = o'
  end.

Lemma table_step_refines t m c :
  implements t m -> Z.of_nat (length m) + 1 < 2 ^ 32 ->
  exists o t', step t c = Some (o, t') /\ same_output o (fst (spec_step m c)) /\
    implements t' (snd (spec_step m c)).
Proof.
  intros Hi Hlt. destruct c as [k v|k|k| |f]; cbn [step spec_step fst snd].
  - destruct (put_implements t m k v Hi Hlt) as (t' & -> & Hi'). by eexists _, t'.
  - rewrite (get_implements t m k Hi). by eexists _, t.
  - destruct (remove_implements t m k Hi) as (t' & -> & Hi'). by eexists _, t'.
  - unfold get_count. rewrite (implements_count _ _ Hi). by eexists _, t.
  - rewrite (implements_count _ _ Hi), Nat2Z.id.
    destruct (sweep_implements t m f Hi) as (seen & t' & -> & Hs & Hi'). by eexists _, t'.
Qed.

Lemma spec_step_length m c : (length (snd (spec_step m c)) <= S (length m))%nat.
Proof.
  destruct c as [k v|k|k| |f]; cbn [spec_step snd length]; unfold without;
    try (etrans; [|apply le_n_S, (length_filter (fun e => equals k (fst e) <> true) m)]; lia); try lia.
  etrans; [apply length_filter|lia].
Qed.

Lemma table_run_refines cs : forall t m,
  implements t m -> Z.of_nat (length m) + Z.of_nat (length cs) < 2 ^ 32 ->
  exists os t', run t cs = Some (os, t') /\ Forall2 same_output os (fst (spec_run m cs)) /\
    implements t' (snd (spec_run m cs)).
Proof.
  induction cs as [|c cs IH]; intros t m Hi Hlt; [by exists [], t|]. cbn [length] in Hlt.
  destruct (table_step_refines t m c Hi ltac:(lia)) as (o & t1 & E & Ho & Hi1).
  pose proof (spec_step_length m c). destruct (IH t1 _ Hi1 ltac:(lia)) as (os & t' & E' & Hos & Hi').
  exists (o :: os), t'. cbn [run spec_run]. rewrite E. cbn [mbind option_bind]. rewrite E'. cbn [mbind option_bind].
  destruct (spec_step m c) as [o' m1]. cbn [fst snd] in *.
  destruct (spec_run m1 cs) as [os' m2]. cbn [fst snd] in *. by split_and!; [|constructor|].
Qed.
End Refinement.

(** C28: A hash table implements the finite map of its keys modulo [equals]: every
    series of puts, lookups, removals and walks on a new table of any capacity is
    defined (no pointer to a freed pair is followed, no row outside of the array is
    accessed, however often the table is doubled on the way), gives the results
    the map gives, with every entry visited exactly once by a walk that removes
    some of them, and ends with a table whose lookups and count are those of the map
    and whose destruction frees every pair. *)
Theorem hashtable_refines {K V : Type} `{HashKey K} (capacity : Z) (cs : list (command K V)) :
  Z.of_nat (length cs) < 2 ^ 32 ->
  let '(os', m) := spec_run [] cs in
  exists os t, run (hashtable_create capacity) cs = Some (os, t) /\ Forall2 same_output os os' /\
    (forall k, get t k = Some (lookup_key m k)) /\ get_count t = Z.of_nat (length m) /\
    exists l, destroy_internal t = Some (l, ∅) /\ l ≡ₚ (fun e => (snd e, fst e)) <$> m.
Proof.
  intros Hlt. destruct (create_rep (K := K) (V := V) capacity) as (rows & Hr & Hc).
  destruct (table_run_refines cs (hashtable_create capacity) []) as (os & t & E & Ho & Hi).
  { exists rows. by rewrite Hc. }
  { cbn. lia. }
  destruct (spec_run [] cs) as [os' m]. cbn [fst snd] in *. exists os, t. split_and!; try done.
  - intros k. by apply get_implements.
  - by apply implements_count.
  - by apply destroy_implements.
Qed.

(** Integers as keys, compared modulo a hundred. *)
Program Definition mod_key : HashKey Z :=
  {| hash k := k mod 100; equals k k' := k mod 100 =? k' mod 100 |}.
Solve Obligations with (intros; cbn in *; repeat match goal with
  | |- context [?k mod 100] => assert_fails (assert (0 <= k mod 100 < 100) by assumption);
                               pose proof (Z.mod_pos_bound k 100 ltac:(lia))
  end; lia).

Lemma hashtable_refines_witness :
  let cs := [Put 1 10; Put 2 20; Put 101 11; Get 1; Put 3 30; Remove 2; Sweep (fun k v => v =? 11); GetCount] in
  exists os t, run (H := mod_key) (hashtable_create 1) cs = Some (os, t) /\
    Forall2 same_output os [OValue None; OValue None; OValue (Some 10); OValue (Some 11); OValue None;
                            OValue (Some 20); OSeen [(3, 30); (101, 11)]; ONumber 1] /\
    (forall k, get (H := mod_key) t k = Some (lookup_key (H := mod_key) [(3, 30)] k)) /\
    get_count t = 1 /\ exists l, destroy_internal t = Some (l, ∅) /\ l ≡ₚ [(30, 3)].
Proof.
  intros cs. exact (hashtable_refines (H := mod_key) 1 cs ltac:(cbn; lia)).
Defined.
