(* ===== verification/Bio.v ===== *)
(** Buffered binary I/O: [src/libstrongswan/bio/bio_reader.c] and
    [bio_writer.c].  A reader is the byte string it has left; a reading function
    returns [None] where the C function returns [FALSE] and leaves the reader
    as it was.  A writer keeps the allocated buffer, the number of used bytes
    and the growth step, as the C object does. *)
From S2P Require Import Prelude Chunk.
From stdpp Require Import base numbers list option.
From Stdlib Require Import Lia ZArith.
Local Open Scope Z_scope.

(** ** bio_reader *)
Module Reader.

Definition remaining (buf : chunk) : Z := u32 (Z.of_nat (length buf)).
Definition peek (buf : chunk) : chunk := buf.

Definition chunk_skip_end (c : chunk) (bytes : nat) (from_end : bool) : chunk :=
  if (bytes <? length c)%nat then
    if from_end then take (length c - bytes) c else drop bytes c
  else [].

(** The memory from the returned pointer on, up to the end of the buffer. *)
Definition get_ptr_end (buf : chunk) (len : nat) (from_end : bool) : chunk :=
  if from_end then drop (length buf - len) buf else buf.

Definition read_uint8_internal (buf : chunk) (from_end : bool) : option (Z * chunk) :=
  if (length buf <? 1)%nat then None
  else Some (nth 0 (get_ptr_end buf 1 from_end) 0, chunk_skip_end buf 1 from_end).

Definition read_uint16_internal (buf : chunk) (from_end : bool) : option (Z * chunk) :=
  if (length buf <? 2)%nat then None
  else Some (untoh16 (get_ptr_end buf 2 from_end), chunk_skip_end buf 2 from_end).

(** [untoh32] reads four bytes at a position where only three are checked:
    [beyond] is the memory after the end of the buffer. *)
Definition read_uint24_internal (beyond buf : chunk) (from_end : bool)
    : option (Z * chunk) :=
  if (length buf <? 3)%nat then None
  else Some (Z.shiftr (untoh32 (get_ptr_end buf 3 from_end ++ beyond)) 8,
             chunk_skip_end buf 3 from_end).

Definition read_uint32_internal (buf : chunk) (from_end : bool) : option (Z * chunk) :=
  if (length buf <? 4)%nat then None
  else Some (untoh32 (get_ptr_end buf 4 from_end), chunk_skip_end buf 4 from_end).

Definition read_uint64_internal (buf : chunk) (from_end : bool) : option (Z * chunk) :=
  if (length buf <? 8)%nat then None
  else Some (untoh64 (get_ptr_end buf 8 from_end), chunk_skip_end buf 8 from_end).

Definition read_data_internal (buf : chunk) (len : nat) (from_end : bool)
    : option (chunk * chunk) :=
  if (length buf <? len)%nat then None
  else Some (take len (get_ptr_end buf len from_end), chunk_skip_end buf len from_end).

Definition read_uint8 (buf : chunk) := read_uint8_internal buf false.
Definition read_uint16 (buf : chunk) := read_uint16_internal buf false.
Definition read_uint24 (beyond buf : chunk) := read_uint24_internal beyond buf false.
Definition read_uint32 (buf : chunk) := read_uint32_internal buf false.
Definition read_uint64 (buf : chunk) := read_uint64_internal buf false.
Definition read_data (buf : chunk) (len : nat) := read_data_internal buf len false.

Definition read_uint8_end (buf : chunk) := read_uint8_internal buf true.
Definition read_uint16_end (buf : chunk) := read_uint16_internal buf true.
Definition read_uint24_end (beyond buf : chunk) := read_uint24_internal beyond buf true.
Definition read_uint32_end (buf : chunk) := read_uint32_internal buf true.
Definition read_uint64_end (buf : chunk) := read_uint64_internal buf true.
Definition read_data_end (buf : chunk) (len : nat) := read_data_internal buf len true.

(** A length-prefixed string: when the data is short the length stays
    consumed, so the state after a failure is returned as well. *)
Definition read_prefixed (r : option (Z * chunk)) (buf : chunk)
    : option chunk * chunk :=
  match r with
  | None => (None, buf)
  | Some (len, buf1) =>
    match read_data buf1 (Z.to_nat len) with
    | None => (None, buf1)
    | Some (d, buf2) => (Some d, buf2)
    end
  end.

Definition read_data8 (buf : chunk) := read_prefixed (read_uint8 buf) buf.
Definition read_data16 (buf : chunk) := read_prefixed (read_uint16 buf) buf.
Definition read_data24 (beyond buf : chunk) := read_prefixed (read_uint24 beyond buf) buf.
Definition read_data32 (buf : chunk) := read_prefixed (read_uint32 buf) buf.

(** *** Behaviour *)

Lemma chunk_skip_end_front c n : chunk_skip_end c n false = drop n c.
Proof.
  unfold chunk_skip_end. destruct (Nat.ltb_spec n (length c)); [done|].
  by rewrite drop_ge.
Qed.

Lemma chunk_skip_end_back c n : chunk_skip_end c n true = take (length c - n) c.
Proof.
  unfold chunk_skip_end. destruct (Nat.ltb_spec n (length c)); [done|].
  by replace (length c - n)%nat with 0%nat by lia.
Qed.

(** What each read returns on a buffer of the form it expects. *)
Lemma read_data_app d rest : read_data (d ++ rest) (length d) = Some (d, rest).
Proof.
  unfold read_data, read_data_internal. rewrite (proj2 (Nat.ltb_ge _ _)) by len.
  rewrite chunk_skip_end_front. cbn [get_ptr_end].
  by rewrite take_app_length, drop_app_length.
Qed.

Lemma read_data_end_app l d : read_data_end (l ++ d) (length d) = Some (d, l).
Proof.
  unfold read_data_end, read_data_internal. rewrite (proj2 (Nat.ltb_ge _ _)) by len.
  rewrite chunk_skip_end_back. cbn [get_ptr_end].
  replace (length (l ++ d) - length d)%nat with (length l) by len.
  by rewrite take_app_length, drop_app_length, take_ge by len.
Qed.

Lemma read_uint8_cons b rest : read_uint8 (b :: rest) = Some (b, rest).
Proof.
  unfold read_uint8, read_uint8_internal. simpl. rewrite chunk_skip_end_front. done.
Qed.

Lemma read_uint8_app v rest :
  0 <= v < 2 ^ 8 -> read_uint8 (be_bytes 1 v ++ rest) = Some (v, rest).
Proof.
  intros Hv. assert (be_bytes 1 v = [v]) as ->; [|apply read_uint8_cons].
  cbn [be_bytes]. change (256 ^ Z.of_nat 0) with 1. by rewrite Z.div_1_r, Z.mod_small.
Qed.

Lemma read_uint8_end_snoc l b : read_uint8_end (l ++ [b]) = Some (b, l).
Proof.
  unfold read_uint8_end, read_uint8_internal. rewrite (proj2 (Nat.ltb_ge _ _)) by len.
  rewrite chunk_skip_end_back. cbn [get_ptr_end].
  replace (length (l ++ [b]) - 1)%nat with (length l) by len.
  by rewrite take_app_length, drop_app_length.
Qed.

(** What was read from the end was there. *)
Lemma read_data_end_inv l n d r :
  read_data_end l n = Some (d, r) -> l = r ++ d /\ length d = n.
Proof.
  unfold read_data_end, read_data_internal. destruct (Nat.ltb_spec (length l) n); [done|].
  rewrite chunk_skip_end_back. cbn [get_ptr_end]. intros [= <- <-].
  rewrite (take_ge (drop _ l)) by len. split; [by rewrite take_drop|len].
Qed.

Lemma read_uint8_end_inv l b r : read_uint8_end l = Some (b, r) -> l = r ++ [b].
Proof.
  unfold read_uint8_end, read_uint8_internal. destruct (Nat.ltb_spec (length l) 1); [done|].
  rewrite chunk_skip_end_back. cbn [get_ptr_end]. intros [= <- <-].
  assert (length (drop (length l - 1) l) = 1%nat) as Hl by len.
  rewrite <- (take_drop (length l - 1) l) at 1. f_equal.
  destruct (drop (length l - 1) l) as [|x [|]]; done.
Qed.

(** The network-order value at the front of a buffer. *)
Lemma untoh_app n v rest :
  0 <= v < 256 ^ Z.of_nat n ->
  bswap n (le_value (take n (be_bytes n v ++ rest))) = v.
Proof.
  intros Hv. rewrite take_app_length' by (by rewrite length_be_bytes).
  rewrite bswap_le_value, be_value_bytes by (bytes || apply length_be_bytes).
  by apply Z.mod_small.
Qed.

Lemma drop_be n v rest : drop n (be_bytes n v ++ rest) = rest.
Proof. apply drop_app_length'. by rewrite length_be_bytes. Qed.

Lemma short_be n v rest : (length (be_bytes n v ++ rest) <? n)%nat = false.
Proof. apply Nat.ltb_ge. len. Qed.

Lemma read_uint16_app v rest :
  0 <= v < 2 ^ 16 -> read_uint16 (be_bytes 2 v ++ rest) = Some (v, rest).
Proof.
  intros Hv. unfold read_uint16, read_uint16_internal, untoh16, get_ptr_end.
  by rewrite short_be, chunk_skip_end_front, untoh_app, drop_be.
Qed.

Lemma read_uint32_app v rest :
  0 <= v < 2 ^ 32 -> read_uint32 (be_bytes 4 v ++ rest) = Some (v, rest).
Proof.
  intros Hv. unfold read_uint32, read_uint32_internal, untoh32, get_ptr_end.
  by rewrite short_be, chunk_skip_end_front, untoh_app, drop_be.
Qed.

Lemma read_uint64_app v rest :
  0 <= v < 2 ^ 64 -> read_uint64 (be_bytes 8 v ++ rest) = Some (v, rest).
Proof.
  intros Hv. unfold read_uint64, read_uint64_internal, untoh64, get_ptr_end.
  by rewrite short_be, chunk_skip_end_front, untoh_app, drop_be.
Qed.

(** The 24-bit read ignores the byte it reads too much, whatever it is. *)
Lemma read_uint24_value beyond buf from_end :
  (3 <= length buf)%nat -> (1 <= length beyond)%nat -> bytes_ok buf -> bytes_ok beyond ->
  read_uint24_internal beyond buf from_end
  = Some (be_value (take 3 (get_ptr_end buf 3 from_end)), chunk_skip_end buf 3 from_end).
Proof.
  intros Hl Hb Hok Hbok. unfold read_uint24_internal.
  rewrite (proj2 (Nat.ltb_ge _ _)) by lia. do 2 f_equal. unfold untoh32.
  set (p := get_ptr_end buf 3 from_end).
  assert (Hp : (3 <= length p)%nat) by (unfold p, get_ptr_end; destruct from_end; len).
  assert (Hpok : bytes_ok p) by (unfold p, get_ptr_end; destruct from_end; bytes).
  rewrite untoh_be by (len || bytes).
  destruct p as [|p0 [|p1 [|p2 t]]]; simpl in Hp; try lia.
  assert (exists w, take 4 ((p0 :: p1 :: p2 :: t) ++ beyond) = [p0; p1; p2; w]
                    /\ byte_ok w) as (w & -> & Hw).
  { destruct t as [|w t]; [destruct beyond as [|w beyond]; [simpl in Hb; lia|]|];
      exists w; (split; [done|]); by decompose_Forall_hyps. }
  rewrite Z.shiftr_div_pow2 by lia. unfold byte_ok in Hw.
  change (2 ^ 8) with 256. cbn [take]; rewrite take_0; cbn [be_value length].
  change (256 ^ Z.of_nat 3) with 16777216. change (256 ^ Z.of_nat 2) with 65536.
  change (256 ^ Z.of_nat 1) with 256. change (256 ^ Z.of_nat 0) with 1.
  Z.div_mod_to_equations; lia.
Qed.

Lemma be_bytes_3 v rest : 0 <= v < 2 ^ 24 ->
  be_value (take 3 (be_bytes 3 v ++ rest)) = v.
Proof.
  intros. rewrite take_app_length' by (by rewrite length_be_bytes).
  rewrite be_value_bytes. by apply Z.mod_small.
Qed.

Lemma read_uint24_app beyond v rest :
  0 <= v < 2 ^ 24 -> (1 <= length beyond)%nat -> bytes_ok rest -> bytes_ok beyond ->
  read_uint24 beyond (be_bytes 3 v ++ rest) = Some (v, rest).
Proof.
  intros Hv Hb Hr Hbe. unfold read_uint24.
  rewrite read_uint24_value by (len || bytes).
  unfold get_ptr_end. by rewrite chunk_skip_end_front, be_bytes_3, drop_be.
Qed.
End Reader.

(** ** bio_writer *)
Module Writer.

Record bio_writer := BioWriter {
  w_buf : chunk;       (* allocated buffer, [buf] *)
  w_used : nat;        (* used bytes in buffer *)
  w_increase : nat;    (* number of bytes to increase buffer size *)
  w_gen : nat;         (* number of reallocations so far *)
}.

(** A pointer into the buffer of a writer, as returned by [skip]: valid while
    the buffer has not been reallocated. *)
Record wptr := WPtr { p_gen : nat; p_off : nat; p_len : nat }.

Section Writer.
(** The contents of freshly allocated memory, by position. *)
Context (junk : nat -> Z).

Definition malloc (from n : nat) : chunk := map junk (seq from n).

Fixpoint grow (fuel len need inc : nat) : nat :=
  match fuel with
  | O => len
  | S f => if (len <? need)%nat then grow f (len + inc) need inc else len
  end.

Definition increase (w : bio_writer) (required : nat) : bio_writer :=
  let need := (w_used w + required)%nat in
  let len := grow need (length (w_buf w)) need (w_increase w) in
  if (length (w_buf w) <? need)%nat then
    BioWriter (w_buf w ++ malloc (length (w_buf w)) (len - length (w_buf w)))
              (w_used w) (w_increase w) (S (w_gen w))
  else w.

(** Store bytes at the write position and advance it. *)
Definition store (w : bio_writer) (data : chunk) : bio_writer :=
  BioWriter (splice (w_used w) data (w_buf w)) (w_used w + length data)
            (w_increase w) (w_gen w).

Definition write_uint8 (w : bio_writer) (value : Z) : bio_writer :=
  store (increase w 1) [u8 value].

Definition write_uint16 (w : bio_writer) (value : Z) : bio_writer :=
  store (increase w 2) (htoun16 (u16 value)).

Definition write_uint24 (w : bio_writer) (value : Z) : bio_writer :=
  store (increase w 3) (drop 1 (le_image 4 (htonl (u32 value)))).

Definition write_uint32 (w : bio_writer) (value : Z) : bio_writer :=
  store (increase w 4) (htoun32 (u32 value)).

Definition write_uint64 (w : bio_writer) (value : Z) : bio_writer :=
  store (increase w 8) (htoun64 (u64 value)).

Definition write_data (w : bio_writer) (value : chunk) : bio_writer :=
  store (increase w (length value)) value.

Definition write_data8 (w : bio_writer) (value : chunk) : bio_writer :=
  let w := increase w (1 + length value) in
  write_data (write_uint8 w (Z.of_nat (length value))) value.

Definition write_data16 (w : bio_writer) (value : chunk) : bio_writer :=
  let w := increase w (2 + length value) in
  write_data (write_uint16 w (Z.of_nat (length value))) value.

Definition write_data24 (w : bio_writer) (value : chunk) : bio_writer :=
  let w := increase w (3 + length value) in
  write_data (write_uint24 w (Z.of_nat (length value))) value.

Definition write_data32 (w : bio_writer) (value : chunk) : bio_writer :=
  let w := increase w (4 + length value) in
  write_data (write_uint32 w (Z.of_nat (length value))) value.

(** [memmove] the used bytes up and put the prefix in front of them. *)
Definition prefix (w : bio_writer) (p : chunk) : bio_writer :=
  let moved := splice (length p) (take (w_used w) (w_buf w)) (w_buf w) in
  BioWriter (splice 0 p moved) (w_used w + length p) (w_increase w) (w_gen w).

Definition wrap8 (w : bio_writer) : bio_writer :=
  let w := increase w 1 in prefix w [u8 (Z.of_nat (w_used w))].

Definition wrap16 (w : bio_writer) : bio_writer :=
  let w := increase w 2 in prefix w (htoun16 (u16 (Z.of_nat (w_used w)))).

Definition wrap24 (w : bio_writer) : bio_writer :=
  let w := increase w 3 in
  prefix w (drop 1 (le_image 4 (htonl (u32 (Z.of_nat (w_used w)))))).

Definition wrap32 (w : bio_writer) : bio_writer :=
  let w := increase w 4 in prefix w (htoun32 (u32 (Z.of_nat (w_used w)))).

Definition skip (w : bio_writer) (len : nat) : wptr * bio_writer :=
  let w := increase w len in
  (WPtr (w_gen w) (w_used w) len,
   BioWriter (w_buf w) (w_used w + len) (w_increase w) (w_gen w)).

Definition get_buf (w : bio_writer) : chunk := take (w_used w) (w_buf w).

Definition extract_buf (w : bio_writer) : chunk * bio_writer :=
  (get_buf w, BioWriter [] 0 (w_increase w) (w_gen w)).

Definition bio_writer_create (bufsize : Z) : bio_writer :=
  let n := Z.to_nat (u32 bufsize) in
  BioWriter (malloc 0 n) 0 (if (n =? 0)%nat then 32 else Nat.max n 4) 0.

(** Writing through a pointer: undefined ([None]) once the buffer it points
    into has been reallocated. *)
Definition poke (w : bio_writer) (p : wptr) (data : chunk) : option bio_writer :=
  if (p_gen p =? w_gen w)%nat && (length data =? p_len p)%nat then
    Some (BioWriter (splice (p_off p) data (w_buf w)) (w_used w) (w_increase w) (w_gen w))
  else None.

(** Reading through a pointer. *)
Definition load (w : bio_writer) (p : wptr) : option chunk :=
  if (p_gen p =? w_gen w)%nat then Some (take (p_len p) (drop (p_off p) (w_buf w))) else None.

(** *** Invariant and refinement to an append-only byte string *)

Definition writer_ok (w : bio_writer) : Prop :=
  (w_used w <= length (w_buf w))%nat /\ (0 < w_increase w)%nat.

Lemma length_malloc k n : length (malloc k n) = n.
Proof. unfold malloc. by rewrite length_map, length_seq. Qed.
Hint Rewrite length_malloc : swan_len.

(** The growth loop reaches the required size within its fuel. *)
Lemma grow_enough fuel len need inc :
  (0 < inc)%nat -> (need <= len + fuel)%nat -> (need <= grow fuel len need inc)%nat.
Proof.
  intros Hi. revert len. induction fuel as [|f IH]; intros len Hf; simpl; [lia|].
  destruct (Nat.ltb_spec len need); [apply IH|]; lia.
Qed.

Lemma grow_mono fuel len need inc : (len <= grow fuel len need inc)%nat.
Proof.
  revert len. induction fuel as [|f IH]; intros len; simpl; [lia|].
  destruct (Nat.ltb_spec len need); [|lia]. specialize (IH (len + inc)%nat). lia.
Qed.

Lemma increase_spec w n :
  writer_ok w ->
  let w' := increase w n in
  writer_ok w' /\ (w_used w' + n <= length (w_buf w'))%nat /\
  w_used w' = w_used w /\ get_buf w' = get_buf w.
Proof.
  intros [Hu Hi]. cbv zeta. unfold increase.
  destruct (Nat.ltb_spec (length (w_buf w)) (w_used w + n)) as [Hlt|Hge].
  - set (len := grow _ _ _ _).
    assert (w_used w + n <= len)%nat by (apply grow_enough; lia).
    unfold writer_ok, get_buf; cbn [w_buf w_used w_increase].
    rewrite take_app_le by lia.
    repeat split; try lia; rewrite length_app, length_malloc; lia.
  - unfold writer_ok. repeat split; lia.
Qed.

(** Room in the buffer means no reallocation. *)
Lemma increase_fits w n :
  (w_used w + n <= length (w_buf w))%nat -> increase w n = w.
Proof. intros H. unfold increase. by rewrite (proj2 (Nat.ltb_ge _ _)). Qed.

Lemma store_spec w data :
  (w_used w + length data <= length (w_buf w))%nat -> writer_ok w ->
  writer_ok (store w data) /\ get_buf (store w data) = get_buf w ++ data.
Proof.
  intros Hl [Hu Hi]. unfold store, writer_ok, get_buf; cbn [w_buf w_used w_increase].
  rewrite length_splice by lia. split; [lia|]. apply take_splice. lia.
Qed.

Lemma write_spec w n data :
  length data = n -> writer_ok w ->
  writer_ok (store (increase w n) data) /\
  get_buf (store (increase w n) data) = get_buf w ++ data.
Proof.
  intros <- Hw. destruct (increase_spec w (length data) Hw) as (Hok & Hl & _ & Hb).
  rewrite <- Hb. by apply store_spec.
Qed.

Lemma prefix_spec w n p :
  length p = n -> writer_ok w -> (w_used w + n <= length (w_buf w))%nat ->
  writer_ok (prefix w p) /\ get_buf (prefix w p) = p ++ get_buf w.
Proof.
  intros <- [Hu Hi] Hl. unfold prefix, writer_ok, get_buf; cbn [w_buf w_used w_increase].
  set (m := splice (length p) (take (w_used w) (w_buf w)) (w_buf w)).
  assert (Hm : length m = length (w_buf w)) by (apply length_splice; len).
  rewrite length_splice by (simpl; lia). split; [lia|].
  unfold splice at 1. rewrite take_0. cbn [app Nat.add].
  rewrite take_app_ge by lia. f_equal.
  replace (w_used w + length p - length p)%nat with (w_used w) by lia.
  unfold m, splice. rewrite drop_app_ge by len.
  replace (length p - length (take (length p) (w_buf w)))%nat with 0%nat by len.
  rewrite drop_0, take_app_length'; [done|len].
Qed.

Lemma be_bytes_uwrap n v : be_bytes n (uwrap (8 * Z.of_nat n) v) = be_bytes n v.
Proof.
  unfold uwrap. rewrite Z.pow_mul_r by lia. change (2 ^ 8) with 256.
  apply be_bytes_mod. lia.
Qed.

Lemma image24 v : drop 1 (le_image 4 (htonl (u32 v))) = be_bytes 3 v.
Proof.
  rewrite le_image_bswap. change (u32 v) with (uwrap (8 * Z.of_nat 4) v).
  by rewrite be_bytes_uwrap.
Qed.

Lemma image16 v : htoun16 (u16 v) = be_bytes 2 v.
Proof. rewrite htoun16_be. apply (be_bytes_uwrap 2). Qed.
Lemma image32 v : htoun32 (u32 v) = be_bytes 4 v.
Proof. rewrite htoun32_be. apply (be_bytes_uwrap 4). Qed.
Lemma image64 v : htoun64 (u64 v) = be_bytes 8 v.
Proof. rewrite htoun64_be. apply (be_bytes_uwrap 8). Qed.
Lemma image8 v : [u8 v] = be_bytes 1 v.
Proof. simpl. by rewrite Z.div_1_r. Qed.

(** Every fixed-width write appends the big-endian encoding. *)
Definition appends (f : bio_writer -> bio_writer) (d : chunk) : Prop :=
  forall w, writer_ok w -> writer_ok (f w) /\ get_buf (f w) = get_buf w ++ d.

Lemma write_uint8_spec v : appends (fun w => write_uint8 w v) (be_bytes 1 v).
Proof. intros w Hw. unfold write_uint8. rewrite image8. by apply write_spec. Qed.
Lemma write_uint16_spec v : appends (fun w => write_uint16 w v) (be_bytes 2 v).
Proof. intros w Hw. unfold write_uint16. rewrite image16. by apply write_spec. Qed.
Lemma write_uint24_spec v : appends (fun w => write_uint24 w v) (be_bytes 3 v).
Proof. intros w Hw. unfold write_uint24. rewrite image24. by apply write_spec. Qed.
Lemma write_uint32_spec v : appends (fun w => write_uint32 w v) (be_bytes 4 v).
Proof. intros w Hw. unfold write_uint32. rewrite image32. by apply write_spec. Qed.
Lemma write_uint64_spec v : appends (fun w => write_uint64 w v) (be_bytes 8 v).
Proof. intros w Hw. unfold write_uint64. rewrite image64. by apply write_spec. Qed.
Lemma write_data_spec d : appends (fun w => write_data w d) d.
Proof. intros w Hw. unfold write_data. by apply write_spec. Qed.

Lemma write_prefixed_spec k f d :
  appends f (be_bytes k (Z.of_nat (length d))) ->
  appends (fun w => write_data (f (increase w (k + length d))) d)
          (be_bytes k (Z.of_nat (length d)) ++ d).
Proof.
  intros Hf w Hw. destruct (increase_spec w (k + length d) Hw) as (Hok & _ & _ & Hb).
  destruct (Hf _ Hok) as [Hok' Hb'].
  destruct (write_data_spec d _ Hok') as [Hok'' Hb''].
  split; [done|]. by rewrite Hb'', Hb', Hb, app_assoc.
Qed.

Lemma write_data8_spec d :
  appends (fun w => write_data8 w d) (be_bytes 1 (Z.of_nat (length d)) ++ d).
Proof. exact (write_prefixed_spec 1 _ d (write_uint8_spec _)). Qed.
Lemma write_data16_spec d :
  appends (fun w => write_data16 w d) (be_bytes 2 (Z.of_nat (length d)) ++ d).
Proof. exact (write_prefixed_spec 2 _ d (write_uint16_spec _)). Qed.
Lemma write_data24_spec d :
  appends (fun w => write_data24 w d) (be_bytes 3 (Z.of_nat (length d)) ++ d).
Proof. exact (write_prefixed_spec 3 _ d (write_uint24_spec _)). Qed.
Lemma write_data32_spec d :
  appends (fun w => write_data32 w d) (be_bytes 4 (Z.of_nat (length d)) ++ d).
Proof. exact (write_prefixed_spec 4 _ d (write_uint32_spec _)). Qed.

Lemma length_get_buf w : writer_ok w -> length (get_buf w) = w_used w.
Proof. intros [Hu _]. unfold get_buf. rewrite length_take. lia. Qed.

(** Wrapping puts the length of what was written in front of it. *)
Lemma wrap_spec w k p :
  writer_ok w -> p = be_bytes k (Z.of_nat (w_used w)) ->
  writer_ok (prefix (increase w k) p) /\
  get_buf (prefix (increase w k) p)
  = be_bytes k (Z.of_nat (length (get_buf w))) ++ get_buf w.
Proof.
  intros Hw ->. destruct (increase_spec w k Hw) as (Hok & Hl & _ & Hb).
  rewrite length_get_buf by done. rewrite <- Hb at 1.
  destruct (prefix_spec (increase w k) k (be_bytes k (Z.of_nat (w_used w))))
    as [Hok' Hb']; [apply length_be_bytes|done|done|]. by rewrite Hb', Hb.
Qed.

Lemma increase_used w n : w_used (increase w n) = w_used w.
Proof. unfold increase. by destruct (_ <? _)%nat. Qed.

Lemma wrap8_spec w : writer_ok w ->
  writer_ok (wrap8 w) /\
  get_buf (wrap8 w) = be_bytes 1 (Z.of_nat (length (get_buf w))) ++ get_buf w.
Proof. intros. unfold wrap8. apply wrap_spec; [done|]. by rewrite increase_used, image8. Qed.
Lemma wrap16_spec w : writer_ok w ->
  writer_ok (wrap16 w) /\
  get_buf (wrap16 w) = be_bytes 2 (Z.of_nat (length (get_buf w))) ++ get_buf w.
Proof. intros. unfold wrap16. apply wrap_spec; [done|]. by rewrite increase_used, image16. Qed.
Lemma wrap24_spec w : writer_ok w ->
  writer_ok (wrap24 w) /\
  get_buf (wrap24 w) = be_bytes 3 (Z.of_nat (length (get_buf w))) ++ get_buf w.
Proof. intros. unfold wrap24. apply wrap_spec; [done|]. by rewrite increase_used, image24. Qed.
Lemma wrap32_spec w : writer_ok w ->
  writer_ok (wrap32 w) /\
  get_buf (wrap32 w) = be_bytes 4 (Z.of_nat (length (get_buf w))) ++ get_buf w.
Proof. intros. unfold wrap32. apply wrap_spec; [done|]. by rewrite increase_used, image32. Qed.

Lemma writer_create_ok n : writer_ok (bio_writer_create n).
Proof.
  unfold bio_writer_create, writer_ok; cbn [w_buf w_used w_increase].
  split; [lia|]. destruct (Nat.eqb_spec (Z.to_nat (u32 n)) 0); lia.
Qed.

Lemma create_buf n : get_buf (bio_writer_create n) = [].
Proof. done. Qed.

Lemma create_room n : length (w_buf (bio_writer_create n)) = Z.to_nat (u32 n).
Proof. simpl. apply length_malloc. Qed.
End Writer.
End Writer.

(** ** Properties *)

Lemma read_prefixed_app k r v rest buf :
  r = Some (Z.of_nat (length v), v ++ rest) ->
  Reader.read_prefixed r (be_bytes k (Z.of_nat (length v)) ++ buf) = (Some v, rest).
Proof.
  intros ->. unfold Reader.read_prefixed. rewrite Nat2Z.id, Reader.read_data_app. done.
Qed.

(** A string written behind other output with a length prefix of 8, 16, 24
    or 32 bits is read back by the matching reader, with what follows it left
    to read, whenever the length fits the prefix. *)
Theorem prefixed_data_roundtrip (junk : nat -> Z) (w : Writer.bio_writer) (d rest : chunk)
    (beyond : chunk) :
  Writer.writer_ok w -> bytes_ok d -> bytes_ok rest ->
  bytes_ok beyond -> (1 <= length beyond)%nat ->
  let len := Z.of_nat (length d) in
  let tail w' := drop (length (Writer.get_buf w)) (Writer.get_buf w') ++ rest in
  (len < 2 ^ 8 -> Reader.read_data8 (tail (Writer.write_data8 junk w d)) = (Some d, rest)) /\
  (len < 2 ^ 16 -> Reader.read_data16 (tail (Writer.write_data16 junk w d)) = (Some d, rest)) /\
  (len < 2 ^ 24 ->
     Reader.read_data24 beyond (tail (Writer.write_data24 junk w d)) = (Some d, rest)) /\
  (len < 2 ^ 32 -> Reader.read_data32 (tail (Writer.write_data32 junk w d)) = (Some d, rest)).
Proof.
  intros Hw Hd Hr Hb Hbl len tail. unfold tail.
  rewrite (proj2 (Writer.write_data8_spec junk d w Hw)),
    (proj2 (Writer.write_data16_spec junk d w Hw)),
    (proj2 (Writer.write_data24_spec junk d w Hw)),
    (proj2 (Writer.write_data32_spec junk d w Hw)), !drop_app_length, <- !app_assoc.
  split_and!; intros Hl; apply read_prefixed_app.
  - apply Reader.read_uint8_app. lia.
  - apply Reader.read_uint16_app. lia.
  - apply Reader.read_uint24_app; [lia|done|bytes|done].
  - apply Reader.read_uint32_app. lia.
Qed.

Definition junk0 (i : nat) : Z := Z.of_nat (i * 7 mod 256).

Lemma prefixed_data_roundtrip_witness :
  Reader.read_data24 [99]
    (drop 1 (Writer.get_buf (Writer.write_data24 junk0
               (Writer.write_uint8 junk0 (Writer.bio_writer_create junk0 2) 7) [1; 2; 3]))
     ++ [42]) = (Some [1; 2; 3], [42]).
Proof.
  apply (prefixed_data_roundtrip junk0
           (Writer.write_uint8 junk0 (Writer.bio_writer_create junk0 2) 7) [1;2;3] [42] [99]);
    try (by apply (bool_decide_unpack _)); vm_compute; try done; lia.
Defined.

(** Wrapping a writer's content in a length prefix of 8, 16 or 32 bits and
    reading it back gives the content. *)
Theorem wrap_roundtrip (junk : nat -> Z) (w : Writer.bio_writer) :
  Writer.writer_ok w -> bytes_ok (Writer.get_buf w) ->
  let d := Writer.get_buf w in
  let len := Z.of_nat (length d) in
  (len < 2 ^ 8 -> Reader.read_data8 (Writer.get_buf (Writer.wrap8 junk w)) = (Some d, [])) /\
  (len < 2 ^ 16 -> Reader.read_data16 (Writer.get_buf (Writer.wrap16 junk w)) = (Some d, [])) /\
  (len < 2 ^ 32 -> Reader.read_data32 (Writer.get_buf (Writer.wrap32 junk w)) = (Some d, [])).
Proof.
  intros Hw Hd d len.
  rewrite (proj2 (Writer.wrap8_spec junk w Hw)), (proj2 (Writer.wrap16_spec junk w Hw)),
    (proj2 (Writer.wrap32_spec junk w Hw)).
  fold d. fold len.
  assert (forall k, be_bytes k len ++ d = be_bytes k len ++ d ++ []) as E
    by (intros; by rewrite app_nil_r).
  rewrite !E. split_and!; intros Hl; apply read_prefixed_app.
  - apply Reader.read_uint8_app. lia.
  - apply Reader.read_uint16_app. lia.
  - apply Reader.read_uint32_app. lia.
Qed.

Lemma wrap_roundtrip_witness :
  Reader.read_data16 (Writer.get_buf (Writer.wrap16 junk0
    (Writer.write_data junk0 (Writer.bio_writer_create junk0 0) [5; 6; 7]))) = (Some [5; 6; 7], []).
Proof.
  apply (wrap_roundtrip junk0
           (Writer.write_data junk0 (Writer.bio_writer_create junk0 0) [5; 6; 7]));
    try (by apply (bool_decide_unpack _)); vm_compute; try done; lia.
Defined.
