(* ===== verification/Host.v ===== *)
(** IP endpoints: [src/libstrongswan/networking/host.c].  A host is the socket
    address it wraps: family, address bytes and port, the port kept in network
    order as in [sockaddr_in].  [NULL] results are [None]. *)
From S2P Require Import Prelude Chunk.
From stdpp Require Import base numbers list option.
From Stdlib Require Import Lia ZArith RelationClasses Morphisms.
Local Open Scope Z_scope.

Inductive af : Type := AF_UNSPEC | AF_INET | AF_INET6 | AF_OTHER (n : Z).

#[export] Instance af_eq_dec : EqDecision af.
Proof. solve_decision. Defined.

Definition IPV4_LEN : nat := 4.
Definition IPV6_LEN : nat := 16.

Record host := Host {
  sa_family : af;
  s_addr : chunk;      (* sin_addr.s_addr or sin6_addr.s6_addr *)
  s_port : Z;          (* sin_port or sin6_port, network order *)
}.

#[export] Instance host_eq_dec : EqDecision host.
Proof. solve_decision. Defined.

(** Hosts as the constructors of [host.c] build them. *)
Definition af_len (f : af) : option nat :=
  match f with AF_INET => Some IPV4_LEN | AF_INET6 => Some IPV6_LEN | _ => None end.

Definition host_ok (h : host) : Prop :=
  af_len (sa_family h) = Some (length (s_addr h)) /\ bytes_ok (s_addr h) /\
  0 <= s_port h < 65536.

Definition memeq (n : nat) (a b : chunk) : bool := bool_decide (take n a = take n b).

Definition is_anyaddr (this : host) : bool :=
  match sa_family this with
  | AF_INET => memeq IPV4_LEN (replicate 16 0) (s_addr this)
  | AF_INET6 => memeq IPV6_LEN (replicate 16 0) (s_addr this)
  | _ => false
  end.

Definition get_address (this : host) : chunk :=
  match sa_family this with
  | AF_INET => take IPV4_LEN (s_addr this)
  | AF_INET6 => take IPV6_LEN (s_addr this)
  | _ => []
  end.

Definition get_family (this : host) : af := sa_family this.

Definition get_port (this : host) : Z :=
  match sa_family this with
  | AF_INET | AF_INET6 => ntohs (s_port this)
  | _ => 0
  end.

Definition set_port (this : host) (port : Z) : host :=
  match sa_family this with
  | AF_INET | AF_INET6 => Host (sa_family this) (s_addr this) (htons port)
  | _ => this
  end.

Definition ip_equals (this other : host) : bool :=
  if negb (bool_decide (sa_family this = sa_family other)) then
    is_anyaddr this && is_anyaddr other
  else
    match sa_family this with
    | AF_INET => memeq 4 (s_addr this) (s_addr other)
    | AF_INET6 => memeq 16 (s_addr this) (s_addr other)
    | _ => false
    end.

Definition equals (this other : host) : bool :=
  if negb (ip_equals this other) then false
  else
    match sa_family this with
    | AF_INET | AF_INET6 => s_port this =? s_port other
    | _ => false
    end.

Definition host_create_from_sockaddr (sockaddr : host) : option host :=
  match sa_family sockaddr with
  | AF_INET | AF_INET6 => Some sockaddr
  | _ => None
  end.

Definition host_create_from_chunk (family : af) (address : chunk) (port : Z)
    : option host :=
  let make family len := Some (Host family (take len address) (htons port)) in
  match family with
  | AF_INET => if (length address <? IPV4_LEN)%nat then None else make AF_INET IPV4_LEN
  | AF_INET6 => if (length address <? IPV6_LEN)%nat then None else make AF_INET6 IPV6_LEN
  | AF_UNSPEC =>
    if (length address =? IPV4_LEN)%nat then make AF_INET IPV4_LEN
    else if (length address =? IPV6_LEN)%nat then make AF_INET6 IPV6_LEN
    else None
  | AF_OTHER _ => None
  end.

Definition host_create_any (family : af) : option host :=
  match family with
  | AF_INET => Some (Host AF_INET (replicate 4 0) 0)
  | AF_INET6 => Some (Host AF_INET6 (replicate 16 0) 0)
  | _ => None
  end.

Definition host_create_any_port (family : af) (port : Z) : option host :=
  this ← host_create_any family; Some (set_port this port).

Definition host_create_netmask (family : af) (netbits : Z) : option host :=
  let make len :=
    let bytes := Z.to_nat (netbits / 8) in
    let bits := 8 - Z.land netbits 7 in
    let target := replicate bytes 255 ++ replicate (len - bytes) 0 in
    let target := if (bytes <? len)%nat then <[bytes := u8 (Z.shiftl 255 bits)]> target
                  else target in
    Some (Host family target 0) in
  match family with
  | AF_INET => if (netbits <? 0) || (32 <? netbits) then None else make 4%nat
  | AF_INET6 => if (netbits <? 0) || (128 <? netbits) then None else make 16%nat
  | _ => None
  end.

(** ** Lemmas *)

Lemma host_ok_family h :
  host_ok h -> (sa_family h = AF_INET /\ length (s_addr h) = 4%nat)
            \/ (sa_family h = AF_INET6 /\ length (s_addr h) = 16%nat).
Proof.
  intros (H & _ & _). destruct (sa_family h) eqn:E; simpl in H; try done;
  injection H as H; auto.
Qed.

Lemma get_address_ok h : host_ok h -> get_address h = s_addr h.
Proof.
  intros H. unfold get_address.
  destruct (host_ok_family h H) as [[-> Hl]|[-> Hl]]; by rewrite take_ge by (rewrite Hl; done).
Qed.

Lemma create_from_chunk_ok family address port h :
  bytes_ok address -> host_create_from_chunk family address port = Some h -> host_ok h.
Proof.
  intros Hb Hh. pose proof (bswap_range 2 port) as Hp. unfold host_create_from_chunk in Hh.
  destruct family; repeat case_match; simplify_eq;
    (split; [|split; [by apply Forall_take|exact Hp]]);
    unfold IPV4_LEN, IPV6_LEN in *; cbn [sa_family s_addr af_len]; f_equal;
    rewrite length_take; unfold IPV4_LEN, IPV6_LEN; lia.
Qed.

Lemma create_from_chunk_port family address port h :
  0 <= port < 65536 -> host_create_from_chunk family address port = Some h ->
  get_port h = port.
Proof.
  intros Hp Hh. unfold host_create_from_chunk in Hh.
  destruct family; repeat case_match; simplify_eq; unfold get_port; simpl;
    apply bswap_involutive; simpl; lia.
Qed.

Lemma set_get_port h port : host_ok h -> 0 <= port < 65536 -> get_port (set_port h port) = port.
Proof.
  intros H Hp. unfold set_port, get_port.
  destruct (host_ok_family h H) as [[-> _]|[-> _]]; simpl; apply bswap_involutive; simpl; lia.
Qed.

(** [ip_equals] is the equality of addresses, the unspecified addresses of both
    families being identified. *)
Definition ip_canon (h : host) : option (af * chunk) :=
  if is_anyaddr h then None else Some (sa_family h, s_addr h).

Lemma memeq_full n a b : length a = n -> length b = n -> memeq n a b = bool_decide (a = b).
Proof. intros. unfold memeq. by rewrite !take_ge by lia. Qed.

Lemma is_anyaddr_ok h : host_ok h ->
  is_anyaddr h = bool_decide (s_addr h = replicate (length (s_addr h)) 0).
Proof.
  intros H. unfold is_anyaddr, memeq.
  destruct (host_ok_family h H) as [[-> Hl]|[-> Hl]]; unfold IPV4_LEN, IPV6_LEN;
    rewrite (take_ge (s_addr h)), Hl by lia; simpl take;
    apply bool_decide_ext; simpl; done.
Qed.

Lemma ip_equals_canon a b :
  host_ok a -> host_ok b -> ip_equals a b = bool_decide (ip_canon a = ip_canon b).
Proof.
  intros Ha Hb. unfold ip_equals, ip_canon.
  pose proof (is_anyaddr_ok a Ha) as Ea. pose proof (is_anyaddr_ok b Hb) as Eb.
  destruct (host_ok_family a Ha) as [[Fa La]|[Fa La]],
           (host_ok_family b Hb) as [[Fb Lb]|[Fb Lb]];
    rewrite Fa, Fb; simpl; rewrite La in Ea; rewrite Lb in Eb;
    rewrite ?memeq_full by done;
    destruct (is_anyaddr a) eqn:Aa, (is_anyaddr b) eqn:Ab; simpl; symmetry in Ea, Eb;
    bsplit; repeat case_bool_decide; congruence.
Qed.

(** Equality of addresses as an equivalence on well-formed hosts. *)
Definition ip_eq (a b : host) : Prop := ip_canon a = ip_canon b.

#[export] Instance ip_eq_equiv : Equivalence ip_eq.
Proof. split; red; unfold ip_eq; congruence. Qed.

#[export] Instance is_anyaddr_proper : Proper (ip_eq ==> eq) is_anyaddr.
Proof.
  intros a b H. unfold ip_eq, ip_canon in H.
  by destruct (is_anyaddr a), (is_anyaddr b).
Qed.

(** The address of a netmask as a number: [netbits] ones, then zeros. *)
Lemma be_value_zeros n : be_value (replicate n 0) = 0.
Proof. induction n; simpl; lia. Qed.

Lemma be_value_ones n : be_value (replicate n 255) = 256 ^ Z.of_nat n - 1.
Proof.
  induction n as [|n IH]; [done|]. cbn [replicate be_value].
  rewrite length_replicate, IH, pow256_S. lia.
Qed.

Lemma netmask_byte r : 0 <= r < 8 -> u8 (Z.shiftl 255 (8 - r)) = 256 - 2 ^ (8 - r).
Proof.
  intros Hr.
  pose proof (range_check (fun r => u8 (Z.shiftl 255 (8 - r)) =? 256 - 2 ^ (8 - r)) 8 r
    eq_refl Hr) as H. cbv beta in H. lia.
Qed.

Lemma netmask_value n k r :
  0 <= r < 8 ->
  be_value (<[n := u8 (Z.shiftl 255 (8 - r))]> (replicate n 255 ++ replicate (S k) 0))
  = 2 ^ (8 * Z.of_nat (n + S k)) - 2 ^ (8 * Z.of_nat (n + S k) - (8 * Z.of_nat n + r)).
Proof.
  intros Hr. rewrite insert_app_r_alt by len. rewrite length_replicate, Nat.sub_diag.
  change (<[0%nat:=?x]> (replicate (S k) 0)) with (x :: replicate k 0).
  rewrite be_value_app. cbn [be_value length].
  rewrite be_value_ones, be_value_zeros, length_replicate, netmask_byte, pow256_S by done.
  replace (8 * Z.of_nat (n + S k) - (8 * Z.of_nat n + r)) with ((8 - r) + 8 * Z.of_nat k) by lia.
  replace (8 * Z.of_nat (n + S k)) with (8 * Z.of_nat n + 8 + 8 * Z.of_nat k) by lia.
  rewrite !Z.pow_add_r, !Z.pow_mul_r by lia. change (2 ^ 8) with 256. ring.
Qed.

Lemma create_netmask_value family netbits h :
  host_create_netmask family netbits = Some h ->
  host_ok h /\
  be_value (s_addr h) = 2 ^ (8 * Z.of_nat (length (s_addr h)))
                        - 2 ^ (8 * Z.of_nat (length (s_addr h)) - netbits).
Proof.
  assert (Hgen : forall len, 0 <= netbits <= 8 * Z.of_nat len ->
    let bytes := Z.to_nat (netbits / 8) in
    let target := replicate bytes 255 ++ replicate (len - bytes) 0 in
    let t := if (bytes <? len)%nat
             then <[bytes := u8 (Z.shiftl 255 (8 - Z.land netbits 7))]> target else target in
    length t = len /\ bytes_ok t /\
    be_value t = 2 ^ (8 * Z.of_nat len) - 2 ^ (8 * Z.of_nat len - netbits)).
  { intros len Hn bytes target t. subst t.
    assert (Hb : (bytes <= len)%nat) by (unfold bytes; Z.div_mod_to_equations; lia).
    assert (Ht : length target = len) by (unfold target; len).
    assert (Hok : bytes_ok target).
    { unfold target. apply Forall_app_2; apply Forall_replicate; unfold byte_ok; lia. }
    replace (Z.land netbits 7) with (netbits mod 8) by (symmetry; apply (Z.land_ones netbits 3); lia).
    destruct (Nat.ltb_spec bytes len) as [Hlt|Hge].
    - rewrite length_insert. split; [done|]. split; [apply Forall_insert; bytes|].
      unfold target. replace (len - bytes)%nat with (S (len - bytes - 1)) by lia.
      rewrite netmask_value by (apply Z.mod_pos_bound; lia).
      replace (bytes + S (len - bytes - 1))%nat with len by lia.
      do 3 f_equal. unfold bytes. Z.div_mod_to_equations; lia.
    - split; [done|]. split; [done|]. unfold target.
      replace (len - bytes)%nat with 0%nat by lia. cbn [replicate]. rewrite app_nil_r, be_value_ones.
      replace bytes with len by lia.
      replace (8 * Z.of_nat len - netbits) with 0 by (unfold bytes in *; Z.div_mod_to_equations; lia).
      rewrite Z.pow_mul_r by lia. done. }
  intros Hh. unfold host_create_netmask in Hh.
  destruct family; try done; case_match; simplify_eq; cbn [s_addr sa_family];
    [destruct (Hgen 4%nat ltac:(lia)) as (Hl & Hok & Hv)
    |destruct (Hgen 16%nat ltac:(lia)) as (Hl & Hok & Hv)];
    cbv zeta in Hl, Hok, Hv; (split; [repeat split; cbn [sa_family s_addr s_port af_len]|]);
    try lia; try done; try (by rewrite Hl).
Qed.
