(* ===== verification/TrafficSelector.v ===== *)
(** Traffic selectors: [src/libstrongswan/selectors/traffic_selector.c].  A
    selector is the record the C struct is, with both address arrays sixteen
    bytes long whatever the family; [NULL] results are [None]. *)
From S2P Require Import Prelude Chunk Host.
From stdpp Require Import base numbers list option.
From Stdlib Require Import Lia ZArith.
Local Open Scope Z_scope.

(** ** Data *)

Inductive ts_type_t : Type :=
  | TS_IPV4_ADDR_RANGE | TS_IPV6_ADDR_RANGE | TS_INVALID (n : Z).

Definition ts_type_num (t : ts_type_t) : Z :=
  match t with TS_IPV4_ADDR_RANGE => 7 | TS_IPV6_ADDR_RANGE => 8 | TS_INVALID n => n end.

#[export] Instance ts_type_eq_dec : EqDecision ts_type_t.
Proof. solve_decision. Defined.

Record traffic_selector := TS {
  ts_type : ts_type_t;
  ts_protocol : Z;
  ts_dynamic : bool;
  ts_netbits : Z;
  ts_from : chunk;
  ts_to : chunk;
  ts_from_port : Z;
  ts_to_port : Z;
}.

#[export] Instance ts_eq_dec : EqDecision traffic_selector.
Proof. solve_decision. Defined.

Definition IPPROTO_ICMP : Z := 1.
Definition IPPROTO_ICMPV6 : Z := 58.
Definition NON_SUBNET_ADDRESS_RANGE : Z := 255.

Definition TS_IP_LEN (this : traffic_selector) : nat :=
  match ts_type this with TS_IPV4_ADDR_RANGE => IPV4_LEN | _ => IPV6_LEN end.

Definition set_range (this : traffic_selector) (from to : chunk) : traffic_selector :=
  TS (ts_type this) (ts_protocol this) (ts_dynamic this) (ts_netbits this) from to
     (ts_from_port this) (ts_to_port this).

Definition set_netbits (this : traffic_selector) (n : Z) : traffic_selector :=
  TS (ts_type this) (ts_protocol this) (ts_dynamic this) n (ts_from this) (ts_to this)
     (ts_from_port this) (ts_to_port this).

(** ** Operations *)

(** [calc_range]: [to] becomes the last address of the subnet of [netbits] bits
    around [from], and [from] its first.  For [netbits = 0] the C code touches
    index [-1] of both arrays with an empty mask, which changes nothing. *)
Definition calc_range (this : traffic_selector) (netbits : nat) : traffic_selector :=
  let len := TS_IP_LEN this in
  let bytes := ((netbits + 7) / 8)%nat in
  let bits := Z.of_nat (bytes * 8 - netbits) in
  let mask := if bits =? 0 then 0 else Z.shiftl 1 bits - 1 in
  let to := splice 0 (take bytes (ts_from this)) (ts_to this) in
  let from := splice bytes (replicate (len - bytes) 0) (ts_from this) in
  let to := splice bytes (replicate (len - bytes) 255) to in
  let at_last f l := match bytes with O => l | S i => alter f i l end in
  let from := at_last (fun b => Z.land b (u8 (Z.lnot mask))) from in
  let to := at_last (fun b => Z.lor b mask) to in
  set_netbits (set_range this from to) (Z.of_nat netbits).

Definition bitmask_set (a : chunk) (byte : nat) (bit : Z) : bool :=
  negb (Z.land (Z.shiftl 1 bit) (nth byte a 0) =? 0).

(** The two nested loops of [calc_netbits] over the bits still to visit, most
    significant first; [prefix] and [netbits] are the local variables, the
    result is the new [this->netbits] and the returned value. *)
Fixpoint calc_netbits_loop (from to : chunk) (todo : list (nat * Z))
    (prefix : bool) (netbits : Z) : Z * Z :=
  match todo with
  | [] => (netbits, netbits)
  | (byte, bit) :: todo =>
    if prefix then
      if negb (Bool.eqb (bitmask_set from byte bit) (bitmask_set to byte bit)) then
        calc_netbits_loop from to todo false ((7 - bit) + Z.of_nat byte * 8)
      else calc_netbits_loop from to todo true netbits
    else
      if bitmask_set from byte bit || negb (bitmask_set to byte bit) then
        (NON_SUBNET_ADDRESS_RANGE, netbits)
      else calc_netbits_loop from to todo false netbits
  end.

Definition bit_positions (size : nat) : list (nat * Z) :=
  byte ← seq 0 size; bit ← [7; 6; 5; 4; 3; 2; 1; 0]; [(byte, bit)].

Definition calc_netbits (this : traffic_selector) : traffic_selector * Z :=
  let size := TS_IP_LEN this in
  let '(field, ret) := calc_netbits_loop (ts_from this) (ts_to this)
                         (bit_positions size) true (Z.of_nat (size * 8)) in
  (set_netbits this field, ret).

Definition is_opaque (this : traffic_selector) : bool :=
  (ts_from_port this =? 65535) && (ts_to_port this =? 0).

Definition is_any (this : traffic_selector) : bool :=
  (ts_from_port this =? 0) && (ts_to_port this =? 65535).

Definition is_icmp (protocol : Z) : bool :=
  (protocol =? IPPROTO_ICMP) || (protocol =? IPPROTO_ICMPV6).

Definition icmp_port (port : Z) : Z := if port <? 256 then Z.shiftl port 8 else port.

Definition traffic_selector_create (protocol : Z) (type : ts_type_t)
    (from_port to_port : Z) : option traffic_selector :=
  match type with
  | TS_INVALID _ => None
  | _ =>
    let adj p := if is_icmp protocol then icmp_port p else p in
    Some (TS type protocol false 0 (replicate 16 0) (replicate 16 0)
             (adj from_port) (adj to_port))
  end.

Definition get_subset (this other : traffic_selector) : option traffic_selector :=
  if ts_dynamic this || ts_dynamic other then None
  else if negb (bool_decide (ts_type this = ts_type other)) then None
  else if negb (ts_protocol this =? ts_protocol other)
          && negb (ts_protocol this =? 0) && negb (ts_protocol other =? 0) then None
  else
    let protocol := Z.max (ts_protocol this) (ts_protocol other) in
    let opaque := (is_opaque this && is_opaque other) || (is_opaque this && is_any other)
                  || (is_opaque other && is_any this) in
    let from_port := if opaque then 65535 else Z.max (ts_from_port this) (ts_from_port other) in
    let to_port := if opaque then 0 else Z.min (ts_to_port this) (ts_to_port other) in
    if negb opaque && (to_port <? from_port) then None
    else
      let size := TS_IP_LEN this in
      let from := if 0 <? memcmp size (ts_from this) (ts_from other)
                  then ts_from this else ts_from other in
      let to := if 0 <? memcmp size (ts_to this) (ts_to other)
                then ts_to other else ts_to this in
      if 0 <? memcmp size from to then None
      else
        subset ← traffic_selector_create protocol (ts_type this) from_port to_port;
        let subset := set_range subset (splice 0 (take size from) (ts_from subset))
                                       (splice 0 (take size to) (ts_to subset)) in
        Some (fst (calc_netbits subset)).

Definition compare_int (a b : Z) : Z := a - b.

Definition traffic_selector_cmp (a b : traffic_selector) : Z :=
  let res := compare_int (ts_type_num (ts_type a)) (ts_type_num (ts_type b)) in
  if negb (res =? 0) then res else
  let len := TS_IP_LEN a in
  let res := memcmp len (ts_from a) (ts_from b) in
  if negb (res =? 0) then res else
  let res := memcmp len (ts_to b) (ts_to a) in
  if negb (res =? 0) then res else
  let res := compare_int (ts_protocol a) (ts_protocol b) in
  if negb (res =? 0) then res else
  let res := compare_int (ts_from_port a) (ts_from_port b) in
  if negb (res =? 0) then res else
  compare_int (ts_to_port b) (ts_to_port a).

Definition ts_equals (this other : traffic_selector) : bool :=
  traffic_selector_cmp this other =? 0.

Definition get_from_address (this : traffic_selector) : chunk :=
  take (TS_IP_LEN this) (ts_from this).
Definition get_to_address (this : traffic_selector) : chunk :=
  take (TS_IP_LEN this) (ts_to this).

Definition family_matches (family : af) (type : ts_type_t) : bool :=
  match family, type with
  | AF_INET, TS_IPV4_ADDR_RANGE | AF_INET6, TS_IPV6_ADDR_RANGE => true
  | _, _ => false
  end.

Definition is_host (this : traffic_selector) (h : option host) : bool :=
  match h with
  | Some h =>
    if family_matches (get_family h) (ts_type this) then
      let addr := get_address h in
      memeq (length addr) addr (ts_from this) && memeq (length addr) addr (ts_to this)
    else false
  | None =>
    ts_dynamic this || memeq (TS_IP_LEN this) (ts_from this) (ts_to this)
  end.

Definition set_address (this : traffic_selector) (h : host) : traffic_selector :=
  let type := if bool_decide (get_family h = AF_INET) then TS_IPV4_ADDR_RANGE
              else TS_IPV6_ADDR_RANGE in
  let '(from, to, netbits) :=
    if is_anyaddr h then (replicate 16 0, replicate 16 255, 0)
    else let a := get_address h in
         (splice 0 a (ts_from this), splice 0 a (ts_to this), Z.of_nat (length a) * 8) in
  TS type (ts_protocol this) false netbits from to (ts_from_port this) (ts_to_port this).

Definition is_contained_in (this other : traffic_selector) : bool :=
  match get_subset this other with
  | Some subset => ts_equals subset this
  | None => false
  end.

Definition includes (this : traffic_selector) (h : host) : bool :=
  if family_matches (get_family h) (ts_type this) then
    let addr := get_address h in
    (memcmp (length addr) (ts_from this) addr <=? 0)
    && (0 <=? memcmp (length addr) (ts_to this) addr)
  else false.

(** [to_subnet]: the network address, the mask, and whether the range is a
    subnet; the selector is returned because [calc_netbits] updates it. *)
Definition to_subnet (this : traffic_selector)
    : traffic_selector * option (bool * option host * Z) :=
  let '(this, mask) := if ts_netbits this =? NON_SUBNET_ADDRESS_RANGE
                       then calc_netbits this else (this, ts_netbits this) in
  let result family len :=
    let net := replicate len 0 in
    let net := if mask =? 0 then net else
      let n := Z.to_nat ((mask + 7) / 8) in
      alter (fun b => Z.land b (u8 (Z.shiftl 255 (8 * Z.of_nat n - mask)))) (n - 1)%nat
            (splice 0 (take n (ts_from this)) net) in
    let port := if ts_to_port this =? ts_from_port this then ts_to_port this else 0 in
    Some (negb (ts_netbits this =? NON_SUBNET_ADDRESS_RANGE),
          host_create_from_chunk family net port, mask) in
  (this, match ts_type this with
         | TS_IPV4_ADDR_RANGE => result AF_INET IPV4_LEN
         | TS_IPV6_ADDR_RANGE => result AF_INET6 IPV6_LEN
         | TS_INVALID _ => None
         end).

Definition ts_clone (this : traffic_selector) : option traffic_selector :=
  clone ← traffic_selector_create (ts_protocol this) (ts_type this)
            (ts_from_port this) (ts_to_port this);
  let len := TS_IP_LEN this in
  Some (TS (ts_type clone) (ts_protocol clone) (ts_dynamic this) (ts_netbits this)
           (splice 0 (take len (ts_from this)) (ts_from clone))
           (splice 0 (take len (ts_to this)) (ts_to clone))
           (ts_from_port clone) (ts_to_port clone)).

(** ** Constructors *)

Definition traffic_selector_create_from_bytes (protocol : Z) (type : ts_type_t)
    (from : chunk) (from_port : Z) (to : chunk) (to_port : Z) : option traffic_selector :=
  this ← traffic_selector_create protocol type from_port to_port;
  if negb (length from =? length to)%nat || negb (length from =? TS_IP_LEN this)%nat then None
  else Some (fst (calc_netbits (set_range this (splice 0 from (ts_from this))
                                               (splice 0 to (ts_to this))))).

Definition traffic_selector_create_from_rfc3779_format (type : ts_type_t)
    (from to : chunk) : option traffic_selector :=
  this ← traffic_selector_create 0 type 0 65535;
  let len := TS_IP_LEN this in
  let f := splice 0 (replicate len 0) (ts_from this) in
  let t := splice 0 (replicate len 255) (ts_to this) in
  let f := if (1 <? length from)%nat then splice 0 (drop 1 from) f else f in
  let t := if (1 <? length to)%nat then
             let unused := nth 0 to 0 in
             let mask := u8 (if unused =? 0 then 0 else Z.shiftl 1 unused - 1) in
             alter (fun b => Z.lor b mask) (length to - 2)%nat (splice 0 (drop 1 to) t)
           else t in
  Some (fst (calc_netbits (set_range this f t))).

Definition traffic_selector_create_from_subnet (net : host) (netbits : Z)
    (protocol from_port to_port : Z) : option traffic_selector :=
  let make type :=
    this ← traffic_selector_create protocol type from_port to_port;
    let this := set_range this (splice 0 (get_address net) (ts_from this)) (ts_to this) in
    Some (calc_range this (Z.to_nat (Z.min netbits (Z.of_nat (TS_IP_LEN this * 8))))) in
  match get_family net with
  | AF_INET => make TS_IPV4_ADDR_RANGE
  | AF_INET6 => make TS_IPV6_ADDR_RANGE
  | _ => None
  end.

Definition traffic_selector_create_dynamic (protocol from_port to_port : Z)
    : option traffic_selector :=
  this ← traffic_selector_create protocol TS_IPV4_ADDR_RANGE from_port to_port;
  Some (TS (ts_type this) (ts_protocol this) true 0 (replicate 16 0) (replicate 16 255)
           (ts_from_port this) (ts_to_port this)).

(** ** Well-formed selectors *)

Definition ts_ok (t : traffic_selector) : Prop :=
  (ts_type t = TS_IPV4_ADDR_RANGE \/ ts_type t = TS_IPV6_ADDR_RANGE) /\
  length (ts_from t) = 16%nat /\ length (ts_to t) = 16%nat /\
  bytes_ok (ts_from t) /\ bytes_ok (ts_to t) /\
  0 <= ts_protocol t < 256 /\
  0 <= ts_from_port t < 65536 /\ 0 <= ts_to_port t < 65536.

(** The numeric bounds of the address range. *)
Definition from_value (t : traffic_selector) : Z := be_value (get_from_address t).
Definition to_value (t : traffic_selector) : Z := be_value (get_to_address t).
Definition addr_value (h : host) : Z := be_value (get_address h).

Lemma TS_IP_LEN_le t : (TS_IP_LEN t <= 16)%nat.
Proof. unfold TS_IP_LEN, IPV4_LEN, IPV6_LEN. destruct (ts_type t); lia. Qed.

Lemma TS_IP_LEN_pos t : (4 <= TS_IP_LEN t)%nat.
Proof. unfold TS_IP_LEN, IPV4_LEN, IPV6_LEN. destruct (ts_type t); lia. Qed.

Lemma memcmp_take n a b : memcmp n a b = memcmp n (take n a) (take n b).
Proof.
  revert a b. induction n as [|n IH]; intros [|x a] [|y b]; try done.
  cbn [memcmp take]. by rewrite IH.
Qed.

Lemma memcmp_prefix_gt n a b :
  (n <= length a)%nat -> (n <= length b)%nat -> bytes_ok a -> bytes_ok b ->
  (0 <? memcmp n a b) = (be_value (take n b) <? be_value (take n a)).
Proof. intros. rewrite memcmp_take. apply memcmp_gt; len || bytes. Qed.

Lemma memcmp_prefix_sgn n a b :
  (n <= length a)%nat -> (n <= length b)%nat -> bytes_ok a -> bytes_ok b ->
  Z.sgn (memcmp n a b) = Z.sgn (be_value (take n a) - be_value (take n b)).
Proof. intros. rewrite memcmp_take. apply memcmp_sgn; len || bytes. Qed.

Lemma memcmp_prefix_eq0 n a b :
  (n <= length a)%nat -> (n <= length b)%nat -> bytes_ok a -> bytes_ok b ->
  memcmp n a b = 0 <-> take n a = take n b.
Proof. intros. rewrite memcmp_take. apply memcmp_eq0; len || bytes. Qed.

Lemma family_matches_len h t :
  host_ok h -> family_matches (get_family h) (ts_type t) = true ->
  length (get_address h) = TS_IP_LEN t.
Proof.
  intros Hh Hm. rewrite get_address_ok by done. unfold TS_IP_LEN, get_family in *.
  destruct (host_ok_family h Hh) as [[E ->]|[E ->]]; rewrite E in Hm;
    by destruct (ts_type t).
Qed.

(** Inclusion of an address is membership in the numeric range. *)
Lemma includes_range t h :
  ts_ok t -> host_ok h ->
  includes t h = family_matches (get_family h) (ts_type t)
                 && ((from_value t <=? addr_value h) && (addr_value h <=? to_value t)).
Proof.
  intros (_ & Hf & Ht & Hfb & Htb & _) Hh. unfold includes.
  destruct (family_matches (get_family h) (ts_type t)) eqn:Hm; [|done].
  pose proof (family_matches_len h t Hh Hm) as Hl.
  assert (Hb : bytes_ok (get_address h)) by (rewrite get_address_ok by done; apply Hh).
  pose proof (TS_IP_LEN_le t) as Hle.
  pose proof (memcmp_prefix_sgn (length (get_address h)) (ts_from t) (get_address h)) as S1.
  pose proof (memcmp_prefix_sgn (length (get_address h)) (ts_to t) (get_address h)) as S2.
  rewrite firstn_all in S1, S2. rewrite Hl in *.
  specialize (S1 ltac:(lia) ltac:(lia) Hfb Hb). specialize (S2 ltac:(lia) ltac:(lia) Htb Hb).
  unfold from_value, to_value, addr_value, get_from_address, get_to_address.
  cbn [andb]. lia.
Qed.

(** ** The intersection of two selectors *)

(** The traffic one side of a selector stands for: an endpoint address with its
    port, and a protocol. *)
Definition ports_match (t : traffic_selector) (port : Z) : bool :=
  (ts_from_port t <=? port) && (port <=? ts_to_port t).

Definition proto_match (t : traffic_selector) (proto : Z) : bool :=
  (ts_protocol t =? 0) || (ts_protocol t =? proto).

Definition selects (t : traffic_selector) (proto : Z) (h : host) : bool :=
  includes t h && proto_match t proto && ports_match t (get_port h).

(** Ports in the form ICMP type and code are kept in: a value below 256 would be
    taken for a bare type and shifted. *)
Definition icmp_norm (p : Z) : bool := (p =? 0) || (256 <=? p).

Definition ports_norm (t : traffic_selector) : bool :=
  icmp_norm (ts_from_port t) && icmp_norm (ts_to_port t).

Lemma icmp_port_norm p : icmp_norm p = true -> icmp_port p = p.
Proof.
  unfold icmp_norm, icmp_port. intros H. destruct (Z.ltb_spec p 256); [|done].
  assert (p = 0) as -> by lia. done.
Qed.

Lemma icmp_port_range p : 0 <= p < 65536 -> 0 <= icmp_port p < 65536.
Proof.
  intros. unfold icmp_port. destruct (Z.ltb_spec p 256); [|lia].
  rewrite Z.shiftl_mul_pow2 by lia. change (2 ^ 8) with 256. lia.
Qed.

Lemma icmp_port_is_norm p : 0 <= p -> icmp_norm (icmp_port p) = true.
Proof.
  intros. unfold icmp_norm, icmp_port. destruct (Z.ltb_spec p 256); [|lia].
  rewrite Z.shiftl_mul_pow2 by lia. change (2 ^ 8) with 256. lia.
Qed.

Lemma ts_create_ok protocol type fp tp t :
  0 <= protocol < 256 -> 0 <= fp < 65536 -> 0 <= tp < 65536 ->
  traffic_selector_create protocol type fp tp = Some t ->
  ts_ok t /\ ts_type t = type /\ ts_protocol t = protocol /\ ts_dynamic t = false /\
  ts_from_port t = (if is_icmp protocol then icmp_port fp else fp) /\
  ts_to_port t = (if is_icmp protocol then icmp_port tp else tp) /\
  ts_from t = replicate 16 0 /\ ts_to t = replicate 16 0.
Proof.
  intros Hpr Hf Ht Hc. unfold traffic_selector_create in Hc.
  pose proof (icmp_port_range fp Hf). pose proof (icmp_port_range tp Ht).
  assert (HZ : bytes_ok (replicate 16 0)) by (apply Forall_replicate; unfold byte_ok; lia).
  destruct type; simplify_eq; (split; [|done]); unfold ts_ok;
    cbn [ts_type ts_from ts_to ts_protocol ts_from_port ts_to_port];
    destruct (is_icmp protocol); auto 12.
Qed.

Lemma set_range_ok t f1 f2 :
  ts_ok t -> length f1 = 16%nat -> length f2 = 16%nat -> bytes_ok f1 -> bytes_ok f2 ->
  ts_ok (set_range t f1 f2).
Proof. intros (H1 & _ & _ & _ & _ & H2) ????. repeat split; cbn; try done; apply H2. Qed.

Lemma set_netbits_ok t n : ts_ok t -> ts_ok (set_netbits t n).
Proof. done. Qed.

Lemma calc_netbits_fst t :
  fst (calc_netbits t) = set_netbits t (ts_netbits (fst (calc_netbits t))).
Proof. unfold calc_netbits. by destruct (calc_netbits_loop _ _ _ _ _). Qed.

(** Copying an address to the front of an array. *)
Lemma take_splice0 n d buf :
  length d = n -> take n (splice 0 d buf) = d.
Proof. intros <-. unfold splice. rewrite take_0. cbn [app]. apply take_app_length. Qed.

Lemma length_splice0 d buf :
  (length d <= length buf)%nat -> length (splice 0 d buf) = length buf.
Proof. intros. apply length_splice. lia. Qed.

Definition proto_compat (a b : traffic_selector) : bool :=
  (ts_protocol a =? ts_protocol b) || (ts_protocol a =? 0) || (ts_protocol b =? 0).

Definition merged_from (a b : traffic_selector) : Z := Z.max (ts_from_port a) (ts_from_port b).
Definition merged_to (a b : traffic_selector) : Z := Z.min (ts_to_port a) (ts_to_port b).

Definition opaque_pair (a b : traffic_selector) : bool :=
  (is_opaque a && is_opaque b) || (is_opaque a && is_any b) || (is_opaque b && is_any a).

(** The opaque case is the general one: the merged bounds are the opaque ones. *)
Lemma opaque_merged a b :
  ts_ok a -> ts_ok b -> opaque_pair a b = true ->
  merged_from a b = 65535 /\ merged_to a b = 0.
Proof.
  intros (_ & _ & _ & _ & _ & _ & Ha) (_ & _ & _ & _ & _ & _ & Hb) H.
  unfold opaque_pair, is_opaque, is_any, merged_from, merged_to in *. lia.
Qed.

(** The higher start and the lower end of two ranges of one family. *)
Lemma higher_from_spec a b :
  ts_ok a -> ts_ok b -> ts_type a = ts_type b ->
  let from := if 0 <? memcmp (TS_IP_LEN a) (ts_from a) (ts_from b)
              then ts_from a else ts_from b in
  length from = 16%nat /\ bytes_ok from /\
  be_value (take (TS_IP_LEN a) from) = Z.max (from_value a) (from_value b).
Proof.
  intros (_ & Hfa & _ & Bfa & _) (_ & Hfb & _ & Bfb & _) Ht. pose proof (TS_IP_LEN_le a).
  assert (Hsz : TS_IP_LEN b = TS_IP_LEN a) by (unfold TS_IP_LEN; by rewrite Ht).
  unfold from_value, get_from_address. rewrite Hsz, memcmp_prefix_gt by (lia || done).
  destruct (Z.ltb_spec (be_value (take (TS_IP_LEN a) (ts_from b)))
                       (be_value (take (TS_IP_LEN a) (ts_from a)))); repeat split; done || lia.
Qed.

Lemma lower_to_spec a b :
  ts_ok a -> ts_ok b -> ts_type a = ts_type b ->
  let to := if 0 <? memcmp (TS_IP_LEN a) (ts_to a) (ts_to b) then ts_to b else ts_to a in
  length to = 16%nat /\ bytes_ok to /\
  be_value (take (TS_IP_LEN a) to) = Z.min (to_value a) (to_value b).
Proof.
  intros (_ & _ & Hta & _ & Bta & _) (_ & _ & Htb & _ & Btb & _) Ht. pose proof (TS_IP_LEN_le a).
  assert (Hsz : TS_IP_LEN b = TS_IP_LEN a) by (unfold TS_IP_LEN; by rewrite Ht).
  unfold to_value, get_to_address. rewrite Hsz, memcmp_prefix_gt by (lia || done).
  destruct (Z.ltb_spec (be_value (take (TS_IP_LEN a) (ts_to b)))
                       (be_value (take (TS_IP_LEN a) (ts_to a)))); repeat split; done || lia.
Qed.

(** Filling in the addresses of a freshly created selector. *)
Lemma fill_range_spec t from to n :
  ts_ok t -> length from = TS_IP_LEN t -> length to = TS_IP_LEN t ->
  bytes_ok from -> bytes_ok to ->
  let s := set_netbits (set_range t (splice 0 from (ts_from t)) (splice 0 to (ts_to t))) n in
  ts_ok s /\ get_from_address s = from /\ get_to_address s = to.
Proof.
  intros Ht Hf Hto Bf Bt s. pose proof (TS_IP_LEN_le t) as Hle.
  pose proof Ht as (_ & L1 & L2 & B1 & B2 & _). split.
  - apply set_netbits_ok, set_range_ok; try done;
      try (rewrite length_splice0 by lia; done); by apply splice_bytes.
  - unfold get_from_address, get_to_address, TS_IP_LEN; cbn. fold (TS_IP_LEN t).
    split; by apply take_splice0.
Qed.

Lemma get_subset_spec a b :
  ts_ok a -> ts_ok b -> ts_dynamic a = false -> ts_dynamic b = false ->
  match get_subset a b with
  | Some s =>
    ts_ok s /\ ts_type a = ts_type b /\ ts_type s = ts_type a /\ proto_compat a b = true /\
    ts_protocol s = Z.max (ts_protocol a) (ts_protocol b) /\ ts_dynamic s = false /\
    from_value s = Z.max (from_value a) (from_value b) /\
    to_value s = Z.min (to_value a) (to_value b) /\ from_value s <= to_value s /\
    (opaque_pair a b = true \/ merged_from a b <= merged_to a b) /\
    let adj p := if is_icmp (ts_protocol s) then icmp_port p else p in
    ts_from_port s = adj (merged_from a b) /\ ts_to_port s = adj (merged_to a b)
  | None =>
    ts_type a <> ts_type b \/ proto_compat a b = false \/
    merged_to a b < merged_from a b \/
    (ts_type a = ts_type b /\
     Z.min (to_value a) (to_value b) < Z.max (from_value a) (from_value b))
  end.
Proof.
  intros Ha Hb Da Db. unfold get_subset. rewrite Da, Db. cbn [orb].
  case_bool_decide as Ht; cbn [negb]; [|auto].
  fold (opaque_pair a b). fold (merged_from a b). fold (merged_to a b).
  destruct (_ && _ && _) eqn:Hp; [right; left; unfold proto_compat; lia|].
  destruct (negb (opaque_pair a b) && _) eqn:Hop.
  { right; right; left. destruct (opaque_pair a b); cbn in Hop; lia. }
  pose proof (higher_from_spec a b Ha Hb Ht) as (Lf & Bf & Vf).
  pose proof (lower_to_spec a b Ha Hb Ht) as (Lt & Bt & Vt).
  set (from := if 0 <? memcmp _ (ts_from a) (ts_from b) then ts_from a else ts_from b) in *.
  set (to := if 0 <? memcmp _ (ts_to a) (ts_to b) then ts_to b else ts_to a) in *.
  pose proof (TS_IP_LEN_le a) as Hle.
  rewrite memcmp_prefix_gt, Vf, Vt by (lia || done).
  destruct (Z.ltb_spec (Z.min (to_value a) (to_value b)) (Z.max (from_value a) (from_value b)));
    [by auto 6|].
  pose proof (opaque_merged a b Ha Hb) as Hom.
  assert ((if opaque_pair a b then 65535 else merged_from a b) = merged_from a b) as ->
    by (destruct (opaque_pair a b); [symmetry; by apply Hom|done]).
  assert ((if opaque_pair a b then 0 else merged_to a b) = merged_to a b) as ->
    by (destruct (opaque_pair a b); [symmetry; by apply Hom|done]).
  pose proof Ha as (Hta & _ & _ & _ & _ & Hpa & Hpfa & Hpta).
  pose proof Hb as (_ & _ & _ & _ & _ & Hpb & Hpfb & Hptb).
  destruct (traffic_selector_create _ _ _ _) as [s|] eqn:Hc.
  2:{ unfold traffic_selector_create in Hc. by destruct Hta as [E|E]; rewrite E in Hc. }
  apply ts_create_ok in Hc; [|lia|unfold merged_from; lia|unfold merged_to; lia].
  destruct Hc as (Hs & Hst & Hsp & Hsd & Hsf & Hsto & _).
  cbn [mbind option_bind]. rewrite calc_netbits_fst. set (n := ts_netbits _). clearbody n.
  assert (HlS : TS_IP_LEN s = TS_IP_LEN a) by (unfold TS_IP_LEN; by rewrite Hst).
  destruct (fill_range_spec s (take (TS_IP_LEN a) from) (take (TS_IP_LEN a) to) n)
    as (HokS & HfS & HtS); try (bytes || len); try done.
  set (s' := set_netbits _ n) in *.
  assert (from_value s' = Z.max (from_value a) (from_value b)) as ->
    by (rewrite <- Vf; unfold from_value; by rewrite HfS).
  assert (to_value s' = Z.min (to_value a) (to_value b)) as ->
    by (rewrite <- Vt; unfold to_value; by rewrite HtS).
  split; [done|]. cbn. rewrite Hst, Hsp.
  unfold proto_compat. repeat split; try done; lia.
Qed.

Lemma icmp_norm_max a b : icmp_norm a = true -> icmp_norm b = true -> icmp_norm (Z.max a b) = true.
Proof. unfold icmp_norm. lia. Qed.
Lemma icmp_norm_min a b : icmp_norm a = true -> icmp_norm b = true -> icmp_norm (Z.min a b) = true.
Proof. unfold icmp_norm. lia. Qed.

(** The ports of a subset when none of the inputs is a bare ICMP type. *)
Definition norm_pair (a b : traffic_selector) : Prop :=
  is_icmp (Z.max (ts_protocol a) (ts_protocol b)) = true ->
  ports_norm a = true /\ ports_norm b = true.

Lemma merged_norm a b :
  norm_pair a b ->
  let adj p := if is_icmp (Z.max (ts_protocol a) (ts_protocol b)) then icmp_port p else p in
  adj (merged_from a b) = merged_from a b /\ adj (merged_to a b) = merged_to a b.
Proof.
  intros Hn adj. unfold adj, norm_pair, ports_norm in *.
  destruct (is_icmp _); [|done]. destruct (Hn eq_refl) as [Na Nb]. bsplit.
  split; apply icmp_port_norm; [apply icmp_norm_max|apply icmp_norm_min]; done.
Qed.

Lemma get_subset_selects a b proto h :
  ts_ok a -> ts_ok b -> ts_dynamic a = false -> ts_dynamic b = false ->
  norm_pair a b -> host_ok h ->
  selects a proto h && selects b proto h
  = match get_subset a b with Some s => selects s proto h | None => false end.
Proof.
  intros Ha Hb Da Db Hn Hh.
  pose proof (get_subset_spec a b Ha Hb Da Db) as Hs.
  unfold selects. rewrite !(includes_range _ h) by done.
  unfold proto_match, ports_match.
  pose proof (merged_norm a b Hn) as [Hnf Hnt].
  unfold proto_compat, merged_from, merged_to in *.
  destruct Ha as (_ & _ & _ & _ & _ & Hpa & _). destruct Hb as (_ & _ & _ & _ & _ & Hpb & _).
  destruct (get_subset a b) as [s|].
  - destruct Hs as (Hok & Ht & Hst & Hpc & Hsp & _ & Hf & Hto & _ & _ & Hfp & Htp).
    rewrite includes_range by done. rewrite Hst, <- Ht, Hf, Hto.
    rewrite Hsp in *. rewrite Hfp, Htp, Hnf, Hnt. lia.
  - destruct Hs as [Ht|[Hpc|[Hp|[Ht Hr]]]].
    + destruct (family_matches (get_family h) (ts_type a)) eqn:Ea; [|done].
      destruct (family_matches (get_family h) (ts_type b)) eqn:Eb; [|cbn; by rewrite andb_false_r].
      exfalso. destruct (get_family h), (ts_type a), (ts_type b); simpl in *; congruence.
    + lia.
    + lia.
    + rewrite Ht. lia.
Qed.

(** [traffic_selector_cmp] is zero exactly on selectors for the same traffic. *)
Lemma ts_equals_spec a b :
  ts_ok a -> ts_ok b ->
  ts_equals a b = true <->
  ts_type a = ts_type b /\ get_from_address a = get_from_address b /\
  get_to_address a = get_to_address b /\ ts_protocol a = ts_protocol b /\
  ts_from_port a = ts_from_port b /\ ts_to_port a = ts_to_port b.
Proof.
  intros (Hta & Hfa & Htoa & Bfa & Bta & _) (Htb & Hfb & Htob & Bfb & Btb & _).
  pose proof (TS_IP_LEN_le a) as Hle.
  unfold ts_equals, traffic_selector_cmp, compare_int, get_from_address, get_to_address.
  assert (Hnum : ts_type_num (ts_type a) - ts_type_num (ts_type b) = 0 <-> ts_type a = ts_type b).
  { destruct Hta as [->| ->], Htb as [->| ->]; cbn; split; congruence || lia. }
  destruct (Z.eqb_spec (ts_type_num (ts_type a) - ts_type_num (ts_type b)) 0) as [E|E]; cbn [negb].
  2:{ split; [lia|]. intros (H & _). by apply Hnum in H. }
  apply Hnum in E. assert (TS_IP_LEN b = TS_IP_LEN a) as -> by (unfold TS_IP_LEN; by rewrite E).
  pose proof (memcmp_prefix_eq0 (TS_IP_LEN a) (ts_from a) (ts_from b)
    ltac:(lia) ltac:(lia) Bfa Bfb) as Hf.
  pose proof (memcmp_prefix_eq0 (TS_IP_LEN a) (ts_to b) (ts_to a)
    ltac:(lia) ltac:(lia) Btb Bta) as Ht.
  rewrite <- Hf. rewrite (eq_comm _ (take _ (ts_to b))), <- Ht.
  destruct (Z.eqb_spec (memcmp (TS_IP_LEN a) (ts_from a) (ts_from b)) 0); cbn [negb]; [|lia].
  destruct (Z.eqb_spec (memcmp (TS_IP_LEN a) (ts_to b) (ts_to a)) 0); cbn [negb]; [|lia].
  destruct (Z.eqb_spec (ts_protocol a - ts_protocol b) 0); cbn [negb]; [|lia].
  destruct (Z.eqb_spec (ts_from_port a - ts_from_port b) 0); cbn [negb]; intuition lia.
Qed.

(** Containment of selectors is containment of the traffic they stand for. *)
Lemma selects_ext a b proto h :
  ts_ok a -> ts_ok b -> ts_equals a b = true -> host_ok h ->
  selects a proto h = selects b proto h.
Proof.
  intros Ha Hb He Hh. apply (ts_equals_spec a b Ha Hb) in He as (Ht & Hf & Hto & Hp & Hfp & Htp).
  unfold selects, proto_match, ports_match. rewrite !(includes_range _ h) by done.
  unfold from_value, to_value. by rewrite Ht, Hf, Hto, Hp, Hfp, Htp.
Qed.

Lemma get_subset_ok a b s :
  ts_ok a -> ts_ok b -> get_subset a b = Some s ->
  ts_ok s /\ ts_dynamic a = false /\ ts_dynamic b = false.
Proof.
  intros Ha Hb Hs.
  assert (ts_dynamic a = false /\ ts_dynamic b = false) as [Da Db].
  { unfold get_subset in Hs. destruct (ts_dynamic a), (ts_dynamic b); done. }
  pose proof (get_subset_spec a b Ha Hb Da Db) as H. rewrite Hs in H. by destruct H.
Qed.

Lemma contained_in_selects a b proto h :
  ts_ok a -> ts_ok b -> norm_pair a b -> host_ok h ->
  is_contained_in a b = true -> selects a proto h = true -> selects b proto h = true.
Proof.
  intros Ha Hb Hn Hh Hc Hsel. unfold is_contained_in in Hc.
  destruct (get_subset a b) as [s|] eqn:Es; [|done].
  destruct (get_subset_ok a b s Ha Hb Es) as (Hs & Da & Db).
  pose proof (get_subset_selects a b proto h Ha Hb Da Db Hn Hh) as H. rewrite Es in H.
  rewrite (selects_ext s a proto h Hs Ha Hc Hh), Hsel in H. by destruct (selects b proto h).
Qed.

(** ** Subnets *)

(** The most significant bit first numbering of the bits of an address. *)
Definition addr_bit (a : chunk) (i : nat) : bool :=
  Z.testbit (nth (i / 8) a 0) (7 - Z.of_nat (i mod 8)).

Lemma ones_mask_bit bits k :
  0 <= bits -> 0 <= k ->
  Z.testbit (if bits =? 0 then 0 else Z.shiftl 1 bits - 1) k = (k <? bits).
Proof.
  intros Hb Hk. rewrite Z.shiftl_mul_pow2, Z.mul_1_l by done.
  assert ((if bits =? 0 then 0 else 2 ^ bits - 1) = Z.ones bits) as ->.
  { rewrite Z.ones_equiv. destruct (Z.eqb_spec bits 0) as [->|]; [done|lia]. }
  by rewrite Z.testbit_ones_nonneg by lia.
Qed.

Section Subnet.
Context (t : traffic_selector) (n : nat).
Context (Hok : ts_ok t) (Hn : (n <= 8 * TS_IP_LEN t)%nat).

Definition range_bytes : nat := ((n + 7) / 8)%nat.

Lemma range_bytes_bounds :
  (n <= 8 * range_bytes /\ 8 * range_bytes < n + 8 /\ range_bytes <= TS_IP_LEN t)%nat.
Proof.
  pose proof (Nat.div_mod_eq (n + 7) 8). pose proof (Nat.mod_upper_bound (n + 7) 8).
  unfold range_bytes. lia.
Qed.

(** The two address arrays after the copy and the two fills. *)
Definition range_from : chunk :=
  splice range_bytes (replicate (TS_IP_LEN t - range_bytes) 0) (ts_from t).
Definition range_to : chunk :=
  splice range_bytes (replicate (TS_IP_LEN t - range_bytes) 255)
    (splice 0 (take range_bytes (ts_from t)) (ts_to t)).

Lemma range_copy_length : length (splice 0 (take range_bytes (ts_from t)) (ts_to t)) = 16%nat.
Proof.
  destruct Hok as (_ & Hf & Ht & _). rewrite length_splice; len.
Qed.

Lemma range_lengths : length range_from = 16%nat /\ length range_to = 16%nat.
Proof.
  destruct Hok as (_ & Hf & Ht & _). pose proof range_copy_length.
  pose proof range_bytes_bounds. pose proof (TS_IP_LEN_le t). unfold range_from, range_to.
  rewrite !length_splice; len.
Qed.

Lemma range_from_nth j : (j < TS_IP_LEN t)%nat ->
  nth j range_from 0 = if (j <? range_bytes)%nat then nth j (ts_from t) 0 else 0.
Proof.
  intros Hj. destruct Hok as (_ & Hf & Ht & _).
  pose proof range_bytes_bounds. pose proof (TS_IP_LEN_le t). unfold range_from.
  rewrite nth_splice by len. autorewrite with swan_len.
  destruct (Nat.ltb_spec j range_bytes); [done|].
  rewrite (proj2 (Nat.ltb_lt _ _)) by lia. apply nth_rep. lia.
Qed.

Lemma range_to_nth j : (j < TS_IP_LEN t)%nat ->
  nth j range_to 0 = if (j <? range_bytes)%nat then nth j (ts_from t) 0 else 255.
Proof.
  intros Hj. destruct Hok as (_ & Hf & Ht & _).
  pose proof range_bytes_bounds. pose proof (TS_IP_LEN_le t). unfold range_to.
  assert (length (take range_bytes (ts_from t)) = range_bytes) as Hlt by len.
  pose proof range_copy_length.
  rewrite nth_splice by len. autorewrite with swan_len.
  destruct (Nat.ltb_spec j range_bytes).
  - rewrite nth_splice by lia. rewrite Hlt.
    rewrite (proj2 (Nat.ltb_lt j (0 + range_bytes))) by lia. rewrite Nat.sub_0_r.
    by apply nth_take_lt.
  - rewrite (proj2 (Nat.ltb_lt _ _)) by lia. apply nth_rep. lia.
Qed.

(** Bit [i] of the range starts as the bits of the address up to the prefix
    length and zeros after it, and ends with ones after it. *)
Lemma calc_range_bits i :
  (i < 8 * TS_IP_LEN t)%nat ->
  addr_bit (ts_from (calc_range t n)) i = addr_bit (ts_from t) i && (i <? n)%nat /\
  addr_bit (ts_to (calc_range t n)) i = addr_bit (ts_from t) i || (n <=? i)%nat.
Proof.
  intros Hi. pose proof range_bytes_bounds as Hb. pose proof range_lengths as [LF LT].
  pose proof (TS_IP_LEN_le t) as Hle.
  unfold calc_range, addr_bit; cbn [ts_from ts_to set_netbits set_range].
  fold range_bytes. fold range_from. fold range_to.
  assert (Hij : i = (8 * (i / 8) + i mod 8)%nat) by apply Nat.div_mod_eq.
  assert (Him : (i mod 8 < 8)%nat) by (apply Nat.mod_upper_bound; lia).
  set (j := (i / 8)%nat) in *. set (k := 7 - Z.of_nat (i mod 8)).
  pose proof (range_from_nth j ltac:(lia)) as HF. pose proof (range_to_nth j ltac:(lia)) as HT.
  assert (Hk : 0 <= k < 8) by lia.
  pose proof (byte_ones_bit k Hk) as Hones.
  destruct range_bytes as [|last] eqn:Eb; rewrite ?Eb in *.
  - cbn [Nat.ltb Nat.leb] in HF, HT. rewrite HF, HT, Z.bits_0, Hones. lia.
  - rewrite !nth_alter by lia. rewrite HF, HT.
    destruct (Nat.eqb_spec j last) as [Ej|Ej].
    + rewrite (proj2 (Nat.ltb_lt j (S last))) by lia.
      rewrite Z.land_spec, Z.lor_spec, u8_lnot_bit, ones_mask_bit by lia. lia.
    + destruct (Nat.ltb_spec j (S last)); [|rewrite Z.bits_0, Hones]; lia.
Qed.
End Subnet.

Lemma bitmask_set_bit a byte bit : 0 <= bit -> bitmask_set a byte bit = Z.testbit (nth byte a 0) bit.
Proof.
  intros Hb. unfold bitmask_set. rewrite Z.shiftl_mul_pow2, Z.mul_1_l by done.
  rewrite Z.land_comm. destruct (Z.testbit (nth byte a 0) bit) eqn:E.
  - destruct (Z.eqb_spec (Z.land (nth byte a 0) (2 ^ bit)) 0) as [H0|]; [|done].
    assert (Z.testbit (Z.land (nth byte a 0) (2 ^ bit)) bit = false) as H1
      by (rewrite H0; apply Z.bits_0).
    rewrite Z.land_spec, E, Z.pow2_bits_true in H1 by done. done.
  - replace (Z.land (nth byte a 0) (2 ^ bit)) with 0; [done|].
    symmetry. apply Z.bits_inj_0. intros k. rewrite Z.land_spec.
    destruct (decide (k = bit)) as [->|Hne]; [by rewrite E|].
    destruct (decide (0 <= k)) as [Hk|Hk]; [|rewrite Z.testbit_neg_r by lia; done].
    rewrite Z.pow2_bits_false by lia. apply andb_false_r.
Qed.

(** The loops visit the bits in the order of [addr_bit]. *)
Definition bit_pos (i : nat) : nat * Z := ((i / 8)%nat, 7 - Z.of_nat (i mod 8)).

Lemma bit_positions_seq t : bit_positions (TS_IP_LEN t) = bit_pos <$> seq 0 (8 * TS_IP_LEN t).
Proof. unfold TS_IP_LEN. by destruct (ts_type t). Qed.

Lemma bit_pos_set a i : bitmask_set a (i / 8) (7 - Z.of_nat (i mod 8)) = addr_bit a i.
Proof.
  apply bitmask_set_bit. pose proof (Nat.mod_upper_bound i 8). lia.
Qed.

Lemma netbits_loop_tail from to idx n :
  Forall (fun i => addr_bit from i = false /\ addr_bit to i = true) idx ->
  calc_netbits_loop from to (bit_pos <$> idx) false n = (n, n).
Proof.
  induction 1 as [|i idx [Hf Ht] _ IH]; [done|].
  cbn [fmap list_fmap bit_pos calc_netbits_loop]. by rewrite !bit_pos_set, Hf, Ht.
Qed.

Lemma netbits_loop_prefix from to idx todo n :
  Forall (fun i => addr_bit from i = addr_bit to i) idx ->
  calc_netbits_loop from to ((bit_pos <$> idx) ++ todo) true n
  = calc_netbits_loop from to todo true n.
Proof.
  induction 1 as [|i idx Heq _ IH]; [done|].
  cbn [fmap list_fmap app bit_pos calc_netbits_loop]. by rewrite !bit_pos_set, Heq, eqb_reflx.
Qed.

(** A range that is a subnet of prefix length [n], bit by bit. *)
Definition subnet_bits (t : traffic_selector) (n : nat) : Prop :=
  forall i, (i < 8 * TS_IP_LEN t)%nat ->
    ((i < n)%nat -> addr_bit (ts_from t) i = addr_bit (ts_to t) i) /\
    ((n <= i)%nat -> addr_bit (ts_from t) i = false /\ addr_bit (ts_to t) i = true).

Lemma calc_netbits_subnet t n :
  (n <= 8 * TS_IP_LEN t)%nat -> subnet_bits t n ->
  calc_netbits t = (set_netbits t (Z.of_nat n), Z.of_nat n).
Proof.
  intros Hn Hs. unfold calc_netbits. rewrite bit_positions_seq.
  replace (8 * TS_IP_LEN t)%nat with (n + (8 * TS_IP_LEN t - n))%nat at 1 by lia.
  rewrite seq_app, fmap_app, netbits_loop_prefix.
  2:{ apply Forall_forall. intros i Hi%in_seq. apply Hs; lia. }
  destruct (8 * TS_IP_LEN t - n)%nat as [|m] eqn:Em.
  { cbn [seq fmap list_fmap calc_netbits_loop].
    by replace (TS_IP_LEN t * 8)%nat with n by lia. }
  destruct (Hs n) as [_ [Hf Ht]]; [lia..|].
  cbn [Nat.add seq fmap list_fmap bit_pos calc_netbits_loop].
  rewrite !bit_pos_set, Hf, Ht. cbn [Bool.eqb negb].
  rewrite (netbits_loop_tail _ _ (seq (S n) m)).
  2:{ apply Forall_forall. intros i Hi%in_seq. apply Hs; lia. }
  pose proof (Nat.div_mod_eq n 8).
  by replace (7 - (7 - Z.of_nat (n mod 8)) + Z.of_nat (n / 8) * 8) with (Z.of_nat n) by lia.
Qed.

Lemma calc_range_subnet t n :
  ts_ok t -> (n <= 8 * TS_IP_LEN t)%nat -> subnet_bits (calc_range t n) n.
Proof.
  intros Hok Hn i Hi. destruct (calc_range_bits t n Hok Hn i Hi) as [-> ->].
  destruct (addr_bit (ts_from t) i); lia.
Qed.

(** ** Numeric value of a prefix *)

Lemma pow256_bits n : 256 ^ Z.of_nat n = 2 ^ Z.of_nat (8 * n).
Proof. rewrite Nat2Z.inj_mul, Z.pow_mul_r by lia. done. Qed.

Lemma be_value_testbit l k :
  bytes_ok l -> (k < 8 * length l)%nat ->
  Z.testbit (be_value l) (Z.of_nat k) = addr_bit l (8 * length l - 1 - k)%nat.
Proof.
  induction 1 as [|b l Hb Hl IH]; intros Hk; [simpl in Hk; lia|].
  cbn [be_value]. pose proof (be_value_range l Hl) as Hr. rewrite pow256_bits in *.
  rewrite testbit_split by lia. cbn [length] in *.
  destruct (Z.ltb_spec (Z.of_nat k) (Z.of_nat (8 * length l))); unfold addr_bit.
  - rewrite IH by lia. unfold addr_bit.
    replace (8 * S (length l) - 1 - k)%nat with (8 * length l - 1 - k + 1 * 8)%nat by lia.
    rewrite Nat.div_add, Nat.Div0.mod_add by lia. by rewrite Nat.add_1_r.
  - rewrite Nat.div_small, Nat.mod_small by lia. cbn [nth]. f_equal. lia.
Qed.

Lemma be_value_above l k :
  bytes_ok l -> Z.of_nat (8 * length l) <= k -> Z.testbit (be_value l) k = false.
Proof.
  intros Hl Hk. eapply testbit_above; [|split; [|exact Hk]]; [|lia].
  rewrite <- pow256_bits. by apply be_value_range.
Qed.

Lemma addr_bit_inj a b :
  bytes_ok a -> bytes_ok b -> length a = length b ->
  (forall i, (i < 8 * length a)%nat -> addr_bit a i = addr_bit b i) -> a = b.
Proof.
  intros Ha Hb Hl Hbits. apply be_value_inj; [done..|]. apply Z.bits_inj'. intros k Hk.
  destruct (decide (k < Z.of_nat (8 * length a))).
  - rewrite <- (Z2Nat.id k) by done. rewrite !be_value_testbit by (lia || done).
    rewrite <- Hl. apply Hbits. lia.
  - rewrite !be_value_above by (done || lia). done.
Qed.

Lemma addr_bit_take a n i : (i < 8 * n)%nat -> addr_bit (take n a) i = addr_bit a i.
Proof.
  intros. unfold addr_bit. rewrite nth_take_lt; [done|]. apply Nat.Div0.div_lt_upper_bound; lia.
Qed.

(** An address whose bits after the first [n] are all clear (all set). *)
Lemma prefix_low_value a b n (w := (8 * length a)%nat) :
  bytes_ok a -> bytes_ok b -> length a = length b -> (n <= w)%nat ->
  (forall i, (i < w)%nat -> addr_bit b i = addr_bit a i && (i <? n)%nat) ->
  be_value b = be_value a / 2 ^ Z.of_nat (w - n) * 2 ^ Z.of_nat (w - n).
Proof.
  intros Ha Hb Hl Hn Hbits. rewrite <- Z.shiftr_div_pow2, <- Z.shiftl_mul_pow2 by lia.
  apply Z.bits_inj'. intros k Hk.
  destruct (decide (k < Z.of_nat (w - n))); [|destruct (decide (k < Z.of_nat w))].
  - rewrite Z.shiftl_spec_low by done. rewrite <- (Z2Nat.id k) by done.
    rewrite be_value_testbit, <- Hl by (done || lia). fold w. rewrite Hbits by lia.
    replace (w - 1 - Z.to_nat k <? n)%nat with false by lia. apply andb_false_r.
  - rewrite Z.shiftl_spec, Z.shiftr_spec, Z.sub_add by lia. rewrite <- (Z2Nat.id k) by done.
    rewrite !be_value_testbit, <- Hl by (done || lia). fold w. rewrite Hbits by lia.
    replace (w - 1 - Z.to_nat k <? n)%nat with true by lia. apply andb_true_r.
  - rewrite Z.shiftl_spec, Z.shiftr_spec, Z.sub_add by lia.
    rewrite !be_value_above by (done || lia). done.
Qed.

Lemma prefix_high_value a b n (w := (8 * length a)%nat) :
  bytes_ok a -> bytes_ok b -> length a = length b -> (n <= w)%nat ->
  (forall i, (i < w)%nat -> addr_bit b i = addr_bit a i || (n <=? i)%nat) ->
  be_value b = be_value a / 2 ^ Z.of_nat (w - n) * 2 ^ Z.of_nat (w - n)
               + (2 ^ Z.of_nat (w - n) - 1).
Proof.
  intros Ha Hb Hl Hn Hbits. apply Z.bits_inj'. intros k Hk.
  assert (0 < 2 ^ Z.of_nat (w - n)) by (apply Z.pow_pos_nonneg; lia).
  rewrite testbit_split by lia.
  replace (2 ^ Z.of_nat (w - n) - 1) with (Z.ones (Z.of_nat (w - n)))
    by (rewrite Z.ones_equiv; lia).
  destruct (Z.ltb_spec k (Z.of_nat (w - n))); [|destruct (decide (k < Z.of_nat w))].
  - rewrite Z.ones_spec_low by lia. rewrite <- (Z2Nat.id k) by done.
    rewrite be_value_testbit, <- Hl by (done || lia). fold w. rewrite Hbits by lia.
    replace (n <=? w - 1 - Z.to_nat k)%nat with true by lia. apply orb_true_r.
  - rewrite Z.div_pow2_bits, Z.sub_add by lia. rewrite <- (Z2Nat.id k) by done.
    rewrite !be_value_testbit, <- Hl by (done || lia). fold w. rewrite Hbits by lia.
    replace (n <=? w - 1 - Z.to_nat k)%nat with false by lia. apply orb_false_r.
  - rewrite Z.div_pow2_bits, Z.sub_add by lia. rewrite !be_value_above by (done || lia). done.
Qed.

Lemma range_mask_ok n (bits := Z.of_nat (range_bytes n * 8 - n)) :
  byte_ok (if bits =? 0 then 0 else Z.shiftl 1 bits - 1).
Proof.
  assert (0 <= bits < 8) as Hb.
  { pose proof (Nat.div_mod_eq (n + 7) 8). pose proof (Nat.mod_upper_bound (n + 7) 8).
    unfold bits, range_bytes. lia. }
  clearbody bits. assert (In bits [0;1;2;3;4;5;6;7]) as Hin by (simpl; lia).
  repeat destruct Hin as [<-|Hin]; [by apply (bool_decide_unpack _)..|done].
Qed.

Lemma calc_range_ok t n : ts_ok t -> (n <= 8 * TS_IP_LEN t)%nat -> ts_ok (calc_range t n).
Proof.
  intros Hok Hn. pose proof (range_lengths t n Hok Hn) as [LF LT].
  pose proof Hok as (_ & Hf & Ht & Hfb & Htb & _).
  unfold calc_range. fold (range_bytes n). fold (range_from t n). fold (range_to t n).
  assert (bytes_ok (range_from t n)) as HF by (apply splice_bytes; bytes).
  assert (bytes_ok (range_to t n)) as HT by (apply splice_bytes; bytes).
  pose proof (range_mask_ok n) as Hm.
  apply set_netbits_ok, set_range_ok; destruct (range_bytes n); rewrite ?length_alter; try done.
  - apply alter_bytes; [|done]. intros b Hb. apply byte_land_l; [done|apply uwrap_range; lia].
  - apply alter_bytes; [|done]. intros b Hb. by apply byte_lor.
Qed.

Lemma calc_range_values t n (w := (8 * TS_IP_LEN t)%nat) (r := calc_range t n) :
  ts_ok t -> (n <= w)%nat ->
  from_value r = from_value t / 2 ^ Z.of_nat (w - n) * 2 ^ Z.of_nat (w - n) /\
  to_value r = from_value r + (2 ^ Z.of_nat (w - n) - 1).
Proof.
  intros Hok Hn. pose proof (calc_range_ok t n Hok Hn) as Hrok. fold r in Hrok.
  pose proof (TS_IP_LEN_le t) as Hle.
  pose proof Hok as (_ & Hf & Ht & Hfb & Htb & _).
  destruct Hrok as (_ & Hrf & Hrt & Hrfb & Hrtb & _).
  pose proof (calc_range_bits t n Hok Hn) as Hbits.
  assert (TS_IP_LEN r = TS_IP_LEN t) as HL by done.
  unfold from_value, to_value, get_from_address, get_to_address. rewrite !HL.
  assert (length (take (TS_IP_LEN t) (ts_from t)) = TS_IP_LEN t) as Hl by len.
  assert (be_value (take (TS_IP_LEN t) (ts_from r))
          = be_value (take (TS_IP_LEN t) (ts_from t)) / 2 ^ Z.of_nat (w - n)
            * 2 ^ Z.of_nat (w - n)) as Hlow.
  { pose proof (prefix_low_value (take (TS_IP_LEN t) (ts_from t))
                  (take (TS_IP_LEN t) (ts_from r)) n) as Hp. rewrite Hl in Hp.
    apply Hp; [bytes|bytes|len|done|].
    intros i Hi. rewrite !addr_bit_take by lia. by apply Hbits. }
  split; [done|]. rewrite Hlow.
  pose proof (prefix_high_value (take (TS_IP_LEN t) (ts_from t))
                (take (TS_IP_LEN t) (ts_to r)) n) as Hp. rewrite Hl in Hp.
  apply Hp; [bytes|bytes|len|done|].
  intros i Hi. rewrite !addr_bit_take by lia. by apply Hbits.
Qed.

Lemma in_prefix_iff v x p :
  0 < p -> (v / p * p <= x <= v / p * p + (p - 1) <-> x / p = v / p).
Proof.
  intros Hp. split; intros H.
  - symmetry. apply (Z.div_unique_pos x p (v / p) (x - v / p * p)); lia.
  - pose proof (Z.div_mod x p). pose proof (Z.mod_pos_bound x p). rewrite <- H. lia.
Qed.

Section FromSubnet.
Context (net : host) (nb protocol fp tp : Z).
Context (Hnet : host_ok net) (Hnb : 0 <= nb) (Hpr : 0 <= protocol < 256).
Context (Hfp : 0 <= fp < 65536) (Htp : 0 <= tp < 65536).

Definition net_width : nat := (8 * length (s_addr net))%nat.
Definition net_bits : nat := Z.to_nat (Z.min nb (Z.of_nat net_width)).

(** What [traffic_selector_create_from_subnet] builds, for either family. *)
Definition is_subnet (t : traffic_selector) (type : ts_type_t) : Prop :=
  ts_ok t /\ ts_dynamic t = false /\ ts_protocol t = protocol /\ ts_type t = type /\
  (8 * TS_IP_LEN t)%nat = net_width /\ subnet_bits t net_bits /\
  ts_netbits t = Z.of_nat net_bits /\
  let p := 2 ^ Z.of_nat (net_width - net_bits) in
  from_value t = addr_value net / p * p /\ to_value t = from_value t + (p - 1).

Lemma subnet_make type t :
  traffic_selector_create protocol type fp tp = Some t ->
  TS_IP_LEN t = length (s_addr net) ->
  let this := set_range t (splice 0 (get_address net) (ts_from t)) (ts_to t) in
  is_subnet (calc_range this (Z.to_nat (Z.min nb (Z.of_nat (TS_IP_LEN this * 8))))) type.
Proof.
  intros Hc HL. pose proof Hnet as (_ & Hb & _). rewrite (get_address_ok net Hnet). intros this.
  destruct (ts_create_ok _ _ _ _ _ Hpr Hfp Htp Hc) as (Hok & Hty & Hp & Hd & _ & _ & Hf & Ht).
  pose proof (TS_IP_LEN_le t) as Hle.
  replace (Z.to_nat _) with net_bits
    by (unfold net_bits, net_width; change (TS_IP_LEN this) with (TS_IP_LEN t); f_equal; lia).
  assert (Hthis : ts_ok this).
  { pose proof Hok as (_ & Hlf & Hlt & Hbf & Hbt & _).
    apply set_range_ok; [done|rewrite length_splice; lia|done|bytes|done]. }
  assert (Hn : (net_bits <= 8 * TS_IP_LEN this)%nat)
    by (unfold net_bits, net_width; change (TS_IP_LEN this) with (TS_IP_LEN t); lia).
  pose proof (calc_range_values this net_bits Hthis Hn) as [Hfv Htv].
  assert (from_value this = addr_value net) as Hv.
  { unfold from_value, addr_value, get_from_address. rewrite (get_address_ok net Hnet).
    change (TS_IP_LEN this) with (TS_IP_LEN t). rewrite HL. cbn [this ts_from set_range].
    f_equal. by apply take_splice0. }
  assert (8 * TS_IP_LEN this = net_width)%nat as Hw by (unfold net_width; rewrite <- HL; done).
  rewrite Hw, Hv in *.
  split_and!; try done; [apply calc_range_ok | apply calc_range_subnet]; try done; lia.
Qed.

Lemma create_from_subnet_spec :
  exists t type, traffic_selector_create_from_subnet net nb protocol fp tp = Some t /\
    is_subnet t type /\
    forall f, family_matches f type = bool_decide (f = get_family net).
Proof.
  unfold traffic_selector_create_from_subnet, get_family.
  destruct (host_ok_family net Hnet) as [[-> Hl]|[-> Hl]].
  - eexists _, TS_IPV4_ADDR_RANGE. split; [reflexivity|]. split; [|by intros []].
    by apply (subnet_make TS_IPV4_ADDR_RANGE _ eq_refl).
  - eexists _, TS_IPV6_ADDR_RANGE. split; [reflexivity|]. split; [|by intros []].
    by apply (subnet_make TS_IPV6_ADDR_RANGE _ eq_refl).
Qed.
End FromSubnet.

(** ** Properties *)

(** [get_subset] computes the intersection of two traffic selectors: for
    selectors whose ICMP port encodings agree, a packet (protocol, address and
    port) is selected by both exactly when it is selected by the subset, and
    by no packet when there is no subset. *)
Theorem get_subset_intersection (a b : traffic_selector) (proto : Z) (h : host) :
  ts_ok a -> ts_ok b -> ts_dynamic a = false -> ts_dynamic b = false ->
  norm_pair a b -> host_ok h ->
  selects a proto h && selects b proto h
  = match get_subset a b with Some s => selects s proto h | None => false end.
Proof. apply get_subset_selects. Qed.

(** A selector that [is_contained_in] another selects only traffic the
    other selects as well. *)
Theorem is_contained_in_sound (a b : traffic_selector) (proto : Z) (h : host) :
  ts_ok a -> ts_ok b -> norm_pair a b -> host_ok h ->
  is_contained_in a b = true -> selects a proto h = true -> selects b proto h = true.
Proof. apply contained_in_selects. Qed.

(** The selector built from a subnet includes exactly the addresses of the
    same family that agree with the network address on the prefix. *)
Theorem subnet_includes_prefix (net : host) (nb proto fp tp : Z) (h : host) :
  host_ok net -> 0 <= nb -> 0 <= proto < 256 -> 0 <= fp < 65536 -> 0 <= tp < 65536 ->
  host_ok h ->
  let w := (8 * length (s_addr net))%nat in
  let p := 2 ^ Z.of_nat (w - Z.to_nat (Z.min nb (Z.of_nat w))) in
  exists t, traffic_selector_create_from_subnet net nb proto fp tp = Some t /\
    includes t h = bool_decide (get_family h = get_family net)
                   && (addr_value h / p =? addr_value net / p).
Proof.
  intros Hnet Hnb Hpr Hfp Htp Hh w p.
  destruct (create_from_subnet_spec net nb proto fp tp Hnet Hnb Hpr Hfp Htp)
    as (t & type & Hc & (Hok & _ & _ & Hty & _ & _ & _ & Hf & Ht) & Hm).
  exists t. split; [done|]. rewrite includes_range, Hty, Hm by done. f_equal.
  unfold net_bits, net_width in *. fold w p in Hf, Ht. rewrite Ht, Hf.
  pose proof (in_prefix_iff (addr_value net) (addr_value h) p
                ltac:(apply Z.pow_pos_nonneg; lia)) as Hiff.
  destruct (Z.eqb_spec (addr_value h / p) (addr_value net / p)) as [E|E].
  - apply Hiff in E. lia.
  - assert (~ (addr_value net / p * p <= addr_value h <= addr_value net / p * p + (p - 1)))
      by (intros ?%Hiff; done). lia.
Qed.

(** [calc_netbits] recovers the prefix length [calc_range] widened an
    address by, for every prefix length, and leaves the selector as it is. *)
Theorem calc_netbits_calc_range (t : traffic_selector) (n : nat) :
  ts_ok t -> (n <= 8 * TS_IP_LEN t)%nat ->
  calc_netbits (calc_range t n) = (calc_range t n, Z.of_nat n).
Proof.
  intros Hok Hn. rewrite (calc_netbits_subnet (calc_range t n) n Hn); [done|].
  by apply calc_range_subnet.
Qed.

(** *** Witnesses *)

Definition ts_sample (from to : chunk) (proto fp tp : Z) : traffic_selector :=
  TS TS_IPV4_ADDR_RANGE proto false 0 (from ++ replicate 12 0) (to ++ replicate 12 0) fp tp.

Definition ts_net10 : traffic_selector := ts_sample [10;0;0;0] [10;255;255;255] 0 0 65535.
Definition ts_web : traffic_selector := ts_sample [10;1;0;0] [10;1;0;255] 6 80 80.
Definition host_web : host := Host AF_INET [10;1;0;7] (htons 80).

Lemma ts_net10_ok : ts_ok ts_net10.
Proof. apply (bool_decide_unpack _). vm_compute. done. Defined.
Lemma ts_web_ok : ts_ok ts_web.
Proof. apply (bool_decide_unpack _). vm_compute. done. Defined.
Lemma host_web_ok : host_ok host_web.
Proof. apply (bool_decide_unpack _). vm_compute. done. Defined.
Lemma norm_sample : norm_pair ts_web ts_net10.
Proof. split; intros; done. Defined.

Lemma get_subset_intersection_witness :
  get_subset ts_web ts_net10 <> None /\
  selects ts_web 6 host_web && selects ts_net10 6 host_web
  = match get_subset ts_web ts_net10 with Some s => selects s 6 host_web | None => false end.
Proof.
  split; [vm_compute; done|].
  apply (get_subset_intersection ts_web ts_net10 6 host_web ts_web_ok ts_net10_ok
           eq_refl eq_refl norm_sample host_web_ok).
Defined.

Lemma is_contained_in_sound_witness : selects ts_net10 6 host_web = true.
Proof.
  apply (is_contained_in_sound ts_web ts_net10 6 host_web ts_web_ok ts_net10_ok norm_sample
           host_web_ok); vm_compute; reflexivity.
Defined.

Lemma subnet_includes_prefix_witness :
  exists t, traffic_selector_create_from_subnet host_web 20 0 0 65535 = Some t /\
    includes t host_web = true.
Proof.
  apply (subnet_includes_prefix host_web 20 0 0 65535 host_web host_web_ok);
    [lia..|exact host_web_ok].
Defined.

Lemma calc_netbits_calc_range_witness :
  calc_netbits (calc_range ts_web 20) = (calc_range ts_web 20, 20).
Proof. apply (calc_netbits_calc_range ts_web 20 ts_web_ok). vm_compute; lia. Defined.
