(* ===== verification/Crypto.v ===== *)
(** The crypto layer the ESP code is built on, from
    [src/libstrongswan/crypto]: the object interfaces [hasher_t], [mac_t],
    [signer_t], [crypter_t], [rng_t] and [aead_t] as type classes of operations,
    with the documented behaviour of each as a class of laws; the IV generators
    of [crypto/iv]; [plugins/hmac/hmac.c]; [crypto/signers/mac_signer.c]; and
    the [aead_t] that wraps a traditional crypter and signer, [crypto/aead.c].
    Each implementation is an instance of the interface it offers, and its laws
    are proved from the laws of the interfaces it uses. *)
From S2P Require Import Prelude Memory Chunk.
From stdpp Require Import base numbers list option strings.
From Stdlib Require Import Lia ZArith Ascii.
Local Open Scope Z_scope.

(** ** Interfaces *)

(** [hasher_t]: with a [NULL] output the data is kept for the next call. *)
Class Hasher (H : Type) := {
  get_hash : H -> chunk -> bool -> option chunk * H;
  hasher_reset : H -> bool * H;
  get_hash_size : nat;
}.

(** [mac_t] and [signer_t]; the flag tells whether an output buffer is given. *)
Class Mac (M : Type) := {
  get_mac : M -> chunk -> bool -> option chunk * M;
  get_mac_size : nat;
  mac_set_key : M -> chunk -> bool * M;
}.

Class Signer (S : Type) := {
  get_signature : S -> chunk -> bool -> option chunk * S;
  allocate_signature : S -> chunk -> bool -> option chunk * S;
  verify_signature : S -> chunk -> chunk -> bool * S;
  signer_block_size : S -> nat;
  signer_key_size : S -> nat;
  signer_set_key : S -> chunk -> bool * S;
}.

(** [crypter_t]; in-place and allocating calls give the same bytes. *)
Class Crypter (C : Type) := {
  crypter_encrypt : C -> chunk -> chunk -> option chunk;
  crypter_decrypt : C -> chunk -> chunk -> option chunk;
  crypter_block_size : C -> nat;
  crypter_iv_size : C -> nat;
  crypter_key_size : C -> nat;
  crypter_set_key : C -> chunk -> bool * C;
}.

Class Rng (R : Type) := { rng_get_bytes : R -> nat -> option chunk * R }.

(** [aead_t].  Encryption is in place: the result is what the buffer holds from
    the plaintext's start on, ciphertext and ICV.  [aead_has_iv_gen] tells
    whether [get_iv_gen()] is not [NULL], [aead_get_iv] is
    [get_iv_gen()->get_iv()]. *)
Class Aead (A : Type) := {
  aead_encrypt : A -> chunk -> chunk -> chunk -> option chunk * A;
  aead_decrypt : A -> chunk -> chunk -> chunk -> option chunk * A;
  aead_block_size : A -> nat;
  aead_icv_size : A -> nat;
  aead_iv_size : A -> nat;
  aead_has_iv_gen : A -> bool;
  aead_get_iv : A -> Z -> nat -> option chunk * A;
  aead_set_key : A -> chunk -> bool * A;
}.

(** ** Laws: the documented behaviour of the interfaces *)

(** What is visible of a keyed MAC object: its key and the data fed so far. *)
Class HasherLaws (H : Type) `{Hasher H} := {
  hash_fun : chunk -> chunk;
  hasher_pending : H -> chunk;
  hash_length d : length (hash_fun d) = get_hash_size;
  hash_bytes d : bytes_ok (hash_fun d);
  hash_append h d :
    exists h', get_hash h d false = (Some [], h') /\ hasher_pending h' = hasher_pending h ++ d;
  hash_final h d :
    exists h', get_hash h d true = (Some (hash_fun (hasher_pending h ++ d)), h')
               /\ hasher_pending h' = [];
  hash_reset h :
    exists h', hasher_reset h = (true, h') /\ hasher_pending h' = [];
}.

Class MacLaws (M : Type) `{Mac M} := {
  mac_fun : chunk -> chunk -> chunk;
  mac_view : M -> option (chunk * chunk);
  mac_keep : M -> chunk -> chunk;      (* the key as the object keeps it *)
  mac_length k d : length (mac_fun k d) = get_mac_size;
  mac_bytes k d : bytes_ok (mac_fun k d);
  mac_append m k p d :
    mac_view m = Some (k, p) ->
    exists m', get_mac m d false = (Some [], m') /\ mac_view m' = Some (k, p ++ d);
  mac_final m k p d :
    mac_view m = Some (k, p) ->
    exists m', get_mac m d true = (Some (mac_fun k (p ++ d)), m') /\ mac_view m' = Some (k, []);
  mac_keyed m k :
    exists m', mac_set_key m k = (true, m') /\ mac_view m' = Some (mac_keep m k, []);
  mac_keep_mac m d out : mac_keep (snd (get_mac m d out)) = mac_keep m;
  mac_keep_key m k : mac_keep (snd (mac_set_key m k)) = mac_keep m;
}.

(** A keyed signer: signature size, key and pending data. *)
Record signer_view := SignerView { sv_size : nat; sv_key : chunk; sv_pending : chunk }.

Class SignerLaws (S : Type) `{Signer S} := {
  sig_fun : nat -> chunk -> chunk -> chunk;
  sig_view : S -> option signer_view;
  sig_size s v : sig_view s = Some v -> signer_block_size s = sv_size v;
  sig_length s v d : sig_view s = Some v -> length (sig_fun (sv_size v) (sv_key v) d) = sv_size v;
  sig_bytes n k d : bytes_ok (sig_fun n k d);
  sig_append s n k p d :
    sig_view s = Some (SignerView n k p) ->
    exists s', get_signature s d false = (Some [], s')
               /\ sig_view s' = Some (SignerView n k (p ++ d));
  sig_final s n k p d :
    sig_view s = Some (SignerView n k p) ->
    exists s', get_signature s d true = (Some (sig_fun n k (p ++ d)), s')
               /\ sig_view s' = Some (SignerView n k []);
  sig_verify s n k p d sig :
    sig_view s = Some (SignerView n k p) -> length sig = n ->
    exists s', verify_signature s d sig = (bool_decide (sig = sig_fun n k (p ++ d)), s')
               /\ sig_view s' = Some (SignerView n k []);
}.

(** A keyed crypter: block size, IV size and key. *)
Record crypter_view := CrypterView { cv_block : nat; cv_iv : nat; cv_key : chunk }.

Class CrypterLaws (C : Type) `{Crypter C} := {
  cr_view : C -> option crypter_view;
  cr_sizes c v : cr_view c = Some v ->
    crypter_block_size c = cv_block v /\ crypter_iv_size c = cv_iv v /\ cv_block v <> 0%nat;
  cr_inverse c c' v plain iv :
    cr_view c = Some v -> cr_view c' = Some v ->
    bytes_ok plain -> bytes_ok iv -> length iv = cv_iv v ->
    Nat.divide (cv_block v) (length plain) ->
    exists enc, crypter_encrypt c plain iv = Some enc /\ length enc = length plain /\
                bytes_ok enc /\ crypter_decrypt c' enc iv = Some plain;
  cr_decrypt_ok c v enc iv plain :
    cr_view c = Some v -> bytes_ok enc -> crypter_decrypt c enc iv = Some plain ->
    bytes_ok plain /\ length plain = length enc;
}.

Class RngLaws (R : Type) `{Rng R} := {
  rng_length r n c r' : rng_get_bytes r n = (Some c, r') -> length c = n /\ bytes_ok c;
}.

(** A keyed AEAD: block size, ICV size, IV size and keys.  Two objects with
    equal views are the two ends of one security association. *)
Record aead_view := AeadView {
  av_block : nat; av_icv : nat; av_iv : nat; av_key : chunk * chunk
}.

Class AeadLaws (A : Type) `{Aead A} := {
  ae_view : A -> option aead_view;
  ae_sizes a v : ae_view a = Some v ->
    aead_block_size a = av_block v /\ aead_icv_size a = av_icv v /\
    aead_iv_size a = av_iv v /\ av_block v <> 0%nat /\ aead_has_iv_gen a = true;
  ae_inverse a b v plain assoc iv :
    ae_view a = Some v -> ae_view b = Some v ->
    bytes_ok plain -> bytes_ok iv -> length iv = av_iv v ->
    Nat.divide (av_block v) (length plain) ->
    exists enc a' b', aead_encrypt a plain assoc iv = (Some enc, a') /\
      ae_view a' = Some v /\ bytes_ok enc /\ length enc = (length plain + av_icv v)%nat /\
      aead_decrypt b enc assoc iv = (Some plain, b') /\ ae_view b' = Some v;
  ae_decrypt_view a v enc assoc iv :
    ae_view a = Some v -> ae_view (snd (aead_decrypt a enc assoc iv)) = Some v;
  ae_decrypt_ok a v enc assoc iv plain :
    ae_view a = Some v -> bytes_ok enc -> fst (aead_decrypt a enc assoc iv) = Some plain ->
    bytes_ok plain /\ (length plain + av_icv v)%nat = length enc;
  ae_get_iv_view a v seq n :
    ae_view a = Some v -> ae_view (snd (aead_get_iv a seq n)) = Some v;
  ae_get_iv_length a v seq n iv a' :
    ae_view a = Some v -> aead_get_iv a seq n = (Some iv, a') -> length iv = n /\ bytes_ok iv;
}.

(** ** Algorithms *)

Inductive encryption_algorithm_t : Type :=
| ENCR_DES_IV64 | ENCR_DES | ENCR_3DES | ENCR_RC5 | ENCR_IDEA | ENCR_CAST
| ENCR_BLOWFISH | ENCR_3IDEA | ENCR_DES_IV32 | ENCR_NULL | ENCR_AES_CBC
| ENCR_AES_CTR | ENCR_AES_CCM_ICV8 | ENCR_AES_CCM_ICV12 | ENCR_AES_CCM_ICV16
| ENCR_AES_GCM_ICV8 | ENCR_AES_GCM_ICV12 | ENCR_AES_GCM_ICV16
| ENCR_NULL_AUTH_AES_GMAC | ENCR_CAMELLIA_CBC | ENCR_CAMELLIA_CTR
| ENCR_CAMELLIA_CCM_ICV8 | ENCR_CAMELLIA_CCM_ICV12 | ENCR_CAMELLIA_CCM_ICV16
| ENCR_CHACHA20_POLY1305 | ENCR_UNDEFINED | ENCR_DES_ECB | ENCR_SERPENT_CBC
| ENCR_TWOFISH_CBC | ENCR_RC2_CBC.

#[export] Instance encryption_algorithm_eq_dec : EqDecision encryption_algorithm_t.
Proof. solve_decision. Defined.

Definition encryption_algorithm_is_aead (alg : encryption_algorithm_t) : bool :=
  match alg with
  | ENCR_AES_CCM_ICV8 | ENCR_AES_CCM_ICV12 | ENCR_AES_CCM_ICV16
  | ENCR_AES_GCM_ICV8 | ENCR_AES_GCM_ICV12 | ENCR_AES_GCM_ICV16
  | ENCR_NULL_AUTH_AES_GMAC
  | ENCR_CAMELLIA_CCM_ICV8 | ENCR_CAMELLIA_CCM_ICV12 | ENCR_CAMELLIA_CCM_ICV16
  | ENCR_CHACHA20_POLY1305 => true
  | _ => false
  end.

(** ** IV generators *)
Module Iv.

Definition SEQ_IV_INIT_STATE : Z := 2 ^ 64 - 1.
Definition SEQ_IV_HIGH_MASK : Z := 2 ^ 63.

(** The state of [iv_gen_seq]; a missing salt means the RNG failed. *)
Record iv_gen_seq := IvGenSeq {
  prevl : Z;               (* last number in the lower space *)
  prevh : Z;               (* last number in the upper space *)
  salt : option chunk;
}.

(** The sequence number a call uses, if it is accepted. *)
Definition seq_accept (this : iv_gen_seq) (seq : Z) : option Z :=
  let check seq :=
    if Z.lor seq SEQ_IV_HIGH_MASK =? SEQ_IV_INIT_STATE then None else Some seq in
  if negb (prevl this =? SEQ_IV_INIT_STATE) && (seq <=? prevl this) then
    let seq := Z.lor seq SEQ_IV_HIGH_MASK in
    if negb (prevh this =? SEQ_IV_INIT_STATE) && (seq <=? prevh this) then None
    else check seq
  else check seq.

(** [get_iv]; the result of [memxor] does not depend on the word size and the
    addresses it is given. *)
Definition seq_get_iv (this : iv_gen_seq) (seq : Z) (size : nat)
    : option chunk * iv_gen_seq :=
  match salt this with
  | None => (None, this)
  | Some slt =>
    if (size <? 8)%nat then (None, this)
    else match seq_accept this seq with
    | None => (None, this)
    | Some seq =>
      let this := if negb (Z.land seq SEQ_IV_HIGH_MASK =? 0)
                  then IvGenSeq (prevl this) seq (salt this)
                  else IvGenSeq seq (prevh this) (salt this) in
      (Some (replicate (size - 8) 0 ++ memxor 8 0 0 (htoun64 seq) slt 8), this)
    end
  end.

Definition seq_create {R} `{Rng R} (rng : option R) : iv_gen_seq :=
  IvGenSeq SEQ_IV_INIT_STATE SEQ_IV_INIT_STATE
    (match rng with Some r => fst (rng_get_bytes r 8) | None => None end).

(** The three generators behind [iv_gen_t]. *)
Inductive iv_gen (R : Type) : Type :=
| IvRand (rng : option R)
| IvSeq (gen : iv_gen_seq)
| IvNull.
#[global] Arguments IvRand {R} rng.
#[global] Arguments IvSeq {R} gen.
#[global] Arguments IvNull {R}.

Section Gen.
Context {R : Type} `{Rng R}.

Definition rand_get_iv (rng : option R) (size : nat) : option chunk * option R :=
  match rng with
  | None => (None, None)
  | Some r => let '(c, r) := rng_get_bytes r size in (c, Some r)
  end.

Definition null_get_iv (size : nat) : option chunk :=
  if (size =? 0)%nat then Some [] else None.

Definition get_iv (this : iv_gen R) (seq : Z) (size : nat) : option chunk * iv_gen R :=
  match this with
  | IvRand rng => let '(c, rng) := rand_get_iv rng size in (c, IvRand rng)
  | IvSeq g => let '(c, g) := seq_get_iv g seq size in (c, IvSeq g)
  | IvNull => (null_get_iv size, IvNull)
  end.

(** [iv_gen_create_for_alg]; [rng_weak] and [rng_strong] are what the crypto
    factory gives for [RNG_WEAK] and [RNG_STRONG]. *)
Definition iv_gen_create_for_alg (rng_weak rng_strong : option R)
    (alg : encryption_algorithm_t) : option (iv_gen R) :=
  match alg with
  | ENCR_DES | ENCR_3DES | ENCR_RC5 | ENCR_IDEA | ENCR_CAST | ENCR_BLOWFISH
  | ENCR_3IDEA | ENCR_AES_CBC | ENCR_CAMELLIA_CBC | ENCR_SERPENT_CBC
  | ENCR_TWOFISH_CBC | ENCR_RC2_CBC => Some (IvRand rng_weak)
  | ENCR_AES_CTR | ENCR_AES_CCM_ICV8 | ENCR_AES_CCM_ICV12 | ENCR_AES_CCM_ICV16
  | ENCR_AES_GCM_ICV8 | ENCR_AES_GCM_ICV12 | ENCR_AES_GCM_ICV16
  | ENCR_CAMELLIA_CTR | ENCR_CAMELLIA_CCM_ICV8 | ENCR_CAMELLIA_CCM_ICV12
  | ENCR_CAMELLIA_CCM_ICV16 | ENCR_CHACHA20_POLY1305
  | ENCR_NULL_AUTH_AES_GMAC => Some (IvSeq (seq_create rng_strong))
  | ENCR_NULL => Some IvNull
  | ENCR_UNDEFINED | ENCR_DES_ECB | ENCR_DES_IV32 | ENCR_DES_IV64 => None
  end.

(** A usable generator: the salt of a sequential one is eight bytes. *)
Definition gen_ok (this : iv_gen R) : Prop :=
  match this with
  | IvSeq g => match salt g with Some s => length s = 8%nat /\ bytes_ok s | None => True end
  | _ => True
  end.

#[global] Instance gen_ok_dec this : Decision (gen_ok this).
Proof.
  destruct this as [?|[? ? [?|]]|]; unfold gen_ok; simpl; apply _.
Defined.
End Gen.
End Iv.

(** Calls on an object joined by [&&]: the object after a failed call is kept
    and the later calls are not made. *)
Definition and_then {A B S : Type} (m : option A * S) (k : A -> S -> option B * S)
    : option B * S :=
  match m with
  | (Some a, s) => k a s
  | (None, s) => (None, s)
  end.

(** ** hmac *)
Module Hmac.

Record private_mac (H : Type) := PrivateMac {
  b : nat;                    (* block size, as in RFC 2104 *)
  h : H;                      (* hash function *)
  opaded_key : chunk;
  ipaded_key : chunk;
}.
#[global] Arguments PrivateMac {H} b h opaded_key ipaded_key.
#[global] Arguments b {H} p.
#[global] Arguments h {H} p.
#[global] Arguments opaded_key {H} p.
#[global] Arguments ipaded_key {H} p.

Section Hmac.
Context {H : Type} `{Hasher H}.

Definition with_h (this : private_mac H) (h' : H) : private_mac H :=
  PrivateMac (b this) h' (opaded_key this) (ipaded_key this).

Definition get_mac (this : private_mac H) (data : chunk) (out : bool)
    : option chunk * private_mac H :=
  let '(r, h') :=
    if out then
      and_then (get_hash (h this) data true) (fun inner h1 =>
      and_then (get_hash h1 (opaded_key this) false) (fun _ h2 =>
      and_then (get_hash h2 inner true) (fun result h3 =>
      and_then (get_hash h3 (ipaded_key this) false) (fun _ h4 => (Some result, h4)))))
    else get_hash (h this) data false in
  (r, with_h this h').

(** The key as it is padded to the block size, hashed first if it is longer. *)
Definition pad_key (this : private_mac H) (key : chunk) : option chunk * H :=
  let buffer := replicate (b this) 0 in
  if (b this <? length key)%nat then
    match hasher_reset (h this) with
    | (true, h1) => let '(r, h2) := get_hash h1 key true in
                    ((fun d => splice 0 d buffer) <$> r, h2)
    | (false, h1) => (None, h1)
    end
  else (Some (splice 0 key buffer), h this).

Definition set_key (this : private_mac H) (key : chunk) : bool * private_mac H :=
  match pad_key this key with
  | (None, h1) => (false, with_h this h1)
  | (Some buffer, h1) =>
    let this := PrivateMac (b this) h1 (map (fun x => Z.lxor x 0x5C) buffer)
                           (map (fun x => Z.lxor x 0x36) buffer) in
    match hasher_reset h1 with
    | (false, h2) => (false, with_h this h2)
    | (true, h2) => let '(r, h3) := get_hash h2 (ipaded_key this) false in
                    (match r with Some _ => true | None => false end, with_h this h3)
    end
  end.
End Hmac.

#[global] Instance hmac_mac {H} `{Hasher H} : Mac (private_mac H) := {
  get_mac := get_mac;
  get_mac_size := get_hash_size (H := H);
  mac_set_key := set_key;
}.
End Hmac.

(** ** mac_signer *)
Module MacSigner.

Record private_signer (M : Type) := PrivateSigner { mac : M; truncation : nat }.
#[global] Arguments PrivateSigner {M} mac truncation.
#[global] Arguments mac {M} p.
#[global] Arguments truncation {M} p.

Section MacSigner.
Context {M : Type} `{Mac M}.

Definition get_signature (this : private_signer M) (data : chunk) (buffer : bool)
    : option chunk * private_signer M :=
  let '(r, m) := get_mac (mac this) data buffer in
  ((if buffer then take (truncation this) else id) <$> r,
   PrivateSigner m (truncation this)).

(** Allocates the buffer [get_signature] is given. *)
Definition allocate_signature (this : private_signer M) (data : chunk) (chunk_ : bool)
    : option chunk * private_signer M :=
  let '(r, m) := get_mac (mac this) data chunk_ in
  ((if chunk_ then take (truncation this) else id) <$> r,
   PrivateSigner m (truncation this)).

Definition verify_signature (this : private_signer M) (data signature : chunk)
    : bool * private_signer M :=
  if negb (length signature =? truncation this)%nat then (false, this)
  else
    let '(r, m) := get_mac (mac this) data true in
    (match r with
     | Some d => memeq_const signature d (truncation this)
     | None => false
     end, PrivateSigner m (truncation this)).

Definition set_key (this : private_signer M) (key : chunk) : bool * private_signer M :=
  let '(r, m) := mac_set_key (mac this) key in (r, PrivateSigner m (truncation this)).

Definition mac_signer_create (m : M) (len : nat) : private_signer M :=
  PrivateSigner m (Nat.min len (get_mac_size (M := M))).
End MacSigner.

#[global] Instance mac_signer_signer {M} `{Mac M} : Signer (private_signer M) := {
  get_signature := get_signature;
  allocate_signature := allocate_signature;
  verify_signature := verify_signature;
  signer_block_size := truncation;
  signer_key_size := fun _ => get_mac_size (M := M);
  signer_set_key := set_key;
}.
End MacSigner.

(** ** aead *)
Module AeadWrapper.

Record private_aead (C S R : Type) := PrivateAead {
  crypter : C;                (* traditional crypter *)
  signer : S;                 (* traditional signer *)
  iv_gen : Iv.iv_gen R;       (* IV generator *)
}.
#[global] Arguments PrivateAead {C S R} crypter signer iv_gen.
#[global] Arguments crypter {C S R} p.
#[global] Arguments signer {C S R} p.
#[global] Arguments iv_gen {C S R} p.

(** [chunk_split(c, "mm", n, &a, m, &b)]. *)
Definition split_mm (c : chunk) (n m : nat) : list chunk :=
  chunk_split c ["m"%char; "m"%char] [SplitArg n (Some 0%nat); SplitArg m (Some 0%nat)].

Section Wrapper.
Context {C S R : Type} `{Crypter C} `{Signer S} `{Rng R}.
Abbreviation aead := (private_aead C S R).

Definition with_signer (this : aead) (s : S) : aead :=
  PrivateAead (crypter this) s (iv_gen this).

(** Associated data and IV go to the signer first. *)
Definition sign_header (this : aead) (assoc iv : chunk) : option chunk * S :=
  and_then (get_signature (signer this) assoc false) (fun _ s => get_signature s iv false).

(** [encrypt] with a result chunk to allocate: IV, ciphertext and ICV. *)
Definition encrypt_alloc (this : aead) (plain assoc iv : chunk) : option chunk * aead :=
  let '(r, s) :=
    and_then (sign_header this assoc iv) (fun _ s =>
    match crypter_encrypt (crypter this) plain iv with
    | None => (None, s)
    | Some encr =>
      and_then (allocate_signature s encr true) (fun sig s => (Some (iv ++ encr ++ sig), s))
    end) in
  (r, with_signer this s).

(** [encrypt] in place: ciphertext and the ICV behind it. *)
Definition encrypt (this : aead) (plain assoc iv : chunk) : option chunk * aead :=
  let '(r, s) :=
    and_then (sign_header this assoc iv) (fun _ s =>
    match crypter_encrypt (crypter this) plain iv with
    | None => (None, s)
    | Some encr => and_then (get_signature s encr true) (fun sig s => (Some (encr ++ sig), s))
    end) in
  (r, with_signer this s).

Definition decrypt (this : aead) (encrypted assoc iv : chunk) : option chunk * aead :=
  let bs := crypter_block_size (crypter this) in
  let siglen := signer_block_size (signer this) in
  if (length encrypted <? siglen)%nat
     || negb ((length encrypted - siglen) mod bs =? 0)%nat then (None, this)
  else
    match split_mm encrypted (length encrypted - siglen) siglen with
    | [encrypted; sig] =>
      let '(r, s) :=
        and_then (sign_header this assoc iv) (fun _ s =>
        match verify_signature s encrypted sig with
        | (false, s) => (None, s)
        | (true, s) => (crypter_decrypt (crypter this) encrypted iv, s)
        end) in
      (r, with_signer this s)
    | _ => (None, this)
    end.

Definition get_iv (this : aead) (seq : Z) (size : nat) : option chunk * aead :=
  let '(r, g) := Iv.get_iv (iv_gen this) seq size in
  (r, PrivateAead (crypter this) (signer this) g).

Definition get_key_size (this : aead) : nat :=
  crypter_key_size (crypter this) + signer_key_size (signer this).

Definition set_key (this : aead) (key : chunk) : bool * aead :=
  match split_mm key (signer_key_size (signer this)) (crypter_key_size (crypter this)) with
  | [sig; enc] =>
    match signer_set_key (signer this) sig with
    | (false, s) => (false, with_signer this s)
    | (true, s) => let '(r, c) := crypter_set_key (crypter this) enc in
                   (r, PrivateAead c s (iv_gen this))
    end
  | _ => (false, this)
  end.

Definition aead_create (c : C) (s : S) (g : Iv.iv_gen R) : aead := PrivateAead c s g.
End Wrapper.

#[global] Instance wrapper_aead {C S R} `{Crypter C} `{Signer S} `{Rng R}
    : Aead (private_aead C S R) := {
  aead_encrypt := encrypt;
  aead_decrypt := decrypt;
  aead_block_size := fun a => crypter_block_size (crypter a);
  aead_icv_size := fun a => signer_block_size (signer a);
  aead_iv_size := fun a => crypter_iv_size (crypter a);
  aead_has_iv_gen := fun _ => true;
  aead_get_iv := get_iv;
  aead_set_key := set_key;
}.
End AeadWrapper.

(** ** Implementations satisfy the interfaces they offer *)

Section HmacLaws.
Context {H : Type} `{HasherLaws H}.

Definition xor_pad (x : Z) (key : chunk) : chunk := map (fun b => Z.lxor b x) key.

Lemma xor_pad_twice x l : xor_pad x (xor_pad x l) = l.
Proof.
  induction l as [|b l IH]; [done|]. unfold xor_pad in *. cbn [map].
  by rewrite IH, Z.lxor_assoc, Z.lxor_nilpotent, Z.lxor_0_r.
Qed.

(** HMAC of RFC 2104: the key padded to block size [n], and the two hashes. *)
Definition hmac_pad (n : nat) (key : chunk) : chunk :=
  splice 0 (if (n <? length key)%nat then hash_fun key else key) (replicate n 0).
Definition hmac_fun (key data : chunk) : chunk :=
  hash_fun (xor_pad 0x5C key ++ hash_fun (xor_pad 0x36 key ++ data)).

(** A keyed HMAC object: both pads are those of the key and the inner hash has
    been fed with the inner pad and the pending data. *)
Definition hmac_keyed (m : Hmac.private_mac H) (key p : chunk) : Prop :=
  Hmac.opaded_key m = xor_pad 0x5C key /\ Hmac.ipaded_key m = xor_pad 0x36 key /\
  hasher_pending (Hmac.h m) = Hmac.ipaded_key m ++ p.

Definition hmac_view (m : Hmac.private_mac H) : option (chunk * chunk) :=
  let key := xor_pad 0x5C (Hmac.opaded_key m) in
  let p := drop (length (Hmac.ipaded_key m)) (hasher_pending (Hmac.h m)) in
  if decide (Hmac.ipaded_key m = xor_pad 0x36 key
             /\ hasher_pending (Hmac.h m) = Hmac.ipaded_key m ++ p)
  then Some (key, p) else None.

Lemma hmac_view_keyed m k p : hmac_view m = Some (k, p) <-> hmac_keyed m k p.
Proof.
  unfold hmac_view, hmac_keyed. split.
  - destruct (decide _) as [[Hi Hp]|]; [|done]. intros [= <- <-].
    by rewrite xor_pad_twice.
  - intros (Ho & Hi & Hp). rewrite Ho, xor_pad_twice, Hp, drop_app_length.
    by rewrite decide_True.
Qed.

Lemma hmac_append m k p d :
  hmac_keyed m k p ->
  exists m', Hmac.get_mac m d false = (Some [], m') /\ hmac_keyed m' k (p ++ d).
Proof.
  intros (Ho & Hi & Hp). unfold Hmac.get_mac.
  destruct (hash_append (Hmac.h m) d) as (h' & -> & Hp').
  eexists. split; [reflexivity|]. unfold hmac_keyed. cbn.
  split_and!; try done. by rewrite Hp', Hp, app_assoc.
Qed.

Lemma hmac_final m k p d :
  hmac_keyed m k p ->
  exists m', Hmac.get_mac m d true = (Some (hmac_fun k (p ++ d)), m') /\ hmac_keyed m' k [].
Proof.
  intros (Ho & Hi & Hp). unfold Hmac.get_mac.
  destruct (hash_final (Hmac.h m) d) as (h1 & -> & P1). cbn [and_then].
  destruct (hash_append h1 (Hmac.opaded_key m)) as (h2 & -> & P2). cbn [and_then].
  destruct (hash_final h2 (hash_fun (hasher_pending (Hmac.h m) ++ d))) as (h3 & -> & P3).
  cbn [and_then].
  destruct (hash_append h3 (Hmac.ipaded_key m)) as (h4 & -> & P4). cbn [and_then].
  exists (Hmac.with_h m h4). split.
  - unfold hmac_fun. rewrite P2, P1, Hp, <- !app_assoc. cbn [app]. by rewrite Ho, Hi.
  - unfold hmac_keyed. cbn. rewrite P4, P3, app_nil_r. by split_and!.
Qed.

Lemma hmac_set_key m k :
  exists m', Hmac.set_key m k = (true, m') /\ hmac_keyed m' (hmac_pad (Hmac.b m) k) [].
Proof.
  unfold Hmac.set_key.
  assert (exists h1, Hmac.pad_key m k = (Some (hmac_pad (Hmac.b m) k), h1)) as (h1 & ->).
  { unfold Hmac.pad_key, hmac_pad. destruct (Nat.ltb_spec (Hmac.b m) (length k)); [|by eexists].
    destruct (hash_reset (Hmac.h m)) as (h1 & -> & P1).
    destruct (hash_final h1 k) as (h2 & -> & P2). rewrite P1. by eexists. }
  destruct (hash_reset h1) as (h2 & -> & P2). cbn.
  destruct (hash_append h2 (map (fun x => Z.lxor x 54) (hmac_pad (Hmac.b m) k)))
    as (h3 & -> & P3).
  eexists. split; [reflexivity|]. unfold hmac_keyed. cbn.
  rewrite P3, P2, app_nil_r. by split_and!.
Qed.

#[local] Obligation Tactic := idtac.
#[global] Program Instance hmac_laws : MacLaws (Hmac.private_mac H) := {
  mac_fun := hmac_fun;
  mac_view := hmac_view;
  mac_keep := fun m => hmac_pad (Hmac.b m);
}.
Next Obligation. intros. apply hash_length. Qed.
Next Obligation. intros. apply hash_bytes. Qed.
Next Obligation.
  intros m k p d Hv%hmac_view_keyed. destruct (hmac_append m k p d Hv) as (m' & ? & ?).
  exists m'. split; [done|]. by apply hmac_view_keyed.
Qed.
Next Obligation.
  intros m k p d Hv%hmac_view_keyed. destruct (hmac_final m k p d Hv) as (m' & ? & ?).
  exists m'. split; [done|]. by apply hmac_view_keyed.
Qed.
Next Obligation.
  intros m k. destruct (hmac_set_key m k) as (m' & ? & ?).
  exists m'. split; [done|]. by apply hmac_view_keyed.
Qed.
Next Obligation. intros m d out. cbn. unfold Hmac.get_mac. by destruct (if out then _ else _). Qed.
Next Obligation.
  intros m k. cbn. unfold Hmac.set_key. destruct (Hmac.pad_key m k) as [[buffer|] h1]; [|done].
  destruct (hasher_reset h1) as [[|] h2]; [|done]. by destruct (get_hash _ _ _).
Qed.
End HmacLaws.

Section SignerFromMac.
Context {M : Type} `{MacLaws M}.

Definition ms_view (s : MacSigner.private_signer M) : option signer_view :=
  if decide (MacSigner.truncation s <= get_mac_size (M := M))%nat then
    '(k, p) ← mac_view (MacSigner.mac s); Some (SignerView (MacSigner.truncation s) k p)
  else None.

Lemma ms_view_inv s n k p :
  ms_view s = Some (SignerView n k p) ->
  mac_view (MacSigner.mac s) = Some (k, p) /\ MacSigner.truncation s = n /\
  (n <= get_mac_size (M := M))%nat.
Proof.
  unfold ms_view. destruct (decide _); [|done].
  destruct (mac_view _) as [[k' p']|]; [|done]. intros. by simplify_option_eq.
Qed.

Lemma ms_view_intro m n k p :
  mac_view m = Some (k, p) -> (n <= get_mac_size (M := M))%nat ->
  ms_view (MacSigner.PrivateSigner m n) = Some (SignerView n k p).
Proof. intros Hv Hn. unfold ms_view; cbn. rewrite decide_True by done. by rewrite Hv. Qed.

#[local] Obligation Tactic := idtac.
#[global] Program Instance mac_signer_laws : SignerLaws (MacSigner.private_signer M) := {
  sig_fun := fun n k d => take n (mac_fun k d);
  sig_view := ms_view;
}.
Next Obligation. intros s [n k p] Hv. by apply ms_view_inv in Hv as (_ & ? & _). Qed.
Next Obligation.
  intros s [n k p] d Hv. apply ms_view_inv in Hv as (_ & _ & Hn). cbn.
  rewrite length_take, mac_length. lia.
Qed.
Next Obligation. intros. apply Forall_take, mac_bytes. Qed.
Next Obligation.
  intros s n k p d (Hv & Ht & Hn)%ms_view_inv. cbn. unfold MacSigner.get_signature.
  destruct (mac_append _ _ _ d Hv) as (m' & -> & Hv').
  eexists. split; [reflexivity|]. rewrite Ht. by apply ms_view_intro.
Qed.
Next Obligation.
  intros s n k p d (Hv & Ht & Hn)%ms_view_inv. cbn. unfold MacSigner.get_signature.
  destruct (mac_final _ _ _ d Hv) as (m' & -> & Hv').
  eexists. rewrite Ht. split; [reflexivity|]. by apply ms_view_intro.
Qed.
Next Obligation.
  intros s n k p d sig (Hv & Ht & Hn)%ms_view_inv Hs. cbn. unfold MacSigner.verify_signature.
  rewrite Hs, Ht, Nat.eqb_refl. cbn [negb].
  destruct (mac_final _ _ _ d Hv) as (m' & -> & Hv').
  eexists. split; [|by apply ms_view_intro]. f_equal.
  rewrite memeq_const_spec by (rewrite ?mac_length; lia). by rewrite (take_ge sig) by lia.
Qed.
End SignerFromMac.

Section IvLaws.
Context {R : Type} `{RngLaws R}.

Lemma seq_get_iv_salt g seq n : Iv.salt (snd (Iv.seq_get_iv g seq n)) = Iv.salt g.
Proof.
  unfold Iv.seq_get_iv. destruct (Iv.salt g) as [slt|] eqn:E; [|done].
  destruct (n <? 8)%nat; [done|]. destruct (Iv.seq_accept g seq); [|done].
  by destruct (negb _).
Qed.

Lemma get_iv_gen_ok (g : Iv.iv_gen R) seq n :
  Iv.gen_ok g -> Iv.gen_ok (snd (Iv.get_iv g seq n)).
Proof.
  destruct g as [r|g|]; unfold Iv.get_iv; intros Hg; [|..|done].
  - by destruct (Iv.rand_get_iv r n).
  - pose proof (seq_get_iv_salt g seq n) as Hs.
    destruct (Iv.seq_get_iv g seq n) as [c g']. unfold Iv.gen_ok in *. simpl in *. by rewrite Hs.
Qed.

Lemma htoun64_ok v : length (htoun64 v) = 8%nat /\ bytes_ok (htoun64 v).
Proof. rewrite htoun64_be. split; [apply length_be_bytes|bytes]. Qed.

Lemma get_iv_length (g g' : Iv.iv_gen R) seq n iv :
  Iv.gen_ok g -> Iv.get_iv g seq n = (Some iv, g') -> length iv = n /\ bytes_ok iv.
Proof.
  destruct g as [r|g|]; unfold Iv.get_iv; intros Hg Hi.
  - unfold Iv.rand_get_iv in Hi. destruct r as [r|]; [|done].
    destruct (rng_get_bytes r n) as [c r'] eqn:E. simplify_eq. by apply rng_length in E.
  - unfold Iv.gen_ok in Hg. unfold Iv.seq_get_iv in Hi.
    destruct (Iv.salt g) as [slt|]; [|done]. destruct Hg as [Hl Hb].
    destruct (Nat.ltb_spec n 8); [done|]. destruct (Iv.seq_accept g seq) as [v|]; [|done].
    simplify_eq. destruct (htoun64_ok v) as [Hhl Hhb].
    rewrite memxor_spec by (done || lia). unfold xor_upto, xor_bytes.
    rewrite (take_ge slt), (take_ge (htoun64 v)), drop_ge, app_nil_r by lia.
    split; [rewrite length_app, length_replicate, length_zip_with; lia|].
    apply Forall_app_2; [bytes|]. by apply xor_bytes_ok.
  - unfold Iv.null_get_iv in Hi. destruct (Nat.eqb_spec n 0); [|done]. by simplify_eq.
Qed.
End IvLaws.

Section WrapperLaws.
Context {C S R : Type} `{CrypterLaws C} `{SignerLaws S} `{RngLaws R}.
Abbreviation aead := (AeadWrapper.private_aead C S R).

Definition w_view (a : aead) : option aead_view :=
  cv ← cr_view (AeadWrapper.crypter a);
  sv ← sig_view (AeadWrapper.signer a);
  if decide (sv_pending sv = [] /\ Iv.gen_ok (AeadWrapper.iv_gen a)) then
    Some (AeadView (cv_block cv) (sv_size sv) (cv_iv cv) (sv_key sv, cv_key cv))
  else None.

Lemma w_view_inv a v :
  w_view a = Some v -> exists n sk bs ivs ck,
  v = AeadView bs n ivs (sk, ck) /\
  cr_view (AeadWrapper.crypter a) = Some (CrypterView bs ivs ck) /\
  sig_view (AeadWrapper.signer a) = Some (SignerView n sk []) /\
  Iv.gen_ok (AeadWrapper.iv_gen a).
Proof.
  unfold w_view. destruct (cr_view _) as [[bs ivs ck]|]; [|done].
  destruct (sig_view _) as [[n sk p]|]; [|done]. cbn.
  destruct (decide _) as [[-> Hg]|]; [|done]. intros [= <-]. by eexists _, _, _, _, _.
Qed.

Lemma w_view_intro c s g bs ivs ck n sk :
  cr_view c = Some (CrypterView bs ivs ck) -> sig_view s = Some (SignerView n sk []) ->
  Iv.gen_ok g ->
  w_view (AeadWrapper.PrivateAead c s g) = Some (AeadView bs n ivs (sk, ck)).
Proof. intros Hc Hs Hg. unfold w_view; cbn. rewrite Hc, Hs. cbn. by rewrite decide_True. Qed.

Lemma sign_header_spec (a : aead) n k assoc iv :
  sig_view (AeadWrapper.signer a) = Some (SignerView n k []) ->
  exists s, AeadWrapper.sign_header a assoc iv = (Some [], s) /\
            sig_view s = Some (SignerView n k (assoc ++ iv)).
Proof.
  intros Hs. unfold AeadWrapper.sign_header.
  destruct (sig_append _ _ _ _ assoc Hs) as (s1 & -> & Hs1). cbn [and_then].
  destruct (sig_append _ _ _ _ iv Hs1) as (s2 & -> & Hs2). eauto.
Qed.

Lemma w_encrypt_spec a bs n ivs sk ck plain assoc iv enc :
  w_view a = Some (AeadView bs n ivs (sk, ck)) ->
  crypter_encrypt (AeadWrapper.crypter a) plain iv = Some enc ->
  exists a', AeadWrapper.encrypt a plain assoc iv
             = (Some (enc ++ sig_fun n sk ((assoc ++ iv) ++ enc)), a') /\
             w_view a' = w_view a.
Proof.
  intros Hv He. rewrite Hv. apply w_view_inv in Hv as (? & ? & ? & ? & ? & [= <- <- <- <- <-] & Hc & Hs & Hg).
  unfold AeadWrapper.encrypt. destruct (sign_header_spec a n sk assoc iv Hs) as (s & -> & Hs1).
  cbn [and_then]. rewrite He.
  destruct (sig_final _ _ _ _ enc Hs1) as (s2 & -> & Hs2). cbn [and_then].
  eexists. split; [reflexivity|]. by apply w_view_intro.
Qed.

(** Decryption: the signature over header and ciphertext decides, and the
    object is ready for the next packet in every case. *)
Lemma w_decrypt_spec a bs n ivs sk ck enc assoc iv :
  w_view a = Some (AeadView bs n ivs (sk, ck)) ->
  let body := take (length enc - n) enc in
  exists a', w_view a' = w_view a /\ AeadWrapper.decrypt a enc assoc iv
  = (if (length enc <? n)%nat || negb ((length enc - n) mod bs =? 0)%nat then None
     else if bool_decide (drop (length enc - n) enc = sig_fun n sk ((assoc ++ iv) ++ body))
     then crypter_decrypt (AeadWrapper.crypter a) body iv else None, a').
Proof.
  intros Hv body. rewrite Hv. pose proof Hv as Hv0.
  apply w_view_inv in Hv as (? & ? & ? & ? & ? & [= <- <- <- <- <-] & Hc & Hs & Hg).
  unfold AeadWrapper.decrypt. destruct (cr_sizes _ _ Hc) as (-> & _ & Hbs).
  rewrite (sig_size _ _ Hs). cbn [sv_size cv_block].
  destruct (Nat.ltb_spec (length enc) n) as [Hlt|Hge]; [by eexists|]. cbn [orb].
  destruct (negb _); [by eexists|].
  unfold AeadWrapper.split_mm. rewrite chunk_split_mm by lia. fold body.
  destruct (sign_header_spec a n sk assoc iv Hs) as (s & -> & Hs1). cbn [and_then].
  destruct (sig_verify _ _ _ _ body (drop (length enc - n) enc) Hs1) as (s2 & -> & Hs2); [len|].
  eexists. split; [|by case_bool_decide]. by apply w_view_intro.
Qed.

#[local] Obligation Tactic := idtac.
#[global] Program Instance wrapper_laws : AeadLaws aead := { ae_view := w_view }.
Next Obligation.
  intros a v Hv. apply w_view_inv in Hv as (n & sk & bs & ivs & ck & -> & Hc & Hs & Hg).
  destruct (cr_sizes _ _ Hc) as (? & ? & ?). pose proof (sig_size _ _ Hs). by split_and!.
Qed.
Next Obligation.
  intros a b v plain assoc iv Ha Hb Hp Hi Hl Hd. pose proof Ha as Ha0. pose proof Hb as Hb0.
  apply w_view_inv in Ha as (n & sk & bs & ivs & ck & -> & Hc & Hs & Hg).
  apply w_view_inv in Hb as (? & ? & ? & ? & ? & [= <- <- <- <- <-] & Hc' & Hs' & Hg').
  destruct (cr_inverse _ _ _ plain iv Hc Hc' Hp Hi Hl Hd) as (enc & He & Hel & Heb & Hdec).
  destruct (w_encrypt_spec a bs n ivs sk ck plain assoc iv enc Ha0 He) as (a' & E & Va).
  set (sig := sig_fun n sk ((assoc ++ iv) ++ enc)) in *.
  assert (length sig = n) as Hsl by (apply (sig_length _ _ _ Hs)).
  destruct (w_decrypt_spec b bs n ivs sk ck (enc ++ sig) assoc iv Hb0) as (b' & Vb & Ed).
  exists (enc ++ sig), a', b'. rewrite Ha0 in Va. rewrite Hb0 in Vb.
  split_and!; try done.
  - apply Forall_app_2; [done|apply sig_bytes].
  - cbn. len.
  - cbn [aead_decrypt AeadWrapper.wrapper_aead]. rewrite Ed.
    replace (length (enc ++ sig) - n)%nat with (length enc) by len.
    rewrite take_app_length, drop_app_length. fold sig.
    rewrite (proj2 (Nat.ltb_ge _ _)) by len. cbn [orb]. rewrite Hel.
    cbn [av_block] in Hd. rewrite (proj2 (Nat.Lcm0.mod_divide _ _) Hd). cbn.
    by rewrite bool_decide_true, Hdec.
Qed.
Next Obligation.
  intros a v enc assoc iv Hv. pose proof Hv as Hv0.
  apply w_view_inv in Hv as (n & sk & bs & ivs & ck & -> & _).
  destruct (w_decrypt_spec a bs n ivs sk ck enc assoc iv Hv0) as (a' & Va & E).
  cbn [aead_decrypt AeadWrapper.wrapper_aead]. rewrite E. by rewrite <- Hv0.
Qed.
Next Obligation.
  intros a v enc assoc iv plain Hv Hb. pose proof Hv as Hv0.
  apply w_view_inv in Hv as (n & sk & bs & ivs & ck & -> & Hc & _).
  destruct (w_decrypt_spec a bs n ivs sk ck enc assoc iv Hv0) as (a' & _ & E).
  cbn [aead_decrypt AeadWrapper.wrapper_aead]. rewrite E. cbn [fst av_icv].
  destruct (Nat.ltb_spec (length enc) n); [done|]. cbn [orb]. destruct (negb _); [done|].
  case_bool_decide; [|done]. intros Hd.
  apply (cr_decrypt_ok _ _ _ _ _ Hc) in Hd as [Hp Hl]; [|by apply Forall_take].
  split; [done|]. rewrite Hl. len.
Qed.
Next Obligation.
  intros a v seq n Hv. apply w_view_inv in Hv as (m & sk & bs & ivs & ck & -> & Hc & Hs & Hg).
  cbn. unfold AeadWrapper.get_iv. pose proof (get_iv_gen_ok _ seq n Hg) as Hg'.
  destruct (Iv.get_iv _ _ _) as [r g]. by apply w_view_intro.
Qed.
Next Obligation.
  intros a v seq n iv a' Hv. apply w_view_inv in Hv as (m & sk & bs & ivs & ck & -> & Hc & Hs & Hg).
  cbn. unfold AeadWrapper.get_iv.
  destruct (Iv.get_iv _ _ _) as [r g] eqn:E. intros [= -> <-]. by apply (get_iv_length _ _ _ _ _ Hg) in E.
Qed.
End WrapperLaws.

(** ** Uniqueness of sequential IVs *)
Section SeqUnique.
Abbreviation HIGH := Iv.SEQ_IV_HIGH_MASK.
Abbreviation INIT := Iv.SEQ_IV_INIT_STATE.

Lemma high_bit k : 0 <= k -> Z.testbit HIGH k = (k =? 63).
Proof. intros. unfold Iv.SEQ_IV_HIGH_MASK. rewrite Z.pow2_bits_eqb by lia. lia. Qed.

Lemma lor_high s : 0 <= s < HIGH -> Z.lor s HIGH = HIGH + s.
Proof.
  intros Hs. apply Z.bits_inj'. intros k Hk. rewrite Z.lor_spec, high_bit by done.
  change (HIGH + s) with (1 * 2 ^ 63 + s). rewrite testbit_split by (done || lia).
  destruct (Z.ltb_spec k 63) as [?|?].
  - replace (k =? 63) with false by lia. apply orb_false_r.
  - rewrite (testbit_above s 63) by (done || lia). cbn [orb].
    destruct (Z.eqb_spec k 63) as [->|]; [done|].
    rewrite (testbit_above 1 1) by lia. done.
Qed.

Lemma land_high s : 0 <= s < 2 ^ 64 -> (Z.land s HIGH =? 0) = (s <? HIGH).
Proof.
  intros Hs. assert (s = (s / 2 ^ 63) * 2 ^ 63 + s mod 2 ^ 63) as E
    by (pose proof (Z.div_mod s (2 ^ 63)); lia).
  pose proof (Z.mod_pos_bound s (2 ^ 63)).
  assert (s / 2 ^ 63 = 0 \/ s / 2 ^ 63 = 1) as Hq.
  { pose proof (Z.div_pos s (2 ^ 63)).
    pose proof (Z.div_lt_upper_bound s (2 ^ 63) 2). lia. }
  assert (Z.testbit s 63 = (HIGH <=? s)) as Hb.
  { rewrite E at 1. rewrite testbit_split by lia. change (63 <? 63) with false.
    change (63 - 63) with 0. unfold Iv.SEQ_IV_HIGH_MASK.
    destruct Hq as [Hq|Hq]; rewrite Hq in *; cbn [Z.testbit Z.odd]; lia. }
  destruct (Z.ltb_spec s HIGH).
  - apply Z.eqb_eq, Z.bits_inj_0. intros k.
    destruct (decide (0 <= k)); [|by rewrite Z.testbit_neg_r by lia].
    rewrite Z.land_spec, high_bit by done. destruct (Z.eqb_spec k 63) as [->|];
      [rewrite Hb|apply andb_false_r]. lia.
  - apply Z.eqb_neq. intros Hz. apply (f_equal (fun z => Z.testbit z 63)) in Hz.
    rewrite Z.land_spec, high_bit, Hb, Z.bits_0 in Hz by lia. lia.
Qed.

(** The numbers used so far are bounded by the recorded ones of their space. *)
Definition seq_inv (g : Iv.iv_gen_seq) (used : list Z) : Prop :=
  (Iv.prevl g = INIT \/ 0 <= Iv.prevl g < HIGH) /\
  (Iv.prevh g = INIT \/ HIGH <= Iv.prevh g < 2 ^ 64) /\
  Forall (fun u => (0 <= u < HIGH /\ Iv.prevl g <> INIT /\ u <= Iv.prevl g)
                \/ (HIGH <= u < 2 ^ 64 /\ Iv.prevh g <> INIT /\ u <= Iv.prevh g)) used.

Lemma seq_accept_spec g seq v used :
  0 <= seq < HIGH -> seq_inv g used -> Iv.seq_accept g seq = Some v ->
  0 <= v < 2 ^ 64 /\ (v ∉ used) /\
  seq_inv (if negb (Z.land v HIGH =? 0) then Iv.IvGenSeq (Iv.prevl g) v (Iv.salt g)
           else Iv.IvGenSeq v (Iv.prevh g) (Iv.salt g)) (v :: used).
Proof.
  intros Hs (Hl & Hh & Hu) Ha. unfold Iv.seq_accept in Ha.
  assert (HI : INIT = HIGH + HIGH - 1) by done. assert (HP : 2 ^ 64 = HIGH + HIGH) by done.
  assert (H0 : 0 < HIGH) by done.
  assert (Hv : (v = seq /\ seq <> HIGH - 1 /\ (Iv.prevl g = INIT \/ Iv.prevl g < seq)) \/
               (v = HIGH + seq /\ seq <> HIGH - 1 /\ (Iv.prevh g = INIT \/ Iv.prevh g < v))).
  { rewrite !lor_high in Ha by done.
    assert (Z.lor (HIGH + seq) HIGH = HIGH + seq) as E
      by (rewrite <- lor_high, <- Z.lor_assoc, Z.lor_diag by done; done).
    destruct (negb _ && _) eqn:E1.
    - destruct (negb (Iv.prevh g =? INIT) && _) eqn:E2; [done|].
      rewrite E in Ha. destruct (Z.eqb_spec (HIGH + seq) INIT); [done|].
      simplify_eq. right. lia.
    - destruct (Z.eqb_spec (HIGH + seq) INIT); [done|]. simplify_eq. left. lia. }
  assert (0 <= v < 2 ^ 64) as Hr by lia. split; [done|]. rewrite land_high by done.
  rewrite Forall_forall in Hu. split.
  { intros Hin. specialize (Hu v Hin). lia. }
  unfold seq_inv. destruct (Z.ltb_spec v HIGH); cbn; (split_and!; [lia|lia|]);
    (constructor; [lia|]); apply Forall_forall; intros u Hin; specialize (Hu u Hin); lia.
Qed.

(** The IVs a generator hands out over a sequence of requests. *)
Fixpoint issue_ivs (g : Iv.iv_gen_seq) (seqs : list Z) (size : nat) : list chunk :=
  match seqs with
  | [] => []
  | seq :: seqs => let '(r, g') := Iv.seq_get_iv g seq size in
                   option_list r ++ issue_ivs g' seqs size
  end.

Definition iv_of (slt : chunk) (size : nat) (v : Z) : chunk :=
  replicate (size - 8) 0 ++ Memory.memxor 8 0 0 (htoun64 v) slt 8.

Lemma xor_bytes_inj a b s :
  length a = length s -> length b = length s -> xor_bytes a s = xor_bytes b s -> a = b.
Proof.
  revert b s. induction a as [|x a IH]; intros [|y b] [|z s] Ha Hb E; simpl in *; try done.
  injection Ha as Ha. injection Hb as Hb. injection E as Ex E. f_equal; [|by eapply IH].
  assert (forall u, Z.lxor (Z.lxor u z) z = u) as Hc
    by (intros; by rewrite Z.lxor_assoc, Z.lxor_nilpotent, Z.lxor_0_r).
  by rewrite <- (Hc x), <- (Hc y), Ex.
Qed.

Lemma iv_of_inj slt size v w :
  length slt = 8%nat -> bytes_ok slt -> 0 <= v < 2 ^ 64 -> 0 <= w < 2 ^ 64 ->
  iv_of slt size v = iv_of slt size w -> v = w.
Proof.
  intros Hl Hb Hv Hw E. unfold iv_of in E. apply app_inv_head in E.
  destruct (htoun64_ok v) as [Lv Bv]. destruct (htoun64_ok w) as [Lw Bw].
  rewrite !memxor_spec in E by (done || lia). unfold xor_upto in E.
  rewrite !(take_ge slt), !(take_ge (htoun64 _)), !(drop_ge (htoun64 _)), !app_nil_r in E by lia.
  apply xor_bytes_inj in E; [|congruence..]. rewrite !htoun64_be in E.
  apply (f_equal be_value) in E. rewrite !be_value_bytes, !Z.mod_small in E; done.
Qed.

Lemma issue_ivs_unique slt size seqs g used :
  length slt = 8%nat -> bytes_ok slt -> Iv.salt g = Some slt ->
  Forall (fun s => 0 <= s < 2 ^ 63) seqs -> seq_inv g used ->
  NoDup (issue_ivs g seqs size) /\
  forall iv, iv ∈ issue_ivs g seqs size ->
    exists v, iv = iv_of slt size v /\ 0 <= v < 2 ^ 64 /\ (v ∉ used).
Proof.
  intros Hl Hb. revert g used. induction seqs as [|q seqs IH]; intros g used Hs Hq Hi.
  { split; [constructor|]. intros iv Hin. by apply not_elem_of_nil in Hin. }
  apply Forall_cons in Hq as [Hq Hqs]. cbn [issue_ivs].
  unfold Iv.seq_get_iv. rewrite Hs. destruct (size <? 8)%nat; [by apply IH|].
  destruct (Iv.seq_accept g q) as [v|] eqn:Ea; [|by apply IH].
  destruct (seq_accept_spec g q v used Hq Hi Ea) as (Hv & Hnew & Hinv).
  rewrite Hs in Hinv. set (g' := if negb _ then _ else _) in *.
  assert (Iv.salt g' = Some slt) as Hs' by (unfold g'; by destruct (negb _)).
  destruct (IH g' (v :: used) Hs' Hqs Hinv) as [IHn IHin]. cbn [option_list app].
  fold (iv_of slt size v). split.
  - constructor; [|done]. intros Hin. destruct (IHin _ Hin) as (w & E & Hw & Hnw).
    apply iv_of_inj in E as ->; [|done..]. apply Hnw. by left.
  - intros iv [->|Hin]%elem_of_cons; [by exists v|].
    destruct (IHin _ Hin) as (w & -> & Hw & Hnw). exists w. split_and!; [done|lia|lia|].
    intros Hu. apply Hnw. by right.
Qed.
End SeqUnique.

(** ** A small concrete instance
    The interfaces can be satisfied: a (cryptographically worthless) hash, stream
    cipher and generator on which the development can be evaluated. *)
Module Toy.

Definition toy_hash (d : chunk) : chunk :=
  be_bytes 4 (fold_left (fun acc b => u32 (acc * 31 + b)) d 7).

#[global] Instance toy_hasher : Hasher chunk := {
  get_hash := fun p d out => if out then (Some (toy_hash (p ++ d)), []) else (Some [], p ++ d);
  hasher_reset := fun _ => (true, []);
  get_hash_size := 4;
}.

#[local] Obligation Tactic := idtac.
#[global] Program Instance toy_hasher_laws : HasherLaws chunk := {
  hash_fun := toy_hash;
  hasher_pending := id;
}.
Next Obligation. intros. apply length_be_bytes. Qed.
Next Obligation. intros. apply be_bytes_ok. Qed.
Next Obligation. intros. by eexists. Qed.
Next Obligation. intros. by eexists. Qed.
Next Obligation. intros. by eexists. Qed.

Record toy_crypter := ToyCrypter { tc_block : nat; tc_iv : nat; tc_key : chunk }.

(** The key stream byte of key and IV. *)
Definition toy_byte (c : toy_crypter) (iv : chunk) : Z :=
  u8 (fold_left (fun acc b => acc * 31 + b) (tc_key c ++ iv) 7).
Definition toy_crypt (c : toy_crypter) (d iv : chunk) : chunk :=
  map (fun b => Z.lxor b (toy_byte c iv)) d.

#[global] Instance toy_crypter_crypter : Crypter toy_crypter := {
  crypter_encrypt := fun c d iv => Some (toy_crypt c d iv);
  crypter_decrypt := fun c d iv => Some (toy_crypt c d iv);
  crypter_block_size := tc_block;
  crypter_iv_size := tc_iv;
  crypter_key_size := fun c => length (tc_key c);
  crypter_set_key := fun c k => (true, ToyCrypter (tc_block c) (tc_iv c) k);
}.

Lemma toy_crypt_twice c d iv : toy_crypt c (toy_crypt c d iv) iv = d.
Proof. apply xor_pad_twice. Qed.

#[global] Program Instance toy_crypter_laws : CrypterLaws toy_crypter := {
  cr_view := fun c => if (tc_block c =? 0)%nat then None
                      else Some (CrypterView (tc_block c) (tc_iv c) (tc_key c));
}.
Next Obligation.
  intros c v Hv. cbv beta in Hv. destruct (Nat.eqb_spec (tc_block c) 0); simplify_eq.
  by split_and!.
Qed.
Next Obligation.
  intros c c' v plain iv Hc Hc' Hp Hi _ _.
  assert (c' = c) as ->.
  { destruct c, c'; simpl in *. repeat case_match; by simplify_eq. }
  exists (toy_crypt c plain iv). split_and!; [done|apply length_map| |].
  - apply Forall_map. eapply Forall_impl; [exact Hp|]. intros b Hb.
    apply byte_lxor; [done|apply byte_ok_u8].
  - cbn. by rewrite toy_crypt_twice.
Qed.
Next Obligation.
  intros c v enc iv plain _ Hb [= <-]. split; [|apply length_map].
  apply Forall_map. eapply Forall_impl; [exact Hb|]. intros b Hbb. apply byte_lxor; [done|apply byte_ok_u8].
Qed.

#[global] Instance toy_rng : Rng nat := {
  rng_get_bytes := fun r n => (Some (map (fun i => u8 (Z.of_nat (r * 37 + i))) (seq 0 n)), S r);
}.
#[global] Program Instance toy_rng_laws : RngLaws nat := {}.
Next Obligation.
  intros r n c r' [= <- <-]. split; [by rewrite length_map, length_seq|].
  apply Forall_map, Forall_forall. intros. apply byte_ok_u8.
Qed.

Abbreviation toy_mac := (Hmac.private_mac chunk).
Abbreviation toy_signer := (MacSigner.private_signer toy_mac).
Abbreviation toy_aead := (AeadWrapper.private_aead toy_crypter toy_signer nat).

Definition toy_hmac : toy_mac := Hmac.PrivateMac 8 [] [] [].
Definition toy_keyed_hmac : toy_mac := snd (Hmac.set_key toy_hmac [1; 2; 3]).

(** A keyed end of an association with block size 4 and sequential IVs. *)
Definition toy_end : toy_aead :=
  AeadWrapper.aead_create (ToyCrypter 4 8 [42; 43])
    (MacSigner.mac_signer_create toy_keyed_hmac 3)
    (Iv.IvSeq (Iv.seq_create (Some 5%nat))).

Definition toy_view : aead_view :=
  AeadView 4 3 8 ([1; 2; 3; 0; 0; 0; 0; 0], [42; 43]).

Lemma toy_end_view : ae_view toy_end = Some toy_view.
Proof. vm_compute. reflexivity. Defined.
End Toy.

(** ** Properties *)

(** The [get_mac] calls that feed data before the final one. *)
Fixpoint feed {M} `{Mac M} (m : M) (ds : list chunk) : M :=
  match ds with
  | [] => m
  | d :: ds => feed (snd (get_mac m d false)) ds
  end.

Lemma hmac_feed {H} `{HasherLaws H} ds (m : Hmac.private_mac H) k p :
  hmac_keyed m k p -> hmac_keyed (feed m ds) k (p ++ concat ds).
Proof.
  revert m p. induction ds as [|d ds IH]; intros m p Hm; cbn [feed concat].
  { by rewrite app_nil_r. }
  destruct (hmac_append m k p d Hm) as (m' & E & Hm'). cbn [get_mac Hmac.hmac_mac].
  rewrite E, app_assoc. by apply IH.
Qed.

(** However the data is cut into calls, the MAC an HMAC object returns after
    [set_key] is the RFC 2104 value of key and concatenated data, and the object
    is then ready to compute the next one under the same key. *)
Theorem hmac_incremental {H} `{HasherLaws H} (m : Hmac.private_mac H) (key d : chunk)
    (ds : list chunk) :
  let m1 := feed (snd (Hmac.set_key m key)) ds in
  let pad x := map (fun b => Z.lxor b x) (hmac_pad (Hmac.b m) key) in
  exists m2, Hmac.get_mac m1 d true
    = (Some (hash_fun (pad 0x5C ++ hash_fun (pad 0x36 ++ concat ds ++ d))), m2) /\
    mac_view m2 = Some (hmac_pad (Hmac.b m) key, []).
Proof.
  cbv zeta. destruct (hmac_set_key m key) as (m0 & -> & Hk). cbn [snd].
  pose proof (hmac_feed ds m0 _ _ Hk) as Hf. cbn [app] in Hf.
  destruct (hmac_final _ _ _ d Hf) as (m2 & E & Hm2).
  exists m2. split; [exact E|]. by apply hmac_view_keyed.
Qed.

Lemma hmac_incremental_witness :
  exists m2, Hmac.get_mac (feed Toy.toy_keyed_hmac [[9]; [8; 7]]) [6] true
    = (Some [230; 251; 112; 79], m2).
Proof.
  destruct (hmac_incremental Toy.toy_hmac [1; 2; 3] [6] [[9]; [8; 7]]) as (m2 & E & _).
  exists m2. etransitivity; [exact E|]. vm_compute. reflexivity.
Defined.

(** An object of [aead.c] decrypts to the plaintext what its peer under the
    same keys encrypted with the same IV and associated data; both objects are
    ready for the next packet. *)
Theorem aead_roundtrip {C S R} `{CrypterLaws C} `{SignerLaws S} `{RngLaws R}
    (a b : AeadWrapper.private_aead C S R) (v : aead_view) (plain assoc iv : chunk) :
  ae_view a = Some v -> ae_view b = Some v -> bytes_ok plain -> bytes_ok iv ->
  length iv = av_iv v -> Nat.divide (av_block v) (length plain) ->
  exists enc a' b', AeadWrapper.encrypt a plain assoc iv = (Some enc, a') /\
    length enc = (length plain + av_icv v)%nat /\
    AeadWrapper.decrypt b enc assoc iv = (Some plain, b') /\
    ae_view a' = Some v /\ ae_view b' = Some v.
Proof.
  intros Ha Hb Hp Hi Hl Hd.
  destruct (ae_inverse a b v plain assoc iv Ha Hb Hp Hi Hl Hd)
    as (enc & a' & b' & E & Va & _ & Hlen & D & Vb).
  by exists enc, a', b'.
Qed.

Lemma aead_roundtrip_witness :
  exists enc a' b', AeadWrapper.encrypt Toy.toy_end [1;2;3;4] [7] (replicate 8 0) = (Some enc, a') /\
    length enc = 7%nat /\
    AeadWrapper.decrypt Toy.toy_end enc [7] (replicate 8 0) = (Some [1;2;3;4], b') /\
    ae_view a' = Some Toy.toy_view /\ ae_view b' = Some Toy.toy_view.
Proof.
  apply (aead_roundtrip Toy.toy_end Toy.toy_end Toy.toy_view [1;2;3;4] [7] (replicate 8 0)
           Toy.toy_end_view Toy.toy_end_view); try (by apply (bool_decide_unpack _)).
Defined.

(** [decrypt] of [aead.c] accepts exactly the inputs of a legal length whose
    trailing bytes are the signature over associated data, IV and ciphertext,
    and never leaves data behind in the signer: a rejected packet cannot
    disturb the verification of the next one. *)
Theorem aead_decrypt_authentic {C S R} `{CrypterLaws C} `{SignerLaws S} `{RngLaws R}
    (a : AeadWrapper.private_aead C S R) (bs n ivs : nat) (sk ck enc assoc iv : chunk) :
  ae_view a = Some (AeadView bs n ivs (sk, ck)) ->
  let body := take (length enc - n) enc in
  exists a', ae_view a' = ae_view a /\ AeadWrapper.decrypt a enc assoc iv
  = (if (length enc <? n)%nat || negb ((length enc - n) mod bs =? 0)%nat then None
     else if bool_decide (drop (length enc - n) enc = sig_fun n sk ((assoc ++ iv) ++ body))
     then crypter_decrypt (AeadWrapper.crypter a) body iv else None, a').
Proof. apply w_decrypt_spec. Qed.

Lemma aead_decrypt_authentic_witness :
  exists a', ae_view a' = Some Toy.toy_view /\
    AeadWrapper.decrypt Toy.toy_end [1;2;3;4;5;6;7] [7] (replicate 8 0) = (None, a').
Proof.
  destruct (aead_decrypt_authentic Toy.toy_end 4 3 8 [1; 2; 3; 0; 0; 0; 0; 0] [42; 43]
              [1;2;3;4;5;6;7] [7] (replicate 8 0) Toy.toy_end_view) as (a' & Va & E).
  exists a'. split; [by rewrite Va, Toy.toy_end_view|].
  etransitivity; [exact E|]. vm_compute. reflexivity.
Defined.

(** The IVs a sequential generator hands out are pairwise different,
    whatever sequence numbers below 2^63 it is asked for and however often they
    repeat. *)
Theorem iv_gen_seq_unique {R} `{RngLaws R} (rng : R) (seqs : list Z) (size : nat) :
  Forall (fun s => 0 <= s < 2 ^ 63) seqs ->
  NoDup (issue_ivs (Iv.seq_create (Some rng)) seqs size).
Proof.
  intros Hs. destruct (rng_get_bytes rng 8) as [[slt|] r'] eqn:E.
  - destruct (rng_length _ _ _ _ E) as [Hl Hb].
    eapply (issue_ivs_unique slt size seqs _ []); [done..| |done|].
    + unfold Iv.seq_create. by rewrite E.
    + split_and!; [by left|by left|constructor].
  - assert (issue_ivs (Iv.seq_create (Some rng)) seqs size = []) as ->; [|constructor].
    unfold Iv.seq_create. rewrite E. cbn [fst]. clear.
    induction seqs as [|q seqs IH]; [done|]. exact IH.
Qed.

Lemma iv_gen_seq_unique_witness :
  length (issue_ivs (Iv.seq_create (Some 5%nat)) [1; 2; 2; 3; 1; 2] 8) = 4%nat /\
  NoDup (issue_ivs (Iv.seq_create (Some 5%nat)) [1; 2; 2; 3; 1; 2] 8).
Proof.
  split; [vm_compute; reflexivity|].
  apply (iv_gen_seq_unique 5%nat [1; 2; 2; 3; 1; 2] 8).
  apply (bool_decide_unpack _). vm_compute. done.
Defined.
