(* ===== verification/EspContext.v ===== *)
(** The context of an ESP security association: [src/libipsec/esp_context.c].
    It holds the AEAD, the sequence number state and, for an inbound SA, the
    anti-replay window kept as a ring of bits.  The ring is shown to implement
    the set of the sequence numbers accepted so far. *)
From S2P Require Import Prelude Memory Chunk Crypto.
From stdpp Require Import base numbers list option gmap sets.
From Stdlib Require Import Lia ZArith.
Local Open Scope Z_scope.

Definition ESP_DEFAULT_WINDOW_SIZE : Z := 128.
Definition CHAR_BIT : Z := 8.

Record esp_context (A : Type) := EspContext {
  aead : A;                (* AEAD wrapper or method *)
  last_seqno : Z;          (* highest verified seqno, or last assigned one *)
  seqno_index : Z;         (* bit in the window of the highest seqno *)
  window_size : Z;         (* size of the anti-replay window in bits *)
  window : chunk;          (* the anti-replay window *)
  inbound : bool;
}.
#[global] Arguments EspContext {A} aead last_seqno seqno_index window_size window inbound.
#[global] Arguments aead {A} e.
#[global] Arguments last_seqno {A} e.
#[global] Arguments seqno_index {A} e.
#[global] Arguments window_size {A} e.
#[global] Arguments window {A} e.
#[global] Arguments inbound {A} e.

Section Seqno.
Context {A : Type}.
Abbreviation ctx := (esp_context A).

Definition with_aead (this : ctx) (a : A) : ctx :=
  EspContext a (last_seqno this) (seqno_index this) (window_size this) (window this)
             (inbound this).
Definition with_last (this : ctx) (n : Z) : ctx :=
  EspContext (aead this) n (seqno_index this) (window_size this) (window this) (inbound this).
Definition with_index (this : ctx) (i : Z) : ctx :=
  EspContext (aead this) (last_seqno this) i (window_size this) (window this) (inbound this).
Definition with_window (this : ctx) (w : chunk) : ctx :=
  EspContext (aead this) (last_seqno this) (seqno_index this) (window_size this) w
             (inbound this).

Definition set_window_bit (this : ctx) (index : Z) (set : bool) : ctx :=
  let i := Z.to_nat (index / CHAR_BIT) in
  let bit := Z.shiftl 1 (index mod CHAR_BIT) in
  with_window this
    (alter (fun b => if set then u8 (Z.lor b bit) else u8 (Z.land b (Z.lnot bit)))
           i (window this)).

Definition get_window_bit (this : ctx) (index : Z) : bool :=
  let i := Z.to_nat (index / CHAR_BIT) in
  negb (Z.land (nth i (window this) 0) (Z.shiftl 1 (index mod CHAR_BIT)) =? 0).

Definition check_window (this : ctx) (seqno : Z) : bool :=
  let offset := u32 (last_seqno this - seqno) in
  let offset := u32 (seqno_index this - offset) mod window_size this in
  negb (get_window_bit this offset).

Definition verify_seqno (this : ctx) (seqno : Z) : bool :=
  if negb (inbound this) then false
  else if last_seqno this <? seqno then true
  else if (0 <? seqno) && (u32 (last_seqno this - seqno) <? window_size this) then
    check_window this seqno
  else false.

Fixpoint shift_window (this : ctx) (shift : nat) : ctx :=
  match shift with
  | O => this
  | S n =>
    let this := with_index this (u32 (seqno_index this + 1) mod window_size this) in
    shift_window (set_window_bit this (seqno_index this) false) n
  end.

Definition set_authenticated_seqno (this : ctx) (seqno : Z) : ctx :=
  if negb (inbound this) then this
  else if last_seqno this <? seqno then
    let shift := u32 (seqno - last_seqno this) in
    let shift := if shift <? window_size this then shift else window_size this in
    let this := shift_window this (Z.to_nat shift) in
    let this := set_window_bit this (seqno_index this) true in
    with_last this seqno
  else
    let i := u32 (last_seqno this - seqno) in
    set_window_bit this (u32 (seqno_index this - i) mod window_size this) true.

Definition get_seqno (this : ctx) : Z := last_seqno this.

Definition next_seqno (this : ctx) : option Z * ctx :=
  if inbound this || (last_seqno this =? UINT32_MAX) then (None, this)
  else let n := u32 (last_seqno this + 1) in (Some n, with_last this n).
End Seqno.

(** ** Creation *)

(** The crypto factory [lib->crypto]: which algorithms can be instantiated. *)
Record crypto_factory (P C S R : Type) := CryptoFactory {
  create_aead_alg : encryption_algorithm_t -> nat -> nat -> option P;
  create_crypter : encryption_algorithm_t -> nat -> option C;
  create_signer : Z -> option S;
  rng_weak : option R;
  rng_strong : option R;
}.
#[global] Arguments create_aead_alg {P C S R} c.
#[global] Arguments create_crypter {P C S R} c.
#[global] Arguments create_signer {P C S R} c.
#[global] Arguments rng_weak {P C S R} c.
#[global] Arguments rng_strong {P C S R} c.

Section Create.
Context {P C S R : Type} `{Aead P} `{Crypter C} `{Signer S} `{Rng R}.

(** Behind [aead_t] is either an AEAD of a plugin or the wrapper of [aead.c]. *)
Definition esp_aead : Type := P + AeadWrapper.private_aead C S R.

#[global] Instance esp_aead_aead : Aead esp_aead := {
  aead_encrypt := fun a p d iv => match a with
    | inl x => let '(r, x) := aead_encrypt x p d iv in (r, inl x)
    | inr x => let '(r, x) := aead_encrypt x p d iv in (r, inr x) end;
  aead_decrypt := fun a p d iv => match a with
    | inl x => let '(r, x) := aead_decrypt x p d iv in (r, inl x)
    | inr x => let '(r, x) := aead_decrypt x p d iv in (r, inr x) end;
  aead_block_size := fun a => match a with
    | inl x => aead_block_size x | inr x => aead_block_size x end;
  aead_icv_size := fun a => match a with
    | inl x => aead_icv_size x | inr x => aead_icv_size x end;
  aead_iv_size := fun a => match a with
    | inl x => aead_iv_size x | inr x => aead_iv_size x end;
  aead_has_iv_gen := fun a => match a with
    | inl x => aead_has_iv_gen x | inr x => aead_has_iv_gen x end;
  aead_get_iv := fun a q n => match a with
    | inl x => let '(r, x) := aead_get_iv x q n in (r, inl x)
    | inr x => let '(r, x) := aead_get_iv x q n in (r, inr x) end;
  aead_set_key := fun a k => match a with
    | inl x => let '(r, x) := aead_set_key x k in (r, inl x)
    | inr x => let '(r, x) := aead_set_key x k in (r, inr x) end;
}.

Definition aead_salt (alg : encryption_algorithm_t) : nat :=
  match alg with
  | ENCR_AES_GCM_ICV8 | ENCR_AES_GCM_ICV12 | ENCR_AES_GCM_ICV16
  | ENCR_CHACHA20_POLY1305 => 4
  | ENCR_AES_CCM_ICV8 | ENCR_AES_CCM_ICV12 | ENCR_AES_CCM_ICV16
  | ENCR_CAMELLIA_CCM_ICV8 | ENCR_CAMELLIA_CCM_ICV12 | ENCR_CAMELLIA_CCM_ICV16 => 3
  | _ => 0
  end.

(** [key.len - salt] is computed in [size_t]. *)
Definition key_len_without (key : chunk) (salt : nat) : nat :=
  Z.to_nat (u64 (Z.of_nat (length key) - Z.of_nat salt)).

Definition create_aead (f : crypto_factory P C S R) (alg : encryption_algorithm_t)
    (key : chunk) : option P :=
  let salt := aead_salt alg in
  let a := if (salt =? 0)%nat then None
           else create_aead_alg f alg (key_len_without key salt) salt in
  match a with
  | None => None
  | Some a => match aead_set_key a key with
              | (true, a) => Some a
              | (false, _) => None
              end
  end.

Definition create_traditional (f : crypto_factory P C S R) (enc_alg : encryption_algorithm_t)
    (enc_key : chunk) (int_alg : Z) (int_key : chunk)
    : option (AeadWrapper.private_aead C S R) :=
  crypter ← match enc_alg with
            | ENCR_AES_CTR | ENCR_CAMELLIA_CTR =>
              create_crypter f enc_alg (key_len_without enc_key 4)
            | _ => create_crypter f enc_alg (length enc_key)
            end;
  crypter ← match crypter_set_key crypter enc_key with
            | (true, c) => Some c | (false, _) => None end;
  signer ← create_signer f int_alg;
  signer ← match signer_set_key signer int_key with
           | (true, s) => Some s | (false, _) => None end;
  ivg ← Iv.iv_gen_create_for_alg (rng_weak f) (rng_strong f) enc_alg;
  Some (AeadWrapper.aead_create crypter signer ivg).

Definition esp_context_create (f : crypto_factory P C S R) (enc_alg : encryption_algorithm_t)
    (enc_key : chunk) (int_alg : Z) (int_key : chunk) (inbound : bool)
    : option (esp_context esp_aead) :=
  aead ← if encryption_algorithm_is_aead enc_alg
         then inl <$> create_aead f enc_alg enc_key
         else inr <$> create_traditional f enc_alg enc_key int_alg int_key;
  let size := ESP_DEFAULT_WINDOW_SIZE in
  Some (EspContext aead 0 0 size
          (if inbound then replicate (Z.to_nat (size / CHAR_BIT + 1)) 0 else []) inbound).
End Create.
#[global] Arguments esp_aead : clear implicits.

(** ** The window as a set of sequence numbers *)
Section Window.
Context {A : Type}.
Abbreviation ctx := (esp_context A).

(** The invariant of an inbound context.  That the window size divides 2^32 is
    what makes the wrapping subtraction of [check_window] right. *)
Definition ctx_ok (c : ctx) : Prop :=
  inbound c = true /\ 0 < window_size c < 2 ^ 31 /\ (window_size c | 2 ^ 32) /\
  0 <= seqno_index c < window_size c /\ 0 <= last_seqno c < 2 ^ 32 /\
  window_size c <= 8 * Z.of_nat (length (window c)) /\ bytes_ok (window c).

Lemma get_window_bit_test (c : ctx) i :
  0 <= i -> get_window_bit c i = Z.testbit (nth (Z.to_nat (i / 8)) (window c) 0) (i mod 8).
Proof.
  intros Hi. unfold get_window_bit, CHAR_BIT. pose proof (Z.mod_pos_bound i 8 ltac:(lia)).
  set (b := nth _ _ _). set (k := i mod 8) in *.
  rewrite Z.shiftl_mul_pow2, Z.mul_1_l by lia.
  destruct (Z.testbit b k) eqn:E.
  - destruct (Z.eqb_spec (Z.land b (2 ^ k)) 0) as [H0|]; [|done].
    apply (f_equal (fun z => Z.testbit z k)) in H0.
    rewrite Z.land_spec, E, Z.pow2_bits_true, Z.bits_0 in H0 by lia. done.
  - replace (Z.land b (2 ^ k)) with 0; [done|]. symmetry. apply Z.bits_inj'. intros j Hj.
    rewrite Z.land_spec, Z.pow2_bits_eqb, Z.bits_0 by lia.
    destruct (Z.eqb_spec k j) as [<-|]; [by rewrite E|apply andb_false_r].
Qed.

(** Setting a bit changes that bit only. *)
Lemma get_set_window_bit (c : ctx) i j v :
  0 <= i < 8 * Z.of_nat (length (window c)) -> 0 <= j ->
  get_window_bit (set_window_bit c i v) j = if j =? i then v else get_window_bit c j.
Proof.
  intros Hi Hj. rewrite !get_window_bit_test by done. unfold set_window_bit; cbn [window with_window].
  pose proof (Z.mod_pos_bound i 8 ltac:(lia)). pose proof (Z.mod_pos_bound j 8 ltac:(lia)).
  pose proof (Z.div_mod i 8 ltac:(lia)). pose proof (Z.div_mod j 8 ltac:(lia)).
  unfold CHAR_BIT. rewrite nth_alter by lia.
  destruct (Nat.eqb_spec (Z.to_nat (j / 8)) (Z.to_nat (i / 8))) as [E|E].
  2:{ by replace (j =? i) with false by lia. }
  assert (j / 8 = i / 8) by lia. rewrite Z.shiftl_mul_pow2, Z.mul_1_l by lia.
  unfold uwrap. destruct v.
  - rewrite Z.mod_pow2_bits_low, Z.lor_spec, Z.pow2_bits_eqb by lia.
    destruct (Z.eqb_spec j i) as [->|].
    + rewrite Z.eqb_refl. apply orb_true_r.
    + replace (i mod 8 =? j mod 8) with false by lia. apply orb_false_r.
  - rewrite Z.mod_pow2_bits_low, Z.land_spec, Z.lnot_spec, Z.pow2_bits_eqb by lia.
    destruct (Z.eqb_spec j i) as [->|].
    + rewrite Z.eqb_refl. apply andb_false_r.
    + replace (i mod 8 =? j mod 8) with false by lia. apply andb_true_r.
Qed.

Lemma set_window_bit_ok (c : ctx) i v : ctx_ok c -> ctx_ok (set_window_bit c i v).
Proof.
  intros (Hin & Hw & Hd & Hx & Hl & Hlen & Hb).
  unfold ctx_ok, set_window_bit; cbn [inbound window_size seqno_index last_seqno window with_window].
  rewrite length_alter. split_and!; try done; try lia.
  apply alter_bytes; [|done]. intros b _. destruct v; apply byte_ok_u8.
Qed.

(** The bit for the sequence number [o] below the highest one. *)
Definition bit_at (c : ctx) (o : Z) : bool :=
  get_window_bit c ((seqno_index c - o) mod window_size c).

Lemma check_window_bit (c : ctx) seqno :
  ctx_ok c -> 0 <= seqno <= last_seqno c ->
  check_window c seqno = negb (bit_at c (last_seqno c - seqno)).
Proof.
  intros (_ & Hw & Hd & Hx & Hl & _) Hs. unfold check_window, bit_at.
  rewrite (uwrap_small 32 (last_seqno c - seqno)) by lia. unfold uwrap.
  by rewrite Z.mod_mod_divide.
Qed.

Lemma ring_eq x a b W :
  0 < W -> 0 <= a < W -> 0 <= b < W -> (x - a) mod W = (x - b) mod W -> a = b.
Proof.
  intros HW Ha Hb E.
  assert ((b - a) mod W = 0) as E0.
  { replace (b - a) with ((x - a) - (x - b)) by lia.
    rewrite Zminus_mod, E, Z.sub_diag. by apply Z.mod_0_l; lia. }
  apply Z.mod_divide in E0 as [k Hk]; [|lia]. assert (k = 0) by nia. lia.
Qed.

(** Marking the bit of one offset. *)
Lemma bit_at_set (c : ctx) o p v :
  ctx_ok c -> 0 <= o < window_size c -> 0 <= p < window_size c ->
  bit_at (set_window_bit c ((seqno_index c - o) mod window_size c) v) p
  = if p =? o then v else bit_at c p.
Proof.
  intros (_ & Hw & Hd & Hx & Hl & Hlen & _) Ho Hp. unfold bit_at.
  change (seqno_index (set_window_bit c _ v)) with (seqno_index c).
  change (window_size (set_window_bit c _ v)) with (window_size c).
  pose proof (Z.mod_pos_bound (seqno_index c - o) (window_size c) ltac:(lia)).
  pose proof (Z.mod_pos_bound (seqno_index c - p) (window_size c) ltac:(lia)).
  rewrite get_set_window_bit by lia.
  destruct (Z.eqb_spec p o) as [->|Hne]; [by rewrite Z.eqb_refl|].
  destruct (Z.eqb_spec ((seqno_index c - p) mod window_size c)
                       ((seqno_index c - o) mod window_size c)) as [E|]; [|done].
  apply ring_eq in E; lia.
Qed.

(** One step of the shift: the window moves by one and its new bit is clear. *)
Lemma shift_step (c : ctx) (c' := with_index c (u32 (seqno_index c + 1) mod window_size c)) :
  ctx_ok c ->
  let s := set_window_bit c' (seqno_index c') false in
  ctx_ok s /\ (forall o, 0 <= o < window_size c ->
                 bit_at s o = if o =? 0 then false else bit_at c (o - 1)).
Proof.
  intros Hok s. pose proof Hok as (Hin & Hw & Hd & Hx & Hl & Hlen & Hb).
  assert (Hidx : seqno_index c' = (seqno_index c + 1) mod window_size c).
  { cbn. unfold uwrap. by rewrite Z.mod_mod_divide. }
  pose proof (Z.mod_pos_bound (seqno_index c + 1) (window_size c) ltac:(lia)) as Hr.
  assert (Hok' : ctx_ok c').
  { unfold ctx_ok in *. rewrite Hidx. unfold c'.
    cbn [inbound window_size last_seqno window with_index]. split_and!; try done; lia. }
  split; [by apply set_window_bit_ok|]. intros o Ho. unfold s.
  pose proof (bit_at_set c' 0 o false Hok') as Hset.
  change (window_size c') with (window_size c) in Hset.
  rewrite Z.sub_0_r, (Z.mod_small (seqno_index c')) in Hset by (rewrite Hidx; lia).
  rewrite Hset by lia. destruct (Z.eqb_spec o 0); [done|]. unfold bit_at.
  change (window_size c') with (window_size c).
  change (get_window_bit c') with (get_window_bit c). rewrite Hidx. f_equal.
  rewrite Zminus_mod_idemp_l. f_equal. lia.
Qed.

Lemma shift_window_spec k (c : ctx) :
  ctx_ok c -> let s := shift_window c k in
  ctx_ok s /\ last_seqno s = last_seqno c /\ window_size s = window_size c /\
  (forall o, 0 <= o < window_size c ->
     bit_at s o = if o <? Z.of_nat k then false else bit_at c (o - Z.of_nat k)).
Proof.
  revert c. induction k as [|k IH]; intros c Hok; cbn [shift_window].
  { split_and!; try done. intros o Ho. replace (o <? Z.of_nat 0) with false by lia.
    f_equal. lia. }
  destruct (shift_step c Hok) as [Hok' Hbits].
  set (c' := set_window_bit _ _ false) in *.
  destruct (IH c' Hok') as (Hok2 & Hl & Hw & Hb). split_and!; try done.
  intros o Ho. rewrite Hb by done. change (window_size c') with (window_size c) in *.
  destruct (Z.ltb_spec o (Z.of_nat k)).
  { by replace (o <? Z.of_nat (S k)) with true by lia. }
  rewrite Hbits by lia.
  destruct (Z.eqb_spec (o - Z.of_nat k) 0).
  - by replace (o <? Z.of_nat (S k)) with true by lia.
  - replace (o <? Z.of_nat (S k)) with false by lia. f_equal. lia.
Qed.
End Window.

(** ** Abstract anti-replay service and refinement *)

(** The contract: the highest sequence number and the set of all accepted
    ones. *)
Record replay := Replay { highest : Z; seen : gset Z }.

Definition replay_init : replay := Replay 0 ∅.
Definition replay_fresh (size : Z) (r : replay) (n : Z) : bool :=
  (highest r <? n)
  || ((0 <? n) && (highest r - n <? size) && bool_decide (n ∉ seen r)).
Definition replay_accept (r : replay) (n : Z) : replay :=
  Replay (Z.max (highest r) n) ({[n]} ∪ seen r).

Section Refinement.
Context {A : Type}.
Abbreviation ctx := (esp_context A).

Definition refines (c : ctx) (r : replay) : Prop :=
  ctx_ok c /\ last_seqno c = highest r /\
  (forall x, x ∈ seen r -> 0 < x <= highest r) /\
  (forall o, 0 <= o < window_size c -> bit_at c o = bool_decide (highest r - o ∈ seen r)).

(** [verify_seqno] decides what the contract says. *)
Lemma verify_refines (c : ctx) r n :
  refines c r -> 0 <= n < 2 ^ 32 -> verify_seqno c n = replay_fresh (window_size c) r n.
Proof.
  intros (Hok & Hl & Hs & Hb) Hn. pose proof Hok as (Hin & Hw & _ & _ & Hlr & _).
  unfold verify_seqno, replay_fresh. rewrite Hin, <- Hl. cbn [negb].
  destruct (Z.ltb_spec (last_seqno c) n) as [|Hle]; [done|]. cbn [orb].
  rewrite uwrap_small by lia.
  destruct (Z.ltb_spec 0 n); [|done]. destruct (Z.ltb_spec (last_seqno c - n) (window_size c)); [|done].
  cbn [andb]. rewrite check_window_bit by (done || lia). rewrite Hb by lia.
  rewrite <- bool_decide_not. apply bool_decide_ext. rewrite Hl.
  by replace (highest r - (highest r - n)) with n by lia.
Qed.

Lemma accept_new (c : ctx) r n :
  refines c r -> highest r < n < 2 ^ 32 -> refines (set_authenticated_seqno c n) (replay_accept r n).
Proof.
  intros (Hok & Hl & Hs & Hb) Hn. pose proof Hok as (Hin & Hw & _ & _ & Hlr & _).
  unfold set_authenticated_seqno. rewrite Hin. cbn [negb].
  rewrite (proj2 (Z.ltb_lt _ _)) by lia. rewrite uwrap_small by lia.
  set (k := if n - last_seqno c <? window_size c then _ else _).
  assert (Hk : 0 < k <= window_size c /\ (k < window_size c -> k = n - highest r) /\
               (k = window_size c -> window_size c <= n - highest r)).
  { unfold k. destruct (Z.ltb_spec (n - last_seqno c) (window_size c)); lia. }
  clearbody k. destruct Hk as (Hk1 & Hk2 & Hk3).
  destruct (shift_window_spec (Z.to_nat k) c Hok) as (Hok' & Hl' & Hw' & Hb').
  set (s := shift_window c (Z.to_nat k)) in *. rewrite Z2Nat.id in Hb' by lia.
  pose proof Hok' as (_ & _ & _ & Hx' & _).
  assert (forall p, 0 <= p < window_size c ->
    bit_at (set_window_bit s (seqno_index s) true) p = if p =? 0 then true else bit_at s p) as Hset.
  { intros p Hp. pose proof (bit_at_set s 0 p true Hok' ltac:(lia) ltac:(lia)) as E.
    by rewrite Z.sub_0_r, Z.mod_small in E by lia. }
  split_and!.
  - destruct (set_window_bit_ok s (seqno_index s) true Hok') as (?&?&?&?&?&?&?).
    unfold ctx_ok; cbn in *. split_and!; try done; lia.
  - cbn. lia.
  - cbn. intros x [->%elem_of_singleton|Hx]%elem_of_union; [lia|]. specialize (Hs x Hx). lia.
  - intros o Ho. change (window_size _) with (window_size s) in Ho. rewrite Hw' in Ho.
    change (bit_at (with_last (set_window_bit s (seqno_index s) true) n) o)
      with (bit_at (set_window_bit s (seqno_index s) true) o).
    rewrite Hset, Hb' by done. cbn. rewrite Z.max_r by lia.
    destruct (Z.eqb_spec o 0) as [->|].
    { symmetry. apply bool_decide_eq_true. rewrite Z.sub_0_r.
      by apply elem_of_union_l, elem_of_singleton. }
    destruct (Z.ltb_spec o k) as [Hok1|Hok1].
    + symmetry. apply bool_decide_eq_false. intros [E%elem_of_singleton|Hx]%elem_of_union; [lia|].
      specialize (Hs _ Hx). lia.
    + rewrite Hb by lia. apply bool_decide_ext.
      replace (highest r - (o - k)) with (n - o) by lia.
      rewrite elem_of_union, elem_of_singleton. split; [auto|]. intros [?|?]; [lia|done].
Qed.

Lemma accept_old (c : ctx) r n :
  refines c r -> 0 < n <= highest r -> highest r - n < window_size c ->
  refines (set_authenticated_seqno c n) (replay_accept r n).
Proof.
  intros (Hok & Hl & Hs & Hb) Hn Hwin. pose proof Hok as (Hin & Hw & Hd & _ & Hlr & _).
  unfold set_authenticated_seqno. rewrite Hin. cbn [negb].
  rewrite (proj2 (Z.ltb_ge _ _)) by lia. rewrite (uwrap_small 32 (last_seqno c - n)) by lia.
  unfold uwrap. rewrite Z.mod_mod_divide by done.
  split_and!.
  - by apply set_window_bit_ok.
  - cbn. lia.
  - cbn. intros x [->%elem_of_singleton|Hx]%elem_of_union; [lia|]. specialize (Hs x Hx). lia.
  - intros o Ho. change (window_size _) with (window_size c) in Ho.
    rewrite bit_at_set by (done || lia). cbn. rewrite Z.max_l by lia.
    destruct (Z.eqb_spec o (last_seqno c - n)) as [->|].
    + symmetry. apply bool_decide_eq_true.
      replace (highest r - (last_seqno c - n)) with n by lia.
      by apply elem_of_union_l, elem_of_singleton.
    + rewrite Hb by done. apply bool_decide_ext.
      rewrite elem_of_union, elem_of_singleton. split; [auto|]. intros [?|?]; [lia|done].
Qed.

Lemma accept_refines (c : ctx) r n :
  refines c r -> 0 <= n < 2 ^ 32 -> verify_seqno c n = true ->
  refines (set_authenticated_seqno c n) (replay_accept r n).
Proof.
  intros Hr Hn Hv. pose proof Hv as Hv'. rewrite (verify_refines c r n Hr Hn) in Hv'.
  unfold replay_fresh in Hv'. destruct (Z.ltb_spec (highest r) n).
  - apply accept_new; [done|lia].
  - apply accept_old; [done|lia|lia].
Qed.

Lemma set_auth_size (c : ctx) n : window_size (set_authenticated_seqno c n) = window_size c.
Proof.
  assert (forall k (c : ctx), window_size (shift_window c k) = window_size c) as Hsh.
  { induction k as [|k IH]; intros c'; [done|]. cbn [shift_window]. by rewrite IH. }
  unfold set_authenticated_seqno. destruct (negb _); [done|].
  destruct (_ <? _); cbn; [apply Hsh|done].
Qed.

Lemma set_auth_aead (c : ctx) n : aead (set_authenticated_seqno c n) = aead c.
Proof.
  assert (forall k (c : ctx), aead (shift_window c k) = aead c) as Hsh.
  { induction k as [|k IH]; intros c'; [done|]. cbn [shift_window]. by rewrite IH. }
  unfold set_authenticated_seqno. destruct (negb _); [done|].
  destruct (_ <? _); cbn; [apply Hsh|done].
Qed.

(** Receiving a packet that authenticates: check, then mark. *)
Definition receive (c : ctx) (n : Z) : bool * ctx :=
  if verify_seqno c n then (true, set_authenticated_seqno c n) else (false, c).

Fixpoint receive_all (c : ctx) (ns : list Z) : list bool * ctx :=
  match ns with
  | [] => ([], c)
  | n :: ns => let '(b, c) := receive c n in
               let '(bs, c) := receive_all c ns in (b :: bs, c)
  end.

Definition replay_receive (size : Z) (r : replay) (n : Z) : bool * replay :=
  if replay_fresh size r n then (true, replay_accept r n) else (false, r).

Fixpoint replay_receive_all (size : Z) (r : replay) (ns : list Z) : list bool * replay :=
  match ns with
  | [] => ([], r)
  | n :: ns => let '(b, r) := replay_receive size r n in
               let '(bs, r) := replay_receive_all size r ns in (b :: bs, r)
  end.

Lemma receive_refines (c : ctx) r n :
  refines c r -> 0 <= n < 2 ^ 32 ->
  let '(b, c') := receive c n in
  let '(b', r') := replay_receive (window_size c) r n in
  b = b' /\ refines c' r' /\ window_size c' = window_size c.
Proof.
  intros Hr Hn. unfold receive, replay_receive.
  pose proof (verify_refines c r n Hr Hn) as Hv. rewrite <- Hv.
  destruct (verify_seqno c n) eqn:E; [|done].
  split_and!; [done|by apply accept_refines|apply set_auth_size].
Qed.

Lemma receive_all_refines ns (c : ctx) r :
  refines c r -> Forall (fun n => 0 <= n < 2 ^ 32) ns ->
  fst (receive_all c ns) = fst (replay_receive_all (window_size c) r ns) /\
  refines (snd (receive_all c ns)) (snd (replay_receive_all (window_size c) r ns)).
Proof.
  intros Hr Hns. revert c r Hr. induction Hns as [|n ns Hn Hns IH]; intros c r Hr; [done|].
  cbn [receive_all replay_receive_all]. pose proof (receive_refines c r n Hr Hn) as H.
  destruct (receive c n) as [b c'], (replay_receive (window_size c) r n) as [b' r'].
  destruct H as (<- & Hr' & Hw). destruct (IH c' r' Hr') as [E1 E2]. rewrite Hw in *.
  destruct (receive_all c' ns), (replay_receive_all (window_size c) r' ns).
  simpl in *. by rewrite E1.
Qed.
End Refinement.

(** ** From creation on *)
Section History.
Context {P C S R : Type} `{Aead P} `{Crypter C} `{Signer S} `{Rng R}.
Abbreviation ctx := (esp_context (esp_aead P C S R)).

Lemma create_fields (f : crypto_factory P C S R) ea ek ia ik inb (c : ctx) :
  esp_context_create f ea ek ia ik inb = Some c ->
  inbound c = inb /\ last_seqno c = 0 /\ seqno_index c = 0 /\ window_size c = 128 /\
  window c = (if inb then replicate 17 0 else []).
Proof.
  unfold esp_context_create. destruct (encryption_algorithm_is_aead ea).
  - destruct (create_aead f ea ek); [|done]. by intros [= <-].
  - destruct (create_traditional f ea ek ia ik); [|done]. by intros [= <-].
Qed.

Lemma create_refines (f : crypto_factory P C S R) ea ek ia ik (c : ctx) :
  esp_context_create f ea ek ia ik true = Some c ->
  refines c replay_init /\ window_size c = ESP_DEFAULT_WINDOW_SIZE.
Proof.
  intros Hc. destruct (create_fields _ _ _ _ _ _ _ Hc) as (Hi & Hl & Hx & Hw & Hwin).
  split; [|done]. split_and!.
  - unfold ctx_ok. rewrite Hi, Hl, Hx, Hw, Hwin. split_and!; try done; try lia.
    + by exists 33554432.
    + bytes.
  - done.
  - cbn. intros x Hx'. by apply elem_of_empty in Hx'.
  - intros o Ho. unfold bit_at. rewrite get_window_bit_test.
    2:{ apply Z.mod_pos_bound. lia. }
    rewrite Hwin, Hx, Hw in *.
    pose proof (Z.mod_pos_bound (0 - o) 128 ltac:(lia)).
    rewrite nth_rep, Z.bits_0.
    + symmetry. apply bool_decide_eq_false. cbn. apply not_elem_of_empty.
    + apply Nat2Z.inj_lt. rewrite Z2Nat.id by (apply Z.div_pos; lia).
      apply Z.div_lt_upper_bound; lia.
Qed.
End History.

(** The sequence numbers a context accepts out of those it receives. *)
Fixpoint accepted {A} (c : esp_context A) (ns : list Z) : list Z :=
  match ns with
  | [] => []
  | n :: ns => let '(b, c) := receive c n in (if b then [n] else []) ++ accepted c ns
  end.

Lemma accepted_seen {A} ns (c : esp_context A) r :
  refines c r -> Forall (fun n => 0 <= n < 2 ^ 32) ns ->
  NoDup (accepted c ns) /\ (forall x, x ∈ accepted c ns -> x ∉ seen r) /\
  let c' := snd (receive_all c ns) in
  refines c' (Replay (fold_right Z.max (highest r) (accepted c ns))
                     (list_to_set (accepted c ns) ∪ seen r)) /\
  window_size c' = window_size c.
Proof.
  intros Hr Hns. revert c r Hr. induction Hns as [|n ns Hn Hns IH]; intros c r Hr.
  { cbn. split_and!; [constructor|by intros x ?%not_elem_of_nil| |done].
    rewrite union_empty_l_L. by destruct r. }
  cbn [accepted receive_all]. pose proof (receive_refines c r n Hr Hn) as Hrec.
  unfold receive, replay_receive in *.
  pose proof (verify_refines c r n Hr Hn) as Hv. rewrite <- Hv in Hrec.
  destruct (verify_seqno c n) eqn:E.
  - destruct Hrec as (_ & Hr' & Hw). destruct (IH _ _ Hr') as (Hnd & Hnew & Hfin & Hw').
    set (c1 := set_authenticated_seqno c n) in *.
    destruct (receive_all c1 ns) as [bs c2] eqn:Er. cbn [snd app fold_right] in *.
    assert (Hfresh : n ∉ seen r).
    { destruct Hr as (_ & _ & Hs & _). intros Hin. specialize (Hs n Hin).
      unfold replay_fresh in Hv. replace (highest r <? n) with false in Hv by lia.
      rewrite bool_decide_false in Hv by auto. by rewrite andb_false_r in Hv. }
    split_and!.
    + constructor; [|done]. intros Hin. apply (Hnew n Hin). cbn.
      by apply elem_of_union_l, elem_of_singleton.
    + intros x [->|Hin]%elem_of_cons; [done|]. specialize (Hnew x Hin). cbn in Hnew.
      intros Hx. apply Hnew. by apply elem_of_union_r.
    + eapply eq_ind; [exact Hfin|]. cbn [highest seen replay_accept]. f_equal.
      * generalize (accepted c1 ns) as l. intros l. induction l as [|y l IHl]; cbn; lia.
      * rewrite list_to_set_cons. by rewrite (union_assoc_L _ {[n]}), (union_comm_L _ {[n]}).
    + by rewrite Hw'.
  - destruct (IH c r Hr) as (Hnd & Hnew & Hfin & Hw').
    by destruct (receive_all c ns) as [bs c2] eqn:Er.
Qed.

(** ** The AEAD of a context *)
Section EspAeadLaws.
Context {P C S R : Type} `{AeadLaws P} `{CrypterLaws C} `{SignerLaws S} `{RngLaws R}.
Abbreviation esp := (esp_aead P C S R).

(** Two objects are ends of one association if they are of the same kind and
    agree on their keys. *)
Definition tag_view (tag : Z) (v : aead_view) : aead_view :=
  AeadView (av_block v) (av_icv v) (av_iv v) (tag :: fst (av_key v), snd (av_key v)).

Definition esp_view (a : esp) : option aead_view :=
  match a with
  | inl x => tag_view 0 <$> ae_view x
  | inr x => tag_view 1 <$> ae_view x
  end.

Lemma tag_view_inj t v w : tag_view t v = tag_view t w -> v = w.
Proof. destruct v as [? ? ? [? ?]], w as [? ? ? [? ?]]. unfold tag_view. cbn. congruence. Qed.

Lemma esp_view_inv (a : esp) v :
  esp_view a = Some v ->
  (exists x w, a = inl x /\ ae_view x = Some w /\ v = tag_view 0 w) \/
  (exists x w, a = inr x /\ ae_view x = Some w /\ v = tag_view 1 w).
Proof.
  destruct a as [x|x]; cbn; intros (w & Hx & ->)%fmap_Some; [left|right]; by eexists _, _.
Qed.

#[local] Obligation Tactic := idtac.
#[global] Program Instance esp_aead_laws : AeadLaws esp := { ae_view := esp_view }.
Next Obligation.
  intros a v [(x & w & -> & Hx & ->)|(x & w & -> & Hx & ->)]%esp_view_inv;
    exact (ae_sizes x w Hx).
Qed.
Next Obligation.
  intros a b v plain assoc iv Ha Hb Hp Hi Hl Hd.
  apply esp_view_inv in Ha as [(x & w & -> & Hx & ->)|(x & w & -> & Hx & ->)];
  apply esp_view_inv in Hb as [(y & w' & -> & Hy & E)|(y & w' & -> & Hy & E)];
    try (by discriminate E); apply tag_view_inj in E as <-.
  - destruct (ae_inverse x y w plain assoc iv Hx Hy Hp Hi Hl Hd)
      as (enc & a' & b' & Ee & Va & Hb & Hlen & Ed & Vb).
    exists enc, (inl a'), (inl b'). cbn. rewrite Ee, Ed, Va, Vb. done.
  - destruct (ae_inverse x y w plain assoc iv Hx Hy Hp Hi Hl Hd)
      as (enc & a' & b' & Ee & Va & Hb & Hlen & Ed & Vb).
    exists enc, (inr a'), (inr b').
    cbn [aead_encrypt aead_decrypt esp_aead_aead esp_view] in *. rewrite Ee, Ed.
    cbn [esp_view]. rewrite Va, Vb. done.
Qed.
Next Obligation.
  intros a v enc assoc iv [(x & w & -> & Hx & ->)|(x & w & -> & Hx & ->)]%esp_view_inv;
    pose proof (ae_decrypt_view x w enc assoc iv Hx) as E;
    cbn [aead_decrypt esp_aead_aead]; destruct (aead_decrypt x enc assoc iv) as [r y];
    cbn [snd esp_view] in *; by rewrite E.
Qed.
Next Obligation.
  intros a v enc assoc iv plain [(x & w & -> & Hx & ->)|(x & w & -> & Hx & ->)]%esp_view_inv Hb;
    pose proof (ae_decrypt_ok x w enc assoc iv plain Hx Hb) as E;
    cbn [aead_decrypt esp_aead_aead]; by destruct (aead_decrypt x enc assoc iv) as [r y].
Qed.
Next Obligation.
  intros a v seq n [(x & w & -> & Hx & ->)|(x & w & -> & Hx & ->)]%esp_view_inv;
    pose proof (ae_get_iv_view x w seq n Hx) as E;
    cbn [aead_get_iv esp_aead_aead]; destruct (aead_get_iv x seq n) as [r y];
    cbn [snd esp_view] in *; by rewrite E.
Qed.
Next Obligation.
  intros a v seq n iv a' [(x & w & -> & Hx & ->)|(x & w & -> & Hx & ->)]%esp_view_inv;
    cbn [aead_get_iv esp_aead_aead]; destruct (aead_get_iv x seq n) as [r y] eqn:E;
    intros [= -> <-]; exact (ae_get_iv_length x w seq n iv y Hx E).
Qed.
End EspAeadLaws.

(** ** Properties *)

(** The answers of [next_seqno] over [k] calls. *)
Fixpoint assign {A} (c : esp_context A) (k : nat) : list (option Z) :=
  match k with
  | O => []
  | S k => let '(r, c) := next_seqno c in r :: assign c k
  end.

Lemma assign_from {A} k (c : esp_context A) j :
  inbound c = false -> last_seqno c = Z.min (Z.of_nat j) UINT32_MAX ->
  assign c k = map (fun i => if Z.of_nat i <? UINT32_MAX then Some (Z.of_nat i + 1) else None)
                   (seq j k).
Proof.
  revert c j. induction k as [|k IH]; intros c j Hi Hl; [done|].
  cbn [assign seq map]. unfold next_seqno. rewrite Hi, Hl. cbn [orb].
  destruct (Z.ltb_spec (Z.of_nat j) UINT32_MAX).
  - replace (Z.min (Z.of_nat j) UINT32_MAX =? UINT32_MAX) with false by lia.
    assert (u32 (Z.min (Z.of_nat j) UINT32_MAX + 1) = Z.of_nat j + 1) as ->
      by (rewrite uwrap_small; unfold UINT32_MAX in *; lia).
    f_equal. apply IH; [done|]. cbn. lia.
  - replace (Z.min (Z.of_nat j) UINT32_MAX =? UINT32_MAX) with true by lia.
    f_equal. apply IH; [done|lia].
Qed.

Section Properties.
Context {P C S R : Type} `{Aead P} `{Crypter C} `{Signer S} `{Rng R}.

(** C10: A new inbound context, fed with any sequence of received sequence
    numbers, accepts exactly those that the abstract anti-replay service over
    the set of accepted numbers accepts: the ring of bits refines the set. *)
Theorem replay_window_refines (f : crypto_factory P C S R) (ea : encryption_algorithm_t)
    (ek ik : chunk) (ia : Z) (c : esp_context (esp_aead P C S R)) (ns : list Z) :
  esp_context_create f ea ek ia ik true = Some c ->
  Forall (fun n => 0 <= n < 2 ^ 32) ns ->
  fst (receive_all c ns)
  = fst (replay_receive_all ESP_DEFAULT_WINDOW_SIZE replay_init ns).
Proof.
  intros Hc Hns. destruct (create_refines _ _ _ _ _ _ Hc) as [Hr <-].
  by apply receive_all_refines.
Qed.

(** No sequence number is ever accepted twice by an inbound context. *)
Theorem no_replay (f : crypto_factory P C S R) (ea : encryption_algorithm_t)
    (ek ik : chunk) (ia : Z) (c : esp_context (esp_aead P C S R)) (ns : list Z) :
  esp_context_create f ea ek ia ik true = Some c ->
  Forall (fun n => 0 <= n < 2 ^ 32) ns -> NoDup (accepted c ns).
Proof.
  intros Hc Hns. destruct (create_refines _ _ _ _ _ _ Hc) as [Hr _].
  by destruct (accepted_seen ns c _ Hr Hns).
Qed.

(** After any history, [verify_seqno] accepts a sequence number exactly when
    it is above the highest accepted one, or is positive, less than the window
    size below the highest one and not accepted before. *)
Theorem verify_seqno_exact (f : crypto_factory P C S R) (ea : encryption_algorithm_t)
    (ek ik : chunk) (ia : Z) (c : esp_context (esp_aead P C S R)) (ns : list Z) (n : Z) :
  esp_context_create f ea ek ia ik true = Some c ->
  Forall (fun n => 0 <= n < 2 ^ 32) ns -> 0 <= n < 2 ^ 32 ->
  let top := fold_right Z.max 0 (accepted c ns) in
  verify_seqno (snd (receive_all c ns)) n
  = (top <? n) || ((0 <? n) && (top - n <? ESP_DEFAULT_WINDOW_SIZE)
                   && bool_decide (n ∉ accepted c ns)).
Proof.
  intros Hc Hns Hn top. destruct (create_refines _ _ _ _ _ _ Hc) as [Hr Hw].
  destruct (accepted_seen ns c _ Hr Hns) as (_ & _ & Hfin & Hw').
  rewrite (verify_refines _ _ n Hfin Hn), Hw', Hw. unfold replay_fresh. cbn [highest seen replay_init].
  fold top. do 2 f_equal. apply bool_decide_ext.
  by rewrite union_empty_r_L, elem_of_list_to_set.
Qed.

(** An outbound context assigns the sequence numbers 1, 2, 3, ... in this
    order and refuses for good after 2^32-1, so it never reuses one. *)
Theorem next_seqno_sequence (f : crypto_factory P C S R) (ea : encryption_algorithm_t)
    (ek ik : chunk) (ia : Z) (c : esp_context (esp_aead P C S R)) (k : nat) :
  esp_context_create f ea ek ia ik false = Some c ->
  assign c k = map (fun i => if Z.of_nat i <? UINT32_MAX then Some (Z.of_nat i + 1) else None)
                   (seq 0 k).
Proof.
  intros Hc. destruct (create_fields _ _ _ _ _ _ _ Hc) as (Hi & Hl & _).
  by apply assign_from.
Qed.
End Properties.

(** *** Witnesses *)

Definition toy_factory : crypto_factory Toy.toy_aead Toy.toy_crypter Toy.toy_signer nat :=
  CryptoFactory _ _ _ _ (fun _ _ _ => None)
    (fun _ n => Some (Toy.ToyCrypter 4 8 (replicate n 0)))
    (fun _ => Some (MacSigner.mac_signer_create Toy.toy_hmac 3))
    (Some 1%nat) (Some 2%nat).

Definition toy_context (inbound : bool)
    : option (esp_context (esp_aead Toy.toy_aead Toy.toy_crypter Toy.toy_signer nat)) :=
  esp_context_create toy_factory ENCR_AES_CTR [1;2;3;4;5;6] 2 [7;8;9] inbound.

Definition toy_history : list Z := [3; 1; 200; 3; 100; 100; 72; 0; 4294967295].
Lemma toy_history_ok : Forall (fun n => 0 <= n < 2 ^ 32) toy_history.
Proof. by apply (bool_decide_unpack _). Defined.

Lemma replay_window_refines_witness :
  exists c, toy_context true = Some c /\
  fst (receive_all c toy_history)
  = fst (replay_receive_all ESP_DEFAULT_WINDOW_SIZE replay_init toy_history).
Proof.
  eexists. split; [reflexivity|].
  apply (replay_window_refines toy_factory ENCR_AES_CTR [1;2;3;4;5;6] [7;8;9] 2);
    [reflexivity|exact toy_history_ok].
Defined.

Lemma no_replay_witness :
  exists c, toy_context true = Some c /\ accepted c toy_history = [3; 1; 200; 100; 4294967295] /\
  NoDup (accepted c toy_history).
Proof.
  eexists. split; [reflexivity|]. split; [vm_compute; reflexivity|].
  apply (no_replay toy_factory ENCR_AES_CTR [1;2;3;4;5;6] [7;8;9] 2);
    [reflexivity|exact toy_history_ok].
Defined.

Lemma verify_seqno_exact_witness :
  exists c, toy_context true = Some c /\
  verify_seqno (snd (receive_all c [3; 1; 200])) 73 = true.
Proof.
  eexists. split; [reflexivity|].
  etransitivity; [apply (verify_seqno_exact toy_factory ENCR_AES_CTR [1;2;3;4;5;6] [7;8;9] 2
    _ [3; 1; 200] 73); [reflexivity|by apply (bool_decide_unpack _)|lia]|].
  vm_compute. reflexivity.
Defined.

Lemma next_seqno_sequence_witness :
  exists c, toy_context false = Some c /\ assign c 3 = [Some 1; Some 2; Some 3].
Proof.
  eexists. split; [reflexivity|].
  apply (next_seqno_sequence toy_factory ENCR_AES_CTR [1;2;3;4;5;6] [7;8;9] 2). reflexivity.
Defined.
