(* ===== verification/IpPacket.v ===== *)
(** IP packets: [src/libipsec/ip_packet.c].  Parsing of IPv4 and IPv6 packets
    with their transport headers, and construction of packets with checksums.
    The C structures are overlaid on the packet; here a field is the bytes at
    its offset. *)
From S2P Require Import Prelude Chunk Host.
From stdpp Require Import base numbers list option.
From Stdlib Require Import Lia ZArith.
Local Open Scope Z_scope.

Definition IPPROTO_TCP : Z := 6.
Definition IPPROTO_UDP : Z := 17.
Definition IP_OFFMASK : Z := 0x1fff.

Definition sizeof_ip : nat := 20.
Definition sizeof_ip6_hdr : nat := 40.
Definition sizeof_udphdr : nat := 8.
Definition sizeof_tcphdr : nat := 20.

Record ip_packet := IpPacket {
  ip_src : host;           (* source address and port *)
  ip_dst : host;           (* destination address and port *)
  ip_encoding : chunk;     (* IP packet *)
  ip_payload : chunk;      (* IP payload (points into packet) *)
  ip_version : Z;          (* IP version *)
  ip_next_header : Z;      (* Protocol|Next Header field *)
}.

(** A one- or two-byte field of a header. *)
Definition field8 (p : chunk) (off : nat) : Z := nth off p 0.
Definition field16 (p : chunk) (off : nat) : Z := le_value (take 2 (drop off p)).

(** ** Parsing *)

(** The ports of a transport header; [None] if it is too short. *)
Definition parse_transport_header (packet : chunk) (proto sport dport : Z)
    : option (Z * Z) :=
  if proto =? IPPROTO_UDP then
    if (length packet <? sizeof_udphdr)%nat then None
    else Some (ntohs (field16 packet 0), ntohs (field16 packet 2))
  else if proto =? IPPROTO_TCP then
    if (length packet <? sizeof_tcphdr)%nat then None
    else Some (ntohs (field16 packet 0), ntohs (field16 packet 2))
  else Some (sport, dport).

(** The extension headers that are skipped. *)
Definition is_ext_header (proto : Z) : bool :=
  (proto =? 44) || (proto =? 0) || (proto =? 43) || (proto =? 60)
  || (proto =? 135) || (proto =? 139) || (proto =? 140).

(** The loop of [parse_transport_header_v6]: payload, next header, ports. *)
Fixpoint skip_ext (fuel : nat) (payload : chunk) (proto : Z) (fragment : bool)
    (sport dport : Z) : option (chunk * Z * Z * Z) :=
  match fuel with
  | O => Some (payload, proto, sport, dport)
  | S f =>
    if (2 <=? length payload)%nat then
      if is_ext_header proto then
        let fragment := if proto =? 44 then true else fragment in
        let len := field8 payload 1 in
        skip_ext f (chunk_skip payload (Z.to_nat (8 * (len + 1)))) (field8 payload 0)
                 fragment sport dport
      else if fragment then Some (payload, proto, sport, dport)
      else '(s, d) ← parse_transport_header payload proto sport dport;
           Some (payload, proto, s, d)
    else Some (payload, proto, sport, dport)
  end.

Definition parse_transport_header_v6 (ip packet : chunk) (sport dport : Z)
    : option (chunk * Z * Z * Z) :=
  let payload := chunk_skip packet 40 in
  skip_ext (S (length payload)) payload (field8 ip 6) false sport dport.

Definition ip_packet_create (packet : chunk) : option ip_packet :=
  if (length packet <? 1)%nat then None
  else
    let ip := packet in
    let version := Z.shiftr (Z.land (field8 packet 0) 0xf0) 4 in
    if version =? 4 then
      if (length packet <? sizeof_ip)%nat then None
      else
        let packet := take (Nat.min (length packet) (Z.to_nat (untoh16 (drop 2 ip)))) packet in
        let payload := chunk_skip packet (Z.to_nat (Z.land (field8 ip 0) 0x0f * 4)) in
        let ip_p := field8 ip 9 in
        '(sport, dport) ←
          (if Z.land (field16 ip 6) (htons IP_OFFMASK) =? 0
           then parse_transport_header payload ip_p 0 0 else Some (0, 0));
        src ← host_create_from_chunk AF_INET (take 4 (drop 12 ip)) sport;
        dst ← host_create_from_chunk AF_INET (take 4 (drop 16 ip)) dport;
        Some (IpPacket src dst packet payload version ip_p)
    else if version =? 6 then
      if (length packet <? sizeof_ip6_hdr)%nat then None
      else
        let packet := take (Nat.min (length packet) (40 + Z.to_nat (untoh16 (drop 4 ip)))) packet in
        '(payload, next_header, sport, dport) ← parse_transport_header_v6 ip packet 0 0;
        src ← host_create_from_chunk AF_INET6 (take 16 (drop 8 ip)) sport;
        dst ← host_create_from_chunk AF_INET6 (take 16 (drop 24 ip)) dport;
        Some (IpPacket src dst packet payload version next_header)
    else None.

Definition ip_packet_clone (this : ip_packet) : option ip_packet :=
  ip_packet_create (ip_encoding this).

(** ** Construction *)

Definition pseudo_header_v4 (src dst : host) (proto : Z) (len : nat) : chunk :=
  take 4 (get_address src) ++ take 4 (get_address dst) ++ [0; proto]
  ++ le_image 2 (htons (u16 (Z.of_nat len))).

(** The 32-bit length field gets the 16-bit value [htons(payload.len)]. *)
Definition pseudo_header_v6 (src dst : host) (proto : Z) (len : nat) : chunk :=
  take 16 (get_address src) ++ take 16 (get_address dst)
  ++ le_image 4 (htons (u16 (Z.of_nat len))) ++ [0; 0; 0; proto].

Definition pseudo_header_checksum (src dst : host) (proto : Z) (payload : chunk) : Z :=
  match get_family src with
  | AF_INET => chunk_internet_checksum (pseudo_header_v4 src dst proto (length payload))
  | AF_INET6 => chunk_internet_checksum (pseudo_header_v6 src dst proto (length payload))
  | _ => 0xffff
  end.

(** The ports are written unless zero, then the checksum at offset [check]. *)
Definition fix_header (src dst : host) (proto : Z) (check : nat) (payload : chunk) : chunk :=
  let sport := get_port src in
  let dport := get_port dst in
  let payload := if negb (sport =? 0) then splice 0 (le_image 2 (htons sport)) payload
                 else payload in
  let payload := if negb (dport =? 0) then splice 2 (le_image 2 (htons dport)) payload
                 else payload in
  let payload := splice check [0; 0] payload in
  let sum := pseudo_header_checksum src dst proto payload in
  splice check (le_image 2 (chunk_internet_checksum_inc payload sum)) payload.

Definition fix_transport_header (src dst : host) (proto : Z) (payload : chunk) : chunk :=
  if proto =? IPPROTO_UDP then
    if (length payload <? sizeof_udphdr)%nat then payload
    else fix_header src dst proto 6 payload
  else if proto =? IPPROTO_TCP then
    if (length payload <? sizeof_tcphdr)%nat then payload
    else fix_header src dst proto 16 payload
  else payload.

(** [struct ip] with everything but the checksum filled in. *)
Definition ip_header (src dst : host) (next_header : Z) (data : chunk) : chunk :=
  [0x45; 0] ++ le_image 2 (htons (u16 (20 + Z.of_nat (length data))))
  ++ [0; 0; 0; 0; 0x80; next_header] ++ [0; 0]
  ++ take 4 (get_address src) ++ take 4 (get_address dst).

(** [struct ip6_hdr]; the flow field is set to [htonl(6)]. *)
Definition ip6_header (src dst : host) (next_header : Z) (data : chunk) : chunk :=
  le_image 4 (htonl 6) ++ le_image 2 (htons (u16 (Z.of_nat (length data))))
  ++ [next_header; 0x80] ++ take 16 (get_address src) ++ take 16 (get_address dst).

(** [fix_transport_header] works on the packet behind the IP header. *)
Definition fix_behind (src dst : host) (next_header : Z) (packet : chunk) (hlen : nat) : chunk :=
  splice hlen (fix_transport_header src dst next_header (chunk_skip packet hlen)) packet.

Definition ip_packet_create_from_data (src dst : host) (next_header : Z) (data : chunk)
    : option ip_packet :=
  if negb (bool_decide (get_family src = get_family dst)) then None
  else match get_family src with
  | AF_INET =>
    let ip := ip_header src dst next_header data in
    let ip := splice 10 (le_image 2 (chunk_internet_checksum ip)) ip in
    ip_packet_create (fix_behind src dst next_header (ip ++ data) 20)
  | AF_INET6 =>
    let ip := ip6_header src dst next_header data in
    ip_packet_create (fix_behind src dst next_header (ip ++ data) 40)
  | _ => None
  end.

Definition ip_packet_create_udp_from_data (src dst : host) (data : chunk) : option ip_packet :=
  let udp := [0; 0; 0; 0] ++ le_image 2 (htons (u16 (8 + Z.of_nat (length data)))) ++ [0; 0] in
  ip_packet_create_from_data src dst IPPROTO_UDP (udp ++ data).

(** ** Lemmas *)

(** The skipping of extension headers terminates: more fuel than bytes gives
    one and the same result. *)
Lemma skip_ext_fuel f1 f2 payload proto fragment sport dport :
  bytes_ok payload -> (length payload < f1)%nat -> (length payload < f2)%nat ->
  skip_ext f1 payload proto fragment sport dport = skip_ext f2 payload proto fragment sport dport.
Proof.
  revert f2 payload proto fragment. induction f1 as [|f1 IH]; intros f2 p proto fragment Hb H1 H2; [lia|].
  destruct f2 as [|f2]; [lia|]. cbn [skip_ext].
  destruct (Nat.leb_spec 2 (length p)); [|done]. destruct (is_ext_header proto); [|done].
  assert (0 <= field8 p 1) as Hl.
  { destruct p as [|x [|y p]]; simpl in *; try lia.
    decompose_Forall_hyps. unfold field8, byte_ok in *. simpl. lia. }
  rewrite chunk_skip_drop. apply IH; [bytes|rewrite length_drop; lia..].
Qed.

Lemma splice_mid (pre x post d : chunk) :
  length d = length x -> splice (length pre) d (pre ++ x ++ post) = pre ++ d ++ post.
Proof.
  intros Hd. unfold splice. rewrite take_app_length. do 2 f_equal.
  rewrite app_assoc, Hd, drop_app_length'; [done|len].
Qed.

(** The port at an offset of a transport header. *)
Definition port_at (p : chunk) (off : nat) : Z := be_value (take 2 (drop off p)).

Lemma field16_port p off :
  bytes_ok p -> (off + 2 <= length p)%nat -> ntohs (field16 p off) = port_at p off.
Proof. intros Hb Hl. apply bswap_le_value; [len|bytes]. Qed.

Lemma port_at_range p off : bytes_ok p -> 0 <= port_at p off < 65536.
Proof.
  intros Hb. unfold port_at.
  assert (bytes_ok (take 2 (drop off p))) as Hb' by bytes.
  pose proof (be_value_range _ Hb') as Hr.
  assert (256 ^ Z.of_nat (length (take 2 (drop off p))) <= 256 ^ 2)
    by (apply Z.pow_le_mono_r; [lia|len]). lia.
Qed.

Lemma le_image_htons v : le_image 2 (htons v) = be_bytes 2 v.
Proof. apply le_image_bswap. Qed.

Lemma le_image_ok n v : length (le_image n v) = n /\ bytes_ok (le_image n v).
Proof.
  unfold le_image. split; [by rewrite length_reverse, length_be_bytes|].
  apply Forall_reverse, be_bytes_ok.
Qed.

(** A header cut at the two ports and the checksum. *)
Lemma header_cut check (p : chunk) :
  (4 <= check)%nat -> (check + 2 <= length p)%nat ->
  exists a b mid c post, p = a ++ b ++ mid ++ c ++ post /\
    length a = 2%nat /\ length b = 2%nat /\ length mid = (check - 4)%nat /\ length c = 2%nat.
Proof.
  intros H4 Hl.
  exists (take 2 p), (take 2 (drop 2 p)), (take (check - 4) (drop 4 p)),
    (take 2 (drop check p)), (drop (check + 2) p).
  split; [|split_and!; len].
  rewrite <- (take_drop 2 p) at 1. f_equal.
  rewrite <- (take_drop 2 (drop 2 p)) at 1. f_equal. rewrite drop_drop.
  rewrite <- (take_drop (check - 4) (drop (2 + 2) p)) at 1. f_equal. rewrite drop_drop.
  replace (2 + 2 + (check - 4))%nat with check by lia.
  rewrite <- (take_drop 2 (drop check p)) at 1. f_equal. by rewrite drop_drop.
Qed.

Lemma word_sum_small l :
  bytes_ok l -> Z.of_nat (length l) <= 65535 -> 131070 + word_sum l < 2 ^ 32.
Proof.
  intros Hb Hl. pose proof (word_sum_bounds l Hb) as Hw.
  assert (Z.of_nat (Nat.div2 (S (length l))) <= 32768).
  { rewrite Nat.div2_div, Nat2Z.inj_div. apply Z.div_le_upper_bound; lia. }
  change (2 ^ 32) with 4294967296. lia.
Qed.

Section FixHeader.
Context (src dst : host) (proto : Z) (check : nat).
Context (Hs : 0 <= get_port src < 65536) (Hd : 0 <= get_port dst < 65536).
Context (Hc4 : (4 <= check)%nat) (Hce : Nat.Even check).

(** The bytes a port field ends up with. *)
Definition new_port (port : Z) (old : chunk) : chunk :=
  if port =? 0 then old else be_bytes 2 port.

Lemma new_port_ok port old :
  length old = 2%nat -> bytes_ok old ->
  length (new_port port old) = 2%nat /\ bytes_ok (new_port port old).
Proof. intros. unfold new_port. destruct (_ =? _); [done|]. split; [done|apply be_bytes_ok]. Qed.

Lemma length_new_port port old : length old = 2%nat -> length (new_port port old) = 2%nat.
Proof. intros. unfold new_port. by destruct (_ =? _). Qed.

Lemma fix_header_cut a b mid c post :
  length a = 2%nat -> length b = 2%nat -> length mid = (check - 4)%nat -> length c = 2%nat ->
  let pre := new_port (get_port src) a ++ new_port (get_port dst) b ++ mid in
  let sum := pseudo_header_checksum src dst proto (pre ++ [0; 0] ++ post) in
  fix_header src dst proto check (a ++ b ++ mid ++ c ++ post)
  = pre ++ le_image 2 (chunk_internet_checksum_inc (pre ++ [0; 0] ++ post) sum) ++ post.
Proof.
  intros Ha Hb Hm Hcl pre sum. unfold fix_header. rewrite !le_image_htons.
  assert (E1 : (if negb (get_port src =? 0) then splice 0 (be_bytes 2 (get_port src))
    (a ++ b ++ mid ++ c ++ post) else a ++ b ++ mid ++ c ++ post)
    = new_port (get_port src) a ++ b ++ mid ++ c ++ post).
  { unfold new_port. destruct (get_port src =? 0); cbn [negb]; [done|].
    apply (splice_mid []). rewrite length_be_bytes. lia. }
  rewrite E1. set (a' := new_port (get_port src) a) in *.
  assert (La : length a' = 2%nat) by (by apply length_new_port).
  assert (E2 : (if negb (get_port dst =? 0) then splice 2 (be_bytes 2 (get_port dst))
    (a' ++ b ++ mid ++ c ++ post) else a' ++ b ++ mid ++ c ++ post)
    = a' ++ new_port (get_port dst) b ++ mid ++ c ++ post).
  { unfold new_port. destruct (get_port dst =? 0); cbn [negb]; [done|].
    rewrite <- La at 1. apply splice_mid. rewrite length_be_bytes. lia. }
  rewrite E2. set (b' := new_port (get_port dst) b) in *.
  assert (Lb : length b' = 2%nat) by (by apply length_new_port).
  assert (Lp : length pre = check) by (unfold pre; len).
  assert (E3 : forall x d, length x = 2%nat -> length d = 2%nat ->
            splice check d (a' ++ b' ++ mid ++ x ++ post) = pre ++ d ++ post).
  { intros x d Hx Hdl. rewrite !(app_assoc a'), !(app_assoc (a' ++ b')), <- (app_assoc a' b' mid).
    fold pre. rewrite <- Lp at 1. apply splice_mid. lia. }
  rewrite (E3 c [0; 0]) by done. fold sum.
  replace (pre ++ [0; 0] ++ post) with (a' ++ b' ++ mid ++ [0; 0] ++ post) at 2
    by (unfold pre; by rewrite <- !app_assoc).
  rewrite E3; [done|done|apply le_image_ok].
Qed.

Lemma new_port_value port old rest rest' :
  0 <= port < 65536 -> length old = 2%nat ->
  be_value (take 2 (new_port port old ++ rest))
  = if port =? 0 then be_value (take 2 (old ++ rest')) else port.
Proof.
  intros Hp Hl. rewrite !take_app_length' by (rewrite ?length_new_port; done).
  unfold new_port. destruct (port =? 0); [done|]. rewrite be_value_bytes. by apply Z.mod_small.
Qed.

Lemma pseudo_range p : 0 <= pseudo_header_checksum src dst proto p < 65536.
Proof.
  unfold pseudo_header_checksum. unfold chunk_internet_checksum. destruct (get_family src).
  - lia.
  - apply chunk_checksum_range.
  - apply chunk_checksum_range.
  - lia.
Qed.

Lemma pseudo_length p q :
  length p = length q ->
  pseudo_header_checksum src dst proto p = pseudo_header_checksum src dst proto q.
Proof. intros Hl. unfold pseudo_header_checksum. by rewrite Hl. Qed.

Lemma fix_header_facts p (q := fix_header src dst proto check p) :
  bytes_ok p -> (check + 2 <= length p)%nat -> Z.of_nat (length p) <= 65535 ->
  length q = length p /\ bytes_ok q /\
  port_at q 0 = (if get_port src =? 0 then port_at p 0 else get_port src) /\
  port_at q 2 = (if get_port dst =? 0 then port_at p 2 else get_port dst) /\
  chunk_internet_checksum_inc q (pseudo_header_checksum src dst proto q) = 0 /\
  take (check - 4) (drop 4 q) = take (check - 4) (drop 4 p) /\
  drop (check + 2) q = drop (check + 2) p.
Proof.
  intros Hb Hl Hmax. destruct (header_cut check p Hc4 Hl)
    as (a & b & mid & c & post & -> & La & Lb & Lm & Lc).
  unfold q. rewrite (fix_header_cut a b mid c post La Lb Lm Lc). clear q.
  set (pre := new_port _ a ++ new_port _ b ++ mid).
  set (sum := pseudo_header_checksum src dst proto (pre ++ [0; 0] ++ post)).
  set (ck := le_image 2 _). destruct (le_image_ok 2 (chunk_internet_checksum_inc (pre ++ [0; 0] ++ post) sum)) as [Lk Bk].
  fold ck in Lk, Bk.
  pose proof (length_new_port (get_port src) a La) as La'.
  pose proof (length_new_port (get_port dst) b Lb) as Lb'.
  assert (Lp : length pre = check) by (unfold pre; len).
  apply Forall_app in Hb as [Ba Hb]. apply Forall_app in Hb as [Bb Hb].
  apply Forall_app in Hb as [Bm Hb]. apply Forall_app in Hb as [_ Bp].
  assert (Bpre : bytes_ok pre) by (unfold pre; repeat apply Forall_app_2; try done; by apply new_port_ok).
  assert (Lq : length (pre ++ ck ++ post) = length (a ++ b ++ mid ++ c ++ post)) by len.
  split_and!.
  - done.
  - apply Forall_app_2; [done|]. by apply Forall_app_2.
  - unfold port_at, pre. rewrite !drop_0, <- app_assoc. by apply new_port_value.
  - unfold port_at, pre. rewrite <- !app_assoc, !drop_app_length' by done. by apply new_port_value.
  - rewrite (pseudo_length _ (pre ++ [0; 0] ++ post)) by len. fold sum.
    apply checksum_inc_completes; [done|done|by rewrite Lp|apply pseudo_range|].
    apply word_sum_small; [|len].
    apply Forall_app_2; [done|]. apply Forall_app_2; [bytes|done].
  - unfold pre. rewrite <- !app_assoc. rewrite !(app_assoc _ _ (mid ++ _)).
    rewrite !drop_app_length' by len. by rewrite !take_app_length' by done.
  - rewrite (app_assoc pre), drop_app_length' by len.
    rewrite !app_assoc. rewrite drop_app_length' by len. done.
Qed.
End FixHeader.

(** Behind a header of the given length. *)
Lemma fix_behind_app src dst nh ip data :
  length (fix_transport_header src dst nh data) = length data ->
  fix_behind src dst nh (ip ++ data) (length ip) = ip ++ fix_transport_header src dst nh data.
Proof.
  intros Hl. unfold fix_behind. rewrite chunk_skip_drop, drop_app_length.
  rewrite <- (app_nil_r data) at 2. rewrite (splice_mid ip data []) by done. by rewrite app_nil_r.
Qed.

(** Parsing an IPv4 packet with a header of five words. *)
Lemma create_v4_spec l1 l2 nh c1 c2 sa da data :
  length sa = 4%nat -> length da = 4%nat -> bytes_ok [l1; l2] ->
  256 * l1 + l2 = 20 + Z.of_nat (length data) ->
  ip_packet_create ([0x45; 0; l1; l2; 0; 0; 0; 0; 0x80; nh; c1; c2] ++ sa ++ da ++ data)
  = '(sport, dport) ← parse_transport_header data nh 0 0;
    Some (IpPacket (Host AF_INET sa (htons sport)) (Host AF_INET da (htons dport))
            ([0x45; 0; l1; l2; 0; 0; 0; 0; 0x80; nh; c1; c2] ++ sa ++ da ++ data) data 4 nh).
Proof.
  intros Hs Hd Hl Hlen.
  destruct sa as [|s0 [|s1 [|s2 [|s3 [|]]]]]; try done.
  destruct da as [|d0 [|d1 [|d2 [|d3 [|]]]]]; try done.
  cbn [app]. set (pkt := 0x45 :: _).
  assert (Hp : length pkt = (20 + length data)%nat) by done.
  assert (Hu : untoh16 (drop 2 pkt) = 20 + Z.of_nat (length data)).
  { change (untoh16 (drop 2 pkt)) with (ntohs (le_value [l1; l2])).
    rewrite bswap_le_value by done. cbn [be_value length].
    change (256 ^ Z.of_nat 1) with 256. change (256 ^ Z.of_nat 0) with 1. lia. }
  unfold ip_packet_create. rewrite Hp, Hu, Nat.min_l, <- Hp, take_ge, Hp by lia.
  change (20 + length data <? 1)%nat with false.
  change (Z.shiftr (Z.land (field8 pkt 0) 240) 4) with 4.
  change (20 + length data <? sizeof_ip)%nat with false.
  change (Z.to_nat (Z.land (field8 pkt 0) 15 * 4)) with 20%nat.
  change (field8 pkt 9) with nh.
  change (Z.land (field16 pkt 6) (htons IP_OFFMASK) =? 0) with true.
  change (chunk_skip pkt 20) with (chunk_skip ([69; 0; l1; l2; 0; 0; 0; 0; 128; nh; c1; c2; s0; s1; s2; s3; d0; d1; d2; d3] ++ data) 20).
  rewrite chunk_skip_drop. cbn [app drop].
  rewrite drop_0. change (4 =? 4) with true. cbv iota.
  by destruct (parse_transport_header data nh 0 0) as [[sport dport]|].
Qed.

(** ** IPv4 construction *)

(** The transport protocols whose header is rewritten, with the length of the
    header and the offset of its checksum. *)
Definition transport (proto : Z) : option (nat * nat) :=
  if proto =? IPPROTO_UDP then Some (sizeof_udphdr, 6%nat)
  else if proto =? IPPROTO_TCP then Some (sizeof_tcphdr, 16%nat) else None.

Lemma fix_transport_cases src dst proto p :
  fix_transport_header src dst proto p
  = match transport proto with
    | Some (hlen, check) =>
      if (length p <? hlen)%nat then p else fix_header src dst proto check p
    | None => p
    end.
Proof.
  unfold fix_transport_header, transport.
  destruct (proto =? IPPROTO_UDP); [done|]. by destruct (proto =? IPPROTO_TCP).
Qed.

Lemma parse_transport_cases p proto s d :
  bytes_ok p ->
  parse_transport_header p proto s d
  = match transport proto with
    | Some (hlen, _) =>
      if (length p <? hlen)%nat then None else Some (port_at p 0, port_at p 2)
    | None => Some (s, d)
    end.
Proof.
  intros Hb. unfold parse_transport_header, transport.
  destruct (proto =? IPPROTO_UDP); [|destruct (proto =? IPPROTO_TCP); [|done]].
  - destruct (Nat.ltb_spec (length p) sizeof_udphdr) as [|Hl]; [done|].
    unfold sizeof_udphdr in Hl. by rewrite !field16_port by (done || lia).
  - destruct (Nat.ltb_spec (length p) sizeof_tcphdr) as [|Hl]; [done|].
    unfold sizeof_tcphdr in Hl. by rewrite !field16_port by (done || lia).
Qed.

Lemma transport_check proto hlen check :
  transport proto = Some (hlen, check) ->
  (4 <= check /\ check + 2 <= hlen)%nat /\ Nat.Even check.
Proof.
  unfold transport. destruct (proto =? IPPROTO_UDP); [|destruct (proto =? IPPROTO_TCP); [|done]];
    intros [= <- <-]; unfold sizeof_udphdr, sizeof_tcphdr; (split; [lia|]).
  - by exists 3%nat.
  - by exists 8%nat.
Qed.

Lemma get_port_range h : host_ok h -> 0 <= get_port h < 65536.
Proof.
  intros Hh. unfold get_port. destruct Hh as (_ & _ & Hp).
  destruct (sa_family h); try lia; apply (bswap_range 2).
Qed.

Section FromDataV4.
Context (src dst : host) (nh : Z) (data : chunk).
Context (Hsrc : host_ok src) (Hdst : host_ok dst).
Context (Fsrc : get_family src = AF_INET) (Fdst : get_family dst = AF_INET).
Context (Hnh : 0 <= nh < 256) (Hdata : bytes_ok data).
Context (Hmax : 20 + Z.of_nat (length data) <= 65535).

Definition v4_data : chunk := fix_transport_header src dst nh data.
Definition v4_len : chunk := be_bytes 2 (20 + Z.of_nat (length data)).
Definition v4_pre : chunk := [0x45; 0] ++ v4_len ++ [0; 0; 0; 0; 0x80; nh].
Definition v4_addrs : chunk := s_addr src ++ s_addr dst.
Definition v4_sum : Z := chunk_internet_checksum (v4_pre ++ [0; 0] ++ v4_addrs).

Lemma v4_lengths : length (s_addr src) = 4%nat /\ length (s_addr dst) = 4%nat.
Proof.
  unfold get_family in *.
  destruct (host_ok_family src Hsrc) as [[? ?]|[? ?]], (host_ok_family dst Hdst) as [[? ?]|[? ?]];
    split; congruence.
Qed.

Lemma v4_data_facts :
  length v4_data = length data /\ bytes_ok v4_data /\
  match transport nh with
  | Some (hlen, check) => (hlen <= length data)%nat ->
    port_at v4_data 0 = (if get_port src =? 0 then port_at data 0 else get_port src) /\
    port_at v4_data 2 = (if get_port dst =? 0 then port_at data 2 else get_port dst) /\
    chunk_internet_checksum_inc v4_data (pseudo_header_checksum src dst nh v4_data) = 0 /\
    take (check - 4) (drop 4 v4_data) = take (check - 4) (drop 4 data) /\
    drop (check + 2) v4_data = drop (check + 2) data
  | None => v4_data = data
  end.
Proof.
  unfold v4_data. rewrite fix_transport_cases.
  destruct (transport nh) as [[hlen check]|] eqn:Et; [|done].
  destruct (transport_check _ _ _ Et) as [[H4 Hh] He].
  destruct (Nat.ltb_spec (length data) hlen); [split_and!; try done; lia|].
  pose proof (get_port_range src Hsrc). pose proof (get_port_range dst Hdst).
  destruct (fix_header_facts src dst nh check ltac:(done) ltac:(done) H4 He data Hdata
              ltac:(lia) ltac:(lia)) as (? & ? & ? & ? & ? & ? & ?).
  by split_and!.
Qed.

Lemma v4_header :
  splice 10 (le_image 2 (chunk_internet_checksum (ip_header src dst nh data)))
         (ip_header src dst nh data)
  = v4_pre ++ le_image 2 v4_sum ++ v4_addrs.
Proof.
  destruct v4_lengths as [Ls Ld]. unfold ip_header.
  rewrite !get_address_ok, !take_ge, le_image_htons by (done || lia).
  assert (u16 (20 + Z.of_nat (length data)) = 20 + Z.of_nat (length data)) as ->
    by (apply uwrap_small; lia).
  replace ([69; 0] ++ be_bytes 2 (20 + Z.of_nat (length data)) ++
           [0; 0; 0; 0; 128; nh] ++ [0; 0] ++ s_addr src ++ s_addr dst)
    with (v4_pre ++ [0; 0] ++ v4_addrs)
    by (unfold v4_pre, v4_addrs, v4_len; by rewrite <- !app_assoc).
  apply (splice_mid v4_pre). apply le_image_ok.
Qed.

Lemma v4_pre_ok : length v4_pre = 10%nat /\ bytes_ok v4_pre.
Proof.
  unfold v4_pre, v4_len. split; [done|].
  repeat apply Forall_app_2; [|apply be_bytes_ok|]; bytes.
Qed.

Lemma v4_addrs_ok : length v4_addrs = 8%nat /\ bytes_ok v4_addrs.
Proof.
  destruct v4_lengths as [Ls Ld]. destruct Hsrc as (_ & ? & _), Hdst as (_ & ? & _).
  unfold v4_addrs. split; [len|]. by apply Forall_app_2.
Qed.

Lemma v4_header_verifies : chunk_internet_checksum (v4_pre ++ le_image 2 v4_sum ++ v4_addrs) = 0.
Proof.
  destruct v4_pre_ok as [Lp Bp]. destruct v4_addrs_ok as [La Ba].
  unfold v4_sum, chunk_internet_checksum. apply checksum_inc_completes; [done|done| |lia|].
  - rewrite Lp. by exists 5%nat.
  - apply word_sum_small; [apply Forall_app_2; [done|]; apply Forall_app_2; [bytes|done]|].
    rewrite !length_app, Lp, La. simpl. lia.
Qed.

(** The packet that is parsed again at the end. *)
Lemma from_data_v4_parse :
  ip_packet_create_from_data src dst nh data
  = '(sport, dport) ← parse_transport_header v4_data nh 0 0;
    Some (IpPacket (Host AF_INET (s_addr src) (htons sport))
                   (Host AF_INET (s_addr dst) (htons dport))
            ((v4_pre ++ le_image 2 v4_sum ++ v4_addrs) ++ v4_data) v4_data 4 nh).
Proof.
  destruct v4_lengths as [Ls Ld]. destruct v4_data_facts as (Hl & _).
  destruct v4_pre_ok as [Lp _]. destruct v4_addrs_ok as [La _].
  destruct (le_image_ok 2 v4_sum) as [Lk _].
  unfold ip_packet_create_from_data. rewrite Fsrc, Fdst. cbn [negb bool_decide decide_rel].
  rewrite bool_decide_true by done. cbn [negb]. rewrite v4_header.
  set (ip := v4_pre ++ le_image 2 v4_sum ++ v4_addrs).
  assert (length ip = 20%nat) as <- by (unfold ip; rewrite !length_app; lia).
  rewrite fix_behind_app by done. fold v4_data. unfold ip, v4_pre, v4_addrs, v4_len.
  destruct (le_image 2 v4_sum) as [|c1 [|c2 [|]]]; try done.
  assert (Hv : be_value (be_bytes 2 (20 + Z.of_nat (length data))) = 20 + Z.of_nat (length data))
    by (rewrite be_value_bytes; apply Z.mod_small; simpl; lia).
  pose proof (be_bytes_ok 2 (20 + Z.of_nat (length data))) as Hb.
  pose proof (length_be_bytes 2 (20 + Z.of_nat (length data))) as Hbl.
  destruct (be_bytes 2 (20 + Z.of_nat (length data))) as [|l1 [|l2 [|]]]; try done.
  rewrite <- !app_assoc. cbn [app]. cbn [be_value length] in Hv.
  change (256 ^ Z.of_nat 1) with 256 in Hv. change (256 ^ Z.of_nat 0) with 1 in Hv.
  apply (create_v4_spec l1 l2 nh c1 c2 (s_addr src) (s_addr dst) v4_data Ls Ld Hb).
  rewrite Hl. lia.
Qed.
End FromDataV4.

(** ** Trimming to the length in the header *)

Definition version_of (pkt : chunk) : Z := Z.shiftr (Z.land (field8 pkt 0) 0xf0) 4.

(** The length of the packet without padding, and of its header. *)
Definition trimmed (pkt : chunk) : nat :=
  Nat.min (length pkt)
    (if version_of pkt =? 4 then Z.to_nat (untoh16 (drop 2 pkt))
     else 40 + Z.to_nat (untoh16 (drop 4 pkt))).
Definition header_of (pkt : chunk) : nat := if version_of pkt =? 4 then 20 else 40.

Lemma field8_take pkt n i : (i < n)%nat -> field8 (take n pkt) i = field8 pkt i.
Proof. apply nth_take_lt. Qed.

Lemma cut_take k off n (pkt : chunk) :
  (off + k <= n)%nat -> take k (drop off (take n pkt)) = take k (drop off pkt).
Proof.
  intros. replace n with (off + (n - off))%nat by lia.
  rewrite <- take_drop_commute, take_take. f_equal. lia.
Qed.

Lemma untoh16_take pkt n off :
  (off + 2 <= n)%nat -> untoh16 (drop off (take n pkt)) = untoh16 (drop off pkt).
Proof. intros. unfold untoh16. by rewrite cut_take. Qed.

Lemma create_trim pkt :
  (header_of pkt <= trimmed pkt)%nat ->
  ip_packet_create (take (trimmed pkt) pkt) = ip_packet_create pkt.
Proof.
  intros Hh. set (n := trimmed pkt) in *.
  assert (Hn : (n <= length pkt)%nat) by (unfold n, trimmed; lia).
  assert (Hl : length (take n pkt) = n) by len.
  assert (20 <= n)%nat by (unfold header_of in Hh; destruct (_ =? 4); lia).
  unfold ip_packet_create. rewrite Hl, !(field8_take pkt n) by lia.
  fold (version_of pkt). unfold header_of in Hh.
  rewrite !(proj2 (Nat.ltb_ge _ 1)) by lia.
  destruct (version_of pkt =? 4) eqn:E4; [|destruct (version_of pkt =? 6) eqn:E6; [|done]].
  - rewrite !(proj2 (Nat.ltb_ge _ sizeof_ip)) by (unfold sizeof_ip; lia).
    rewrite !untoh16_take, !cut_take by lia. unfold field16. rewrite !cut_take by lia.
    assert (n = Nat.min (length pkt) (Z.to_nat (untoh16 (drop 2 pkt)))) as Hn'
      by (unfold n, trimmed; by rewrite E4).
    rewrite <- Hn'. replace (Nat.min n (Z.to_nat (untoh16 (drop 2 pkt)))) with n by lia.
    by rewrite take_take, Nat.min_id.
  - rewrite !(proj2 (Nat.ltb_ge _ sizeof_ip6_hdr)) by (unfold sizeof_ip6_hdr; lia).
    rewrite !untoh16_take, !cut_take by lia.
    unfold parse_transport_header_v6. rewrite !(field8_take pkt n) by lia.
    assert (n = Nat.min (length pkt) (40 + Z.to_nat (untoh16 (drop 4 pkt)))) as Hn'
      by (unfold n, trimmed; by rewrite E4).
    rewrite <- Hn'. replace (Nat.min n (40 + Z.to_nat (untoh16 (drop 4 pkt)))) with n by lia.
    by rewrite take_take, Nat.min_id.
Qed.

Lemma be_bytes_high n : 0 <= n < 65536 -> be_bytes 4 n = [0; 0] ++ be_bytes 2 n.
Proof.
  intros Hn. cbn [be_bytes app]. change (256 ^ Z.of_nat 3) with 16777216.
  change (256 ^ Z.of_nat 2) with 65536. by rewrite !(Z.div_small n) by lia.
Qed.

Lemma le_image_high n : le_image 4 (htons n) = be_bytes 2 n ++ [0; 0].
Proof.
  rewrite <- (le_image_htons n). unfold le_image.
  rewrite be_bytes_high by apply (bswap_range 2). by rewrite reverse_app.
Qed.

Lemma get_port_v4 a x : 0 <= x < 65536 -> get_port (Host AF_INET a (htons x)) = x.
Proof. intros. unfold get_port; cbn [sa_family s_port]. apply bswap_involutive. simpl. lia. Qed.

(** ** Properties *)

(** [ip_packet_create_from_data] for IPv4: unless a UDP or TCP header is
    too short, the packet is built and parses back with the given addresses,
    protocol and payload size; its IP header checksum verifies, and a UDP or TCP
    payload carries the ports of the hosts (the old ones where a host has none)
    and a checksum that verifies with the pseudo header. *)
Theorem create_from_data_v4 (src dst : host) (nh : Z) (data : chunk) :
  host_ok src -> host_ok dst -> get_family src = AF_INET -> get_family dst = AF_INET ->
  0 <= nh < 256 -> bytes_ok data -> 20 + Z.of_nat (length data) <= 65535 ->
  match transport nh with Some (hlen, _) => (hlen <= length data)%nat | None => True end ->
  exists p, ip_packet_create_from_data src dst nh data = Some p /\
    ip_version p = 4 /\ ip_next_header p = nh /\
    s_addr (ip_src p) = s_addr src /\ s_addr (ip_dst p) = s_addr dst /\
    length (ip_payload p) = length data /\
    chunk_internet_checksum (take 20 (ip_encoding p)) = 0 /\
    match transport nh with
    | Some (_, check) =>
      get_port (ip_src p) = (if get_port src =? 0 then port_at data 0 else get_port src) /\
      get_port (ip_dst p) = (if get_port dst =? 0 then port_at data 2 else get_port dst) /\
      chunk_internet_checksum_inc (ip_payload p)
        (pseudo_header_checksum src dst nh (ip_payload p)) = 0 /\
      take (check - 4) (drop 4 (ip_payload p)) = take (check - 4) (drop 4 data) /\
      drop (check + 2) (ip_payload p) = drop (check + 2) data
    | None => ip_payload p = data
    end.
Proof.
  intros Hsrc Hdst Fs Fd Hnh Hdata Hmax Hlen.
  destruct (v4_data_facts src dst nh data Hsrc Hdst Hdata Hmax) as (Hl & Hb & Hf).
  pose proof (v4_header_verifies src dst nh data Hsrc Hdst Fs Fd Hnh) as Hck.
  destruct (v4_pre_ok nh data Hnh) as [Lp _]. destruct (v4_addrs_ok src dst data Hsrc Hdst Fs Fd) as [La _].
  destruct (le_image_ok 2 (v4_sum src dst nh data)) as [Lk _].
  rewrite (from_data_v4_parse src dst nh data Hsrc Hdst Fs Fd Hnh Hdata Hmax).
  rewrite (parse_transport_cases _ _ _ _ Hb), Hl.
  assert (Ht : forall q, take 20 ((v4_pre nh data ++ le_image 2 (v4_sum src dst nh data)
    ++ v4_addrs src dst) ++ q) = v4_pre nh data ++ le_image 2 (v4_sum src dst nh data)
    ++ v4_addrs src dst) by (intros q; apply take_app_length'; rewrite !length_app; lia).
  destruct (transport nh) as [[hlen check]|].
  - rewrite (proj2 (Nat.ltb_ge _ _)) by done. specialize (Hf Hlen) as (P0 & P2 & Hsum & Hm & Hd).
    pose proof (port_at_range _ 0 Hb). pose proof (port_at_range _ 2 Hb).
    eexists. split; [reflexivity|]. cbn [ip_version ip_next_header ip_src ip_dst ip_payload ip_encoding s_addr].
    rewrite Ht, !get_port_v4 by lia. by split_and!.
  - eexists. split; [reflexivity|]. cbn [ip_version ip_next_header ip_src ip_dst ip_payload ip_encoding s_addr].
    rewrite Ht. by split_and!.
Qed.

(** C40: [ip_packet_create_from_data] never builds an IPv6 packet: the flow field
    it stores holds version 0, and the parser it ends with rejects that. *)
Theorem create_from_data_v6_null (src dst : host) (nh : Z) (data : chunk) :
  get_family src = AF_INET6 -> ip_packet_create_from_data src dst nh data = None.
Proof.
  intros Fs. unfold ip_packet_create_from_data. rewrite Fs.
  destruct (negb _); [done|]. unfold fix_behind.
  set (pkt := ip6_header src dst nh data ++ data).
  assert (exists t, splice 40 (fix_transport_header src dst nh (chunk_skip pkt 40)) pkt
                    = 0 :: t) as (t & ->).
  { unfold splice, pkt, ip6_header. change (le_image 4 (htonl 6)) with [0; 0; 0; 6].
    cbn [app take]. by eexists. }
  unfold ip_packet_create. cbn [length]. by change (S (length t) <? 1)%nat with false.
Qed.

(** TFC padding behind a packet is removed: with a complete packet in front,
    the parser returns the same object with and without the padding. *)
Theorem tfc_padding_removed (pkt pad : chunk) :
  trimmed (pkt ++ pad) = length pkt -> (header_of (pkt ++ pad) <= length pkt)%nat ->
  ip_packet_create (pkt ++ pad) = ip_packet_create pkt.
Proof.
  intros Ht Hh. rewrite <- create_trim by lia. by rewrite Ht, take_app_length.
Qed.

(** Cloning a parsed packet gives the same packet, provided the length in
    its header covers the header itself. *)
Theorem ip_packet_clone_id (pkt : chunk) (p : ip_packet) :
  ip_packet_create pkt = Some p -> (header_of pkt <= trimmed pkt)%nat ->
  ip_packet_clone p = Some p.
Proof.
  intros Hp Hh. unfold ip_packet_clone.
  assert (ip_encoding p = take (trimmed pkt) pkt) as ->; [|by rewrite create_trim].
  unfold ip_packet_create in Hp. unfold trimmed. fold (version_of pkt) in Hp.
  destruct (length pkt <? 1)%nat; [done|].
  destruct (version_of pkt =? 4); [|destruct (version_of pkt =? 6); [|done]];
    destruct (_ <? _)%nat; try done.
  - apply bind_Some in Hp as ([s d] & _ & Hp).
    apply bind_Some in Hp as (? & _ & Hp). apply bind_Some in Hp as (? & _ & Hp). by simplify_eq.
  - apply bind_Some in Hp as ([[[pl nx] s] d] & _ & Hp).
    apply bind_Some in Hp as (? & _ & Hp). apply bind_Some in Hp as (? & _ & Hp). by simplify_eq.
Qed.

(** The walk over the IPv6 extension headers terminates: any bound above
    the number of bytes left gives the result the parser computes. *)
Theorem ext_headers_terminate (ip packet : chunk) (fuel : nat) (sport dport : Z) :
  bytes_ok packet -> (length packet < fuel)%nat ->
  skip_ext fuel (chunk_skip packet 40) (field8 ip 6) false sport dport
  = parse_transport_header_v6 ip packet sport dport.
Proof.
  intros Hb Hf. unfold parse_transport_header_v6. rewrite chunk_skip_drop.
  apply skip_ext_fuel; [bytes|len|lia].
Qed.

(** Although the length of the IPv6 pseudo header is stored as a 16-bit
    value in a 32-bit field, the checksum is that of the RFC 2460 pseudo
    header with a big-endian 32-bit length. *)
Theorem pseudo_checksum_v6_rfc (src dst : host) (proto : Z) (payload : chunk) :
  host_ok src -> host_ok dst -> get_family src = AF_INET6 -> get_family dst = AF_INET6 ->
  0 <= proto < 256 -> Z.of_nat (length payload) < 65536 ->
  pseudo_header_checksum src dst proto payload
  = chunk_internet_checksum (s_addr src ++ s_addr dst
      ++ be_bytes 4 (Z.of_nat (length payload)) ++ [0; 0; 0; proto]).
Proof.
  intros Hs Hd Fs Fd Hp Hl. unfold pseudo_header_checksum. rewrite Fs.
  unfold get_family in *. pose proof Hs as (_ & Bs & _). pose proof Hd as (_ & Bd & _).
  destruct (host_ok_family src Hs) as [[? _]|[_ Ls]]; [congruence|].
  destruct (host_ok_family dst Hd) as [[? _]|[_ Ld]]; [congruence|].
  unfold pseudo_header_v6. rewrite !get_address_ok, !take_ge by (done || lia).
  set (n := Z.of_nat (length payload)) in *. rewrite (uwrap_small 16 n) by lia.
  rewrite be_bytes_high, le_image_high by lia.
  assert (He : Nat.Even (length (s_addr src ++ s_addr dst)))
    by (rewrite length_app, Ls, Ld; by exists 16%nat).
  pose proof (be_bytes_ok 2 n) as Bn.
  assert (Hb : forall x, bytes_ok x -> length x = 8%nat ->
    bytes_ok ((s_addr src ++ s_addr dst) ++ x) /\
    65535 + word_sum ((s_addr src ++ s_addr dst) ++ x) < 2 ^ 32).
  { intros x Bx Lx. assert (bytes_ok ((s_addr src ++ s_addr dst) ++ x)) as B
      by (apply Forall_app_2; [by apply Forall_app_2|done]).
    split; [done|]. pose proof (word_sum_small _ B) as W. rewrite !length_app, Ls, Ld, Lx in W.
    specialize (W ltac:(lia)). lia. }
  rewrite !(app_assoc (s_addr src)).
  assert (bytes_ok [0; 0; 0; proto] /\ bytes_ok [0; 0]) as [B4 B2] by (split; bytes).
  destruct (Hb ((be_bytes 2 n ++ [0; 0]) ++ [0; 0; 0; proto])) as [B1 W1];
    [by repeat apply Forall_app_2|done|].
  destruct (Hb (([0; 0] ++ be_bytes 2 n) ++ [0; 0; 0; proto])) as [B1' W1'];
    [by repeat apply Forall_app_2|done|].
  rewrite !checksum_value by done. rewrite !(word_sum_app (s_addr src ++ s_addr dst)) by done.
  by do 4 f_equal.
Qed.

(** *** Witnesses *)

Definition host_a : host := Host AF_INET [10; 0; 0; 1] (htons 4500).
Definition host_b : host := Host AF_INET [10; 0; 0; 2] (htons 0).
Definition host_c : host := Host AF_INET6 (replicate 16 1) 0.

Lemma host_a_ok : host_ok host_a.
Proof. apply (bool_decide_unpack _). vm_compute. done. Defined.
Lemma host_b_ok : host_ok host_b.
Proof. apply (bool_decide_unpack _). vm_compute. done. Defined.
Lemma host_c_ok : host_ok host_c.
Proof. apply (bool_decide_unpack _). vm_compute. done. Defined.

Definition udp_sample : chunk := [0; 9; 0; 53; 0; 10; 0; 0; 170; 187].

Lemma create_from_data_v4_witness :
  exists p, ip_packet_create_from_data host_a host_b IPPROTO_UDP udp_sample = Some p /\
    get_port (ip_src p) = 4500 /\ get_port (ip_dst p) = 53 /\
    chunk_internet_checksum (take 20 (ip_encoding p)) = 0.
Proof.
  destruct (create_from_data_v4 host_a host_b IPPROTO_UDP udp_sample host_a_ok host_b_ok
              eq_refl eq_refl) as (p & Hp & _ & _ & _ & _ & _ & Hc & Hs & Hd & _).
  - unfold IPPROTO_UDP. lia.
  - by apply (bool_decide_unpack _).
  - simpl. lia.
  - vm_compute. lia.
  - exists p. split_and!; [exact Hp|exact Hs|exact Hd|exact Hc].
Defined.

Lemma create_from_data_v6_null_witness :
  ip_packet_create_from_data host_c host_c IPPROTO_UDP udp_sample = None.
Proof. apply (create_from_data_v6_null host_c host_c IPPROTO_UDP udp_sample). reflexivity. Defined.

Definition ip_sample : chunk :=
  [0x45; 0; 0; 21; 0; 0; 0; 0; 64; 1; 0; 0; 10; 0; 0; 1; 10; 0; 0; 2; 42].

Lemma tfc_padding_removed_witness :
  ip_packet_create (ip_sample ++ [0; 0; 0]) = ip_packet_create ip_sample /\
  ip_packet_create ip_sample <> None.
Proof.
  split; [|vm_compute; done].
  apply (tfc_padding_removed ip_sample [0; 0; 0]); vm_compute; [reflexivity|lia].
Defined.

Lemma ip_packet_clone_id_witness :
  exists p, ip_packet_create (ip_sample ++ [0; 0; 0]) = Some p /\ ip_packet_clone p = Some p.
Proof.
  eexists. split; [vm_compute; reflexivity|].
  eapply (ip_packet_clone_id (ip_sample ++ [0; 0; 0])); vm_compute; [reflexivity|lia].
Defined.

Lemma ext_headers_terminate_witness :
  skip_ext 100 (chunk_skip (replicate 48 0 ++ [0; 7; 0; 53; 0; 8; 0; 0]) 40)
           (field8 [0; 0; 0; 0; 0; 0; 60] 6) false 0 0
  = parse_transport_header_v6 [0; 0; 0; 0; 0; 0; 60]
      (replicate 48 0 ++ [0; 7; 0; 53; 0; 8; 0; 0]) 0 0.
Proof.
  apply (ext_headers_terminate [0; 0; 0; 0; 0; 0; 60]
           (replicate 48 0 ++ [0; 7; 0; 53; 0; 8; 0; 0]) 100 0 0);
    [by apply (bool_decide_unpack _)|vm_compute; lia].
Defined.

Lemma pseudo_checksum_v6_rfc_witness :
  pseudo_header_checksum host_c host_c 17 udp_sample
  = chunk_internet_checksum (replicate 16 1 ++ replicate 16 1 ++ [0; 0; 0; 10; 0; 0; 0; 17]).
Proof.
  apply (pseudo_checksum_v6_rfc host_c host_c 17 udp_sample host_c_ok host_c_ok eq_refl eq_refl);
    [lia|simpl; lia].
Defined.
