(* ===== verification/EspPacket.v ===== *)
(** ESP packets: [src/libipsec/esp_packet.c], on top of the raw packet of
    [src/libstrongswan/networking/packet.c].  Encapsulation builds the packet in
    a [bio_writer] and encrypts it in place through pointers into its buffer;
    the model keeps the pointers, so that writing through one after a
    reallocation would be visible as an undefined result. *)
From S2P Require Import Prelude Memory Chunk Bio Host Crypto EspContext IpPacket.
From stdpp Require Import base numbers list option.
From Stdlib Require Import Lia ZArith.
Local Open Scope Z_scope.

(** ** packet_t *)
Module Packet.

Record packet := Pkt {
  source : option host;
  destination : option host;
  dscp : Z;
  data : chunk;              (* message data *)
  adjusted_data : chunk;     (* what [get_data] returns, after [skip_bytes] *)
}.

Definition set_source (this : packet) (src : option host) : packet :=
  Pkt src (destination this) (dscp this) (data this) (adjusted_data this).
Definition set_destination (this : packet) (dst : option host) : packet :=
  Pkt (source this) dst (dscp this) (data this) (adjusted_data this).
Definition get_data (this : packet) : chunk := adjusted_data this.
Definition set_data (this : packet) (d : chunk) : packet :=
  Pkt (source this) (destination this) (dscp this) d d.
Definition set_dscp (this : packet) (value : Z) : packet :=
  Pkt (source this) (destination this) (u8 value) (data this) (adjusted_data this).
Definition skip_bytes (this : packet) (bytes : nat) : packet :=
  Pkt (source this) (destination this) (dscp this) (data this)
      (chunk_skip (adjusted_data this) bytes).

Definition packet_create_from_data (src dst : option host) (d : chunk) : packet :=
  Pkt src dst 0 d d.
Definition packet_create : packet := packet_create_from_data None None [].

(** A packet without data has no data pointer to clone. *)
Definition clone (this : packet) : packet :=
  let other := packet_create in
  let other := match destination this with
               | Some d => set_destination other (Some d) | None => other end in
  let other := match source this with
               | Some s => set_source other (Some s) | None => other end in
  let other := match data this with
               | [] => other | _ => set_data other (adjusted_data this) end in
  set_dscp other (dscp this).
End Packet.

(** ** esp_packet_t *)

Definition IPPROTO_IPIP : Z := 4.
Definition IPPROTO_IPV6 : Z := 41.
Definition IPPROTO_NONE : Z := 59.

Record esp_packet := EspPacket {
  packet : Packet.packet;          (* raw ESP packet *)
  payload : option ip_packet;      (* payload of this packet *)
  next_header : Z;                 (* next header info *)
}.

Definition with_packet (this : esp_packet) (p : Packet.packet) : esp_packet :=
  EspPacket p (payload this) (next_header this).

Definition get_data (this : esp_packet) : chunk := Packet.get_data (packet this).
Definition set_data (this : esp_packet) (d : chunk) : esp_packet :=
  with_packet this (Packet.set_data (packet this) d).
Definition skip_bytes (this : esp_packet) (bytes : nat) : esp_packet :=
  with_packet this (Packet.skip_bytes (packet this) bytes).
Definition set_source (this : esp_packet) (src : option host) : esp_packet :=
  with_packet this (Packet.set_source (packet this) src).
Definition set_destination (this : esp_packet) (dst : option host) : esp_packet :=
  with_packet this (Packet.set_destination (packet this) dst).
Definition set_dscp (this : esp_packet) (value : Z) : esp_packet :=
  with_packet this (Packet.set_dscp (packet this) value).

Definition esp_packet_create_internal (p : Packet.packet) : esp_packet :=
  EspPacket p None IPPROTO_NONE.

Definition esp_packet_create_from_packet (p : Packet.packet) : esp_packet :=
  esp_packet_create_internal p.

Definition esp_packet_create_from_payload (src dst : option host) (pl : option ip_packet)
    : esp_packet :=
  let p := Packet.packet_create_from_data src dst [] in
  EspPacket p pl
    (match pl with
     | Some ip => if ip_version ip =? 4 then IPPROTO_IPIP else IPPROTO_IPV6
     | None => IPPROTO_NONE
     end).

Definition clone (this : esp_packet) : esp_packet :=
  EspPacket (Packet.clone (packet this))
            (match payload this with Some ip => ip_packet_clone ip | None => None end)
            (next_header this).

Definition extract_payload (this : esp_packet) : option ip_packet * esp_packet :=
  (payload this, EspPacket (packet this) None (next_header this)).

(** The SPI in network order, as the kernel interface uses it. *)
Definition parse_header (this : esp_packet) : option Z :=
  '(spi, r) ← Reader.read_uint32 (get_data this);
  '(_, _) ← Reader.read_uint32 r;
  Some (htonl spi).

Fixpoint check_padding_loop (padding : chunk) (i : Z) : bool :=
  match padding with
  | [] => true
  | b :: t => if b =? u8 (i + 1) then check_padding_loop t (i + 1) else false
  end.
Definition check_padding (padding : chunk) : bool := check_padding_loop padding 0.

Definition generate_padding (len : nat) : chunk :=
  map (fun i => u8 (Z.of_nat i + 1)) (seq 0 len).

Definition remove_padding (this : esp_packet) (plaintext : chunk) : bool * esp_packet :=
  match
    '(nh, r) ← Reader.read_uint8_end plaintext;
    '(pad_length, r) ← Reader.read_uint8_end r;
    '(padding, r) ← Reader.read_data_end r (Z.to_nat pad_length);
    if check_padding padding then Some (nh, r) else None
  with
  | None => (false, this)
  | Some (nh, r) =>
    match ip_packet_create (Reader.peek r) with
    | None => (false, EspPacket (packet this) None (next_header this))
    | Some ip => (true, EspPacket (packet this) (Some ip) nh)
    end
  end.

Section Crypt.
Context {A : Type} `{Aead A}.
Abbreviation ctx := (esp_context A).

(** What [decrypt] reads: SPI, sequence number, IV, ciphertext and ICV. *)
Definition parse_esp (a : A) (data : chunk) : option (Z * Z * chunk * chunk * chunk) :=
  '(spi, r) ← Reader.read_uint32 data;
  '(seqno, r) ← Reader.read_uint32 r;
  '(iv, r) ← Reader.read_data r (aead_iv_size a);
  '(icv, r) ← Reader.read_data_end r (aead_icv_size a);
  if Reader.remaining r mod Z.of_nat (aead_block_size a) =? 0
  then Some (spi, seqno, iv, Reader.peek r, icv) else None.

Definition decrypt (this : esp_packet) (c : ctx) : status_t * esp_packet * ctx :=
  let this := EspPacket (packet this) None (next_header this) in
  let data := get_data this in
  match parse_esp (aead c) data with
  | None => (PARSE_ERROR, this, c)
  | Some (spi, seqno, iv, ciphertext, icv) =>
    if negb (verify_seqno c seqno) then (VERIFY_ERROR, this, c)
    else
      let ciphertext := ciphertext ++ icv in
      let aad := take 8 data in
      match aead_decrypt (aead c) ciphertext aad iv with
      | (None, a) => (FAILED, this, with_aead c a)
      | (Some plaintext, a) =>
        let c := set_authenticated_seqno (with_aead c a) seqno in
        match remove_padding this plaintext with
        | (false, this) => (PARSE_ERROR, this, c)
        | (true, this) => (SUCCESS, this, c)
        end
      end
  end.

(** The contents of newly allocated memory. *)
Context (junk : nat -> Z).

(** The length of the padding for a payload. *)
Definition padding_len (a : A) (payload_len : nat) : nat :=
  let plainlen := (payload_len + 2)%nat in
  let p := pad_len plainlen (aead_block_size a) in
  (p + pad_len (aead_iv_size a + plainlen + p) 4)%nat.

(** The plaintext in the buffer: payload, padding, padding length and next
    header, behind the space for the IV; [None] if a write goes through a
    pointer that is no longer valid. *)
Definition write_plain (w : Writer.bio_writer) (data : chunk) (padlen : nat) (nh : Z)
    : option Writer.bio_writer :=
  let w := Writer.write_data junk w data in
  let '(padding, w) := Writer.skip junk w padlen in
  w ← Writer.poke w padding (generate_padding padlen);
  let w := Writer.write_uint8 junk w (Z.of_nat padlen) in
  Some (Writer.write_uint8 junk w nh).

(** The result is [None] where the C code would use an invalid pointer. *)
Definition encrypt (this : esp_packet) (c : ctx) (spi : Z)
    : option (status_t * esp_packet * ctx) :=
  let this := set_data this [] in
  match next_seqno c with
  | (None, c) => Some (FAILED, this, c)
  | (Some seqno, c) =>
    let a := aead c in
    if negb (aead_has_iv_gen a) then Some (NOT_FOUND, this, c)
    else
      let ivlen := aead_iv_size a in
      let icvlen := aead_icv_size a in
      let data := match payload this with Some ip => ip_encoding ip | None => [] end in
      let padlen := padding_len a (length data) in
      let plainlen := (length data + 2 + padlen)%nat in
      let w := Writer.bio_writer_create junk (Z.of_nat (8 + ivlen + plainlen + icvlen)) in
      let w := Writer.write_uint32 junk w (ntohl spi) in
      let w := Writer.write_uint32 junk w seqno in
      let '(ivp, w) := Writer.skip junk w ivlen in
      match aead_get_iv a seqno ivlen with
      | (None, a) => Some (FAILED, this, with_aead c a)
      | (Some iv, a) =>
        w ← Writer.poke w ivp iv;
        let ct := Writer.WPtr (Writer.w_gen w) (Writer.w_used w) plainlen in
        w ← write_plain w data padlen (next_header this);
        let aadp := Writer.WPtr (Writer.w_gen w) 0 8 in
        let '(_, w) := Writer.skip junk w icvlen in
        plain ← Writer.load w ct;
        aad ← Writer.load w aadp;
        ivv ← Writer.load w ivp;
        match aead_encrypt a plain aad ivv with
        | (None, a) => Some (FAILED, this, with_aead c a)
        | (Some enc, a) =>
          w ← Writer.poke w (Writer.WPtr (Writer.p_gen ct) (Writer.p_off ct) (plainlen + icvlen)) enc;
          let '(buf, _) := Writer.extract_buf w in
          Some (SUCCESS, set_data this buf, with_aead c a)
        end
      end
  end.
End Crypt.

(** ** A writer with enough room *)
Section Room.
Context (junk : nat -> Z).

(** The buffer holds what was written and some free space, and has not been
    reallocated. *)
Definition holds (w : Writer.bio_writer) (done rest : chunk) : Prop :=
  Writer.w_buf w = done ++ rest /\ Writer.w_used w = length done /\ Writer.w_gen w = 0%nat.

Lemma holds_create n :
  0 <= n < 2 ^ 32 ->
  exists rest, holds (Writer.bio_writer_create junk n) [] rest /\ length rest = Z.to_nat n.
Proof.
  intros Hn. exists (Writer.malloc junk 0 (Z.to_nat n)).
  unfold holds, Writer.bio_writer_create; cbn. rewrite uwrap_small by done.
  split; [done|]. apply Writer.length_malloc.
Qed.

Lemma holds_increase w done rest n :
  holds w done rest -> (n <= length rest)%nat -> Writer.increase junk w n = w.
Proof.
  intros (Hb & Hu & _) Hn. apply Writer.increase_fits. rewrite Hb, Hu. len.
Qed.

Lemma holds_store w done rest d :
  holds w done rest -> (length d <= length rest)%nat ->
  holds (Writer.store w d) (done ++ d) (drop (length d) rest).
Proof.
  intros (Hb & Hu & Hg) Hl. unfold Writer.store, holds; cbn. rewrite Hb, Hu.
  split_and!; [|by rewrite length_app|done].
  rewrite <- (take_drop (length d) rest) at 1.
  rewrite splice_mid by len. by rewrite app_assoc.
Qed.

Lemma holds_write w done rest n d :
  length d = n -> holds w done rest -> (n <= length rest)%nat ->
  holds (Writer.store (Writer.increase junk w n) d) (done ++ d) (drop n rest).
Proof.
  intros <- Hw Hl. rewrite (holds_increase w done rest) by done. by apply holds_store.
Qed.

Lemma holds_uint32 w done rest v :
  holds w done rest -> (4 <= length rest)%nat ->
  holds (Writer.write_uint32 junk w v) (done ++ be_bytes 4 v) (drop 4 rest).
Proof.
  intros. unfold Writer.write_uint32. rewrite Writer.image32. by apply holds_write.
Qed.

Lemma holds_uint8 w done rest v :
  holds w done rest -> (1 <= length rest)%nat ->
  holds (Writer.write_uint8 junk w v) (done ++ [u8 v]) (drop 1 rest).
Proof. intros. unfold Writer.write_uint8. by apply holds_write. Qed.

Lemma holds_data w done rest d :
  holds w done rest -> (length d <= length rest)%nat ->
  holds (Writer.write_data junk w d) (done ++ d) (drop (length d) rest).
Proof. intros. unfold Writer.write_data. by apply holds_write. Qed.

Lemma holds_skip w done rest n :
  holds w done rest -> (n <= length rest)%nat ->
  exists w', Writer.skip junk w n = (Writer.WPtr 0 (length done) n, w') /\
             holds w' (done ++ take n rest) (drop n rest).
Proof.
  intros Hw Hl. unfold Writer.skip. rewrite (holds_increase w done rest) by done.
  destruct Hw as (Hb & Hu & Hg). rewrite Hu, Hg. eexists. split; [reflexivity|].
  unfold holds; cbn. rewrite Hb. split_and!; [by rewrite <- app_assoc, take_drop|len|done].
Qed.

(** Writing through a valid pointer to a part of what was written. *)
Lemma holds_poke w pre old post rest d :
  holds w (pre ++ old ++ post) rest -> length d = length old ->
  exists w', Writer.poke w (Writer.WPtr 0 (length pre) (length old)) d = Some w' /\
             holds w' (pre ++ d ++ post) rest.
Proof.
  intros (Hb & Hu & Hg) Hd. unfold Writer.poke; cbn [Writer.p_gen Writer.p_len Writer.p_off].
  rewrite Hg, Hd, !Nat.eqb_refl. cbn [andb].
  eexists. split; [reflexivity|].
  unfold holds; cbn [Writer.w_buf Writer.w_used Writer.w_gen]. rewrite Hb, Hu.
  split_and!; [|len|done]. rewrite <- !app_assoc. by rewrite splice_mid.
Qed.

Lemma holds_load w pre x post rest :
  holds w (pre ++ x ++ post) rest ->
  Writer.load w (Writer.WPtr 0 (length pre) (length x)) = Some x.
Proof.
  intros (Hb & _ & Hg). unfold Writer.load; cbn. rewrite Hg, Hb; cbn.
  by rewrite <- !app_assoc, drop_app_length, take_app_length.
Qed.

(** The parts of a packet in the buffer, through pointers to them. *)
Lemma holds_parts w hdr iv plain icv rest :
  holds w (((hdr ++ iv) ++ plain) ++ icv) rest ->
  Writer.load w (Writer.WPtr 0 (length (hdr ++ iv)) (length plain)) = Some plain /\
  Writer.load w (Writer.WPtr 0 0 (length hdr)) = Some hdr /\
  Writer.load w (Writer.WPtr 0 (length hdr) (length iv)) = Some iv /\
  holds w ((hdr ++ iv) ++ (plain ++ icv) ++ []) rest.
Proof.
  intros Hw. rewrite <- !app_assoc in Hw. split_and!.
  - eapply (holds_load _ (hdr ++ iv) _ icv). rewrite <- !app_assoc. exact Hw.
  - eapply (holds_load _ [] hdr (iv ++ plain ++ icv)). exact Hw.
  - eapply (holds_load _ hdr iv (plain ++ icv)). exact Hw.
  - rewrite app_nil_r, <- !app_assoc. exact Hw.
Qed.

Lemma holds_buf w done rest : holds w done rest -> Writer.get_buf w = done.
Proof. intros (Hb & Hu & _). unfold Writer.get_buf. by rewrite Hb, Hu, take_app_length. Qed.

Lemma length_generate_padding n : length (generate_padding n) = n.
Proof. unfold generate_padding. by rewrite length_map, length_seq. Qed.

(** The plaintext behind what was written before. *)
Lemma holds_plain w done rest data padlen nh :
  holds w done rest -> (length data + padlen + 2 <= length rest)%nat ->
  exists w', write_plain junk w data padlen nh = Some w' /\
    holds w' (done ++ data ++ generate_padding padlen ++ [u8 (Z.of_nat padlen)] ++ [u8 nh])
          (drop (length data + padlen + 2) rest).
Proof.
  intros Hw Hl. unfold write_plain. pose proof (holds_data w done rest data Hw ltac:(lia)) as H1.
  destruct (holds_skip _ _ _ padlen H1 ltac:(len)) as (w2 & -> & H2).
  set (old := take padlen (drop (length data) rest)) in *.
  assert (Hol : length old = padlen) by (unfold old; len).
  rewrite <- (app_nil_r old) in H2.
  destruct (holds_poke _ _ _ _ _ (generate_padding padlen) H2) as (w3 & E & H3).
  { rewrite Hol. apply length_generate_padding. }
  rewrite Hol in E. rewrite E. cbn [mbind option_bind]. rewrite app_nil_r in H3.
  pose proof (holds_uint8 _ _ _ (Z.of_nat padlen) H3 ltac:(len)) as H4.
  pose proof (holds_uint8 _ _ _ nh H4 ltac:(len)) as H5.
  eexists. split; [reflexivity|]. 
  replace (drop (length data + padlen + 2) rest)
    with (drop 1 (drop 1 (drop padlen (drop (length data) rest))))
    by (rewrite !drop_drop; f_equal; lia).
  by rewrite <- !app_assoc in H5.
Qed.
End Room.

(** ** Encapsulation *)
Section Encrypt.
Context {A : Type} `{Aead A} (junk : nat -> Z).
Context (this : esp_packet) (c c1 : esp_context A) (spi seqno : Z).

Definition esp_payload : chunk :=
  match payload this with Some ip => ip_encoding ip | None => [] end.
Definition esp_padlen : nat := padding_len (aead c1) (length esp_payload).
(** The authenticated header and the plaintext of the packet. *)
Definition esp_header : chunk := be_bytes 4 (ntohl spi) ++ be_bytes 4 seqno.
Definition esp_plain : chunk :=
  esp_payload ++ generate_padding esp_padlen ++ [u8 (Z.of_nat esp_padlen)]
  ++ [u8 (next_header this)].

Lemma length_esp_plain : length esp_plain = (length esp_payload + 2 + esp_padlen)%nat.
Proof. unfold esp_plain. rewrite !length_app, length_generate_padding. simpl. lia. Qed.

Lemma esp_plain_ok : bytes_ok esp_payload -> bytes_ok esp_plain.
Proof.
  intros Hb. unfold esp_plain. apply Forall_app_2; [done|]. apply Forall_app_2.
  - apply Forall_map, Forall_forall. intros. apply byte_ok_u8.
  - by repeat constructor; apply byte_ok_u8.
Qed.

Lemma length_esp_header : length esp_header = 8%nat.
Proof. done. Qed.

Context (Hseq : next_seqno c = (Some seqno, c1)).
Context (Hgen : aead_has_iv_gen (aead c1) = true).
Context (Hmax : Z.of_nat (8 + aead_iv_size (aead c1) + length esp_plain
                          + aead_icv_size (aead c1)) < 2 ^ 32).

(** The header in the buffer, and the pointer to the IV behind it. *)
Lemma write_header :
  exists w rest, Writer.skip junk (Writer.write_uint32 junk (Writer.write_uint32 junk
      (Writer.bio_writer_create junk (Z.of_nat (8 + aead_iv_size (aead c1)
         + (length esp_payload + 2 + esp_padlen) + aead_icv_size (aead c1))))
      (ntohl spi)) seqno) (aead_iv_size (aead c1))
    = (Writer.WPtr 0 8 (aead_iv_size (aead c1)), w) /\
    holds w (esp_header ++ take (aead_iv_size (aead c1)) rest)
            (drop (aead_iv_size (aead c1)) rest) /\
    length rest = (aead_iv_size (aead c1) + length esp_plain + aead_icv_size (aead c1))%nat.
Proof.
  rewrite <- length_esp_plain.
  destruct (holds_create junk (Z.of_nat (8 + aead_iv_size (aead c1) + length esp_plain
              + aead_icv_size (aead c1)))) as (rest & H1 & Hl); [lia|].
  rewrite Nat2Z.id in Hl.
  pose proof (holds_uint32 junk _ _ _ (ntohl spi) H1 ltac:(lia)) as H2.
  pose proof (holds_uint32 junk _ _ _ seqno H2 ltac:(len)) as H3.
  rewrite drop_drop in H3. cbn [app] in H3. fold esp_header in H3.
  destruct (holds_skip junk _ _ _ (aead_iv_size (aead c1)) H3 ltac:(len)) as (w & E & H4).
  exists w, (drop (4 + 4) rest). rewrite E, length_esp_header. split_and!; [done|done|len].
Qed.

(** Whatever the AEAD does, encapsulation uses valid pointers only, and what it
    is given to encrypt are the plaintext, the header and the IV. *)
Lemma encrypt_spec iv a1 :
  aead_get_iv (aead c1) seqno (aead_iv_size (aead c1)) = (Some iv, a1) ->
  length iv = aead_iv_size (aead c1) ->
  (forall enc a2, aead_encrypt a1 esp_plain esp_header iv = (Some enc, a2) ->
     length enc = (length esp_plain + aead_icv_size (aead c1))%nat) ->
  encrypt junk this c spi
  = Some (match aead_encrypt a1 esp_plain esp_header iv with
          | (None, a2) => (FAILED, set_data this [], with_aead c1 a2)
          | (Some enc, a2) =>
            (SUCCESS, set_data this (esp_header ++ iv ++ enc), with_aead c1 a2)
          end).
Proof.
  intros Hiv Hivl Henc. unfold encrypt. rewrite Hseq, Hgen. cbn [negb payload next_header set_data with_packet].
  fold esp_payload. fold esp_padlen.
  destruct write_header as (w & rest & E & Hw & Hl). rewrite E, Hiv. clear E.
  set (old := take (aead_iv_size (aead c1)) rest) in *.
  assert (Hol : length old = aead_iv_size (aead c1)) by (unfold old; len).
  rewrite <- (app_nil_r old) in Hw. rewrite <- Hol at 1. rewrite <- length_esp_header at 1.
  destruct (holds_poke _ _ _ _ _ iv Hw ltac:(lia)) as (w1 & -> & Hw1). cbn [mbind option_bind].
  rewrite app_nil_r in Hw1. pose proof Hw1 as (_ & Hu1 & Hg1). rewrite Hu1, Hg1.
  destruct (holds_plain junk _ _ _ esp_payload esp_padlen (next_header this) Hw1)
    as (w2 & -> & Hw2). { rewrite length_esp_plain in Hl. len. }
  cbn [mbind option_bind]. fold esp_plain in Hw2. pose proof Hw2 as (_ & _ & Hg2). rewrite Hg2.
  destruct (holds_skip junk _ _ _ (aead_icv_size (aead c1)) Hw2) as (w3 & E3 & Hw3).
  { rewrite length_esp_plain in Hl. len. }
  rewrite E3. clear E3. set (icv := take (aead_icv_size (aead c1)) _) in *.
  assert (Hicv : length icv = aead_icv_size (aead c1))
    by (unfold icv; rewrite length_esp_plain in Hl; len).
  rewrite <- length_esp_plain.
  destruct (holds_parts _ _ _ _ _ _ Hw3) as (L1 & L2 & L3 & Hct).
  rewrite length_esp_header in L2, L3. rewrite Hivl in L3.
  rewrite L1, L2, L3. cbn [mbind option_bind Writer.p_gen Writer.p_off].
  destruct (aead_encrypt a1 esp_plain esp_header iv) as [[enc|] a2] eqn:Ee; [|done].
  specialize (Henc enc a2 eq_refl).
  destruct (holds_poke w3 (esp_header ++ iv) (esp_plain ++ icv) [] _ enc Hct) as (w4 & E4 & Hw4);
    [len|].
  replace (length esp_plain + aead_icv_size (aead c1))%nat with (length (esp_plain ++ icv)) by len.
  rewrite E4. cbn [mbind option_bind]. unfold Writer.extract_buf. rewrite (holds_buf _ _ _ Hw4).
  by rewrite app_nil_r, <- app_assoc.
Qed.
End Encrypt.

(** ** Padding *)

Lemma check_padding_seq n j :
  check_padding_loop (map (fun i => u8 (Z.of_nat i + 1)) (seq j n)) (Z.of_nat j) = true.
Proof.
  revert j. induction n as [|n IH]; intros j; [done|]. cbn [seq map check_padding_loop].
  rewrite Z.eqb_refl. replace (Z.of_nat j + 1) with (Z.of_nat (S j)) by lia. apply IH.
Qed.

Lemma check_generate_padding n : check_padding (generate_padding n) = true.
Proof. apply (check_padding_seq n 0). Qed.

(** Only the padding of RFC 4303 passes the check. *)
Lemma check_padding_only p j :
  check_padding_loop p (Z.of_nat j) = true ->
  p = map (fun i => u8 (Z.of_nat i + 1)) (seq j (length p)).
Proof.
  revert j. induction p as [|b p IH]; intros j Hc; [done|]. cbn [check_padding_loop] in Hc.
  destruct (Z.eqb_spec b (u8 (Z.of_nat j + 1))) as [->|]; [|done].
  cbn [length seq map]. f_equal. apply IH. by replace (Z.of_nat (S j)) with (Z.of_nat j + 1) by lia.
Qed.

(** Block and IV sizes for which the two padding steps do not disturb each
    other. *)
Definition sizes_aligned (bs ivs : nat) : Prop :=
  (Nat.divide bs 4 /\ Nat.divide bs ivs) \/ (Nat.divide 4 bs /\ Nat.divide 4 ivs).

Section Padding.
Context {A : Type} `{Aead A} (a : A).
Context (Hbs : aead_block_size a <> 0%nat).

Lemma padding_len_bound n : (padding_len a n < aead_block_size a + 3)%nat.
Proof.
  unfold padding_len. pose proof (pad_len_lt (n + 2) (aead_block_size a) Hbs).
  pose proof (pad_len_lt (aead_iv_size a + (n + 2) + pad_len (n + 2) (aead_block_size a)) 4
                ltac:(lia)). lia.
Qed.

Lemma padding_len_icv n :
  ((8 + aead_iv_size a + (n + 2 + padding_len a n)) mod 4 = 0)%nat.
Proof.
  unfold padding_len. set (p := pad_len (n + 2) (aead_block_size a)).
  pose proof (pad_len_aligns (aead_iv_size a + (n + 2) + p) 4 ltac:(lia)) as Ha.
  set (q := pad_len (aead_iv_size a + (n + 2) + p) 4) in *.
  replace (8 + aead_iv_size a + (n + 2 + (p + q)))%nat
    with (aead_iv_size a + (n + 2) + p + q + 2 * 4)%nat by lia.
  by rewrite Nat.Div0.mod_add.
Qed.

Lemma padding_len_block n :
  sizes_aligned (aead_block_size a) (aead_iv_size a) ->
  Nat.divide (aead_block_size a) (n + 2 + padding_len a n).
Proof.
  intros Hal. unfold padding_len. set (p := pad_len (n + 2) (aead_block_size a)).
  pose proof (pad_len_aligns (n + 2) (aead_block_size a) Hbs) as Hp. fold p in Hp.
  apply Nat.Lcm0.mod_divide in Hp.
  pose proof (pad_len_aligns (aead_iv_size a + (n + 2) + p) 4 ltac:(lia)) as Hq.
  apply Nat.Lcm0.mod_divide in Hq.
  set (q := pad_len (aead_iv_size a + (n + 2) + p) 4) in *.
  rewrite Nat.add_assoc. apply Nat.divide_add_r; [done|].
  destruct Hal as [[H4 Hi]|[H4 Hi]].
  - apply (Nat.divide_trans _ _ _ H4) in Hq.
    eapply Nat.divide_add_cancel_r; [|exact Hq].
    rewrite <- Nat.add_assoc. by apply Nat.divide_add_r.
  - assert (q = 0%nat) as ->; [|by exists 0%nat].
    unfold q, pad_len. replace ((aead_iv_size a + (n + 2) + p) mod 4)%nat with 0%nat; [done|].
    symmetry. apply Nat.Lcm0.mod_divide. rewrite <- Nat.add_assoc.
    apply Nat.divide_add_r; [done|]. exact (Nat.divide_trans _ _ _ H4 Hp).
Qed.
End Padding.

(** ** Decapsulation of an encapsulated packet *)

Lemma remove_padding_plain this pl padlen nh ip :
  Z.of_nat padlen < 256 -> byte_ok nh -> ip_packet_create pl = Some ip ->
  remove_padding this (pl ++ generate_padding padlen ++ [u8 (Z.of_nat padlen)] ++ [u8 nh])
  = (true, EspPacket (packet this) (Some ip) nh).
Proof.
  intros Hp Hn Hip. unfold remove_padding. rewrite (u8_byte nh Hn), u8_byte by (split; lia).
  rewrite !app_assoc, Reader.read_uint8_end_snoc. cbn [mbind option_bind].
  rewrite Reader.read_uint8_end_snoc. cbn [mbind option_bind]. rewrite Nat2Z.id.
  rewrite <- (length_generate_padding padlen) at 2. rewrite Reader.read_data_end_app.
  cbn [mbind option_bind]. rewrite check_generate_padding. cbn [mbind option_bind].
  unfold Reader.peek. by rewrite Hip.
Qed.

Section Decrypt.
Context {A : Type} `{Aead A}.

Lemma parse_esp_app (a : A) s n iv ct icv :
  0 <= s < 2 ^ 32 -> 0 <= n < 2 ^ 32 -> length iv = aead_iv_size a ->
  length icv = aead_icv_size a -> aead_block_size a <> 0%nat ->
  Nat.divide (aead_block_size a) (length ct) -> Z.of_nat (length ct) < 2 ^ 32 ->
  parse_esp a ((be_bytes 4 s ++ be_bytes 4 n) ++ iv ++ ct ++ icv) = Some (s, n, iv, ct, icv).
Proof.
  intros Hs Hn Hiv Hicv Hbs Hd Hl. unfold parse_esp. rewrite <- !app_assoc.
  rewrite Reader.read_uint32_app by done. cbn [mbind option_bind].
  rewrite Reader.read_uint32_app by done. cbn [mbind option_bind].
  rewrite <- Hiv, Reader.read_data_app. cbn [mbind option_bind].
  rewrite <- Hicv, Reader.read_data_end_app. cbn [mbind option_bind].
  unfold Reader.remaining. rewrite uwrap_small by lia.
  destruct Hd as [k ->]. by rewrite Nat2Z.inj_mul, Z.mod_mul by lia.
Qed.

(** What the sequence state of a context is after decryption: it changes only
    for a packet whose number was fresh and whose ICV verified. *)
Lemma decrypt_seqstate (this : esp_packet) (c : esp_context A) :
  let '(st, _, c') := decrypt this c in
  with_aead c' (aead c) = c \/
  exists spi n iv ct icv plain a', parse_esp (aead c) (get_data this) = Some (spi, n, iv, ct, icv) /\
    verify_seqno c n = true /\
    aead_decrypt (aead c) (ct ++ icv) (take 8 (get_data this)) iv = (Some plain, a') /\
    c' = set_authenticated_seqno (with_aead c a') n /\ (st = SUCCESS \/ st = PARSE_ERROR).
Proof.
  unfold decrypt. change (get_data (EspPacket (packet this) None (next_header this)))
    with (get_data this).
  destruct (parse_esp (aead c) (get_data this)) as [[[[[spi n] iv] ct] icv]|] eqn:Ep;
    [|left; by destruct c].
  destruct (verify_seqno c n) eqn:Ev; cbn [negb]; [|left; by destruct c].
  destruct (aead_decrypt _ _ _ _) as [[plain|] a'] eqn:Ed; [|left; by destruct c].
  destruct (remove_padding _ plain) as [[] this'] eqn:Er; right;
    exists spi, n, iv, ct, icv, plain, a'; split_and!; try done; auto.
Qed.
End Decrypt.

Lemma refines_with_aead {A} (c : esp_context A) a r : refines c r -> refines (with_aead c a) r.
Proof. intros Hr. exact Hr. Qed.

Section RoundTrip.
Context {A : Type} `{AeadLaws A} (junk : nat -> Z).
Context (this : esp_packet) (co ci : esp_context A) (v : aead_view) (spi : Z) (ip : ip_packet).
Context (Hpl : payload this = Some ip) (Hip : ip_packet_create (ip_encoding ip) = Some ip).
Context (Hipb : bytes_ok (ip_encoding ip)) (Hnh : byte_ok (next_header this)).
Context (Hvo : ae_view (aead co) = Some v) (Hvi : ae_view (aead ci) = Some v).
Context (Hal : sizes_aligned (av_block v) (av_iv v)) (Hbs : (av_block v + 3 <= 256)%nat).
Context (Hout : inbound co = false) (Hlast : 0 <= last_seqno co < UINT32_MAX).
Context (Hspi : 0 <= spi < 2 ^ 32).
Context (Hmax : Z.of_nat (length (ip_encoding ip) + av_iv v + av_icv v + 300) < 2 ^ 32).

Definition rt_seqno : Z := last_seqno co + 1.

Lemma rt_next : next_seqno co = (Some rt_seqno, with_last co rt_seqno) /\ 0 <= rt_seqno < 2 ^ 32.
Proof.
  unfold next_seqno, rt_seqno. rewrite Hout. cbn [orb].
  replace (last_seqno co =? UINT32_MAX) with false by lia.
  assert (UINT32_MAX = 2 ^ 32 - 1) as E by done. rewrite E in *.
  rewrite uwrap_small by lia. split; [done|lia].
Qed.

Lemma rt_plain_ok :
  bytes_ok (esp_plain this (with_last co rt_seqno)) /\
  Nat.divide (av_block v) (length (esp_plain this (with_last co rt_seqno))) /\
  (length (esp_plain this (with_last co rt_seqno))
   <= length (ip_encoding ip) + av_block v + 4)%nat /\
  Z.of_nat (esp_padlen this (with_last co rt_seqno)) < 256.
Proof.
  destruct (ae_sizes _ _ Hvo) as (Eb & Ec & Ei & Hb0 & _).
  pose proof (esp_plain_ok this (with_last co rt_seqno)) as Bp.
  rewrite length_esp_plain. unfold esp_padlen, esp_payload in *. rewrite Hpl in *. cbn [aead with_last].
  pose proof (padding_len_bound (aead co) ltac:(by rewrite Eb) (length (ip_encoding ip))) as Hpb.
  pose proof (padding_len_block (aead co) ltac:(by rewrite Eb) (length (ip_encoding ip))
                ltac:(by rewrite Eb, Ei)) as Hdiv.
  rewrite Eb in *. split_and!; [by apply Bp|done|lia|lia].
Qed.

Abbreviation plain := (esp_plain this (with_last co rt_seqno)).
Abbreviation hdr := (esp_header spi rt_seqno).

(** The receiving end. *)
Lemma rt_decrypt iv enc b2 s d :
  length iv = av_iv v -> length enc = (length plain + av_icv v)%nat ->
  aead_decrypt (aead ci) enc hdr iv = (Some plain, b2) -> verify_seqno ci rt_seqno = true ->
  let pkt := esp_packet_create_from_packet
               (Packet.packet_create_from_data s d (hdr ++ iv ++ enc)) in
  parse_header pkt = Some spi /\
  decrypt pkt ci = (SUCCESS, EspPacket (packet pkt) (Some ip) (next_header this),
                    set_authenticated_seqno (with_aead ci b2) rt_seqno).
Proof.
  intros Liv Lenc Ed Hv. destruct rt_next as [_ Hnr]. destruct rt_plain_ok as (_ & Dp & Lp & Pl).
  destruct (ae_sizes _ _ Hvi) as (Ebi & Eci & Eii & Hb0 & _).
  pose proof (bswap_range 4 spi) as Hs. change (256 ^ Z.of_nat 4) with (2 ^ 32) in Hs.
  cbv zeta. split.
  { unfold parse_header. change (get_data _) with (hdr ++ iv ++ enc).
    unfold esp_header. rewrite <- !app_assoc.
    rewrite Reader.read_uint32_app by done. cbn [mbind option_bind].
    rewrite Reader.read_uint32_app by done. cbn [mbind option_bind]. f_equal.
    apply bswap_involutive. simpl. lia. }
  unfold decrypt. change (get_data _) with (hdr ++ iv ++ enc). cbn [next_header packet].
  set (ct := take (length plain) enc). set (icv := drop (length plain) enc).
  assert (enc = ct ++ icv) as Ecat by (symmetry; apply take_drop).
  assert (length ct = length plain /\ length icv = av_icv v) as [Lct Licv]
    by (unfold ct, icv; split; len).
  assert (parse_esp (aead ci) (hdr ++ iv ++ enc) = Some (ntohl spi, rt_seqno, iv, ct, icv)) as ->.
  { rewrite Ecat. apply parse_esp_app; rewrite ?Ebi, ?Eci, ?Eii, ?Lct; try done. lia. }
  rewrite Hv. cbn [negb]. rewrite <- Ecat.
  replace (take 8 (hdr ++ iv ++ enc)) with hdr by (symmetry; by apply take_app_length').
  rewrite Ed. unfold esp_plain.
  rewrite (remove_padding_plain _ _ _ _ ip); [done|done|done|].
  unfold esp_payload. by rewrite Hpl.
Qed.

(** What encapsulation and decapsulation do to the two ends. *)
Lemma roundtrip iv a1 s d :
  aead_get_iv (aead co) rt_seqno (av_iv v) = (Some iv, a1) ->
  verify_seqno ci rt_seqno = true ->
  exists data a2 b2,
    encrypt junk this co spi
    = Some (SUCCESS, set_data this data, with_aead (with_last co rt_seqno) a2) /\
    ae_view a2 = Some v /\ ae_view b2 = Some v /\
    let pkt := esp_packet_create_from_packet (Packet.packet_create_from_data s d data) in
    parse_header pkt = Some spi /\
    decrypt pkt ci = (SUCCESS, EspPacket (packet pkt) (Some ip) (next_header this),
                      set_authenticated_seqno (with_aead ci b2) rt_seqno).
Proof.
  intros Hiv Hv. destruct rt_next as [Hn Hnr].
  destruct (ae_sizes _ _ Hvo) as (Eb & Ec & Ei & Hb0 & Hg).
  destruct rt_plain_ok as (Bp & Dp & Lp & Pl).
  pose proof (ae_get_iv_view _ _ rt_seqno (av_iv v) Hvo) as Hv1. rewrite Hiv in Hv1. cbn [snd] in Hv1.
  destruct (ae_get_iv_length _ _ _ _ _ _ Hvo Hiv) as [Liv Biv].
  destruct (ae_inverse a1 (aead ci) v plain hdr iv Hv1 Hvi Bp Biv Liv Dp)
    as (enc & a2 & b2 & Ee & Va & Benc & Lenc & Ed & Vb).
  exists (hdr ++ iv ++ enc), a2, b2. split_and!; [|done|done|by apply rt_decrypt].
  rewrite (encrypt_spec junk this co (with_last co rt_seqno) spi rt_seqno Hn Hg
             ltac:(cbn [aead with_last]; rewrite Ec, Ei; lia) iv a1);
    cbn [aead with_last]; rewrite ?Ee, ?Ei; [done|done|done|].
  rewrite Ec. by intros ? ? [= <- <-].
Qed.
End RoundTrip.

(** Every pointer into the buffer is used before the buffer moves. *)
Lemma encrypt_defined {A : Type} `{AeadLaws A} (junk : nat -> Z) (this : esp_packet)
    (c : esp_context A) (spi : Z) (v : aead_view) :
  ae_view (aead c) = Some v -> sizes_aligned (av_block v) (av_iv v) ->
  bytes_ok (esp_payload this) ->
  Z.of_nat (length (esp_payload this) + av_block v + av_iv v + av_icv v + 16) < 2 ^ 32 ->
  encrypt junk this c spi <> None.
Proof.
  intros Hv Hal Hpb Hmax. destruct (ae_sizes _ _ Hv) as (Eb & Ec & Ei & Hb0 & Hg).
  destruct (next_seqno c) as [[n|] c1] eqn:Hn; [|unfold encrypt; by rewrite Hn].
  assert (aead c1 = aead c) as Ha.
  { unfold next_seqno in Hn. destruct (inbound c || _); by simplify_eq. }
  pose proof (padding_len_bound (aead c) ltac:(by rewrite Eb) (length (esp_payload this))) as Hp.
  pose proof (padding_len_block (aead c) ltac:(by rewrite Eb) (length (esp_payload this))
                ltac:(by rewrite Eb, Ei)) as Hd.
  pose proof (length_esp_plain this c1) as Hl. unfold esp_padlen in Hl. rewrite Ha in Hl.
  assert (Hroom : Z.of_nat (8 + aead_iv_size (aead c1) + length (esp_plain this c1)
                    + aead_icv_size (aead c1)) < 2 ^ 32) by (rewrite Ha, Ec, Ei; lia).
  rewrite <- Ha in Hv, Hg.
  destruct (aead_get_iv (aead c1) n (aead_iv_size (aead c1))) as [[iv|] a1] eqn:Eiv.
  - destruct (ae_get_iv_length _ _ _ _ _ _ Hv Eiv) as [Liv Biv].
    pose proof (ae_get_iv_view _ _ n (aead_iv_size (aead c1)) Hv) as Hv1.
    rewrite Eiv in Hv1. cbn [snd] in Hv1.
    rewrite (encrypt_spec junk this c c1 spi n Hn Hg Hroom iv a1 Eiv Liv); [done|].
    pose proof (esp_plain_ok this c1 Hpb) as Bp.
    destruct (ae_inverse a1 a1 v (esp_plain this c1) (esp_header spi n) iv Hv1 Hv1 Bp Biv)
      as (enc & a2 & b2 & Ee & _ & _ & Le & _).
    + by rewrite Liv, Ha, Ei.
    + rewrite Hl, <- Eb. exact Hd.
    + intros enc' a2' E. rewrite Ee in E. simplify_eq. by rewrite Le, Ha, Ec.
  - unfold encrypt. rewrite Hn, Hg. cbn [negb payload set_data with_packet].
    fold (esp_payload this). fold (esp_padlen this c1).
    destruct (write_header junk this c1 spi n Hg Hroom) as (w & rest & E & _). by rewrite E, Eiv.
Qed.

(** ** Properties *)

(** C19: ESP round trip.  A packet encapsulated by an outbound context and
    received, with its number still fresh, by the inbound context of the peer
    decapsulates to the same IP packet and next header, carries the SPI, and
    leaves both contexts in the state for the next packet: the number is
    consumed on both sides and the keys still agree. *)
Theorem esp_roundtrip {A : Type} `{AeadLaws A} (junk : nat -> Z) (this : esp_packet)
    (co ci : esp_context A) (v : aead_view) (spi : Z) (ip : ip_packet) (r : replay)
    (src dst : option host) :
  payload this = Some ip -> ip_packet_create (ip_encoding ip) = Some ip ->
  bytes_ok (ip_encoding ip) -> byte_ok (next_header this) ->
  ae_view (aead co) = Some v -> ae_view (aead ci) = Some v ->
  sizes_aligned (av_block v) (av_iv v) -> (av_block v + 3 <= 256)%nat ->
  inbound co = false -> 0 <= last_seqno co < UINT32_MAX -> 0 <= spi < 2 ^ 32 ->
  Z.of_nat (length (ip_encoding ip) + av_iv v + av_icv v + 300) < 2 ^ 32 ->
  fst (aead_get_iv (aead co) (last_seqno co + 1) (av_iv v)) <> None ->
  refines ci r -> verify_seqno ci (last_seqno co + 1) = true ->
  exists this' co' pkt' ci',
    encrypt junk this co spi = Some (SUCCESS, this', co') /\
    let pkt := esp_packet_create_from_packet
                 (Packet.packet_create_from_data src dst (get_data this')) in
    parse_header pkt = Some spi /\
    decrypt pkt ci = (SUCCESS, pkt', ci') /\
    payload pkt' = Some ip /\ next_header pkt' = next_header this /\
    last_seqno co' = last_seqno co + 1 /\ refines ci' (replay_accept r (last_seqno co + 1)) /\
    ae_view (aead co') = Some v /\ ae_view (aead ci') = Some v.
Proof.
  intros Hpl Hip Hb Hnh Hvo Hvi Hal Hbs Hout Hlast Hspi Hmax Hget Hr Hv.
  destruct (aead_get_iv (aead co) (last_seqno co + 1) (av_iv v)) as [[iv|] a1] eqn:Eiv; [|done].
  destruct (roundtrip junk this co ci v spi ip Hpl Hip Hb Hnh Hvo Hvi Hal Hbs Hout Hlast Hspi
              Hmax iv a1 src dst Eiv Hv) as (data & a2 & b2 & Ee & Va & Vb & Hp & Hd).
  eexists _, _, _, _. split; [exact Ee|]. split; [exact Hp|]. split; [exact Hd|].
  assert (UINT32_MAX = 2 ^ 32 - 1) as Emax by done.
  split_and!; try done.
  - apply accept_refines; [by apply refines_with_aead|unfold rt_seqno; lia|exact Hv].
  - rewrite set_auth_aead. exact Vb.
Qed.

(** Decapsulation touches the anti-replay state only for a packet that
    parses, whose sequence number is fresh and whose ICV the AEAD verified over
    the header, IV and ciphertext; for every other packet the context is as
    before, apart from the AEAD object. *)
Theorem decrypt_guards_window {A : Type} `{Aead A} (this : esp_packet) (c : esp_context A) :
  let '(st, _, c') := decrypt this c in
  with_aead c' (aead c) = c \/
  exists spi n iv ct icv plain a',
    parse_esp (aead c) (get_data this) = Some (spi, n, iv, ct, icv) /\
    verify_seqno c n = true /\
    aead_decrypt (aead c) (ct ++ icv) (take 8 (get_data this)) iv = (Some plain, a') /\
    c' = set_authenticated_seqno (with_aead c a') n /\ (st = SUCCESS \/ st = PARSE_ERROR).
Proof. apply decrypt_seqstate. Qed.

(** Encapsulation never writes or reads through a pointer into a writer
    buffer that has been reallocated, whatever the AEAD object answers. *)
Theorem encrypt_pointers_valid {A : Type} `{AeadLaws A} (junk : nat -> Z) (this : esp_packet)
    (c : esp_context A) (spi : Z) (v : aead_view) :
  ae_view (aead c) = Some v -> sizes_aligned (av_block v) (av_iv v) ->
  bytes_ok (esp_payload this) ->
  Z.of_nat (length (esp_payload this) + av_block v + av_iv v + av_icv v + 16) < 2 ^ 32 ->
  encrypt junk this c spi <> None.
Proof. apply encrypt_defined. Qed.

(** The padding of RFC 4303: the ICV is 4-byte aligned for every payload
    length, the plaintext fills whole blocks, the padding fits its length byte,
    and the receiver accepts exactly the byte sequence 1, 2, 3, .... *)
Theorem esp_padding {A : Type} `{Aead A} (a : A) (n : nat) (p : chunk) :
  aead_block_size a <> 0%nat ->
  ((8 + aead_iv_size a + (n + 2 + padding_len a n)) mod 4 = 0)%nat /\
  (padding_len a n < aead_block_size a + 3)%nat /\
  (sizes_aligned (aead_block_size a) (aead_iv_size a) ->
   Nat.divide (aead_block_size a) (n + 2 + padding_len a n)) /\
  (check_padding p = true <-> p = generate_padding (length p)).
Proof.
  intros Hbs. split_and!.
  - by apply padding_len_icv.
  - by apply padding_len_bound.
  - by apply padding_len_block.
  - split; [apply (check_padding_only p 0)|intros ->; apply check_generate_padding].
Qed.

(** Padding removal accepts a plaintext only if it is an IP packet followed
    by well-formed padding, its length and a next header, and returns that
    packet and next header. *)
Theorem remove_padding_sound (this this' : esp_packet) (plaintext : chunk) :
  bytes_ok plaintext -> remove_padding this plaintext = (true, this') ->
  exists pl n nh ip, plaintext = pl ++ generate_padding n ++ [Z.of_nat n] ++ [nh] /\
    ip_packet_create pl = Some ip /\ this' = EspPacket (packet this) (Some ip) nh.
Proof.
  intros Hb. unfold remove_padding.
  destruct (Reader.read_uint8_end plaintext) as [[nh r1]|] eqn:E1; [|done].
  apply Reader.read_uint8_end_inv in E1 as ->. cbn [mbind option_bind].
  destruct (Reader.read_uint8_end r1) as [[n r2]|] eqn:E2; [|done].
  apply Reader.read_uint8_end_inv in E2 as ->. cbn [mbind option_bind].
  destruct (Reader.read_data_end r2 (Z.to_nat n)) as [[p r3]|] eqn:E3; [|done].
  apply Reader.read_data_end_inv in E3 as [-> Hl]. cbn [mbind option_bind].
  destruct (check_padding p) eqn:Ec; [|done]. unfold Reader.peek.
  destruct (ip_packet_create r3) as [ip|] eqn:Ei; [|done]. intros [= <-].
  apply (check_padding_only p 0) in Ec. fold (generate_padding (length p)) in Ec.
  exists r3, (length p), nh, ip. split_and!; [|done|done].
  apply Forall_app in Hb as [Hb _]. apply Forall_app in Hb as [_ Hb]. decompose_Forall_hyps.
  rewrite <- Ec, Hl, Z2Nat.id by (unfold byte_ok in *; lia). by rewrite <- !app_assoc.
Qed.

(** *** Witnesses *)

Abbreviation toy_esp := (esp_aead Toy.toy_aead Toy.toy_crypter Toy.toy_signer nat).

(** The AEAD of the contexts created from [toy_factory], and its view. *)
Definition toy_esp_aead : toy_esp :=
  inr (AeadWrapper.aead_create (Toy.ToyCrypter 4 8 [1;2;3;4;5;6])
         (snd (MacSigner.set_key (MacSigner.mac_signer_create Toy.toy_hmac 3) [7;8;9]))
         (Iv.IvSeq (Iv.seq_create (Some 2%nat)))).
Definition toy_esp_view : aead_view :=
  AeadView 4 3 8 ([1; 7; 8; 9; 0; 0; 0; 0; 0], [1; 2; 3; 4; 5; 6]).
Lemma toy_esp_aead_view : ae_view toy_esp_aead = Some toy_esp_view.
Proof. vm_compute. reflexivity. Defined.

Definition toy_out : esp_context toy_esp := EspContext toy_esp_aead 0 0 128 [] false.
Definition toy_in : esp_context toy_esp :=
  EspContext toy_esp_aead 0 0 128 (replicate 17 0) true.
Lemma toy_in_refines : refines toy_in replay_init.
Proof.
  apply (create_refines toy_factory ENCR_AES_CTR [1;2;3;4;5;6] 2 [7;8;9] toy_in). reflexivity.
Defined.

Definition toy_ip : ip_packet :=
  IpPacket (Host AF_INET [10;0;0;1] 0) (Host AF_INET [10;0;0;2] 0) ip_sample [42] 4 1.
Definition toy_pkt : esp_packet := esp_packet_create_from_payload None None (Some toy_ip).

Lemma esp_roundtrip_witness :
  exists this' co' pkt' ci',
    encrypt junk0 toy_pkt toy_out 77 = Some (SUCCESS, this', co') /\
    let pkt := esp_packet_create_from_packet
                 (Packet.packet_create_from_data None None (get_data this')) in
    parse_header pkt = Some 77 /\ decrypt pkt toy_in = (SUCCESS, pkt', ci') /\
    payload pkt' = Some toy_ip /\ next_header pkt' = IPPROTO_IPIP /\
    last_seqno co' = 1 /\ refines ci' (replay_accept replay_init 1) /\
    ae_view (aead co') = Some toy_esp_view /\ ae_view (aead ci') = Some toy_esp_view.
Proof.
  apply (esp_roundtrip junk0 toy_pkt toy_out toy_in toy_esp_view 77 toy_ip replay_init None None);
    try exact toy_esp_aead_view; try exact toy_in_refines; try reflexivity.
  - by apply (bool_decide_unpack _).
  - by apply (bool_decide_unpack _).
  - left. split; [by exists 1%nat|by exists 2%nat].
  - vm_compute. lia.
  - by apply (bool_decide_unpack _).
  - lia.
  - vm_compute. discriminate.
Defined.

Lemma encrypt_pointers_valid_witness : encrypt junk0 toy_pkt toy_out 77 <> None.
Proof.
  apply (encrypt_pointers_valid junk0 toy_pkt toy_out 77 toy_esp_view toy_esp_aead_view).
  - left. split; [by exists 1%nat|by exists 2%nat].
  - by apply (bool_decide_unpack _).
  - reflexivity.
Defined.

Lemma esp_padding_witness :
  padding_len toy_esp_aead 21 = 1%nat /\
  ((8 + aead_iv_size toy_esp_aead + (21 + 2 + padding_len toy_esp_aead 21)) mod 4 = 0)%nat.
Proof.
  split; [reflexivity|].
  destruct (esp_padding toy_esp_aead 21 []) as [Hm _]; [vm_compute; discriminate|exact Hm].
Defined.

Lemma remove_padding_sound_witness :
  exists this', remove_padding toy_pkt (ip_sample ++ [1; 1; 4]) = (true, this') /\
  exists pl n nh ip, ip_sample ++ [1; 1; 4] = pl ++ generate_padding n ++ [Z.of_nat n] ++ [nh] /\
    ip_packet_create pl = Some ip /\ this' = EspPacket (packet toy_pkt) (Some ip) nh.
Proof.
  eexists. split; [vm_compute; reflexivity|].
  apply (remove_padding_sound toy_pkt); [by apply (bool_decide_unpack _)|vm_compute; reflexivity].
Defined.
