(* ===== verification/IpsecPolicy.v ===== *)
(** IPsec policies and their manager: [src/libipsec/ipsec_policy.c],
    [ipsec_policy_mgr.c] and the types of
    [src/libstrongswan/ipsec/ipsec_types.h].  Policies are shared objects with a
    reference count: the manager keeps them in a store, its list holds their
    identities, and an operation that follows a dangling reference is undefined
    ([None]). *)
From S2P Require Import Prelude Chunk Host TrafficSelector IpPacket.
From stdpp Require Import base numbers list option gmap sorting.
From Stdlib Require Import Lia ZArith.
Local Open Scope Z_scope.

(** ** ipsec_types *)

Inductive ipsec_mode_t : Type :=
| MODE_NONE | MODE_TRANSPORT | MODE_TUNNEL | MODE_BEET | MODE_PASS | MODE_DROP.
Inductive policy_dir_t : Type := POLICY_IN | POLICY_OUT | POLICY_FWD.
Inductive policy_type_t : Type := POLICY_IPSEC | POLICY_PASS | POLICY_DROP.
Inductive policy_priority_t : Type :=
| POLICY_PRIORITY_PASS | POLICY_PRIORITY_DEFAULT | POLICY_PRIORITY_ROUTED
| POLICY_PRIORITY_FALLBACK.

#[export] Instance ipsec_mode_eq_dec : EqDecision ipsec_mode_t.
Proof. solve_decision. Defined.
#[export] Instance policy_dir_eq_dec : EqDecision policy_dir_t.
Proof. solve_decision. Defined.
#[export] Instance policy_type_eq_dec : EqDecision policy_type_t.
Proof. solve_decision. Defined.
#[export] Instance policy_priority_eq_dec : EqDecision policy_priority_t.
Proof. solve_decision. Defined.

Record proto_cfg := ProtoCfg { pc_use : bool; pc_spi : Z }.
Record ipsec_sa_cfg_t := SaCfg {
  cfg_mode : ipsec_mode_t;
  cfg_reqid : Z;
  cfg_policy_count : Z;
  cfg_esp : proto_cfg;
  cfg_ah : proto_cfg;
  cfg_ipcomp_transform : Z;
  cfg_ipcomp_cpi : Z;
}.

Definition ipsec_sa_cfg_equals (a b : ipsec_sa_cfg_t) : bool :=
  bool_decide (cfg_mode a = cfg_mode b) && (cfg_reqid a =? cfg_reqid b)
  && (cfg_policy_count a =? cfg_policy_count b)
  && Bool.eqb (pc_use (cfg_esp a)) (pc_use (cfg_esp b))
  && (pc_spi (cfg_esp a) =? pc_spi (cfg_esp b))
  && Bool.eqb (pc_use (cfg_ah a)) (pc_use (cfg_ah b))
  && (pc_spi (cfg_ah a) =? pc_spi (cfg_ah b))
  && (cfg_ipcomp_transform a =? cfg_ipcomp_transform b)
  && (cfg_ipcomp_cpi a =? cfg_ipcomp_cpi b).

Record mark_t := Mark { mark_value : Z; mark_mask : Z }.
#[export] Instance mark_eq_dec : EqDecision mark_t.
Proof. solve_decision. Defined.

(** ** Reference counts

    [refcount_t] is an [u_int]; [ref_put] tells if the count is zero now. *)

Definition ref_get (ref : Z) : Z := u32 (ref + 1).
Definition ref_put (ref : Z) : Z * bool := let ref := u32 (ref - 1) in (ref, ref =? 0).

(** ** ipsec_policy *)

Record ipsec_policy := IpsecPolicy {
  pol_src : host;                      (* SA source address *)
  pol_dst : host;                      (* SA destination address *)
  pol_src_ts : traffic_selector;
  pol_dst_ts : traffic_selector;
  pol_protocol : Z;                    (* protocol of either selector, cached *)
  pol_direction : policy_dir_t;
  pol_type : policy_type_t;
  pol_sa : ipsec_sa_cfg_t;
  pol_mark : mark_t;
  pol_priority : policy_priority_t;
  pol_refcount : Z;                    (* refcount_t *)
}.

Definition set_refcount (p : ipsec_policy) (n : Z) : ipsec_policy :=
  IpsecPolicy (pol_src p) (pol_dst p) (pol_src_ts p) (pol_dst_ts p) (pol_protocol p)
    (pol_direction p) (pol_type p) (pol_sa p) (pol_mark p) (pol_priority p) n.

Definition set_selectors (p : ipsec_policy) (src_ts dst_ts : traffic_selector) : ipsec_policy :=
  IpsecPolicy (pol_src p) (pol_dst p) src_ts dst_ts (pol_protocol p)
    (pol_direction p) (pol_type p) (pol_sa p) (pol_mark p) (pol_priority p) (pol_refcount p).

Definition match_ (this : ipsec_policy) (src_ts dst_ts : traffic_selector)
    (direction : policy_dir_t) (reqid : Z) (mark : mark_t) (priority : policy_priority_t) : bool :=
  bool_decide (pol_direction this = direction) && bool_decide (pol_priority this = priority)
  && (cfg_reqid (pol_sa this) =? reqid) && bool_decide (pol_mark this = mark)
  && ts_equals (pol_src_ts this) src_ts && ts_equals (pol_dst_ts this) dst_ts.

Definition match_port (ts : traffic_selector) (h : host) : bool :=
  let from := ts_from_port ts in
  let to := ts_to_port ts in
  if ((from =? 0) && (to =? 0xffff)) || ((from =? 0xffff) && (to =? 0)) then true
  else (from <=? get_port h) && (get_port h <=? to).

Definition match_packet (this : ipsec_policy) (packet : ip_packet) : bool :=
  let proto := ip_next_header packet in
  ((pol_protocol this =? 0) || (pol_protocol this =? proto))
  && includes (pol_src_ts this) (ip_src packet) && match_port (pol_src_ts this) (ip_src packet)
  && includes (pol_dst_ts this) (ip_dst packet) && match_port (pol_dst_ts this) (ip_dst packet).

Definition ipsec_policy_create (src dst : host) (src_ts dst_ts : traffic_selector)
    (direction : policy_dir_t) (type : policy_type_t) (sa : ipsec_sa_cfg_t) (mark : mark_t)
    (priority : policy_priority_t) : option ipsec_policy :=
  src_ts' ← ts_clone src_ts;
  dst_ts' ← ts_clone dst_ts;
  Some (IpsecPolicy src dst src_ts' dst_ts'
          (Z.max (ts_protocol src_ts) (ts_protocol dst_ts)) direction type sa mark priority 1).

(** ** ipsec_policy_mgr *)

Definition PRIO_BASE : Z := 384.

Record policy_entry := PolicyEntry { ent_priority : Z; ent_policy : nat }.

Record policy_mgr := PolicyMgr {
  policies : list policy_entry;        (* installed policies, sorted *)
  store : gmap nat ipsec_policy;       (* all policies that are allocated *)
  fresh : nat;                         (* identities from here on are unused *)
}.

(** The priority of the class, before the selectors are considered. *)
Definition class_priority (p : policy_priority_t) : Z :=
  match p with
  | POLICY_PRIORITY_FALLBACK => Z.shiftl (Z.shiftl (Z.shiftl PRIO_BASE 1) 1) 1
  | POLICY_PRIORITY_ROUTED => Z.shiftl (Z.shiftl PRIO_BASE 1) 1
  | POLICY_PRIORITY_DEFAULT => Z.shiftl PRIO_BASE 1
  | POLICY_PRIORITY_PASS => PRIO_BASE
  end.

(** The priority, and the selectors, whose cached prefix length [to_subnet]
    may update. *)
Definition calculate_priority (policy_priority : policy_priority_t)
    (src dst : traffic_selector) : option (Z * traffic_selector * traffic_selector) :=
  let '(src, ssub) := to_subnet src in
  '(_, snet, smask) ← ssub;
  snet ← snet;
  let '(dst, dsub) := to_subnet dst in
  '(_, dnet, dmask) ← dsub;
  dnet ← dnet;
  let priority := class_priority policy_priority in
  let priority := u32 (priority - smask) in
  let priority := u32 (priority - dmask) in
  let proto := Z.max (ts_protocol src) (ts_protocol dst) in
  let port := Z.max (get_port snet) (get_port dnet) in
  let priority := u32 (Z.shiftl priority 2) in
  let priority := u32 (priority + (if port =? 0 then 2 else 0)) in
  Some (u32 (priority + (if proto =? 0 then 1 else 0)), src, dst).

(** Skip entries of lower value and insert before the first other one, or at
    the end. *)
Fixpoint insert_entry (l : list policy_entry) (e : policy_entry) : list policy_entry :=
  match l with
  | [] => [e]
  | cur :: rest => if ent_priority e <=? ent_priority cur then e :: l
                   else cur :: insert_entry rest e
  end.

Definition add_policy (this : policy_mgr) (src dst : host) (src_ts dst_ts : traffic_selector)
    (direction : policy_dir_t) (type : policy_type_t) (sa : ipsec_sa_cfg_t) (mark : mark_t)
    (priority : policy_priority_t) : option (status_t * policy_mgr) :=
  if negb (bool_decide (type = POLICY_IPSEC)) || bool_decide (direction = POLICY_FWD)
  then Some (SUCCESS, this)
  else
    policy ← ipsec_policy_create src dst src_ts dst_ts direction type sa mark priority;
    '(prio, src_ts, dst_ts) ←
      calculate_priority (pol_priority policy) (pol_src_ts policy) (pol_dst_ts policy);
    let policy := set_selectors policy src_ts dst_ts in
    let id := fresh this in
    Some (SUCCESS, PolicyMgr (insert_entry (policies this) (PolicyEntry prio id))
                             (<[id := policy]> (store this)) (S id)).

(** [policy->destroy]: the object is freed with the last reference. *)
Definition policy_destroy (this : policy_mgr) (id : nat) : option policy_mgr :=
  policy ← store this !! id;
  let '(n, last) := ref_put (pol_refcount policy) in
  Some (PolicyMgr (policies this)
          (if (last : bool) then delete id (store this)
           else <[id := set_refcount policy n]> (store this)) (fresh this)).

(** The first entry with the priority that matches, and the list without it. *)
Fixpoint remove_match (st : gmap nat ipsec_policy) (l : list policy_entry)
    (prio : Z) (f : ipsec_policy -> bool) : option (option nat * list policy_entry) :=
  match l with
  | [] => Some (None, [])
  | cur :: rest =>
    found ← if ent_priority cur =? prio
            then policy ← st !! ent_policy cur; Some (f policy) else Some false;
    if (found : bool) then Some (Some (ent_policy cur), rest)
    else '(r, rest') ← remove_match st rest prio f; Some (r, cur :: rest')
  end.

Definition del_policy (this : policy_mgr) (src_ts dst_ts : traffic_selector)
    (direction : policy_dir_t) (type : policy_type_t) (sa : ipsec_sa_cfg_t) (mark : mark_t)
    (policy_priority : policy_priority_t) : option (status_t * policy_mgr) :=
  if negb (bool_decide (type = POLICY_IPSEC)) || bool_decide (direction = POLICY_FWD)
  then Some (SUCCESS, this)
  else
    '(prio, src_ts, dst_ts) ← calculate_priority policy_priority src_ts dst_ts;
    '(found, l) ← remove_match (store this) (policies this) prio
      (fun p => match_ p src_ts dst_ts direction (cfg_reqid sa) mark policy_priority);
    let this := PolicyMgr l (store this) (fresh this) in
    match found with
    | Some id => this ← policy_destroy this id; Some (SUCCESS, this)
    | None => Some (FAILED, this)
    end.

(** [remove_last] until the list is empty. *)
Fixpoint flush_entries (rev_l : list policy_entry) (this : policy_mgr) : option policy_mgr :=
  match rev_l with
  | [] => Some this
  | e :: rev_l => this ← policy_destroy (PolicyMgr (reverse rev_l) (store this) (fresh this))
                           (ent_policy e);
                  flush_entries rev_l this
  end.

Definition flush_policies (this : policy_mgr) : option (status_t * policy_mgr) :=
  this ← flush_entries (reverse (policies this)) this; Some (SUCCESS, this).

(** The first entry the predicate holds for; undefined if the walk meets a
    freed policy. *)
Fixpoint find_entry (st : gmap nat ipsec_policy) (l : list policy_entry)
    (f : ipsec_policy -> bool) : option (option nat) :=
  match l with
  | [] => Some None
  | cur :: rest =>
    policy ← st !! ent_policy cur;
    if f policy then Some (Some (ent_policy cur)) else find_entry st rest f
  end.

Definition packet_matches (packet : ip_packet) (inbound : bool) (reqid : Z)
    (policy : ipsec_policy) : bool :=
  Bool.eqb inbound (bool_decide (pol_direction policy = POLICY_IN))
  && match_packet policy packet && ((reqid =? 0) || (reqid =? cfg_reqid (pol_sa policy))).

(** The policy found, with a new reference to it. *)
Definition find_by_packet (this : policy_mgr) (packet : ip_packet) (inbound : bool) (reqid : Z)
    : option (option nat * policy_mgr) :=
  found ← find_entry (store this) (policies this) (packet_matches packet inbound reqid);
  match found with
  | None => Some (None, this)
  | Some id =>
    policy ← store this !! id;
    Some (Some id, PolicyMgr (policies this)
                     (<[id := set_refcount policy (ref_get (pol_refcount policy))]> (store this))
                     (fresh this))
  end.

Definition ipsec_policy_mgr_create : policy_mgr := PolicyMgr [] ∅ 0.

(** ** Clients

    What the kernel interface and the processor do with the manager; a client
    releases only references it got from [find_by_packet]. *)

Inductive mgr_op :=
  | OpAdd (src dst : host) (src_ts dst_ts : traffic_selector) (direction : policy_dir_t)
      (type : policy_type_t) (sa : ipsec_sa_cfg_t) (mark : mark_t) (priority : policy_priority_t)
  | OpDel (src_ts dst_ts : traffic_selector) (direction : policy_dir_t)
      (type : policy_type_t) (sa : ipsec_sa_cfg_t) (mark : mark_t) (priority : policy_priority_t)
  | OpFlush
  | OpFind (packet : ip_packet) (inbound : bool) (reqid : Z)
  | OpRelease (n : nat).               (* the [n]-th reference held *)

Definition mgr_run_op (s : policy_mgr * list nat) (op : mgr_op) : option (policy_mgr * list nat) :=
  let '(this, refs) := s in
  match op with
  | OpAdd src dst src_ts dst_ts direction type sa mark priority =>
    '(_, m) ← add_policy this src dst src_ts dst_ts direction type sa mark priority;
    Some (m, refs)
  | OpDel src_ts dst_ts direction type sa mark priority =>
    '(_, m) ← del_policy this src_ts dst_ts direction type sa mark priority; Some (m, refs)
  | OpFlush => '(_, m) ← flush_policies this; Some (m, refs)
  | OpFind packet inbound reqid =>
    '(r, m) ← find_by_packet this packet inbound reqid;
    Some (m, match r with Some id => id :: refs | None => refs end)
  | OpRelease n =>
    match refs !! n with
    | Some id => m ← policy_destroy this id; Some (m, delete n refs)
    | None => Some s
    end
  end.

Fixpoint mgr_run (s : policy_mgr * list nat) (ops : list mgr_op) : option (policy_mgr * list nat) :=
  match ops with
  | [] => Some s
  | op :: ops => s ← mgr_run_op s op; mgr_run s ops
  end.

(** The selectors passed are ones the library's constructors return. *)
Definition op_ok (op : mgr_op) : Prop :=
  match op with
  | OpAdd _ _ src_ts dst_ts _ _ _ _ _ | OpDel src_ts dst_ts _ _ _ _ _ => ts_ok src_ts /\ ts_ok dst_ts
  | _ => True
  end.

(** ** Ordering *)

Definition entry_le (a b : policy_entry) : Prop := ent_priority a <= ent_priority b.
Abbreviation sorted := (StronglySorted entry_le).

Lemma insert_entry_perm l e : insert_entry l e ≡ₚ e :: l.
Proof.
  induction l as [|cur l IH]; [done|]. cbn [insert_entry].
  destruct (_ <=? _); [done|]. rewrite IH. constructor.
Qed.

Lemma insert_entry_sorted l e : sorted l -> sorted (insert_entry l e).
Proof.
  induction 1 as [|cur l Hs IH Hall]; cbn [insert_entry]; [repeat constructor|].
  destruct (Z.leb_spec (ent_priority e) (ent_priority cur)) as [Hle|Hlt].
  - constructor; [by constructor|]. constructor; [done|].
    eapply Forall_impl; [exact Hall|]. unfold entry_le. intros; lia.
  - constructor; [done|]. rewrite insert_entry_perm. constructor; [unfold entry_le; lia|done].
Qed.

Lemma sorted_app_inv pre e post :
  sorted (pre ++ e :: post) -> Forall (entry_le e) post /\ sorted (pre ++ post).
Proof.
  induction pre as [|x pre IH]; cbn [app]; intros Hs; apply StronglySorted_inv in Hs as [Hs Hall].
  - done.
  - destruct (IH Hs) as [He Hs']. split; [done|]. constructor; [done|].
    apply Forall_app in Hall as [H1 H2]. apply Forall_app. split; [done|].
    by decompose_Forall_hyps.
Qed.

(** The entry a walk stops at. *)
Lemma find_entry_spec st l f :
  Forall (fun e => is_Some (st !! ent_policy e)) l ->
  (exists pre e post p, l = pre ++ e :: post /\ find_entry st l f = Some (Some (ent_policy e)) /\
     st !! ent_policy e = Some p /\ f p = true /\
     Forall (fun e => f <$> st !! ent_policy e = Some false) pre) \/
  (find_entry st l f = Some None /\ Forall (fun e => f <$> st !! ent_policy e = Some false) l).
Proof.
  induction 1 as [|cur l [p Hp] Hl IH]; [by right|]. cbn [find_entry]. rewrite Hp.
  cbn [mbind option_bind]. destruct (f p) eqn:Ef.
  - left. by exists [], cur, l, p.
  - destruct IH as [(pre & e & post & q & -> & Hf & He & Hq & Hpre)|[Hf Hall]].
    + left. exists (cur :: pre), e, post, q. split_and!; try done.
      constructor; [|done]. by rewrite Hp; cbn; rewrite Ef.
    + right. split; [done|]. constructor; [|done]. by rewrite Hp; cbn; rewrite Ef.
Qed.

(** What a walk for removal yields: the first hit taken out, or nothing. *)
Inductive removal (st : gmap nat ipsec_policy) (prio : Z) (f : ipsec_policy -> bool) :
    list policy_entry -> option nat -> list policy_entry -> Prop :=
  | removal_hit pre e post p :
      ent_priority e = prio -> st !! ent_policy e = Some p -> f p = true ->
      removal st prio f (pre ++ e :: post) (Some (ent_policy e)) (pre ++ post)
  | removal_miss l :
      Forall (fun e => ent_priority e = prio -> f <$> st !! ent_policy e = Some false) l ->
      removal st prio f l None l.

Lemma removal_skip st prio f cur l r l' p :
  st !! ent_policy cur = Some p -> (ent_priority cur = prio -> f p = false) ->
  removal st prio f l r l' -> removal st prio f (cur :: l) r (cur :: l').
Proof.
  intros Hp Hf [pre e post q He Hq Hfq|l0 Hall].
  - by apply (removal_hit st prio f (cur :: pre) e post q).
  - constructor. constructor; [|done]. intros E. rewrite Hp. cbn. by rewrite Hf.
Qed.

Lemma remove_match_spec st l prio f :
  Forall (fun e => is_Some (st !! ent_policy e)) l ->
  exists r l', remove_match st l prio f = Some (r, l') /\ removal st prio f l r l'.
Proof.
  induction 1 as [|cur l [p Hp] Hl IH]; [exists None, []; split; [done|by constructor]|].
  cbn [remove_match]. rewrite Hp. destruct IH as (r & l' & -> & Hr).
  destruct (Z.eqb_spec (ent_priority cur) prio) as [E|E]; cbn [mbind option_bind].
  - destruct (f p) eqn:Ef.
    + exists (Some (ent_policy cur)), l. split; [done|].
      by apply (removal_hit st prio f [] cur l p).
    + exists r, (cur :: l'). split; [done|]. by eapply removal_skip.
  - exists r, (cur :: l'). split; [done|]. by eapply removal_skip.
Qed.

(** ** References

    [total] lists, with repetitions, everything that refers to a policy: the
    entries of the list and the references handed out. *)

Abbreviation uses := (count_occ Nat.eq_dec).

Definition counted (st : gmap nat ipsec_policy) (total : list nat) : Prop :=
  forall id, match st !! id with
             | Some p => pol_refcount p = u32 (Z.of_nat (uses total id)) /\ uses total id <> O
             | None => uses total id = O
             end.

Definition installed (this : policy_mgr) : list nat := ent_policy <$> policies this.

(** [refs] are the references the clients of the manager hold. *)
Definition mgr_ok (this : policy_mgr) (refs : list nat) : Prop :=
  sorted (policies this) /\ NoDup (installed this) /\
  counted (store this) (installed this ++ refs) /\
  (forall id, is_Some (store this !! id) -> (id < fresh this)%nat).

Lemma counted_perm st t t' : t ≡ₚ t' -> counted st t -> counted st t'.
Proof.
  intros Hp Hc id. specialize (Hc id).
  by rewrite <- (proj1 (Permutation_count_occ Nat.eq_dec t t') Hp id).
Qed.

Lemma counted_lookup st t id : counted st t -> id ∈ t -> is_Some (st !! id).
Proof.
  intros Hc Hin. specialize (Hc id). destruct (st !! id); [done|].
  apply list_elem_of_In, (count_occ_In Nat.eq_dec) in Hin. lia.
Qed.

Lemma counted_new st t id p :
  counted st t -> st !! id = None -> pol_refcount p = 1 -> counted (<[id := p]> st) (id :: t).
Proof.
  intros Hc Hn Hp i. pose proof (Hc i) as Hi. cbn [count_occ].
  destruct (Nat.eq_dec id i) as [<-|Hne].
  - rewrite lookup_insert_eq. rewrite Hn in Hi. rewrite Hi, Hp. done.
  - by rewrite lookup_insert_ne.
Qed.

Lemma counted_ref st t id p :
  counted st t -> st !! id = Some p ->
  counted (<[id := set_refcount p (ref_get (pol_refcount p))]> st) (id :: t).
Proof.
  intros Hc Hn i. pose proof (Hc i) as Hi. cbn [count_occ].
  destruct (Nat.eq_dec id i) as [<-|Hne].
  - rewrite lookup_insert_eq. rewrite Hn in Hi. destruct Hi as [-> _]. cbn [pol_refcount set_refcount].
    split; [|done]. unfold ref_get, uwrap. rewrite Z.add_mod_idemp_l by done. f_equal. lia.
  - by rewrite lookup_insert_ne.
Qed.

(** As long as the count does not wrap around, the last release frees. *)
Lemma ref_put_spec n : (0 < n)%nat -> Z.of_nat n <= 2 ^ 32 ->
  ref_put (u32 (Z.of_nat n)) = (u32 (Z.of_nat (n - 1)), (n - 1 =? 0)%nat).
Proof.
  intros Hn Hb. unfold ref_put. assert (u32 (u32 (Z.of_nat n) - 1) = Z.of_nat (n - 1)) as ->.
  { unfold uwrap. rewrite Zminus_mod_idemp_l, Z.mod_small; lia. }
  rewrite uwrap_small by lia. f_equal. lia.
Qed.

Lemma policy_destroy_counted this id t :
  counted (store this) (id :: t) -> Z.of_nat (uses (id :: t) id) <= 2 ^ 32 ->
  exists st, policy_destroy this id = Some (PolicyMgr (policies this) st (fresh this)) /\
             counted st t /\ (forall i, is_Some (st !! i) -> is_Some (store this !! i)).
Proof.
  intros Hc Hb. pose proof (Hc id) as Hid. unfold policy_destroy.
  destruct (store this !! id) as [p|] eqn:Hp; [|cbn in Hid; by destruct (Nat.eq_dec id id)].
  destruct Hid as [Hn H0]. cbn [mbind option_bind]. rewrite Hn, ref_put_spec by lia.
  cbn [count_occ] in Hn |- *. destruct (Nat.eq_dec id id) as [_|]; [|done]. cbn [Nat.sub]. rewrite Nat.sub_0_r.
  eexists. split; [done|]. split.
  - intros i. pose proof (Hc i) as Hi. cbn [count_occ] in Hi.
    destruct (Nat.eqb_spec (uses t id) 0), (Nat.eq_dec id i) as [<-|Hne].
    + by rewrite lookup_delete_eq.
    + by rewrite lookup_delete_ne.
    + by rewrite lookup_insert_eq.
    + by rewrite lookup_insert_ne.
  - intros i. destruct (_ =? _)%nat, (decide (id = i)) as [<-|Hne].
    + by rewrite lookup_delete_eq; intros [].
    + by rewrite lookup_delete_ne.
    + by rewrite Hp.
    + by rewrite lookup_insert_ne.
Qed.

Lemma mgr_ok_live this refs :
  mgr_ok this refs -> Forall (fun e => is_Some (store this !! ent_policy e)) (policies this).
Proof.
  intros (_ & _ & Hc & _). apply Forall_forall. intros e He.
  eapply counted_lookup; [exact Hc|]. apply elem_of_app. left.
  apply list_elem_of_fmap. by exists e.
Qed.

(** Few enough references are held that one more, and that of the list, can be counted. *)
Definition few (refs : list nat) : Prop := Z.of_nat (length refs) + 1 < 2 ^ 32.

Lemma uses_bound l refs id : NoDup l -> (uses (l ++ refs) id <= 1 + length refs)%nat.
Proof.
  intros Hn%NoDup_ListNoDup. rewrite count_occ_app.
  pose proof (proj1 (NoDup_count_occ Nat.eq_dec l) Hn id). pose proof (count_occ_bound Nat.eq_dec id refs). lia.
Qed.

Lemma release_ok this refs refs' id :
  mgr_ok this refs -> few refs' -> refs ≡ₚ id :: refs' ->
  exists m, policy_destroy this id = Some m /\ mgr_ok m refs' /\ policies m = policies this.
Proof.
  intros (Hs & Hn & Hc & Hf) Hb Hp.
  assert (counted (store this) (id :: installed this ++ refs')) as Hc'.
  { eapply counted_perm; [|exact Hc]. rewrite Hp. symmetry. apply Permutation_middle. }
  apply policy_destroy_counted in Hc' as (st & -> & Hc' & Hsub).
  - eexists. split; [done|]. split; [|done]. split_and!; try done. cbn. eauto.
  - cbn [count_occ]. destruct (Nat.eq_dec id id); [|done].
    pose proof (uses_bound (installed this) refs' id Hn). unfold few in Hb. lia.
Qed.

(** Taking an entry off the list leaves its reference to be released. *)
Lemma unlink_ok l pre e post st n refs :
  l = pre ++ e :: post -> mgr_ok (PolicyMgr l st n) refs ->
  mgr_ok (PolicyMgr (pre ++ post) st n) (ent_policy e :: refs).
Proof.
  intros -> (Hs & Hn & Hc & Hf). cbn in *. split_and!; try done.
  - by apply sorted_app_inv in Hs as [_ Hs].
  - unfold installed in *. cbn in *. rewrite fmap_app, fmap_cons in Hn.
    rewrite fmap_app. apply NoDup_app in Hn as (H1 & H2 & (_ & H3)%NoDup_cons).
    apply NoDup_app. split_and!; [done| |done].
    intros x Hx Hy. apply (H2 x Hx). by apply list_elem_of_further.
  - eapply counted_perm; [|exact Hc]. unfold installed. cbn.
    rewrite !fmap_app, fmap_cons. rewrite <- (Permutation_middle _ refs).
    by rewrite <- Permutation_middle, <- app_comm_cons.
Qed.

Lemma flush_entries_ok rl : forall this refs,
  policies this = reverse rl -> mgr_ok this refs -> few refs ->
  exists m, flush_entries rl this = Some m /\ mgr_ok m refs /\ policies m = [].
Proof.
  induction rl as [|e rl IH]; intros [l st n] refs Hl Hok Hb; cbn [policies] in Hl.
  { exists (PolicyMgr l st n). by rewrite Hl in *. }
  cbn [flush_entries store fresh]. rewrite reverse_cons in Hl.
  apply (unlink_ok _ _ _ _ _ _ _ Hl) in Hok. rewrite app_nil_r in Hok.
  destruct (release_ok _ _ refs (ent_policy e) Hok Hb) as (m & -> & Hok' & Hm); [done|].
  cbn [mbind option_bind]. by apply IH.
Qed.

(** ** The operations keep the invariant *)

Lemma clone_defined t : ts_ok t -> exists c, ts_clone t = Some c /\ ts_ok c.
Proof.
  intros Hok. pose proof Hok as (Ht & Hf & Hto & Bf & Bt & Hp & Hfp & Htp). unfold ts_clone.
  destruct (traffic_selector_create _ _ _ _) as [c|] eqn:Hc.
  2:{ unfold traffic_selector_create in Hc. by destruct Ht as [E|E]; rewrite E in Hc. }
  apply ts_create_ok in Hc as (Hc & _); [|done..].
  pose proof (TS_IP_LEN_le t). cbn [mbind option_bind]. eexists. split; [done|].
  pose proof Hc as (Hty & Lf & Lt & Bcf & Bct & Hpr & Hfr & Htr).
  unfold ts_ok. cbn [ts_type ts_from ts_to ts_protocol ts_from_port ts_to_port].
  rewrite !length_splice0 by len. split_and!; try done; try lia; bytes.
Qed.

(** The port [to_subnet] puts into the network address. *)
Definition single_port (t : traffic_selector) : Z :=
  if ts_to_port t =? ts_from_port t then ts_to_port t else 0.

(** The prefix length [to_subnet] reports. *)
Definition prefix_len (t : traffic_selector) : Z :=
  if ts_netbits t =? NON_SUBNET_ADDRESS_RANGE then snd (calc_netbits t) else ts_netbits t.

Definition netbits_ok (t : traffic_selector) : Prop :=
  ts_netbits t = NON_SUBNET_ADDRESS_RANGE \/ 0 <= ts_netbits t <= 8 * Z.of_nat (TS_IP_LEN t).

Lemma net_created family len mask from port (net := replicate len 0)
    (n := Z.to_nat ((mask + 7) / 8)) f :
  family = AF_INET /\ len = IPV4_LEN \/ family = AF_INET6 /\ len = IPV6_LEN ->
  exists h, host_create_from_chunk family
    (if mask =? 0 then net else alter f (n - 1)%nat (splice 0 (take n from) net)) port = Some h.
Proof.
  intros Hf. set (a := if mask =? 0 then _ else _).
  assert (len <= length a)%nat as Hl.
  { subst a net. destruct (mask =? 0); [by rewrite length_replicate|].
    rewrite length_alter. unfold splice. rewrite !length_app, length_drop, length_replicate. lia. }
  clearbody a. unfold host_create_from_chunk.
  destruct Hf as [[-> ->]|[-> ->]]; (case_match eqn:E; [apply Nat.ltb_lt in E; lia|by eexists]).
Qed.

Lemma to_subnet_defined t :
  ts_ok t -> exists n b net, to_subnet t = (set_netbits t n, Some (b, Some net, prefix_len t)) /\
                             get_port net = single_port t.
Proof.
  intros (Ht & _ & _ & _ & _ & _ & Hf & Hto). unfold to_subnet, prefix_len.
  assert (exists n, (if ts_netbits t =? NON_SUBNET_ADDRESS_RANGE then calc_netbits t
                     else (t, ts_netbits t)) =
            (set_netbits t n, if ts_netbits t =? NON_SUBNET_ADDRESS_RANGE
                              then snd (calc_netbits t) else ts_netbits t)) as [n ->].
  { destruct (_ =? _).
    - eexists. rewrite (surjective_pairing (calc_netbits t)) at 1. by rewrite calc_netbits_fst.
    - exists (ts_netbits t). by destruct t. }
  set (mask := if ts_netbits t =? _ then _ else _). exists n.
  cbn [set_netbits ts_type ts_from ts_to_port ts_from_port ts_netbits].
  fold (single_port t).
  assert (0 <= single_port t < 65536) by (unfold single_port; case_match; lia).
  destruct Ht as [E|E]; rewrite E; cbn [ts_type].
  - edestruct (net_created AF_INET IPV4_LEN) as [h Hh]; [by left|]. rewrite Hh.
    do 2 eexists. split; [done|]. by eapply create_from_chunk_port.
  - edestruct (net_created AF_INET6 IPV6_LEN) as [h Hh]; [by right|]. rewrite Hh.
    do 2 eexists. split; [done|]. by eapply create_from_chunk_port.
Qed.

Lemma netbits_loop_bound from to todo prefix n size :
  Forall (fun x : nat * Z => (fst x < size)%nat /\ 0 <= snd x <= 7) todo ->
  0 <= n <= 8 * Z.of_nat size ->
  0 <= snd (calc_netbits_loop from to todo prefix n) <= 8 * Z.of_nat size.
Proof.
  intros Hall. revert prefix n.
  induction Hall as [|[byte bit] todo [Hb Hbit] Hall IH]; intros prefix n Hn; [done|].
  cbn [fst snd calc_netbits_loop] in *.
  destruct prefix; case_match; try (by apply IH); [|done]. apply IH. lia.
Qed.

Lemma bit_positions_range size :
  Forall (fun x : nat * Z => (fst x < size)%nat /\ 0 <= snd x <= 7) (bit_positions size).
Proof.
  unfold bit_positions. apply Forall_forall. intros [byte bit].
  rewrite list_elem_of_bind.
  intros (b & (x & [=-> ->]%list_elem_of_singleton & Hx)%list_elem_of_bind & Hb).
  apply elem_of_seq in Hb. cbn [fst snd]. split; [lia|].
  rewrite !elem_of_cons in Hx. destruct_or! Hx; try lia. by apply not_elem_of_nil in Hx.
Qed.

Lemma prefix_len_range t : netbits_ok t -> 0 <= prefix_len t <= 8 * Z.of_nat (TS_IP_LEN t).
Proof.
  unfold netbits_ok, prefix_len. intros Hn. destruct (Z.eqb_spec (ts_netbits t) NON_SUBNET_ADDRESS_RANGE).
  - unfold calc_netbits. destruct (calc_netbits_loop _ _ _ _ _) as [field ret] eqn:E.
    change ret with (snd (field, ret)). rewrite <- E. apply netbits_loop_bound; [|lia].
    apply bit_positions_range.
  - destruct Hn; [done|lia].
Qed.

(** The priority without machine arithmetic. *)
Definition prio_value (c : policy_priority_t) (src dst : traffic_selector) : Z :=
  4 * (class_priority c - prefix_len src - prefix_len dst)
  + (if Z.max (single_port src) (single_port dst) =? 0 then 2 else 0)
  + (if Z.max (ts_protocol src) (ts_protocol dst) =? 0 then 1 else 0).

Lemma calculate_priority_defined c src dst :
  ts_ok src -> ts_ok dst -> exists v n n',
  calculate_priority c src dst = Some (v, set_netbits src n, set_netbits dst n').
Proof.
  intros Hs Hd. unfold calculate_priority.
  apply to_subnet_defined in Hs as (n & b & net & -> & _).
  apply to_subnet_defined in Hd as (n' & b' & net' & -> & _). cbn [mbind option_bind]. eauto.
Qed.

Lemma class_priority_eq c :
  class_priority c = match c with
                     | POLICY_PRIORITY_FALLBACK => 3072 | POLICY_PRIORITY_ROUTED => 1536
                     | POLICY_PRIORITY_DEFAULT => 768 | POLICY_PRIORITY_PASS => 384
                     end.
Proof. by destruct c. Qed.

Lemma class_priority_bounds c : 384 <= class_priority c <= 3072.
Proof. by destruct c. Qed.

Lemma calculate_priority_value c src dst :
  ts_ok src -> ts_ok dst -> netbits_ok src -> netbits_ok dst ->
  fst ∘ fst <$> calculate_priority c src dst = Some (prio_value c src dst) /\
  0 <= prio_value c src dst < 2 ^ 32.
Proof.
  intros Hs Hd Ns Nd. unfold calculate_priority, prio_value.
  apply to_subnet_defined in Hs as (n & b & net & -> & Hsp).
  apply to_subnet_defined in Hd as (n' & b' & net' & -> & Hdp).
  cbn [mbind option_bind fmap option_fmap option_map compose fst ts_protocol set_netbits].
  rewrite Hsp, Hdp.
  pose proof (prefix_len_range _ Ns). pose proof (prefix_len_range _ Nd).
  pose proof (TS_IP_LEN_le src). pose proof (TS_IP_LEN_le dst).
  pose proof (class_priority_bounds c).
  set (fp := if Z.max (single_port _) _ =? 0 then 2 else 0).
  set (fq := if Z.max (ts_protocol _) _ =? 0 then 1 else 0).
  assert (0 <= fp <= 2) by (subst fp; case_match; lia).
  assert (0 <= fq <= 1) by (subst fq; case_match; lia).
  clearbody fp fq. split; [|lia]. f_equal.
  rewrite (uwrap_small 32 (class_priority c - _)), (uwrap_small 32 (_ - prefix_len dst)) by lia.
  rewrite Z.shiftl_mul_pow2 by lia. rewrite (uwrap_small 32 (_ * _)) by lia.
  rewrite (uwrap_small 32 (_ + fp)) by lia. rewrite uwrap_small by lia. lia.
Qed.

Lemma fresh_unused this refs : mgr_ok this refs -> store this !! fresh this = None.
Proof.
  intros (_ & _ & _ & Hf). destruct (store this !! fresh this) eqn:E; [|done].
  pose proof (Hf (fresh this) ltac:(by rewrite E)). lia.
Qed.

Lemma add_ok this refs src dst s d dir ty sa mk c :
  mgr_ok this refs -> ts_ok s -> ts_ok d ->
  exists m, add_policy this src dst s d dir ty sa mk c = Some (SUCCESS, m) /\ mgr_ok m refs.
Proof.
  intros (Hs & Hn & Hc & Hf) Ts Td. unfold add_policy.
  destruct (_ || _); [by exists this|]. unfold ipsec_policy_create.
  apply clone_defined in Ts as (s' & -> & Ts). apply clone_defined in Td as (d' & -> & Td).
  cbn [mbind option_bind pol_priority pol_src_ts pol_dst_ts].
  destruct (calculate_priority_defined c s' d' Ts Td) as (v & n & n' & ->).
  cbn [mbind option_bind]. eexists. split; [done|].
  pose proof (fresh_unused this refs (conj Hs (conj Hn (conj Hc Hf)))) as Hnone.
  split_and!; cbn [policies store fresh].
  - by apply insert_entry_sorted.
  - unfold installed. cbn. rewrite insert_entry_perm. cbn. constructor; [|done].
    intros Hin. destruct (counted_lookup _ _ (fresh this) Hc) as [p Hp];
      [apply elem_of_app; by left|congruence].
  - eapply counted_perm; [|by apply counted_new].
    unfold installed. cbn. by rewrite insert_entry_perm.
  - intros id. rewrite lookup_insert_is_Some. intros [<-|[_ Hid]]; [lia|].
    specialize (Hf id Hid). lia.
Qed.

Lemma del_ok this refs s d dir ty sa mk c :
  mgr_ok this refs -> few refs -> ts_ok s -> ts_ok d ->
  exists r m, del_policy this s d dir ty sa mk c = Some (r, m) /\ mgr_ok m refs.
Proof.
  intros Hok Hb Ts Td. unfold del_policy. destruct (_ || _); [by exists SUCCESS, this|].
  destruct (calculate_priority_defined c s d Ts Td) as (v & n & n' & ->). cbn [mbind option_bind].
  edestruct (remove_match_spec (store this) (policies this) v) as (r & l' & -> & Hr);
    [by eapply mgr_ok_live|].
  cbn [mbind option_bind]. destruct this as [l st nx]. cbn [policies store fresh] in *.
  inversion Hr as [pre e post p Hprio Hst Hfp Hl|]; subst.
  - apply (unlink_ok _ _ _ _ _ _ _ eq_refl) in Hok.
    destruct (release_ok _ _ refs (ent_policy e) Hok Hb) as (m & -> & Hok' & _); [done|].
    cbn [mbind option_bind]. eauto.
  - eauto.
Qed.

Lemma find_ok this refs packet inbound reqid :
  mgr_ok this refs ->
  exists r m, find_by_packet this packet inbound reqid = Some (r, m) /\
    mgr_ok m (match r with Some id => id :: refs | None => refs end) /\ policies m = policies this /\
    match r with
    | Some id => exists e p, e ∈ policies this /\ ent_policy e = id /\ store this !! id = Some p /\
        packet_matches packet inbound reqid p = true /\
        store m !! id = Some (set_refcount p (ref_get (pol_refcount p)))
    | None => m = this /\
        Forall (fun e => packet_matches packet inbound reqid <$> store this !! ent_policy e = Some false)
          (policies this)
    end.
Proof.
  intros Hok. unfold find_by_packet.
  destruct (find_entry_spec (store this) (policies this) (packet_matches packet inbound reqid))
    as [(pre & e & post & p & Hl & -> & Hst & Hp & _)|[-> Hall]]; [by eapply mgr_ok_live| |].
  - cbn [mbind option_bind]. rewrite Hst. do 2 eexists. split; [done|].
    destruct Hok as (Hs & Hn & Hc & Hf). split; [|split; [done|]].
    + split_and!; cbn [policies store fresh]; try done.
      * eapply counted_perm; [|by apply counted_ref]. apply Permutation_middle.
      * intros id. rewrite lookup_insert_is_Some'. intros [<-|Hid]; [|by apply Hf].
        apply Hf. by eexists.
    + exists e, p. split_and!; try done; [rewrite Hl; apply elem_of_app; right; left|].
      cbn. by rewrite lookup_insert_eq.
  - do 2 eexists. by split_and!.
Qed.

Lemma run_op_ok s op :
  mgr_ok (fst s) (snd s) -> few (snd s) -> op_ok op ->
  exists s', mgr_run_op s op = Some s' /\ mgr_ok (fst s') (snd s').
Proof.
  destruct s as [this refs]. cbn [fst snd]. intros Hok Hb Hop. destruct op; cbn [mgr_run_op op_ok] in *.
  - destruct Hop. edestruct add_ok as (m & -> & Hm); [done..|]. by exists (m, refs).
  - destruct Hop. edestruct del_ok as (r & m & -> & Hm); [done..|]. by exists (m, refs).
  - unfold flush_policies.
    destruct (flush_entries_ok (reverse (policies this)) this refs) as (m & -> & Hm & _);
      [by rewrite reverse_involutive|done|done|]. by exists (m, refs).
  - edestruct find_ok as (r & m & -> & Hm & _ & _); [done|]. eexists (m, _). by split.
  - destruct (refs !! n) as [id|] eqn:E; [|by exists (this, refs)].
    pose proof (delete_Permutation _ _ _ E) as Hp.
    destruct (release_ok this refs (delete n refs) id Hok) as (m & -> & Hm & _); [|done|].
    { unfold few in *. rewrite Hp in Hb. cbn [length] in Hb. lia. } by exists (m, delete n refs).
Qed.

(** No more references than can be counted are held in front of any operation. *)
Fixpoint few_held (s : policy_mgr * list nat) (ops : list mgr_op) : bool :=
  match ops with
  | [] => true
  | op :: ops =>
    (Z.of_nat (length (snd s)) + 1 <? 2 ^ 32) &&
    match mgr_run_op s op with Some s => few_held s ops | None => true end
  end.

Lemma mgr_run_ok ops : forall s, mgr_ok (fst s) (snd s) -> Forall op_ok ops -> few_held s ops = true ->
  exists m refs, mgr_run s ops = Some (m, refs) /\ mgr_ok m refs.
Proof.
  induction ops as [|op ops IH]; intros s Hs Hops Hb; cbn [mgr_run few_held] in *.
  - exists (fst s), (snd s). by destruct s.
  - apply andb_true_iff in Hb as [Hb Hrest]. apply Forall_cons in Hops as [Hop Hops].
    destruct (run_op_ok s op) as (s' & E & Hs'); [done|unfold few; lia|done|]. rewrite E in *. by apply IH.
Qed.

Lemma mgr_create_ok : mgr_ok ipsec_policy_mgr_create [].
Proof. split_and!; cbn; try constructor. by intros id [? ?]. Qed.

(** ** Clones *)

(** No port of the selector is a bare ICMP type, as its constructor ensures. *)
Definition norm_ts (t : traffic_selector) : Prop :=
  is_icmp (ts_protocol t) = true -> ports_norm t = true.

Lemma clone_spec t :
  ts_ok t -> norm_ts t -> exists c, ts_clone t = Some c /\ ts_ok c /\ ts_equals c t = true /\
    ts_protocol c = ts_protocol t /\ ts_netbits c = ts_netbits t /\ ts_type c = ts_type t /\
    single_port c = single_port t /\ ts_from_port c = ts_from_port t /\ ts_to_port c = ts_to_port t /\
    take (TS_IP_LEN t) (ts_from c) = take (TS_IP_LEN t) (ts_from t) /\
    take (TS_IP_LEN t) (ts_to c) = take (TS_IP_LEN t) (ts_to t).
Proof.
  intros Hok Hn. destruct (clone_defined t Hok) as (c & Hc & Hcok). exists c.
  pose proof Hok as (Ht & Lf & Lt & Bf & Bt & Hp & Hfp & Htp). pose proof (TS_IP_LEN_le t).
  assert (ts_protocol c = ts_protocol t /\ ts_netbits c = ts_netbits t /\ ts_type c = ts_type t /\
    ts_from_port c = ts_from_port t /\ ts_to_port c = ts_to_port t /\
    take (TS_IP_LEN t) (ts_from c) = take (TS_IP_LEN t) (ts_from t) /\
    take (TS_IP_LEN t) (ts_to c) = take (TS_IP_LEN t) (ts_to t))
    as (E1 & E2 & E3 & E4 & E5 & E6 & E7).
  { unfold ts_clone in Hc. apply bind_Some in Hc as (d & Hd & [= <-]).
    apply ts_create_ok in Hd as (Hd & Ht' & Hp' & _ & Hf' & Hto' & _); [|done..].
    cbn [ts_protocol ts_netbits ts_type ts_from_port ts_to_port ts_from ts_to].
    rewrite Hf', Hto', !take_splice0 by len. unfold norm_ts, ports_norm in Hn.
    destruct (is_icmp (ts_protocol t)); [|by split_and!].
    specialize (Hn eq_refl). bsplit. rewrite !icmp_port_norm by done. by split_and!. }
  split_and!; try done; [|unfold single_port; by rewrite E4, E5].
  apply ts_equals_spec; [done..|]. unfold get_from_address, get_to_address.
  assert (TS_IP_LEN c = TS_IP_LEN t) as -> by (unfold TS_IP_LEN; by rewrite E3). by split_and!.
Qed.

Lemma nth_take_eq n j (a b : chunk) : take n a = take n b -> (j < n)%nat -> nth j a 0 = nth j b 0.
Proof.
  intros E Hj. rewrite <- (nth_take_lt a n j) by done. by rewrite E, nth_take_lt.
Qed.

Lemma netbits_loop_ext from to from' to' todo size prefix n :
  Forall (fun x : nat * Z => (fst x < size)%nat /\ 0 <= snd x <= 7) todo ->
  take size from = take size from' -> take size to = take size to' ->
  calc_netbits_loop from to todo prefix n = calc_netbits_loop from' to' todo prefix n.
Proof.
  intros Hall Hf Ht. revert prefix n.
  induction Hall as [|[byte bit] todo [Hb _] Hall IH]; intros prefix n; [done|].
  cbn [calc_netbits_loop fst] in *. unfold bitmask_set.
  rewrite (nth_take_eq _ _ _ _ Hf Hb), (nth_take_eq _ _ _ _ Ht Hb). by rewrite !IH.
Qed.

Lemma prio_value_clone c s d s' d' :
  ts_ok s -> norm_ts s -> ts_clone s = Some s' -> ts_ok d -> norm_ts d -> ts_clone d = Some d' ->
  prio_value c s' d' = prio_value c s d.
Proof.
  assert (forall t t', ts_ok t -> norm_ts t -> ts_clone t = Some t' ->
            prefix_len t' = prefix_len t /\ ts_protocol t' = ts_protocol t /\
            single_port t' = single_port t) as Hcl.
  { intros t t' Hok Hn Hc. destruct (clone_spec t Hok Hn)
      as (t0 & Hc0 & _ & _ & Hp & Hb & Ht & Hport & _ & _ & Hf & Hto).
    rewrite Hc in Hc0. injection Hc0 as <-. split_and!; try done.
    unfold prefix_len, calc_netbits. rewrite Hb.
    assert (TS_IP_LEN t' = TS_IP_LEN t) as -> by (unfold TS_IP_LEN; by rewrite Ht).
    rewrite (netbits_loop_ext _ _ (ts_from t) (ts_to t) _ (TS_IP_LEN t))
      by (done || apply bit_positions_range).
    by destruct (calc_netbits_loop _ _ _ _ _). }
  intros Hs Ns Cs Hd Nd Cd. unfold prio_value.
  destruct (Hcl s s' Hs Ns Cs) as (-> & -> & ->). by destruct (Hcl d d' Hd Nd Cd) as (-> & -> & ->).
Qed.

Lemma insert_remove st l e f p :
  st !! ent_policy e = Some p -> f p = true ->
  remove_match st (insert_entry l e) (ent_priority e) f = Some (Some (ent_policy e), l).
Proof.
  intros Hst Hf. induction l as [|cur l IH]; cbn [insert_entry].
  - cbn [remove_match]. rewrite Z.eqb_refl, Hst. cbn [mbind option_bind]. by rewrite Hf.
  - destruct (Z.leb_spec (ent_priority e) (ent_priority cur)) as [Hle|Hlt]; cbn [remove_match].
    + rewrite Z.eqb_refl, Hst. cbn [mbind option_bind]. by rewrite Hf.
    + rewrite (proj2 (Z.eqb_neq _ _)) by lia. cbn [mbind option_bind]. by rewrite IH.
Qed.

(** ** Properties *)

(** C22: Whatever sequence of adding, deleting, flushing, finding and releasing
    is run on a new manager, no policy is used after it was freed (every
    operation is defined), the list stays sorted by priority, the reference
    count of every policy is the number of list entries and client references
    to it (as an unsigned int), and a policy is allocated exactly while that number is
    not zero.  The condition is that in front of each operation the clients hold fewer
    than 2^32 - 1 references, or the count of a policy could wrap around. *)
Theorem policies_reference_safe (ops : list mgr_op) :
  Forall op_ok ops -> few_held (ipsec_policy_mgr_create, []) ops = true ->
  exists m refs, mgr_run (ipsec_policy_mgr_create, []) ops = Some (m, refs) /\ mgr_ok m refs.
Proof. intros Hops Hb. apply mgr_run_ok; try done. apply mgr_create_ok. Qed.

(** [find_by_packet] finds a policy exactly when an installed one of the
    direction, with the reqid, matches the packet, and the one it returns has
    the numerically lowest, that is highest, priority of all that match. *)
Theorem find_by_packet_best (this : policy_mgr) (refs : list nat) (packet : ip_packet)
    (inbound : bool) (reqid : Z) :
  mgr_ok this refs ->
  let hit e := packet_matches packet inbound reqid <$> store this !! ent_policy e = Some true in
  exists r m, find_by_packet this packet inbound reqid = Some (r, m) /\
  match r with
  | Some id => exists e, e ∈ policies this /\ ent_policy e = id /\ hit e /\
                 forall e', e' ∈ policies this -> hit e' -> ent_priority e <= ent_priority e'
  | None => forall e, e ∈ policies this -> ~ hit e
  end.
Proof.
  intros Hok hit. unfold find_by_packet.
  destruct (find_entry_spec (store this) (policies this) (packet_matches packet inbound reqid))
    as [(pre & e & post & p & Hl & -> & Hst & Hp & Hpre)|[-> Hall]]; [by eapply mgr_ok_live| |].
  - cbn [mbind option_bind]. rewrite Hst. do 2 eexists. split; [done|]. exists e.
    rewrite Hl. split_and!; [set_solver|done|unfold hit; rewrite Hst; cbn; by rewrite Hp|].
    destruct Hok as (Hs & _). rewrite Hl in Hs. apply sorted_app_inv in Hs as [Hpost _].
    intros e' [Hin|[->|Hin]%elem_of_cons]%elem_of_app Hhit; [|lia|].
    + rewrite Forall_forall in Hpre. unfold hit in Hhit. by rewrite (Hpre e' Hin) in Hhit.
    + rewrite Forall_forall in Hpost. by apply Hpost.
  - cbn [mbind option_bind]. do 2 eexists. split; [done|]. intros e Hin Hhit.
    rewrite Forall_forall in Hall. unfold hit in Hhit. by rewrite (Hall e Hin) in Hhit.
Qed.

(** The order in which policies are meant to be considered: the class first,
    then the selectors with the longer prefixes, then those with a port, then
    those with a protocol. *)
Definition considered_before (c c' : policy_priority_t) (s d s' d' : traffic_selector) : Prop :=
  let bits a b := prefix_len a + prefix_len b in
  let noport a b := Z.b2z (Z.max (single_port a) (single_port b) =? 0) in
  let noproto a b := Z.b2z (Z.max (ts_protocol a) (ts_protocol b) =? 0) in
  class_priority c < class_priority c' \/
  c = c' /\ (bits s' d' < bits s d \/
  bits s' d' = bits s d /\ (noport s d < noport s' d' \/
  noport s d = noport s' d' /\ noproto s d < noproto s' d')).

(** The priority never wraps around and orders policies lexicographically:
    by class, whatever the selectors are, then by the sum of the prefix
    lengths, then by a port and by a protocol being given. *)
Theorem priority_lexicographic (c c' : policy_priority_t) (s d s' d' : traffic_selector) :
  ts_ok s -> ts_ok d -> ts_ok s' -> ts_ok d' ->
  netbits_ok s -> netbits_ok d -> netbits_ok s' -> netbits_ok d' ->
  exists v v', fst ∘ fst <$> calculate_priority c s d = Some v /\
               fst ∘ fst <$> calculate_priority c' s' d' = Some v' /\
               (v < v' <-> considered_before c c' s d s' d').
Proof.
  intros Ts Td Ts' Td' Ns Nd Ns' Nd'.
  destruct (calculate_priority_value c s d) as [Hv _]; [done..|].
  destruct (calculate_priority_value c' s' d') as [Hv' _]; [done..|].
  do 2 eexists. split; [exact Hv|]. split; [exact Hv'|]. unfold prio_value, considered_before.
  pose proof (prefix_len_range _ Ns). pose proof (prefix_len_range _ Nd).
  pose proof (prefix_len_range _ Ns'). pose proof (prefix_len_range _ Nd').
  pose proof (TS_IP_LEN_le s). pose proof (TS_IP_LEN_le d).
  pose proof (TS_IP_LEN_le s'). pose proof (TS_IP_LEN_le d').
  assert (forall b : bool, (if b then 2 else 0) = 2 * Z.b2z b) as E2 by (by intros []).
  assert (forall b : bool, (if b then 1 else 0) = Z.b2z b) as E1 by (by intros []).
  assert (forall b : bool, 0 <= Z.b2z b <= 1) as Hb by (intros []; cbn; lia).
  rewrite !E1, !E2.
  pose proof (Hb (Z.max (single_port s) (single_port d) =? 0)).
  pose proof (Hb (Z.max (single_port s') (single_port d') =? 0)).
  pose proof (Hb (Z.max (ts_protocol s) (ts_protocol d) =? 0)).
  pose proof (Hb (Z.max (ts_protocol s') (ts_protocol d') =? 0)).
  destruct (decide (c = c')) as [->|Hne].
  { clear -H H0 H1 H2 H7 H8 H9 H10.
    split; [intros ?; right; split; [done|lia]|intros [?|[_ ?]]; lia]. }
  assert (class_priority c + 384 <= class_priority c' \/ class_priority c' + 384 <= class_priority c)
    by (rewrite !class_priority_eq; clear -Hne; destruct c, c'; done || lia).
  split; [intros ?; left; lia|intros [?|[? _]]; [lia|done]].
Qed.

(** The policy is for the packet when both of its ends are selected. *)
Lemma match_port_spec t h :
  is_opaque t = false -> ts_ok t -> host_ok h -> match_port t h = ports_match t (get_port h).
Proof.
  unfold is_opaque, match_port, ports_match. intros Ho (_ & _ & _ & _ & _ & _ & Hf & Ht) Hh.
  pose proof (get_port_range h Hh). case_match; lia.
Qed.

(** A policy matches a packet exactly when both traffic selectors it was
    created with select the packet's protocol and its source respectively
    destination, address and port, provided that the selectors agree on the
    protocol (or leave it open) and neither has the OPAQUE port range. *)
Theorem match_packet_selects (src dst : host) (s d : traffic_selector) (dir : policy_dir_t)
    (ty : policy_type_t) (sa : ipsec_sa_cfg_t) (mk : mark_t) (c : policy_priority_t) (packet : ip_packet) :
  ts_ok s -> ts_ok d -> norm_ts s -> norm_ts d -> proto_compat s d = true ->
  is_opaque s = false -> is_opaque d = false -> host_ok (ip_src packet) -> host_ok (ip_dst packet) ->
  exists p, ipsec_policy_create src dst s d dir ty sa mk c = Some p /\
    match_packet p packet = selects s (ip_next_header packet) (ip_src packet) &&
                            selects d (ip_next_header packet) (ip_dst packet).
Proof.
  intros Ts Td Ns Nd Hc Os Od Hs Hd. unfold ipsec_policy_create.
  destruct (clone_spec s Ts Ns) as (s' & -> & Ts' & Es & Ps & _ & _ & _ & Fs & Gs & _).
  destruct (clone_spec d Td Nd) as (d' & -> & Td' & Ed & Pd & _ & _ & _ & Fd & Gd & _).
  cbn [mbind option_bind]. eexists. split; [done|]. unfold match_packet.
  cbn [pol_protocol pol_src_ts pol_dst_ts].
  rewrite !match_port_spec by (done || unfold is_opaque; by rewrite ?Fs, ?Gs, ?Fd, ?Gd).
  rewrite <- (selects_ext s' s), <- (selects_ext d' d) by done. unfold selects, proto_match.
  rewrite Ps, Pd. destruct Ts as (_ & _ & _ & _ & _ & Hps & _), Td as (_ & _ & _ & _ & _ & Hpd & _).
  assert ((Z.max (ts_protocol s) (ts_protocol d) =? 0) ||
          (Z.max (ts_protocol s) (ts_protocol d) =? ip_next_header packet) =
          ((ts_protocol s =? 0) || (ts_protocol s =? ip_next_header packet)) &&
          ((ts_protocol d =? 0) || (ts_protocol d =? ip_next_header packet))) as ->.
  { unfold proto_compat in Hc. lia. }
  repeat (destruct (includes _ _), (ports_match _ _)); rewrite ?andb_true_r, ?andb_false_r; try done.
Qed.

(** Deleting a policy with the arguments it was added with takes exactly it
    off the list again and frees it; every older policy is left as it was, also
    one with the same selectors and priority. *)
Theorem add_del_policy (this : policy_mgr) (refs : list nat) (src dst : host)
    (s d : traffic_selector) (dir : policy_dir_t) (sa : ipsec_sa_cfg_t) (mk : mark_t)
    (c : policy_priority_t) :
  mgr_ok this refs -> dir <> POLICY_FWD ->
  ts_ok s -> ts_ok d -> norm_ts s -> norm_ts d -> netbits_ok s -> netbits_ok d ->
  exists m m', add_policy this src dst s d dir POLICY_IPSEC sa mk c = Some (SUCCESS, m) /\
    length (policies m) = S (length (policies this)) /\
    del_policy m s d dir POLICY_IPSEC sa mk c = Some (SUCCESS, m') /\
    policies m' = policies this /\ store m' = store this.
Proof.
  intros Hok Hdir Ts Td Ns Nd Bs Bd.
  destruct (clone_spec s Ts Ns) as (s' & Cs & Ts' & Es & _ & Nbs & Tys & _).
  destruct (clone_spec d Td Nd) as (d' & Cd & Td' & Ed & _ & Nbd & Tyd & _).
  assert (netbits_ok s' /\ netbits_ok d') as [Bs' Bd']
    by (unfold netbits_ok, TS_IP_LEN; by rewrite Nbs, Nbd, Tys, Tyd).
  destruct (calculate_priority_value c s' d') as [Hv _]; [done..|].
  destruct (calculate_priority_value c s d) as [Hw _]; [done..|].
  rewrite (prio_value_clone c s d s' d') in Hv by done.
  destruct (calculate_priority_defined c s' d' Ts' Td') as (v & n1 & n2 & Hp').
  destruct (calculate_priority_defined c s d Ts Td) as (w & n3 & n4 & Hp).
  rewrite Hp' in Hv. rewrite Hp in Hw. cbn in Hv, Hw. injection Hv as ->. injection Hw as ->.
  unfold add_policy, del_policy, ipsec_policy_create.
  rewrite !(bool_decide_eq_true_2 (POLICY_IPSEC = _)), (bool_decide_eq_false_2 (dir = _)) by done.
  cbn [negb orb]. rewrite Cs, Cd. cbn [mbind option_bind pol_priority pol_src_ts pol_dst_ts].
  rewrite Hp', Hp. cbn [mbind option_bind]. do 2 eexists. split; [done|].
  cbn [policies store fresh]. split; [by rewrite insert_entry_perm|].
  erewrite insert_remove; [|by rewrite lookup_insert_eq|].
  2:{ unfold match_. cbn. rewrite !bool_decide_eq_true_2, Z.eqb_refl by done. cbn. apply andb_true_iff. done. }
  cbn [mbind option_bind ent_policy]. unfold policy_destroy. cbn [store policies fresh].
  rewrite lookup_insert_eq. cbn. split_and!; [done..|].
  by apply delete_insert_id, (fresh_unused this refs).
Qed.

(** *** Witnesses *)

Definition cfg_sample : ipsec_sa_cfg_t :=
  SaCfg MODE_TUNNEL 7 2 (ProtoCfg true 1) (ProtoCfg false 0) 0 0.
Definition mark_sample : mark_t := Mark 0 0.
Definition add_sample (s d : traffic_selector) : mgr_op :=
  OpAdd host_a host_b s d POLICY_OUT POLICY_IPSEC cfg_sample mark_sample POLICY_PRIORITY_DEFAULT.
Definition packet_sample : ip_packet :=
  IpPacket host_web host_web [] [] 4 6.
Definition ops_sample : list mgr_op :=
  [add_sample ts_net10 ts_net10; add_sample ts_web ts_web; OpFind packet_sample false 7;
   OpDel ts_web ts_web POLICY_OUT POLICY_IPSEC cfg_sample mark_sample POLICY_PRIORITY_DEFAULT;
   OpFind packet_sample false 7; OpRelease 1; OpFlush].

Lemma ops_sample_ok : Forall op_ok ops_sample.
Proof. repeat constructor; apply ts_net10_ok || apply ts_web_ok. Defined.

Lemma policies_reference_safe_witness :
  exists m refs, mgr_run (ipsec_policy_mgr_create, []) ops_sample = Some (m, refs) /\ mgr_ok m refs.
Proof. apply (policies_reference_safe ops_sample ops_sample_ok). vm_compute. reflexivity. Defined.

(** After the sample run only the reference still held keeps a policy. *)
Lemma ops_sample_leaves :
  (fun s => (policies (fst s), size (store (fst s)), snd s)) <$>
    mgr_run (ipsec_policy_mgr_create, []) ops_sample = Some ([], 1%nat, [0%nat]).
Proof. vm_compute. reflexivity. Qed.

Definition mgr_sample : policy_mgr :=
  match mgr_run (ipsec_policy_mgr_create, []) (take 2 ops_sample) with
  | Some (m, _) => m
  | None => ipsec_policy_mgr_create
  end.

Lemma mgr_sample_ok : mgr_ok mgr_sample [].
Proof.
  destruct (run_op_ok (ipsec_policy_mgr_create, []) (add_sample ts_net10 ts_net10)) as (s1 & E1 & H1).
  - apply mgr_create_ok.
  - done.
  - split; apply ts_net10_ok.
  - vm_compute in E1. injection E1 as <-. destruct (run_op_ok _ (add_sample ts_web ts_web) H1) as (s2 & E2 & H2).
    + done.
    + split; apply ts_web_ok.
    + assert (s2 = (mgr_sample, [])) as ->; [|exact H2].
      vm_compute in E2. injection E2 as <-.
      vm_compute. reflexivity.
Defined.

Lemma find_by_packet_best_witness :
  exists m e, find_by_packet mgr_sample packet_sample false 7 = Some (Some 1%nat, m) /\
    e ∈ policies mgr_sample /\ ent_policy e = 1%nat /\ length (policies mgr_sample) = 2%nat /\
    forall e', e' ∈ policies mgr_sample ->
      packet_matches packet_sample false 7 <$> store mgr_sample !! ent_policy e' = Some true ->
      ent_priority e <= ent_priority e'.
Proof.
  destruct (find_by_packet_best mgr_sample [] packet_sample false 7 mgr_sample_ok)
    as (r & m & Hf & Hr).
  assert (r = Some 1%nat) as -> by (vm_compute in Hf; congruence).
  destruct Hr as (e & Hin & He & _ & Hbest). exists m, e. by split_and!.
Defined.

Lemma priority_lexicographic_witness :
  exists v v',
    fst ∘ fst <$> calculate_priority POLICY_PRIORITY_DEFAULT ts_web ts_web = Some v /\
    fst ∘ fst <$> calculate_priority POLICY_PRIORITY_DEFAULT ts_net10 ts_net10 = Some v' /\
    (v < v' <-> considered_before POLICY_PRIORITY_DEFAULT POLICY_PRIORITY_DEFAULT
                  ts_web ts_web ts_net10 ts_net10).
Proof.
  apply (priority_lexicographic POLICY_PRIORITY_DEFAULT POLICY_PRIORITY_DEFAULT
           ts_web ts_web ts_net10 ts_net10 ts_web_ok ts_web_ok ts_net10_ok ts_net10_ok);
    right; vm_compute; split; discriminate.
Defined.

Lemma match_packet_selects_witness :
  exists p, ipsec_policy_create host_a host_b ts_web ts_net10 POLICY_OUT POLICY_IPSEC cfg_sample
              mark_sample POLICY_PRIORITY_DEFAULT = Some p /\ match_packet p packet_sample = true.
Proof.
  apply (match_packet_selects host_a host_b ts_web ts_net10 POLICY_OUT POLICY_IPSEC cfg_sample
           mark_sample POLICY_PRIORITY_DEFAULT packet_sample ts_web_ok ts_net10_ok); try done;
    apply host_web_ok.
Defined.

Lemma add_del_policy_witness :
  exists m m', add_policy mgr_sample host_a host_b ts_web ts_web POLICY_OUT POLICY_IPSEC
                 cfg_sample mark_sample POLICY_PRIORITY_DEFAULT = Some (SUCCESS, m) /\
    length (policies m) = 3%nat /\
    del_policy m ts_web ts_web POLICY_OUT POLICY_IPSEC cfg_sample mark_sample
      POLICY_PRIORITY_DEFAULT = Some (SUCCESS, m') /\
    policies m' = policies mgr_sample /\ store m' = store mgr_sample.
Proof.
  apply (add_del_policy mgr_sample [] host_a host_b ts_web ts_web POLICY_OUT cfg_sample mark_sample
           POLICY_PRIORITY_DEFAULT mgr_sample_ok); try done;
    apply ts_web_ok || (right; vm_compute; split; discriminate).
Defined.
