(* ===== verification/PolicyList.v ===== *)
(** The policy list of [src/libipsec/ipsec_policy_mgr.c] on the linked list it is
    kept in: the enumerator loops of [add_policy] and [del_policy] implement the
    insertion and the removal the policy manager is modelled with. *)
From S2P Require Import Prelude LinkedList IpsecPolicy.
From stdpp Require Import base numbers list option gmap.
From Stdlib Require Import Lia ZArith.
Local Open Scope Z_scope.

(** The loop of [add_policy]: stop at the first entry of no better priority and
    insert in front of it. *)
Definition add_policy_loop (l : linked_list policy_entry) (entry : policy_entry)
    : option (linked_list policy_entry) :=
  insert_where l (fun cur => ent_priority entry <=? ent_priority cur) entry.

(** The condition of the loop of [del_policy]. *)
Definition del_condition (st : gmap nat ipsec_policy) (prio : Z) (f : ipsec_policy -> bool)
    (cur : policy_entry) : bool :=
  (ent_priority cur =? prio) && from_option f false (st !! ent_policy cur).

Definition del_policy_loop (l : linked_list policy_entry) (st : gmap nat ipsec_policy) (prio : Z)
    (f : ipsec_policy -> bool) : option (linked_list policy_entry) :=
  remove_where l (del_condition st prio f).

Lemma insert_entry_split e pre post :
  Forall (fun cur => (ent_priority e <=? ent_priority cur) = false) pre ->
  (forall cur, head post = Some cur -> (ent_priority e <=? ent_priority cur) = true) ->
  insert_entry (pre ++ post) e = pre ++ e :: post.
Proof.
  induction 1 as [|cur pre E _ IH]; intros Hh; cbn [app insert_entry].
  - destruct post as [|cur post]; [done|]. cbn [insert_entry]. by rewrite (Hh cur eq_refl).
  - rewrite E. f_equal. auto.
Qed.

(** The entry is found at the first position with the condition, or there is none. *)
Lemma remove_match_split st prio f es r es' :
  remove_match st es prio f = Some (r, es') ->
  (forall pre e post, es = pre ++ e :: post -> Forall (fun cur => del_condition st prio f cur = false) pre ->
     del_condition st prio f e = true -> r = Some (ent_policy e) /\ es' = pre ++ post) /\
  (Forall (fun cur => del_condition st prio f cur = false) es -> r = None /\ es' = es).
Proof.
  revert r es'. induction es as [|cur es IH]; intros r es'.
  { intros [= <- <-]. split; [by intros []|done]. }
  cbn [remove_match]. set (found := if _ =? _ then _ else _).
  assert (forall b, found = Some b -> del_condition st prio f cur = b) as Hb.
  { unfold found, del_condition. destruct (_ =? _); [|by intros ? [= <-]].
    destruct (st !! ent_policy cur); [|done]. by intros ? [= <-]. }
  destruct found as [[]|] eqn:Ef; cbn [mbind option_bind]; [| |done]; specialize (Hb _ eq_refl).
  - intros [= <- <-]. split.
    + intros [|x pre] e post [= <- ->] Hpre He; [done|]. apply Forall_cons in Hpre as [Hx _]. congruence.
    + intros Hall. apply Forall_cons in Hall as [Hx _]. congruence.
  - destruct (remove_match st es prio f) as [[r0 rest]|]; [|done]. cbn. intros [= <- <-].
    destruct (IH _ _ eq_refl) as [IH1 IH2]. split.
    + intros [|x pre] e post [= <- ->] Hpre He; [congruence|]. apply Forall_cons in Hpre as [_ Hpre].
      by destruct (IH1 pre e post eq_refl Hpre He) as [-> ->].
    + intros Hall. apply Forall_cons in Hall as [_ Hall]. by destruct (IH2 Hall) as [-> ->].
Qed.

(** The loops of [add_policy] and [del_policy] over the linked list of entries
    are defined, follow no pointer to a freed element, and leave in it exactly the
    entries the policy manager's insertion by priority and its removal of the first
    matching entry leave. *)
Theorem policy_list_implemented l xs entry st prio f r es' :
  rep l xs -> count l < INT_MAX ->
  remove_match st (snd <$> xs) prio f = Some (r, es') ->
  (exists l1 xs1, add_policy_loop l entry = Some l1 /\ rep l1 xs1 /\
     snd <$> xs1 = insert_entry (snd <$> xs) entry) /\
  (exists l2 xs2, del_policy_loop l st prio f = Some l2 /\ rep l2 xs2 /\ snd <$> xs2 = es').
Proof.
  intros Hr Hmax Hm. split.
  - destruct (insert_where_rep (fun cur => ent_priority entry <=? ent_priority cur) l xs entry Hr Hmax)
      as (l' & pre & post & E & -> & Hr' & Hpre & Hpost).
    eexists l', _. split_and!; [exact E|exact Hr'|]. rewrite !fmap_app. symmetry.
    apply insert_entry_split; [by apply Forall_fmap|].
    destruct post as [|y post]; [done|]. intros cur [= <-]. by apply Hpost.
  - apply remove_match_split in Hm as [Hm1 Hm2].
    destruct (remove_where_rep (del_condition st prio f) l xs Hr)
      as (l' & E & [[Hr' Hall]|(pre & c & v & post & -> & Hr' & Hpre & Hv)]).
    + eexists l', _. split_and!; [exact E|exact Hr'|]. symmetry. apply Hm2. by apply Forall_fmap.
    + eexists l', _. split_and!; [exact E|exact Hr'|]. rewrite fmap_app in Hm1.
      destruct (Hm1 _ _ _ eq_refl (proj2 (Forall_fmap _ _ _) Hpre) Hv) as [_ ->]. apply fmap_app.
Qed.

Lemma policy_list_implemented_witness :
  let l := LList {[0%nat := Elem (PolicyEntry 5 0) None None]} 1 1 (Some 0%nat) (Some 0%nat) in
  (exists l1 xs1, add_policy_loop l (PolicyEntry 3 1) = Some l1 /\ rep l1 xs1 /\
     snd <$> xs1 = [PolicyEntry 3 1; PolicyEntry 5 0]) /\
  (exists l2 xs2, del_policy_loop l ∅ 4 (fun _ => true) = Some l2 /\ rep l2 xs2 /\
     snd <$> xs2 = [PolicyEntry 5 0]).
Proof.
  intros l.
  refine (policy_list_implemented l [(0%nat, PolicyEntry 5 0)] (PolicyEntry 3 1) ∅ 4 (fun _ => true)
            None [PolicyEntry 5 0] _ _ _); [|done|done].
  split_and!; try done; cbn.
  - constructor; [apply not_elem_of_nil|constructor].
  - intros id. unfold l. cbn. rewrite elem_of_cons, lookup_singleton_is_Some. split; [by left|].
    intros [->|[]%not_elem_of_nil]. done.
  - intros id. rewrite elem_of_cons. intros [->|[]%not_elem_of_nil]. lia.
Defined.
