(* ===== verification/IpsecSa.v ===== *)
(** IPsec SAs: [src/libipsec/ipsec_sa.c].  An SA is a record; [expire] and
    [update_usestats] return the event they hand to the event relay. *)
From S2P Require Import Prelude Chunk Host Crypto EspContext IpPacket IpsecPolicy.
From stdpp Require Import base numbers list option sets.
From Stdlib Require Import Lia ZArith.
Local Open Scope Z_scope.

Definition IPPROTO_ESP : Z := 50.
Definition IPCOMP_NONE : Z := 0.

(** Limits of 64 bits each, zero for none. *)
Record limits := Limits { life : Z; rekey : Z; jitter : Z }.
Record lifetime_cfg_t := Lifetime {
  lt_time : limits;
  lt_bytes : limits;
  lt_packets : limits;
}.

(** The event the relay distributes. *)
Record ipsec_event := ExpireEvent {
  ev_protocol : Z;
  ev_spi : Z;
  ev_dst : host;
  ev_hard : bool;
}.

Record ipsec_sa (A : Type) := IpsecSa {
  sa_spi : Z;
  sa_src : host;
  sa_dst : host;
  sa_protocol : Z;
  sa_reqid : Z;
  sa_lifetime : lifetime_cfg_t;
  sa_mode : ipsec_mode_t;
  sa_esn : bool;
  sa_inbound : bool;
  esp_ctx : esp_context A;
  use_time : Z;
  use_packets : Z;
  use_bytes : Z;
  soft_expired : bool;
  hard_expired : bool;
}.
Arguments IpsecSa {A}.
Arguments sa_spi {A}. Arguments sa_src {A}. Arguments sa_dst {A}. Arguments sa_protocol {A}.
Arguments sa_reqid {A}. Arguments sa_lifetime {A}. Arguments sa_mode {A}. Arguments sa_esn {A}.
Arguments sa_inbound {A}. Arguments esp_ctx {A}. Arguments use_time {A}.
Arguments use_packets {A}. Arguments use_bytes {A}. Arguments soft_expired {A}.
Arguments hard_expired {A}.

Section Sa.
Context {A : Type}.
Abbreviation sa := (ipsec_sa A).

Definition with_addresses (this : sa) (src dst : host) : sa :=
  IpsecSa (sa_spi this) src dst (sa_protocol this) (sa_reqid this) (sa_lifetime this)
    (sa_mode this) (sa_esn this) (sa_inbound this) (esp_ctx this) (use_time this)
    (use_packets this) (use_bytes this) (soft_expired this) (hard_expired this).

Definition with_use (this : sa) (time packets bytes : Z) : sa :=
  IpsecSa (sa_spi this) (sa_src this) (sa_dst this) (sa_protocol this) (sa_reqid this)
    (sa_lifetime this) (sa_mode this) (sa_esn this) (sa_inbound this) (esp_ctx this)
    time packets bytes (soft_expired this) (hard_expired this).

Definition with_expired (this : sa) (soft hard : bool) : sa :=
  IpsecSa (sa_spi this) (sa_src this) (sa_dst this) (sa_protocol this) (sa_reqid this)
    (sa_lifetime this) (sa_mode this) (sa_esn this) (sa_inbound this) (esp_ctx this)
    (use_time this) (use_packets this) (use_bytes this) soft hard.

Definition with_ctx (this : sa) (c : esp_context A) : sa :=
  IpsecSa (sa_spi this) (sa_src this) (sa_dst this) (sa_protocol this) (sa_reqid this)
    (sa_lifetime this) (sa_mode this) (sa_esn this) (sa_inbound this) c
    (use_time this) (use_packets this) (use_bytes this) (soft_expired this) (hard_expired this).

Definition set_source (this : sa) (addr : host) : sa := with_addresses this addr (sa_dst this).
Definition set_destination (this : sa) (addr : host) : sa := with_addresses this (sa_src this) addr.

(** Bytes, packets and time of last use. *)
Definition get_usestats (this : sa) : Z * Z * Z :=
  (use_bytes this, use_packets this, use_time this).

Definition expire (this : sa) (hard : bool) : sa * option ipsec_event :=
  if hard then
    if negb (hard_expired this) then
      (with_expired this (soft_expired this) true,
       Some (ExpireEvent (sa_protocol this) (sa_spi this) (sa_dst this) true))
    else (this, None)
  else
    if negb (hard_expired this) && negb (soft_expired this) then
      (with_expired this true (hard_expired this),
       Some (ExpireEvent (sa_protocol this) (sa_spi this) (sa_dst this) false))
    else (this, None).

(** A limit that is set and reached. *)
Definition reached (limit used : Z) : bool := negb (limit =? 0) && (limit <=? used).

Definition update_usestats (this : sa) (now bytes : Z) : sa * option ipsec_event :=
  let this := with_use this now (u64 (use_packets this + 1)) (u64 (use_bytes this + bytes)) in
  let lt := sa_lifetime this in
  if reached (life (lt_packets lt)) (use_packets this) then expire this true
  else if reached (life (lt_bytes lt)) (use_bytes this) then expire this true
  else if reached (rekey (lt_packets lt)) (use_packets this) then expire this false
  else if reached (rekey (lt_bytes lt)) (use_bytes this) then expire this false
  else (this, None).

Definition match_by_spi_dst (this : sa) (spi : Z) (dst : host) : bool :=
  (sa_spi this =? spi) && ip_equals (sa_dst this) dst && negb (hard_expired this).

Definition match_by_spi_src_dst (this : sa) (spi : Z) (src dst : host) : bool :=
  (sa_spi this =? spi) && ip_equals (sa_src this) src && ip_equals (sa_dst this) dst.

Definition match_by_reqid (this : sa) (reqid : Z) (inbound : bool) : bool :=
  (sa_reqid this =? reqid) && Bool.eqb (sa_inbound this) inbound && negb (hard_expired this).
End Sa.

Section SaCreate.
Context {P C S R : Type} `{Aead P} `{Crypter C} `{Signer S} `{Rng R}.

Definition ipsec_sa_create (f : crypto_factory P C S R) (spi : Z) (src dst : host)
    (protocol reqid : Z) (lifetime : lifetime_cfg_t)
    (enc_alg : encryption_algorithm_t) (enc_key : chunk) (int_alg : Z) (int_key : chunk)
    (mode : ipsec_mode_t) (ipcomp : Z) (encap esn inbound : bool)
    : option (ipsec_sa (esp_aead P C S R)) :=
  if negb (protocol =? IPPROTO_ESP) then None
  else if negb encap then None
  else if esn then None
  else if negb (ipcomp =? IPCOMP_NONE) then None
  else if negb (bool_decide (mode = MODE_TUNNEL)) then None
  else
    ctx ← esp_context_create f enc_alg enc_key int_alg int_key inbound;
    Some (IpsecSa spi src dst protocol reqid lifetime mode esn inbound ctx 0 0 0 false false).

Lemma ipsec_sa_create_some f spi src dst protocol reqid lt ea ek ia ik mode ipcomp encap esn inb sa :
  ipsec_sa_create f spi src dst protocol reqid lt ea ek ia ik mode ipcomp encap esn inb = Some sa ->
  sa_spi sa = spi /\ sa_src sa = src /\ sa_dst sa = dst /\ sa_reqid sa = reqid /\
  sa_inbound sa = inb /\ sa_lifetime sa = lt /\ hard_expired sa = false /\
  use_packets sa = 0 /\ use_bytes sa = 0 /\
  esp_context_create f ea ek ia ik inb = Some (esp_ctx sa).
Proof.
  unfold ipsec_sa_create. repeat (destruct (_ : bool); [done|]).
  intros (c & Hc & [= <-])%bind_Some. by split_and!.
Qed.
End SaCreate.

(** ** Histories of an SA *)

Inductive sa_op :=
  | OpUse (now bytes : Z)
  | OpExpire (hard : bool)
  | OpMove (src dst : host).

Section History.
Context {A : Type}.
Abbreviation sa := (ipsec_sa A).

Definition sa_run_op (this : sa) (op : sa_op) : sa * option ipsec_event :=
  match op with
  | OpUse now bytes => update_usestats this now bytes
  | OpExpire hard => expire this hard
  | OpMove src dst => (set_destination (set_source this src) dst, None)
  end.

(** The SA after the operations and the events they produced. *)
Fixpoint sa_run (this : sa) (ops : list sa_op) : sa * list ipsec_event :=
  match ops with
  | [] => (this, [])
  | op :: ops =>
    let '(this, e) := sa_run_op this op in
    let '(this, es) := sa_run this ops in
    (this, match e with Some e => e :: es | None => es end)
  end.

(** What can still be announced in a state of the two flags. *)
Definition may_announce (soft hard : bool) (es : list bool) : Prop :=
  if hard then es = []
  else if soft then es = [] \/ es = [true]
  else es = [] \/ es = [true] \/ es = [false] \/ es = [false; true].

Lemma expire_cases (this : sa) hard :
  let '(s, e) := expire this hard in
  match e with
  | None => s = this /\ (hard_expired this = true \/ hard = false /\ soft_expired this = true)
  | Some e => hard_expired this = false /\ ev_hard e = hard /\ ev_spi e = sa_spi this /\
              (hard = true /\ hard_expired s = true \/
               hard = false /\ soft_expired this = false /\ soft_expired s = true /\
               hard_expired s = false)
  end.
Proof.
  unfold expire. destruct hard, (hard_expired this) eqn:Eh, (soft_expired this) eqn:Es; cbn; auto 8.
Qed.

Lemma sa_run_op_cases (this : sa) op :
  let '(s, e) := sa_run_op this op in
  match e with
  | None => soft_expired s = soft_expired this /\ hard_expired s = hard_expired this
  | Some e => hard_expired this = false /\
              (ev_hard e = true /\ hard_expired s = true \/
               ev_hard e = false /\ soft_expired this = false /\ soft_expired s = true /\
               hard_expired s = false)
  end.
Proof.
  assert (forall (t : sa) h, let '(s, e) := expire t h in
    match e with
    | None => soft_expired s = soft_expired t /\ hard_expired s = hard_expired t
    | Some e => hard_expired t = false /\ (ev_hard e = true /\ hard_expired s = true \/
        ev_hard e = false /\ soft_expired t = false /\ soft_expired s = true /\ hard_expired s = false)
    end) as He.
  { intros t h. pose proof (expire_cases t h) as H. destruct (expire t h) as [s [e|]].
    - destruct H as (? & -> & _ & ?). auto.
    - destruct H as [-> _]. auto. }
  destruct op; cbn [sa_run_op]; [|apply He|by cbn].
  unfold update_usestats. set (t := with_use _ _ _ _).
  change (soft_expired this) with (soft_expired t). change (hard_expired this) with (hard_expired t).
  repeat (destruct (reached _ _); [apply He|]). done.
Qed.

Lemma sa_run_announces (ops : list sa_op) : forall this : sa,
  may_announce (soft_expired this) (hard_expired this) (ev_hard <$> snd (sa_run this ops)).
Proof.
  induction ops as [|op ops IH]; intros this; cbn [sa_run].
  { cbn. unfold may_announce. repeat case_match; auto. }
  pose proof (sa_run_op_cases this op) as Hop. destruct (sa_run_op this op) as [s e].
  specialize (IH s). destruct (sa_run s ops) as [s' es]. cbn [snd] in *.
  destruct e as [e|].
  - destruct Hop as [-> [[He Hh]|(He & -> & Hs & Hh)]]; cbn [fmap list_fmap]; rewrite He.
    + rewrite Hh in IH. unfold may_announce in IH. rewrite IH. unfold may_announce.
      destruct (soft_expired this); auto.
    + rewrite Hs, Hh in IH. unfold may_announce in *. destruct IH as [->| ->]; auto.
  - by destruct Hop as [<- <-].
Qed.

(** ** Usage limits *)

Definition uses (bs : list (Z * Z)) : list sa_op := (fun '(now, bytes) => OpUse now bytes) <$> bs.
Definition total_bytes (bs : list (Z * Z)) : Z := foldr (fun b acc => snd b + acc) 0 bs.

(** A hard limit is reached with the given counters. *)
Definition limit_reached (lt : lifetime_cfg_t) (packets bytes : Z) : bool :=
  reached (life (lt_packets lt)) packets || reached (life (lt_bytes lt)) bytes.

Lemma total_bytes_nonneg bs : Forall (fun b => 0 <= snd b) bs -> 0 <= total_bytes bs.
Proof. unfold total_bytes. induction 1; cbn [foldr]; lia. Qed.

Lemma reached_mono l a b : a <= b -> reached l a = true -> reached l b = true.
Proof. unfold reached. intros. lia. Qed.

Lemma limit_reached_mono lt p b p' b' :
  p <= p' -> b <= b' -> limit_reached lt p b = true -> limit_reached lt p' b' = true.
Proof.
  unfold limit_reached. intros Hp Hb. rewrite !orb_true_iff.
  intros [?|?]; [left|right]; by eapply reached_mono.
Qed.

Lemma expire_fields (this : sa) hard :
  let s := fst (expire this hard) in
  use_packets s = use_packets this /\ use_bytes s = use_bytes this /\
  sa_lifetime s = sa_lifetime this /\ sa_spi s = sa_spi this /\ sa_dst s = sa_dst this /\
  hard_expired s = hard || hard_expired this.
Proof. unfold expire. destruct hard, (hard_expired this) eqn:E, (soft_expired this); cbn; auto 8. Qed.

Lemma update_usestats_fields (this : sa) now bytes :
  0 <= use_packets this -> use_packets this + 1 < 2 ^ 64 ->
  0 <= use_bytes this -> 0 <= bytes -> use_bytes this + bytes < 2 ^ 64 ->
  let s := fst (update_usestats this now bytes) in
  use_packets s = use_packets this + 1 /\ use_bytes s = use_bytes this + bytes /\
  sa_lifetime s = sa_lifetime this /\ sa_spi s = sa_spi this /\ sa_dst s = sa_dst this /\
  hard_expired s = limit_reached (sa_lifetime this) (use_packets this + 1) (use_bytes this + bytes)
                   || hard_expired this.
Proof.
  intros Hp Hp' Hb Hbs Hb'. unfold update_usestats. rewrite !uwrap_small by lia.
  set (t := with_use _ _ _ _). change (hard_expired this) with (hard_expired t).
  change (sa_lifetime this) with (sa_lifetime t).
  change (use_packets this + 1) with (use_packets t). change (use_bytes this + bytes) with (use_bytes t).
  change (sa_spi this) with (sa_spi t). change (sa_dst this) with (sa_dst t). clearbody t.
  unfold limit_reached.
  pose proof (expire_fields t true) as E1. pose proof (expire_fields t false) as E2.
  destruct (reached (life (lt_packets _)) _); [exact E1|].
  destruct (reached (life (lt_bytes _)) _); [exact E1|].
  destruct (reached (rekey (lt_packets _)) _); [exact E2|].
  destruct (reached (rekey (lt_bytes _)) _); [exact E2|]. by split_and!.
Qed.

Lemma sa_run_uses bs : forall this : sa,
  Forall (fun b => 0 <= snd b) bs ->
  0 <= use_packets this -> use_packets this + Z.of_nat (length bs) < 2 ^ 64 ->
  0 <= use_bytes this -> use_bytes this + total_bytes bs < 2 ^ 64 ->
  hard_expired this = limit_reached (sa_lifetime this) (use_packets this) (use_bytes this) ->
  let s := fst (sa_run this (uses bs)) in
  sa_spi s = sa_spi this /\ sa_dst s = sa_dst this /\
  hard_expired s = limit_reached (sa_lifetime this) (use_packets this + Z.of_nat (length bs))
                     (use_bytes this + total_bytes bs).
Proof.
  induction bs as [|[now b] bs IH]; intros this Hpos Hp Hp' Hb Hb' Hh.
  { cbn. rewrite !Z.add_0_r. by split_and!. }
  inversion_clear Hpos as [|? ? Hb0 Hpos']. cbn [snd length total_bytes foldr] in *.
  fold (total_bytes bs) in *. pose proof (total_bytes_nonneg bs Hpos').
  cbn [uses fmap list_fmap sa_run sa_run_op]. fold (uses bs).
  pose proof (update_usestats_fields this now b) as Hu.
  destruct (update_usestats this now b) as [t e]. cbn [fst] in Hu.
  destruct Hu as (Ep & Eb & El & Es & Ed & Eh); try lia.
  specialize (IH t Hpos'). rewrite Ep, Eb, El in IH.
  destruct IH as (Is & Id & Ih); try lia.
  - rewrite Eh, Hh. destruct (limit_reached _ (use_packets this) _) eqn:E; [|by rewrite orb_false_r].
    by rewrite (limit_reached_mono _ (use_packets this) (use_bytes this)) by (done || lia).
  - destruct (sa_run t (uses bs)) as [s es]. cbn [fst] in *. rewrite Is, Id, Ih.
    split_and!; [done..|]. f_equal; lia.
Qed.
End History.

(** ** Properties *)

Section SaProperties.
Context {P C S R : Type} `{Aead P} `{Crypter C} `{Signer S} `{Rng R}.
Context (f : crypto_factory P C S R).

(** Whatever happens to a new SA, its listeners hear of a soft expiry at
    most once and of a hard expiry at most once, and of no soft expiry after the
    hard one. *)
Theorem expiry_announced_once spi src dst protocol reqid lt ea ek ia ik mode ipcomp encap esn inb
    (sa : ipsec_sa (esp_aead P C S R)) (ops : list sa_op) :
  ipsec_sa_create f spi src dst protocol reqid lt ea ek ia ik mode ipcomp encap esn inb = Some sa ->
  (ev_hard <$> snd (sa_run sa ops)) ∈ [[]; [true]; [false]; [false; true]].
Proof.
  intros Hc.
  assert (soft_expired sa = false /\ hard_expired sa = false) as [Es Eh].
  { unfold ipsec_sa_create in Hc. repeat (destruct (_ : bool); [done|]).
    by apply bind_Some in Hc as (c & _ & [= <-]). }
  pose proof (sa_run_announces ops sa) as Hm. rewrite Es, Eh in Hm. unfold may_announce in Hm.
  destruct_or! Hm; rewrite Hm; set_solver.
Qed.

(** An SA that carries packets is found for inbound packets of its SPI and
    destination until the number of packets or of bytes reaches a configured
    hard limit, and never from then on (as long as the 64-bit counters do not
    wrap around). *)
Theorem usable_until_limit spi src dst protocol reqid lt ea ek ia ik mode ipcomp encap esn inb
    (sa : ipsec_sa (esp_aead P C S R)) (bs : list (Z * Z)) (h : host) :
  ipsec_sa_create f spi src dst protocol reqid lt ea ek ia ik mode ipcomp encap esn inb = Some sa ->
  0 <= life (lt_packets lt) -> 0 <= life (lt_bytes lt) ->
  Forall (fun b => 0 <= snd b) bs -> Z.of_nat (length bs) < 2 ^ 64 -> total_bytes bs < 2 ^ 64 ->
  match_by_spi_dst (fst (sa_run sa (uses bs))) spi h
  = ip_equals dst h && negb (limit_reached lt (Z.of_nat (length bs)) (total_bytes bs)).
Proof.
  intros Hc Hlp Hlb Hpos Hlen Htot.
  apply ipsec_sa_create_some in Hc as (Es & _ & Ed & _ & _ & El & Eh & Ep & Eb & _).
  destruct (sa_run_uses bs sa Hpos) as (Fs & Fd & Fh); rewrite ?Ep, ?Eb, ?Eh; try lia.
  { rewrite El. unfold limit_reached, reached. lia. }
  unfold match_by_spi_dst. rewrite Fs, Fd, Fh, Es, Ed, El, Ep, Eb, Z.eqb_refl. done.
Qed.
End SaProperties.

(** *** Witnesses *)

Definition lt_sample : lifetime_cfg_t := Lifetime (Limits 100 80 0) (Limits 1000 800 0) (Limits 0 3 0).
Definition sa_sample (inb : bool) :=
  ipsec_sa_create toy_factory 77 host_a host_b 50 7 lt_sample ENCR_AES_CTR [1;2;3;4;5;6] 2 [7;8;9]
    MODE_TUNNEL 0 true false inb.

Lemma expiry_announced_once_witness :
  match sa_sample true with
  | Some sa => (ev_hard <$> snd (sa_run sa [OpUse 1 10; OpUse 2 850; OpUse 3 150; OpExpire true]))
               ∈ [[]; [true]; [false]; [false; true]] /\
               snd (sa_run sa [OpUse 1 10; OpUse 2 850; OpUse 3 150; OpExpire true]) <> []
  | None => False
  end.
Proof.
  destruct (sa_sample true) as [sa|] eqn:E; [|vm_compute in E; discriminate].
  split.
  - eapply (expiry_announced_once toy_factory). exact E.
  - vm_compute in E. injection E as <-. vm_compute. discriminate.
Defined.

Lemma usable_until_limit_witness :
  match sa_sample true with
  | Some sa => match_by_spi_dst (fst (sa_run sa (uses [(1, 400); (2, 599)]))) 77 host_b = true /\
               match_by_spi_dst (fst (sa_run sa (uses [(1, 400); (2, 600)]))) 77 host_b = false
  | None => False
  end.
Proof.
  destruct (sa_sample true) as [sa|] eqn:E; [|vm_compute in E; discriminate].
  split.
  - rewrite (usable_until_limit toy_factory _ _ _ _ _ _ _ _ _ _ _ _ _ _ _ sa [(1, 400); (2, 599)] host_b E);
      [reflexivity|cbn; lia..| |cbn; lia|cbn; lia]. repeat constructor; cbn; lia.
  - rewrite (usable_until_limit toy_factory _ _ _ _ _ _ _ _ _ _ _ _ _ _ _ sa [(1, 400); (2, 600)] host_b E);
      [reflexivity|cbn; lia..| |cbn; lia|cbn; lia]. repeat constructor; cbn; lia.
Defined.
