(* ===== verification/IpsecSaMgr.v ===== *)
(** The SA manager, [src/libipsec/ipsec_sa_mgr.c].  Entries live in a heap and
    are named by their identity, which stands for the pointers to the entry and
    to its SA; the list holds identities.  What a thread does while it holds the
    mutex, from locking it or returning from a wait to the next wait or unlock,
    is one function; following a dangling pointer is undefined ([None]).
    [Module Threads] lets any number of threads call the manager. *)
From S2P Require Import Prelude Chunk Host Crypto EspContext IpPacket IpsecPolicy IpsecSa.
From stdpp Require Import base numbers list option gmap.
From Stdlib Require Import Lia ZArith.
Local Open Scope Z_scope.

Record sa_entry (A : Type) := SaEntry {
  ent_sa : ipsec_sa A;
  locked : bool;                       (* in use by a thread *)
  waiting_threads : nat;               (* threads waiting for the entry: an [u_int] in the code, but never
                                          more than there are threads, as each counts once *)
  awaits_deletion : bool;
}.
Arguments SaEntry {A}. Arguments ent_sa {A}. Arguments locked {A}.
Arguments waiting_threads {A}. Arguments awaits_deletion {A}.

(** Data of an expiration job. *)
Record sa_expired_t := SaExpired {
  exp_entry : nat;
  exp_spi : Z;
  hard_offset : Z;                     (* 0 for a hard expire *)
}.

Record sa_mgr (A R : Type) := SaMgr {
  sas : list nat;                      (* installed SAs *)
  entries : gmap nat (sa_entry A);     (* all entries that are allocated *)
  next_entry : nat;                    (* identities from here on are unused *)
  allocated_spis : gset Z;
  mgr_rng : option R;
}.
Arguments SaMgr {A R}. Arguments sas {A R}. Arguments entries {A R}.
Arguments next_entry {A R}. Arguments allocated_spis {A R}. Arguments mgr_rng {A R}.

Section Mgr.
Context {A R : Type} `{Rng R}.
Abbreviation mgr := (sa_mgr A R).
Abbreviation entry := (sa_entry A).

Definition create_entry (sa : ipsec_sa A) : entry := SaEntry sa false 0 false.

Definition with_sas (this : mgr) (l : list nat) : mgr :=
  SaMgr l (entries this) (next_entry this) (allocated_spis this) (mgr_rng this).
Definition with_entries (this : mgr) (es : gmap nat entry) : mgr :=
  SaMgr (sas this) es (next_entry this) (allocated_spis this) (mgr_rng this).
Definition with_spis (this : mgr) (s : gset Z) : mgr :=
  SaMgr (sas this) (entries this) (next_entry this) s (mgr_rng this).
Definition with_rng (this : mgr) (r : option R) : mgr :=
  SaMgr (sas this) (entries this) (next_entry this) (allocated_spis this) r.
Definition set_entry (this : mgr) (id : nat) (e : entry) : mgr :=
  with_entries this (<[id := e]> (entries this)).

Definition destroy_entry (this : mgr) (id : nat) : option mgr :=
  _ ← entries this !! id; Some (with_entries this (delete id (entries this))).

(** ** Waiting for entries *)

(** Where the loop of [wait_for_entry] leaves the entry: the thread waits, gives
    up (and signals the condvar), or has locked it. *)
Inductive wait_result :=
  | WWait (m : mgr)
  | WGone (m : mgr)
  | WLocked (m : mgr).

Definition wait_for_entry (this : mgr) (id : nat) : option wait_result :=
  e ← entries this !! id;
  Some (if locked e && negb (awaits_deletion e) then
          WWait (set_entry this id
                   (SaEntry (ent_sa e) (locked e) (S (waiting_threads e)) (awaits_deletion e)))
        else if awaits_deletion e then WGone this
        else WLocked (set_entry this id
                        (SaEntry (ent_sa e) true (waiting_threads e) (awaits_deletion e)))).

(** Back from the wait: count down and test the condition again. *)
Definition wait_for_entry_resume (this : mgr) (id : nat) : option wait_result :=
  e ← entries this !! id;
  wait_for_entry (set_entry this id
    (SaEntry (ent_sa e) (locked e) (waiting_threads e - 1) (awaits_deletion e))) id.

(** Where [wait_remove_entry] stands: another thread removes the entry, it waits
    in the first loop, or in the second after a broadcast, or is done. *)
Inductive remove_result :=
  | RNo (m : mgr)
  | RWaitUnlocked (m : mgr)
  | RWaitWaiters (m : mgr)
  | RYes (m : mgr).

Definition remove_loop2 (this : mgr) (id : nat) : option remove_result :=
  e ← entries this !! id;
  Some (if (0 <? waiting_threads e)%nat then RWaitWaiters this else RYes this).

Definition remove_loop1 (this : mgr) (id : nat) : option remove_result :=
  e ← entries this !! id;
  if locked e then Some (RWaitUnlocked this) else remove_loop2 this id.

Definition wait_remove_entry (this : mgr) (id : nat) : option remove_result :=
  e ← entries this !! id;
  if awaits_deletion e then Some (RNo this)
  else remove_loop1 (set_entry this id (SaEntry (ent_sa e) (locked e) (waiting_threads e) true)) id.

(** [remove_at]: take the entry off the list. *)
Definition unlink (this : mgr) (id : nat) : mgr :=
  with_sas this (filter (fun i => i <> id) (sas this)).

(** What an enumerator at the entry returns next. *)
Fixpoint after (id : nat) (l : list nat) : list nat :=
  match l with
  | [] => []
  | i :: l => if decide (i = id) then l else after id l
  end.

(** ** Looking up entries *)

(** [find_first]; [None] if the walk meets a destroyed entry. *)
Fixpoint find_first (es : gmap nat entry) (l : list nat) (f : ipsec_sa A -> bool)
    : option (option nat) :=
  match l with
  | [] => Some None
  | id :: l => e ← es !! id; if f (ent_sa e) then Some (Some id) else find_first es l f
  end.

Definition match_entry_by_spi_inbound (spi : Z) (inbound : bool) (sa : ipsec_sa A) : bool :=
  (sa_spi sa =? spi) && Bool.eqb (sa_inbound sa) inbound.

Definition find_sa (this : mgr) (f : ipsec_sa A -> bool) : option (option nat) :=
  find_first (entries this) (sas this) f.

(** ** SPIs *)

Definition allocate_spi (this : mgr) (spi : Z) : option (bool * mgr) :=
  if bool_decide (spi ∈ allocated_spis this) then Some (false, this)
  else
    r ← find_sa this (match_entry_by_spi_inbound spi true);
    Some (match r with
          | Some _ => (false, this)
          | None => (true, with_spis this ({[spi]} ∪ allocated_spis this))
          end).

(** The range SPIs are drawn from, for the configured bounds. *)
Definition spi_range (cfg_min cfg_max : Z) : Z * Z :=
  let '(lo, hi) := if cfg_max <? cfg_min then (cfg_max, cfg_min) else (cfg_min, cfg_max) in
  (Z.max lo 0x100, Z.max hi 0x100).

(** The loop of [get_spi]; [fuel] bounds the number of draws, [None] is running
    out of it. *)
Fixpoint draw_spi (fuel : nat) (this : mgr) (r : R) (spi_min spi_max : Z)
    : option (option Z * mgr) :=
  match fuel with
  | O => None
  | S fuel =>
    match rng_get_bytes r 4 with
    | (None, r) => Some (None, with_rng this (Some r))
    | (Some bytes, r) =>
      let spi_new := u32 (spi_min + le_value bytes mod u32 (spi_max - spi_min + 1)) in
      let spi_new := htonl spi_new in
      '(ok, this) ← allocate_spi this spi_new;
      if (ok : bool) then Some (Some spi_new, with_rng this (Some r))
      else draw_spi fuel this r spi_min spi_max
    end
  end.

Definition get_spi (fuel : nat) (this : mgr) (create_rng : option R) (cfg_min cfg_max : Z)
    : option (status_t * option Z * mgr) :=
  let '(spi_min, spi_max) := spi_range cfg_min cfg_max in
  match (match mgr_rng this with Some r => Some r | None => create_rng end) with
  | None => Some (FAILED, None, this)
  | Some r =>
    '(spi, this) ← draw_spi fuel this r spi_min spi_max;
    Some (match spi with
          | Some spi => (SUCCESS, Some spi, this)
          | None => (FAILED, None, this)
          end)
  end.

Definition flush_allocated_spis (this : mgr) : mgr := with_spis this ∅.

(** ** Expiration *)

(** The job scheduled for an entry and its delay; the fields are 32 bits wide,
    the limits 64. *)
Definition schedule_expiration (id : nat) (sa : ipsec_sa A) : option (Z * sa_expired_t) :=
  let time := lt_time (sa_lifetime sa) in
  if life time =? 0 then None
  else
    Some (if (life time <=? rekey time) || (rekey time =? 0)
          then (u32 (life time), SaExpired id (sa_spi sa) 0)
          else (u32 (rekey time), SaExpired id (sa_spi sa) (u32 (life time - rekey time)))).

(** ** Operations without a wait *)

(** [add_sa], once the SA was created. *)
Definition add_sa (this : mgr) (src dst : host) (spi : Z) (update : bool)
    (sa_new : option (ipsec_sa A)) : option (status_t * mgr * option (Z * sa_expired_t)) :=
  match sa_new with
  | None => Some (FAILED, this, None)
  | Some sa_new =>
    let this := if update then with_spis this (allocated_spis this ∖ {[spi]}) else this in
    r ← find_sa this (fun sa => match_by_spi_src_dst sa spi src dst);
    match r with
    | Some _ => Some (FAILED, this, None)
    | None =>
      let id := next_entry this in
      Some (SUCCESS,
            SaMgr (id :: sas this) (<[id := create_entry sa_new]> (entries this)) (S id)
                  (allocated_spis this) (mgr_rng this),
            schedule_expiration id sa_new)
    end
  end.

(** The holder's view of its SA, and what it does to it. *)
Definition checked_out (this : mgr) (id : nat) : option (ipsec_sa A) :=
  ent_sa <$> entries this !! id.
Definition modify_sa (this : mgr) (id : nat) (sa : ipsec_sa A) : option mgr :=
  e ← entries this !! id;
  Some (set_entry this id (SaEntry sa (locked e) (waiting_threads e) (awaits_deletion e))).

(** [entry->locked = FALSE]. *)
Definition unlock_entry (this : mgr) (id : nat) : option mgr :=
  e ← entries this !! id;
  Some (set_entry this id (SaEntry (ent_sa e) false (waiting_threads e) (awaits_deletion e))).

(** [checkin]: whether the condvar is signalled. *)
Definition checkin (this : mgr) (id : nat) : option (bool * mgr) :=
  if bool_decide (id ∈ sas this) then
    e ← entries this !! id;
    if locked e then m ← unlock_entry this id; Some (true, m) else Some (false, this)
  else Some (false, this).

Definition ipsec_sa_mgr_create : mgr := SaMgr [] ∅ 0 ∅ None.
End Mgr.
Arguments wait_result : clear implicits.
Arguments remove_result : clear implicits.

(** ** Threads *)
Module Threads.
Section Threads.
Context {A R : Type}.
Abbreviation mgr := (sa_mgr A R).

(** What a thread does once it has locked an entry, and once an entry is ready
    to be removed. *)
Inductive wait_k := KCheckout | KUpdate (new_src new_dst : host) | KQuery.
Inductive remove_k := KDel | KExpire | KFlush.

(** What the last call returned: a status, no SA, or what [query_sa] returned and
    stored through its pointers, if anything. *)
Inductive result :=
  | NoResult
  | Status (s : status_t)
  | NullSa
  | Queried (s : status_t) (out : option (Z * Z * Z)).

(** Where a thread is.  The flag of a waiting thread tells that it was woken and
    only has to get the mutex. *)
Inductive pc :=
  | Idle (r : result)
  | WaitEntry (id : nat) (k : wait_k) (woken : bool)
  | Holds (id : nat)
  | WaitUnlocked (id : nat) (k : remove_k) (woken : bool)
  | WaitWaiters (id : nat) (k : remove_k) (woken : bool)
  | Removed (id : nat).                (* off the list, not yet destroyed *)

Inductive wake := Signal (id : nat) | Broadcast (id : nat).

Record sys := Sys {
  manager : mgr;
  threads : list pc;
  jobs : list (Z * sa_expired_t);      (* scheduled jobs with their delay *)
  events : list ipsec_event;           (* events handed to the relay *)
}.

Definition asleep (id : nat) (p : pc) : bool :=
  match p with
  | WaitEntry i _ false | WaitUnlocked i _ false | WaitWaiters i _ false => (i =? id)%nat
  | _ => false
  end.

Definition wake_up (p : pc) : pc :=
  match p with
  | WaitEntry i k _ => WaitEntry i k true
  | WaitUnlocked i k _ => WaitUnlocked i k true
  | WaitWaiters i k _ => WaitWaiters i k true
  | _ => p
  end.

(** A condvar wakes one of the threads that wait on it; [choice] says which. *)
Fixpoint first_asleep (id : nat) (ts : list pc) : option nat :=
  match ts with
  | [] => None
  | p :: ts => if asleep id p then Some O else S <$> first_asleep id ts
  end.

Definition signalled (id choice : nat) (ts : list pc) : option nat :=
  match ts !! choice with
  | Some p => if asleep id p then Some choice else first_asleep id ts
  | None => first_asleep id ts
  end.

Definition deliver (choice : nat) (ts : list pc) (w : option wake) : list pc :=
  match w with
  | Some (Signal id) =>
    match signalled id choice ts with Some t => alter wake_up t ts | None => ts end
  | Some (Broadcast id) => (fun p => if asleep id p then wake_up p else p) <$> ts
  | None => ts
  end.

(** A region under the mutex: the manager, where the thread is then, and what it
    does to a condvar. *)
Abbreviation region := (mgr * pc * option wake)%type.

(** The entry is locked: keep it, or update or query it and check it in. *)
Definition complete_wait (m : mgr) (id : nat) (k : wait_k) : option region :=
  sa ← checked_out m id;
  match k with
  | KCheckout => Some (m, Holds id, None)
  | KUpdate new_src new_dst =>
    m ← modify_sa m id (set_destination (set_source sa new_src) new_dst);
    m ← unlock_entry m id;
    Some (m, Idle (Status SUCCESS), Some (Signal id))
  | KQuery =>
    m ← unlock_entry m id;
    Some (m, Idle (Queried SUCCESS (Some (get_usestats sa))), Some (Signal id))
  end.

(** What is returned when no entry was found, and when the entry found is being
    removed: [update_sa] and [query_sa] then only look at the pointer. *)
Definition not_found (k : wait_k) : result :=
  match k with
  | KCheckout => NullSa | KUpdate _ _ => Status FAILED | KQuery => Queried NOT_FOUND None
  end.
Definition gone (k : wait_k) : result :=
  match k with
  | KCheckout => NullSa | KUpdate _ _ => Status SUCCESS | KQuery => Queried SUCCESS None
  end.

Definition after_wait (r : wait_result A R) (id : nat) (k : wait_k) : option region :=
  match r with
  | WWait m => Some (m, WaitEntry id k false, None)
  | WGone m => Some (m, Idle (gone k), Some (Signal id))
  | WLocked m => complete_wait m id k
  end.

(** Find an entry and wait for it. *)
Definition find_and_wait (m : mgr) (f : ipsec_sa A -> bool) (k : wait_k) : option region :=
  found ← find_sa m f;
  match found with
  | None => Some (m, Idle (not_found k), None)
  | Some id => r ← wait_for_entry m id; after_wait r id k
  end.

Definition checkout_by_spi (m : mgr) (spi : Z) (dst : host) : option region :=
  find_and_wait m (fun sa => match_by_spi_dst sa spi dst) KCheckout.

Definition checkout_by_reqid (m : mgr) (reqid : Z) (inbound : bool) : option region :=
  find_and_wait m (fun sa => match_by_reqid sa reqid inbound) KCheckout.

Definition update_sa (m : mgr) (spi : Z) (src dst new_src new_dst : host) (new_encap : bool)
    : option region :=
  if negb new_encap then Some (m, Idle (Status NOT_SUPPORTED), None)
  else find_and_wait m (fun sa => match_by_spi_src_dst sa spi src dst) (KUpdate new_src new_dst).

Definition query_sa (m : mgr) (src dst : host) (spi : Z) : option region :=
  find_and_wait m (fun sa => match_by_spi_src_dst sa spi src dst) KQuery.

(** The loop of [flush_entries] over the entries still to visit. *)
Fixpoint flush_rest (m : mgr) (rest : list nat) : option region :=
  match rest with
  | [] => Some (m, Idle (Status SUCCESS), None)
  | id :: rest =>
    r ← wait_remove_entry m id;
    match r with
    | RNo m => flush_rest m rest
    | RWaitUnlocked m => Some (m, WaitUnlocked id KFlush false, None)
    | RWaitWaiters m => Some (m, WaitWaiters id KFlush false, Some (Broadcast id))
    | RYes m => m ← destroy_entry (unlink m id) id; flush_rest m rest
    end
  end.

(** What follows [wait_remove_entry] in [del_sa], [sa_expired] and
    [flush_entries]. *)
Definition after_remove (r : remove_result A R) (id : nat) (k : remove_k) : option region :=
  match r with
  | RNo m => match k with
             | KDel => Some (m, Idle (Status FAILED), None)
             | KExpire => Some (m, Idle NoResult, None)
             | KFlush => flush_rest m (after id (sas m))
             end
  | RWaitUnlocked m => Some (m, WaitUnlocked id k false, None)
  | RWaitWaiters m => Some (m, WaitWaiters id k false, Some (Broadcast id))
  | RYes m =>
    match k with
    | KDel => Some (unlink m id, Removed id, None)
    | KExpire => m ← destroy_entry (unlink m id) id; Some (m, Idle NoResult, None)
    | KFlush => let rest := after id (sas m) in
                m ← destroy_entry (unlink m id) id; flush_rest m rest
    end
  end.

Definition del_sa (m : mgr) (src dst : host) (spi : Z) : option region :=
  found ← find_sa m (fun sa => match_by_spi_src_dst sa spi src dst);
  match found with
  | None => Some (m, Idle (Status FAILED), None)
  | Some id => r ← wait_remove_entry m id; after_remove r id KDel
  end.

Definition flush_sas (m : mgr) : option region := flush_rest m (sas m).

(** The callback of an expiration job: the region, the job if it is scheduled
    again, and the event. *)
Definition sa_expired (m : mgr) (x : sa_expired_t)
    : option (region * option (Z * sa_expired_t) * option ipsec_event) :=
  let id := exp_entry x in
  if bool_decide (id ∈ sas m) then
    sa ← checked_out m id;
    if negb (exp_spi x =? sa_spi sa) then Some (m, Idle NoResult, None, None, None)
    else
      let '(sa, ev) := expire sa (hard_offset x =? 0) in
      m ← modify_sa m id sa;
      if negb (hard_offset x =? 0) then
        Some (m, Idle NoResult, None, Some (hard_offset x, SaExpired id (exp_spi x) 0), ev)
      else
        r ← wait_remove_entry m id;
        reg ← after_remove r id KExpire;
        Some (reg, None, ev)
  else Some (m, Idle NoResult, None, None, None).

(** What a thread can do next. *)
Inductive action :=
  | AAdd (src dst : host) (spi : Z) (update : bool) (sa : option (ipsec_sa A))
  | ACheckoutSpi (spi : Z) (dst : host)
  | ACheckoutReqid (reqid : Z) (inbound : bool)
  | AUse (now bytes : Z)               (* the holder calls [update_usestats] *)
  | ACtx (c : esp_context A)           (* the holder changes the ESP context *)
  | ACheckin
  | AUpdate (spi : Z) (src dst new_src new_dst : host) (new_encap : bool)
  | AQuery (spi : Z) (src dst : host)
  | ADel (src dst : host) (spi : Z)
  | AExpired (n : nat)                 (* the [n]-th job runs *)
  | AFlush
  | AWake                              (* a spurious wakeup *)
  | AResume                            (* a woken thread gets the mutex *)
  | ADestroy.                          (* [del_sa] frees the entry *)

Definition enabled (p : pc) (a : action) : bool :=
  match p, a with
  | Idle _, (AAdd _ _ _ _ _ | ACheckoutSpi _ _ | ACheckoutReqid _ _ | AUpdate _ _ _ _ _ _
          | AQuery _ _ _ | ADel _ _ _ | AExpired _ | AFlush) => true
  | Holds _, (AUse _ _ | ACtx _ | ACheckin) => true
  | (WaitEntry _ _ false | WaitUnlocked _ _ false | WaitWaiters _ _ false), AWake => true
  | (WaitEntry _ _ true | WaitUnlocked _ _ true | WaitWaiters _ _ true), AResume => true
  | Removed _, ADestroy => true
  | _, _ => false
  end.

(** The region an action runs, with the jobs and the event it adds. *)
Definition act (m : mgr) (js : list (Z * sa_expired_t)) (p : pc) (a : action)
    : option (region * list (Z * sa_expired_t) * option ipsec_event) :=
  let plain r := reg ← r; Some (reg, js, None) in
  match a, p with
  | AAdd src dst spi update sa, _ =>
    '(status, m, job) ← add_sa m src dst spi update sa;
    Some (m, Idle (Status status), None, js ++ match job with Some j => [j] | None => [] end, None)
  | ACheckoutSpi spi dst, _ => plain (checkout_by_spi m spi dst)
  | ACheckoutReqid reqid inb, _ => plain (checkout_by_reqid m reqid inb)
  | AUpdate spi src dst ns nd new_encap, _ => plain (update_sa m spi src dst ns nd new_encap)
  | AQuery spi src dst, _ => plain (query_sa m src dst spi)
  | ADel src dst spi, _ => plain (del_sa m src dst spi)
  | AFlush, _ => plain (flush_sas m)
  | AExpired n, _ =>
    match js !! n with
    | None => Some (m, Idle NoResult, None, js, None)
    | Some (_, x) =>
      '(reg, again, ev) ← sa_expired m x;
      Some (reg, delete n js ++ match again with Some j => [j] | None => [] end, ev)
    end
  | AUse now bytes, Holds id =>
    sa ← checked_out m id;
    let '(sa, ev) := update_usestats sa now bytes in
    m ← modify_sa m id sa; Some (m, Holds id, None, js, ev)
  | ACtx c, Holds id =>
    sa ← checked_out m id; m ← modify_sa m id (with_ctx sa c); Some (m, Holds id, None, js, None)
  | ACheckin, Holds id =>
    '(sig, m) ← checkin m id;
    Some (m, Idle NoResult, if sig : bool then Some (Signal id) else None, js, None)
  | AWake, _ => Some (m, wake_up p, None, js, None)
  | AResume, WaitEntry id k _ => plain (r ← wait_for_entry_resume m id; after_wait r id k)
  | AResume, WaitUnlocked id k _ => plain (r ← remove_loop1 m id; after_remove r id k)
  | AResume, WaitWaiters id k _ => plain (r ← remove_loop2 m id; after_remove r id k)
  | ADestroy, Removed id => plain (m ← destroy_entry m id; Some (m, Idle (Status SUCCESS), None))
  | _, _ => Some (m, p, None, js, None)
  end.

(** One step of thread [t]; a step that is not enabled does nothing. *)
Definition step (s : sys) (choice t : nat) (a : action) : option sys :=
  match threads s !! t with
  | Some p =>
    if enabled p a then
      '(m, p', w, js, ev) ← act (manager s) (jobs s) p a;
      Some (Sys m (<[t := p']> (deliver choice (<[t := Idle NoResult]> (threads s)) w)) js
                (events s ++ match ev with Some e => [e] | None => [] end))
    else Some s
  | None => Some s
  end.

Fixpoint run (s : sys) (tr : list (nat * nat * action)) : option sys :=
  match tr with
  | [] => Some s
  | (choice, t, a) :: tr => s ← step s choice t a; run s tr
  end.

Definition init (n : nat) : sys := Sys ipsec_sa_mgr_create (replicate n (Idle NoResult)) [] [].

(** ** Counting threads *)

Definition holding (id : nat) (p : pc) : bool :=
  match p with Holds i => (i =? id)%nat | _ => false end.
Definition waiting (id : nat) (p : pc) : bool :=
  match p with WaitEntry i _ _ => (i =? id)%nat | _ => false end.
Definition in_loop1 (id : nat) (p : pc) : bool :=
  match p with WaitUnlocked i _ _ => (i =? id)%nat | _ => false end.
Definition in_loop2 (id : nat) (p : pc) : bool :=
  match p with WaitWaiters i _ _ => (i =? id)%nat | _ => false end.
Definition removing (id : nat) (p : pc) : bool :=
  match p with Removed i => (i =? id)%nat | _ => false end.
Definition woken (id : nat) (p : pc) : bool :=
  match p with
  | WaitEntry i _ true | WaitUnlocked i _ true | WaitWaiters i _ true => (i =? id)%nat
  | _ => false
  end.

Fixpoint count (f : pc -> bool) (ts : list pc) : nat :=
  match ts with [] => O | p :: ts => (Nat.b2n (f p) + count f ts)%nat end.

Lemma count_insert f ts t p p' :
  ts !! t = Some p -> (count f (<[t := p']> ts) + Nat.b2n (f p) = count f ts + Nat.b2n (f p'))%nat.
Proof.
  revert t. induction ts as [|x ts IH]; intros [|t] Ht; try done.
  - injection Ht as ->. change (<[O := p']> (p :: ts)) with (p' :: ts). cbn [count]. lia.
  - change (<[S t := p']> (x :: ts)) with (x :: <[t := p']> ts). cbn [count].
    specialize (IH t Ht). lia.
Qed.

Lemma count_waiters id ts :
  (count (asleep id) ts + count (woken id) ts
   = count (waiting id) ts + count (in_loop1 id) ts + count (in_loop2 id) ts)%nat.
Proof.
  induction ts as [|p ts IH]; [done|]. cbn [count].
  assert (Nat.b2n (asleep id p) + Nat.b2n (woken id p)
          = Nat.b2n (waiting id p) + Nat.b2n (in_loop1 id p) + Nat.b2n (in_loop2 id p))%nat; [|lia].
  destruct p; cbn; try done; destruct woken0; cbn; lia.
Qed.

Lemma count_pos f ts : (0 < count f ts)%nat <-> exists t p, ts !! t = Some p /\ f p = true.
Proof.
  induction ts as [|p ts IH]; cbn [count].
  - split; [lia|]. by intros (t & p & ? & _).
  - split.
    + destruct (f p) eqn:E; [intros _; by exists O, p|]. cbn. intros (t & q & Hq & Hf)%IH.
      by exists (S t), q.
    + intros ([|t] & q & Hq & Hf).
      * injection Hq as ->. rewrite Hf. cbn. lia.
      * assert (0 < count f ts)%nat by (apply IH; by exists t, q). lia.
Qed.

(** Waking a thread changes none of the counts but those of sleeping and woken
    threads. *)
Definition role_of (f : pc -> bool) : Prop := forall p, f (wake_up p) = f p.

Lemma count_alter_wake f t ts : role_of f -> count f (alter wake_up t ts) = count f ts.
Proof.
  intros Hf. revert t. induction ts as [|p ts IH]; intros [|t]; try done.
  - cbn. by rewrite Hf.
  - cbn. f_equal. apply IH.
Qed.

Lemma count_broadcast f id ts :
  role_of f -> count f ((fun p => if asleep id p then wake_up p else p) <$> ts) = count f ts.
Proof.
  intros Hf. induction ts as [|p ts IH]; [done|]. cbn. f_equal; [|exact IH].
  destruct (asleep id p); [by rewrite Hf|done].
Qed.

Lemma first_asleep_spec id ts :
  match first_asleep id ts with
  | Some t => exists p, ts !! t = Some p /\ asleep id p = true
  | None => count (asleep id) ts = O
  end.
Proof.
  induction ts as [|p ts IH]; [done|]. cbn. destruct (asleep id p) eqn:E; [by exists p|].
  destruct (first_asleep id ts); cbn; exact IH.
Qed.

Lemma signalled_spec id choice ts :
  match signalled id choice ts with
  | Some t => exists p, ts !! t = Some p /\ asleep id p = true
  | None => count (asleep id) ts = O
  end.
Proof.
  unfold signalled. destruct (ts !! choice) as [p|] eqn:E; [|apply first_asleep_spec].
  destruct (asleep id p) eqn:Ea; [by exists p|apply first_asleep_spec].
Qed.

Lemma alter_as_insert (g : pc -> pc) (t : nat) (p : pc) (ts : list pc) :
  ts !! t = Some p -> alter g t ts = <[t := g p]> ts.
Proof.
  revert t. induction ts as [|x ts IH]; intros [|t] Ht; try done; cbn in *.
  - by injection Ht as ->.
  - f_equal. by apply IH.
Qed.

Lemma count_wake_asleep i id t p ts :
  ts !! t = Some p -> asleep id p = true ->
  let ts' := alter wake_up t ts in
  (count (asleep i) ts' + (if (i =? id)%nat then 1 else 0) = count (asleep i) ts /\
   count (woken i) ts' = count (woken i) ts + (if (i =? id)%nat then 1 else 0))%nat.
Proof.
  intros Ht Ha ts'. subst ts'. rewrite (alter_as_insert _ _ p) by done.
  pose proof (count_insert (asleep i) ts t p (wake_up p) Ht).
  pose proof (count_insert (woken i) ts t p (wake_up p) Ht).
  assert (asleep i (wake_up p) = false /\ woken i p = false /\
          asleep i p = (i =? id)%nat /\ woken i (wake_up p) = (i =? id)%nat) as (E1 & E2 & E3 & E4).
  { destruct p as [| ? ? []| | ? ? []| ? ? []|]; try done; cbn in *; apply Nat.eqb_eq in Ha as ->;
      by rewrite (Nat.eqb_sym i id). }
  rewrite E1, E2, E3, E4 in *. destruct (i =? id)%nat; cbn in *; lia.
Qed.

Lemma deliver_roles f choice ts w : role_of f -> count f (deliver choice ts w) = count f ts.
Proof.
  intros Hf. destruct w as [[id|id]|]; cbn [deliver]; [|by apply count_broadcast|done].
  destruct (signalled id choice ts); [by apply count_alter_wake|done].
Qed.

Definition wake_target (w : option wake) : option nat :=
  match w with Some (Signal i | Broadcast i) => Some i | None => None end.

(** Sleeping and woken threads after a wake: other entries are not affected, a
    signal leaves a woken thread if there is any to wake. *)
Lemma deliver_wakes i choice ts w :
  let ts' := deliver choice ts w in
  (wake_target w <> Some i -> count (asleep i) ts' = count (asleep i) ts /\
                              count (woken i) ts' = count (woken i) ts) /\
  (wake_target w = Some i -> (0 < count (asleep i) ts')%nat -> (0 < count (woken i) ts')%nat) /\
  (wake_target w = Some i -> (0 < count (asleep i) ts)%nat -> (0 < count (woken i) ts')%nat) /\
  (count (woken i) ts <= count (woken i) ts')%nat.
Proof.
  intros ts'. subst ts'. destruct w as [[id|id]|]; cbn [wake_target deliver].
  - pose proof (signalled_spec id choice ts) as Hs. destruct (signalled id choice ts) as [t|].
    + destruct Hs as (p & Hp & Ha). destruct (count_wake_asleep i id t p ts Hp Ha) as [H1 H2].
      destruct (Nat.eqb_spec i id) as [->|Hne].
      * split_and!; try congruence; lia.
      * split_and!; try lia; intros [=]; congruence.
    + split_and!; try done; try lia; intros [=]; subst; lia.
  - destruct (decide (id = i)) as [->|Hne].
    + set (ts' := _ <$> ts).
      assert (count (asleep i) ts' = O) as Ha.
      { subst ts'. induction ts as [|p ts IH]; [done|]. rewrite fmap_cons. cbn [count].
        rewrite IH. destruct (asleep i p) eqn:E; [|by rewrite E].
        destruct p as [| ? ? []| | ? ? []| ? ? []|]; done. }
      pose proof (count_waiters i ts). pose proof (count_waiters i ts') as Hw.
      subst ts'. rewrite !(count_broadcast (waiting i)), !(count_broadcast (in_loop1 i)),
        !(count_broadcast (in_loop2 i)) in Hw by (intros []; done).
      split_and!; try congruence; lia.
    + assert (forall f, (forall p, asleep id p = true -> f (wake_up p) = f p) ->
        count f ((fun p => if asleep id p then wake_up p else p) <$> ts) = count f ts) as Hsame.
      { intros f Hf. induction ts as [|p ts IH]; [done|]. cbn. f_equal; [|exact IH].
        destruct (asleep id p) eqn:E; [by rewrite Hf|done]. }
      rewrite !Hsame.
      * split_and!; try done; congruence.
      * intros [| ? ? []| | ? ? []| ? ? []|]; cbn; try done; intros E%Nat.eqb_eq; subst;
          by apply Nat.eqb_neq.
      * intros [| ? ? []| | ? ? []| ? ? []|]; cbn; try done; intros E%Nat.eqb_eq; subst;
          symmetry; by apply Nat.eqb_neq.
  - split_and!; done || lia.
Qed.

(** ** The invariant *)

(** For one entry: who holds it, waits for it and removes it.  [pend] is one
    while the thread that is running is about to remove the entry, [nl] whether
    a sleeping thread of an unlocked entry implies a woken one. *)
Definition entry_ok (nl : bool) (pend : nat) (m : mgr) (ts : list pc) (id : nat) : Prop :=
  match entries m !! id with
  | Some e =>
    count (holding id) ts = Nat.b2n (locked e) /\
    count (waiting id) ts = waiting_threads e /\
    (count (in_loop1 id) ts + count (in_loop2 id) ts + count (removing id) ts + pend
     = Nat.b2n (awaits_deletion e))%nat /\
    ((0 < count (in_loop2 id) ts + count (removing id) ts)%nat -> locked e = false) /\
    ((0 < count (removing id) ts)%nat -> waiting_threads e = O) /\
    ((id ∈ sas m) <-> count (removing id) ts = O) /\
    (nl = true -> locked e = false -> (0 < count (asleep id) ts)%nat -> (0 < count (woken id) ts)%nat)
  | None =>
    (id ∉ sas m) /\ pend = O /\
    (count (holding id) ts + count (waiting id) ts + count (in_loop1 id) ts
     + count (in_loop2 id) ts + count (removing id) ts = 0)%nat
  end.

Definition frame_ok (m : mgr) : Prop :=
  NoDup (sas m) /\ forall id, is_Some (entries m !! id) -> (id < next_entry m)%nat.

Definition sys_ok (m : mgr) (ts : list pc) : Prop :=
  frame_ok m /\ forall id, entry_ok true 0 m ts id.

(** Everything but entry [id0]. *)
Definition ok_except (id0 : nat) (m : mgr) (ts : list pc) : Prop :=
  frame_ok m /\ forall id, id <> id0 -> entry_ok true 0 m ts id.

Definition pc_about (id0 : nat) (p : pc) : Prop :=
  match p with
  | Idle _ => True
  | WaitEntry i _ _ | Holds i | WaitUnlocked i _ _ | WaitWaiters i _ _ | Removed i => i = id0
  end.

(** The counts of two thread lists agree for an entry. *)
Definition same_counts (id : nat) (ts ts' : list pc) : Prop :=
  count (holding id) ts' = count (holding id) ts /\
  count (waiting id) ts' = count (waiting id) ts /\
  count (in_loop1 id) ts' = count (in_loop1 id) ts /\
  count (in_loop2 id) ts' = count (in_loop2 id) ts /\
  count (removing id) ts' = count (removing id) ts /\
  count (asleep id) ts' = count (asleep id) ts /\
  count (woken id) ts' = count (woken id) ts.

Lemma same_insert id id0 ts (t : nat) p p' :
  ts !! t = Some p -> id <> id0 -> pc_about id0 p -> pc_about id0 p' ->
  same_counts id ts (<[t := p']> ts).
Proof.
  intros Ht Hne Hp Hp'. unfold same_counts.
  assert (forall f, f p = false -> f p' = false -> count f (<[t := p']> ts) = count f ts) as Hc.
  { intros f E E'. pose proof (count_insert f ts t p p' Ht) as H. rewrite E, E' in H. lia. }
  assert (forall q, pc_about id0 q ->
    holding id q = false /\ waiting id q = false /\ in_loop1 id q = false /\
    in_loop2 id q = false /\ removing id q = false /\ asleep id q = false /\ woken id q = false) as Hq.
  { intros q Hq. assert ((id0 =? id)%nat = false) as E by (apply Nat.eqb_neq; congruence).
    destruct q as [| ? ? []| | ? ? []| ? ? []|]; cbn in *; subst; rewrite ?E; by split_and!. }
  destruct (Hq p Hp) as (? & ? & ? & ? & ? & ? & ?), (Hq p' Hp') as (? & ? & ? & ? & ? & ? & ?).
  split_and!; by apply Hc.
Qed.

Lemma same_deliver id choice ts w :
  wake_target w <> Some id -> same_counts id ts (deliver choice ts w).
Proof.
  intros Hw. destruct (deliver_wakes id choice ts w) as [H _]. destruct (H Hw) as [Ha Hk].
  unfold same_counts. rewrite Ha, Hk.
  rewrite !deliver_roles by (intros []; done). by split_and!.
Qed.

Lemma entry_ok_same nl pend m m' ts ts' id :
  same_counts id ts ts' -> entries m' !! id = entries m !! id ->
  (id ∈ sas m' <-> id ∈ sas m) -> entry_ok nl pend m ts id -> entry_ok nl pend m' ts' id.
Proof.
  intros (H1 & H2 & H3 & H4 & H5 & H6 & H7) He Hl. unfold entry_ok.
  rewrite H1, H2, H3, H4, H5, H6, H7, He. destruct (entries m !! id); [by rewrite Hl|].
  intros (Hn & Hr). split; [by rewrite Hl|done].
Qed.

Lemma deliver_idle choice ts w (t : nat) r :
  ts !! t = Some (Idle r) -> deliver choice ts w !! t = Some (Idle r).
Proof.
  intros Ht. destruct w as [[id|id]|]; cbn [deliver]; [| |done].
  - destruct (signalled id choice ts) as [u|]; [|done].
    destruct (decide (u = t)) as [->|Hne].
    + by rewrite list_lookup_alter_eq, Ht.
    + by rewrite list_lookup_alter_ne.
  - by rewrite list_lookup_fmap, Ht.
Qed.

(** The counts when the running thread reaches its next place. *)
Lemma final_counts id (t : nat) r p' ts choice w (ts1 := deliver choice ts w)
    (ts' := <[t := p']> ts1) :
  ts !! t = Some (Idle r) ->
  (count (holding id) ts' = count (holding id) ts + Nat.b2n (holding id p') /\
   count (waiting id) ts' = count (waiting id) ts + Nat.b2n (waiting id p') /\
   count (in_loop1 id) ts' = count (in_loop1 id) ts + Nat.b2n (in_loop1 id p') /\
   count (in_loop2 id) ts' = count (in_loop2 id) ts + Nat.b2n (in_loop2 id p') /\
   count (removing id) ts' = count (removing id) ts + Nat.b2n (removing id p') /\
   count (asleep id) ts' = count (asleep id) ts1 + Nat.b2n (asleep id p') /\
   count (woken id) ts' = count (woken id) ts1 + Nat.b2n (woken id p'))%nat.
Proof.
  intros Ht. pose proof (deliver_idle choice ts w t r Ht) as Ht1. fold ts1 in Ht1.
  assert (forall f, f (Idle r) = false ->
            count f ts' = (count f ts1 + Nat.b2n (f p'))%nat) as Hc.
  { intros f E. pose proof (count_insert f ts1 t _ p' Ht1) as H. rewrite E in H. cbn in H.
    subst ts'. lia. }
  rewrite !Hc by done. subst ts1. rewrite !deliver_roles by (intros []; done). by split_and!.
Qed.

(** The step is finished when it is for the entry it is about. *)
Lemma finish_ok id0 m m' ts (t : nat) r p' choice w :
  ok_except id0 m ts -> frame_ok m' -> ts !! t = Some (Idle r) -> pc_about id0 p' ->
  (forall i, wake_target w = Some i -> i = id0) ->
  (forall id, id <> id0 -> entries m' !! id = entries m !! id /\ (id ∈ sas m' <-> id ∈ sas m)) ->
  entry_ok true 0 m' (<[t := p']> (deliver choice ts w)) id0 ->
  sys_ok m' (<[t := p']> (deliver choice ts w)).
Proof.
  intros [_ Hok] Hf Ht Hp Hw Hsame Hid0. split; [done|]. intros id.
  destruct (decide (id = id0)) as [->|Hne]; [done|]. destruct (Hsame id Hne) as [He Hl].
  assert (wake_target w <> Some id) as Hw' by (intros E; by apply Hne, Hw).
  eapply entry_ok_same; [by eapply same_insert, Hp; [apply deliver_idle| |]|reflexivity|reflexivity|].
  eapply entry_ok_same; [by apply same_deliver|exact He|exact Hl|]. by apply Hok.
Qed.

Lemma frame_set (m : mgr) id e e' : frame_ok m -> entries m !! id = Some e -> frame_ok (set_entry m id e').
Proof.
  intros [Hn Hb] He. split; [done|]. cbn. intros i.
  rewrite lookup_insert_is_Some'. intros [<-|Hi]; apply Hb; [by rewrite He|done].
Qed.

Lemma set_entry_other (m : mgr) id e i :
  i <> id -> entries (set_entry m id e) !! i = entries m !! i /\
             (i ∈ sas (set_entry m id e) <-> i ∈ sas m).
Proof. intros Hne. cbn. by rewrite lookup_insert_ne. Qed.

(** The running thread leaves its place. *)
Lemma leave_ok (m : mgr) ts (t : nat) p id0 :
  sys_ok m ts -> ts !! t = Some p -> pc_about id0 p ->
  ok_except id0 m (<[t := Idle NoResult]> ts).
Proof.
  intros [Hf Hok] Ht Hp. split; [done|]. intros id Hne.
  eapply entry_ok_same; [by eapply same_insert|reflexivity|reflexivity|apply Hok].
Qed.

Lemma ok_except_set (m : mgr) ts id e e' :
  ok_except id m ts -> entries m !! id = Some e -> ok_except id (set_entry m id e') ts.
Proof.
  intros [Hf Hok] He. split; [by eapply frame_set|]. intros i Hne.
  destruct (set_entry_other m id e' i Hne) as [E1 E2].
  eapply entry_ok_same; [by split_and!|exact E1|exact E2|by apply Hok].
Qed.

Ltac eqb_simpl := rewrite ?Nat.eqb_refl in *; cbn [Nat.b2n] in *.

(** Facts about the counts of the threads when the step ends at [p'] with [w]. *)
Ltac step_counts id t r p' ts choice w Ht :=
  destruct (final_counts id t r p' ts choice w Ht) as (?F1 & ?F2 & ?F3 & ?F4 & ?F5 & ?F6 & ?F7);
  destruct (deliver_wakes id choice ts w) as (?D1 & ?D2 & ?D3 & ?D4);
  cbn [holding waiting in_loop1 in_loop2 removing asleep woken wake_target] in *;
  pose proof (count_waiters id ts); eqb_simpl.

(** The new value of the entry the step is about. *)
Lemma set_entry_ok (m : mgr) ts (t : nat) r id e e' p' w :
  ok_except id m ts -> entries m !! id = Some e -> ts !! t = Some (Idle r) -> pc_about id p' ->
  (forall i, wake_target w = Some i -> i = id) ->
  (forall choice, entry_ok true 0 (set_entry m id e') (<[t := p']> (deliver choice ts w)) id) ->
  forall choice, sys_ok (set_entry m id e') (<[t := p']> (deliver choice ts w)).
Proof.
  intros Hex He Ht Hp Hw Hid choice. pose proof (proj1 Hex).
  apply (finish_ok id m _ ts t r); try done; [by eapply frame_set|intros; by apply set_entry_other].
Qed.

Lemma set_entry_twice (m : mgr) id e e' : set_entry (set_entry m id e) id e' = set_entry m id e'.
Proof. unfold set_entry, with_entries. cbn. by rewrite insert_insert_eq. Qed.

Lemma entry_set (m : mgr) id e : entries (set_entry m id e) !! id = Some e.
Proof. apply lookup_insert_eq. Qed.

Ltac entry_case id t r p' ts w Ht :=
  intros choice; step_counts id t r p' ts choice w Ht;
  unfold entry_ok; cbn [entries set_entry with_entries sas]; rewrite lookup_insert_eq;
  cbn [locked waiting_threads awaits_deletion].

Lemma wait_ok (m : mgr) ts (t : nat) r id k e :
  ok_except id m ts -> entry_ok false 0 m ts id -> id ∈ sas m -> entries m !! id = Some e ->
  ts !! t = Some (Idle r) ->
  exists m' p' w, (x ← wait_for_entry m id; after_wait x id k) = Some (m', p', w) /\
    forall choice, sys_ok m' (<[t := p']> (deliver choice ts w)).
Proof.
  intros Hex Hid Hin He Ht. pose proof (proj1 Hex) as Hf.
  unfold wait_for_entry, entry_ok in *. rewrite He in *. cbn [mbind option_bind].
  destruct Hid as (C1 & C2 & C3 & C4 & C5 & C6 & _). rewrite C6 in Hin.
  destruct (locked e && negb (awaits_deletion e)) eqn:Ew; cbn [after_wait].
  { do 3 eexists. split; [reflexivity|]. eapply set_entry_ok; try done.
    entry_case id t r (WaitEntry id k false) ts (@None wake) Ht.
    apply andb_true_iff in Ew as [El Ea]. rewrite El, C6 in *. cbn [Nat.b2n] in *.
    split_and!; try done; lia. }
  destruct (awaits_deletion e) eqn:Ea; cbn [after_wait].
  { do 3 eexists. split; [reflexivity|]. intros choice.
    apply (finish_ok id m m ts t r); try done; [by intros ? [= ->]|].
    step_counts id t r (Idle (gone k)) ts choice (Some (Signal id)) Ht.
    unfold entry_ok. rewrite He, Ea, C6. specialize (D2 eq_refl). cbn [Nat.b2n] in *.
    split_and!; try lia. }
  assert (locked e = false) as El by (destruct (locked e); done). rewrite El in *.
  unfold complete_wait, checked_out, modify_sa, unlock_entry.
  rewrite entry_set. cbn [fmap option_fmap option_map mbind option_bind].
  destruct k as [|ns nd|]; [| |]; rewrite ?entry_set, ?set_entry_twice;
    cbn [mbind option_bind]; rewrite ?entry_set, ?set_entry_twice; cbn [mbind option_bind];
    rewrite ?set_entry_twice; do 3 eexists; (split; [reflexivity|]);
    eapply set_entry_ok; try done; try (by intros ? [= ->]).
  - entry_case id t r (Holds id) ts (@None wake) Ht. rewrite C6. split_and!; try done; lia.
  - entry_case id t r (Idle (Status SUCCESS)) ts (Some (Signal id)) Ht. rewrite C6.
    specialize (D2 eq_refl). split_and!; try done; lia.
  - match goal with |- context [Idle ?q] =>
      entry_case id t r (Idle q) ts (Some (Signal id)) Ht end. rewrite C6.
    specialize (D2 eq_refl). split_and!; try done; lia.
Qed.

Lemma idle_ok (m : mgr) ts (t : nat) r q :
  sys_ok m ts -> ts !! t = Some (Idle r) -> sys_ok m (<[t := Idle q]> ts).
Proof.
  intros [Hf Hok] Ht. split; [done|]. intros id.
  eapply entry_ok_same; [by eapply (same_insert id (S id)); [|lia| |]|reflexivity|reflexivity|apply Hok].
Qed.

Lemma listed_live (m : mgr) ts id : sys_ok m ts -> id ∈ sas m -> is_Some (entries m !! id).
Proof.
  intros [_ Hok] Hin. specialize (Hok id). unfold entry_ok in Hok.
  destruct (entries m !! id); [by eexists|]. by destruct Hok.
Qed.

Lemma find_first_spec (es : gmap nat (sa_entry A)) l f :
  Forall (fun id => is_Some (es !! id)) l ->
  (exists pre id post e, l = pre ++ id :: post /\ find_first es l f = Some (Some id) /\
     es !! id = Some e /\ f (ent_sa e) = true /\
     Forall (fun i => f ∘ ent_sa <$> es !! i = Some false) pre) \/
  (find_first es l f = Some None /\ Forall (fun i => f ∘ ent_sa <$> es !! i = Some false) l).
Proof.
  induction 1 as [|id l [e He] Hl IH]; [by right|]. cbn [find_first]. rewrite He.
  cbn [mbind option_bind]. destruct (f (ent_sa e)) eqn:Ef.
  - left. by exists [], id, l, e.
  - destruct IH as [(pre & i & post & e' & -> & -> & He' & Hf' & Hpre)|[-> Hall]].
    + left. exists (id :: pre), i, post, e'. split_and!; try done.
      constructor; [|done]. by rewrite He; cbn; rewrite Ef.
    + right. split; [done|]. constructor; [|done]. by rewrite He; cbn; rewrite Ef.
Qed.

Lemma find_sa_ok (m : mgr) ts f :
  sys_ok m ts -> exists r, find_sa m f = Some r /\
  match r with
  | Some id => id ∈ sas m /\ exists e, entries m !! id = Some e /\ f (ent_sa e) = true
  | None => forall id, id ∈ sas m -> f ∘ ent_sa <$> entries m !! id = Some false
  end.
Proof.
  intros Hok. unfold find_sa.
  destruct (find_first_spec (entries m) (sas m) f)
    as [(pre & id & post & e & Hl & -> & He & Hf & _)|[-> Hall]].
  - apply Forall_forall. intros id. by apply listed_live with ts.
  - eexists. split; [done|]. split; [rewrite Hl; apply elem_of_app; right; left|by exists e].
  - eexists. split; [done|]. cbn beta iota. by apply Forall_forall.
Qed.

Lemma weaken_ok (m : mgr) ts id : sys_ok m ts -> ok_except id m ts /\ entry_ok false 0 m ts id.
Proof.
  intros [Hf Hok]. split; [by split|]. specialize (Hok id). unfold entry_ok in *.
  destruct (entries m !! id); [|done]. destruct Hok as (? & ? & ? & ? & ? & ? & _). by split_and!.
Qed.

(** A thread that starts an operation on an entry of the list. *)
Lemma find_and_wait_ok (m : mgr) ts (t : nat) r f k :
  sys_ok m ts -> ts !! t = Some (Idle r) ->
  exists m' p' w, find_and_wait m f k = Some (m', p', w) /\
    forall choice, sys_ok m' (<[t := p']> (deliver choice ts w)).
Proof.
  intros Hok Ht. unfold find_and_wait.
  destruct (find_sa_ok m ts f Hok) as ([id|] & -> & Hr); cbn [mbind option_bind].
  - destruct Hr as (Hin & e & He & _), (weaken_ok m ts id Hok) as [Hex Hid]. by eapply wait_ok.
  - do 3 eexists. split; [reflexivity|]. intros choice. by eapply idle_ok.
Qed.

Lemma resume_wait_ok (m : mgr) ts (t : nat) id k b :
  sys_ok m ts -> ts !! t = Some (WaitEntry id k b) ->
  exists m' p' w, (x ← wait_for_entry_resume m id; after_wait x id k) = Some (m', p', w) /\
    forall choice, sys_ok m' (<[t := p']> (deliver choice (<[t := Idle NoResult]> ts) w)).
Proof.
  intros Hok Ht. pose proof (leave_ok m ts t _ id Hok Ht eq_refl) as Hex.
  destruct Hok as [Hf Hok]. specialize (Hok id). unfold entry_ok in Hok.
  set (ts0 := <[t := Idle NoResult]> ts) in *.
  assert (forall f, count f ts0 + Nat.b2n (f (WaitEntry id k b))
                    = count f ts + Nat.b2n (f (Idle NoResult)))%nat as Hc
    by (intros f; by apply count_insert).
  pose proof (Hc (holding id)) as H1. pose proof (Hc (waiting id)) as H2.
  pose proof (Hc (in_loop1 id)) as H3. pose proof (Hc (in_loop2 id)) as H4.
  pose proof (Hc (removing id)) as H5.
  cbn [holding waiting in_loop1 in_loop2 removing] in *. eqb_simpl.
  unfold wait_for_entry_resume. destruct (entries m !! id) as [e|] eqn:He; [|lia].
  cbn [mbind option_bind]. destruct Hok as (C1 & C2 & C3 & C4 & C5 & C6 & _).
  eapply wait_ok; [| | |apply entry_set|].
  - by eapply ok_except_set.
  - unfold entry_ok. rewrite entry_set. cbn [locked waiting_threads awaits_deletion sas set_entry with_entries].
    rewrite C6. split_and!; try done; try lia.
  - cbn. apply C6. lia.
  - subst ts0. apply list_lookup_insert_eq. by eapply lookup_lt_Some.
Qed.

(** ** Removing entries *)

Lemma unlink_other (m : mgr) id i : i <> id -> (i ∈ sas (unlink m id) <-> i ∈ sas m).
Proof. intros Hne. cbn. rewrite list_elem_of_filter. tauto. Qed.

Lemma unlink_gone (m : mgr) id : id ∉ sas (unlink m id).
Proof. cbn. rewrite list_elem_of_filter. by intros [? _]. Qed.

Lemma unlink_frame (m : mgr) id : frame_ok m -> frame_ok (unlink m id).
Proof. intros [Hn Hb]. split; [by apply NoDup_filter|done]. Qed.

(** What the second loop may leave, the running thread being the remover. *)
Definition removal_ok (m : mgr) (ts : list pc) (t id : nat) (x : remove_result A R) : Prop :=
  match x with
  | RNo _ => False
  | RWaitUnlocked m' => forall k, sys_ok m' (<[t := WaitUnlocked id k false]> ts)
  | RWaitWaiters m' =>
    forall k choice, sys_ok m' (<[t := WaitWaiters id k false]> (deliver choice ts (Some (Broadcast id))))
  | RYes m' => sas m' = sas m /\ sys_ok (unlink m' id) (<[t := Removed id]> ts) /\
               exists m2, destroy_entry (unlink m' id) id = Some m2 /\ sys_ok m2 ts /\
                          sas m2 = sas (unlink m id)
  end.

Lemma remove_loop2_ok (m : mgr) ts (t : nat) r id e :
  ok_except id m ts -> entry_ok false 1 m ts id -> entries m !! id = Some e ->
  locked e = false -> ts !! t = Some (Idle r) ->
  exists x, remove_loop2 m id = Some x /\ removal_ok m ts t id x.
Proof.
  intros Hex Hid He El Ht. pose proof (proj1 Hex) as Hf.
  unfold remove_loop2, entry_ok in *. rewrite He in *. cbn [mbind option_bind].
  destruct Hid as (C1 & C2 & C3 & C4 & C5 & C6 & _). rewrite El in *. cbn [Nat.b2n] in *.
  eexists. split; [reflexivity|].
  assert (awaits_deletion e = true) as Ea by (destruct (awaits_deletion e); cbn in *; [done|lia]).
  rewrite Ea in *. cbn [Nat.b2n] in *.
  destruct (Nat.ltb_spec 0 (waiting_threads e)) as [Hw|Hw]; cbn [removal_ok].
  - intros k choice. apply (finish_ok id m m ts t r); try done; [by intros ? [= ->]|].
    step_counts id t r (WaitWaiters id k false) ts choice (Some (Broadcast id)) Ht.
    unfold entry_ok. rewrite He, El, Ea, C6. specialize (D2 eq_refl). specialize (D3 eq_refl).
    cbn [Nat.b2n].
    split_and!; try done; lia.
  - split; [done|]. split.
    + apply (finish_ok id m _ ts t r (Removed id) 0 None); try done; [by apply unlink_frame| |].
      { intros i Hne. split; [done|by apply unlink_other]. }
      step_counts id t r (Removed id) ts 0%nat (@None wake) Ht.
      unfold entry_ok. change (entries (unlink m id)) with (entries m). rewrite He, El, Ea.
      pose proof (unlink_gone m id). cbn [Nat.b2n deliver] in *.
      split_and!; try done; try lia. split; [done|lia].
    + unfold destroy_entry. change (entries (unlink m id)) with (entries m). rewrite He.
      cbn [mbind option_bind]. eexists. split; [reflexivity|]. split; [|done].
      split.
      * destruct (unlink_frame m id Hf) as [Hn Hb]. split; [done|]. cbn. intros i.
        rewrite lookup_delete_is_Some. intros [_ Hi]. by apply Hf.
      * intros i. destruct (decide (i = id)) as [->|Hne].
        -- unfold entry_ok. cbn [entries with_entries]. rewrite lookup_delete_eq.
           split_and!; [apply unlink_gone|done|lia].
        -- eapply entry_ok_same; [by split_and!| |by apply unlink_other|by apply Hex].
           cbn. by rewrite lookup_delete_ne.
Qed.

Lemma remove_loop1_ok (m : mgr) ts (t : nat) r id e :
  ok_except id m ts -> entry_ok false 1 m ts id -> entries m !! id = Some e ->
  ts !! t = Some (Idle r) ->
  exists x, remove_loop1 m id = Some x /\ removal_ok m ts t id x.
Proof.
  intros Hex Hid He Ht. unfold remove_loop1. rewrite He. cbn [mbind option_bind].
  destruct (locked e) eqn:El; [|by eapply remove_loop2_ok].
  eexists. split; [reflexivity|]. cbn [removal_ok]. intros k.
  apply (finish_ok id m m ts t r (WaitUnlocked id k false) 0 None); try done; [by apply Hex|].
  step_counts id t r (WaitUnlocked id k false) ts 0%nat (@None wake) Ht.
  unfold entry_ok in *. rewrite He in *. destruct Hid as (C1 & C2 & C3 & C4 & C5 & C6 & _).
  rewrite C6, El in *. cbn [Nat.b2n deliver] in *. split_and!; try done; lia.
Qed.

Lemma wait_remove_ok (m : mgr) ts (t : nat) r id :
  sys_ok m ts -> id ∈ sas m -> ts !! t = Some (Idle r) ->
  exists x, wait_remove_entry m id = Some x /\ (x = RNo m \/ removal_ok m ts t id x).
Proof.
  intros Hok Hin Ht. destruct (listed_live m ts id Hok Hin) as [e He].
  destruct (weaken_ok m ts id Hok) as [Hex Hid]. unfold wait_remove_entry. rewrite He.
  cbn [mbind option_bind]. destruct (awaits_deletion e) eqn:Ea; [by eauto|].
  set (e' := SaEntry _ _ _ true).
  destruct (remove_loop1_ok (set_entry m id e') ts t r id e') as (x & -> & Hx); try done.
  - by eapply ok_except_set.
  - unfold entry_ok in *. rewrite He, Ea in Hid. rewrite entry_set. cbn in *.
    destruct Hid as (C1 & C2 & C3 & C4 & C5 & C6 & _). split_and!; try done; lia.
  - apply entry_set.
  - exists x. split; [done|]. right. destruct x; [done..|]. exact Hx.
Qed.

Lemma after_incl id l : after id l ⊆ l.
Proof.
  induction l as [|i l IH]; [done|]. cbn. destruct (decide _); intros x Hx; right; [done|by apply IH].
Qed.

Lemma after_nodup id l : NoDup l -> NoDup (after id l) /\ id ∉ after id l.
Proof.
  induction 1 as [|i l Hi Hl IH]; cbn; [split; [constructor|set_solver]|].
  destruct (decide (i = id)) as [->|]; [done|exact IH].
Qed.

Lemma flush_rest_ok rest : forall (m : mgr) ts (t : nat) r,
  sys_ok m ts -> ts !! t = Some (Idle r) -> NoDup rest -> rest ⊆ sas m ->
  exists m' p' w, flush_rest m rest = Some (m', p', w) /\
    forall choice, sys_ok m' (<[t := p']> (deliver choice ts w)).
Proof.
  induction rest as [|id rest IH]; intros m ts t r Hok Ht Hnd Hsub; cbn [flush_rest].
  { do 3 eexists. split; [reflexivity|]. intros choice. by eapply idle_ok. }
  apply NoDup_cons in Hnd as [Hid Hnd].
  destruct (wait_remove_ok m ts t r id Hok) as (x & -> & Hx); [apply Hsub; left|done|].
  cbn [mbind option_bind]. destruct x as [m1|m1|m1|m1].
  - destruct Hx as [[= ->]|[]]. eapply IH; try done. intros i Hi. apply Hsub. by right.
  - destruct Hx as [?|Hx]; [done|]. do 3 eexists. split; [reflexivity|]. intros choice. apply Hx.
  - destruct Hx as [?|Hx]; [done|]. do 3 eexists. split; [reflexivity|]. intros choice. apply Hx.
  - destruct Hx as [?|(_ & _ & m2 & -> & Hm2 & Hs)]; [done|]. cbn [mbind option_bind].
    eapply IH; try done. rewrite Hs. intros i Hi. apply unlink_other; [by intros ->|].
    apply Hsub. by right.
Qed.

Lemma after_remove_ok (m : mgr) ts (t : nat) r id k x :
  sys_ok m ts \/ frame_ok m -> ts !! t = Some (Idle r) -> removal_ok m ts t id x ->
  exists m' p' w, after_remove x id k = Some (m', p', w) /\
    forall choice, sys_ok m' (<[t := p']> (deliver choice ts w)).
Proof.
  intros Hm Ht Hx. destruct x as [m1|m1|m1|m1]; cbn [after_remove]; [done| | |].
  - do 3 eexists. split; [reflexivity|]. intros choice. apply Hx.
  - do 3 eexists. split; [reflexivity|]. intros choice. apply Hx.
  - destruct Hx as (Hs1 & Hrm & m2 & Hd & Hm2 & Hs).
    assert (NoDup (sas m)) as Hnd by (destruct Hm as [[[Hn _] _]|[Hn _]]; done).
    destruct k; rewrite ?Hd; cbn [mbind option_bind].
    + do 3 eexists. split; [reflexivity|]. intros choice. exact Hrm.
    + do 3 eexists. split; [reflexivity|]. intros choice. by eapply idle_ok.
    + rewrite Hs1. destruct (after_nodup id (sas m) Hnd) as [Hn Hni].
      eapply flush_rest_ok; try done. rewrite Hs. intros i Hi.
      apply unlink_other; [by intros ->|]. by eapply after_incl.
Qed.

Lemma resume_remove_ok (m : mgr) ts (t : nat) p id k :
  sys_ok m ts -> ts !! t = Some p ->
  (exists b, p = WaitUnlocked id k b) \/ (exists b, p = WaitWaiters id k b) ->
  let ts0 := <[t := Idle NoResult]> ts in
  exists m' p' w,
    (x ← match p with WaitUnlocked _ _ _ => remove_loop1 m id | _ => remove_loop2 m id end;
     after_remove x id k) = Some (m', p', w) /\
    forall choice, sys_ok m' (<[t := p']> (deliver choice ts0 w)).
Proof.
  intros Hok Ht Hp ts0.
  assert (pc_about id p) as Hab by (by destruct Hp as [[b ->]|[b ->]]).
  pose proof (leave_ok m ts t _ id Hok Ht Hab) as Hex. fold ts0 in Hex.
  assert (ts0 !! t = Some (Idle NoResult)) as Ht0
    by (apply list_lookup_insert_eq; by eapply lookup_lt_Some).
  destruct Hok as [Hf Hok]. specialize (Hok id). unfold entry_ok in Hok.
  assert (forall f, count f ts0 + Nat.b2n (f p) = count f ts + Nat.b2n (f (Idle NoResult)))%nat as Hc
    by (intros f; by apply count_insert).
  pose proof (Hc (holding id)) as H1. pose proof (Hc (waiting id)) as H2.
  pose proof (Hc (in_loop1 id)) as H3. pose proof (Hc (in_loop2 id)) as H4.
  pose proof (Hc (removing id)) as H5. cbn [holding waiting in_loop1 in_loop2 removing] in *.
  destruct Hp as [[b ->]|[b ->]]; cbn [holding waiting in_loop1 in_loop2 removing] in *; eqb_simpl;
    (destruct (entries m !! id) as [e|] eqn:He; [|lia]);
    destruct Hok as (C1 & C2 & C3 & C4 & C5 & C6 & _);
    (assert (entry_ok false 1 m ts0 id) as Hid;
      [unfold entry_ok; rewrite He, C6; split_and!; try done; lia|]).
  - destruct (remove_loop1_ok m ts0 t NoResult id e) as (x & -> & Hx); try done.
    cbn [mbind option_bind]. eapply after_remove_ok; [by right|done|done].
  - destruct (remove_loop2_ok m ts0 t NoResult id e) as (x & -> & Hx); try done; [apply C4; lia|].
    cbn [mbind option_bind]. eapply after_remove_ok; [by right|done|done].
Qed.

(** ** The other operations *)

Lemma del_sa_ok (m : mgr) ts (t : nat) r src dst spi :
  sys_ok m ts -> ts !! t = Some (Idle r) ->
  exists m' p' w, del_sa m src dst spi = Some (m', p', w) /\
    forall choice, sys_ok m' (<[t := p']> (deliver choice ts w)).
Proof.
  intros Hok Ht. unfold del_sa.
  edestruct (find_sa_ok m ts) as ([id|] & -> & Hr); [done| |]; cbn [mbind option_bind].
  - destruct Hr as (Hin & _).
    destruct (wait_remove_ok m ts t r id Hok Hin Ht) as (x & -> & [->|Hx]); cbn [mbind option_bind].
    + do 3 eexists. split; [reflexivity|]. intros choice. by eapply idle_ok.
    + eapply after_remove_ok; [by left|done|done].
  - do 3 eexists. split; [reflexivity|]. intros choice. by eapply idle_ok.
Qed.

Lemma modify_ok (m : mgr) ts id sa :
  sys_ok m ts -> is_Some (entries m !! id) ->
  exists m', modify_sa m id sa = Some m' /\ sys_ok m' ts /\ sas m' = sas m.
Proof.
  intros Hok [e He]. unfold modify_sa. rewrite He. cbn [mbind option_bind].
  eexists. split; [reflexivity|]. split; [|done]. destruct (weaken_ok m ts id Hok) as [Hex _].
  split; [by eapply ok_except_set|]. intros i. destruct (decide (i = id)) as [->|Hne].
  - destruct Hok as [_ Hok]. specialize (Hok id). unfold entry_ok in *. rewrite He in Hok.
    rewrite entry_set. exact Hok.
  - eapply ok_except_set; done.
Qed.

Lemma fresh_not_listed (m : mgr) ts : sys_ok m ts -> entries m !! next_entry m = None.
Proof.
  intros [[_ Hb] _]. destruct (entries m !! next_entry m) eqn:E; [|done].
  pose proof (Hb _ ltac:(by rewrite E)). lia.
Qed.

Lemma with_spis_ok (m : mgr) ts x : sys_ok m ts -> sys_ok (with_spis m x) ts.
Proof. intros [Hf Hok]. split; [exact Hf|]. intros id. exact (Hok id). Qed.

Lemma add_sa_ok (m : mgr) ts src dst spi update sa :
  sys_ok m ts -> exists st m' job, add_sa m src dst spi update sa = Some (st, m', job) /\ sys_ok m' ts.
Proof.
  intros Hok. unfold add_sa. destruct sa as [sa|]; [|by eauto 6].
  set (m0 := if update then _ else _).
  assert (sys_ok m0 ts) as Hok0 by (subst m0; destruct update; [by apply with_spis_ok|done]).
  clearbody m0. edestruct (find_sa_ok m0 ts) as (r & -> & _); [done|].
  cbn [mbind option_bind]. destruct r as [id|]; [by eauto 6|].
  do 3 eexists. split; [reflexivity|]. pose proof (fresh_not_listed m0 ts Hok0) as Hn.
  destruct Hok0 as [[Hnd Hb] Hok0]. pose proof (Hok0 (next_entry m0)) as Hnew.
  unfold entry_ok in Hnew. rewrite Hn in Hnew. destruct Hnew as (Hni & _ & Hz).
  split; [split|].
  - by constructor.
  - cbn. intros i. rewrite lookup_insert_is_Some'. intros [<-|Hi]; [lia|]. specialize (Hb i Hi). lia.
  - intros i. destruct (decide (i = next_entry m0)) as [->|Hne].
    + unfold entry_ok. cbn [entries sas]. rewrite lookup_insert_eq. cbn.
      pose proof (count_waiters (next_entry m0) ts). split_and!; try lia.
      split; [lia|]. intros _. by left.
    + eapply entry_ok_same; [by split_and!| | |apply Hok0]; cbn.
      * by rewrite lookup_insert_ne.
      * rewrite elem_of_cons. tauto.
Qed.

Lemma checkin_ok (m : mgr) ts (t : nat) id :
  sys_ok m ts -> ts !! t = Some (Holds id) ->
  exists m', checkin m id = Some (true, m') /\
    forall choice q, sys_ok m' (<[t := Idle q]> (deliver choice (<[t := Idle NoResult]> ts) (Some (Signal id)))).
Proof.
  intros Hok Ht. pose proof (leave_ok m ts t _ id Hok Ht eq_refl) as Hex.
  set (ts0 := <[t := Idle NoResult]> ts) in *.
  assert (ts0 !! t = Some (Idle NoResult)) as Ht0
    by (apply list_lookup_insert_eq; by eapply lookup_lt_Some).
  destruct Hok as [Hf Hok]. specialize (Hok id). unfold entry_ok in Hok.
  assert (forall f, count f ts0 + Nat.b2n (f (Holds id)) = count f ts + Nat.b2n (f (Idle NoResult)))%nat
    as Hc by (intros f; by apply count_insert).
  pose proof (Hc (holding id)) as H1. pose proof (Hc (waiting id)) as H2.
  pose proof (Hc (in_loop1 id)) as H3. pose proof (Hc (in_loop2 id)) as H4.
  pose proof (Hc (removing id)) as H5. cbn [holding waiting in_loop1 in_loop2 removing] in *. eqb_simpl.
  destruct (entries m !! id) as [e|] eqn:He; [|lia].
  destruct Hok as (C1 & C2 & C3 & C4 & C5 & C6 & _).
  assert (locked e = true) as El by (destruct (locked e); cbn in *; [done|lia]).
  assert (count (removing id) ts = 0%nat) as Hr0
    by (destruct (decide (0 < count (removing id) ts)%nat); [rewrite C4 in El by lia; done|lia]).
  unfold checkin. rewrite bool_decide_eq_true_2 by (by apply C6). unfold unlock_entry. rewrite He.
  cbn [mbind option_bind]. rewrite El. cbn [mbind option_bind]. eexists. split; [reflexivity|]. intros choice q. revert choice.
  eapply set_entry_ok; try done; [by intros ? [= ->]|].
  entry_case id t NoResult (Idle q) ts0 (Some (Signal id)) Ht0. rewrite C6, El in *.
  specialize (D2 eq_refl). cbn [Nat.b2n] in *. split_and!; try done; lia.
Qed.

Lemma destroy_ok (m : mgr) ts (t : nat) id :
  sys_ok m ts -> ts !! t = Some (Removed id) ->
  exists m', destroy_entry m id = Some m' /\ forall q, sys_ok m' (<[t := Idle q]> ts).
Proof.
  intros Hok Ht. unfold destroy_entry.
  assert (forall f q, count f (<[t := Idle q]> ts) + Nat.b2n (f (Removed id))
            = count f ts + Nat.b2n (f (Idle q)))%nat as Hc by (intros f q; by apply count_insert).
  pose proof (Hc (removing id) NoResult) as Hr. cbn in Hr. eqb_simpl.
  destruct Hok as [Hf Hok]. pose proof (Hok id) as Hid. unfold entry_ok in Hid.
  destruct (entries m !! id) as [e|] eqn:He; [|lia]. cbn [mbind option_bind].
  eexists. split; [reflexivity|]. intros q.
  destruct Hid as (C1 & C2 & C3 & C4 & C5 & C6 & _). rewrite C4, C5 in * by lia.
  assert (Nat.b2n (awaits_deletion e) <= 1)%nat by (destruct (awaits_deletion e); cbn; lia).
  split.
  - destruct Hf as [Hn Hb]. split; [done|]. cbn. intros i.
    rewrite lookup_delete_is_Some. intros [_ Hi]. by apply Hb.
  - intros i. destruct (decide (i = id)) as [->|Hne].
    + unfold entry_ok. cbn [entries with_entries sas]. rewrite lookup_delete_eq.
      pose proof (Hc (holding id) q) as H1. pose proof (Hc (waiting id) q) as H2.
      pose proof (Hc (in_loop1 id) q) as H3. pose proof (Hc (in_loop2 id) q) as H4.
      pose proof (Hc (removing id) q) as H5. cbn [holding waiting in_loop1 in_loop2 removing] in *.
      eqb_simpl. split_and!; try done; [intros Hin; apply C6 in Hin; lia|lia].
    + apply (entry_ok_same _ _ m _ ts); [by eapply (same_insert i id)| |done|apply Hok].
      cbn. by rewrite lookup_delete_ne.
Qed.

Lemma sa_expired_ok (m : mgr) ts (t : nat) r x :
  sys_ok m ts -> ts !! t = Some (Idle r) ->
  exists m' p' w job ev, sa_expired m x = Some (m', p', w, job, ev) /\
    forall choice, sys_ok m' (<[t := p']> (deliver choice ts w)).
Proof.
  intros Hok Ht. unfold sa_expired.
  destruct (bool_decide_reflect (exp_entry x ∈ sas m)) as [Hin|].
  2:{ do 5 eexists. split; [reflexivity|]. intros choice. by eapply idle_ok. }
  pose proof (listed_live m ts _ Hok Hin) as [e He]. unfold checked_out. rewrite He.
  cbn [fmap option_fmap option_map mbind option_bind]. destruct (negb (exp_spi x =? _)).
  { do 5 eexists. split; [reflexivity|]. intros choice. by eapply idle_ok. }
  destruct (expire (ent_sa e) _) as [sa ev].
  destruct (modify_ok m ts (exp_entry x) sa Hok) as (m1 & -> & Hok1 & Hs); [by rewrite He|].
  cbn [mbind option_bind]. destruct (negb (hard_offset x =? 0)).
  { do 5 eexists. split; [reflexivity|]. intros choice. by eapply idle_ok. }
  rewrite <- Hs in Hin.
  destruct (wait_remove_ok m1 ts t r _ Hok1 Hin Ht) as (y & -> & [->|Hy]); cbn [mbind option_bind].
  - do 5 eexists. split; [reflexivity|]. intros choice. by eapply idle_ok.
  - destruct (after_remove_ok m1 ts t r (exp_entry x) KExpire y) as (m' & p' & w & -> & Hfin); [by left|done..|].
    do 5 eexists. split; [reflexivity|]. exact Hfin.
Qed.

(** The running thread stays where it is. *)
Lemma stay_ok (m : mgr) ts (t : nat) p :
  sys_ok m ts -> ts !! t = Some p -> sys_ok m (<[t := p]> (<[t := Idle NoResult]> ts)).
Proof. intros Hok Ht. rewrite list_insert_insert_eq. by rewrite list_insert_id. Qed.

Lemma wake_up_ok (m : mgr) ts (t : nat) p :
  sys_ok m ts -> ts !! t = Some p -> enabled p AWake = true -> sys_ok m (<[t := wake_up p]> ts).
Proof.
  intros [Hf Hok] Ht Hen. split; [done|]. intros id. specialize (Hok id).
  assert (forall f, role_of f -> count f (<[t := wake_up p]> ts) = count f ts) as Hr.
  { intros f Hr. pose proof (count_insert f ts t p (wake_up p) Ht) as H. rewrite Hr in H. lia. }
  unfold entry_ok in *. rewrite !Hr by (intros []; done).
  destruct (entries m !! id); [|done]. destruct Hok as (? & ? & ? & ? & ? & ? & Hnl). split_and!; try done.
  intros _ El Ha. pose proof (count_insert (woken id) ts t p (wake_up p) Ht).
  pose proof (count_insert (asleep id) ts t p (wake_up p) Ht). specialize (Hnl eq_refl El).
  destruct p as [| ? ? []| | ? ? []| ? ? []|]; try done; cbn in *; lia.
Qed.

Lemma holder_live (m : mgr) ts (t : nat) id :
  sys_ok m ts -> ts !! t = Some (Holds id) -> is_Some (entries m !! id).
Proof.
  intros [_ Hok] Ht. specialize (Hok id). unfold entry_ok in Hok.
  destruct (entries m !! id); [by eexists|].
  assert (0 < count (holding id) ts)%nat; [|lia].
  apply count_pos. exists t, (Holds id). split; [done|]. cbn. apply Nat.eqb_refl.
Qed.

Lemma step_ok (s : sys) choice t a :
  sys_ok (manager s) (threads s) ->
  exists s', step s choice t a = Some s' /\ sys_ok (manager s') (threads s').
Proof.
  destruct s as [m ts js evs]. cbn [manager threads]. intros Hok. unfold step. cbn [threads manager jobs].
  destruct (ts !! t) as [p|] eqn:Ht; [|by eauto].
  destruct (enabled p a) eqn:Hen; [|by eauto].
  assert (<[t := Idle NoResult]> ts !! t = Some (Idle NoResult)) as Ht0
    by (apply list_lookup_insert_eq; by eapply lookup_lt_Some).
  assert (forall r, p = Idle r -> sys_ok m (<[t := Idle NoResult]> ts)) as Hidle
    by (intros r ->; by eapply idle_ok).
  assert (exists m' p' w js' ev, act m js p a = Some (m', p', w, js', ev) /\
            sys_ok m' (<[t := p']> (deliver choice (<[t := Idle NoResult]> ts) w)))
    as (m' & p' & w & js' & ev & -> & Hfin); [|by eauto].
  destruct a, p as [r|id k []|id|id k []|id k []|id]; try discriminate Hen; cbn [act].
  all: try (specialize (Hidle _ eq_refl)).
  all: unfold checkout_by_spi, checkout_by_reqid, update_sa, query_sa, flush_sas.
  - edestruct add_sa_ok as (st & m' & job & -> & Hm'); [exact Hidle|]. cbn [mbind option_bind].
    do 5 eexists. split; [reflexivity|]. by eapply idle_ok.
  - edestruct find_and_wait_ok as (m' & p' & w & -> & Hfin); [exact Hidle|done|]. cbn. eauto 10.
  - edestruct find_and_wait_ok as (m' & p' & w & -> & Hfin); [exact Hidle|done|]. cbn. eauto 10.
  - unfold checked_out. destruct (holder_live m ts t id Hok Ht) as [e He]. rewrite He.
    cbn [fmap option_fmap option_map mbind option_bind].
    destruct (update_usestats (ent_sa e) _ _) as [sa ev].
    destruct (modify_ok m ts id sa Hok) as (m' & -> & Hm' & _); [by rewrite He|].
    do 5 eexists. split; [reflexivity|]. by apply stay_ok.
  - unfold checked_out. destruct (holder_live m ts t id Hok Ht) as [e He]. rewrite He.
    cbn [fmap option_fmap option_map mbind option_bind].
    destruct (modify_ok m ts id (with_ctx (ent_sa e) c) Hok) as (m' & -> & Hm' & _); [by rewrite He|].
    do 5 eexists. split; [reflexivity|]. by apply stay_ok.
  - destruct (checkin_ok m ts t id Hok Ht) as (m' & -> & Hm').
    do 5 eexists. split; [reflexivity|]. apply Hm'.
  - destruct (negb new_encap).
    { do 5 eexists. split; [reflexivity|]. cbn [deliver]. by eapply idle_ok. }
    edestruct find_and_wait_ok as (m' & p' & w & -> & Hfin); [exact Hidle|done|]. cbn. eauto 10.
  - edestruct find_and_wait_ok as (m' & p' & w & -> & Hfin); [exact Hidle|done|]. cbn. eauto 10.
  - edestruct del_sa_ok as (m' & p' & w & -> & Hfin); [exact Hidle|done|]. cbn. eauto 10.
  - destruct (js !! n) as [[? x]|].
    + edestruct sa_expired_ok as (m' & p' & w & job & ev & -> & Hfin); [exact Hidle|done|]. cbn. eauto 10.
    + do 5 eexists. split; [reflexivity|]. by eapply idle_ok.
  - edestruct (flush_rest_ok (sas m)) as (m' & p' & w & -> & Hfin); [exact Hidle|done| |done|].
    + apply Hok.
    + cbn. eauto 10.
  - do 5 eexists. split; [reflexivity|]. cbn [deliver]. rewrite list_insert_insert_eq. by apply wake_up_ok.
  - do 5 eexists. split; [reflexivity|]. cbn [deliver]. rewrite list_insert_insert_eq. by apply wake_up_ok.
  - do 5 eexists. split; [reflexivity|]. cbn [deliver]. rewrite list_insert_insert_eq. by apply wake_up_ok.
  - destruct (resume_wait_ok m ts t id k true Hok Ht) as (m' & p' & w & -> & Hfin). cbn. eauto 10.
  - destruct (resume_remove_ok m ts t _ id k Hok Ht) as (m' & p' & w & -> & Hfin); [by eauto|].
    cbn. eauto 10.
  - destruct (resume_remove_ok m ts t _ id k Hok Ht) as (m' & p' & w & -> & Hfin); [by eauto|].
    cbn. eauto 10.
  - destruct (destroy_ok m ts t id Hok Ht) as (m' & -> & Hm'). cbn.
    do 5 eexists. split; [reflexivity|]. cbn [deliver]. rewrite list_insert_insert_eq. apply Hm'.
Qed.

Lemma run_ok tr : forall s : sys,
  sys_ok (manager s) (threads s) ->
  exists s', run s tr = Some s' /\ sys_ok (manager s') (threads s').
Proof.
  induction tr as [|[[choice t] a] tr IH]; intros s Hok; cbn [run]; [by eauto|].
  destruct (step_ok s choice t a Hok) as (s' & -> & Hs'). by apply IH.
Qed.

Lemma init_ok n : sys_ok (manager (init n)) (threads (init n)).
Proof.
  split; [split; [constructor|by intros id [? ?]]|]. intros id. unfold entry_ok. cbn.
  split; [by apply not_elem_of_nil|]. split; [done|].
  induction n as [|n IH]; [done|exact IH].
Qed.

Lemma count_two f ts (t u : nat) p q :
  ts !! t = Some p -> ts !! u = Some q -> f p = true -> f q = true -> t <> u -> (2 <= count f ts)%nat.
Proof.
  revert t u. induction ts as [|x ts IH]; intros [|t] [|u] Ht Hu Hp Hq Hne; try done; cbn [count].
  - injection Ht as ->. rewrite Hp. assert (0 < count f ts)%nat by (apply count_pos; eauto). cbn. lia.
  - injection Hu as ->. rewrite Hq. assert (0 < count f ts)%nat by (apply count_pos; eauto). cbn. lia.
  - assert (2 <= count f ts)%nat by (apply (IH t u); done || congruence). lia.
Qed.

(** A thread at a place that is counted for entry [id]. *)
Ltac role_pos f ts :=
  assert (0 < count f ts)%nat
    by (apply count_pos; do 2 eexists; split; [eassumption|cbn; apply Nat.eqb_refl]).

(** The entry a thread refers to. *)
Definition refers (p : pc) : option nat :=
  match p with
  | Idle _ => None
  | WaitEntry i _ _ | Holds i | WaitUnlocked i _ _ | WaitWaiters i _ _ | Removed i => Some i
  end.

Lemma refers_live (m : mgr) ts (t : nat) p id :
  sys_ok m ts -> ts !! t = Some p -> refers p = Some id -> is_Some (entries m !! id).
Proof.
  intros [_ Hok] Ht Hp. specialize (Hok id). unfold entry_ok in Hok.
  destruct (entries m !! id); [by eexists|]. destruct Hok as (_ & _ & Hz).
  destruct p; cbn in Hp; simplify_eq.
  - role_pos (waiting id) ts. lia.
  - role_pos (holding id) ts. lia.
  - role_pos (in_loop1 id) ts. lia.
  - role_pos (in_loop2 id) ts. lia.
  - role_pos (removing id) ts. lia.
Qed.

Lemma removed_alone (m : mgr) ts (t u : nat) id p :
  sys_ok m ts -> ts !! t = Some (Removed id) -> ts !! u = Some p -> t <> u -> refers p <> Some id.
Proof.
  intros Hok Ht Hu Hne Hp. pose proof (refers_live m ts u p id Hok Hu Hp) as [e He].
  destruct Hok as [_ Hok]. specialize (Hok id). unfold entry_ok in Hok. rewrite He in Hok.
  destruct Hok as (C1 & C2 & C3 & C4 & C5 & _).
  assert (0 < count (removing id) ts)%nat as Hr.
  { apply count_pos. exists t, (Removed id). split; [done|]. cbn. apply Nat.eqb_refl. }
  rewrite C4, C5 in * by lia.
  assert (Nat.b2n (awaits_deletion e) <= 1)%nat by (destruct (awaits_deletion e); cbn; lia).
  destruct p; cbn in Hp; simplify_eq.
  - role_pos (waiting id) ts. lia.
  - role_pos (holding id) ts. cbn in C1. lia.
  - role_pos (in_loop1 id) ts. lia.
  - role_pos (in_loop2 id) ts. lia.
  - pose proof (count_two (removing id) ts t u (Removed id) (Removed id)) as H1. cbn in H1.
    rewrite Nat.eqb_refl in H1. specialize (H1 Ht Hu eq_refl eq_refl Hne). lia.
Qed.

(** *** Properties *)

(** C11: However any number of threads interleave their calls of the manager
    (installing, checking out and in, updating, querying, deleting, flushing and
    expiring SAs, with any choice of the thread a condvar wakes and with spurious
    wakeups), no step follows a dangling pointer, every entry a thread holds,
    waits for or is about to free is still allocated, and an entry is only freed
    when no other thread refers to it. *)
Theorem sa_entries_never_dangle (n : nat) (tr : list (nat * nat * action)) :
  exists s, run (init n) tr = Some s /\
    (forall t p id, threads s !! t = Some p -> refers p = Some id -> is_Some (entries (manager s) !! id)) /\
    (forall t u p id, threads s !! t = Some (Removed id) -> threads s !! u = Some p -> t <> u ->
       refers p <> Some id).
Proof.
  destruct (run_ok tr (init n) (init_ok n)) as (s & Hs & Hok). exists s. split; [done|]. split.
  - intros t p id. by apply refers_live.
  - intros t u p id. by apply removed_alone with (m := manager s).
Qed.

(** An SA is never checked out by two threads at once. *)
Theorem checkout_exclusive (n : nat) (tr : list (nat * nat * action)) (s : sys) (t u id : nat) :
  run (init n) tr = Some s ->
  threads s !! t = Some (Holds id) -> threads s !! u = Some (Holds id) -> t = u.
Proof.
  intros Hr Ht Hu. destruct (run_ok tr (init n) (init_ok n)) as (s' & Hs & Hok).
  rewrite Hr in Hs. injection Hs as <-. destruct (holder_live _ _ _ _ Hok Ht) as [e He].
  destruct Hok as [_ Hok]. specialize (Hok id). unfold entry_ok in Hok. rewrite He in Hok.
  destruct Hok as [C1 _]. destruct (decide (t = u)) as [|Hne]; [done|].
  pose proof (count_two (holding id) _ t u _ _ Ht Hu) as H2. cbn in H2. rewrite Nat.eqb_refl in H2.
  specialize (H2 eq_refl eq_refl Hne). destruct (locked e); cbn in C1; lia.
Qed.

(** C21: No wakeup is lost: while a thread sleeps on the condvar of an entry,
    another thread has the entry checked out or was woken on the same condvar
    and has only to get the mutex. *)
Theorem no_lost_wakeup (n : nat) (tr : list (nat * nat * action)) (s : sys) (t id : nat) (p : pc) :
  run (init n) tr = Some s -> threads s !! t = Some p -> asleep id p = true ->
  exists u q, threads s !! u = Some q /\ (q = Holds id \/ woken id q = true).
Proof.
  intros Hr Ht Hp. destruct (run_ok tr (init n) (init_ok n)) as (s' & Hs & Hok).
  rewrite Hr in Hs. injection Hs as <-.
  assert (0 < count (asleep id) (threads s))%nat as Ha by (apply count_pos; eauto).
  assert (refers p = Some id) as Href
    by (destruct p as [| ? ? []| | ? ? []| ? ? []|]; try done; cbn in *; by apply Nat.eqb_eq in Hp as ->).
  destruct (refers_live _ _ _ _ _ Hok Ht Href) as [e He].
  destruct Hok as [_ Hok]. specialize (Hok id). unfold entry_ok in Hok. rewrite He in Hok.
  destruct Hok as (C1 & _ & _ & _ & _ & _ & Hnl). destruct (locked e) eqn:El.
  - assert (0 < count (holding id) (threads s))%nat as Hh by (rewrite C1; cbn; lia).
    apply count_pos in Hh as (u & q & Hu & Hq). exists u, q. split; [done|]. left.
    destruct q; try done. cbn in Hq. by apply Nat.eqb_eq in Hq as ->.
  - specialize (Hnl eq_refl eq_refl Ha). apply count_pos in Hnl as (u & q & Hu & Hq). eauto.
Qed.

(** C39: [update_sa] and [query_sa] report [SUCCESS] for an SA that another thread
    is removing, although the addresses were not changed respectively nothing was
    stored through the pointers for the statistics. *)
Theorem update_of_removed_sa_succeeds (m : mgr) (spi : Z) (src dst new_src new_dst : host)
    (id : nat) (e : sa_entry A) :
  find_sa m (fun sa => match_by_spi_src_dst sa spi src dst) = Some (Some id) ->
  entries m !! id = Some e -> awaits_deletion e = true ->
  update_sa m spi src dst new_src new_dst true = Some (m, Idle (Status SUCCESS), Some (Signal id)) /\
  query_sa m src dst spi = Some (m, Idle (Queried SUCCESS None), Some (Signal id)).
Proof.
  intros Hf He Ha. unfold update_sa, query_sa, find_and_wait, wait_for_entry. rewrite Hf.
  cbn [negb mbind option_bind]. rewrite He. cbn [mbind option_bind]. rewrite Ha, andb_false_r. done.
Qed.
End Threads.
End Threads.

(** ** Allocating SPIs *)
Section Spis.
Context {A R : Type} `{RngLaws R}.
Abbreviation mgr := (sa_mgr A R).

(** No installed entry was destroyed. *)
Definition entries_live (m : mgr) : Prop := Forall (fun id => is_Some (entries m !! id)) (sas m).

(** The SPI is reserved, or an installed inbound SA has it. *)
Definition spi_taken (m : mgr) (spi : Z) : Prop :=
  spi ∈ allocated_spis m \/
  exists id e, id ∈ sas m /\ entries m !! id = Some e /\
               sa_spi (ent_sa e) = spi /\ sa_inbound (ent_sa e) = true.

(** The SPIs the first draws of a generator stand for, until it fails. *)
Fixpoint spi_candidates (fuel : nat) (r : R) (spi_min spi_max : Z) : list Z :=
  match fuel with
  | O => []
  | S fuel =>
    match rng_get_bytes r 4 with
    | (None, _) => []
    | (Some bytes, r) =>
      htonl (u32 (spi_min + le_value bytes mod u32 (spi_max - spi_min + 1)))
      :: spi_candidates fuel r spi_min spi_max
    end
  end.

Lemma allocate_spi_spec (m : mgr) spi :
  entries_live m ->
  (allocate_spi m spi = Some (false, m) /\ spi_taken m spi) \/
  (allocate_spi m spi = Some (true, with_spis m ({[spi]} ∪ allocated_spis m)) /\ ~ spi_taken m spi).
Proof.
  intros Hl. unfold allocate_spi. destruct (bool_decide_reflect (spi ∈ allocated_spis m)) as [Hin|Hin].
  { left. split; [done|by left]. }
  unfold find_sa.
  destruct (Threads.find_first_spec (entries m) (sas m) (match_entry_by_spi_inbound spi true) Hl)
    as [(pre & id & post & e & Hs & -> & He & Hm & _)|[-> Hall]]; cbn [mbind option_bind].
  - left. split; [done|]. right. exists id, e. unfold match_entry_by_spi_inbound in Hm.
    apply andb_true_iff in Hm as [Hspi%Z.eqb_eq Hib%eqb_prop]. split_and!; try done.
    rewrite Hs. apply elem_of_app. right. left.
  - right. split; [done|]. intros [?|(id & e & Hid & He & Hspi & Hib)]; [done|].
    rewrite Forall_forall in Hall. specialize (Hall id Hid). rewrite He in Hall. cbn in Hall.
    unfold match_entry_by_spi_inbound in Hall. by rewrite Hspi, Hib, Z.eqb_refl in Hall.
Qed.

Lemma spi_candidate_range bytes lo hi :
  256 <= lo -> lo <= hi < 2 ^ 32 ->
  lo <= ntohl (htonl (u32 (lo + le_value bytes mod u32 (hi - lo + 1)))) <= hi.
Proof.
  intros Hlo Hhi. rewrite (uwrap_small 32 (hi - lo + 1)) by lia.
  pose proof (Z.mod_pos_bound (le_value bytes) (hi - lo + 1) ltac:(lia)).
  rewrite (uwrap_small 32) by lia. rewrite bswap_involutive; [lia|]. simpl. lia.
Qed.

Lemma draw_spi_spec fuel : forall (m : mgr) r lo hi,
  entries_live m -> 256 <= lo -> lo <= hi < 2 ^ 32 ->
  match draw_spi fuel m r lo hi with
  | Some (Some spi, m') => lo <= ntohl spi <= hi /\ ~ spi_taken m spi /\
      (exists r', m' = with_rng (with_spis m ({[spi]} ∪ allocated_spis m)) (Some r'))
  | Some (None, m') => exists r', m' = with_rng m (Some r')
  | None => length (spi_candidates fuel r lo hi) = fuel /\
            Forall (spi_taken m) (spi_candidates fuel r lo hi)
  end.
Proof.
  induction fuel as [|fuel IH]; intros m r lo hi Hl Hlo Hhi; cbn [draw_spi spi_candidates].
  { split; [done|constructor]. }
  destruct (rng_get_bytes r 4) as [[bytes|] r1]; [|by eauto].
  pose proof (spi_candidate_range bytes lo hi Hlo Hhi) as Hr.
  set (spi := htonl (u32 _)) in *.
  destruct (allocate_spi_spec m spi Hl) as [[-> Ht]|[-> Ht]]; cbn [mbind option_bind].
  - specialize (IH m r1 lo hi Hl Hlo Hhi). destruct (draw_spi fuel m r1 lo hi) as [[[?|] ?]|]; try done.
    destruct IH as [Hlen Hall]. split; [cbn; by rewrite Hlen|by constructor].
  - split; [done|]. split; [done|]. by eauto.
Qed.

(** [get_spi] reserves an SPI that was neither reserved nor in use by an
    installed inbound SA, within the configured range and never below 256; it
    keeps drawing only while every SPI drawn so far is taken, and fails only if
    the generator does. *)
Theorem get_spi_fresh (fuel : nat) (m : mgr) (r : R) (cfg_min cfg_max : Z) :
  entries_live m -> mgr_rng m = None -> 0 <= cfg_min < 2 ^ 32 -> 0 <= cfg_max < 2 ^ 32 ->
  let lo := Z.max 256 (Z.min cfg_min cfg_max) in
  let hi := Z.max 256 (Z.max cfg_min cfg_max) in
  match get_spi fuel m (Some r) cfg_min cfg_max with
  | Some (SUCCESS, Some spi, m') =>
    lo <= ntohl spi <= hi /\ ~ spi_taken m spi /\ spi_taken m' spi /\ sas m' = sas m
  | Some (st, spi, m') => st = FAILED /\ spi = None /\ exists r', m' = with_rng m (Some r')
  | None => length (spi_candidates fuel r lo hi) = fuel /\
            Forall (spi_taken m) (spi_candidates fuel r lo hi)
  end.
Proof.
  intros Hl Hrng Hmin Hmax lo hi. unfold get_spi, spi_range. rewrite Hrng.
  assert (exists x y, (if cfg_max <? cfg_min then (cfg_max, cfg_min) else (cfg_min, cfg_max)) = (x, y)
            /\ Z.max x 256 = lo /\ Z.max y 256 = hi) as (x & y & -> & Hx & Hy).
  { destruct (Z.ltb_spec cfg_max cfg_min); do 2 eexists; (split; [reflexivity|]); subst lo hi; lia. }
  rewrite Hx, Hy. pose proof (draw_spi_spec fuel m r lo hi Hl ltac:(lia) ltac:(lia)) as Hd.
  destruct (draw_spi fuel m r lo hi) as [[[spi|] m']|]; cbn [mbind option_bind]; [|done|done].
  destruct Hd as (H1 & H2 & r' & ->). split_and!; try done; try apply H1.
  left. cbn. apply elem_of_union. left. by apply elem_of_singleton.
Qed.
End Spis.

(** *** Witnesses *)
Section Witnesses.
Import Threads.

(** Three threads: one checks the SA out, one waits for it, one deletes it. *)
Definition trace_sample : list (nat * nat * action) :=
  let spi := 77 in
  [ (0%nat, 0%nat, AAdd host_a host_b spi true (sa_sample true));
    (0%nat, 0%nat, ACheckoutSpi spi host_b);
    (0%nat, 1%nat, ACheckoutSpi spi host_b);
    (0%nat, 0%nat, AUse 5 100);
    (0%nat, 2%nat, ADel host_a host_b spi) ].

Definition trace_sys : sys :=
  match run (R := nat) (init 3) trace_sample with Some s => s | None => init 3 end.

Lemma trace_sample_run : run (init 3) trace_sample = Some trace_sys.
Proof. vm_compute. reflexivity. Defined.

(** The rest of the story: the waiting thread gives up, the entry is freed. *)
Lemma trace_sample_end :
  option_map (fun s => (threads s, sas (manager s), size (entries (manager s))))
    (run trace_sys
       [(1%nat, 0%nat, ACheckin); (2%nat, 1%nat, AResume); (0%nat, 2%nat, AResume);
        (0%nat, 2%nat, ADestroy)])
  = Some ([Idle NoResult; Idle NullSa; Idle (Status SUCCESS)], [], 0%nat).
Proof. vm_compute. reflexivity. Qed.

Lemma checkout_exclusive_witness :
  threads trace_sys !! 0%nat = Some (Holds 0) /\ 0%nat = 0%nat.
Proof.
  split; [vm_compute; reflexivity|].
  apply (checkout_exclusive 3 trace_sample trace_sys 0 0 0 trace_sample_run);
    vm_compute; reflexivity.
Defined.

Lemma no_lost_wakeup_witness :
  exists u q, threads trace_sys !! u = Some q /\ (q = Holds 0 \/ woken 0 q = true).
Proof.
  apply (no_lost_wakeup 3 trace_sample trace_sys 2 0 (WaitUnlocked 0 KDel false) trace_sample_run);
    vm_compute; reflexivity.
Defined.

Lemma update_of_removed_sa_succeeds_witness :
  update_sa (manager trace_sys) 77 host_a host_b host_c host_c true
  = Some (manager trace_sys, Idle (Status SUCCESS), Some (Signal 0)).
Proof.
  destruct (entries (manager trace_sys) !! 0%nat) as [e|] eqn:E; [|vm_compute in E; discriminate].
  apply (update_of_removed_sa_succeeds (manager trace_sys) 77 host_a host_b host_c host_c 0 e);
    [vm_compute; reflexivity|exact E|].
  vm_compute in E. injection E as <-. reflexivity.
Defined.

Lemma get_spi_fresh_witness :
  match get_spi 5 (manager trace_sys) (Some 3%nat) 0x100 0xffffffff with
  | Some (SUCCESS, Some spi, m') => ~ spi_taken (manager trace_sys) spi /\ spi_taken m' spi
  | _ => False
  end.
Proof.
  assert (entries_live (manager trace_sys)) as Hl.
  { apply (bool_decide_unpack _). vm_compute. done. }
  pose proof (get_spi_fresh 5 (manager trace_sys) 3%nat 0x100 0xffffffff Hl) as H.
  destruct (get_spi 5 (manager trace_sys) (Some 3%nat) 0x100 0xffffffff)
    as [[[st [spi|]] m']|] eqn:E; [|vm_compute in E; discriminate|vm_compute in E; discriminate].
  assert (st = SUCCESS) as -> by (vm_compute in E; congruence).
  destruct H as (_ & H1 & H2 & _); [reflexivity|lia|lia|]. split; assumption.
Defined.
End Witnesses.
