(* ===== verification/IpsecProcessor.v ===== *)
(** Packet processing, [src/libipsec/ipsec_processor.c], the event relay,
    [src/libipsec/ipsec_event_relay.c], and the queues they use,
    [src/libstrongswan/collections/blocking_queue.c].  Callbacks are values of
    an abstract type of function pointers; what they are called with is kept in
    logs. *)
From S2P Require Import Prelude Chunk Bio Host TrafficSelector Crypto EspContext IpPacket EspPacket.
From S2P Require Import IpsecPolicy IpsecSa IpsecSaMgr.
From stdpp Require Import base numbers list option gmap.
From Stdlib Require Import Lia ZArith.
Local Open Scope Z_scope.

(** ** blocking_queue_t *)
Module BlockingQueue.
Section Queue.
Context {T : Type}.

(** Items are inserted at the front and taken from the back. *)
Definition enqueue (q : list T) (item : T) : list T := item :: q.

(** [None] while the caller has to wait. *)
Definition dequeue (q : list T) : option (T * list T) :=
  match reverse q with
  | [] => None
  | item :: rest => Some (item, reverse rest)
  end.

(** Everything that can be taken without waiting, with at most [n] calls. *)
Fixpoint drain (n : nat) (q : list T) : list T :=
  match n with
  | O => []
  | S n => match dequeue q with Some (x, q) => x :: drain n q | None => [] end
  end.

Lemma dequeue_snoc q x : dequeue (q ++ [x]) = Some (x, q).
Proof. unfold dequeue. rewrite reverse_snoc. by rewrite reverse_involutive. Qed.

Lemma dequeue_none q : dequeue q = None -> q = [].
Proof.
  unfold dequeue. destruct (reverse q) eqn:E; [|done]. intros _.
  apply (f_equal reverse) in E. by rewrite reverse_involutive in E.
Qed.

Lemma dequeue_elem q x q' : dequeue q = Some (x, q') -> x ∈ q.
Proof.
  unfold dequeue. destruct (reverse q) as [|y l] eqn:E; [done|]. intros [= -> <-].
  apply elem_of_reverse. rewrite E. left.
Qed.

Lemma drain_fifo items : forall n,
  (length items <= n)%nat -> drain n (foldl enqueue [] items) = items.
Proof.
  assert (forall l q, foldl enqueue q l = reverse l ++ q) as Hf.
  { induction l as [|x l IH]; intros q; [done|]. cbn [foldl]. rewrite IH, reverse_cons. unfold enqueue.
    by rewrite <- app_assoc. }
  intros n. rewrite Hf, app_nil_r. revert n.
  induction items as [|x l IH]; intros n Hn.
  - by destruct n.
  - destruct n as [|n]; [cbn in Hn; lia|]. cbn [drain]. rewrite reverse_cons, dequeue_snoc.
    f_equal. apply IH. cbn in Hn. lia.
Qed.
End Queue.
End BlockingQueue.

(** ** ipsec_event_relay_t *)
Module EventRelay.

(** A listener: its address, and whether its [expire] is set. *)
Record listener := Listener { l_addr : nat; l_expire : bool }.

Record event_relay := Relay {
  listeners : list listener;
  queue : list ipsec_event;
}.

Definition expire (this : event_relay) (ev : ipsec_event) : event_relay :=
  Relay (listeners this) (BlockingQueue.enqueue (queue this) ev).

Definition register_listener (this : event_relay) (l : listener) : event_relay :=
  Relay (listeners this ++ [l]) (queue this).

Definition unregister_listener (this : event_relay) (l : listener) : event_relay :=
  Relay (filter (fun x => l_addr x <> l_addr l) (listeners this)) (queue this).

(** One run of the job: the calls it makes; [None] while it waits. *)
Definition handle_events (this : event_relay) : option (event_relay * list (nat * ipsec_event)) :=
  '(ev, q) ← BlockingQueue.dequeue (queue this);
  Some (Relay (listeners this) q,
        (fun l => (l_addr l, ev)) <$> filter (fun l => l_expire l = true) (listeners this)).

Definition ipsec_event_relay_create : event_relay := Relay [] [].
End EventRelay.

(** ** ipsec_processor_t *)
Section Processor.
Context {A R CB : Type} `{Aead A} `{EqDecision CB}.
Context (junk : nat -> Z).

(** A registered callback with its data. *)
Record callback := Callback { cb : option CB; cb_data : nat }.

(** The components of [libipsec] the processor works on, the processor itself
    and what its callbacks were called with. *)
Record ipsec := Ipsec {
  sad : sa_mgr A R;
  spd : policy_mgr;
  relay : EventRelay.event_relay;
  inbound_queue : list esp_packet;
  outbound_queue : list ip_packet;
  inbound_cb : callback;
  outbound_cb : callback;
  delivered : list (CB * nat * option ip_packet);
  sent : list (CB * nat * esp_packet);
}.

Definition with_sad (s : ipsec) (m : sa_mgr A R) : ipsec :=
  Ipsec m (spd s) (relay s) (inbound_queue s) (outbound_queue s) (inbound_cb s) (outbound_cb s)
    (delivered s) (sent s).
Definition with_spd (s : ipsec) (m : policy_mgr) : ipsec :=
  Ipsec (sad s) m (relay s) (inbound_queue s) (outbound_queue s) (inbound_cb s) (outbound_cb s)
    (delivered s) (sent s).
Definition with_queues (s : ipsec) (i : list esp_packet) (o : list ip_packet) : ipsec :=
  Ipsec (sad s) (spd s) (relay s) i o (inbound_cb s) (outbound_cb s) (delivered s) (sent s).
Definition with_callbacks (s : ipsec) (i o : callback) : ipsec :=
  Ipsec (sad s) (spd s) (relay s) (inbound_queue s) (outbound_queue s) i o (delivered s) (sent s).

(** The relay gets the event, if there is one. *)
Definition notify (s : ipsec) (ev : option ipsec_event) : ipsec :=
  match ev with
  | Some ev => Ipsec (sad s) (spd s) (EventRelay.expire (relay s) ev) (inbound_queue s)
                 (outbound_queue s) (inbound_cb s) (outbound_cb s) (delivered s) (sent s)
  | None => s
  end.

Definition queue_inbound (s : ipsec) (p : esp_packet) : ipsec :=
  with_queues s (BlockingQueue.enqueue (inbound_queue s) p) (outbound_queue s).
Definition queue_outbound (s : ipsec) (p : ip_packet) : ipsec :=
  with_queues s (inbound_queue s) (BlockingQueue.enqueue (outbound_queue s) p).

Definition register_inbound (s : ipsec) (c : CB) (data : nat) : ipsec :=
  with_callbacks s (Callback (Some c) data) (outbound_cb s).
Definition unregister_inbound (s : ipsec) (c : CB) : ipsec :=
  if bool_decide (cb (inbound_cb s) = Some c)
  then with_callbacks s (Callback None (cb_data (inbound_cb s))) (outbound_cb s) else s.
Definition register_outbound (s : ipsec) (c : CB) (data : nat) : ipsec :=
  with_callbacks s (inbound_cb s) (Callback (Some c) data).
Definition unregister_outbound (s : ipsec) (c : CB) : ipsec :=
  if bool_decide (cb (outbound_cb s) = Some c)
  then with_callbacks s (inbound_cb s) (Callback None (cb_data (outbound_cb s))) else s.

(** The callback gets the payload, taken out of the packet. *)
Definition deliver_inbound (s : ipsec) (p : esp_packet) : ipsec :=
  match cb (inbound_cb s) with
  | Some c => Ipsec (sad s) (spd s) (relay s) (inbound_queue s) (outbound_queue s) (inbound_cb s)
                (outbound_cb s)
                (delivered s ++ [(c, cb_data (inbound_cb s), fst (extract_payload p))]) (sent s)
  | None => s
  end.

Definition send_outbound (s : ipsec) (p : esp_packet) : ipsec :=
  match cb (outbound_cb s) with
  | Some c => Ipsec (sad s) (spd s) (relay s) (inbound_queue s) (outbound_queue s) (inbound_cb s)
                (outbound_cb s) (delivered s) (sent s ++ [(c, cb_data (outbound_cb s), p)])
  | None => s
  end.

(** How a run of a job ends: it is done, it waits for a packet, or it waits for
    an SA another thread has checked out. *)
Inductive job_result (P : Type) :=
  | Done (s : ipsec)
  | WaitPacket
  | WaitSa (id : nat) (p : P) (s : ipsec).
Arguments Done {P}. Arguments WaitPacket {P}. Arguments WaitSa {P}.

Definition checkin_sa (s : ipsec) (id : nat) : option ipsec :=
  '(_, m) ← checkin (sad s) id; Some (with_sad s m).

(** [process_inbound] from the point where the SA is checked out. *)
Definition inbound_with_sa (s : ipsec) (packet : esp_packet) (id : nat) (now : Z) : option ipsec :=
  sa ← checked_out (sad s) id;
  if negb (sa_inbound sa) then checkin_sa s id
  else
    let '(status, packet, ctx) := decrypt packet (esp_ctx sa) in
    m ← modify_sa (sad s) id (with_ctx sa ctx);
    let s := with_sad s m in
    if negb (bool_decide (status = SUCCESS)) then checkin_sa s id
    else
      ip_packet ← payload packet;
      sa ← checked_out (sad s) id;
      let '(sa, ev) := update_usestats sa now (u32 (Z.of_nat (length (ip_encoding ip_packet)))) in
      m ← modify_sa (sad s) id sa;
      let s := notify (with_sad s m) ev in
      let reqid := sa_reqid sa in
      s ← checkin_sa s id;
      if (next_header packet =? IPPROTO_IPIP) || (next_header packet =? IPPROTO_IPV6) then
        '(policy, pm) ← find_by_packet (spd s) ip_packet true reqid;
        let s := with_spd s pm in
        match policy with
        | Some pid => let s := deliver_inbound s packet in
                      pm ← policy_destroy (spd s) pid; Some (with_spd s pm)
        | None => Some s
        end
      else Some s.

(** [process_inbound] when [wait_for_entry] was left: the SA is checked out,
    waited for, or gone. *)
Definition inbound_after (s : ipsec) (packet : esp_packet) (now : Z)
    (r : sa_mgr A R * Threads.pc * option Threads.wake) : option (job_result esp_packet) :=
  let '(m, p, _) := r in
  let s := with_sad s m in
  match p with
  | Threads.Holds id => s ← inbound_with_sa s packet id now; Some (Done s)
  | Threads.WaitEntry id _ _ => Some (WaitSa id packet s)
  | _ => Some (Done s)
  end.

Definition process_inbound (s : ipsec) (now : Z) : option (job_result esp_packet) :=
  match BlockingQueue.dequeue (inbound_queue s) with
  | None => Some WaitPacket
  | Some (packet, q) =>
    let s := with_queues s q (outbound_queue s) in
    match parse_header packet with
    | None => Some (Done s)
    | Some spi =>
      dst ← Packet.destination (EspPacket.packet packet);
      r ← Threads.checkout_by_spi (sad s) spi dst;
      inbound_after s packet now r
    end
  end.

(** The thread was woken while it waited for the SA. *)
Definition resume_inbound (s : ipsec) (packet : esp_packet) (id : nat) (now : Z)
    : option (job_result esp_packet) :=
  r ← wait_for_entry_resume (sad s) id;
  r ← Threads.after_wait r id Threads.KCheckout;
  inbound_after s packet now r.

(** [process_outbound] from the point where the SA is checked out. *)
Definition outbound_with_sa (s : ipsec) (packet : ip_packet) (pid id : nat) (now : Z) : option ipsec :=
  sa ← checked_out (sad s) id;
  let esp := esp_packet_create_from_payload (Some (sa_src sa)) (Some (sa_dst sa)) (Some packet) in
  '(status, esp, ctx) ← encrypt junk esp (esp_ctx sa) (sa_spi sa);
  m ← modify_sa (sad s) id (with_ctx sa ctx);
  let s := with_sad s m in
  if negb (bool_decide (status = SUCCESS)) then
    s ← checkin_sa s id;
    pm ← policy_destroy (spd s) pid; Some (with_spd s pm)
  else
    sa ← checked_out (sad s) id;
    let '(sa, ev) := update_usestats sa now (u32 (Z.of_nat (length (ip_encoding packet)))) in
    m ← modify_sa (sad s) id sa;
    let s := notify (with_sad s m) ev in
    s ← checkin_sa s id;
    pm ← policy_destroy (spd s) pid;
    Some (send_outbound (with_spd s pm) esp).

Definition outbound_after (s : ipsec) (packet : ip_packet) (pid : nat) (now : Z)
    (r : sa_mgr A R * Threads.pc * option Threads.wake) : option (job_result (ip_packet * nat)) :=
  let '(m, p, _) := r in
  let s := with_sad s m in
  match p with
  | Threads.Holds id => s ← outbound_with_sa s packet pid id now; Some (Done s)
  | Threads.WaitEntry id _ _ => Some (WaitSa id (packet, pid) s)
  | _ => pm ← policy_destroy (spd s) pid; Some (Done (with_spd s pm))
  end.

Definition process_outbound (s : ipsec) (now : Z) : option (job_result (ip_packet * nat)) :=
  match BlockingQueue.dequeue (outbound_queue s) with
  | None => Some WaitPacket
  | Some (packet, q) =>
    let s := with_queues s (inbound_queue s) q in
    '(policy, pm) ← find_by_packet (spd s) packet false 0;
    let s := with_spd s pm in
    match policy with
    | None => Some (Done s)
    | Some pid =>
      pol ← store (spd s) !! pid;
      r ← Threads.checkout_by_reqid (sad s) (cfg_reqid (pol_sa pol)) false;
      outbound_after s packet pid now r
    end
  end.

Definition resume_outbound (s : ipsec) (packet : ip_packet) (pid id : nat) (now : Z)
    : option (job_result (ip_packet * nat)) :=
  r ← wait_for_entry_resume (sad s) id;
  r ← Threads.after_wait r id Threads.KCheckout;
  outbound_after s packet pid now r.

(** ** What a run of a job does *)

Lemma find_first_some (es : gmap nat (sa_entry A)) l f id :
  find_first es l f = Some (Some id) ->
  id ∈ l /\ exists e, es !! id = Some e /\ f (ent_sa e) = true.
Proof.
  induction l as [|i l IH]; cbn [find_first]; [done|]. intros (e & He & Hf)%bind_Some.
  destruct (f (ent_sa e)) eqn:E.
  - injection Hf as ->. split; [left|by eauto].
  - destruct (IH Hf) as [Hin ?]. split; [by right|done].
Qed.

Definition lock (e : sa_entry A) : sa_entry A := SaEntry (ent_sa e) true (waiting_threads e) false.

Lemma checkout_cases (m m' : sa_mgr A R) f p w :
  Threads.find_and_wait m f Threads.KCheckout = Some (m', p, w) ->
  (m' = m /\ p = Threads.Idle Threads.NullSa) \/
  exists id e, id ∈ sas m /\ entries m !! id = Some e /\ f (ent_sa e) = true /\
    awaits_deletion e = false /\
    (locked e = true /\ p = Threads.WaitEntry id Threads.KCheckout false \/
     locked e = false /\ p = Threads.Holds id /\ m' = set_entry m id (lock e)).
Proof.
  unfold Threads.find_and_wait, find_sa. intros ([id|] & Hf & Hr)%bind_Some; [|by left; simplify_eq].
  apply find_first_some in Hf as (Hin & e & He & Hfe).
  unfold wait_for_entry in Hr. rewrite He in Hr. cbn [mbind option_bind] in Hr.
  destruct (awaits_deletion e) eqn:Ea; [rewrite andb_false_r in Hr; left; cbn in Hr; by simplify_eq|].
  right. exists id, e. split_and!; try done. rewrite andb_true_r in Hr.
  destruct (locked e) eqn:El; cbn [Threads.after_wait] in Hr; [left; by simplify_eq|].
  right. unfold Threads.complete_wait in Hr. apply bind_Some in Hr as (sa & _ & Hr).
  unfold lock. by simplify_eq.
Qed.

Lemma checkout_defined (m : sa_mgr A R) f :
  entries_live m -> exists m' p w, Threads.find_and_wait m f Threads.KCheckout = Some (m', p, w) /\
    (p = Threads.Idle Threads.NullSa \/ (exists id, p = Threads.Holds id) \/
     exists id, p = Threads.WaitEntry id Threads.KCheckout false).
Proof.
  intros Hl. unfold Threads.find_and_wait, find_sa.
  destruct (Threads.find_first_spec (entries m) (sas m) f Hl)
    as [(pre & id & post & e & _ & -> & He & _)|[-> _]]; cbn [mbind option_bind]; [|by eauto 8].
  unfold wait_for_entry. rewrite He. cbn [mbind option_bind].
  destruct (locked e && negb (awaits_deletion e)); cbn [Threads.after_wait]; [by eauto 10|].
  destruct (awaits_deletion e); cbn [Threads.after_wait]; [by eauto 8|].
  unfold Threads.complete_wait, checked_out. rewrite Threads.entry_set. cbn. eauto 10.
Qed.

Definition unlock (e : sa_entry A) (sa : ipsec_sa A) : sa_entry A :=
  SaEntry sa false (waiting_threads e) (awaits_deletion e).

Lemma checkin_sa_spec s id e :
  id ∈ sas (sad s) -> entries (sad s) !! id = Some e -> locked e = true ->
  checkin_sa s id = Some (with_sad s (set_entry (sad s) id (unlock e (ent_sa e)))).
Proof.
  intros Hin He Hl. unfold checkin_sa, checkin. rewrite bool_decide_eq_true_2 by done.
  unfold unlock_entry. rewrite He. cbn [mbind option_bind]. rewrite Hl. done.
Qed.

Lemma modify_sa_spec (m : sa_mgr A R) id e sa :
  entries m !! id = Some e ->
  modify_sa m id sa = Some (set_entry m id (SaEntry sa (locked e) (waiting_threads e) (awaits_deletion e))).
Proof. intros He. unfold modify_sa. by rewrite He. Qed.

(** What the processor does for a packet once it has decrypted it. *)
Definition finish_inbound (s : ipsec) (packet : esp_packet) (ip : ip_packet) (reqid : Z) : option ipsec :=
  if (next_header packet =? IPPROTO_IPIP) || (next_header packet =? IPPROTO_IPV6) then
    '(policy, pm) ← find_by_packet (spd s) ip true reqid;
    let s := with_spd s pm in
    match policy with
    | Some pid => let s := deliver_inbound s packet in
                  pm ← policy_destroy (spd s) pid; Some (with_spd s pm)
    | None => Some s
    end
  else Some s.

Lemma usestats_kept (sa : ipsec_sa A) now b :
  sa_reqid (fst (update_usestats sa now b)) = sa_reqid sa /\
  sa_spi (fst (update_usestats sa now b)) = sa_spi sa /\
  sa_src (fst (update_usestats sa now b)) = sa_src sa /\
  sa_dst (fst (update_usestats sa now b)) = sa_dst sa /\
  sa_inbound (fst (update_usestats sa now b)) = sa_inbound sa /\
  esp_ctx (fst (update_usestats sa now b)) = esp_ctx sa.
Proof.
  unfold update_usestats, expire. split_ifs; by split_and!.
Qed.

Lemma inbound_with_sa_cases s packet id e now :
  id ∈ sas (sad s) -> entries (sad s) !! id = Some e -> locked e = true ->
  let '(st, packet', ctx) := decrypt packet (esp_ctx (ent_sa e)) in
  inbound_with_sa s packet id now =
  if negb (sa_inbound (ent_sa e)) then
    Some (with_sad s (set_entry (sad s) id (unlock e (ent_sa e))))
  else if negb (bool_decide (st = SUCCESS)) then
    Some (with_sad s (set_entry (sad s) id (unlock e (with_ctx (ent_sa e) ctx))))
  else
    ip ← payload packet';
    let '(sa, ev) := update_usestats (with_ctx (ent_sa e) ctx) now
                       (u32 (Z.of_nat (length (ip_encoding ip)))) in
    finish_inbound (notify (with_sad s (set_entry (sad s) id (unlock e sa))) ev)
      packet' ip (sa_reqid (ent_sa e)).
Proof.
  intros Hin He Hl. destruct (decrypt packet (esp_ctx (ent_sa e))) as [[st packet'] ctx] eqn:Ed.
  unfold inbound_with_sa, checked_out. rewrite He. cbn [fmap option_fmap option_map mbind option_bind].
  destruct (negb (sa_inbound (ent_sa e))); [by apply checkin_sa_spec|].
  rewrite Ed, (modify_sa_spec _ _ e) by done. cbn [mbind option_bind].
  destruct (negb (bool_decide (st = SUCCESS))).
  { erewrite checkin_sa_spec; [|exact Hin|apply Threads.entry_set|exact Hl].
    cbn [sad with_sad]. rewrite Threads.set_entry_twice. done. }
  destruct (payload packet') as [ip|]; [|done]. cbn [mbind option_bind sad with_sad].
  rewrite Threads.entry_set. cbn [ent_sa fmap option_fmap option_map mbind option_bind].
  pose proof (usestats_kept (with_ctx (ent_sa e) ctx) now
                (u32 (Z.of_nat (length (ip_encoding ip))))) as (Hreq & _).
  destruct (update_usestats _ _ _) as [sa ev]. cbn [fst] in Hreq.
  erewrite modify_sa_spec by apply Threads.entry_set. cbn [mbind option_bind].
  rewrite Threads.set_entry_twice. cbn [locked waiting_threads awaits_deletion].
  change (sa_reqid (with_ctx (ent_sa e) ctx)) with (sa_reqid (ent_sa e)) in Hreq. rewrite Hreq.
  destruct ev as [ev|]; cbn [notify].
  all: erewrite checkin_sa_spec; [|exact Hin|apply Threads.entry_set|exact Hl].
  all: cbn [sad with_sad mbind option_bind]; rewrite Threads.set_entry_twice; done.
Qed.

(** An installed policy for the packet. *)
Definition policy_for (m : policy_mgr) (ip : ip_packet) (inb : bool) (reqid : Z) : Prop :=
  exists e pol, e ∈ policies m /\ store m !! ent_policy e = Some pol /\
                packet_matches ip inb reqid pol = true.

Lemma finish_inbound_spec s packet ip reqid refs :
  mgr_ok (spd s) refs -> few refs ->
  exists s', finish_inbound s packet ip reqid = Some s' /\ sad s' = sad s /\ mgr_ok (spd s') refs /\
    policies (spd s') = policies (spd s) /\ sent s' = sent s /\
    let tunnelled := (next_header packet =? IPPROTO_IPIP) || (next_header packet =? IPPROTO_IPV6) in
    (delivered s' = delivered s /\
     (tunnelled = false \/ ~ policy_for (spd s) ip true reqid \/ cb (inbound_cb s) = None) \/
     exists c, tunnelled = true /\ policy_for (spd s) ip true reqid /\ cb (inbound_cb s) = Some c /\
       delivered s' = delivered s ++ [(c, cb_data (inbound_cb s), payload packet)]).
Proof.
  intros Hok Hfew. unfold finish_inbound.
  destruct ((next_header packet =? IPPROTO_IPIP) || (next_header packet =? IPPROTO_IPV6)).
  2:{ exists s. split_and!; try done. left. auto. }
  destruct (find_ok (spd s) refs ip true reqid Hok) as (r & pm & -> & Hpm & Hpol & Hr).
  cbn [mbind option_bind]. destruct r as [pid|].
  - destruct Hr as (e & pol & Hin & <- & Hst & Hm & _).
    assert (policy_for (spd s) ip true reqid) as Hfor by (by exists e, pol).
    set (s1 := deliver_inbound (with_spd s pm) packet).
    assert (spd s1 = pm) as -> by (subst s1; unfold deliver_inbound; by destruct (cb _)).
    destruct (release_ok pm (ent_policy e :: refs) refs (ent_policy e) Hpm Hfew) as (pm' & -> & Hok' & Hp');
      [done|]. cbn [mbind option_bind]. eexists. split; [reflexivity|]. subst s1.
    unfold deliver_inbound. cbn [inbound_cb with_spd].
    destruct (cb (inbound_cb s)) as [c|] eqn:Ec; split_and!; try done; try (cbn; congruence).
    + right. by exists c.
    + left. auto.
  - destruct Hr as [-> Hall]. eexists. split; [reflexivity|]. split_and!; try done. left.
    split; [done|]. right. left. intros (e & pol & Hin & Hst & Hm).
    rewrite Forall_forall in Hall. specialize (Hall e Hin). rewrite Hst in Hall. cbn in Hall. congruence.
Qed.

Lemma decrypt_payload (p p' : esp_packet) (c c' : esp_context A) :
  decrypt p c = (SUCCESS, p', c') -> exists ip, payload p' = Some ip.
Proof.
  unfold decrypt. destruct (parse_esp _ _) as [[[[[spi n] iv] ct] icv]|]; [|done].
  destruct (verify_seqno c n); [|done]. cbn [negb].
  destruct (aead_decrypt _ _ _ _) as [[plain|] a]; [|done].
  unfold remove_padding. repeat case_match; intros; simplify_eq; cbn; by eauto.
Qed.

Lemma locked_set (m : sa_mgr A R) id e e' i :
  entries m !! id = Some e -> locked e' = locked e ->
  locked <$> entries (set_entry m id e') !! i = locked <$> entries m !! i.
Proof.
  intros He Hl. cbn. destruct (decide (i = id)) as [->|Hne].
  - rewrite lookup_insert_eq, He. cbn. by rewrite Hl.
  - by rewrite lookup_insert_ne.
Qed.

(** A run of the inbound job with the SA of entry [id] delivers the packet [ip]. *)
Definition inbound_delivery (s s' : ipsec) (packet : esp_packet) (spi : Z) (dst : host) : Prop :=
  exists id e packet' ctx ip c,
    id ∈ sas (sad s) /\ entries (sad s) !! id = Some e /\
    match_by_spi_dst (ent_sa e) spi dst = true /\ sa_inbound (ent_sa e) = true /\
    decrypt packet (esp_ctx (ent_sa e)) = (SUCCESS, packet', ctx) /\ payload packet' = Some ip /\
    (next_header packet' = IPPROTO_IPIP \/ next_header packet' = IPPROTO_IPV6) /\
    policy_for (spd s) ip true (sa_reqid (ent_sa e)) /\ cb (inbound_cb s) = Some c /\
    delivered s' = delivered s ++ [(c, cb_data (inbound_cb s), Some ip)].

(** What is left as it was by a run of a job. *)
Definition resources_kept (s s' : ipsec) (refs : list nat) : Prop :=
  mgr_ok (spd s') refs /\ policies (spd s') = policies (spd s) /\ sas (sad s') = sas (sad s) /\
  forall i, locked <$> entries (sad s') !! i = locked <$> entries (sad s) !! i.

Lemma inbound_with_sa_ok s packet id e now refs :
  mgr_ok (spd s) refs -> few refs -> id ∈ sas (sad s) -> entries (sad s) !! id = Some e -> locked e = false ->
  awaits_deletion e = false ->
  let s0 := with_sad s (set_entry (sad s) id (lock e)) in
  exists s', inbound_with_sa s0 packet id now = Some s' /\ resources_kept s s' refs /\
    sent s' = sent s /\
    (delivered s' = delivered s \/
     forall spi dst, match_by_spi_dst (ent_sa e) spi dst = true -> inbound_delivery s s' packet spi dst).
Proof.
  intros Hok Hfew Hin He Hl Ha s0.
  pose proof (inbound_with_sa_cases s0 packet id (lock e) now Hin (Threads.entry_set _ _ _) eq_refl) as Hc.
  cbn [lock ent_sa] in Hc. destruct (decrypt packet (esp_ctx (ent_sa e))) as [[st packet'] ctx] eqn:Ed.
  rewrite Hc. cbn [sad s0 with_sad]. rewrite !Threads.set_entry_twice.
  assert (forall sa i, locked <$> entries (set_entry (sad s) id (unlock (lock e) sa)) !! i
                       = locked <$> entries (sad s) !! i) as Hlk by (intros; by eapply locked_set).
  destruct (sa_inbound (ent_sa e)) eqn:Ei; cbn [negb].
  2:{ eexists. split; [reflexivity|]. split; [split_and!; [done..|apply Hlk]|]. split; [done|]. by left. }
  destruct (bool_decide_reflect (st = SUCCESS)) as [->|Hne]; cbn [negb].
  2:{ eexists. split; [reflexivity|]. split; [split_and!; [done..|apply Hlk]|]. split; [done|]. by left. }
  destruct (decrypt_payload _ _ _ _ Ed) as [ip Hip]. rewrite Hip. cbn [mbind option_bind].
  destruct (update_usestats _ _ _) as [sa ev]. set (s1 := notify _ ev).
  assert (spd s1 = spd s /\ delivered s1 = delivered s /\ sent s1 = sent s /\
          inbound_cb s1 = inbound_cb s /\
          sad s1 = set_entry (sad s) id (unlock (lock e) sa)) as (E1 & E2 & E3 & E4 & E5).
  { subst s1 s0. destruct ev; cbn; rewrite Threads.set_entry_twice; by split_and!. }
  destruct (finish_inbound_spec s1 packet' ip (sa_reqid (ent_sa e)) refs)
    as (s' & -> & Hsad & Hpm & Hpol & Hsent & Hdel); [by rewrite E1|done|].
  rewrite E1, E2, E3, E4, E5 in *. exists s'. split; [done|]. split.
  { split_and!; [done|done|by rewrite Hsad|intros i; rewrite Hsad; apply Hlk]. }
  split; [done|]. destruct Hdel as [[Hd _]|(c & Ht & Hfor & Hcb & Hd)]; [by left|right].
  intros spi dst Hm. exists id, e, packet', ctx, ip, c. rewrite Hip in Hd. split_and!; try done.
  apply orb_true_iff in Ht as [?%Z.eqb_eq|?%Z.eqb_eq]; auto.
Qed.

(** C13: Inbound processing.  Every run of the job is defined and ends with the
    list of policies, the references to them, and the lock of every SA as they
    were.  It delivers at most one packet, and only one that an installed,
    unexpired inbound SA for the packet's SPI and destination decapsulated
    (authenticated and fresh), that was tunnelled, and that an inbound policy of
    the SA's reqid matches.  ([few]: not so many references to policies are held that a
    reference count could wrap around.) *)
Theorem inbound_only_protected (s : ipsec) (now : Z) (refs : list nat) :
  mgr_ok (spd s) refs -> few refs -> entries_live (sad s) ->
  Forall (fun p => Packet.destination (EspPacket.packet p) <> None) (inbound_queue s) ->
  exists r, process_inbound s now = Some r /\
  match r with
  | WaitPacket => inbound_queue s = []
  | WaitSa id _ s' => delivered s' = delivered s /\ locked <$> entries (sad s) !! id = Some true
  | Done s' =>
    resources_kept s s' refs /\ sent s' = sent s /\
    (delivered s' = delivered s \/
     exists packet q spi dst,
       BlockingQueue.dequeue (inbound_queue s) = Some (packet, q) /\
       parse_header packet = Some spi /\
       Packet.destination (EspPacket.packet packet) = Some dst /\
       inbound_delivery s s' packet spi dst)
  end.
Proof.
  intros Hok Hfew Hlive Hdst. unfold process_inbound, Threads.checkout_by_spi.
  destruct (BlockingQueue.dequeue (inbound_queue s)) as [[packet q]|] eqn:Eq.
  2:{ eexists. split; [reflexivity|]. by apply BlockingQueue.dequeue_none. }
  destruct (parse_header packet) as [spi|] eqn:Eh; [|eexists; split; [reflexivity|]; split; [by split_and!|auto]].
  apply BlockingQueue.dequeue_elem in Eq as Hpk.
  rewrite Forall_forall in Hdst. specialize (Hdst packet Hpk).
  destruct (Packet.destination (EspPacket.packet packet)) as [dst|] eqn:Ed; [|done]. cbn [mbind option_bind].
  cbn [sad with_queues].
  destruct (checkout_defined (sad s) (fun sa => match_by_spi_dst sa spi dst) Hlive)
    as (m' & p & w & Hco & Hp). rewrite Hco. cbn [mbind option_bind inbound_after].
  destruct (checkout_cases _ _ _ _ _ Hco)
    as [[-> ->]|(id & e & Hin & He & Hm & Ha & [[Hl ->]|(Hl & -> & ->)])].
  - eexists. split; [reflexivity|]. split; [by split_and!|auto].
  - eexists. split; [reflexivity|]. split; [done|]. rewrite He. cbn. by rewrite Hl.
  - destruct (inbound_with_sa_ok (with_queues s q (outbound_queue s)) packet id e now refs)
      as (s' & Hs' & Hres & Hsent & Hdel); try done.
    unfold with_sad, with_queues in *. cbn in *. rewrite Hs'. cbn [mbind option_bind].
    eexists. split; [reflexivity|]. split; [exact Hres|]. split; [exact Hsent|].
    destruct Hdel as [Hd|Hd]; [by left|right]. exists packet, q, spi, dst. split_and!; try done.
    apply (Hd spi dst Hm).
Qed.

(** ** Outbound *)

Lemma outbound_with_sa_cases s packet pid id e now :
  id ∈ sas (sad s) -> entries (sad s) !! id = Some e -> locked e = true ->
  outbound_with_sa s packet pid id now =
  '(st, esp, ctx) ← encrypt junk (esp_packet_create_from_payload (Some (sa_src (ent_sa e)))
                                   (Some (sa_dst (ent_sa e))) (Some packet))
                     (esp_ctx (ent_sa e)) (sa_spi (ent_sa e));
  if negb (bool_decide (st = SUCCESS)) then
    pm ← policy_destroy (spd s) pid;
    Some (with_spd (with_sad s (set_entry (sad s) id (unlock e (with_ctx (ent_sa e) ctx)))) pm)
  else
    let '(sa, ev) := update_usestats (with_ctx (ent_sa e) ctx) now
                       (u32 (Z.of_nat (length (ip_encoding packet)))) in
    pm ← policy_destroy (spd s) pid;
    Some (send_outbound (with_spd (notify (with_sad s (set_entry (sad s) id (unlock e sa))) ev) pm) esp).
Proof.
  intros Hin He Hl. unfold outbound_with_sa, checked_out. rewrite He.
  cbn [fmap option_fmap option_map mbind option_bind].
  destruct (encrypt junk _ _ _) as [[[st esp] ctx]|]; [|done]. cbn [mbind option_bind].
  rewrite (modify_sa_spec _ _ e) by done. cbn [mbind option_bind].
  destruct (negb (bool_decide (st = SUCCESS))).
  { erewrite checkin_sa_spec; [|exact Hin|apply Threads.entry_set|exact Hl].
    cbn [sad with_sad mbind option_bind]. by rewrite Threads.set_entry_twice. }
  cbn [sad with_sad]. rewrite Threads.entry_set.
  cbn [ent_sa fmap option_fmap option_map mbind option_bind].
  destruct (update_usestats _ _ _) as [sa ev].
  erewrite modify_sa_spec by apply Threads.entry_set. cbn [mbind option_bind].
  rewrite Threads.set_entry_twice. cbn [locked waiting_threads awaits_deletion].
  destruct ev as [ev|]; cbn [notify].
  all: erewrite checkin_sa_spec; [|exact Hin|apply Threads.entry_set|exact Hl].
  all: cbn [sad with_sad mbind option_bind]; rewrite Threads.set_entry_twice; done.
Qed.

(** A run of the outbound job sends [packet] in the ESP packet [esp]. *)
Definition outbound_sending (s s' : ipsec) (packet : ip_packet) : Prop :=
  exists pe pol id e esp ctx c,
    pe ∈ policies (spd s) /\ store (spd s) !! ent_policy pe = Some pol /\
    packet_matches packet false 0 pol = true /\
    id ∈ sas (sad s) /\ entries (sad s) !! id = Some e /\
    match_by_reqid (ent_sa e) (cfg_reqid (pol_sa pol)) false = true /\
    encrypt junk (esp_packet_create_from_payload (Some (sa_src (ent_sa e)))
                    (Some (sa_dst (ent_sa e))) (Some packet))
      (esp_ctx (ent_sa e)) (sa_spi (ent_sa e)) = Some (SUCCESS, esp, ctx) /\
    cb (outbound_cb s) = Some c /\
    sent s' = sent s ++ [(c, cb_data (outbound_cb s), esp)].

End Processor.
Arguments ipsec : clear implicits.
Arguments callback : clear implicits.
Arguments job_result : clear implicits.
Arguments Done {A R CB P}. Arguments WaitPacket {A R CB P}. Arguments WaitSa {A R CB P}.

Section Protected.
Context {A R CB : Type} `{AeadLaws A} `{EqDecision CB} (junk : nat -> Z).
Abbreviation ipsec := (ipsec A R CB).

(** The keys of every SA are set and its algorithms have the usual sizes. *)
Definition sas_keyed (s : ipsec) (packet : ip_packet) : Prop :=
  bytes_ok (ip_encoding packet) /\
  forall id e, entries (sad s) !! id = Some e ->
    exists v, ae_view (aead (esp_ctx (ent_sa e))) = Some v /\
      sizes_aligned (av_block v) (av_iv v) /\
      Z.of_nat (length (ip_encoding packet) + av_block v + av_iv v + av_icv v + 16) < 2 ^ 32.

Lemma outbound_with_sa_ok (s : ipsec) packet pid id e now refs :
  sas_keyed s packet -> mgr_ok (spd s) (pid :: refs) -> few refs -> id ∈ sas (sad s) ->
  entries (sad s) !! id = Some e -> locked e = false -> awaits_deletion e = false ->
  let s0 := with_sad s (set_entry (sad s) id (lock e)) in
  exists s', outbound_with_sa junk s0 packet pid id now = Some s' /\ resources_kept s s' refs /\
    delivered s' = delivered s /\
    (sent s' = sent s \/
     exists esp ctx c,
       encrypt junk (esp_packet_create_from_payload (Some (sa_src (ent_sa e)))
                       (Some (sa_dst (ent_sa e))) (Some packet))
         (esp_ctx (ent_sa e)) (sa_spi (ent_sa e)) = Some (SUCCESS, esp, ctx) /\
       cb (outbound_cb s) = Some c /\ sent s' = sent s ++ [(c, cb_data (outbound_cb s), esp)]).
Proof.
  intros [Hb Hk] Hok Hfew Hin He Hl Ha s0.
  rewrite (outbound_with_sa_cases junk s0 packet pid id (lock e) now Hin
             (Threads.entry_set _ _ _) eq_refl).
  cbn [lock ent_sa s0 sad with_sad]. destruct (Hk id e He) as (v & Hv & Hal & Hmax).
  pose proof (encrypt_defined junk
    (esp_packet_create_from_payload (Some (sa_src (ent_sa e))) (Some (sa_dst (ent_sa e))) (Some packet))
    (esp_ctx (ent_sa e)) (sa_spi (ent_sa e)) v Hv Hal Hb Hmax) as Hdef.
  destruct (encrypt junk _ _ _) as [[[st esp] ctx]|] eqn:Ee; [|done]. clear Hdef.
  cbn [mbind option_bind]. rewrite !Threads.set_entry_twice.
  assert (forall sa i, locked <$> entries (set_entry (sad s) id (unlock (lock e) sa)) !! i
                       = locked <$> entries (sad s) !! i) as Hlk by (intros; by eapply locked_set).
  destruct (release_ok (spd s) (pid :: refs) refs pid Hok Hfew) as (pm & Hd & Hpm & Hpol); [done|].
  destruct (bool_decide_reflect (st = SUCCESS)) as [->|Hne]; cbn [negb].
  - destruct (update_usestats _ _ _) as [sa ev]. subst s0. cbn [spd with_sad]. rewrite Hd.
    cbn [mbind option_bind]. rewrite Threads.set_entry_twice.
    eexists. split; [reflexivity|]. unfold send_outbound.
    destruct ev, (cb (outbound_cb s)) as [c|] eqn:Ec; cbn; rewrite ?Ec;
      (split; [split_and!; [done..|apply Hlk]|]; split; [done|]); try (by left); right;
      by exists esp, ctx, c.
  - subst s0. cbn [spd with_sad]. rewrite Hd. cbn [mbind option_bind]. eexists. split; [reflexivity|]. split; [split_and!; [done..|apply Hlk]|]. split; [done|]. by left.
Qed.

(** C20: Outbound processing.  Every run of the job is defined and ends with the
    list of policies, the references to them, and the lock of every SA as they
    were.  Nothing is sent but the result of encapsulating the packet with an
    unexpired outbound SA of the reqid of an outbound policy that matches it: no
    packet leaves in the clear.  ([few] as for inbound processing.) *)
Theorem outbound_only_protected (s : ipsec) (now : Z) (refs : list nat) :
  mgr_ok (spd s) refs -> few refs -> entries_live (sad s) -> Forall (sas_keyed s) (outbound_queue s) ->
  exists r, process_outbound junk s now = Some r /\
  match r with
  | WaitPacket => outbound_queue s = []
  | WaitSa id (_, pid) s' => mgr_ok (spd s') (pid :: refs) /\ sent s' = sent s /\
                             locked <$> entries (sad s) !! id = Some true
  | Done s' =>
    resources_kept s s' refs /\ delivered s' = delivered s /\
    (sent s' = sent s \/
     exists packet q, BlockingQueue.dequeue (outbound_queue s) = Some (packet, q) /\
                      outbound_sending junk s s' packet)
  end.
Proof.
  intros Hok Hfew Hlive Hkey. unfold process_outbound, Threads.checkout_by_reqid.
  destruct (BlockingQueue.dequeue (outbound_queue s)) as [[packet q]|] eqn:Eq.
  2:{ eexists. split; [reflexivity|]. by apply BlockingQueue.dequeue_none. }
  apply BlockingQueue.dequeue_elem in Eq as Hpk.
  rewrite Forall_forall in Hkey. specialize (Hkey packet Hpk). cbn [spd with_queues].
  destruct (find_ok (spd s) refs packet false 0 Hok) as (r & pm & -> & Hpm & Hpol & Hr).
  cbn [mbind option_bind]. destruct r as [pid|].
  2:{ destruct Hr as [-> _]. eexists. split; [reflexivity|]. split; [by split_and!|auto]. }
  destruct Hr as (pe & pol & Hpe & <- & Hst & Hpm' & Hst'). cbn [spd with_spd with_queues].
  rewrite Hst'. cbn [mbind option_bind pol_sa set_refcount sad with_spd with_queues].
  destruct (checkout_defined (sad s) (fun sa => match_by_reqid sa (cfg_reqid (pol_sa pol)) false) Hlive)
    as (m' & p & w & Hco & _). rewrite Hco. cbn [mbind option_bind outbound_after].
  destruct (checkout_cases _ _ _ _ _ Hco)
    as [[-> ->]|(id & e & Hin & He & Hm & Ha & [[Hl ->]|(Hl & -> & ->)])].
  - cbn [spd with_spd with_queues with_sad].
    destruct (release_ok pm (ent_policy pe :: refs) refs (ent_policy pe) Hpm Hfew) as (pm' & -> & Hok' & Hp');
      [done|]. cbn [mbind option_bind]. eexists. split; [reflexivity|].
    split; [split_and!; cbn; congruence || done|auto].
  - eexists. split; [reflexivity|]. split; [done|]. split; [done|]. rewrite He. cbn. by rewrite Hl.
  - destruct (outbound_with_sa_ok (with_spd (with_queues s (inbound_queue s) q) pm) packet
                (ent_policy pe) id e now refs) as (s' & Hs' & Hres & Hdel & Hsent); try done.
    unfold with_sad, with_queues, with_spd in *. cbn in *. rewrite Hs'. cbn [mbind option_bind].
    eexists. split; [reflexivity|]. split; [|split; [exact Hdel|]].
    { destruct Hres as (R1 & R2 & R3 & R4). split_and!; try done. cbn in R2. congruence. }
    destruct Hsent as [Hd|(esp & ctx & c & He1 & He2 & He3)]; [by left|right].
    exists packet, q. split; [done|]. exists pe, pol, id, e, esp, ctx, c. by split_and!.
Qed.

(** ** Two peers *)

(** The SA a job gets when it looks one up. *)
Definition sa_ready (m : sa_mgr A R) (f : ipsec_sa A -> bool) (id : nat) (e : sa_entry A) : Prop :=
  find_sa m f = Some (Some id) /\ entries m !! id = Some e /\ locked e = false /\
  awaits_deletion e = false.

Lemma checkout_ready (m : sa_mgr A R) f id e :
  sa_ready m f id e ->
  id ∈ sas m /\
  Threads.find_and_wait m f Threads.KCheckout = Some (set_entry m id (lock e), Threads.Holds id, None).
Proof.
  intros (Hf & He & Hl & Ha). split; [by apply find_first_some in Hf as [? _]|].
  unfold Threads.find_and_wait. rewrite Hf. cbn [mbind option_bind]. unfold wait_for_entry. rewrite He.
  cbn [mbind option_bind]. rewrite Hl, Ha. cbn [andb negb Threads.after_wait].
  unfold Threads.complete_wait, checked_out. by rewrite Threads.entry_set.
Qed.

(** The sending peer, with the encapsulated packet given. *)
Lemma process_outbound_sends (s : ipsec) now ip q pid pm pol id e esp ctx c refs :
  BlockingQueue.dequeue (outbound_queue s) = Some (ip, q) -> mgr_ok (spd s) refs -> few refs ->
  find_by_packet (spd s) ip false 0 = Some (Some pid, pm) -> store pm !! pid = Some pol ->
  sa_ready (sad s) (fun sa => match_by_reqid sa (cfg_reqid (pol_sa pol)) false) id e ->
  encrypt junk (esp_packet_create_from_payload (Some (sa_src (ent_sa e)))
                  (Some (sa_dst (ent_sa e))) (Some ip))
    (esp_ctx (ent_sa e)) (sa_spi (ent_sa e)) = Some (SUCCESS, esp, ctx) ->
  cb (outbound_cb s) = Some c ->
  exists s', process_outbound junk s now = Some (Done s') /\
             sent s' = sent s ++ [(c, cb_data (outbound_cb s), esp)].
Proof.
  intros Hq Hok Hfew Hf Hst Hr Henc Hcb. unfold process_outbound, Threads.checkout_by_reqid. rewrite Hq. cbn [spd with_queues].
  destruct (find_ok (spd s) refs ip false 0 Hok) as (r & pm0 & Hf0 & Hpm & _).
  rewrite Hf in Hf0. injection Hf0 as <- <-. rewrite Hf. cbn [mbind option_bind spd with_spd].
  rewrite Hst. cbn [mbind option_bind sad with_spd with_queues].
  destruct (checkout_ready _ _ _ _ Hr) as [Hin Hco]. rewrite Hco. cbn [mbind option_bind outbound_after].
  erewrite (outbound_with_sa_cases _ _ _ _ _ (lock e)); [|exact Hin|apply Threads.entry_set|done].
  cbn [lock ent_sa]. rewrite Henc. cbn [mbind option_bind].
  rewrite bool_decide_eq_true_2 by done. cbn [negb].
  destruct (update_usestats _ _ _) as [sa ev].
  destruct (release_ok pm (pid :: refs) refs pid Hpm Hfew) as (pm' & Hd & _); [done|].
  cbn [spd with_sad with_spd with_queues]. rewrite Hd. cbn [mbind option_bind].
  eexists. split; [reflexivity|]. unfold send_outbound. destruct ev; cbn; by rewrite Hcb.
Qed.

(** The receiving peer, with the decapsulated packet given. *)
Lemma process_inbound_delivers (s : ipsec) now packet packet' q spi dst id e ctx ip c refs :
  BlockingQueue.dequeue (inbound_queue s) = Some (packet, q) -> mgr_ok (spd s) refs -> few refs ->
  parse_header packet = Some spi -> Packet.destination (EspPacket.packet packet) = Some dst ->
  sa_ready (sad s) (fun sa => match_by_spi_dst sa spi dst) id e -> sa_inbound (ent_sa e) = true ->
  decrypt packet (esp_ctx (ent_sa e)) = (SUCCESS, packet', ctx) -> payload packet' = Some ip ->
  next_header packet' = IPPROTO_IPIP \/ next_header packet' = IPPROTO_IPV6 ->
  policy_for (spd s) ip true (sa_reqid (ent_sa e)) -> cb (inbound_cb s) = Some c ->
  exists s', process_inbound s now = Some (Done s') /\
             delivered s' = delivered s ++ [(c, cb_data (inbound_cb s), Some ip)].
Proof.
  intros Hq Hok Hfew Hh Hd Hr Hinb Hdec Hpl Hnh Hpol Hcb. unfold process_inbound, Threads.checkout_by_spi.
  rewrite Hq, Hh, Hd.
  cbn [mbind option_bind sad with_queues].
  destruct (checkout_ready _ _ _ _ Hr) as [Hin Hco]. rewrite Hco. cbn [mbind option_bind inbound_after].
  pose proof (inbound_with_sa_cases
    (with_sad (with_queues s q (outbound_queue s)) (set_entry (sad s) id (lock e)))
    packet id (lock e) now Hin (Threads.entry_set _ _ _) eq_refl) as Hc.
  cbn [lock ent_sa] in Hc. rewrite Hdec in Hc. rewrite Hc, Hinb. cbn [negb].
  rewrite bool_decide_eq_true_2 by done. cbn [negb]. rewrite Hpl. cbn [mbind option_bind].
  destruct (update_usestats _ _ _) as [sa ev]. set (s1 := notify _ ev).
  assert (spd s1 = spd s /\ delivered s1 = delivered s /\ inbound_cb s1 = inbound_cb s)
    as (E1 & E2 & E3) by (subst s1; by destruct ev).
  destruct (finish_inbound_spec s1 packet' ip (sa_reqid (ent_sa e)) refs)
    as (s' & -> & _ & _ & _ & _ & Hdel); [by rewrite E1|done|].
  rewrite E1, E2, E3 in Hdel. cbn [mbind option_bind]. exists s'. split; [done|].
  destruct Hdel as [[_ [Hf|[Hf|Hf]]]|(c' & _ & _ & Hc' & ->)]; [|done|congruence|].
  - destruct Hnh as [Hnh|Hnh]; by rewrite Hnh in Hf.
  - rewrite Hpl. congruence.
Qed.

(** C1: From peer to peer.  An IP packet queued at a gateway whose policy and SA
    apply to it is sent as an ESP packet; when that packet arrives at a peer
    with the matching inbound SA (same keys, sequence number not seen yet) and an
    inbound policy for the inner packet, the peer delivers exactly the IP packet
    that was queued.  ([few] as for inbound processing.) *)
Theorem tunnel_end_to_end (s1 s2 : ipsec) (now1 now2 : Z) (ip : ip_packet) (q : list ip_packet)
    (pid : nat) (pm : policy_mgr) (pol : ipsec_policy) (id1 id2 : nat) (e1 e2 : sa_entry A)
    (c1 c2 : CB) (v : aead_view) (refs1 refs2 : list nat) :
  let co := esp_ctx (ent_sa e1) in
  let ci := esp_ctx (ent_sa e2) in
  BlockingQueue.dequeue (outbound_queue s1) = Some (ip, q) -> inbound_queue s2 = [] ->
  mgr_ok (spd s1) refs1 -> mgr_ok (spd s2) refs2 -> few refs1 -> few refs2 ->
  find_by_packet (spd s1) ip false 0 = Some (Some pid, pm) -> store pm !! pid = Some pol ->
  sa_ready (sad s1) (fun sa => match_by_reqid sa (cfg_reqid (pol_sa pol)) false) id1 e1 ->
  sa_ready (sad s2) (fun sa => match_by_spi_dst sa (sa_spi (ent_sa e1)) (sa_dst (ent_sa e1))) id2 e2 ->
  sa_inbound (ent_sa e2) = true -> policy_for (spd s2) ip true (sa_reqid (ent_sa e2)) ->
  cb (outbound_cb s1) = Some c1 -> cb (inbound_cb s2) = Some c2 ->
  ip_packet_create (ip_encoding ip) = Some ip -> bytes_ok (ip_encoding ip) ->
  ae_view (aead co) = Some v -> ae_view (aead ci) = Some v ->
  sizes_aligned (av_block v) (av_iv v) -> (av_block v + 3 <= 256)%nat ->
  inbound co = false -> 0 <= last_seqno co < UINT32_MAX -> 0 <= sa_spi (ent_sa e1) < 2 ^ 32 ->
  Z.of_nat (length (ip_encoding ip) + av_iv v + av_icv v + 300) < 2 ^ 32 ->
  fst (aead_get_iv (aead co) (last_seqno co + 1) (av_iv v)) <> None ->
  verify_seqno ci (last_seqno co + 1) = true ->
  exists s1' esp s2',
    process_outbound junk s1 now1 = Some (Done s1') /\
    sent s1' = sent s1 ++ [(c1, cb_data (outbound_cb s1), esp)] /\
    let received := esp_packet_create_from_packet
      (Packet.packet_create_from_data (Some (sa_src (ent_sa e1))) (Some (sa_dst (ent_sa e1)))
         (EspPacket.get_data esp)) in
    process_inbound (queue_inbound s2 received) now2 = Some (Done s2') /\
    delivered s2' = delivered s2 ++ [(c2, cb_data (inbound_cb s2), Some ip)].
Proof.
  intros co ci Hq Hq2 Hok1 Hok2 Hfew1 Hfew2 Hf Hst Hr1 Hr2 Hinb Hpf Hc1 Hc2 Hip Hb Hvo Hvi Hal Hbs Hout Hlast
    Hspi Hmax Hget Hver.
  destruct (aead_get_iv (aead co) (last_seqno co + 1) (av_iv v)) as [[iv|] a1] eqn:Eiv; [|done].
  set (this := esp_packet_create_from_payload (Some (sa_src (ent_sa e1)))
                 (Some (sa_dst (ent_sa e1))) (Some ip)).
  assert (next_header this = IPPROTO_IPIP \/ next_header this = IPPROTO_IPV6) as Hnh
    by (subst this; cbn; destruct (_ =? 4); auto).
  assert (byte_ok (next_header this)) as Hnb by (by destruct Hnh as [-> | ->]).
  destruct (roundtrip junk this co ci v (sa_spi (ent_sa e1)) ip eq_refl Hip Hb Hnb Hvo Hvi Hal Hbs
              Hout Hlast Hspi Hmax iv a1 (Some (sa_src (ent_sa e1))) (Some (sa_dst (ent_sa e1))) Eiv Hver)
    as (data & a2 & b2 & Ee & _ & _ & Hp & Hd).
  destruct (process_outbound_sends s1 now1 ip q pid pm pol id1 e1 _ _ c1 refs1 Hq Hok1 Hfew1 Hf Hst Hr1 Ee Hc1)
    as (s1' & Ho & Hs).
  set (received := esp_packet_create_from_packet _) in Hp, Hd.
  assert (BlockingQueue.dequeue (inbound_queue (queue_inbound s2 received)) = Some (received, [])) as Hdq
    by (cbn [inbound_queue queue_inbound with_queues]; by rewrite Hq2).
  edestruct (process_inbound_delivers (queue_inbound s2 received) now2)
    as (s2' & Hi & Hdl);
    [exact Hdq|exact Hok2|exact Hfew2|exact Hp|reflexivity|exact Hr2|exact Hinb|exact Hd|reflexivity|exact Hnh
    |exact Hpf|exact Hc2|].
  exists s1', (EspPacket.set_data this data), s2'. split; [exact Ho|].
  split; [exact Hs|]. split; [exact Hi|exact Hdl].
Qed.
End Protected.

(** *** Witnesses *)
Section Witnesses.

Definition peer_policies (dir : policy_dir_t) : policy_mgr :=
  match mgr_run_op (ipsec_policy_mgr_create, [])
          (OpAdd host_a host_b ts_net10 ts_net10 dir POLICY_IPSEC cfg_sample mark_sample
             POLICY_PRIORITY_DEFAULT) with
  | Some (m, _) => m
  | None => ipsec_policy_mgr_create
  end.

Lemma peer_policies_ok dir : dir <> POLICY_FWD -> mgr_ok (peer_policies dir) [].
Proof.
  intros Hdir.
  destruct (run_op_ok (ipsec_policy_mgr_create, [])
              (OpAdd host_a host_b ts_net10 ts_net10 dir POLICY_IPSEC cfg_sample mark_sample
                 POLICY_PRIORITY_DEFAULT)) as (s & E & Hs).
  - apply mgr_create_ok.
  - done.
  - split; apply ts_net10_ok.
  - unfold peer_policies. rewrite E. destruct s as [m refs]. cbn [fst snd] in Hs.
    assert (refs = []) as ->; [|exact Hs].
    cbn [mgr_run_op] in E. apply bind_Some in E as ([st m'] & _ & E). by simplify_eq.
Defined.

Definition peer_entry (inb : bool) : sa_entry toy_esp :=
  create_entry
    (IpsecSa 77 host_a host_b 50 7 lt_sample MODE_TUNNEL false inb (if inb then toy_in else toy_out)
       0 0 0 false false).

(** The SAs are as [ipsec_sa_create] makes them. *)
Lemma peer_entry_created inb : sa_sample inb = Some (ent_sa (peer_entry inb)).
Proof. destruct inb; vm_compute; reflexivity. Qed.

Definition peer (inb : bool) (dir : policy_dir_t) : ipsec toy_esp nat nat :=
  Ipsec (SaMgr [0%nat] {[0%nat := peer_entry inb]} 1 ∅ None) (peer_policies dir)
    EventRelay.ipsec_event_relay_create [] [] (Callback (Some 1%nat) 10) (Callback (Some 2%nat) 20) [] [].

Definition sender : ipsec toy_esp nat nat := queue_outbound (peer false POLICY_OUT) toy_ip.
Definition receiver : ipsec toy_esp nat nat := peer true POLICY_IN.

Lemma entry_sizes inb : ae_view (aead (esp_ctx (ent_sa (peer_entry inb)))) = Some toy_esp_view.
Proof. destruct inb; vm_compute; reflexivity. Defined.

Lemma toy_view_aligned : sizes_aligned (av_block toy_esp_view) (av_iv toy_esp_view).
Proof. left. split; [by exists 1%nat|by exists 2%nat]. Defined.

Lemma tunnel_end_to_end_witness :
  exists s1' esp s2',
    process_outbound junk0 sender 5 = Some (Done s1') /\
    sent s1' = [(2%nat, 20%nat, esp)] /\
    process_inbound (queue_inbound receiver
      (esp_packet_create_from_packet
         (Packet.packet_create_from_data (Some host_a) (Some host_b) (EspPacket.get_data esp)))) 6
    = Some (Done s2') /\
    delivered s2' = [(1%nat, 10%nat, Some toy_ip)].
Proof.
  destruct (find_by_packet (spd sender) toy_ip false 0) as [[[pid|] pm]|] eqn:Ef;
    [|vm_compute in Ef; discriminate|vm_compute in Ef; discriminate].
  destruct (store pm !! pid) as [pol|] eqn:Ep; [|vm_compute in Ef; injection Ef as <- <-;
    vm_compute in Ep; discriminate].
  apply (tunnel_end_to_end junk0 sender receiver 5 6 toy_ip [] pid pm pol 0 0
           (peer_entry false) (peer_entry true) 2%nat 1%nat toy_esp_view [] []);
    try exact toy_view_aligned; try exact (entry_sizes _); try reflexivity.
  - by apply peer_policies_ok.
  - by apply peer_policies_ok.
  - exact Ef.
  - exact Ep.
  - vm_compute in Ef. injection Ef as <- <-. vm_compute in Ep. injection Ep as <-.
    split_and!; vm_compute; reflexivity.
  - split_and!; vm_compute; reflexivity.
  - eexists (PolicyEntry _ _), _. split_and!; [left| |]; vm_compute; reflexivity.
  - by apply (bool_decide_unpack _).
  - vm_compute. lia.
  - by apply (bool_decide_unpack _).
  - cbn. lia.
  - vm_compute. discriminate.
Defined.

(** The packet on the wire between the two peers. *)
Definition wire : chunk :=
  match process_outbound junk0 sender 5 with
  | Some (Done s) => match sent s with [(_, _, esp)] => EspPacket.get_data esp | _ => [] end
  | _ => []
  end.
Definition wired : ipsec toy_esp nat nat :=
  queue_inbound receiver
    (esp_packet_create_from_packet (Packet.packet_create_from_data (Some host_a) (Some host_b) wire)).

Lemma inbound_only_protected_witness :
  exists s', process_inbound wired 6 = Some (Done s') /\ resources_kept wired s' [] /\
    exists packet q spi dst,
      BlockingQueue.dequeue (inbound_queue wired) = Some (packet, q) /\
      parse_header packet = Some spi /\ Packet.destination (EspPacket.packet packet) = Some dst /\
      inbound_delivery wired s' packet spi dst.
Proof.
  destruct (inbound_only_protected wired 6 []) as (r & Hr & Hm).
  - by apply peer_policies_ok.
  - done.
  - by apply (bool_decide_unpack _).
  - constructor; [discriminate|constructor].
  - destruct r as [s'| |]; [|vm_compute in Hr; discriminate|vm_compute in Hr; discriminate].
    exists s'. split; [exact Hr|]. destruct Hm as (Hres & _ & [Hs|Hs]); [|by split].
    vm_compute in Hr. injection Hr as <-. vm_compute in Hs. discriminate.
Defined.

Lemma outbound_only_protected_witness :
  exists s', process_outbound junk0 sender 5 = Some (Done s') /\
    resources_kept sender s' [] /\
    exists packet q, BlockingQueue.dequeue (outbound_queue sender) = Some (packet, q) /\
                     outbound_sending junk0 sender s' packet.
Proof.
  destruct (outbound_only_protected junk0 sender 5 []) as (r & Hr & Hm).
  - by apply peer_policies_ok.
  - done.
  - by apply (bool_decide_unpack _).
  - constructor; [|constructor]. split; [by apply (bool_decide_unpack _)|]. intros id e He. exists toy_esp_view.
    cbn in He. apply lookup_singleton_Some in He as [<- <-].
    split_and!; [apply entry_sizes|apply toy_view_aligned|vm_compute; reflexivity].
  - destruct r as [s'| |]; [|vm_compute in Hr; discriminate|vm_compute in Hr; discriminate].
    exists s'. split; [exact Hr|]. destruct Hm as (Hres & _ & [Hs|Hs]); [|by split].
    vm_compute in Hr. injection Hr as <-. vm_compute in Hs. discriminate.
Defined.
End Witnesses.
