(* ===== verification/Payloads.v ===== *)
(** Payloads of IKE messages, [src/libcharon/encoding/payloads]: their types, the
    tables of encoding rules that drive generator and parser, header lengths and
    creation.  An object is its class and the values of its encoded fields, in the
    order of the rules. *)
From S2P Require Import Prelude.
From stdpp Require Import base numbers list option strings.
From Stdlib Require Import Lia ZArith.
Local Open Scope Z_scope.

(** [payload_type_t]; the values without a name are [PL_OTHER]. *)
Inductive payload_type_t :=
  | PL_NONE
  | PLV1_SECURITY_ASSOCIATION | PLV1_PROPOSAL | PLV1_TRANSFORM | PLV1_KEY_EXCHANGE | PLV1_ID
  | PLV1_CERTIFICATE | PLV1_CERTREQ | PLV1_HASH | PLV1_SIGNATURE | PLV1_NONCE | PLV1_NOTIFY
  | PLV1_DELETE | PLV1_VENDOR_ID | PLV1_CONFIGURATION | PLV1_NAT_D | PLV1_NAT_OA
  | PLV2_SECURITY_ASSOCIATION | PLV2_KEY_EXCHANGE | PLV2_ID_INITIATOR | PLV2_ID_RESPONDER
  | PLV2_CERTIFICATE | PLV2_CERTREQ | PLV2_AUTH | PLV2_NONCE | PLV2_NOTIFY | PLV2_DELETE
  | PLV2_VENDOR_ID | PLV2_TS_INITIATOR | PLV2_TS_RESPONDER | PLV2_ENCRYPTED | PLV2_CONFIGURATION
  | PLV2_EAP | PLV2_GSPM | PLV2_IDG | PLV2_GSA | PLV2_KD | PLV2_FRAGMENT
  | PLV1_NAT_D_DRAFT_00_03 | PLV1_NAT_OA_DRAFT_00_03 | PLV1_FRAGMENT
  | PL_HEADER | PL_UNKNOWN | PLV2_PROPOSAL_SUBSTRUCTURE | PLV1_PROPOSAL_SUBSTRUCTURE
  | PLV2_TRANSFORM_SUBSTRUCTURE | PLV1_TRANSFORM_SUBSTRUCTURE | PLV2_TRANSFORM_ATTRIBUTE
  | PLV1_TRANSFORM_ATTRIBUTE | PLV2_TRAFFIC_SELECTOR_SUBSTRUCTURE
  | PLV2_CONFIGURATION_ATTRIBUTE | PLV1_CONFIGURATION_ATTRIBUTE | PLV1_ENCRYPTED
  | PL_OTHER (n : Z).

#[export] Instance payload_type_eq_dec : EqDecision payload_type_t.
Proof. solve_decision. Defined.

(** [encoding_type_t]; the substructure of a list comes with its type. *)
Inductive encoding_type_t :=
  | U_INT_4 | U_INT_8 | U_INT_16 | U_INT_32 | RESERVED_BIT | RESERVED_BYTE | FLAG
  | PAYLOAD_LENGTH | HEADER_LENGTH | SPI_SIZE | SPI | ATTRIBUTE_FORMAT | ATTRIBUTE_TYPE
  | ATTRIBUTE_LENGTH_OR_VALUE | ATTRIBUTE_LENGTH | ATTRIBUTE_VALUE | TS_TYPE | ADDRESS
  | CHUNK_DATA | IKE_SPI | ENCRYPTED_DATA
  | PAYLOAD_LIST (type : payload_type_t).

#[export] Instance encoding_type_eq_dec : EqDecision encoding_type_t.
Proof. solve_decision. Defined.

(** A rule: how a field is encoded, and the field, by its name instead of its offset. *)
Definition encoding_rule_t : Type := encoding_type_t * string.

(** ** The tables *)

Local Open Scope string_scope.

Definition auth_payload_encodings : list encoding_rule_t :=
  [(U_INT_8, "next_payload"); (FLAG, "critical"); (RESERVED_BIT, "reserved_bit[0]");
    (RESERVED_BIT, "reserved_bit[1]"); (RESERVED_BIT, "reserved_bit[2]");
    (RESERVED_BIT, "reserved_bit[3]"); (RESERVED_BIT, "reserved_bit[4]");
    (RESERVED_BIT, "reserved_bit[5]"); (RESERVED_BIT, "reserved_bit[6]");
    (PAYLOAD_LENGTH, "payload_length"); (U_INT_8, "auth_method");
    (RESERVED_BYTE, "reserved_byte[0]"); (RESERVED_BYTE, "reserved_byte[1]");
    (RESERVED_BYTE, "reserved_byte[2]"); (CHUNK_DATA, "auth_data")].

Definition cert_payload_encodings : list encoding_rule_t :=
  [(U_INT_8, "next_payload"); (FLAG, "critical"); (RESERVED_BIT, "reserved[0]");
    (RESERVED_BIT, "reserved[1]"); (RESERVED_BIT, "reserved[2]"); (RESERVED_BIT, "reserved[3]");
    (RESERVED_BIT, "reserved[4]"); (RESERVED_BIT, "reserved[5]"); (RESERVED_BIT, "reserved[6]");
    (PAYLOAD_LENGTH, "payload_length"); (U_INT_8, "encoding"); (CHUNK_DATA, "data")].

Definition certreq_payload_encodings : list encoding_rule_t :=
  [(U_INT_8, "next_payload"); (FLAG, "critical"); (RESERVED_BIT, "reserved[0]");
    (RESERVED_BIT, "reserved[1]"); (RESERVED_BIT, "reserved[2]"); (RESERVED_BIT, "reserved[3]");
    (RESERVED_BIT, "reserved[4]"); (RESERVED_BIT, "reserved[5]"); (RESERVED_BIT, "reserved[6]");
    (PAYLOAD_LENGTH, "payload_length"); (U_INT_8, "encoding"); (CHUNK_DATA, "data")].

Definition configuration_attribute_encodings_v2 : list encoding_rule_t :=
  [(RESERVED_BIT, "reserved"); (ATTRIBUTE_TYPE, "attr_type");
    (ATTRIBUTE_LENGTH, "length_or_value"); (ATTRIBUTE_VALUE, "value")].

Definition configuration_attribute_encodings_v1 : list encoding_rule_t :=
  [(ATTRIBUTE_FORMAT, "af_flag"); (ATTRIBUTE_TYPE, "attr_type");
    (ATTRIBUTE_LENGTH_OR_VALUE, "length_or_value"); (ATTRIBUTE_VALUE, "value")].

Definition cp_payload_encodings_v2 : list encoding_rule_t :=
  [(U_INT_8, "next_payload"); (FLAG, "critical"); (RESERVED_BIT, "reserved_bit[0]");
    (RESERVED_BIT, "reserved_bit[1]"); (RESERVED_BIT, "reserved_bit[2]");
    (RESERVED_BIT, "reserved_bit[3]"); (RESERVED_BIT, "reserved_bit[4]");
    (RESERVED_BIT, "reserved_bit[5]"); (RESERVED_BIT, "reserved_bit[6]");
    (PAYLOAD_LENGTH, "payload_length"); (U_INT_8, "cfg_type"); (RESERVED_BYTE, "reserved_byte[0]");
    (RESERVED_BYTE, "reserved_byte[1]"); (RESERVED_BYTE, "reserved_byte[2]");
    (PAYLOAD_LIST PLV2_CONFIGURATION_ATTRIBUTE, "attributes")].

Definition cp_payload_encodings_v1 : list encoding_rule_t :=
  [(U_INT_8, "next_payload"); (FLAG, "critical"); (RESERVED_BIT, "reserved_bit[0]");
    (RESERVED_BIT, "reserved_bit[1]"); (RESERVED_BIT, "reserved_bit[2]");
    (RESERVED_BIT, "reserved_bit[3]"); (RESERVED_BIT, "reserved_bit[4]");
    (RESERVED_BIT, "reserved_bit[5]"); (RESERVED_BIT, "reserved_bit[6]");
    (PAYLOAD_LENGTH, "payload_length"); (U_INT_8, "cfg_type"); (RESERVED_BYTE, "reserved_byte[0]");
    (U_INT_16, "identifier"); (PAYLOAD_LIST PLV1_CONFIGURATION_ATTRIBUTE, "attributes")].

Definition delete_payload_encodings_v2 : list encoding_rule_t :=
  [(U_INT_8, "next_payload"); (FLAG, "critical"); (RESERVED_BIT, "reserved[0]");
    (RESERVED_BIT, "reserved[1]"); (RESERVED_BIT, "reserved[2]"); (RESERVED_BIT, "reserved[3]");
    (RESERVED_BIT, "reserved[4]"); (RESERVED_BIT, "reserved[5]"); (RESERVED_BIT, "reserved[6]");
    (PAYLOAD_LENGTH, "payload_length"); (U_INT_8, "protocol_id"); (U_INT_8, "spi_size");
    (U_INT_16, "spi_count"); (CHUNK_DATA, "spis")].

Definition delete_payload_encodings_v1 : list encoding_rule_t :=
  [(U_INT_8, "next_payload"); (RESERVED_BIT, "reserved[0]"); (RESERVED_BIT, "reserved[1]");
    (RESERVED_BIT, "reserved[2]"); (RESERVED_BIT, "reserved[3]"); (RESERVED_BIT, "reserved[4]");
    (RESERVED_BIT, "reserved[5]"); (RESERVED_BIT, "reserved[6]"); (RESERVED_BIT, "reserved[7]");
    (PAYLOAD_LENGTH, "payload_length"); (U_INT_32, "doi"); (U_INT_8, "protocol_id");
    (U_INT_8, "spi_size"); (U_INT_16, "spi_count"); (CHUNK_DATA, "spis")].

Definition eap_payload_encodings : list encoding_rule_t :=
  [(U_INT_8, "next_payload"); (FLAG, "critical"); (RESERVED_BIT, "reserved[0]");
    (RESERVED_BIT, "reserved[1]"); (RESERVED_BIT, "reserved[2]"); (RESERVED_BIT, "reserved[3]");
    (RESERVED_BIT, "reserved[4]"); (RESERVED_BIT, "reserved[5]"); (RESERVED_BIT, "reserved[6]");
    (PAYLOAD_LENGTH, "payload_length"); (CHUNK_DATA, "data")].

Definition encrypted_payload_encodings_v2 : list encoding_rule_t :=
  [(U_INT_8, "next_payload"); (U_INT_8, "flags"); (PAYLOAD_LENGTH, "payload_length");
    (CHUNK_DATA, "encrypted")].

Definition encrypted_payload_encodings_v1 : list encoding_rule_t :=
  [(ENCRYPTED_DATA, "encrypted")].

Definition encrypted_payload_encodings_fragment : list encoding_rule_t :=
  [(U_INT_8, "next_payload"); (U_INT_8, "flags"); (PAYLOAD_LENGTH, "payload_length");
    (U_INT_16, "fragment_number"); (U_INT_16, "total_fragments"); (CHUNK_DATA, "encrypted")].

Definition fragment_payload_encodings : list encoding_rule_t :=
  [(U_INT_8, "next_payload"); (RESERVED_BYTE, "reserved"); (PAYLOAD_LENGTH, "payload_length");
    (U_INT_16, "fragment_id"); (U_INT_8, "fragment_number"); (U_INT_8, "flags");
    (CHUNK_DATA, "data")].

Definition hash_payload_encodings : list encoding_rule_t :=
  [(U_INT_8, "next_payload"); (RESERVED_BYTE, "reserved"); (PAYLOAD_LENGTH, "payload_length");
    (CHUNK_DATA, "hash")].

Definition id_payload_encodings_v2 : list encoding_rule_t :=
  [(U_INT_8, "next_payload"); (FLAG, "critical"); (RESERVED_BIT, "reserved_bit[0]");
    (RESERVED_BIT, "reserved_bit[1]"); (RESERVED_BIT, "reserved_bit[2]");
    (RESERVED_BIT, "reserved_bit[3]"); (RESERVED_BIT, "reserved_bit[4]");
    (RESERVED_BIT, "reserved_bit[5]"); (RESERVED_BIT, "reserved_bit[6]");
    (PAYLOAD_LENGTH, "payload_length"); (U_INT_8, "id_type"); (RESERVED_BYTE, "reserved_byte[0]");
    (RESERVED_BYTE, "reserved_byte[1]"); (RESERVED_BYTE, "reserved_byte[2]");
    (CHUNK_DATA, "id_data")].

Definition id_payload_encodings_v1 : list encoding_rule_t :=
  [(U_INT_8, "next_payload"); (RESERVED_BYTE, "reserved_byte[0]");
    (PAYLOAD_LENGTH, "payload_length"); (U_INT_8, "id_type"); (U_INT_8, "protocol_id");
    (U_INT_16, "port"); (CHUNK_DATA, "id_data")].

Definition ike_header_encodings : list encoding_rule_t :=
  [(IKE_SPI, "initiator_spi"); (IKE_SPI, "responder_spi"); (U_INT_8, "next_payload");
    (U_INT_4, "maj_version"); (U_INT_4, "min_version"); (U_INT_8, "exchange_type");
    (RESERVED_BIT, "reserved[0]"); (RESERVED_BIT, "reserved[1]"); (FLAG, "flags.response");
    (FLAG, "flags.version"); (FLAG, "flags.initiator"); (FLAG, "flags.authonly");
    (FLAG, "flags.commit"); (FLAG, "flags.encryption"); (U_INT_32, "message_id");
    (HEADER_LENGTH, "length")].

Definition ke_payload_encodings_v2 : list encoding_rule_t :=
  [(U_INT_8, "next_payload"); (FLAG, "critical"); (RESERVED_BIT, "reserved_bit[0]");
    (RESERVED_BIT, "reserved_bit[1]"); (RESERVED_BIT, "reserved_bit[2]");
    (RESERVED_BIT, "reserved_bit[3]"); (RESERVED_BIT, "reserved_bit[4]");
    (RESERVED_BIT, "reserved_bit[5]"); (RESERVED_BIT, "reserved_bit[6]");
    (PAYLOAD_LENGTH, "payload_length"); (U_INT_16, "dh_group_number");
    (RESERVED_BYTE, "reserved_byte[0]"); (RESERVED_BYTE, "reserved_byte[1]");
    (CHUNK_DATA, "key_exchange_data")].

Definition ke_payload_encodings_v1 : list encoding_rule_t :=
  [(U_INT_8, "next_payload"); (RESERVED_BYTE, "reserved_byte[0]");
    (PAYLOAD_LENGTH, "payload_length"); (CHUNK_DATA, "key_exchange_data")].

Definition nonce_payload_encodings : list encoding_rule_t :=
  [(U_INT_8, "next_payload"); (FLAG, "critical"); (RESERVED_BIT, "reserved[0]");
    (RESERVED_BIT, "reserved[1]"); (RESERVED_BIT, "reserved[2]"); (RESERVED_BIT, "reserved[3]");
    (RESERVED_BIT, "reserved[4]"); (RESERVED_BIT, "reserved[5]"); (RESERVED_BIT, "reserved[6]");
    (PAYLOAD_LENGTH, "payload_length"); (CHUNK_DATA, "nonce")].

Definition notify_payload_encodings_v2 : list encoding_rule_t :=
  [(U_INT_8, "next_payload"); (FLAG, "critical"); (RESERVED_BIT, "reserved[0]");
    (RESERVED_BIT, "reserved[1]"); (RESERVED_BIT, "reserved[2]"); (RESERVED_BIT, "reserved[3]");
    (RESERVED_BIT, "reserved[4]"); (RESERVED_BIT, "reserved[5]"); (RESERVED_BIT, "reserved[6]");
    (PAYLOAD_LENGTH, "payload_length"); (U_INT_8, "protocol_id"); (SPI_SIZE, "spi_size");
    (U_INT_16, "notify_type"); (SPI, "spi"); (CHUNK_DATA, "notify_data")].

Definition notify_payload_encodings_v1 : list encoding_rule_t :=
  [(U_INT_8, "next_payload"); (RESERVED_BIT, "reserved[0]"); (RESERVED_BIT, "reserved[1]");
    (RESERVED_BIT, "reserved[2]"); (RESERVED_BIT, "reserved[3]"); (RESERVED_BIT, "reserved[4]");
    (RESERVED_BIT, "reserved[5]"); (RESERVED_BIT, "reserved[6]"); (RESERVED_BIT, "reserved[7]");
    (PAYLOAD_LENGTH, "payload_length"); (U_INT_32, "doi"); (U_INT_8, "protocol_id");
    (SPI_SIZE, "spi_size"); (U_INT_16, "notify_type"); (SPI, "spi"); (CHUNK_DATA, "notify_data")].

Definition proposal_substructure_encodings_v1 : list encoding_rule_t :=
  [(U_INT_8, "next_payload"); (RESERVED_BYTE, "reserved"); (PAYLOAD_LENGTH, "proposal_length");
    (U_INT_8, "proposal_number"); (U_INT_8, "protocol_id"); (SPI_SIZE, "spi_size");
    (U_INT_8, "transforms_count"); (SPI, "spi");
    (PAYLOAD_LIST PLV1_TRANSFORM_SUBSTRUCTURE, "transforms")].

Definition proposal_substructure_encodings_v2 : list encoding_rule_t :=
  [(U_INT_8, "next_payload"); (RESERVED_BYTE, "reserved"); (PAYLOAD_LENGTH, "proposal_length");
    (U_INT_8, "proposal_number"); (U_INT_8, "protocol_id"); (SPI_SIZE, "spi_size");
    (U_INT_8, "transforms_count"); (SPI, "spi");
    (PAYLOAD_LIST PLV2_TRANSFORM_SUBSTRUCTURE, "transforms")].

Definition sa_payload_encodings_v1 : list encoding_rule_t :=
  [(U_INT_8, "next_payload"); (RESERVED_BIT, "reserved[0]"); (RESERVED_BIT, "reserved[1]");
    (RESERVED_BIT, "reserved[2]"); (RESERVED_BIT, "reserved[3]"); (RESERVED_BIT, "reserved[4]");
    (RESERVED_BIT, "reserved[5]"); (RESERVED_BIT, "reserved[6]"); (RESERVED_BIT, "reserved[7]");
    (PAYLOAD_LENGTH, "payload_length"); (U_INT_32, "doi"); (U_INT_32, "situation");
    (PAYLOAD_LIST PLV1_PROPOSAL_SUBSTRUCTURE, "proposals")].

Definition sa_payload_encodings_v2 : list encoding_rule_t :=
  [(U_INT_8, "next_payload"); (FLAG, "critical"); (RESERVED_BIT, "reserved[0]");
    (RESERVED_BIT, "reserved[1]"); (RESERVED_BIT, "reserved[2]"); (RESERVED_BIT, "reserved[3]");
    (RESERVED_BIT, "reserved[4]"); (RESERVED_BIT, "reserved[5]"); (RESERVED_BIT, "reserved[6]");
    (PAYLOAD_LENGTH, "payload_length"); (PAYLOAD_LIST PLV2_PROPOSAL_SUBSTRUCTURE, "proposals")].

Definition traffic_selector_substructure_encodings : list encoding_rule_t :=
  [(TS_TYPE, "ts_type"); (U_INT_8, "ip_protocol_id"); (PAYLOAD_LENGTH, "payload_length");
    (U_INT_16, "start_port"); (U_INT_16, "end_port"); (ADDRESS, "starting_address");
    (ADDRESS, "ending_address")].

Definition transform_attribute_encodings : list encoding_rule_t :=
  [(ATTRIBUTE_FORMAT, "attribute_format"); (ATTRIBUTE_TYPE, "attribute_type");
    (ATTRIBUTE_LENGTH_OR_VALUE, "attribute_length_or_value"); (ATTRIBUTE_VALUE, "attribute_value")].

Definition transform_substructure_encodings_v2 : list encoding_rule_t :=
  [(U_INT_8, "next_payload"); (RESERVED_BYTE, "reserved[0]"); (PAYLOAD_LENGTH, "transform_length");
    (U_INT_8, "transform_ton"); (RESERVED_BYTE, "reserved[1]"); (U_INT_16, "transform_id_v2");
    (PAYLOAD_LIST PLV2_TRANSFORM_ATTRIBUTE, "attributes")].

Definition transform_substructure_encodings_v1 : list encoding_rule_t :=
  [(U_INT_8, "next_payload"); (RESERVED_BYTE, "reserved[0]"); (PAYLOAD_LENGTH, "transform_length");
    (U_INT_8, "transform_ton"); (U_INT_8, "transform_id_v1"); (RESERVED_BYTE, "reserved[1]");
    (RESERVED_BYTE, "reserved[2]"); (PAYLOAD_LIST PLV1_TRANSFORM_ATTRIBUTE, "attributes")].

Definition ts_payload_encodings : list encoding_rule_t :=
  [(U_INT_8, "next_payload"); (FLAG, "critical"); (RESERVED_BIT, "reserved_bit[0]");
    (RESERVED_BIT, "reserved_bit[1]"); (RESERVED_BIT, "reserved_bit[2]");
    (RESERVED_BIT, "reserved_bit[3]"); (RESERVED_BIT, "reserved_bit[4]");
    (RESERVED_BIT, "reserved_bit[5]"); (RESERVED_BIT, "reserved_bit[6]");
    (PAYLOAD_LENGTH, "payload_length"); (U_INT_8, "ts_num"); (RESERVED_BYTE, "reserved_byte[0]");
    (RESERVED_BYTE, "reserved_byte[1]"); (RESERVED_BYTE, "reserved_byte[2]");
    (PAYLOAD_LIST PLV2_TRAFFIC_SELECTOR_SUBSTRUCTURE, "substrs")].

Definition unknown_payload_encodings : list encoding_rule_t :=
  [(U_INT_8, "next_payload"); (FLAG, "critical"); (RESERVED_BIT, "reserved[0]");
    (RESERVED_BIT, "reserved[1]"); (RESERVED_BIT, "reserved[2]"); (RESERVED_BIT, "reserved[3]");
    (RESERVED_BIT, "reserved[4]"); (RESERVED_BIT, "reserved[5]"); (RESERVED_BIT, "reserved[6]");
    (PAYLOAD_LENGTH, "payload_length"); (CHUNK_DATA, "data")].

Definition vendor_id_payload_encodings : list encoding_rule_t :=
  [(U_INT_8, "next_payload"); (FLAG, "critical"); (RESERVED_BIT, "reserved[0]");
    (RESERVED_BIT, "reserved[1]"); (RESERVED_BIT, "reserved[2]"); (RESERVED_BIT, "reserved[3]");
    (RESERVED_BIT, "reserved[4]"); (RESERVED_BIT, "reserved[5]"); (RESERVED_BIT, "reserved[6]");
    (PAYLOAD_LENGTH, "payload_length"); (CHUNK_DATA, "data")].

Local Close Scope string_scope.

(** ** Types as numbers *)

Definition payload_type_value (t : payload_type_t) : Z :=
  match t with
  | PL_NONE => 0
  | PLV1_SECURITY_ASSOCIATION => 1 | PLV1_PROPOSAL => 2 | PLV1_TRANSFORM => 3
  | PLV1_KEY_EXCHANGE => 4 | PLV1_ID => 5 | PLV1_CERTIFICATE => 6 | PLV1_CERTREQ => 7
  | PLV1_HASH => 8 | PLV1_SIGNATURE => 9 | PLV1_NONCE => 10 | PLV1_NOTIFY => 11
  | PLV1_DELETE => 12 | PLV1_VENDOR_ID => 13 | PLV1_CONFIGURATION => 14
  | PLV1_NAT_D => 20 | PLV1_NAT_OA => 21
  | PLV2_SECURITY_ASSOCIATION => 33 | PLV2_KEY_EXCHANGE => 34 | PLV2_ID_INITIATOR => 35
  | PLV2_ID_RESPONDER => 36 | PLV2_CERTIFICATE => 37 | PLV2_CERTREQ => 38 | PLV2_AUTH => 39
  | PLV2_NONCE => 40 | PLV2_NOTIFY => 41 | PLV2_DELETE => 42 | PLV2_VENDOR_ID => 43
  | PLV2_TS_INITIATOR => 44 | PLV2_TS_RESPONDER => 45 | PLV2_ENCRYPTED => 46
  | PLV2_CONFIGURATION => 47 | PLV2_EAP => 48 | PLV2_GSPM => 49 | PLV2_IDG => 50
  | PLV2_GSA => 51 | PLV2_KD => 52 | PLV2_FRAGMENT => 53
  | PLV1_NAT_D_DRAFT_00_03 => 130 | PLV1_NAT_OA_DRAFT_00_03 => 131 | PLV1_FRAGMENT => 132
  | PL_HEADER => 256 | PL_UNKNOWN => 257 | PLV2_PROPOSAL_SUBSTRUCTURE => 258
  | PLV1_PROPOSAL_SUBSTRUCTURE => 259 | PLV2_TRANSFORM_SUBSTRUCTURE => 260
  | PLV1_TRANSFORM_SUBSTRUCTURE => 261 | PLV2_TRANSFORM_ATTRIBUTE => 262
  | PLV1_TRANSFORM_ATTRIBUTE => 263 | PLV2_TRAFFIC_SELECTOR_SUBSTRUCTURE => 264
  | PLV2_CONFIGURATION_ATTRIBUTE => 265 | PLV1_CONFIGURATION_ATTRIBUTE => 266
  | PLV1_ENCRYPTED => 267
  | PL_OTHER n => n
  end.

Definition named_types : list payload_type_t :=
  [PL_NONE; PLV1_SECURITY_ASSOCIATION; PLV1_PROPOSAL; PLV1_TRANSFORM; PLV1_KEY_EXCHANGE; PLV1_ID;
   PLV1_CERTIFICATE; PLV1_CERTREQ; PLV1_HASH; PLV1_SIGNATURE; PLV1_NONCE; PLV1_NOTIFY; PLV1_DELETE;
   PLV1_VENDOR_ID; PLV1_CONFIGURATION; PLV1_NAT_D; PLV1_NAT_OA; PLV2_SECURITY_ASSOCIATION;
   PLV2_KEY_EXCHANGE; PLV2_ID_INITIATOR; PLV2_ID_RESPONDER; PLV2_CERTIFICATE; PLV2_CERTREQ; PLV2_AUTH;
   PLV2_NONCE; PLV2_NOTIFY; PLV2_DELETE; PLV2_VENDOR_ID; PLV2_TS_INITIATOR; PLV2_TS_RESPONDER;
   PLV2_ENCRYPTED; PLV2_CONFIGURATION; PLV2_EAP; PLV2_GSPM; PLV2_IDG; PLV2_GSA; PLV2_KD; PLV2_FRAGMENT;
   PLV1_NAT_D_DRAFT_00_03; PLV1_NAT_OA_DRAFT_00_03; PLV1_FRAGMENT; PL_HEADER; PL_UNKNOWN;
   PLV2_PROPOSAL_SUBSTRUCTURE; PLV1_PROPOSAL_SUBSTRUCTURE; PLV2_TRANSFORM_SUBSTRUCTURE;
   PLV1_TRANSFORM_SUBSTRUCTURE; PLV2_TRANSFORM_ATTRIBUTE; PLV1_TRANSFORM_ATTRIBUTE;
   PLV2_TRAFFIC_SELECTOR_SUBSTRUCTURE; PLV2_CONFIGURATION_ATTRIBUTE; PLV1_CONFIGURATION_ATTRIBUTE;
   PLV1_ENCRYPTED].

(** The type with a number, as read from a [next_payload] field. *)
Definition payload_type_of (n : Z) : payload_type_t :=
  from_option id (PL_OTHER n) (find (fun t => payload_type_value t =? n) named_types).

(** ** Objects *)

(** The class of an object: of a type the factory knows, or an unknown payload
    that stores the type it was received with. *)
Inductive payload_class :=
  | Known (type : payload_type_t)
  | Unknown (type : payload_type_t).

#[export] Instance payload_class_eq_dec : EqDecision payload_class.
Proof. solve_decision. Defined.

Inductive field :=
  | FInt (v : Z)
  | FBool (b : bool)
  | FChunk (c : chunk)
  | FList (l : list payload)
with payload := Payload (class : payload_class) (fields : list field).

Definition class_of (p : payload) : payload_class := let 'Payload c _ := p in c.
Definition fields_of (p : payload) : list field := let 'Payload _ fs := p in fs.

Definition get_type (p : payload) : payload_type_t :=
  match class_of p with Known t => t | Unknown _ => PL_UNKNOWN end.

(** [get_encoding_rules] of the classes. *)
Definition get_encoding_rules (c : payload_class) : list encoding_rule_t :=
  match c with
  | Unknown _ => unknown_payload_encodings
  | Known t =>
    match t with
    | PL_HEADER => ike_header_encodings
    | PLV2_SECURITY_ASSOCIATION => sa_payload_encodings_v2
    | PLV1_SECURITY_ASSOCIATION => sa_payload_encodings_v1
    | PLV2_PROPOSAL_SUBSTRUCTURE => proposal_substructure_encodings_v2
    | PLV1_PROPOSAL_SUBSTRUCTURE => proposal_substructure_encodings_v1
    | PLV2_TRANSFORM_SUBSTRUCTURE => transform_substructure_encodings_v2
    | PLV1_TRANSFORM_SUBSTRUCTURE => transform_substructure_encodings_v1
    | PLV2_TRANSFORM_ATTRIBUTE | PLV1_TRANSFORM_ATTRIBUTE => transform_attribute_encodings
    | PLV2_NONCE | PLV1_NONCE => nonce_payload_encodings
    | PLV2_ID_INITIATOR | PLV2_ID_RESPONDER => id_payload_encodings_v2
    | PLV1_ID | PLV1_NAT_OA | PLV1_NAT_OA_DRAFT_00_03 => id_payload_encodings_v1
    | PLV2_AUTH => auth_payload_encodings
    | PLV2_CERTIFICATE | PLV1_CERTIFICATE => cert_payload_encodings
    | PLV2_CERTREQ | PLV1_CERTREQ => certreq_payload_encodings
    | PLV2_TRAFFIC_SELECTOR_SUBSTRUCTURE => traffic_selector_substructure_encodings
    | PLV2_TS_INITIATOR | PLV2_TS_RESPONDER => ts_payload_encodings
    | PLV2_KEY_EXCHANGE => ke_payload_encodings_v2
    | PLV1_KEY_EXCHANGE => ke_payload_encodings_v1
    | PLV2_NOTIFY => notify_payload_encodings_v2
    | PLV1_NOTIFY => notify_payload_encodings_v1
    | PLV2_DELETE => delete_payload_encodings_v2
    | PLV1_DELETE => delete_payload_encodings_v1
    | PLV2_VENDOR_ID | PLV1_VENDOR_ID => vendor_id_payload_encodings
    | PLV1_HASH | PLV1_SIGNATURE | PLV1_NAT_D | PLV1_NAT_D_DRAFT_00_03 => hash_payload_encodings
    | PLV2_CONFIGURATION => cp_payload_encodings_v2
    | PLV1_CONFIGURATION => cp_payload_encodings_v1
    | PLV2_CONFIGURATION_ATTRIBUTE => configuration_attribute_encodings_v2
    | PLV1_CONFIGURATION_ATTRIBUTE => configuration_attribute_encodings_v1
    | PLV2_EAP => eap_payload_encodings
    | PLV2_ENCRYPTED => encrypted_payload_encodings_v2
    | PLV1_ENCRYPTED => encrypted_payload_encodings_v1
    | PLV1_FRAGMENT => fragment_payload_encodings
    | PLV2_FRAGMENT => encrypted_payload_encodings_fragment
    | _ => unknown_payload_encodings
    end
  end.

(** Access to a field by name, in the place of its offset; [None] for a name that is
    no field of the object. *)
Definition field_index (c : payload_class) (name : string) : option nat :=
  fst <$> list_find (fun r => snd r = name) (get_encoding_rules c).

Definition get_field (p : payload) (name : string) : option field :=
  i ← field_index (class_of p) name; fields_of p !! i.

Definition set_field (p : payload) (name : string) (v : field) : option payload :=
  i ← field_index (class_of p) name; Some (Payload (class_of p) (<[i := v]> (fields_of p))).

(** The value of an integer field. *)
Definition int_field (p : payload) (name : string) : Z :=
  match get_field p name with Some (FInt v) => v | _ => 0 end.

(** [get_header_length] of the classes. *)
Definition get_header_length (p : payload) : Z :=
  match class_of p with
  | Unknown _ => 4
  | Known t =>
    match t with
    | PL_HEADER => 28
    | PLV2_SECURITY_ASSOCIATION => 4
    | PLV1_SECURITY_ASSOCIATION => 12
    | PLV2_PROPOSAL_SUBSTRUCTURE | PLV1_PROPOSAL_SUBSTRUCTURE => 8 + int_field p "spi_size"
    | PLV2_TRANSFORM_SUBSTRUCTURE | PLV1_TRANSFORM_SUBSTRUCTURE => 8
    | PLV2_TRANSFORM_ATTRIBUTE | PLV1_TRANSFORM_ATTRIBUTE => 0
    | PLV2_ID_INITIATOR | PLV2_ID_RESPONDER | PLV1_ID | PLV1_NAT_OA | PLV1_NAT_OA_DRAFT_00_03 => 8
    | PLV2_AUTH => 8
    | PLV2_CERTIFICATE | PLV1_CERTIFICATE | PLV2_CERTREQ | PLV1_CERTREQ => 5
    | PLV2_TRAFFIC_SELECTOR_SUBSTRUCTURE | PLV2_TS_INITIATOR | PLV2_TS_RESPONDER => 8
    | PLV2_KEY_EXCHANGE => 8
    | PLV2_NOTIFY => 8 + int_field p "spi_size"
    | PLV1_NOTIFY => 12 + int_field p "spi_size"
    | PLV2_DELETE => 8
    | PLV1_DELETE => 12
    | PLV2_CONFIGURATION | PLV1_CONFIGURATION => 8
    | PLV1_ENCRYPTED => 0
    | PLV1_FRAGMENT | PLV2_FRAGMENT => 8
    | _ => 4                           (* KE (v1), nonce, vendor id, hash, EAP, attributes, SK *)
    end
  end.

(** The value a field is created with. *)
Definition initial_field (c : payload_class) (length : Z) (r : encoding_rule_t) : field :=
  let '(ty, name) := r in
  match ty with
  | RESERVED_BIT | FLAG | ATTRIBUTE_FORMAT => FBool false
  | SPI | ATTRIBUTE_VALUE | ADDRESS | CHUNK_DATA | ENCRYPTED_DATA => FChunk []
  | PAYLOAD_LIST _ => FList []
  | PAYLOAD_LENGTH | HEADER_LENGTH => FInt length
  | TS_TYPE => FInt 7                  (* TS_IPV4_ADDR_RANGE *)
  | _ =>
    FInt (if decide (name = "exchange_type"%string) then 255      (* EXCHANGE_TYPE_UNDEFINED *)
          else if decide (name = "doi"%string) then 1             (* IKEV1_DOI_IPSEC *)
          else if decide (name = "situation"%string) then 1       (* SIT_IDENTITY_ONLY *)
          else if decide (name = "cfg_type"%string) then 1        (* CFG_REQUEST *)
          else if decide (name = "spi_size"%string) then
            match c with Known PLV2_DELETE | Known PLV1_DELETE => 4 | _ => 0 end
          else 0)
  end.

Definition create_object (c : payload_class) : payload :=
  let empty := Payload c (initial_field c 0 <$> get_encoding_rules c) in
  Payload c (initial_field c (get_header_length empty) <$> get_encoding_rules c).

Definition payload_create (t : payload_type_t) : payload :=
  create_object match t with
    | PL_NONE | PLV1_PROPOSAL | PLV1_TRANSFORM | PLV2_GSPM | PLV2_IDG | PLV2_GSA | PLV2_KD
    | PL_UNKNOWN | PL_OTHER _ => Unknown t
    | _ => Known t
    end.

Definition unknown_payload_create (t : payload_type_t) : payload := create_object (Unknown t).

Definition payload_is_known (t : payload_type_t) (maj_ver : Z) : bool :=
  let type := payload_type_value t in
  let v1 := ((1 <=? type) && (type <=? 14)) || ((20 <=? type) && (type <=? 21))
            || ((130 <=? type) && (type <=? 132)) in
  let v2 := ((33 <=? type) && (type <=? 48)) || (type =? 53) in
  if 256 <=? type then true
  else if maj_ver =? 0 then v1 || v2
  else if maj_ver =? 1 then v1
  else if maj_ver =? 2 then v2
  else false.
