(* ===== verification/CodecParser.v ===== *)
(** The parser of [Codec] against the encoding: every rule, list and payload that is
    parsed is the encoding of what was made of it, every encoding is parsed, and no
    input leads outside of the tables or into a loop without end. *)
From S2P Require Import Prelude Payloads Codec.
From stdpp Require Import base numbers list option strings.
From Stdlib Require Import Lia ZArith.
Local Open Scope Z_scope.

(** ** The tables *)

(** Flags, half bytes and 15 bit integers fill whole bytes and nothing else starts
    within a byte; lists and encrypted data are last. *)
Fixpoint aligned (cnt : Z) (half : bool) (rules : list encoding_rule_t) : bool :=
  match rules with
  | [] => cnt =? 0
  | (ty, _) :: rules =>
    match ty with
    | RESERVED_BIT | FLAG | ATTRIBUTE_FORMAT => negb half && aligned ((cnt + 1) mod 8) false rules
    | U_INT_4 => if cnt =? 0 then aligned 4 true rules else (cnt =? 4) && half && aligned 0 false rules
    | ATTRIBUTE_TYPE => (cnt =? 1) && negb half && aligned 0 false rules
    | PAYLOAD_LIST _ | ENCRYPTED_DATA => (cnt =? 0) && bool_decide (rules = [])
    | _ => (cnt =? 0) && aligned 0 false rules
    end
  end.

(** The classes whose header length includes the SPI. *)
Definition has_spi (cls : payload_class) : bool :=
  match cls with
  | Known PLV2_PROPOSAL_SUBSTRUCTURE | Known PLV1_PROPOSAL_SUBSTRUCTURE | Known PLV2_NOTIFY
  | Known PLV1_NOTIFY => true
  | _ => false
  end.

Lemma tables_aligned cls : aligned 0 false (get_encoding_rules cls) = true.
Proof. destruct cls as [[]|]; vm_compute; reflexivity. Qed.

Lemma tables_nodup cls : NoDup (snd <$> get_encoding_rules cls).
Proof.
  apply (bool_decide_unpack (NoDup (snd <$> get_encoding_rules cls))).
  destruct cls as [[]|]; vm_compute; exact I.
Qed.

Lemma tables_spi_size cls : has_spi cls = true ->
  Forall (fun r : encoding_rule_t => fst r = SPI_SIZE <-> snd r = "spi_size"%string) (get_encoding_rules cls).
Proof.
  intros Hc. assert (forallb (fun r : encoding_rule_t => bool_decide (bool_decide (fst r = SPI_SIZE)
    = bool_decide (snd r = "spi_size"%string))) (get_encoding_rules cls) = true) as Hf
    by (destruct cls as [[]|]; try discriminate Hc; vm_compute; reflexivity).
  apply Forall_forall. intros r Hr. rewrite forallb_forall in Hf. apply list_elem_of_In in Hr.
  specialize (Hf r Hr). apply bool_decide_eq_true in Hf.
  rewrite <- (bool_decide_eq_true (fst r = SPI_SIZE)), <- (bool_decide_eq_true (snd r = _)). by rewrite Hf.
Qed.

Lemma header_length_const cls fs :
  has_spi cls = false -> get_header_length (Payload cls fs) = header_length cls 0.
Proof. destruct cls as [[]|]; intros Hc; try discriminate Hc; reflexivity. Qed.

Lemma header_length_spi p : has_spi (class_of p) = true ->
  get_header_length p = header_length (class_of p) (int_field p "spi_size").
Proof. destruct p as [[[]|] fs]; intros Hc; try discriminate Hc; reflexivity. Qed.

(** ** Fields *)

Lemma field_index_Some cls name i :
  field_index cls name = Some i -> exists ty, get_encoding_rules cls !! i = Some (ty, name).
Proof.
  unfold field_index. intros Hf. apply fmap_Some in Hf as ([j [ty n]] & Hf & ->).
  apply list_find_Some in Hf as (Hf & Hn & _). cbn in *. subst n. by exists ty.
Qed.

Lemma field_index_at cls done_ ty name todo :
  get_encoding_rules cls = done_ ++ (ty, name) :: todo -> field_index cls name = Some (length done_).
Proof.
  intros E. unfold field_index. rewrite E.
  match goal with |- fst <$> list_find ?P ?l = _ =>
    assert (list_find P l = Some (length done_, (ty, name))) as ->; [|done] end.
  apply list_find_Some. split_and!; [by rewrite list_lookup_middle|done|].
  intros j y Hy Hj Hn. rewrite lookup_app_l in Hy by done.
  pose proof (tables_nodup cls) as Hnd. rewrite E, fmap_app, fmap_cons in Hnd.
  apply NoDup_app in Hnd as (_ & Hd & _). apply (Hd name).
  - apply list_elem_of_fmap. exists y. split; [done|]. by eapply list_elem_of_lookup_2.
  - left.
Qed.

Lemma set_field_at cls done_ ty name todo fs f0 gs f :
  get_encoding_rules cls = done_ ++ (ty, name) :: todo -> length fs = length done_ ->
  set_field (Payload cls (fs ++ f0 :: gs)) name f = Some (Payload cls (fs ++ f :: gs)).
Proof.
  intros E Hl. unfold set_field. cbn [class_of fields_of]. rewrite (field_index_at _ _ _ _ _ E).
  cbn [mbind option_bind]. by rewrite <- Hl, insert_app_r_alt, Nat.sub_diag by lia.
Qed.

Lemma get_field_at cls done_ ty name todo fs f0 gs :
  get_encoding_rules cls = done_ ++ (ty, name) :: todo -> length fs = length done_ ->
  get_field (Payload cls (fs ++ f0 :: gs)) name = Some f0.
Proof.
  intros E Hl. unfold get_field. cbn [class_of fields_of]. rewrite (field_index_at _ _ _ _ _ E).
  cbn [mbind option_bind]. by rewrite <- Hl, list_lookup_middle.
Qed.

Lemma get_field_other cls done_ ty name todo fs f0 gs f name' :
  get_encoding_rules cls = done_ ++ (ty, name) :: todo -> length fs = length done_ -> name' <> name ->
  get_field (Payload cls (fs ++ f :: gs)) name' = get_field (Payload cls (fs ++ f0 :: gs)) name'.
Proof.
  intros E Hl Hn. unfold get_field. cbn [class_of fields_of].
  destruct (field_index cls name') as [i|] eqn:Hi; [|done]. cbn [mbind option_bind].
  apply field_index_Some in Hi as [ty' Hi]. destruct (decide (i = length fs)) as [->|Hne].
  - rewrite Hl, E, list_lookup_middle in Hi by done. by injection Hi as _ <-.
  - destruct (decide (i < length fs)%nat).
    + by rewrite !lookup_app_l.
    + rewrite !lookup_app_r by lia. destruct (i - length fs)%nat eqn:Ei; [lia|done].
Qed.

(** ** Positions in the input *)

(** [acc] is what the bits of the current byte in front of the position are. *)
Definition at_acc (st : parser) (acc : Z) : Prop :=
  0 <= p_bit st < 8 /\
  if p_bit st =? 0 then acc = 0
  else exists x t, p_rest st = x :: t /\ x / 2 ^ (8 - p_bit st) = acc.

Lemma at_acc_0 st : p_bit st = 0 -> at_acc st 0.
Proof. intros E. unfold at_acc. rewrite E. done. Qed.

(** The primitives, where no read is outside of the input. *)
Lemma read_within st n : (n <= length (p_rest st))%nat -> read st (Z.of_nat n) = Done (take n (p_rest st)).
Proof. intros. unfold read. by rewrite load_prefix. Qed.

Lemma beyond_roof_nat st n : beyond_roof st (Z.of_nat n) = (length (p_rest st) <? n)%nat.
Proof. unfold beyond_roof, get_remaining_byte_count. lia. Qed.

Lemma parse_uint4_eq st : parse_uint4 st =
  match p_rest st with
  | [] => Fails
  | b :: rest =>
    if p_bit st =? 0 then Done (Z.shiftr b 4, at_pos st 4 (b :: rest))
    else if p_bit st =? 4 then Done (Z.land b 15, at_pos st 0 rest)
    else Fails
  end.
Proof.
  unfold parse_uint4, read_byte, advance. rewrite (beyond_roof_nat st 1 : beyond_roof st 1 = _). by destruct (p_rest st).
Qed.

Lemma parse_bit_eq st : parse_bit st =
  match p_rest st with
  | [] => Fails
  | b :: rest =>
    Done (negb (Z.land b (Z.shiftl 1 (7 - p_bit st)) =? 0),
          at_pos st ((p_bit st + 1) mod 8) (if (p_bit st + 1) mod 8 =? 0 then rest else b :: rest))
  end.
Proof.
  unfold parse_bit, read_byte, advance. rewrite (beyond_roof_nat st 1 : beyond_roof st 1 = _). destruct (p_rest st) as [|b rest]; [done|].
  cbn [length Nat.ltb Nat.leb lookup list_lookup defined mbind outcome_bind].
  cbv zeta. by destruct (_ mod 8 =? 0).
Qed.

Lemma parse_uint15_eq st : parse_uint15 st =
  if (length (p_rest st) <? 2)%nat then Fails
  else if negb (p_bit st =? 1) then Fails
  else Done (Z.land (ntohs (le_value (take 2 (p_rest st)))) (Z.lnot 32768), at_pos st 0 (drop 2 (p_rest st))).
Proof.
  unfold parse_uint15. rewrite (beyond_roof_nat st 2 : beyond_roof st 2 = _). destruct (Nat.ltb_spec (length (p_rest st)) 2); [done|].
  destruct (negb _); [done|]. by rewrite (read_within st 2 ltac:(done) : read st 2 = _).
Qed.

Lemma parse_uint_eq n st : parse_uint n st =
  if (length (p_rest st) <? n)%nat then Fails
  else if negb (p_bit st =? 0) then Fails
  else Done (bswap n (le_value (take n (p_rest st))), at_pos st (p_bit st) (drop n (p_rest st))).
Proof.
  unfold parse_uint. rewrite beyond_roof_nat. destruct (Nat.ltb_spec (length (p_rest st)) n); [done|].
  destruct (negb _); [done|]. rewrite read_within by done. unfold advance. by rewrite Nat2Z.id.
Qed.

Lemma parse_chunk_eq st n : parse_chunk st (Z.of_nat n) =
  if (length (p_rest st) <? n)%nat then Fails
  else if negb (p_bit st =? 0) then Fails
  else Done (take n (p_rest st), at_pos st (p_bit st) (drop n (p_rest st))).
Proof.
  unfold parse_chunk. rewrite beyond_roof_nat. destruct (Nat.ltb_spec (length (p_rest st)) n); [done|].
  destruct (negb _); [done|]. rewrite read_within by done. unfold advance. by rewrite Nat2Z.id.
Qed.

Lemma parse_uint_sound n st v st' :
  bytes_ok (p_rest st) -> parse_uint n st = Done (v, st') ->
  p_bit st = 0 /\ 0 <= v < 256 ^ Z.of_nat n /\ p_rest st = be_bytes n v ++ p_rest st' /\
  st' = at_pos st 0 (p_rest st').
Proof.
  intros Hb. rewrite parse_uint_eq. destruct (Nat.ltb_spec (length (p_rest st)) n) as [|Hl]; [done|].
  destruct (Z.eqb_spec (p_bit st) 0) as [E|]; [|done]. cbn [negb]. intros [= <- <-]. rewrite E.
  rewrite untoh_be by done. assert (length (take n (p_rest st)) = n) as Hn by len.
  pose proof (be_value_range (take n (p_rest st)) ltac:(bytes)) as Hr. rewrite Hn in Hr.
  split; [done|]. split; [done|]. split; [|done]. cbn [at_pos p_rest].
  pose proof (be_bytes_value (take n (p_rest st)) ltac:(bytes)) as Hv. rewrite Hn in Hv.
  rewrite Hv. symmetry. apply take_drop.
Qed.

Lemma parse_uint_complete n st v tail :
  p_bit st = 0 -> 0 <= v < 256 ^ Z.of_nat n -> bytes_ok (p_rest st) ->
  p_rest st = be_bytes n v ++ tail -> parse_uint n st = Done (v, at_pos st 0 tail).
Proof.
  intros E Hv Hb Hr. rewrite parse_uint_eq. rewrite untoh_be by (done || (rewrite Hr; len)). rewrite E, Hr.
  destruct (Nat.ltb_spec (length (be_bytes n v ++ tail)) n); [len|]. cbn [Z.eqb negb].
  by rewrite take_app_length', drop_app_length', be_value_bytes, Z.mod_small by len.
Qed.

Lemma parse_uint8_uint st : bytes_ok (p_rest st) -> parse_uint8 st = parse_uint 1 st.
Proof.
  intros Hb. rewrite parse_uint_eq. unfold parse_uint8, read_byte, advance. rewrite (beyond_roof_nat st 1 : beyond_roof st 1 = _).
  destruct (p_rest st) as [|b t] eqn:E; [done|]. cbn [length Nat.ltb Nat.leb]. destruct (negb _); [done|].
  cbn [lookup list_lookup defined mbind outcome_bind].
  rewrite (untoh_be 1) by (done || (cbn; lia)). cbn [take drop be_value length]. f_equal. f_equal.
  rewrite take_0. cbn. lia.
Qed.

Lemma parse_chunk_sound n st b st' :
  parse_chunk st (Z.of_nat n) = Done (b, st') ->
  p_bit st = 0 /\ length b = n /\ p_rest st = b ++ p_rest st' /\ st' = at_pos st 0 (p_rest st').
Proof.
  rewrite parse_chunk_eq. destruct (Nat.ltb_spec (length (p_rest st)) n); [done|].
  destruct (Z.eqb_spec (p_bit st) 0) as [E|]; [|done]. cbn [negb]. intros [= <- <-]. rewrite E.
  split_and!; [done|len|symmetry; apply take_drop|done].
Qed.

Lemma parse_chunk_complete st b tail :
  p_bit st = 0 -> p_rest st = b ++ tail -> parse_chunk st (Z.of_nat (length b)) = Done (b, at_pos st 0 tail).
Proof.
  intros E Hr. rewrite parse_chunk_eq, E, Hr.
  destruct (Nat.ltb_spec (length (b ++ tail)) (length b)); [len|]. cbn [Z.eqb negb].
  by rewrite take_app_length, drop_app_length.
Qed.

(** The flag at the position is the lowest of the bits up to it. *)
Lemma flag_bit x k : 0 <= k < 8 -> 0 <= x ->
  Z.b2z (negb (Z.land x (Z.shiftl 1 (7 - k)) =? 0)) = (x / 2 ^ (7 - k)) mod 2.
Proof.
  intros Hk Hx. rewrite Z.shiftl_1_l, <- Z.shiftr_div_pow2, <- Z.bit0_mod, Z.shiftr_spec, Z.add_0_l by lia.
  destruct (Z.testbit x (7 - k)) eqn:Et.
  - assert (Z.land x (2 ^ (7 - k)) <> 0) as Hn; [|lia].
    intros H0. apply (f_equal (fun z => Z.testbit z (7 - k))) in H0.
    by rewrite Z.land_spec, Et, Z.pow2_bits_true, Z.bits_0 in H0 by lia.
  - assert (Z.land x (2 ^ (7 - k)) = 0) as ->; [|done].
    apply Z.bits_inj'. intros i Hi. rewrite Z.land_spec, Z.bits_0, Z.pow2_bits_eqb by lia.
    destruct (Z.eqb_spec (7 - k) i) as [<-|]; [by rewrite Et|apply andb_false_r].
Qed.

Lemma div_pow2_step x k : 0 <= k < 8 -> 0 <= x ->
  x / 2 ^ (7 - k) = 2 * (x / 2 ^ (8 - k)) + (x / 2 ^ (7 - k)) mod 2.
Proof.
  intros Hk Hx. replace (8 - k) with (7 - k + 1) by lia.
  rewrite Z.pow_add_r, <- Z.div_div by lia. apply Z.div_mod. lia.
Qed.

(** ** Lists of substructures *)

(** What is needed of the parser [sub] of substructures and of their encoding. *)
Record sub_spec (sub : parser -> payload_type_t -> outcome (payload * parser))
    (enc : payload -> option chunk) (t : payload_type_t) : Prop := SubSpec {
  sub_safe st : p_bit st = 0 -> bytes_ok (p_rest st) -> sub st t <> Undefined;
  sub_sound st p st' : p_bit st = 0 -> bytes_ok (p_rest st) -> sub st t = Done (p, st') ->
    class_of p = Known t /\ p_bit st' = 0 /\ p_major_version st' = p_major_version st /\
    exists b, enc p = Some b /\ b <> [] /\ p_rest st = b ++ p_rest st';
  sub_complete st p b tail : p_bit st = 0 -> bytes_ok (p_rest st) -> class_of p = Known t ->
    enc p = Some b -> p_rest st = b ++ tail -> exists st', sub st t = Done (p, st') /\ p_rest st' = tail;
}.
Arguments sub_safe {_ _ _}. Arguments sub_sound {_ _ _}. Arguments sub_complete {_ _ _}.

Section Lists.
Context (sub : parser -> payload_type_t -> outcome (payload * parser)) (enc : payload -> option chunk).
Context (t : payload_type_t) (Hsub : sub_spec sub enc t).

Lemma parse_list_sound fuel st len l l' st' :
  p_bit st = 0 -> bytes_ok (p_rest st) ->
  parse_list_loop fuel (fun st => sub st t) st len l = Done (l', st') ->
  p_bit st' = 0 /\ p_major_version st' = p_major_version st /\
  exists ps bs, l' = l ++ ps /\ encode_list enc ps = Some bs /\ Z.of_nat (length bs) = len /\
    p_rest st = bs ++ p_rest st' /\ forallb (fun p => bool_decide (class_of p = Known t)) ps = true.
Proof using Hsub.
  revert st len l. induction fuel as [|fuel IH]; intros st len l Hb Hok; [done|]. cbn [parse_list_loop].
  destruct (0 <? len) eqn:Hlen.
  - destruct (sub st t) as [[p st1]| |] eqn:E; [|done|done]. intros H. cbn in H.
    apply (sub_sound Hsub) in E as (Hc & Hb1 & Hm & b & Henc & _ & Hr); [|done|done].
    assert (bytes_ok (p_rest st1)) as Hok1 by (rewrite Hr in Hok; by apply Forall_app in Hok as [_ ?]).
    apply IH in H as (? & Hm' & ps & bs & -> & Hps & Hl & Hr' & Hcs); [|done|done].
    split; [done|]. split; [congruence|]. exists (p :: ps), (b ++ bs).
    rewrite <- app_assoc. cbn [encode_list forallb]. rewrite Henc, Hps, Hcs, bool_decide_eq_true_2 by done.
    rewrite Hr, Hr' in Hl |- *. split_and!; try done; [len|by rewrite app_assoc].
  - destruct (Z.eqb_spec len 0) as [->|]; [|done]. intros [= <- <-].
    split; [done|]. split; [done|]. exists [], []. by rewrite app_nil_r.
Qed.

Lemma parse_list_safe fuel st len l :
  p_bit st = 0 -> bytes_ok (p_rest st) -> (length (p_rest st) < fuel)%nat ->
  parse_list_loop fuel (fun st => sub st t) st len l <> Undefined.
Proof using Hsub.
  revert st len l. induction fuel as [|fuel IH]; intros st len l Hb Hok Hf; [lia|]. cbn [parse_list_loop].
  split_ifs; try done. destruct (sub st t) as [[p st1]| |] eqn:E; [|done|by apply (sub_safe Hsub) in E].
  apply (sub_sound Hsub) in E as (_ & Hb1 & _ & b & _ & Hne & Hr); [|done|done].
  rewrite Hr in Hok, Hf. apply Forall_app in Hok as [_ ?]. destruct b; [done|]. apply IH; [done|done|len].
Qed.

Lemma parse_list_complete ps : forall fuel st l bs tail,
  p_bit st = 0 -> bytes_ok (p_rest st) -> (length (p_rest st) < fuel)%nat ->
  encode_list enc ps = Some bs -> p_rest st = bs ++ tail ->
  forallb (fun p => bool_decide (class_of p = Known t)) ps = true ->
  exists st', parse_list_loop fuel (fun st => sub st t) st (Z.of_nat (length bs)) l = Done (l ++ ps, st')
    /\ p_rest st' = tail.
Proof using Hsub.
  induction ps as [|p ps IH]; intros [|fuel] st l bs tail Hb Hok Hf Henc Hr Hc; try lia.
  - injection Henc as <-. exists st. by rewrite app_nil_r.
  - cbn [encode_list forallb] in Henc, Hc. apply andb_true_iff in Hc as [Hp Hc].
    apply bool_decide_eq_true in Hp. destruct (enc p) as [b|] eqn:Eb; [|done].
    destruct (encode_list enc ps) as [bs'|] eqn:Ebs; [|done]. injection Henc as <-.
    rewrite <- app_assoc in Hr. destruct (sub_complete Hsub st p b (bs' ++ tail)) as (st1 & E & Hr1); try done.
    pose proof E as E'. apply (sub_sound Hsub) in E' as (_ & Hb1 & _ & b' & Eb' & Hne & _); [|done|done].
    rewrite Eb in Eb'. injection Eb' as <-. cbn [parse_list_loop].
    replace (0 <? Z.of_nat (length (b ++ bs'))) with true by (destruct b; [done|symmetry; len]).
    rewrite E. cbn. replace (Z.of_nat (length (b ++ bs')) - _) with (Z.of_nat (length bs'))
      by (rewrite Hr, Hr1; len).
    rewrite Hr in Hok, Hf. apply Forall_app in Hok as [_ Hok].
    destruct (IH fuel st1 (l ++ [p]) bs' tail) as (st2 & E2 & Hr2); try done; try (by rewrite Hr1).
    + rewrite Hr1. destruct b; [done|]. len.
    + exists st2. by rewrite E2, <- app_assoc.
Qed.
End Lists.

(** ** Single fields *)
Section Fields.
Context (sub : parser -> payload_type_t -> outcome (payload * parser)) (enc : payload -> option chunk).
Context (cls : payload_class).

(** What holds when a rule is interpreted: of the object filled and of the local
    variables. *)
Record ready (c : context) (pld : payload) (st : parser) (ty : encoding_type_t) (name : string) : Prop := Ready {
  ready_bytes : bytes_ok (p_rest st);
  ready_length : get_header_length pld = header_length cls (spi_size c);
  ready_spi_size : 0 <= spi_size c;
  ready_attribute_length : 0 <= attribute_length c;
  ready_field : exists hl, get_field pld name = Some (initial_field cls hl (ty, name));
  ready_bit : ty = ATTRIBUTE_VALUE -> p_bit st = 0;
  ready_sub t : ty = PAYLOAD_LIST t -> sub_spec sub enc t;
}.

(** The field [f] is what the input has at the position, [st'] is the position after it. *)
Definition advances (c : context) (st : parser) (acc : Z) (ty : encoding_type_t) (f : field) (st' : parser)
    : Prop :=
  p_major_version st' = p_major_version st /\
  ((forall t, ty <> PAYLOAD_LIST t) -> p_rules st' = p_rules st) /\
  exists out acc', encode_field enc cls c acc (p_bit st) ty f = Some (out, acc', p_bit st') /\
    p_rest st = out ++ p_rest st' /\ at_acc st' acc'.

Lemma parse_rule_int c pld st ty name n : int_width ty = Some n -> bytes_ok (p_rest st) ->
  parse_rule sub c pld st ty name =
  '(v, st) ← parse_uint n st;
  if bool_decide (ty = PAYLOAD_LENGTH) && (v <? 4) then Fails
  else Done (next_ctx c ty (FInt v), FInt v, st).
Proof.
  intros Hw Hb. destruct ty; try discriminate Hw; injection Hw as <-; cbn [parse_rule];
    rewrite ?parse_uint8_uint by done; by destruct (parse_uint _ st) as [[v st']| |].
Qed.

Lemma encode_field_int c acc cnt ty n v : int_width ty = Some n ->
  encode_field enc cls c acc cnt ty (FInt v) =
  if in_range v (256 ^ Z.of_nat n) && (cnt =? 0) && negb (bool_decide (ty = PAYLOAD_LENGTH) && (v <? 4))
  then Some (be_bytes n v, 0, 0) else None.
Proof. destruct ty; intros [= <-]; reflexivity. Qed.

Lemma parse_rule_flag c pld st ty name : is_flag ty = true ->
  parse_rule sub c pld st ty name = '(b, st) ← parse_bit st; Done (next_ctx c ty (FBool b), FBool b, st).
Proof. destruct ty; intros Hf; try discriminate Hf; cbn [parse_rule]; by destruct (parse_bit st) as [[b st']| |]. Qed.

Lemma in_range_true v n : in_range v n = true <-> 0 <= v < n.
Proof. unfold in_range. lia. Qed.

Lemma advances_int c st acc ty n v st' : int_width ty = Some n -> bytes_ok (p_rest st) ->
  parse_uint n st = Done (v, st') -> bool_decide (ty = PAYLOAD_LENGTH) && (v <? 4) = false ->
  advances c st acc ty (FInt v) st'.
Proof.
  intros Hw Hb E Hpl. apply parse_uint_sound in E as (Hb0 & Hv & Hr & Hst); [|done].
  split; [by rewrite Hst|]. split; [by rewrite Hst|]. exists (be_bytes n v), 0.
  rewrite (encode_field_int _ _ _ _ _ _ Hw), Hpl, (proj2 (in_range_true _ _) Hv), Hb0, Hst.
  split; [done|]. split; [done|]. by apply at_acc_0.
Qed.

Lemma advances_flag c st acc ty b st' : is_flag ty = true -> bytes_ok (p_rest st) -> at_acc st acc ->
  parse_bit st = Done (b, st') -> advances c st acc ty (FBool b) st'.
Proof.
  intros Hf Hb [Hbit Hacc]. rewrite parse_bit_eq. destruct (p_rest st) as [|x t] eqn:Er; [done|].
  intros [= <- <-]. apply Forall_cons in Hb as [Hx _]. unfold byte_ok in Hx.
  assert (acc = x / 2 ^ (8 - p_bit st)) as ->.
  { destruct (Z.eqb_spec (p_bit st) 0) as [E|]; [|destruct Hacc as (x' & t' & [= -> ->] & <-); done].
    rewrite E in *. subst acc. symmetry. by apply Z.div_small. }
  split; [done|]. split; [done|]. cbn [encode_field]. rewrite Hf. cbn [negb at_pos p_bit p_rest].
  rewrite flag_bit, <- div_pow2_step by lia. destruct (Z.eqb_spec (p_bit st) 7) as [E|E].
  - exists [x], 0. rewrite E, Er. change (2 ^ (7 - 7)) with 1. rewrite Z.div_1_r.
    split; [done|]. split; [done|]. by apply at_acc_0.
  - exists [], (x / 2 ^ (7 - p_bit st)). rewrite Z.mod_small by lia.
    replace (p_bit st + 1 =? 0) with false by lia. rewrite Er. split; [done|]. split; [done|].
    split; cbn [at_pos p_bit p_rest]; [lia|]. replace (p_bit st + 1 =? 0) with false by lia.
    exists x, t. split; [done|]. f_equal. f_equal. lia.
Qed.

Lemma advances_uint4 c st acc v st' : bytes_ok (p_rest st) -> at_acc st acc ->
  parse_uint4 st = Done (v, st') -> advances c st acc U_INT_4 (FInt v) st'.
Proof.
  intros Hb [_ Hacc]. rewrite parse_uint4_eq. destruct (p_rest st) as [|x t] eqn:Er; [done|].
  apply Forall_cons in Hb as [Hx _]. unfold byte_ok in Hx.
  destruct (Z.eqb_spec (p_bit st) 0) as [E|]; [|destruct (Z.eqb_spec (p_bit st) 4) as [E|]; [|done]];
    intros [= <- <-]; (split; [done|]); (split; [done|]); cbn [encode_field at_pos p_bit p_rest]; rewrite Er, E.
  - rewrite Z.shiftr_div_pow2 by lia. change (2 ^ 4) with 16.
    rewrite (proj2 (in_range_true _ _)) by (split; [apply Z.div_pos|apply Z.div_lt_upper_bound]; lia).
    exists [], (x / 16). split; [done|]. split; [done|]. split; [cbn; lia|]. by exists x, t.
  - rewrite E in Hacc. destruct Hacc as (x' & t' & [= -> ->] & <-). change (Z.land x' 15) with (Z.land x' (Z.ones 4)).
    rewrite Z.land_ones by lia. change (2 ^ (8 - 4)) with 16. change (2 ^ 4) with 16.
    rewrite (proj2 (in_range_true _ _)) by (apply Z.mod_pos_bound; lia). cbn [negb Z.eqb Pos.eqb].
    exists [x'], 0. rewrite <- Z.div_mod by lia. split; [done|]. split; [done|]. by apply at_acc_0.
Qed.

Lemma low15 v : 0 <= v < 65536 -> Z.land v (Z.lnot 32768) = v mod 32768.
Proof.
  intros Hv. change 32768 with (2 ^ 15). rewrite <- Z.land_ones by lia.
  apply Z.bits_inj'. intros i Hi. rewrite !Z.land_spec, Z.lnot_spec, Z.pow2_bits_eqb, Z.testbit_ones_nonneg by lia.
  destruct (decide (i < 16)); [|by rewrite (testbit_above v 16) by (simpl; lia)].
  f_equal. lia.
Qed.

Lemma advances_type c st acc v st' : bytes_ok (p_rest st) -> at_acc st acc ->
  parse_uint15 st = Done (v, st') -> advances c st acc ATTRIBUTE_TYPE (FInt v) st'.
Proof.
  intros Hb [_ Hacc]. rewrite parse_uint15_eq. destruct (Nat.ltb_spec (length (p_rest st)) 2) as [|Hl]; [done|].
  destruct (Z.eqb_spec (p_bit st) 1) as [E|]; [|done]. cbn [negb]. rewrite untoh_be by (done || lia).
  rewrite E in Hacc. destruct Hacc as (x & t & Er & <-). rewrite Er in *. destruct t as [|y t]; [cbn in Hl; lia|].
  assert (bytes_ok [x; y]) as Hxy by (apply Forall_take with (n := 2%nat) in Hb; done).
  cbn [take drop]. pose proof (be_value_range [x; y] Hxy) as Hv.
  change (256 ^ Z.of_nat (length [x; y])) with 65536 in Hv. rewrite take_0, drop_0, low15 by done.
  intros [= <- <-]. do 2 (split; [done|]). exists [x; y], 0. cbn [encode_field at_pos p_bit p_rest]. rewrite E, Er.
  rewrite (proj2 (in_range_true _ _)) by (apply Z.mod_pos_bound; lia). cbn [andb Z.eqb Pos.eqb].
  split; [|split; [done|by apply at_acc_0]]. f_equal. f_equal. f_equal.
  transitivity (be_bytes 2 (be_value [x; y])); [|exact (be_bytes_value [x; y] Hxy)]. f_equal.
  inversion Hb as [|? ? Hx Ht]; subst. inversion Ht as [|? ? Hy _]; subst. unfold byte_ok in *.
  assert (x / 2 ^ (8 - 1) = be_value [x; y] / 32768) as ->.
  { cbn. change 32768 with (256 * 128). rewrite <- Z.div_div by lia. f_equal.
    rewrite Z.mul_1_r, Z.add_0_r, Z.add_comm, Z.div_add by lia. by rewrite Z.div_small. }
  symmetry. apply Z.div_mod. lia.
Qed.

Lemma advances_chunk c st acc ty b st' : bytes_ok (p_rest st) ->
  parse_chunk st (Z.of_nat (length b)) = Done (b, st') -> chunk_fits cls c ty (length b) = true ->
  advances c st acc ty (FChunk b) st'.
Proof.
  intros Hb E Hc. apply parse_chunk_sound in E as (E & _ & Hr & Hst).
  split; [by rewrite Hst|]. split; [by rewrite Hst|]. exists b, 0. cbn [encode_field].
  rewrite Hr in Hb. apply Forall_app in Hb as [Hb _].
  rewrite Hc, bool_decide_eq_true_2, E, Hst by done. split; [done|]. split; [done|]. by apply at_acc_0.
Qed.

Lemma advances_spi c st acc b st' : bytes_ok (p_rest st) ->
  parse_chunk st (Z.of_nat 8) = Done (b, st') -> advances c st acc IKE_SPI (FInt (le_value b)) st'.
Proof.
  intros Hb E. apply parse_chunk_sound in E as (E & Hl & Hr & Hst).
  split; [by rewrite Hst|]. split; [by rewrite Hst|]. rewrite Hr in Hb. apply Forall_app in Hb as [Hb _].
  pose proof (be_value_range (reverse b) ltac:(by apply Forall_reverse)) as Hv.
  rewrite length_reverse, Hl in Hv. change (Z.of_nat 8) with 8 in Hv. exists b, 0. cbn [encode_field].
  unfold le_value. rewrite (proj2 (in_range_true _ _) Hv), E, Hst. cbn [andb Z.eqb].
  split; [|split; [done|by apply at_acc_0]]. f_equal. f_equal. f_equal. unfold le_image.
  rewrite <- Hl, <- (length_reverse b), be_bytes_value by (by apply Forall_reverse). apply reverse_involutive.
Qed.

(** The length of the chunk read for a rule. *)
Definition chunk_size (c : context) (pld : payload) (st : parser) (ty : encoding_type_t) : option Z :=
  match ty with
  | SPI => Some (spi_size c)
  | CHUNK_DATA =>
    if payload_length c <? get_header_length pld then None
    else Some (payload_length c - get_header_length pld)
  | ENCRYPTED_DATA => Some (Z.of_nat (length (p_rest st)))
  | ADDRESS => Some (if ts_type c =? 7 then 4 else 16)
  | ATTRIBUTE_VALUE => if attribute_format c then None else Some (attribute_length c)
  | _ => None
  end.

Lemma chunk_size_nonneg c pld st ty name n :
  ready c pld st ty name -> chunk_size c pld st ty = Some n -> 0 <= n.
Proof.
  intros [_ _ ? ? _ _ _]. destruct ty; cbn; intros; split_ifs; simplify_eq; lia.
Qed.

Lemma chunk_size_fits c pld st ty name n :
  ready c pld st ty name -> chunk_size c pld st ty = Some n ->
  chunk_fits cls c ty (Z.to_nat n) = true.
Proof.
  intros Hr Hn. pose proof (chunk_size_nonneg _ _ _ _ _ _ Hr Hn). destruct Hr as [_ Hhl _ _ _ _ _].
  destruct ty; try discriminate Hn; cbn [chunk_size chunk_fits] in *; rewrite ?Hhl in Hn; split_ifs;
    simplify_eq; lia.
Qed.

Lemma parse_rule_chunk c pld st ty name n : chunk_size c pld st ty = Some n ->
  parse_rule sub c pld st ty name =
  '(b, st) ← parse_chunk st n; Done (next_ctx c ty (FChunk b), FChunk b, st).
Proof.
  destruct ty; intros Hn; try discriminate Hn; cbn [chunk_size parse_rule next_ctx] in *; split_ifs;
    simplify_eq; rewrite ?Nat2Z.id; done.
Qed.

Lemma advances_list c pld st acc t name l st' : ready c pld st (PAYLOAD_LIST t) name -> at_acc st acc ->
  get_header_length pld <= payload_length c ->
  parse_list (fun st => sub st t) st (payload_length c - get_header_length pld) [] = Done (l, st') ->
  advances c st acc (PAYLOAD_LIST t) (FList l) st'.
Proof.
  intros [Hb Hhl _ _ _ _ Hsub] Hacc Hl. unfold parse_list. split_ifs; [done|done|]. intros E.
  assert (p_bit st = 0) as Hbit by lia.
  eapply parse_list_sound in E as (Hbit' & Hm & ps & bs & -> & He & Hlen & Hr & Hc); [|by apply Hsub|done|done].
  split; [done|]. split; [intros Hn; by destruct (Hn t)|]. exists bs, 0. cbn [encode_field app]. unfold encode_sub.
  rewrite Hbit, Hbit', He. cbn [Z.eqb mbind option_bind]. rewrite Hc, Hlen, Hhl, Z.eqb_refl.
  split; [done|]. split; [done|]. by apply at_acc_0.
Qed.

Lemma parse_rule_sound c pld st acc ty name c' f st' : ready c pld st ty name -> at_acc st acc ->
  parse_rule sub c pld st ty name = Done (c', f, st') ->
  c' = next_ctx c ty f /\ advances c st acc ty f st'.
Proof.
  intros Hrd Hacc. pose proof (ready_bytes _ _ _ _ _ Hrd) as Hb.
  destruct (int_width ty) as [n|] eqn:Hw.
  { rewrite (parse_rule_int _ _ _ _ _ _ Hw Hb). destruct (parse_uint n st) as [[v st1]| |] eqn:E; [|done|done].
    cbn. destruct (_ && _) eqn:Hp; [done|]. intros [= <- <- <-]. split; [done|]. by eapply advances_int. }
  destruct (is_flag ty) eqn:Hf.
  { rewrite parse_rule_flag by done. destruct (parse_bit st) as [[b st1]| |] eqn:E; [|done|done].
    intros [= <- <- <-]. split; [done|]. by apply advances_flag. }
  destruct (chunk_size c pld st ty) as [n|] eqn:Hn.
  { rewrite (parse_rule_chunk _ _ _ _ _ _ Hn).
    destruct (parse_chunk st n) as [[b st1]| |] eqn:E; [|done|done].
    intros [= <- <- <-]. split; [done|]. pose proof (chunk_size_fits _ _ _ _ _ _ Hrd Hn) as Hfit.
    pose proof (chunk_size_nonneg _ _ _ _ _ _ Hrd Hn). rewrite <- (Z2Nat.id n) in E by done.
    pose proof (parse_chunk_sound _ _ _ _ E) as (_ & Hl & _).
    rewrite <- Hl in E, Hfit. by apply advances_chunk. }
  destruct ty; try discriminate Hw; try discriminate Hf; try discriminate Hn; cbn [parse_rule chunk_size] in *.
  - destruct (parse_uint4 st) as [[v st1]| |] eqn:E; [|done|done]. intros [= <- <- <-].
    split; [done|]. by apply advances_uint4.
  - destruct (parse_uint15 st) as [[v st1]| |] eqn:E; [|done|done]. intros [= <- <- <-].
    split; [done|]. by apply advances_type.
  - destruct (attribute_format c) eqn:Ha; [|done]. destruct Hrd as [_ _ _ _ [hl Hfld] Hbit _].
    rewrite Hfld. intros [= <- <- <-]. split; [done|]. specialize (Hbit eq_refl). do 2 (split; [done|]).
    exists [], 0. cbn. rewrite Ha, Hbit. split; [done|]. split; [done|]. by apply at_acc_0.
  - by destruct (_ <? _) eqn:Hpl.
  - destruct (parse_chunk st 8) as [[b st1]| |] eqn:E; [|done|done]. intros [= <- <- <-].
    split; [done|]. by apply advances_spi.
  - destruct (_ <? _) eqn:Hpl; [done|]. pose proof (ready_field _ _ _ _ _ Hrd) as [hl ->]. cbn [initial_field].
    cbn [mbind outcome_bind].
    destruct (parse_list _ _ _ _) as [[l st1]| |] eqn:E; [|done|done]. intros [= <- <- <-]. split; [done|].
    eapply advances_list; [done|done|lia|done].
Qed.

(** No primitive reads outside of the input. *)
Lemma parse_uint_safe n st : parse_uint n st <> Undefined.
Proof. rewrite parse_uint_eq. by split_ifs. Qed.

Lemma parse_chunk_safe st len : 0 <= len -> parse_chunk st len <> Undefined.
Proof. intros. rewrite <- (Z2Nat.id len), parse_chunk_eq by done. by split_ifs. Qed.

Lemma parse_bits_safe st : parse_uint4 st <> Undefined /\ parse_uint15 st <> Undefined /\ parse_bit st <> Undefined.
Proof.
  rewrite parse_uint4_eq, parse_uint15_eq, parse_bit_eq. split_and!; [|by split_ifs|by destruct (p_rest st)].
  destruct (p_rest st); [done|]. by split_ifs.
Qed.

Lemma parse_rule_safe c pld st ty name :
  ready c pld st ty name -> parse_rule sub c pld st ty name <> Undefined.
Proof.
  intros Hrd. pose proof (ready_bytes _ _ _ _ _ Hrd) as Hb.
  destruct (parse_bits_safe st) as (H4 & H15 & Hbit). destruct (int_width ty) as [n|] eqn:Hw.
  { rewrite (parse_rule_int _ _ _ _ _ _ Hw Hb). pose proof (parse_uint_safe n st).
    destruct (parse_uint n st) as [[v st1]| |]; [|done|done]. cbn. by split_ifs. }
  destruct (is_flag ty) eqn:Hf; [rewrite parse_rule_flag by done; by destruct (parse_bit st) as [[]| |]|].
  destruct (chunk_size c pld st ty) as [n|] eqn:Hn.
  { rewrite (parse_rule_chunk _ _ _ _ _ _ Hn). pose proof (parse_chunk_safe st n (chunk_size_nonneg _ _ _ _ _ _ Hrd Hn)).
    by destruct (parse_chunk st n) as [[]| |]. }
  destruct Hrd as [_ _ _ _ [hl Hfld] _ Hsub].
  destruct ty; try discriminate Hw; try discriminate Hf; try discriminate Hn; cbn [parse_rule chunk_size] in *;
    rewrite ?Hfld; split_ifs; try done.
  - by destruct (parse_uint4 st) as [[]| |].
  - by destruct (parse_uint15 st) as [[]| |].
  - pose proof (parse_chunk_safe st 8 ltac:(done)). by destruct (parse_chunk st 8) as [[]| |].
  - cbn [mbind outcome_bind initial_field]. unfold parse_list. split_ifs; [done|done|].
    destruct (parse_list_loop _ _ _ _ _) as [[l st1]| |] eqn:E; [done|done|].
    eapply parse_list_safe in E; [done|by apply Hsub|lia|done|lia].
Qed.

Lemma complete_flag c st acc ty b out acc' cnt' tail :
  bytes_ok (p_rest st) -> at_acc st acc -> at_acc (at_pos st cnt' tail) acc' ->
  encode_field enc cls c acc (p_bit st) ty (FBool b) = Some (out, acc', cnt') -> p_rest st = out ++ tail ->
  parse_bit st = Done (b, at_pos st cnt' tail).
Proof.
  intros Hb [Hbit _] Hacc'. cbn [encode_field]. destruct (is_flag ty); [|done]. cbn [negb]. rewrite parse_bit_eq.
  assert (forall x, byte_ok x -> x / 2 ^ (7 - p_bit st) = 2 * acc + Z.b2z b ->
    negb (Z.land x (Z.shiftl 1 (7 - p_bit st)) =? 0) = b) as Hflag.
  { intros x Hx E. apply Z.b2z_inj. rewrite flag_bit, E by (unfold byte_ok in Hx; lia).
    rewrite Z.add_comm, Z.mul_comm, Z_mod_plus_full. by destruct b. }
  destruct (Z.eqb_spec (p_bit st) 7) as [E|E]; intros [= <- <- <-] Hr; cbn [app] in Hr.
  - rewrite Hr in Hb |- *. apply Forall_cons in Hb as [Hx _].
    rewrite Hflag; [by rewrite E|done|]. rewrite E. apply Z.div_1_r.
  - destruct Hacc' as [_ Hacc']. cbn [at_pos p_bit p_rest] in Hacc'.
    replace (p_bit st + 1 =? 0) with false in Hacc' by lia. destruct Hacc' as (x & t & -> & Hx).
    rewrite Hr in Hb |- *. apply Forall_cons in Hb as [Hb _].
    rewrite Hflag; [|done|by rewrite <- Hx; f_equal; f_equal; lia].
    rewrite Z.mod_small by lia. by replace (p_bit st + 1 =? 0) with false by lia.
Qed.

Lemma complete_uint4 c st acc v out acc' cnt' tail :
  at_acc st acc -> at_acc (at_pos st cnt' tail) acc' ->
  encode_field enc cls c acc (p_bit st) U_INT_4 (FInt v) = Some (out, acc', cnt') -> p_rest st = out ++ tail ->
  parse_uint4 st = Done (v, at_pos st cnt' tail).
Proof.
  intros _ [_ Hacc']. cbn [encode_field]. destruct (in_range v 16) eqn:Hv; [|done]. cbn [negb].
  apply in_range_true in Hv. rewrite parse_uint4_eq.
  destruct (p_bit st =? 0) eqn:E; [|destruct (p_bit st =? 4) eqn:E4; [|done]]; intros [= <- <- <-] Hr;
    cbn [app at_pos p_bit p_rest] in *.
  - destruct Hacc' as (x & t & -> & <-). rewrite Hr. by rewrite Z.shiftr_div_pow2.
  - rewrite Hr. change 15 with (Z.ones 4). rewrite Z.land_ones by lia. do 2 f_equal.
    rewrite Z.add_comm, Z.mul_comm, Z_mod_plus_full. by apply Z.mod_small.
Qed.

Lemma complete_type c st acc v out acc' cnt' tail :
  bytes_ok (p_rest st) -> at_acc st acc ->
  encode_field enc cls c acc (p_bit st) ATTRIBUTE_TYPE (FInt v) = Some (out, acc', cnt') ->
  p_rest st = out ++ tail -> parse_uint15 st = Done (v, at_pos st cnt' tail).
Proof.
  intros Hb Hacc. cbn [encode_field]. destruct (in_range v 32768) eqn:Hv; [|done]. cbn [andb].
  apply in_range_true in Hv. rewrite parse_uint15_eq. destruct (Z.eqb_spec (p_bit st) 1) as [E|]; [|done].
  destruct Hacc as [_ Hacc]. rewrite E in Hacc. destruct Hacc as (x & t & Ex & <-).
  pose proof Hb as Hb'. rewrite Ex in Hb. apply Forall_cons in Hb as [Hx _]. unfold byte_ok in Hx. change (2 ^ (8 - 1)) with 128.
  assert (0 <= x / 128 < 2) as Hd by (split; [apply Z.div_pos|apply Z.div_lt_upper_bound]; lia).
  remember (be_bytes 2 _) as w eqn:Hw. intros [= <- <- <-] Hr.
  assert (length w = 2%nat) as Hl by (subst w; len). rewrite untoh_be by (done || (rewrite Hr; len)).
  destruct (Nat.ltb_spec (length (p_rest st)) 2); [rewrite Hr in *; len|]. cbn [negb].
  rewrite Hr, take_app_length', drop_app_length', Hw, be_value_bytes, low15 by (len || apply Z.mod_pos_bound; lia).
  change (256 ^ Z.of_nat 2) with 65536. rewrite (Z.mod_small _ 65536) by lia. do 2 f_equal.
  rewrite Z.add_comm, Z.mul_comm, Z_mod_plus_full. by apply Z.mod_small.
Qed.

Lemma fits_chunk_size c pld st ty name b tail : ready c pld st ty name ->
  chunk_fits cls c ty (length b) = true -> p_rest st = b ++ tail -> (ty = ENCRYPTED_DATA -> tail = []) ->
  chunk_size c pld st ty = Some (Z.of_nat (length b)) \/
  ty = ATTRIBUTE_VALUE /\ attribute_format c = true /\ b = [].
Proof.
  intros [_ Hhl _ _ _ _ _] Hf Hr Henc. destruct ty; try discriminate Hf; cbn [chunk_fits chunk_size] in *.
  4: destruct (Z.ltb_spec (payload_length c) (get_header_length pld)); [lia|].
  5: { rewrite Hr, Henc, app_nil_r by done. by left. }
  2: destruct (attribute_format c); [right; split_and!; try done; apply length_zero_iff_nil; lia|].
  all: left; f_equal; lia.
Qed.

Lemma complete_list c pld st t name l out acc cnt tail : ready c pld st (PAYLOAD_LIST t) name ->
  encode_field enc cls c acc (p_bit st) (PAYLOAD_LIST t) (FList l) = Some (out, 0, cnt) ->
  p_rest st = out ++ tail ->
  exists st', parse_list (fun st => sub st t) st (payload_length c - get_header_length pld) [] = Done (l, st')
    /\ p_rest st' = tail /\ get_header_length pld <= payload_length c.
Proof.
  intros [Hb Hhl _ _ _ _ Hsub]. cbn [encode_field]. destruct (Z.eqb_spec (p_bit st) 0) as [Hbit|]; [|done].
  unfold encode_sub. destruct (encode_list enc l) as [bs|] eqn:Hl; [|done]. cbn [mbind option_bind].
  destruct (forallb _ _ && _) eqn:Hc; [|done]. apply andb_true_iff in Hc as [Hc Hlen]. intros [= <- <-] Hr.
  destruct (parse_list_complete sub enc t (Hsub t eq_refl) l (S (length (p_rest st))) st [] bs tail)
    as (st' & E & Hr'); try done; [lia|].
  exists st'. unfold parse_list. rewrite Hhl, Hbit. replace (payload_length c - _) with (Z.of_nat (length bs)) by lia.
  replace (Z.of_nat (length bs) <? 0) with false by lia. split; [done|]. split; [done|lia].
Qed.

Lemma parse_rule_complete c pld st acc ty name f out acc' cnt' tail :
  ready c pld st ty name -> at_acc st acc -> at_acc (at_pos st cnt' tail) acc' ->
  encode_field enc cls c acc (p_bit st) ty f = Some (out, acc', cnt') ->
  p_rest st = out ++ tail -> (ty = ENCRYPTED_DATA -> tail = []) ->
  exists st', parse_rule sub c pld st ty name = Done (next_ctx c ty f, f, st') /\ p_rest st' = tail.
Proof.
  intros Hrd Hacc Hacc' He Hr Henc. pose proof (ready_bytes _ _ _ _ _ Hrd) as Hb. destruct f as [v|b|b|l].
  - destruct (int_width ty) as [n|] eqn:Hw.
    + rewrite (encode_field_int _ _ _ _ _ _ Hw) in He. destruct (_ && _) eqn:Hc in He; [|done].
      apply andb_true_iff in Hc as [Hc Hp]. apply andb_true_iff in Hc as [Hv Hbit].
      apply in_range_true in Hv. apply negb_true_iff in Hp. injection He as Ho _ _. rewrite <- Ho in Hr.
      exists (at_pos st 0 tail). rewrite (parse_rule_int _ _ _ _ _ _ Hw Hb).
      rewrite (parse_uint_complete n st v tail) by (done || lia). cbn. by rewrite Hp.
    + exists (at_pos st cnt' tail). destruct ty; try discriminate Hw; try discriminate He; cbn [parse_rule].
      * by rewrite (complete_uint4 c st acc v out acc' cnt' tail).
      * by rewrite (complete_type c st acc v out acc' cnt' tail).
      * cbn [encode_field] in He. destruct (_ && _) eqn:Hc in He; [|done]. apply andb_true_iff in Hc as [Hv Hbit].
        apply in_range_true in Hv. remember (le_image 8 v) as w eqn:Hw'. injection He as <- <- <-.
        pose proof (parse_chunk_complete st w tail ltac:(lia) Hr) as E. subst w. unfold le_image in E.
        rewrite length_reverse, length_be_bytes in E. change (Z.of_nat 8) with 8 in E. rewrite E. cbn [mbind outcome_bind].
        unfold le_value. by rewrite reverse_involutive, be_value_bytes, Z.mod_small.
  - exists (at_pos st cnt' tail). destruct (is_flag ty) eqn:Hf; [|cbn in He; by rewrite Hf in He].
    rewrite parse_rule_flag by done. by rewrite (complete_flag c st acc ty b out acc' cnt' tail).
  - cbn [encode_field] in He. destruct (_ && _) eqn:Hc in He; [|done]. injection He as <- <- <-.
    apply andb_true_iff in Hc as [Hc Hbit]. apply andb_true_iff in Hc as [Hc _].
    destruct (fits_chunk_size _ _ _ _ _ _ _ Hrd Hc Hr Henc) as [Hn|(-> & Ha & ->)].
    + exists (at_pos st 0 tail). rewrite (parse_rule_chunk _ _ _ _ _ _ Hn).
      by rewrite (parse_chunk_complete st b tail) by (done || lia).
    + exists st. destruct (ready_field _ _ _ _ _ Hrd) as [hl Hf]. cbn [parse_rule]. by rewrite Ha, Hf.
  - destruct ty; try discriminate He. assert (acc' = 0) as ->.
    { cbn in He. destruct (p_bit st =? 0); [|done]. destruct (encode_sub _ _ _ _ _); [|done]. by injection He. }
    destruct (complete_list _ _ _ _ _ _ _ _ _ _ Hrd He Hr) as (st' & E & Hr' & Hl). exists st'.
    destruct (ready_field _ _ _ _ _ Hrd) as [hl Hf]. cbn [parse_rule]. rewrite Hf. cbn [initial_field mbind outcome_bind].
    rewrite E. destruct (Z.ltb_spec (payload_length c) (get_header_length pld)); [lia|done].
Qed.
End Fields.

(** ** Whole payloads *)
Section Rules.
Context (sub : parser -> payload_type_t -> outcome (payload * parser)) (enc : payload -> option chunk).
Context (cls : payload_class).
Context (Hsub : forall t name, (PAYLOAD_LIST t, name) ∈ get_encoding_rules cls -> sub_spec sub enc t).

(** The rules [todo] are left, the fields [fs] are set, the others are as created. *)
Record progress (c : context) (pld : payload) (st : parser) (done_ todo : list encoding_rule_t)
    (fs : list field) : Prop := Progress {
  pr_rules : get_encoding_rules cls = done_ ++ todo;
  pr_pld : exists hl, pld = Payload cls (fs ++ (initial_field cls hl <$> todo));
  pr_length : length fs = length done_;
  pr_current : todo = [] \/ p_rules st = get_encoding_rules cls;
  pr_bytes : bytes_ok (p_rest st);
  pr_spi_size : 0 <= spi_size c;
  pr_attribute_length : 0 <= attribute_length c;
  pr_spi : has_spi cls = true -> int_field pld "spi_size" = spi_size c;
  pr_aligned : exists half, aligned (p_bit st) half todo = true;
}.

Lemma header_length_any n : has_spi cls = false -> header_length cls n = header_length cls 0.
Proof. destruct cls as [[]|]; intros Hc; try discriminate Hc; reflexivity. Qed.

Lemma aligned_zero cnt half ty name todo : aligned cnt half ((ty, name) :: todo) = true ->
  match ty with RESERVED_BIT | FLAG | ATTRIBUTE_FORMAT | U_INT_4 | ATTRIBUTE_TYPE => True | _ => cnt = 0 end.
Proof. destruct ty; cbn; try done; intros H; apply andb_true_iff in H as [H _]; lia. Qed.

Lemma aligned_last cnt half ty name todo : aligned cnt half ((ty, name) :: todo) = true ->
  match ty with PAYLOAD_LIST _ | ENCRYPTED_DATA => todo = [] | _ => True end.
Proof. destruct ty; cbn; try done; intros H; apply andb_true_iff in H as [_ H]; by apply bool_decide_eq_true in H. Qed.

Lemma aligned_step c acc cnt half ty name todo f out acc' cnt' : 0 <= cnt < 8 ->
  aligned cnt half ((ty, name) :: todo) = true ->
  encode_field enc cls c acc cnt ty f = Some (out, acc', cnt') ->
  aligned cnt' (bool_decide (ty = U_INT_4) && (cnt =? 0)) todo = true.
Proof.
  intros Hcnt Ha He. destruct f as [v|b|b|l]; cbn [encode_field] in He.
  - destruct ty; cbn in Ha; try discriminate He; cbn in He; split_ifs; simplify_eq; bsplit; cbn; try done; lia.
  - destruct (is_flag ty) eqn:Hf; [|done]. cbn [negb] in He.
    assert (negb half && aligned ((cnt + 1) mod 8) false todo = true) as H by (by destruct ty).
    apply andb_true_iff in H as [_ H]. rewrite bool_decide_eq_false_2 by (by intros ->). destruct (Z.eqb_spec cnt 7) as [->|]; injection He as <- <- <-; [done|].
    by rewrite Z.mod_small in H by lia.
  - destruct (_ && _) eqn:Hc in He; [|done]. injection He as <- <- <-. apply andb_true_iff in Hc as [Hc _].
    apply andb_true_iff in Hc as [Hc _].
    destruct ty; try discriminate Hc; cbn in Ha; apply andb_true_iff in Ha as [_ Ha]; try done.
    by apply bool_decide_eq_true in Ha as ->.
  - destruct ty; try discriminate He. cbn in Ha. destruct (cnt =? 0); [|done]. cbn in Ha.
    destruct (encode_sub _ _ _ _ _); [|done]. injection He as <- <- <-. by apply bool_decide_eq_true in Ha as ->.
Qed.

Lemma progress_ready c pld st done_ ty name todo fs :
  progress c pld st done_ ((ty, name) :: todo) fs -> ready sub enc cls c pld st ty name.
Proof using Hsub.
  intros [Hr [hl ->] Hl _ Hb Hs Ha Hspi [half Hal]]. constructor; try done.
  - destruct (has_spi cls) eqn:Hc.
    + rewrite header_length_spi by done. cbn [class_of]. by rewrite Hspi.
    + by rewrite header_length_const, (header_length_any (spi_size c)).
  - exists hl. by apply (get_field_at _ done_ ty name todo).
  - intros ->. by apply aligned_zero in Hal.
  - intros t ->. apply (Hsub t name). rewrite Hr, elem_of_app. right. left.
Qed.

Lemma progress_step c pld st acc done_ ty name todo fs f st' :
  progress c pld st done_ ((ty, name) :: todo) fs -> 0 <= p_bit st < 8 ->
  advances enc cls c st acc ty f st' ->
  exists pld', set_field pld name f = Some pld' /\
    progress (next_ctx c ty f) pld' st' (done_ ++ [(ty, name)]) todo (fs ++ [f]).
Proof using Hsub.
  intros [Hr [hl ->] Hl Hcur Hb Hs Ha Hspi [half Hal]] Hbit (Hm & Hrules & out & acc' & He & Hrest & Hacc').
  exists (Payload cls ((fs ++ [f]) ++ (initial_field cls hl <$> todo))). rewrite <- app_assoc. cbn [app].
  split; [by apply (set_field_at _ done_ ty name todo)|].
  assert (forall v, f = FInt v -> (int_width ty <> None) -> 0 <= v) as Hv.
  { intros v -> Hw. destruct (int_width ty) as [n|] eqn:En; [|done]. rewrite (encode_field_int enc cls _ _ _ _ _ _ En) in He.
    destruct (in_range v _) eqn:Hv; [|done]. apply in_range_true in Hv. lia. }
  constructor.
  - by rewrite Hr, <- app_assoc.
  - exists hl. by rewrite <- app_assoc.
  - len.
  - destruct Hcur as [|Hcur]; [done|]. destruct (decide (todo = [])) as [|Hne]; [by left|right].
    rewrite Hrules; [done|]. intros t ->. by apply aligned_last in Hal.
  - rewrite Hrest in Hb. by apply Forall_app in Hb as [_ ?].
  - destruct ty, f; cbn; try done. by apply (Hv v).
  - destruct ty, f; cbn; try done; by apply (Hv v).
  - intros Hc. specialize (Hspi Hc). pose proof (tables_spi_size cls Hc) as Ht.
    rewrite Hr in Ht. apply Forall_app in Ht as [_ Ht]. apply Forall_cons in Ht as [Hiff _]. cbn in Hiff.
    destruct (decide (ty = SPI_SIZE)) as [->|Hty].
    + unfold int_field. rewrite (proj1 Hiff eq_refl) in Hr. rewrite (get_field_at _ done_ SPI_SIZE "spi_size" todo) by done.
      destruct f; try discriminate He. done.
    + assert (spi_size (next_ctx c ty f) = spi_size c) as -> by (by destruct ty, f).
      rewrite <- Hspi. unfold int_field. cbn [fmap list_fmap].
      rewrite (get_field_other _ done_ ty name todo fs (initial_field cls hl (ty, name))); [done|done|done|].
      intros E. by apply Hty, Hiff.
  - eexists. by eapply aligned_step.
Qed.

Lemma progress_rule c pld st done_ ty name todo fs :
  progress c pld st done_ ((ty, name) :: todo) fs -> p_rules st !! length done_ = Some (ty, name).
Proof.
  intros Hp. destruct (pr_current _ _ _ _ _ _ Hp) as [|E]; [done|].
  rewrite E, (pr_rules _ _ _ _ _ _ Hp). by apply list_lookup_middle.
Qed.

Lemma parse_rules_safe todo : forall c pld st acc done_ fs,
  progress c pld st done_ todo fs -> at_acc st acc ->
  parse_rules sub (length todo) (length done_) c pld st <> Undefined.
Proof using Hsub.
  induction todo as [|[ty name] todo IH]; intros c pld st acc done_ fs Hp Hacc; [done|].
  cbn [length parse_rules]. rewrite (progress_rule _ _ _ _ _ _ _ _ Hp). cbn [defined mbind outcome_bind].
  pose proof (progress_ready _ _ _ _ _ _ _ _ Hp) as Hrd.
  destruct (parse_rule sub c pld st ty name) as [[[c' f] st']| |] eqn:E; [|done|by apply (parse_rule_safe _ _ _ _ _ _ _ _ Hrd) in E].
  apply (parse_rule_sound _ _ _ _ _ _ _ _ _ _ _ _ Hrd Hacc) in E as [-> Hadv].
  cbn [mbind outcome_bind]. destruct (progress_step _ _ _ _ _ _ _ _ _ _ _ Hp (proj1 Hacc) Hadv) as (pld' & -> & Hp').
  destruct Hadv as (_ & _ & out & acc' & _ & _ & Hacc'). cbn [defined mbind outcome_bind].
  specialize (IH _ _ _ _ _ _ Hp' Hacc'). by rewrite length_app, Nat.add_1_r in IH.
Qed.

Lemma parse_rules_sound todo : forall c pld st acc done_ fs p st',
  progress c pld st done_ todo fs -> at_acc st acc ->
  parse_rules sub (length todo) (length done_) c pld st = Done (p, st') ->
  p_bit st' = 0 /\ p_major_version st' = p_major_version st /\
  exists fs' bs, p = Payload cls (fs ++ fs') /\ encode_rules enc cls c acc (p_bit st) todo fs' = Some bs /\
    p_rest st = bs ++ p_rest st'.
Proof using Hsub.
  induction todo as [|[ty name] todo IH]; intros c pld st acc done_ fs p st' Hp Hacc.
  { intros [= <- <-]. destruct Hp as [_ [hl ->] _ _ _ _ _ _ [half Hal]]. cbn in Hal. apply Z.eqb_eq in Hal.
    split; [done|]. split; [done|]. exists [], []. rewrite Hal. split; [done|]. by split. }
  cbn [length parse_rules]. rewrite (progress_rule _ _ _ _ _ _ _ _ Hp). cbn [defined mbind outcome_bind].
  pose proof (progress_ready _ _ _ _ _ _ _ _ Hp) as Hrd.
  destruct (parse_rule sub c pld st ty name) as [[[c' f] st1]| |] eqn:E; [|done|done].
  apply (parse_rule_sound _ _ _ _ _ _ _ _ _ _ _ _ Hrd Hacc) in E as [-> Hadv].
  cbn [mbind outcome_bind]. destruct (progress_step _ _ _ _ _ _ _ _ _ _ _ Hp (proj1 Hacc) Hadv) as (pld' & -> & Hp').
  destruct Hadv as (Hm & _ & out & acc' & He & Hr & Hacc'). cbn [defined mbind outcome_bind]. intros E.
  specialize (IH _ _ _ _ _ _ p st' Hp' Hacc'). rewrite length_app, Nat.add_1_r in IH.
  destruct (IH E) as (? & Hm' & fs' & bs & -> & He' & Hr'). split; [done|]. split; [congruence|].
  exists (f :: fs'), (out ++ bs). rewrite <- app_assoc. cbn [encode_rules]. rewrite He. cbn [mbind option_bind].
  rewrite He', Hr, Hr', <- app_assoc. done.
Qed.

Definition acc_ok (acc cnt : Z) : Prop := 0 <= cnt < 8 /\ 0 <= acc < 2 ^ cnt.

Lemma acc_ok_step c acc cnt ty f out acc' cnt' : acc_ok acc cnt ->
  encode_field enc cls c acc cnt ty f = Some (out, acc', cnt') -> acc_ok acc' cnt'.
Proof.
  intros [Hcnt Hacc] He. unfold acc_ok. destruct f as [v|b|b|l]; cbn [encode_field] in He.
  - destruct ty; try discriminate He; cbn [int_width] in He; unfold in_range in He; split_ifs; simplify_eq;
      change (2 ^ 4) with 16; lia.
  - destruct (negb _); [done|]. destruct (Z.eqb_spec cnt 7); injection He as <- <- <-; [lia|].
    rewrite Z.pow_add_r by lia. change (2 ^ 1) with 2. destruct b; cbn [Z.b2z]; lia.
  - destruct (_ && _); [|done]. injection He as <- <- <-. lia.
  - destruct ty; try discriminate He. destruct (cnt =? 0); [|done]. destruct (encode_sub _ _ _ _ _); [|done].
    injection He as <- <- <-. lia.
Qed.

(** The first byte completed starts with the bits before. *)
Lemma encode_field_prefix c acc cnt ty f out acc' cnt' : acc_ok acc cnt -> 0 < cnt ->
  encode_field enc cls c acc cnt ty f = Some (out, acc', cnt') ->
  out = [] /\ cnt' = cnt + 1 /\ acc' / 2 = acc \/ exists x t, out = x :: t /\ x / 2 ^ (8 - cnt) = acc.
Proof.
  intros [Hcnt Hacc] Hpos He. destruct f as [v|b|b|l]; cbn [encode_field] in He.
  - destruct ty; try discriminate He; cbn [int_width] in He; split_ifs; try discriminate He; bsplit; try lia; injection He as <- <- <-; right.
    + exists (16 * acc + v), []. split; [done|]. replace cnt with 4 by lia. change (2 ^ (8 - 4)) with 16.
      assert (0 <= v < 16) by (unfold in_range in *; lia).
      rewrite Z.mul_comm, Z.div_add_l, Z.div_small by lia. lia.
    + assert (0 <= v < 32768) by (unfold in_range in *; lia). replace cnt with 1 in * by lia. eexists _, _. split; [reflexivity|].
      change (2 ^ 1) with 2 in Hacc. change (2 ^ (8 - 1)) with 128. change (256 ^ Z.of_nat 1) with 256.
      assert ((32768 * acc + v) / 256 = 128 * acc + v / 256) as ->.
      { replace (32768 * acc + v) with (v + 128 * acc * 256) by lia. rewrite Z.div_add by lia. lia. }
      assert (0 <= v / 256 < 128) by (split; [apply Z.div_pos|apply Z.div_lt_upper_bound]; lia).
      rewrite (Z.mod_small _ 256), Z.mul_comm, Z.div_add_l, (Z.div_small (v / 256)) by lia. lia.
  - destruct (negb _); [done|]. destruct (Z.eqb_spec cnt 7) as [->|]; injection He as <- <- <-; [right|left].
    + exists (2 * acc + Z.b2z b), []. split; [done|]. change (2 ^ (8 - 7)) with 2.
      rewrite Z.mul_comm, Z.div_add_l, (Z.div_small (Z.b2z b)) by (destruct b; cbn; lia). lia.
    + split; [done|]. split; [done|]. rewrite Z.mul_comm, Z.div_add_l, (Z.div_small (Z.b2z b)) by (destruct b; cbn; lia). lia.
  - destruct (_ && _) eqn:Hc; [|done]. apply andb_true_iff in Hc as [_ Hc]. lia.
  - destruct ty; try discriminate He. destruct (Z.eqb_spec cnt 0); [lia|done].
Qed.

Lemma encode_rules_prefix todo : forall c acc cnt fs bs, acc_ok acc cnt -> 0 < cnt ->
  encode_rules enc cls c acc cnt todo fs = Some bs -> exists x t, bs = x :: t /\ x / 2 ^ (8 - cnt) = acc.
Proof.
  induction todo as [|[ty name] todo IH]; intros c acc cnt [|f fs] bs Hok Hpos; cbn [encode_rules]; try done.
  { by destruct (Z.eqb_spec cnt 0); [lia|]. }
  destruct (encode_field enc cls c acc cnt ty f) as [[[out acc'] cnt']|] eqn:He; [|done]. cbn [mbind option_bind].
  destruct (encode_rules _ _ _ _ _ todo fs) as [bs'|] eqn:Hr; [|done]. intros [= <-].
  pose proof (acc_ok_step _ _ _ _ _ _ _ _ Hok He) as Hok'.
  apply encode_field_prefix in He as [(-> & -> & <-)|(x & t & -> & Hx)]; [| |done|done].
  - apply IH in Hr as (x & t & -> & <-); [|done|lia]. exists x, t. split; [done|].
    destruct Hok as [? _]. replace (8 - cnt) with (8 - (cnt + 1) + 1) by lia.
    rewrite Z.pow_add_r by (destruct Hok'; lia). change (2 ^ 1) with 2. rewrite Z.div_div; [done|lia|lia].
  - by exists x, (t ++ bs').
Qed.

Lemma parse_rules_complete todo : forall c pld st acc done_ fs fs' bs tail,
  progress c pld st done_ todo fs -> at_acc st acc -> acc_ok acc (p_bit st) ->
  encode_rules enc cls c acc (p_bit st) todo fs' = Some bs -> p_rest st = bs ++ tail ->
  (ENCRYPTED_DATA ∈ todo.*1 -> tail = []) ->
  exists st', parse_rules sub (length todo) (length done_) c pld st = Done (Payload cls (fs ++ fs'), st') /\
    p_rest st' = tail.
Proof using Hsub.
  induction todo as [|[ty name] todo IH]; intros c pld st acc done_ fs [|f fs'] bs tail Hp Hacc Hok;
    cbn [encode_rules]; try done.
  { destruct (p_bit st =? 0); [|done]. intros [= <-] Hr _. exists st. by destruct (pr_pld _ _ _ _ _ _ Hp) as [hl ->]. }
  destruct (encode_field enc cls c acc (p_bit st) ty f) as [[[out acc'] cnt']|] eqn:He; [|done].
  cbn [mbind option_bind]. destruct (encode_rules _ _ _ _ _ todo fs') as [bs'|] eqn:He'; [|done].
  intros [= <-] Hr Henc. rewrite <- app_assoc in Hr.
  pose proof (acc_ok_step _ _ _ _ _ _ _ _ Hok He) as Hok'. pose proof (progress_ready _ _ _ _ _ _ _ _ Hp) as Hrd.
  assert (at_acc (at_pos st cnt' (bs' ++ tail)) acc') as Hat.
  { destruct Hok' as [Hc Ha]. split; [done|]. cbn [at_pos p_bit p_rest]. destruct (Z.eqb_spec cnt' 0) as [->|]; [cbn in Ha; lia|].
    apply encode_rules_prefix in He' as (x & t & -> & Hx); [|done|lia]. by exists x, (t ++ tail). }
  destruct (parse_rule_complete sub enc cls c pld st acc ty name f out acc' cnt' (bs' ++ tail)) as (st1 & E & Hr1); try done.
  { intros ->. destruct (pr_aligned _ _ _ _ _ _ Hp) as [half Hal]. apply aligned_last in Hal. subst todo.
    destruct fs'; [|done]. cbn in He'. destruct (cnt' =? 0); [|done]. injection He' as <-. apply Henc. left. }
  cbn [length parse_rules]. rewrite (progress_rule _ _ _ _ _ _ _ _ Hp). cbn [defined mbind outcome_bind].
  rewrite E. cbn [mbind outcome_bind].
  apply (parse_rule_sound _ _ _ _ _ _ _ _ _ _ _ _ Hrd Hacc) in E as [_ Hadv].
  destruct (progress_step _ _ _ _ _ _ _ _ _ _ _ Hp (proj1 Hacc) Hadv) as (pld' & -> & Hp').
  destruct Hadv as (_ & _ & out' & acc'' & He2 & _ & Hacc'). rewrite He in He2. injection He2 as <- <- ->.
  cbn [defined mbind outcome_bind].
  destruct (IH _ _ _ _ _ _ fs' bs' tail Hp' Hacc') as (st2 & E2 & Hr2); try done.
  { intros Hin. apply Henc. by right. }
  exists st2. rewrite length_app, Nat.add_1_r, <- app_assoc in E2. done.
Qed.
End Rules.

(** *** Nesting *)

(** The depth of substructures. *)
Definition rank (cls : payload_class) : nat :=
  match cls with
  | Known PLV2_SECURITY_ASSOCIATION | Known PLV1_SECURITY_ASSOCIATION => 4
  | Known PLV2_PROPOSAL_SUBSTRUCTURE | Known PLV1_PROPOSAL_SUBSTRUCTURE => 3
  | Known PLV2_TRANSFORM_SUBSTRUCTURE | Known PLV1_TRANSFORM_SUBSTRUCTURE => 2
  | Known PLV2_CONFIGURATION | Known PLV1_CONFIGURATION | Known PLV2_TS_INITIATOR
  | Known PLV2_TS_RESPONDER => 2
  | _ => 1
  end.

(** A substructure has a type of its own in every version, is less deep, and not empty. *)
Definition substructure_ok (cls : payload_class) (r : encoding_rule_t) : bool :=
  match fst r with
  | PAYLOAD_LIST t =>
    (rank (Known t) <? rank cls)%nat && (256 <=? payload_type_value t) &&
    bool_decide (class_of (payload_create t) = Known t) && bool_decide (t <> PLV1_ENCRYPTED) &&
    existsb (fun r => bool_decide (int_width (fst r) <> None)) (get_encoding_rules (Known t))
  | _ => true
  end.

Lemma tables_substructures cls : forallb (substructure_ok cls) (get_encoding_rules cls) = true.
Proof. destruct cls as [[]|]; vm_compute; reflexivity. Qed.

Lemma tables_encrypted cls : ENCRYPTED_DATA ∈ (get_encoding_rules cls).*1 -> cls = Known PLV1_ENCRYPTED.
Proof.
  intros Hin. destruct (decide (cls = Known PLV1_ENCRYPTED)) as [|Hne]; [done|exfalso].
  apply (bool_decide_unpack (ENCRYPTED_DATA ∉ (get_encoding_rules cls).*1)); [|done].
  destruct cls as [[]|]; try done; vm_compute; exact I.
Qed.

Lemma rank_pos cls : (1 <= rank cls <= 4)%nat.
Proof. destruct cls as [[]|]; cbn; lia. Qed.

Lemma substructure_facts cls t name : (PAYLOAD_LIST t, name) ∈ get_encoding_rules cls ->
  (rank (Known t) < rank cls)%nat /\ 256 <= payload_type_value t /\ class_of (payload_create t) = Known t /\
  t <> PLV1_ENCRYPTED /\
  existsb (fun r => bool_decide (int_width (fst r) <> None)) (get_encoding_rules (Known t)) = true.
Proof.
  intros Hin. pose proof (tables_substructures cls) as Ht. rewrite forallb_forall in Ht.
  apply list_elem_of_In in Hin. apply Ht in Hin. unfold substructure_ok in Hin. cbn [fst] in Hin.
  apply andb_true_iff in Hin as [Hin ?]. apply andb_true_iff in Hin as [Hin ?%bool_decide_eq_true].
  apply andb_true_iff in Hin as [Hin ?%bool_decide_eq_true]. apply andb_true_iff in Hin as [? ?].
  split_and!; try done; [by apply Nat.ltb_lt|by apply Z.leb_le].
Qed.

Lemma encode_rules_nonempty enc cls rules : forall c acc cnt fs bs,
  existsb (fun r => bool_decide (int_width (fst r) <> None)) rules = true ->
  encode_rules enc cls c acc cnt rules fs = Some bs -> bs <> [].
Proof.
  induction rules as [|[ty name] rules IH]; intros c acc cnt [|f fs] bs Hex; cbn [encode_rules]; try done.
  destruct (encode_field enc cls c acc cnt ty f) as [[[out acc'] cnt']|] eqn:He; [|done]. cbn [mbind option_bind].
  destruct (encode_rules _ _ _ _ _ rules fs) as [bs'|] eqn:Hr; [|done]. intros [= <-].
  cbn [existsb fst] in Hex. apply orb_true_iff in Hex as [Hex|Hex].
  - apply bool_decide_eq_true in Hex. destruct (int_width ty) as [n|] eqn:Hw; [|done].
    assert (exists v, f = FInt v) as [v ->] by (destruct f, ty; try done; by eexists).
    rewrite (encode_field_int _ _ _ _ _ _ _ _ Hw) in He. destruct (_ && _); [|done].
    injection He as Ho _ _. rewrite <- Ho. destruct ty; try discriminate Hw; injection Hw as <-; done.
  - intros [_ ->]%app_eq_nil. by apply (IH _ _ _ _ _ Hex) in Hr.
Qed.

(** The class of the object created for a type. *)
Definition class_for (major : Z) (t : payload_type_t) : payload_class :=
  class_of (if payload_is_known t major then payload_create t else unknown_payload_create t).

Lemma created major t :
  (if payload_is_known t major then payload_create t else unknown_payload_create t) = create_object (class_for major t).
Proof. unfold class_for. by destruct (payload_is_known t major). Qed.

Lemma class_for_sub major t : 256 <= payload_type_value t -> class_of (payload_create t) = Known t ->
  class_for major t = Known t.
Proof.
  intros Ht Hc. unfold class_for, payload_is_known. by replace (256 <=? payload_type_value t) with true by lia.
Qed.

Lemma progress_start cls st : p_bit st = 0 -> bytes_ok (p_rest st) ->
  progress cls (Ctx 0 0 0 0 false) (create_object cls)
    (Parser (p_input st) (p_major_version st) (p_bit st) (p_rest st) (get_encoding_rules cls)) [] (get_encoding_rules cls) [].
Proof.
  intros Hbit Hb. constructor; try done.
  - by exists (get_header_length (Payload cls (initial_field cls 0 <$> get_encoding_rules cls))).
  - by right.
  - intros Hc. destruct cls as [[]|]; try discriminate Hc; vm_compute; reflexivity.
  - exists false. cbn [p_bit]. rewrite Hbit. apply tables_aligned.
Qed.

Section Payloads.
Context (fuel : nat).
Context (IH : forall t, (rank (Known t) <= fuel)%nat -> 256 <= payload_type_value t ->
  class_of (payload_create t) = Known t -> t <> PLV1_ENCRYPTED ->
  existsb (fun r => bool_decide (int_width (fst r) <> None)) (get_encoding_rules (Known t)) = true ->
  sub_spec (parse_payload fuel) (encode fuel) t).

Lemma sub_specs cls t name : (rank cls <= S fuel)%nat -> (PAYLOAD_LIST t, name) ∈ get_encoding_rules cls ->
  sub_spec (parse_payload fuel) (encode fuel) t.
Proof using IH.
  intros Hr Hin. destruct (substructure_facts _ _ _ Hin) as (? & ? & ? & ? & ?). apply IH; [lia|done..].
Qed.

Lemma payload_safe st t : (rank (class_for (p_major_version st) t) <= S fuel)%nat ->
  p_bit st = 0 -> bytes_ok (p_rest st) -> parse_payload (S fuel) st t <> Undefined.
Proof using IH.
  intros Hr Hbit Hb. cbn [parse_payload]. rewrite created.
  apply (parse_rules_safe _ (encode fuel) _ (fun t name => sub_specs _ t name Hr) _ _ _ _ 0 [] []);
    [by apply progress_start|by apply at_acc_0].
Qed.

Lemma payload_sound st t p st' : (rank (class_for (p_major_version st) t) <= S fuel)%nat ->
  p_bit st = 0 -> bytes_ok (p_rest st) -> parse_payload (S fuel) st t = Done (p, st') ->
  class_of p = class_for (p_major_version st) t /\ p_bit st' = 0 /\ p_major_version st' = p_major_version st /\
  exists b, encode (S fuel) p = Some b /\ p_rest st = b ++ p_rest st'.
Proof using IH.
  intros Hr Hbit Hb. cbn [parse_payload]. rewrite created. intros E.
  apply (parse_rules_sound _ (encode fuel) _ (fun t name => sub_specs _ t name Hr) _ _ _ _ 0 [] []) in E
    as (Hbit' & Hm & fs & bs & -> & He & Hrest); [|by apply progress_start|by apply at_acc_0].
  cbn [p_bit p_rest app] in *. rewrite Hbit in He. split; [done|]. split; [done|]. split; [done|]. by exists bs.
Qed.

Lemma payload_complete st t p b tail : (rank (class_for (p_major_version st) t) <= S fuel)%nat ->
  p_bit st = 0 -> bytes_ok (p_rest st) -> class_of p = class_for (p_major_version st) t ->
  encode (S fuel) p = Some b -> p_rest st = b ++ tail -> (class_of p = Known PLV1_ENCRYPTED -> tail = []) ->
  exists st', parse_payload (S fuel) st t = Done (p, st') /\ p_rest st' = tail.
Proof using IH.
  intros Hr Hbit Hb Hc He Hrest Henc. cbn [parse_payload encode] in *. rewrite created, <- Hc. rewrite <- Hc in Hr.
  destruct p as [cls fs]. cbn [class_of fields_of] in *.
  destruct (parse_rules_complete _ (encode fuel) _ (fun t name => sub_specs _ t name Hr) _ _ _ _ 0 [] [] fs b tail
    (progress_start cls st Hbit Hb)) as (st' & E & Hr'); cbn [p_bit]; rewrite ?Hbit; try done.
  - intros Hin. by apply Henc, tables_encrypted.
  - exists st'. rewrite Hbit in E. done.
Qed.
End Payloads.

Lemma payload_sub_spec fuel t : (rank (Known t) <= fuel)%nat -> 256 <= payload_type_value t ->
  class_of (payload_create t) = Known t -> t <> PLV1_ENCRYPTED ->
  existsb (fun r => bool_decide (int_width (fst r) <> None)) (get_encoding_rules (Known t)) = true ->
  sub_spec (parse_payload fuel) (encode fuel) t.
Proof.
  revert t. induction fuel as [|fuel IH]; intros t Hr Ht Hc Hn Hex; [pose proof (rank_pos (Known t)); lia|].
  assert (forall major, class_for major t = Known t) as Hcls by (intros; by apply class_for_sub).
  constructor.
  - intros st ? ?. apply payload_safe; [done|by rewrite Hcls|done|done].
  - intros st p st' ? ? E. apply payload_sound in E as (Hc' & ? & ? & b & He & Hrest); [|done|by rewrite Hcls|done|done].
    rewrite Hcls in Hc'. split_and!; try done. exists b. split_and!; try done.
    cbn [encode] in He. rewrite Hc' in He. by eapply encode_rules_nonempty.
  - intros st p b tail ? ? Hcp He Hrest. eapply payload_complete; rewrite ?Hcls; try done.
    rewrite Hcp. by intros [= ->].
Qed.

(** The encoding consists of bytes. *)
Lemma encode_field_bytes enc cls c acc cnt ty f out acc' cnt' :
  (forall p b, enc p = Some b -> bytes_ok b) -> acc_ok acc cnt ->
  encode_field enc cls c acc cnt ty f = Some (out, acc', cnt') -> bytes_ok out.
Proof.
  intros Henc [Hcnt Hacc] He. destruct f as [v|b|b|l].
  - destruct (int_width ty) as [n|] eqn:Hw.
    + rewrite (encode_field_int _ _ _ _ _ _ _ _ Hw) in He. destruct (_ && _) in He; [|done].
      injection He as <- _ _. apply be_bytes_ok.
    + destruct ty; try discriminate He; try discriminate Hw; cbn [encode_field int_width] in He; unfold in_range in He;
        split_ifs; try discriminate He.
      * injection He as <- _ _. done.
      * injection He as <- _ _. replace cnt with 4 in Hacc by lia. change (2 ^ 4) with 16 in Hacc. repeat constructor; lia.
      * injection He as <- _ _. exact (be_bytes_ok 2 _).
      * injection He as <- _ _. exact (proj2 (Forall_reverse _ _) (be_bytes_ok 8 v)).
  - cbn [encode_field] in He. destruct (negb _); [done|]. destruct (Z.eqb_spec cnt 7) as [->|]; injection He as <- _ _; [|done].
    change (2 ^ 7) with 128 in Hacc. repeat constructor; destruct b; cbn; lia.
  - cbn [encode_field] in He. destruct (_ && _) eqn:Hc; [|done]. injection He as <- _ _. apply andb_true_iff in Hc as [Hc _].
    apply andb_true_iff in Hc as [_ Hc]. by apply bool_decide_eq_true in Hc.
  - destruct ty; try discriminate He. cbn [encode_field] in He. destruct (cnt =? 0); [|done]. unfold encode_sub in He.
    destruct (encode_list enc l) as [bs|] eqn:El; [|done]. cbn in He. split_ifs; [|done]. injection He as <- _ _.
    clear -Henc El. revert bs El. induction l as [|p l IH]; cbn; intros bs El; [by injection El as <-|].
    destruct (enc p) as [b|] eqn:Eb; [|done]. destruct (encode_list enc l); [|done]. injection El as <-.
    apply Forall_app. split; [by eapply Henc|by apply IH].
Qed.

Lemma encode_rules_bytes enc cls rules : (forall p b, enc p = Some b -> bytes_ok b) -> forall c acc cnt fs bs,
  acc_ok acc cnt -> encode_rules enc cls c acc cnt rules fs = Some bs -> bytes_ok bs.
Proof.
  intros Henc. induction rules as [|[ty name] rules IH]; intros c acc cnt [|f fs] bs Hok; cbn [encode_rules]; try done.
  { destruct (cnt =? 0); [|done]. by intros [= <-]. }
  destruct (encode_field enc cls c acc cnt ty f) as [[[out acc'] cnt']|] eqn:He; [|done]. cbn [mbind option_bind].
  destruct (encode_rules _ _ _ _ _ rules fs) as [bs'|] eqn:Hr; [|done]. intros [= <-].
  apply Forall_app. split; [by eapply encode_field_bytes|]. eapply IH; [|done]. by eapply acc_ok_step.
Qed.

Lemma encode_bytes_ok fuel p b : encode fuel p = Some b -> bytes_ok b.
Proof.
  revert p b. induction fuel as [|fuel IH]; intros p b; cbn [encode]; [done|].
  apply encode_rules_bytes; [done|]. split; [lia|]. change (2 ^ 0) with 1. lia.
Qed.

(** Substructures of security associations are nested deepest: proposals, transforms,
    attributes. *)
Definition max_depth : nat := 4.
