(* ===== verification/CodecGenerator.v ===== *)
(** The generator of [Codec] against the encoding, and the theorems on generator and
    parser together. *)
From S2P Require Import Prelude Payloads Codec CodecParser.
From stdpp Require Import base numbers list option strings.
From Stdlib Require Import Lia ZArith.
Local Open Scope Z_scope.

(** ** The generator *)
Section GeneratorSpec.
Context (junk : nat -> Z).

(** [pre] is written, and the [cnt] bits [acc] of the next byte; the others of that byte
    are clear while flags are written. *)
Record gen_at (st : generator) (pre : chunk) (acc cnt : Z) (half : bool) : Prop := GenAt {
  ga_bit : g_bit st = cnt;
  ga_pre : take (g_out st) (g_buffer st) = pre;
  ga_out : (g_out st <= length (g_buffer st))%nat;
  ga_acc : 0 < cnt -> exists x, g_buffer st !! g_out st = Some x /\ x / 2 ^ (8 - cnt) = acc /\
    (half = false -> x = acc * 2 ^ (8 - cnt));
}.

Lemma make_space_loop_grows fuel : forall buffer out bit bits,
  exists more, make_space_loop junk fuel buffer out bit bits = buffer ++ more.
Proof.
  induction fuel as [|fuel IH]; intros; cbn [make_space_loop]; [exists []; by rewrite app_nil_r|].
  destruct (_ <? _); [|exists []; by rewrite app_nil_r].
  destruct (IH (buffer ++ map junk (seq (length buffer) 500)) out bit bits) as [more ->].
  eexists. by rewrite <- app_assoc.
Qed.

Lemma make_space_loop_enough fuel : forall buffer out bit bits,
  bits <= (Z.of_nat (length buffer) - Z.of_nat out) * 8 - bit + 4000 * Z.of_nat fuel ->
  bits <= (Z.of_nat (length (make_space_loop junk fuel buffer out bit bits)) - Z.of_nat out) * 8 - bit.
Proof.
  induction fuel as [|fuel IH]; intros buffer out bit bits H; cbn [make_space_loop]; [lia|].
  destruct (Z.ltb_spec ((Z.of_nat (length buffer) - Z.of_nat out) * 8 - bit) bits); [|lia].
  apply IH. rewrite length_app, length_map, length_seq. lia.
Qed.

Lemma make_space_spec st pre acc cnt half bits : gen_at st pre acc cnt half -> 0 <= cnt < 8 -> 0 <= bits ->
  gen_at (make_space_available junk st bits) pre acc cnt half /\
  bits <= (Z.of_nat (length (g_buffer (make_space_available junk st bits))) - Z.of_nat (g_out st)) * 8 - cnt.
Proof.
  intros [Hb Hp Ho Ha] Hc Hbits. unfold make_space_available. cbn [with_buffer g_buffer].
  pose proof (make_space_loop_enough (S (Z.to_nat bits)) (g_buffer st) (g_out st) (g_bit st) bits ltac:(lia)) as He.
  destruct (make_space_loop_grows (S (Z.to_nat bits)) (g_buffer st) (g_out st) (g_bit st) bits) as [more Hm].
  rewrite Hm in *. split; [|lia]. constructor; cbn [with_buffer g_bit g_buffer g_out]; try done.
  - by rewrite take_app_le.
  - len.
  - intros Hpos. destruct (Ha Hpos) as (x & Hx & ?). exists x. split; [by apply lookup_app_l_Some|done].
Qed.

Lemma write_bytes_spec st pre acc cnt half bs : gen_at st pre acc cnt half -> 0 <= cnt < 8 ->
  gen_at (with_buffer (write_bytes_to_buffer junk st bs) (g_buffer (write_bytes_to_buffer junk st bs))
    (g_out (write_bytes_to_buffer junk st bs)) 0) (pre ++ bs) 0 0 false.
Proof.
  intros H Hc. destruct (make_space_spec _ _ _ _ _ (Z.of_nat (length bs) * 8) H Hc ltac:(lia)) as [[_ Hp Ho _] He].
  unfold write_bytes_to_buffer.
  change (g_out (make_space_available junk st (Z.of_nat (length bs) * 8))) with (g_out st) in *.
  set (buf := g_buffer (make_space_available _ _ _)) in *. constructor; cbn [with_buffer g_bit g_buffer g_out]; try done.
  - by rewrite take_splice, Hp.
  - rewrite length_splice; lia.
Qed.

(** Setting the byte at the position. *)
Lemma set_byte_spec st pre acc cnt half x bit : gen_at st pre acc cnt half -> (g_out st < length (g_buffer st))%nat ->
  forall acc' half', (x / 2 ^ (8 - bit) = acc' /\ (half' = false -> x = acc' * 2 ^ (8 - bit))) ->
  gen_at (with_buffer st (<[g_out st := x]> (g_buffer st)) (g_out st) bit) pre acc' bit half'.
Proof.
  intros [_ Hp Ho _] Hl acc' half' Hx. constructor; cbn [with_buffer g_bit g_buffer g_out]; try done.
  - by rewrite take_insert_ge by lia.
  - len.
  - intros _. exists x. split; [by apply list_lookup_insert_eq|done].
Qed.

Lemma put_byte_spec st pre acc cnt half x : gen_at st pre acc cnt half -> (g_out st < length (g_buffer st))%nat ->
  gen_at (with_buffer st (<[g_out st := x]> (g_buffer st)) (S (g_out st)) 0) (pre ++ [x]) 0 0 false.
Proof.
  intros [_ Hp Ho _] Hl. constructor; cbn [with_buffer g_bit g_buffer g_out]; try done; [|len].
  rewrite (take_S_r _ _ x) by (by apply list_lookup_insert_eq). by rewrite take_insert_ge, Hp by lia.
Qed.

Definition same_object (st st' : generator) : Prop :=
  g_data st' = g_data st /\ g_attribute_format st' = g_attribute_format st /\
  g_header_length_offset st' = g_header_length_offset st.

Lemma write_bytes_0 st pre half bs : gen_at st pre 0 0 half ->
  gen_at (write_bytes_to_buffer junk st bs) (pre ++ bs) 0 0 false.
Proof.
  intros H. pose proof (write_bytes_spec _ _ _ _ _ bs H ltac:(lia)) as [_ Hp Ho _]. constructor; try done.
  apply (ga_bit _ _ _ _ _ H).
Qed.

(** Integers of whole bytes. *)
Lemma generate_uint_spec st pre half pld ty n name v : gen_at st pre 0 0 half ->
  g_data st = Some pld -> get_field pld name = Some (FInt v) -> int_width ty = Some n ->
  ty <> ATTRIBUTE_LENGTH_OR_VALUE -> ty <> HEADER_LENGTH -> 0 <= v < 256 ^ Z.of_nat n ->
  exists st', generate_u_int_type junk st ty name = Some st' /\ gen_at st' (pre ++ be_bytes n v) 0 0 false /\
    same_object st st'.
Proof.
  intros H Hd Hf Hw Hn1 Hn2 Hv.
  assert (number_of_bits ty = Some (8 * Z.of_nat n)) as Hbits by (destruct ty; try done; by injection Hw as <-).
  destruct (make_space_spec _ _ _ _ _ (8 * Z.of_nat n) H ltac:(lia) ltac:(lia)) as [H' He].
  assert (0 < Z.of_nat n) as Hpos by (destruct ty; try discriminate Hw; injection Hw as <-; lia).
  unfold generate_u_int_type. rewrite Hbits, (ga_bit _ _ _ _ _ H), andb_false_r.
  change (g_data (make_space_available junk st (8 * Z.of_nat n))) with (g_data st). rewrite Hd. cbn [mbind option_bind].
  rewrite Hf. cbn [mbind option_bind]. change (g_out (make_space_available junk st (8 * Z.of_nat n))) with (g_out st).
  assert (g_out st < length (g_buffer (make_space_available junk st (8 * Z.of_nat n))))%nat as Hl by lia.
  destruct (lookup_lt_is_Some_2 _ _ Hl) as [cur ->]. cbn [mbind option_bind].
  destruct (n =? 1)%nat eqn:En.
  - apply Nat.eqb_eq in En as ->. exists (with_buffer (make_space_available junk st (8 * Z.of_nat 1))
      (<[g_out st := v]> (g_buffer (make_space_available junk st (8 * Z.of_nat 1)))) (S (g_out st)) 0).
    assert (g_bit (make_space_available junk st (8 * Z.of_nat 1)) = 0) as Hb0 by apply (ga_bit _ _ _ _ _ H').
    split; [destruct ty; try done; by rewrite Hb0|]. split; [|done].
    cbn [be_bytes]. rewrite Z.pow_0_r, Z.div_1_r, Z.mod_small by (cbn in Hv; lia).
    exact (put_byte_spec _ _ _ _ _ v H' Hl).
  - exists (write_bytes_to_buffer junk (make_space_available junk st (8 * Z.of_nat n)) (be_bytes n v)).
    split; [|split; [by eapply write_bytes_0|done]].
    destruct ty; try done; injection Hw as <-; try done; by rewrite ?htoun16_be, ?htoun32_be.
Qed.

Lemma generate_spi_spec st pre half pld name v : gen_at st pre 0 0 half ->
  g_data st = Some pld -> get_field pld name = Some (FInt v) ->
  exists st', generate_u_int_type junk st IKE_SPI name = Some st' /\ gen_at st' (pre ++ le_image 8 v) 0 0 false /\
    same_object st st'.
Proof.
  intros H Hd Hf. destruct (make_space_spec _ _ _ _ _ 64 H ltac:(lia) ltac:(lia)) as [H' He].
  unfold generate_u_int_type. cbn [number_of_bits]. rewrite (ga_bit _ _ _ _ _ H), andb_false_r.
  change (g_data (make_space_available junk st 64)) with (g_data st). rewrite Hd. cbn [mbind option_bind].
  rewrite Hf. cbn [mbind option_bind]. change (g_out (make_space_available junk st 64)) with (g_out st).
  assert (g_out st < length (g_buffer (make_space_available junk st 64)))%nat as Hl by lia.
  destruct (lookup_lt_is_Some_2 _ _ Hl) as [cur ->]. cbn [mbind option_bind].
  eexists. split; [done|]. split; [by eapply write_bytes_0|done].
Qed.

Lemma generate_chunk_spec st pre half pld name b : gen_at st pre 0 0 half ->
  g_data st = Some pld -> get_field pld name = Some (FChunk b) ->
  exists st', generate_from_chunk junk st name = Some st' /\ gen_at st' (pre ++ b) 0 0 false /\ same_object st st'.
Proof.
  intros H Hd Hf. unfold generate_from_chunk. rewrite (ga_bit _ _ _ _ _ H), Hd. cbn [Z.eqb negb mbind option_bind].
  rewrite Hf. eexists. split; [done|]. split; [by eapply write_bytes_0|done].
Qed.

(** Facts about single bytes are decided by evaluation. *)
Lemma check_below (P : Z -> Z -> bool) n m x y :
  forallb (fun x => forallb (P x) (seqZ 0 m)) (seqZ 0 n) = true -> 0 <= x < n -> 0 <= y < m -> P x y = true.
Proof.
  intros H Hx Hy. rewrite forallb_forall in H. specialize (H x ltac:(apply list_elem_of_In, elem_of_seqZ; lia)).
  cbn beta in H. rewrite forallb_forall in H. apply H. apply list_elem_of_In, elem_of_seqZ. lia.
Qed.

(** Flags are collected from the highest bit on. *)
Lemma flag_byte acc cnt b : acc_ok acc cnt ->
  Z.lor (acc * 2 ^ (8 - cnt)) (u8 (Z.shiftl (Z.b2z b) (7 - cnt))) = (2 * acc + Z.b2z b) * 2 ^ (7 - cnt).
Proof.
  intros [Hc Ha]. pose proof (Z.pow_le_mono_r 2 cnt 7 ltac:(lia) ltac:(lia)) as Hp. change (2 ^ 7) with 128 in Hp.
  pose proof (check_below (fun cnt acc => implb (acc <? 2 ^ cnt) (forallb (fun b =>
      Z.lor (acc * 2 ^ (8 - cnt)) (u8 (Z.shiftl (Z.b2z b) (7 - cnt))) =? (2 * acc + Z.b2z b) * 2 ^ (7 - cnt))
      [true; false])) 8 128 cnt acc ltac:(vm_compute; reflexivity) Hc ltac:(lia)) as H. cbn beta in H.
  replace (acc <? 2 ^ cnt) with true in H by lia. cbn [implb forallb] in H.
  apply andb_true_iff in H as [H1 H2]. apply andb_true_iff in H2 as [H2 _]. destruct b; by apply Z.eqb_eq.
Qed.

Lemma high_nibble v r : 0 <= v < 16 -> 0 <= r < 16 -> Z.lor (u8 (Z.shiftl v 4)) r / 16 = v.
Proof.
  intros Hv Hr. apply Z.eqb_eq.
  exact (check_below (fun v r => Z.lor (u8 (Z.shiftl v 4)) r / 16 =? v) 16 16 v r ltac:(vm_compute; reflexivity) Hv Hr).
Qed.

Lemma low_nibble x v : 0 <= x < 256 -> 0 <= v < 16 -> Z.lor (Z.land x 240) (Z.land v 15) = 16 * (x / 16) + v.
Proof.
  intros Hx Hv. apply Z.eqb_eq.
  exact (check_below (fun x v => Z.lor (Z.land x 240) (Z.land v 15) =? 16 * (x / 16) + v) 256 16 x v
    ltac:(vm_compute; reflexivity) Hx Hv).
Qed.

Lemma generate_flag_spec st pre acc cnt pld name b : gen_at st pre acc cnt false -> acc_ok acc cnt ->
  g_data st = Some pld -> get_field pld name = Some (FBool b) ->
  exists st', generate_flag junk st name = Some st' /\ same_object st st' /\
    (if cnt =? 7 then gen_at st' (pre ++ [2 * acc + Z.b2z b]) 0 0 false
     else gen_at st' pre (2 * acc + Z.b2z b) (cnt + 1) false).
Proof.
  intros H Hok Hd Hf. pose proof (proj1 Hok) as Hcnt.
  destruct (make_space_spec _ _ _ _ _ 1 H Hcnt ltac:(lia)) as [H' He].
  unfold generate_flag. rewrite Hd. cbn [mbind option_bind]. rewrite Hf. cbn [mbind option_bind].
  change (g_out (make_space_available junk st 1)) with (g_out st).
  assert (g_out st < length (g_buffer (make_space_available junk st 1)))%nat as Hl by lia.
  destruct (lookup_lt_is_Some_2 _ _ Hl) as [cur Hcur]. rewrite Hcur. cbn [mbind option_bind].
  rewrite (ga_bit _ _ _ _ _ H'), (ga_bit _ _ _ _ _ H).
  assert ((if cnt =? 0 then 0 else cur) = acc * 2 ^ (8 - cnt)) as ->.
  { destruct (Z.eqb_spec cnt 0) as [->|]; [destruct Hok as [_ Ha]; change (2 ^ 0) with 1 in Ha; replace acc with 0 by lia; done|].
    destruct (ga_acc _ _ _ _ _ H' ltac:(lia)) as (x & Hx & _ & Hz). change (g_out (make_space_available junk st 1)) with (g_out st) in Hx.
    rewrite Hcur in Hx. injection Hx as ->. by apply Hz. }
  rewrite flag_byte by done. eexists. split; [reflexivity|]. destruct (Z.eqb_spec cnt 7) as [->|Hne].
  - change (8 <=? 7 + 1) with true. cbn match. split; [done|].
    change (2 ^ (7 - 7)) with 1. rewrite Z.mul_1_r. exact (put_byte_spec _ _ _ _ _ _ H' Hl).
  - replace (8 <=? cnt + 1) with false by lia. split; [done|].
    apply (set_byte_spec _ _ _ _ _ _ _ H' Hl). replace (8 - (cnt + 1)) with (7 - cnt) by lia.
    split; [|done]. apply Z.div_mul. lia.
Qed.

Lemma generate_uint4_spec st pre acc cnt half pld name v : gen_at st pre acc cnt half -> acc_ok acc cnt ->
  g_data st = Some pld -> get_field pld name = Some (FInt v) -> 0 <= v < 16 -> cnt = 0 \/ cnt = 4 ->
  exists st', generate_u_int_type junk st U_INT_4 name = Some st' /\ same_object st st' /\
    (if cnt =? 0 then gen_at st' pre v 4 true else gen_at st' (pre ++ [16 * acc + v]) 0 0 false).
Proof.
  intros H Hok Hd Hf Hv Hcnt. destruct (make_space_spec _ _ _ _ _ 4 H ltac:(lia) ltac:(lia)) as [H' He].
  unfold generate_u_int_type. cbn [number_of_bits]. change (4 mod 8 =? 0) with false. cbn [andb].
  change (g_data (make_space_available junk st 4)) with (g_data st). rewrite Hd. cbn [mbind option_bind].
  rewrite Hf. cbn [mbind option_bind]. change (g_out (make_space_available junk st 4)) with (g_out st).
  assert (g_out st < length (g_buffer (make_space_available junk st 4)))%nat as Hl by lia.
  destruct (lookup_lt_is_Some_2 _ _ Hl) as [cur Hcur]. rewrite Hcur. cbn [mbind option_bind].
  rewrite (ga_bit _ _ _ _ _ H').
  destruct Hcnt as [->| ->]; cbn [Z.eqb Pos.eqb]; eexists; (split; [reflexivity|]); (split; [done|]).
  - apply (set_byte_spec _ _ _ _ _ _ _ H' Hl). change (2 ^ (8 - 4)) with 16. split; [|done].
    change 15 with (Z.ones 4). rewrite Z.land_ones by lia. apply high_nibble; [done|]. by apply Z.mod_pos_bound.
  - destruct (ga_acc _ _ _ _ _ H' ltac:(lia)) as (x & Hx & Hacc & _). change (2 ^ (8 - 4)) with 16 in Hacc.
    change (g_out (make_space_available junk st 4)) with (g_out st) in Hx. rewrite Hcur in Hx. injection Hx as ->.
    destruct Hok as [_ Hok]. change (2 ^ 4) with 16 in Hok. pose proof (Z.div_mod x 16). pose proof (Z.mod_pos_bound x 16).
    rewrite low_nibble, Hacc by lia. exact (put_byte_spec _ _ _ _ _ _ H' Hl).
Qed.

Lemma generate_type_spec st pre acc pld name v : gen_at st pre acc 1 false -> acc_ok acc 1 ->
  g_data st = Some pld -> get_field pld name = Some (FInt v) -> 0 <= v < 32768 ->
  exists st', generate_u_int_type junk st ATTRIBUTE_TYPE name = Some st' /\ same_object st st' /\
    gen_at st' (pre ++ be_bytes 2 (32768 * acc + v)) 0 0 false.
Proof.
  intros H [_ Hacc] Hd Hf Hv. destruct (make_space_spec _ _ _ _ _ 15 H ltac:(lia) ltac:(lia)) as [H' He].
  unfold generate_u_int_type. cbn [number_of_bits]. change (15 mod 8 =? 0) with false. cbn [andb].
  change (g_data (make_space_available junk st 15)) with (g_data st). rewrite Hd. cbn [mbind option_bind].
  rewrite Hf. cbn [mbind option_bind]. change (g_out (make_space_available junk st 15)) with (g_out st).
  destruct (ga_acc _ _ _ _ _ H' ltac:(lia)) as (x & Hx & _ & Hz). specialize (Hz eq_refl).
  change (g_out (make_space_available junk st 15)) with (g_out st) in Hx. rewrite Hx. cbn [mbind option_bind].
  rewrite (ga_bit _ _ _ _ _ H'). change (negb (1 =? 1)) with false. cbn match.
  change (Z.land v 32767) with (Z.land v (Z.ones 15)). rewrite Z.land_ones, Z.mod_small by (simpl; lia).
  assert ((if negb (Z.land x 128 =? 0) then Z.lor v 32768 else v) = 32768 * acc + v) as ->.
  { change (2 ^ 1) with 2 in Hacc. change (2 ^ (8 - 1)) with 128 in Hz. assert (acc = 0 \/ acc = 1) as [->| ->] by lia; subst x.
    - done.
    - change (Z.land (1 * 128) 128 =? 0) with false. cbn [negb]. rewrite Z.lor_comm, <- Z.lxor_lor, <- Z.add_nocarry_lxor; [lia| |];
        apply Z.bits_inj'; intros i Hi; rewrite Z.land_spec, Z.bits_0, (Z.pow2_bits_eqb 15) by lia;
        (destruct (Z.eqb_spec 15 i) as [<-|]; [by rewrite (testbit_above v 15) by (simpl; lia)|done]). }
  rewrite htoun16_be. eexists. split; [reflexivity|]. split; [done|]. exact (write_bytes_spec _ _ _ _ _ _ H' ltac:(lia)).
Qed.

(** Configuration attributes of IKEv2 have a value but no format, they rely on the format
    the generator has from an attribute before. *)
Definition relies_on_format (cls : payload_class) : bool :=
  match cls with
  | Known PLV2_CONFIGURATION | Known PLV2_CONFIGURATION_ATTRIBUTE => true
  | _ => false
  end.

(** The payloads with attributes that have a format. *)
Definition sets_format (cls : payload_class) : bool :=
  match cls with
  | Known PLV2_SECURITY_ASSOCIATION | Known PLV1_SECURITY_ASSOCIATION | Known PLV2_PROPOSAL_SUBSTRUCTURE
  | Known PLV1_PROPOSAL_SUBSTRUCTURE | Known PLV2_TRANSFORM_SUBSTRUCTURE | Known PLV1_TRANSFORM_SUBSTRUCTURE
  | Known PLV2_TRANSFORM_ATTRIBUTE | Known PLV1_TRANSFORM_ATTRIBUTE | Known PLV1_CONFIGURATION
  | Known PLV1_CONFIGURATION_ATTRIBUTE => true
  | _ => false
  end.

(** The format is set before a value is generated. *)
Fixpoint format_first (known : bool) (rules : list encoding_rule_t) : bool :=
  match rules with
  | [] => true
  | (ATTRIBUTE_FORMAT, _) :: rules => format_first true rules
  | (ATTRIBUTE_VALUE, _) :: rules => known && format_first known rules
  | _ :: rules => format_first known rules
  end.

Lemma tables_format cls : format_first (relies_on_format cls) (get_encoding_rules cls) = true.
Proof. destruct cls as [[]|]; vm_compute; reflexivity. Qed.

Lemma tables_relies cls r : r ∈ get_encoding_rules cls ->
  match fst r with
  | ATTRIBUTE_FORMAT => sets_format cls = true
  | PAYLOAD_LIST t => relies_on_format (Known t) = relies_on_format cls /\
                      sets_format (Known t) = sets_format cls /\ t <> PL_HEADER
  | HEADER_LENGTH => cls = Known PL_HEADER
  | _ => True
  end.
Proof.
  intros Hin. assert (forallb (fun r : encoding_rule_t => match fst r with
    | ATTRIBUTE_FORMAT => sets_format cls
    | PAYLOAD_LIST t => Bool.eqb (relies_on_format (Known t)) (relies_on_format cls) &&
        Bool.eqb (sets_format (Known t)) (sets_format cls) && bool_decide (t <> PL_HEADER)
    | HEADER_LENGTH => bool_decide (cls = Known PL_HEADER)
    | _ => true end) (get_encoding_rules cls) = true) as H by (destruct cls as [[]|]; vm_compute; reflexivity).
  rewrite forallb_forall in H. apply list_elem_of_In in Hin. apply H in Hin. destruct (fst r); try done.
  - by apply bool_decide_eq_true in Hin.
  - apply andb_true_iff in Hin as [Hin Hn%bool_decide_eq_true]. apply andb_true_iff in Hin as [H1%eqb_prop H2%eqb_prop].
    done.
Qed.

Lemma relies_keeps cls : relies_on_format cls = true -> sets_format cls = false.
Proof. destruct cls as [[]|]; done. Qed.

(** What a payload leaves of the state: the format, unless it has one, and the position
    of the length field, unless it is the header. *)
Definition payload_leaves (st st' : generator) (cls : payload_class) : Prop :=
  (sets_format cls = false -> g_attribute_format st' = g_attribute_format st) /\
  (cls <> Known PL_HEADER -> g_header_length_offset st' = g_header_length_offset st).

(** What is needed of the generator [gen] of substructures. *)
Definition gen_spec (gen : generator -> payload -> option generator) (enc : payload -> option chunk)
    (cls : payload_class) : Prop :=
  forall st p b pre, class_of p = cls -> gen_at st pre 0 0 false -> enc p = Some b ->
  (relies_on_format cls = true -> g_attribute_format st = false) ->
  exists st', gen st p = Some st' /\ gen_at st' (pre ++ b) 0 0 false /\ payload_leaves st st' cls /\
    (cls = Known PL_HEADER -> g_header_length_offset st' = (length (pre ++ b) - 4)%nat).

Section GenerateRules.
Context (gen : generator -> payload -> option generator) (enc : payload -> option chunk) (cls : payload_class).
Context (Hgen : forall t name, (PAYLOAD_LIST t, name) ∈ get_encoding_rules cls -> gen_spec gen enc (Known t)).

Lemma generate_list_spec t l : gen_spec gen enc (Known t) -> forall st pre bs, gen_at st pre 0 0 false ->
  encode_list enc l = Some bs -> forallb (fun p => bool_decide (class_of p = Known t)) l = true ->
  (relies_on_format (Known t) = true -> g_attribute_format st = false) ->
  exists st', foldl (fun st p => st ← st; gen st p) (Some st) l = Some st' /\ gen_at st' (pre ++ bs) 0 0 false /\
    payload_leaves st st' (Known t).
Proof.
  intros Hg. induction l as [|p l IH]; intros st pre bs H He Hc Hf; cbn [foldl encode_list forallb] in *.
  - injection He as <-. exists st. by rewrite app_nil_r.
  - apply andb_true_iff in Hc as [Hp%bool_decide_eq_true Hc]. destruct (enc p) as [b|] eqn:Eb; [|done].
    destruct (encode_list enc l) as [bs'|]; [|done]. injection He as <-. cbn [mbind option_bind].
    destruct (Hg st p b pre Hp H Eb Hf) as (st1 & -> & H1 & [Hf1 Hl1] & _).
    destruct (IH st1 (pre ++ b) bs' H1 eq_refl Hc) as (st2 & -> & H2 & [Hf2 Hl2]).
    { intros Hr. rewrite Hf1 by (by apply relies_keeps). by apply Hf. }
    exists st2. rewrite app_assoc. split; [done|]. split; [done|]. split; intros Hn; [by rewrite Hf2, Hf1|by rewrite Hl2, Hl1].
Qed.

(** What a rule leaves: the object and the format, if it is not a list, which is last. *)
Definition rule_leaves (st st' : generator) (ty : encoding_type_t) (f : field) : Prop :=
  match ty with
  | PAYLOAD_LIST t => payload_leaves st st' (Known t)
  | ATTRIBUTE_FORMAT =>
    g_data st' = g_data st /\ g_header_length_offset st' = g_header_length_offset st /\
    f = FBool (g_attribute_format st')
  | HEADER_LENGTH =>
    g_data st' = g_data st /\ g_attribute_format st' = g_attribute_format st /\ g_header_length_offset st' = g_out st
  | _ => same_object st st'
  end.

Definition half_next (ty : encoding_type_t) (cnt : Z) : bool := bool_decide (ty = U_INT_4) && (cnt =? 0).

Lemma rule_int_spec st pre pld half c acc acc' cnt' ty n name v out : int_width ty = Some n ->
  gen_at st pre acc 0 half -> acc = 0 -> g_data st = Some pld -> get_field pld name = Some (FInt v) ->
  encode_field enc cls c acc 0 ty (FInt v) = Some (out, acc', cnt') ->
  exists st', generate_rule junk gen st (ty, name) = Some st' /\
    gen_at st' (pre ++ out) acc' cnt' false /\ rule_leaves st st' ty (FInt v).
Proof.
  intros Hw H -> Hd Hf He. rewrite (encode_field_int _ _ _ _ _ _ _ _ Hw) in He.
  destruct (in_range v _) eqn:Hv; [|done]. apply in_range_true in Hv.
  destruct (_ && _) in He; [|done]. assert (out = be_bytes n v /\ acc' = 0 /\ cnt' = 0) as (-> & -> & ->) by (by injection He).
  destruct (decide (ty = ATTRIBUTE_LENGTH_OR_VALUE)) as [->|Hn1].
  - injection Hw as <-. cbn [generate_rule].
    destruct (generate_uint_spec st pre half pld U_INT_16 2 name v H Hd Hf eq_refl) as (st' & -> & H' & Hs); try done.
    cbn [mbind option_bind]. rewrite Hd. cbn [mbind option_bind]. rewrite Hf.
    destruct (g_attribute_format st); eexists; (split; [reflexivity|split; [|exact Hs]]); [done|by destruct H'].
  - destruct (decide (ty = HEADER_LENGTH)) as [->|Hn2].
    + injection Hw as <-. cbn [generate_rule].
      destruct (generate_uint_spec (Gen (g_buffer st) (g_out st) (g_bit st) (g_data st) (g_out st) (g_attribute_format st)
         (g_attribute_length st)) pre half pld U_INT_32 4 name v) as (st' & E & H' & Hs); try done; [by destruct H|].
      by exists st'.
    + destruct (generate_uint_spec st pre half pld ty n name v) as (st' & E & H' & Hs); try done.
      exists st'. by destruct ty.
Qed.

Lemma rule_small_spec st pre pld half c acc acc' cnt cnt' ty name todo v out : int_width ty = None ->
  gen_at st pre acc cnt half -> acc_ok acc cnt -> (cnt = 0 -> acc = 0) ->
  g_data st = Some pld -> get_field pld name = Some (FInt v) -> aligned cnt half ((ty, name) :: todo) = true ->
  encode_field enc cls c acc cnt ty (FInt v) = Some (out, acc', cnt') ->
  exists st', generate_rule junk gen st (ty, name) = Some st' /\
    gen_at st' (pre ++ out) acc' cnt' (half_next ty cnt) /\ same_object st st'.
Proof.
  intros Hw H Hok Hacc Hd Hf Ha He. pose proof (aligned_zero _ _ _ _ _ Ha) as Hz.
  destruct ty; try discriminate Hw; try discriminate He; cbn [generate_rule encode_field half_next] in *.
  - destruct (in_range v 16) eqn:Hv; [|done]. apply in_range_true in Hv. cbn [negb] in He.
    assert (cnt = 0 \/ cnt = 4) as Hc by (split_ifs; simplify_eq; lia).
    destruct (generate_uint4_spec st pre acc cnt half pld name v H Hok Hd Hf Hv Hc) as (st' & E & Hs & H').
    exists st'. split; [done|]. destruct Hc as [->| ->]; cbn in He, H'; injection He as <- <- <-; rewrite ?app_nil_r; done.
  - destruct (in_range v 32768) eqn:Hv; [|done]. apply in_range_true in Hv. cbn [andb] in He.
    destruct (Z.eqb_spec cnt 1) as [->|]; [|done]. cbn in Ha. destruct half; [done|].
    destruct (generate_type_spec st pre acc pld name v H Hok Hd Hf Hv) as (st' & E & Hs & H').
    remember (be_bytes 2 _) as w. injection He as <- <- <-. by exists st'.
  - subst cnt. destruct (_ && _) in He; [|done]. rewrite (Hacc eq_refl) in H.
    destruct (generate_spi_spec st pre half pld name v H Hd Hf) as (st' & E & H' & Hs).
    remember (le_image 8 v) as w. injection He as <- <- <-. by exists st'.
Qed.

Lemma rule_flag_spec st pre pld half c acc acc' cnt cnt' ty name todo b out :
  gen_at st pre acc cnt half -> acc_ok acc cnt -> g_data st = Some pld -> get_field pld name = Some (FBool b) ->
  aligned cnt half ((ty, name) :: todo) = true ->
  encode_field enc cls c acc cnt ty (FBool b) = Some (out, acc', cnt') ->
  exists st', generate_rule junk gen st (ty, name) = Some st' /\
    gen_at st' (pre ++ out) acc' cnt' (half_next ty cnt) /\ rule_leaves st st' ty (FBool b).
Proof.
  intros H Hok Hd Hf Ha He. cbn [encode_field] in He. destruct (is_flag ty) eqn:Hfl; [|done]. cbn [negb] in He.
  assert (half = false) as -> by (destruct ty; try discriminate Hfl; by destruct half).
  assert (half_next ty cnt = false) as -> by (by destruct ty).
  destruct (generate_flag_spec st pre acc cnt pld name b H Hok Hd Hf) as (st' & E & Hs & H').
  assert (gen_at st' (pre ++ out) acc' cnt' false) as H2
    by (destruct (cnt =? 7); injection He as <- <- <-; by rewrite ?app_nil_r).
  destruct ty; try discriminate Hfl; cbn [generate_rule rule_leaves]; [by exists st'|by exists st'|].
  rewrite E. cbn [mbind option_bind]. rewrite (proj1 Hs), Hd. cbn [mbind option_bind]. rewrite Hf.
  eexists. split; [reflexivity|]. split; [by destruct H2|]. split_and!; cbn; [congruence|apply Hs|done].
Qed.

Lemma rule_chunk_spec st pre pld half c acc acc' cnt' ty name b out :
  gen_at st pre acc 0 half -> acc = 0 -> g_data st = Some pld -> get_field pld name = Some (FChunk b) ->
  encode_field enc cls c acc 0 ty (FChunk b) = Some (out, acc', cnt') ->
  (ty = ATTRIBUTE_VALUE -> g_attribute_format st = attribute_format c) ->
  exists st', generate_rule junk gen st (ty, name) = Some st' /\
    gen_at st' (pre ++ out) acc' cnt' false /\ same_object st st'.
Proof.
  intros H -> Hd Hf He Hval. cbn [encode_field] in He. destruct (chunk_fits _ _ _ _) eqn:Hc; [|done].
  destruct (_ && _) in He; [|done]. injection He as <- <- <-.
  destruct (generate_chunk_spec st pre half pld name b H Hd Hf) as (st' & E & H' & Hs).
  destruct (decide (ty = ATTRIBUTE_VALUE /\ attribute_format c = true)) as [[-> Hfmt]|Hn].
  - cbn [generate_rule chunk_fits] in *. rewrite Hval, Hfmt by done. rewrite Hfmt in Hc. exists st. split; [done|].
    assert (b = []) as -> by (apply length_zero_iff_nil; lia). rewrite app_nil_r. split; [|done]. by destruct H.
  - exists st'. split; [|done]. destruct ty; try discriminate Hc; cbn [generate_rule]; try done.
    rewrite Hval by done. destruct (attribute_format c); [by destruct Hn|done].
Qed.

Lemma generate_rule_spec st pre pld half c acc acc' cnt cnt' ty name todo f out :
  gen_at st pre acc cnt half -> acc_ok acc cnt -> g_data st = Some pld -> get_field pld name = Some f ->
  aligned cnt half ((ty, name) :: todo) = true -> (ty, name) ∈ get_encoding_rules cls ->
  encode_field enc cls c acc cnt ty f = Some (out, acc', cnt') ->
  (ty = ATTRIBUTE_VALUE -> g_attribute_format st = attribute_format c) ->
  (forall t, ty = PAYLOAD_LIST t -> relies_on_format (Known t) = true -> g_attribute_format st = false) ->
  exists st', generate_rule junk gen st (ty, name) = Some st' /\
    gen_at st' (pre ++ out) acc' cnt' (half_next ty cnt) /\ rule_leaves st st' ty f.
Proof using Hgen.
  intros H Hok Hd Hf Ha Hin He Hval Hlist. pose proof (aligned_zero _ _ _ _ _ Ha) as Hz.
  assert (cnt = 0 -> acc = 0) as Hacc by (intros ->; destruct Hok as [_ Hok]; change (2 ^ 0) with 1 in Hok; lia).
  destruct f as [v|b|b|l].
  - destruct (int_width ty) as [n|] eqn:Hw.
    + assert (cnt = 0) as -> by (by destruct ty). specialize (Hacc eq_refl).
      destruct (rule_int_spec _ _ _ _ _ _ _ _ _ _ _ _ _ Hw H Hacc Hd Hf He) as (st' & E & H' & Hs).
      exists st'. split; [done|]. split; [|done]. by destruct ty.
    + destruct (rule_small_spec _ _ _ _ _ _ _ _ _ _ _ _ _ _ Hw H Hok Hacc Hd Hf Ha He) as (st' & E & H' & Hs).
      exists st'. split; [done|]. split; [done|]. by destruct ty.
  - by eapply rule_flag_spec.
  - assert (chunk_fits cls c ty (length b) = true) as Hc by (cbn in He; by destruct (chunk_fits _ _ _ _)).
    assert (cnt = 0) as -> by (by destruct ty). specialize (Hacc eq_refl).
    destruct (rule_chunk_spec _ _ _ _ _ _ _ _ _ _ _ _ H Hacc Hd Hf He Hval) as (st' & E & H' & Hs).
    exists st'. split; [done|]. by destruct ty.
  - destruct ty; try discriminate He. subst cnt. rewrite (Hacc eq_refl) in *. cbn [encode_field Z.eqb] in He.
    unfold encode_sub in He. destruct (encode_list enc l) as [bs|] eqn:El; [|done]. cbn [mbind option_bind] in He.
    destruct (_ && _) eqn:Hc in He; [|done]. injection He as <- <- <-. apply andb_true_iff in Hc as [Hc _].
    cbn [generate_rule]. rewrite Hd. cbn [mbind option_bind]. rewrite Hf.
    apply (generate_list_spec type l (Hgen type name Hin)); try done; [by destruct H|by apply Hlist].
Qed.

Lemma encode_header_length c acc cnt f out acc' cnt' :
  encode_field enc cls c acc cnt HEADER_LENGTH f = Some (out, acc', cnt') -> length out = 4%nat.
Proof.
  destruct f; cbn [encode_field int_width]; intros He; try done. destruct (_ && _); [|done].
  injection He as He _ _. by rewrite <- He.
Qed.

Lemma last_cons_ne {B : Type} (x : B) l : l <> [] -> list.last (x :: l) = list.last l.
Proof. by destruct l. Qed.

Lemma generate_rules_spec p todo : forall st pre c acc cnt half known done_ fs0 fs bs,
  get_encoding_rules cls = done_ ++ todo -> p = Payload cls (fs0 ++ fs) -> length fs0 = length done_ ->
  gen_at st pre acc cnt half -> acc_ok acc cnt -> (todo <> [] -> g_data st = Some p) ->
  aligned cnt half todo = true -> encode_rules enc cls c acc cnt todo fs = Some bs ->
  format_first known todo = true -> (known = true -> todo <> [] -> g_attribute_format st = attribute_format c) ->
  (relies_on_format cls = true -> g_attribute_format st = false) ->
  exists st', foldl (fun st r => st ← st; generate_rule junk gen st r) (Some st) todo = Some st' /\
    gen_at st' (pre ++ bs) 0 0 false /\ payload_leaves st st' cls /\
    (list.last todo.*1 = Some HEADER_LENGTH -> g_header_length_offset st' = (length (pre ++ bs) - 4)%nat).
Proof using Hgen.
  induction todo as [|[ty name] todo IH];
    intros st pre c acc cnt half known done_ fs0 [|f fs] bs Hr Hp Hl H Hok Hd Ha He Hff Hkn Hrel;
    cbn [encode_rules foldl] in *; try done.
  { destruct (Z.eqb_spec cnt 0) as [->|]; [|done]. injection He as <-. exists st. rewrite app_nil_r.
    split; [done|]. split; [by destruct H|done]. }
  specialize (Hd ltac:(done)).
  destruct (encode_field enc cls c acc cnt ty f) as [[[out acc'] cnt']|] eqn:Ef; [|done]. cbn [mbind option_bind] in *.
  destruct (encode_rules enc cls _ acc' cnt' todo fs) as [bs'|] eqn:Er; [|done]. injection He as <-.
  assert ((ty, name) ∈ get_encoding_rules cls) as Hin by (rewrite Hr; apply elem_of_app; right; left).
  pose proof (tables_relies _ _ Hin) as Ht. cbn [fst] in Ht.
  destruct (generate_rule_spec st pre p half c acc acc' cnt cnt' ty name todo f out) as (st1 & -> & H1 & Hlv); try done.
  { rewrite Hp. by apply (get_field_at _ done_ ty name todo). }
  { intros ->. cbn in Hff. apply Hkn; [by destruct known|done]. }
  { intros t ->. destruct Ht as [-> _]. done. }
  assert (forall t, ty = PAYLOAD_LIST t -> todo = []) as Hlast by (intros t ->; by apply aligned_last in Ha).
  assert (payload_leaves st st1 cls) as [Hf1 Hl1].
  { split; intros Hn; destruct ty; try (by apply Hlv); try congruence; destruct Ht as (_ & Hsf & Hnh); apply Hlv;
      congruence. }
  destruct (IH st1 (pre ++ out) (next_ctx c ty f) acc' cnt' (half_next ty cnt)
    (if decide (ty = ATTRIBUTE_FORMAT) then true else known) (done_ ++ [(ty, name)]) (fs0 ++ [f]) fs bs')
    as (st2 & E2 & H2 & [Hf2 Hl2] & Hh2); try done.
  - by rewrite Hr, <- app_assoc.
  - by rewrite Hp, <- app_assoc.
  - len.
  - by eapply acc_ok_step.
  - intros Hne. destruct ty; try (by rewrite (proj1 Hlv)). by destruct (Hne (Hlast _ eq_refl)).
  - eapply aligned_step; [exact (proj1 Hok)|done|done].
  - destruct ty; cbn in Hff |- *; try done. by destruct known.
  - intros Hk Hne. destruct ty; cbn in Hk |- *; try (by rewrite (proj1 (proj2 Hlv)); destruct f; apply Hkn).
    + destruct Hlv as (_ & _ & ->). done.
    + by destruct (Hne (Hlast _ eq_refl)).
  - intros Hrl. rewrite Hf1 by (by apply relies_keeps). by apply Hrel.
  - exists st2. rewrite app_assoc. split; [done|]. split; [done|].
    split; [split; intros Hn; [by rewrite Hf2, Hf1|by rewrite Hl2, Hl1]|].
    intros Hlh. destruct todo as [|r todo]; [|apply Hh2; by rewrite fmap_cons, last_cons_ne in Hlh].
    cbn in Hlh. injection Hlh as ->. destruct fs; [|done]. cbn [encode_rules] in Er. destruct (cnt' =? 0); [|done].
    injection Er as <-. cbn [foldl] in E2. injection E2 as ->. destruct Hlv as (_ & _ & ->).
    rewrite <- (ga_pre _ _ _ _ _ H), app_nil_r, length_app, (encode_header_length _ _ _ _ _ _ _ Ef), length_take.
    pose proof (ga_out _ _ _ _ _ H). lia.
Qed.

(** The rules in front of [todo2] when none of them is a list or depends on the format;
    [bs2] is what [todo2] should write. *)
Definition plain_rule (r : encoding_rule_t) : bool :=
  match fst r with PAYLOAD_LIST _ | ATTRIBUTE_FORMAT | ATTRIBUTE_VALUE | HEADER_LENGTH => false | _ => true end.

Lemma generate_prefix_spec p todo2 todo1 : forall st pre c acc cnt half done_ fs0 fs bs,
  get_encoding_rules cls = done_ ++ todo1 ++ todo2 -> p = Payload cls (fs0 ++ fs) -> length fs0 = length done_ ->
  gen_at st pre acc cnt half -> acc_ok acc cnt -> g_data st = Some p ->
  aligned cnt half (todo1 ++ todo2) = true -> encode_rules enc cls c acc cnt (todo1 ++ todo2) fs = Some bs ->
  forallb plain_rule todo1 = true ->
  exists st' out fs1 fs2 bs2 c' acc' cnt' half',
    foldl (fun st r => st ← st; generate_rule junk gen st r) (Some st) todo1 = Some st' /\
    gen_at st' (pre ++ out) acc' cnt' half' /\ same_object st st' /\ fs = fs1 ++ fs2 /\ length fs1 = length todo1 /\
    encode_rules enc cls c' acc' cnt' todo2 fs2 = Some bs2 /\ bs = out ++ bs2 /\
    attribute_format c' = attribute_format c.
Proof using Hgen.
  induction todo1 as [|[ty name] todo1 IH]; intros st pre c acc cnt half done_ fs0 fs bs Hr Hp Hl H Hok Hd Ha He Hpl.
  { exists st, [], [], fs, bs, c, acc, cnt, half. by rewrite app_nil_r. }
  cbn [app encode_rules foldl forallb] in *. apply andb_true_iff in Hpl as [Hty Hpl]. destruct fs as [|f fs]; [done|].
  destruct (encode_field enc cls c acc cnt ty f) as [[[out acc'] cnt']|] eqn:Ef; [|done]. cbn [mbind option_bind] in *.
  destruct (encode_rules enc cls _ acc' cnt' (todo1 ++ todo2) fs) as [bs'|] eqn:Er; [|done]. injection He as <-.
  assert ((ty, name) ∈ get_encoding_rules cls) as Hin by (rewrite Hr; apply elem_of_app; right; left).
  destruct (generate_rule_spec st pre p half c acc acc' cnt cnt' ty name (todo1 ++ todo2) f out) as (st1 & -> & H1 & Hlv);
    try done.
  { rewrite Hp. by apply (get_field_at _ done_ ty name (todo1 ++ todo2)). }
  { intros ->. done. }
  { intros t ->. done. }
  assert (same_object st st1) as Hs by (by destruct ty).
  destruct (IH st1 (pre ++ out) (next_ctx c ty f) acc' cnt' (half_next ty cnt) (done_ ++ [(ty, name)]) (fs0 ++ [f]) fs bs')
    as (st2 & out2 & fs1 & fs2 & bs2 & c2 & acc2 & cnt2 & half2 & E2 & H2 & Hs2 & -> & Hl2 & Er2 & -> & Hc2); try done.
  - by rewrite Hr, <- app_assoc.
  - by rewrite Hp, <- app_assoc.
  - len.
  - by eapply acc_ok_step.
  - by rewrite (proj1 Hs).
  - eapply aligned_step; [exact (proj1 Hok)|done|done].
  - assert (same_object st st2) as Hs3 by (destruct Hs as (? & ? & ?), Hs2 as (? & ? & ?); split_and!; congruence).
    exists st2, (out ++ out2), (f :: fs1), fs2, bs2, c2, acc2, cnt2, half2. rewrite <- app_assoc in H2.
    repeat (split; [done|]). split; [cbn; by rewrite Hl2|]. split; [done|].
    split; [by rewrite app_assoc|]. rewrite Hc2. by destruct ty, f.
Qed.

(** A value is left out while the format is set. *)
Lemma generate_value_skipped st pre name cnt acc half c fs bs : gen_at st pre acc cnt half -> g_attribute_format st = true ->
  encode_rules enc cls c acc cnt [(ATTRIBUTE_VALUE, name)] fs = Some bs ->
  fs = [FChunk bs] /\ generate_rule junk gen st (ATTRIBUTE_VALUE, name) = Some st /\ gen_at st pre 0 0 false /\
  (attribute_format c = true -> bs = []).
Proof.
  intros H Hf. destruct fs as [|f [|f' fs]]; cbn [encode_rules]; try done.
  - destruct f as [v|b|b|l]; cbn [encode_field]; try done. destruct (_ && _) eqn:Hc; [|done]. cbn.
    rewrite app_nil_r. intros [= ->]. apply andb_true_iff in Hc as [[Hc _]%andb_true_iff Hz]. assert (cnt = 0) as -> by lia.
    split; [done|]. split; [cbn; by rewrite Hf|]. split; [by destruct H|]. intros Hcf. cbn in Hc. rewrite Hcf in Hc.
    apply length_zero_iff_nil. lia.
  - by destruct (encode_field _ _ _ _ _ _ _) as [[[? ?] ?]|].
Qed.
End GenerateRules.

Lemma tables_header_length cls : list.last (get_encoding_rules cls).*1 = Some HEADER_LENGTH <-> cls = Known PL_HEADER.
Proof. destruct cls as [t|]; [destruct t|]; by cbn. Qed.

Theorem generate_payload_spec fuel cls : (rank cls <= fuel)%nat ->
  gen_spec (generate_payload junk fuel) (encode fuel) cls.
Proof.
  revert cls. induction fuel as [|fuel IH]; intros cls Hr; [pose proof (rank_pos cls); lia|].
  intros st p b pre Hc H He Hrel. cbn [generate_payload encode] in *. destruct p as [cls' fs]. cbn [class_of fields_of] in *.
  subst cls'. pose proof (proj2 (tables_header_length cls)) as Hh.
  destruct (generate_rules_spec (generate_payload junk fuel) (encode fuel) cls) with (p := Payload cls fs)
    (todo := get_encoding_rules cls) (bs := b) (pre := pre)
    (st := Gen (g_buffer st) (g_out st) (g_bit st) (Some (Payload cls fs)) (g_header_length_offset st)
                (g_attribute_format st) (g_attribute_length st))
    (c := Ctx 0 0 0 0 false) (acc := 0) (cnt := 0) (half := false) (known := relies_on_format cls) (done_ := @nil encoding_rule_t)
    (fs0 := @nil field) (fs := fs) as (st' & E & H' & Hlv & Hl); try done;
    [..|exists st'; split; [exact E|]; split; [done|]; split; [done|]; intros Hc; apply Hl, Hh, Hc].
  - intros t name Hin. apply IH. destruct (substructure_facts _ _ _ Hin). lia.
  - by destruct H.
  - apply tables_aligned.
  - apply tables_format.
  - intros Hk _. by apply Hrel.
Qed.

(** ** The format that is kept *)

(** The state in which the rules of the payload are run. *)
Definition start (st : generator) (p : payload) : generator :=
  Gen (g_buffer st) (g_out st) (g_bit st) (Some p) (g_header_length_offset st) (g_attribute_format st)
    (g_attribute_length st).

Lemma start_at st pre p : gen_at st pre 0 0 false -> gen_at (start st p) pre 0 0 false.
Proof. by intros []. Qed.

Lemma substructures_spec fuel cls t name : (rank cls <= S fuel)%nat -> (PAYLOAD_LIST t, name) ∈ get_encoding_rules cls ->
  gen_spec (generate_payload junk fuel) (encode fuel) (Known t).
Proof. intros Hr Hin. apply generate_payload_spec. destruct (substructure_facts _ _ _ Hin). lia. Qed.

(** A transform attribute sets the format to its own. *)
Lemma transform_attribute_sets fuel st pre a b :
  gen_at st pre 0 0 false -> class_of a = Known PLV2_TRANSFORM_ATTRIBUTE -> encode (S fuel) a = Some b ->
  get_field a "attribute_format" = Some (FBool true) ->
  exists st', generate_payload junk (S fuel) st a = Some st' /\ gen_at st' (pre ++ b) 0 0 false /\
    g_attribute_format st' = true.
Proof.
  intros H Hc He Hf. destruct a as [cls fs]. cbn [class_of] in Hc. subst cls. cbn [generate_payload encode] in *.
  cbn [class_of fields_of] in He |- *. set (cls := Known PLV2_TRANSFORM_ATTRIBUTE) in *. set (a := Payload cls fs) in *.
  fold (start st a).
  change (get_encoding_rules cls) with ((ATTRIBUTE_FORMAT, "attribute_format"%string) ::
    [(ATTRIBUTE_TYPE, "attribute_type"%string); (ATTRIBUTE_LENGTH_OR_VALUE, "attribute_length_or_value"%string)] ++
    [(ATTRIBUTE_VALUE, "attribute_value"%string)]) in *.
  destruct fs as [|f fs]; [done|]. assert (f = FBool true) as -> by (by injection Hf).
  set (todo := [_; _] ++ [_]) in *. cbn [encode_rules foldl encode_field is_flag negb Z.eqb mbind option_bind app] in He |- *.
  destruct (encode_rules _ _ _ _ _ todo fs) as [bs|] eqn:Er; [|done]. injection He as <-.
  destruct (rule_flag_spec (generate_payload junk fuel) (encode fuel) cls (start st a) pre a false (Ctx 0 0 0 0 false) 0 1 0 1
    ATTRIBUTE_FORMAT "attribute_format" todo true []) as (st1 & E1 & H1 & Hd1 & _ & Hf1); try done; [by apply start_at|].
  cbn [mbind option_bind] in E1. rewrite E1. injection Hf1 as Hf1. rewrite app_nil_r in H1. subst todo. rewrite foldl_app.
  destruct (generate_prefix_spec (generate_payload junk fuel) (encode fuel) cls) with (p := a) (st := st1) (pre := pre)
    (todo1 := [(ATTRIBUTE_TYPE, "attribute_type"%string); (ATTRIBUTE_LENGTH_OR_VALUE, "attribute_length_or_value"%string)])
    (todo2 := [(ATTRIBUTE_VALUE, "attribute_value"%string)]) (done_ := [(ATTRIBUTE_FORMAT, "attribute_format"%string)])
    (fs0 := [FBool true]) (fs := fs) (bs := bs) (c := Ctx 0 0 0 0 true) (acc := 1) (cnt := 1) (half := false)
    as (st2 & out2 & fs1 & fs2 & bs2 & c2 & acc2 & cnt2 & half2 & E2 & H2 & Hs2 & Hfs & Hl2 & Er2 & -> & Hc2); try done.
  { intros t name Hin. eapply substructures_spec; [|exact Hin]. cbn. lia. }
  assert (g_attribute_format st2 = true) as Hf2 by (destruct Hs2 as (_ & -> & _); done).
  destruct (generate_value_skipped (generate_payload junk fuel) _ _ _ _ _ _ _ _ _ _ _ H2 Hf2 Er2) as (-> & Ev & H3 & Hnil).
  rewrite (Hnil Hc2), app_nil_r. exists st2. split; [|done]. rewrite E2. exact Ev.
Qed.

(** The encoding of an attribute, split in front of the value. *)
Definition split_value (fuel : nat) (a : payload) (hv : chunk * chunk) : Prop :=
  get_field a "value" = Some (FChunk (snd hv)) /\ encode fuel a = Some (fst hv ++ snd hv).

(** With the format set, a configuration attribute loses its value. *)
Lemma configuration_attribute_cut fuel st pre a b :
  gen_at st pre 0 0 false -> g_attribute_format st = true -> class_of a = Known PLV2_CONFIGURATION_ATTRIBUTE ->
  encode (S fuel) a = Some b ->
  exists st' hv, generate_payload junk (S fuel) st a = Some st' /\ gen_at st' (pre ++ fst hv) 0 0 false /\
    g_attribute_format st' = true /\ split_value (S fuel) a hv /\ b = fst hv ++ snd hv.
Proof.
  intros H Hf Hc He. pose proof He as He0. destruct a as [cls fs]. cbn [class_of] in Hc. subst cls.
  cbn [generate_payload encode] in *. cbn [class_of fields_of] in He |- *.
  set (cls := Known PLV2_CONFIGURATION_ATTRIBUTE) in *. set (a := Payload cls fs) in *. fold (start st a).
  set (front := [(RESERVED_BIT, "reserved"%string); (ATTRIBUTE_TYPE, "attr_type"%string);
                 (ATTRIBUTE_LENGTH, "length_or_value"%string)]).
  change (get_encoding_rules cls) with (front ++ [(ATTRIBUTE_VALUE, "value"%string)]) in *.
  destruct (generate_prefix_spec (generate_payload junk fuel) (encode fuel) cls) with (p := a) (st := start st a) (pre := pre)
    (todo1 := front) (todo2 := [(ATTRIBUTE_VALUE, "value"%string)]) (done_ := @nil encoding_rule_t) (fs0 := @nil field) (fs := fs)
    (bs := b) (c := Ctx 0 0 0 0 false) (acc := 0) (cnt := 0) (half := false)
    as (st2 & out2 & fs1 & fs2 & bs2 & c2 & acc2 & cnt2 & half2 & E2 & H2 & Hs2 & Hfs & Hl2 & Er2 & -> & _); try done.
  { intros t name Hin. eapply substructures_spec; [|exact Hin]. cbn. lia. }
  { by apply start_at. }
  assert (g_attribute_format st2 = true) as Hf2 by (destruct Hs2 as (_ & -> & _); done).
  destruct (generate_value_skipped (generate_payload junk fuel) _ _ _ _ _ _ _ _ _ _ _ H2 Hf2 Er2) as (-> & Ev & H3 & _).
  exists st2, (out2, bs2). rewrite foldl_app, E2. split; [exact Ev|]. split; [done|]. split; [done|]. split; [|done].
  split; [|exact He0]. subst a. rewrite Hfs. by apply (get_field_at cls front ATTRIBUTE_VALUE "value" []).
Qed.

Lemma configuration_attributes_cut fuel l : forall st pre bs,
  gen_at st pre 0 0 false -> g_attribute_format st = true ->
  forallb (fun p => bool_decide (class_of p = Known PLV2_CONFIGURATION_ATTRIBUTE)) l = true ->
  encode_list (encode (S fuel)) l = Some bs ->
  exists st' hvs, foldl (fun st p => st ← st; generate_payload junk (S fuel) st p) (Some st) l = Some st' /\
    gen_at st' (pre ++ concat (fst <$> hvs)) 0 0 false /\ Forall2 (split_value (S fuel)) l hvs /\
    bs = concat ((fun hv => fst hv ++ snd hv) <$> hvs).
Proof.
  induction l as [|a l IH]; intros st pre bs H Hf Hc He; cbn [foldl encode_list forallb] in *.
  { injection He as <-. exists st, []. cbn. by rewrite app_nil_r. }
  apply andb_true_iff in Hc as [Ha%bool_decide_eq_true Hc]. destruct (encode (S fuel) a) as [b|] eqn:Eb; [|done].
  destruct (encode_list _ l) as [bs'|]; [|done]. injection He as <-.
  destruct (configuration_attribute_cut fuel st pre a b H Hf Ha Eb) as (st1 & hv & E1 & H1 & Hf1 & Hs1 & ->).
  cbn [mbind option_bind]. rewrite E1. destruct (IH st1 _ bs' H1 Hf1 Hc eq_refl) as (st2 & hvs & E2 & H2 & Hs2 & ->).
  exists st2, (hv :: hvs). cbn [fmap list_fmap concat]. rewrite <- app_assoc in H2.
  split; [done|]. split; [done|]. split; [by constructor|done].
Qed.

Lemma configuration_cut fuel st pre p b :
  gen_at st pre 0 0 false -> g_attribute_format st = true -> class_of p = Known PLV2_CONFIGURATION ->
  encode (S (S fuel)) p = Some b ->
  exists st' header l hvs, generate_payload junk (S (S fuel)) st p = Some st' /\
    gen_at st' (pre ++ header ++ concat (fst <$> hvs)) 0 0 false /\
    get_field p "attributes" = Some (FList l) /\ Forall2 (split_value (S fuel)) l hvs /\
    b = header ++ concat ((fun hv => fst hv ++ snd hv) <$> hvs).
Proof.
  intros H Hf Hc He. destruct p as [cls fs]. cbn [class_of] in Hc. subst cls.
  remember (S fuel) as depth eqn:Hdepth. cbn [generate_payload encode] in *. cbn [class_of fields_of] in He |- *.
  set (cls := Known PLV2_CONFIGURATION) in *. set (p := Payload cls fs) in *. fold (start st p).
  set (attributes := (PAYLOAD_LIST PLV2_CONFIGURATION_ATTRIBUTE, "attributes"%string)).
  set (front := removelast cp_payload_encodings_v2).
  change (get_encoding_rules cls) with (front ++ [attributes]) in *.
  destruct (generate_prefix_spec (generate_payload junk depth) (encode depth) cls) with (p := p) (st := start st p) (pre := pre)
    (todo1 := front) (todo2 := [attributes]) (done_ := @nil encoding_rule_t) (fs0 := @nil field) (fs := fs)
    (bs := b) (c := Ctx 0 0 0 0 false) (acc := 0) (cnt := 0) (half := false)
    as (st2 & out & fs1 & fs2 & bs2 & c2 & acc2 & cnt2 & half2 & E2 & H2 & Hs2 & Hfs & Hl2 & Er2 & -> & _); try done.
  { intros t name Hin. eapply substructures_spec; [|exact Hin]. cbn. lia. }
  { by apply start_at. }
  destruct fs2 as [|f [|]]; [done| |cbn in Er2; by destruct (encode_field _ _ _ _ _ _ _) as [[[? ?] ?]|]].
  cbn [encode_rules attributes] in Er2. destruct f as [| | |l]; try done. cbn [encode_field] in Er2.
  destruct (Z.eqb_spec cnt2 0) as [->|]; [|done]. unfold encode_sub in Er2.
  destruct (encode_list (encode depth) l) as [bs|] eqn:El; [|done]. cbn [mbind option_bind] in Er2.
  destruct (_ && _) eqn:Hc in Er2; [|done]. apply andb_true_iff in Hc as [Hc _]. cbn in Er2. injection Er2 as <-.
  assert (gen_at st2 (pre ++ out) 0 0 false) as H2' by (by destruct H2). subst depth.
  assert (g_attribute_format st2 = true) as Hf2 by (destruct Hs2 as (_ & -> & _); done).
  destruct (configuration_attributes_cut fuel l st2 _ bs H2' Hf2 Hc El) as (st3 & hvs & E3 & H3 & Hs3 & ->).
  assert (get_field p "attributes" = Some (FList l)) as Hl
    by (subst p; rewrite Hfs; by apply (get_field_at cls front (PAYLOAD_LIST PLV2_CONFIGURATION_ATTRIBUTE) "attributes" [])).
  exists st3, out, l, hvs. rewrite foldl_app, E2. cbn [foldl mbind option_bind generate_rule attributes].
  rewrite (proj1 Hs2). cbn [start g_data mbind option_bind]. rewrite Hl, app_nil_r, app_assoc. done.
Qed.
End GeneratorSpec.

Lemma gen_at_create junk : gen_at (generator_create junk) [] 0 0 false.
Proof. constructor; cbn [generator_create g_bit g_out g_buffer]; [done|done|lia|lia]. Qed.

(** A fresh generator makes the encoding of a payload. *)
Lemma generate_fresh junk p b : encode max_depth p = Some b ->
  exists g, generate_payload junk max_depth (generator_create junk) p = Some g /\ fst (get_chunk g) = b.
Proof.
  intros He. destruct (generate_payload_spec junk max_depth (class_of p)) with (st := generator_create junk) (p := p)
    (b := b) (pre := @nil Z) as (g & Hg & H & _); try done; [apply rank_pos|apply gen_at_create|].
  exists g. split; [done|]. apply (ga_pre _ _ _ _ _ H).
Qed.

(** The parser on a whole payload, for the depth that is enough for every class. *)
Lemma parse_spec st t : p_bit st = 0 -> bytes_ok (p_rest st) ->
  parse_payload max_depth st t <> Undefined /\
  forall p tail, (class_of p = Known PLV1_ENCRYPTED -> tail = []) ->
    (exists st', parse_payload max_depth st t = Done (p, st') /\ p_rest st' = tail) <->
    class_of p = class_for (p_major_version st) t /\
    exists b, encode max_depth p = Some b /\ p_rest st = b ++ tail.
Proof.
  intros Hbit Hb. pose proof (rank_pos (class_for (p_major_version st) t)) as Hr.
  pose proof (payload_sub_spec 3) as Hsub.
  split; [apply (payload_safe 3 Hsub); (done || lia)|]. intros p tail Henc. split.
  - intros (st' & E & <-). apply (payload_sound 3 Hsub) in E as (Hc & _ & _ & ?); (done || lia).
  - intros (Hc & b & He & Hrest). apply (payload_complete 3 Hsub) with (b := b); (done || lia).
Qed.

Lemma parse_state st t p st' : p_bit st = 0 -> bytes_ok (p_rest st) ->
  parse_payload max_depth st t = Done (p, st') ->
  p_bit st' = 0 /\ p_major_version st' = p_major_version st.
Proof.
  intros Hbit Hb E. apply (payload_sound 3 (payload_sub_spec 3)) in E as (_ & ? & ? & _); try done. apply rank_pos.
Qed.

Lemma parse_encode st t p st' : p_bit st = 0 -> bytes_ok (p_rest st) ->
  parse_payload max_depth st t = Done (p, st') ->
  class_of p = class_for (p_major_version st) t /\ exists b, encode max_depth p = Some b /\ p_rest st = b ++ p_rest st'.
Proof.
  intros Hbit Hb E. apply (payload_sound 3 (payload_sub_spec 3)) in E as (? & _ & _ & ?); try done. apply rank_pos.
Qed.

(** ** Theorems *)

(** C25: whatever the parser is given, at a byte of the input, it stays within the
    input, the tables and the objects and terminates: every read of the input is where
    there are bytes, the depth of four is enough for every type of payload and every
    input, no list of substructures loops. *)
Theorem parser_total st t : p_bit st = 0 -> bytes_ok (p_rest st) ->
  parse_payload max_depth st t <> Undefined.
Proof. intros Hbit Hb. by apply parse_spec. Qed.

(** C24: parsing loses nothing.  Generating the payload the parser made yields
    exactly the bytes the parser took, whatever they were. *)
Theorem parse_regenerate junk st t p st' : p_bit st = 0 -> bytes_ok (p_rest st) ->
  parse_payload max_depth st t = Done (p, st') ->
  exists g, generate_payload junk max_depth (generator_create junk) p = Some g /\
    p_rest st = fst (get_chunk g) ++ p_rest st'.
Proof.
  intros Hbit Hb E. apply parse_encode in E as (_ & b & He & Hr); try done.
  destruct (generate_fresh junk p b He) as (g & Hg & <-). by exists g.
Qed.

(** a payload whose lengths, counts and formats are consistent is generated
    and parsed back to itself, and what follows it is left: only encrypted data of
    IKEv1 extends to the end. *)
Theorem payload_roundtrip junk p t major tail :
  is_Some (encode max_depth p) -> class_of p = class_for major t -> bytes_ok tail ->
  (class_of p = Known PLV1_ENCRYPTED -> tail = []) ->
  exists g st', generate_payload junk max_depth (generator_create junk) p = Some g /\
    parse_payload max_depth (set_major_version (parser_create (fst (get_chunk g) ++ tail)) major) t = Done (p, st') /\ p_rest st' = tail.
Proof.
  intros [b He] Hc Ht Henc. destruct (generate_fresh junk p b He) as (g & Hg & Hb).
  assert (bytes_ok b) as Hok by (by eapply encode_bytes_ok).
  destruct (parse_spec (set_major_version (parser_create (b ++ tail)) major) t eq_refl) as [_ Hspec]; [by apply Forall_app|].
  destruct (proj2 (Hspec p tail Henc)) as (st' & E & Hr); [split; [done|by exists b]|].
  exists g, st'. rewrite Hb. done.
Qed.

(** A security association with one proposal of one transform with a key length, and a
    configuration with an address. *)
Definition sa_bytes : chunk :=
  [34; 0; 0; 24; 0; 0; 0; 20; 1; 1; 0; 1; 0; 0; 0; 12; 1; 0; 0; 12; 128; 14; 0; 128].
Definition cp_bytes : chunk := [0; 0; 0; 16; 1; 0; 0; 0; 0; 1; 0; 4; 10; 0; 0; 1].

Definition parsed (t : payload_type_t) (data : chunk) : payload :=
  match parse_payload max_depth (set_major_version (parser_create data) 2) t with
  | Done (p, _) => p
  | _ => payload_create t
  end.
Definition sa_example : payload := Eval vm_compute in parsed PLV2_SECURITY_ASSOCIATION sa_bytes.
Definition cp_example : payload := Eval vm_compute in parsed PLV2_CONFIGURATION cp_bytes.

Lemma parser_total_witness :
  parse_payload max_depth (set_major_version (parser_create (sa_bytes ++ [255])) 2) PLV2_SECURITY_ASSOCIATION <> Undefined.
Proof. refine (parser_total _ _ _ _); [reflexivity|]. apply (bool_decide_unpack _). vm_compute. exact I. Defined.

Lemma parse_regenerate_witness : exists g,
  generate_payload (fun _ => 170) max_depth (generator_create (fun _ => 170)) sa_example = Some g /\
  sa_bytes ++ [255] = fst (get_chunk g) ++ [255].
Proof.
  refine (parse_regenerate (fun _ => 170) (set_major_version (parser_create (sa_bytes ++ [255])) 2) PLV2_SECURITY_ASSOCIATION sa_example
    (Parser (sa_bytes ++ [255]) 2 0 [255] transform_attribute_encodings) _ _ _); [reflexivity| |vm_compute; reflexivity].
  apply (bool_decide_unpack _). vm_compute. exact I.
Defined.

Lemma payload_roundtrip_witness : exists g st',
  generate_payload (fun _ => 170) max_depth (generator_create (fun _ => 170)) cp_example = Some g /\
  parse_payload max_depth (set_major_version (parser_create (fst (get_chunk g) ++ [1; 2])) 2) PLV2_CONFIGURATION = Done (cp_example, st') /\
  p_rest st' = [1; 2].
Proof.
  refine (payload_roundtrip (fun _ => 170) cp_example PLV2_CONFIGURATION 2 [1; 2] _ _ _ _).
  - vm_compute. eexists. reflexivity.
  - vm_compute. reflexivity.
  - apply (bool_decide_unpack _). vm_compute. exact I.
  - vm_compute. discriminate.
Defined.

(** C32: the generator keeps the format of the last transform attribute.  Take any
    generator between two payloads, any transform attribute of the format without a
    value (such as a key length), and any configuration.  If the configuration is
    generated after the attribute, then of each of its attributes the value is left out
    ([fst] of the parts of its encoding, where [snd] is the value), although the length
    of the value is in front. *)
Theorem generator_format_kept junk st pre a ba p b :
  gen_at st pre 0 0 false ->
  class_of a = Known PLV2_TRANSFORM_ATTRIBUTE -> encode max_depth a = Some ba ->
  get_field a "attribute_format" = Some (FBool true) ->
  class_of p = Known PLV2_CONFIGURATION -> encode max_depth p = Some b ->
  exists st' header l parts,
    (st ← generate_payload junk max_depth st a; generate_payload junk max_depth st p) = Some st' /\
    fst (get_chunk st') = pre ++ ba ++ header ++ concat (fst <$> parts) /\
    b = header ++ concat ((fun hv => fst hv ++ snd hv) <$> parts) /\
    get_field p "attributes" = Some (FList l) /\ Forall2 (split_value (max_depth - 1)) l parts.
Proof.
  intros H Ha Ea Hf Hp Ep.
  destruct (transform_attribute_sets junk 3 st pre a ba H Ha Ea Hf) as (st1 & E1 & H1 & Hf1).
  destruct (configuration_cut junk 2 st1 _ p b H1 Hf1 Hp Ep) as (st2 & header & l & parts & E2 & H2 & Hl & Hs & Hb).
  exists st2, header, l, parts. change max_depth with 4%nat. rewrite E1. split; [exact E2|]. split; [|done].
  rewrite <- app_assoc in H2. exact (ga_pre _ _ _ _ _ H2).
Qed.

(** The attribute with the key length in the security association above. *)
Definition key_length_example : payload :=
  Payload (Known PLV2_TRANSFORM_ATTRIBUTE) [FBool true; FInt 14; FInt 256; FChunk []].

Lemma generator_format_kept_witness : exists st' header l parts,
  (st ← generate_payload (fun _ => 170) max_depth (generator_create (fun _ => 170)) key_length_example;
   generate_payload (fun _ => 170) max_depth st cp_example) = Some st' /\
  fst (get_chunk st') = [] ++ [128; 14; 1; 0] ++ header ++ concat (fst <$> parts) /\
  cp_bytes = header ++ concat ((fun hv => fst hv ++ snd hv) <$> parts) /\
  get_field cp_example "attributes" = Some (FList l) /\ Forall2 (split_value (max_depth - 1)) l parts.
Proof.
  refine (generator_format_kept (fun _ => 170) (generator_create (fun _ => 170)) [] key_length_example [128; 14; 1; 0]
            cp_example cp_bytes _ eq_refl _ eq_refl eq_refl _); [apply gen_at_create| |]; vm_compute; reflexivity.
Defined.

(** So the order of a security association and a configuration matters. *)
Lemma generator_order_matters :
  let gen := generate_payload (fun _ => 170) max_depth in
  let after p q := g ← gen (generator_create (fun _ => 170)) p; g ← gen g q; Some (fst (get_chunk g)) in
  encode max_depth sa_example = Some sa_bytes /\ encode max_depth cp_example = Some cp_bytes /\
  after cp_example sa_example = Some (cp_bytes ++ sa_bytes) /\
  after sa_example cp_example = Some (sa_bytes ++ take 12 cp_bytes).
Proof. vm_compute. repeat split; reflexivity. Qed.
