(* ===== verification/PayloadVerify.v ===== *)
(** What the IKE payloads check and report of themselves: [verify], [get_length],
    [get_next_type] and [set_next_type] of the classes of
    [src/libcharon/encoding/payloads], without the mediation extension. *)
From S2P Require Import Prelude Payloads Codec CodecParser CodecGenerator.
From stdpp Require Import base numbers list option strings sorting.
From Stdlib Require Import Lia ZArith.
Local Open Scope Z_scope.

(** ** Fields by kind *)

Definition chunk_field (p : payload) (name : string) : chunk :=
  match get_field p name with Some (FChunk c) => c | _ => [] end.

Definition list_field (p : payload) (name : string) : list payload :=
  match get_field p name with Some (FList l) => l | _ => [] end.

Definition bool_field (p : payload) (name : string) : bool :=
  match get_field p name with Some (FBool b) => b | _ => false end.

(** Assignment to a field the class has. *)
Definition assign (p : payload) (name : string) (f : field) : payload :=
  match set_field p name f with Some p => p | None => p end.

Lemma assign_class p name f : class_of (assign p name f) = class_of p.
Proof. unfold assign, set_field. by destruct (field_index (class_of p) name). Qed.

Lemma assign_other p name name' f : name <> name' -> get_field (assign p name f) name' = get_field p name'.
Proof.
  intros Hn. unfold assign, set_field. destruct (field_index (class_of p) name) as [i|] eqn:Ei; [|done].
  cbn [mbind option_bind]. unfold get_field. cbn [class_of fields_of].
  destruct (field_index (class_of p) name') as [j|] eqn:Ej; [|done]. cbn [mbind option_bind].
  apply list_lookup_insert_ne. intros <-.
  apply field_index_Some in Ei as [ty Hi], Ej as [ty' Hj]. rewrite Hi in Hj. by injection Hj.
Qed.

Lemma assign_same p name f i : field_index (class_of p) name = Some i -> (i < length (fields_of p))%nat ->
  get_field (assign p name f) name = Some f.
Proof.
  intros Hi Hl. unfold assign, set_field. rewrite Hi. cbn [mbind option_bind]. unfold get_field. cbn [class_of fields_of].
  rewrite Hi. cbn [mbind option_bind]. by apply list_lookup_insert_eq.
Qed.

Lemma assign_comm p name name' f f' : name <> name' ->
  assign (assign p name f) name' f' = assign (assign p name' f') name f.
Proof.
  intros Hn. unfold assign, set_field.
  destruct (field_index (class_of p) name) as [i|] eqn:Ei, (field_index (class_of p) name') as [j|] eqn:Ej;
    cbn [mbind option_bind class_of fields_of]; rewrite ?Ei, ?Ej; try done. cbn [mbind option_bind]. f_equal.
  apply list_insert_insert_ne. intros <-.
  apply field_index_Some in Ei as [ty Hi], Ej as [ty' Hj]. rewrite Hi in Hj. by injection Hj.
Qed.

Lemma assign_assign p name f f' : assign (assign p name f) name f' = assign p name f'.
Proof.
  unfold assign, set_field. destruct (field_index (class_of p) name) as [i|] eqn:Ei; cbn [mbind option_bind class_of fields_of];
    rewrite ?Ei; [|done]. cbn [mbind option_bind]. by rewrite list_insert_insert_eq.
Qed.

Lemma int_field_other p name name' f : name <> name' -> int_field (assign p name f) name' = int_field p name'.
Proof. intros Hn. unfold int_field. by rewrite assign_other. Qed.

Lemma chunk_field_other p name name' f : name <> name' -> chunk_field (assign p name f) name' = chunk_field p name'.
Proof. intros Hn. unfold chunk_field. by rewrite assign_other. Qed.

Lemma list_field_other p name name' f : name <> name' -> list_field (assign p name f) name' = list_field p name'.
Proof. intros Hn. unfold list_field. by rewrite assign_other. Qed.

Lemma assign_id p name f : get_field p name = Some f -> assign p name f = p.
Proof.
  unfold get_field, assign, set_field. destruct (field_index (class_of p) name) as [i|]; [|done].
  cbn [mbind option_bind]. intros Hf. rewrite list_insert_id by done. by destruct p.
Qed.

Lemma assign_cases p name f :
  get_field (assign p name f) name = Some f \/ get_field (assign p name f) name = get_field p name.
Proof.
  destruct (field_index (class_of p) name) as [i|] eqn:Hi.
  - destruct (decide (i < length (fields_of p))%nat); [left; by eapply assign_same|right].
    unfold assign, set_field, get_field. rewrite Hi. cbn [mbind option_bind class_of fields_of]. rewrite Hi.
    cbn [mbind option_bind]. by rewrite list_insert_ge by lia.
  - right. unfold assign, set_field. by rewrite Hi.
Qed.

(** ** Types of the next payload *)

(** Attributes and selectors have no such field; that of the IKEv1 encrypted payload is
    not encoded and not modelled. *)
Definition get_next_type (p : payload) : payload_type_t :=
  match class_of p with
  | Known PLV2_TRANSFORM_ATTRIBUTE | Known PLV1_TRANSFORM_ATTRIBUTE | Known PLV2_CONFIGURATION_ATTRIBUTE
  | Known PLV1_CONFIGURATION_ATTRIBUTE | Known PLV2_TRAFFIC_SELECTOR_SUBSTRUCTURE => PL_NONE
  | _ => payload_type_of (int_field p "next_payload")
  end.

(** The field has eight bits.  Substructures ignore the call, and fragments but the
    first, which keeps the type it has. *)
Definition set_next_type (p : payload) (type : payload_type_t) : payload :=
  match class_of p with
  | Known PLV2_TRANSFORM_ATTRIBUTE | Known PLV1_TRANSFORM_ATTRIBUTE | Known PLV2_CONFIGURATION_ATTRIBUTE
  | Known PLV1_CONFIGURATION_ATTRIBUTE | Known PLV2_TRAFFIC_SELECTOR_SUBSTRUCTURE
  | Known PLV2_PROPOSAL_SUBSTRUCTURE | Known PLV1_PROPOSAL_SUBSTRUCTURE
  | Known PLV2_TRANSFORM_SUBSTRUCTURE | Known PLV1_TRANSFORM_SUBSTRUCTURE => p
  | Known PLV2_FRAGMENT =>
    if (int_field p "fragment_number" =? 1) && (int_field p "next_payload" =? 0)
    then assign p "next_payload" (FInt (u8 (payload_type_value type)))
    else p
  | _ => assign p "next_payload" (FInt (u8 (payload_type_value type)))
  end.

(** ** Lengths *)

(** [get_length] of the classes but the encrypted payloads. *)
Definition get_length (p : payload) : Z :=
  match class_of p with
  | Known PL_HEADER => int_field p "length"
  | Known PLV2_PROPOSAL_SUBSTRUCTURE | Known PLV1_PROPOSAL_SUBSTRUCTURE => int_field p "proposal_length"
  | Known PLV2_TRANSFORM_SUBSTRUCTURE | Known PLV1_TRANSFORM_SUBSTRUCTURE => int_field p "transform_length"
  | Known PLV2_TRANSFORM_ATTRIBUTE | Known PLV1_TRANSFORM_ATTRIBUTE =>
    if bool_field p "attribute_format" then 4 else int_field p "attribute_length_or_value" + 4
  | Known PLV2_CONFIGURATION_ATTRIBUTE | Known PLV1_CONFIGURATION_ATTRIBUTE =>
    get_header_length p + Z.of_nat (length (chunk_field p "value"))
  | _ => int_field p "payload_length"
  end.

(** ** Verification *)

Definition of_bool (ok : bool) : status_t := if ok then SUCCESS else FAILED.

(** [isprint] in the C locale. *)
Definition isprint (c : Z) : bool := (32 <=? c) && (c <=? 126).

(** The loop over the URL: whether it is printable, and whether it is terminated. *)
Fixpoint cert_url_loop (url : chunk) : bool * bool :=
  match url with
  | [] => (true, false)
  | c :: url => if c =? 0 then (true, true) else if negb (isprint c) then (false, false) else cert_url_loop url
  end.

(** The certificate payload is changed: the URL gets a terminator.  The result says if
    it is marked as invalid. *)
Definition cert_verify (p : payload) : payload * bool :=
  let encoding := int_field p "encoding" in
  if (encoding =? 12) || (encoding =? 13) then
    let data := chunk_field p "data" in
    if (length data <=? 20)%nat then (p, true)
    else match cert_url_loop (drop 20 data) with
    | (false, _) => (p, true)
    | (true, true) => (p, false)
    | (true, false) => (assign p "data" (FChunk (data ++ [0])), false)
    end
  else (p, false).

Definition certreq_verify (p : payload) : status_t :=
  if bool_decide (class_of p = Known PLV2_CERTREQ) && (int_field p "encoding" =? 4)
  then of_bool (length (chunk_field p "data") mod 20 =? 0)%nat else SUCCESS.

Definition configuration_attribute_verify (p : payload) : status_t :=
  let ty := int_field p "attr_type" in
  let len := int_field p "length_or_value" in
  let zero_or n := (len =? 0) || (len =? n) in
  of_bool
    (if bool_decide (ty ∈ [1; 2; 3; 4; 5; 6; 20]) then zero_or 4
     else if ty =? 13 then zero_or 8
     else if ty =? 8 then
       (bool_decide (class_of p = Known PLV1_CONFIGURATION_ATTRIBUTE) && (len =? 16)) || zero_or 17
     else if ty =? 15 then zero_or 17
     else if bool_decide (ty ∈ [10; 11; 12; 21]) then zero_or 16
     else if ty =? 14 then len mod 2 =? 0
     else true).

Definition delete_verify (p : payload) : status_t :=
  let spi_size := int_field p "spi_size" in
  let protocol_id := int_field p "protocol_id" in
  let size_ok :=
    if (protocol_id =? 2) || (protocol_id =? 3) then spi_size =? 4
    else if (protocol_id =? 1) || (protocol_id =? 0) then
      if bool_decide (class_of p = Known PLV2_DELETE) then spi_size =? 0 else spi_size =? 16
    else false in
  if negb size_ok then FAILED
  else of_bool (Z.of_nat (length (chunk_field p "spis")) =? int_field p "spi_count" * spi_size).

(** [None] is a read outside of the data. *)
Definition eap_verify (p : payload) : option status_t :=
  let data := chunk_field p "data" in
  let len := Z.of_nat (length data) in
  if len <? 4 then Some FAILED
  else
    announced ← untoh16 <$> load data 2 2;
    if negb (len =? announced) then Some FAILED
    else
      code ← data !! 0%nat;
      Some (if (code =? 1) || (code =? 2) then of_bool (4 <=? len)
            else if (code =? 3) || (code =? 4) then of_bool (len =? 4)
            else FAILED).

Definition id_verify (p : payload) : status_t :=
  let id_type := int_field p "id_type" in
  let len := Z.of_nat (length (chunk_field p "id_data")) in
  if bool_decide (class_of p ∈ [Known PLV1_NAT_OA; Known PLV1_NAT_OA_DRAFT_00_03]) &&
     negb (id_type =? 1) && negb (id_type =? 5) then FAILED
  else if (id_type =? 7) || (id_type =? 4) then of_bool (len =? 8)
  else if (id_type =? 8) || (id_type =? 6) then of_bool (len =? 32)
  else SUCCESS.

Definition header_verify (p : payload) : status_t :=
  let exchange_type := int_field p "exchange_type" in
  let maj_version := int_field p "maj_version" in
  let type_ok :=
    if bool_decide (exchange_type ∈ [2; 4]) && negb (int_field p "message_id" =? 0) then false
    else if bool_decide (exchange_type ∈ [2; 4; 3; 5; 6; 32; 33]) then negb (maj_version =? 2)
    else if bool_decide (exchange_type ∈ [34; 35; 36; 37; 38]) then negb (maj_version =? 1)
    else negb ((maj_version =? 1) || (maj_version =? 2)) in
  of_bool (type_ok && negb (int_field p "initiator_spi" =? 0)).

Definition nonce_verify (p : payload) : status_t :=
  let len := Z.of_nat (length (chunk_field p "nonce")) in
  of_bool (negb ((256 <? len) ||
    (bool_decide (class_of p = Known PLV2_NONCE) && (len <? 16)) ||
    (bool_decide (class_of p = Known PLV1_NONCE) && (len <? 8)))).

Definition notify_verify (p : payload) : status_t :=
  let ty := int_field p "notify_type" in
  let len := Z.of_nat (length (chunk_field p "notify_data")) in
  let v2 := bool_decide (class_of p = Known PLV2_NOTIFY) in
  if negb (bool_decide (int_field p "protocol_id" ∈ [0; 1; 2; 3])) then FAILED
  else of_bool
    (if ty =? 17 then negb v2 || (len =? 2)                                    (* INVALID_KE_PAYLOAD *)
     else if bool_decide (ty ∈ [16388; 16389; 40967]) then len =? 20           (* NAT_DETECTION_* *)
     else if bool_decide (ty ∈ [7; 5; 14]) then negb v2 || (len =? 0)          (* INVALID_SYNTAX, ... *)
     else if ty =? 16397 then len =? 4                                         (* ADDITIONAL_IP4_ADDRESS *)
     else if ty =? 16398 then len =? 16                                        (* ADDITIONAL_IP6_ADDRESS *)
     else if ty =? 16431 then len mod 2 =? 0                                   (* SIGNATURE_HASH_ALGORITHMS *)
     else if ty =? 16403 then len =? 4                                         (* AUTH_LIFETIME *)
     else if ty =? 16387 then len =? 3                                         (* IPCOMP_SUPPORTED *)
     else if ty =? 40963 then (len =? 8) || (len =? 12) || (len =? 24)         (* ME_ENDPOINT *)
     else if ty =? 40965 then (4 <=? len) && (len <=? 16)                      (* ME_CONNECTID *)
     else if ty =? 40966 then (16 <=? len) && (len <=? 32)                     (* ME_CONNECTKEY *)
     else if bool_decide (ty ∈ [36136; 36137]) then len =? 4                   (* DPD_R_U_THERE *)
     else true).

Definition selector_verify (p : payload) : status_t :=
  let start_port := int_field p "start_port" in
  let end_port := int_field p "end_port" in
  let from := Z.of_nat (length (chunk_field p "starting_address")) in
  let to := Z.of_nat (length (chunk_field p "ending_address")) in
  if (end_port <? start_port) && negb (start_port =? 65535) && negb (end_port =? 0) then FAILED
  else if int_field p "ts_type" =? 7 then of_bool ((from =? 4) && (to =? 4))
  else if int_field p "ts_type" =? 8 then of_bool ((from =? 16) && (to =? 16))
  else FAILED.

(** The encrypted fragment is changed: the type of the next payload is cleared in all
    fragments but the first. *)
Definition frag_verify (p : payload) : status_t * payload :=
  let number := int_field p "fragment_number" in
  let total := int_field p "total_fragments" in
  if (number =? 0) || (total =? 0) || (total <? number) then (FAILED, p)
  else (SUCCESS, if (1 <? number) && negb (int_field p "next_payload" =? 0)
                 then assign p "next_payload" (FInt 0) else p).

(** The first failure in a list. *)
Fixpoint verify_list (sub : payload -> option status_t) (l : list payload) : option status_t :=
  match l with
  | [] => Some SUCCESS
  | p :: l => s ← sub p; match s with SUCCESS => verify_list sub l | s => Some s end
  end.

Definition transform_verify (sub : payload -> option status_t) (p : payload) : option status_t :=
  let next := int_field p "next_payload" in
  if negb (next =? 0) && negb (next =? 3) then Some FAILED
  else verify_list sub (list_field p "attributes").

Definition proposal_verify (sub : payload -> option status_t) (p : payload) : option status_t :=
  let next := int_field p "next_payload" in
  let transforms := list_field p "transforms" in
  let spi := Z.of_nat (length (chunk_field p "spi")) in
  let protocol_id := int_field p "protocol_id" in
  if negb (next =? 0) && negb (next =? 2) then Some FAILED
  else if negb (int_field p "transforms_count" =? Z.of_nat (length transforms)) then Some FAILED
  else
    let spi_ok :=
      if protocol_id =? 4 then (spi =? 2) || (spi =? 4)
      else if (protocol_id =? 2) || (protocol_id =? 3) then spi =? 4
      else if protocol_id =? 1 then
        if bool_decide (class_of p = Known PLV1_PROPOSAL_SUBSTRUCTURE) then spi <=? 16
        else (spi =? 0) || (spi =? 8)
      else true in
    if negb spi_ok then Some FAILED else verify_list sub transforms.

(** The proposals must not count backwards. *)
Fixpoint sa_verify_loop (sub : payload -> option status_t) (expected : Z) (l : list payload) : option status_t :=
  match l with
  | [] => Some SUCCESS
  | p :: l =>
    let current := int_field p "proposal_number" in
    if current <? expected then Some FAILED
    else s ← sub p; match s with SUCCESS => sa_verify_loop sub current l | s => Some s end
  end.

Definition sa_verify (sub : payload -> option status_t) (p : payload) : option status_t :=
  sa_verify_loop sub (if bool_decide (class_of p = Known PLV2_SECURITY_ASSOCIATION) then 1 else 0)
    (list_field p "proposals").

Definition ts_verify (sub : payload -> option status_t) (p : payload) : option status_t :=
  let substrs := list_field p "substrs" in
  if negb (int_field p "ts_num" =? Z.of_nat (length substrs)) then Some FAILED else verify_list sub substrs.

(** [verify] of the class; [fuel] bounds the depth of substructures, [None] is undefined
    behaviour. *)
Fixpoint verify (fuel : nat) (p : payload) : option (status_t * payload) :=
  match fuel with
  | O => Some (FAILED, p)
  | S fuel =>
    let sub p := fst <$> verify fuel p in
    match class_of p with
    | Known PL_HEADER => Some (header_verify p, p)
    | Known PLV2_CERTIFICATE | Known PLV1_CERTIFICATE => Some (SUCCESS, fst (cert_verify p))
    | Known PLV2_CERTREQ | Known PLV1_CERTREQ => Some (certreq_verify p, p)
    | Known PLV2_CONFIGURATION_ATTRIBUTE | Known PLV1_CONFIGURATION_ATTRIBUTE =>
      Some (configuration_attribute_verify p, p)
    | Known PLV2_CONFIGURATION | Known PLV1_CONFIGURATION => s ← verify_list sub (list_field p "attributes"); Some (s, p)
    | Known PLV2_DELETE | Known PLV1_DELETE => Some (delete_verify p, p)
    | Known PLV2_EAP => s ← eap_verify p; Some (s, p)
    | Known PLV1_FRAGMENT => Some (of_bool (negb (int_field p "fragment_number" =? 0)), p)
    | Known PLV2_FRAGMENT => Some (frag_verify p)
    | Known PLV2_ID_INITIATOR | Known PLV2_ID_RESPONDER | Known PLV1_ID | Known PLV1_NAT_OA
    | Known PLV1_NAT_OA_DRAFT_00_03 => Some (id_verify p, p)
    | Known PLV2_NONCE | Known PLV1_NONCE => Some (nonce_verify p, p)
    | Known PLV2_NOTIFY | Known PLV1_NOTIFY => Some (notify_verify p, p)
    | Known PLV2_PROPOSAL_SUBSTRUCTURE | Known PLV1_PROPOSAL_SUBSTRUCTURE => s ← proposal_verify sub p; Some (s, p)
    | Known PLV2_SECURITY_ASSOCIATION | Known PLV1_SECURITY_ASSOCIATION => s ← sa_verify sub p; Some (s, p)
    | Known PLV2_TRAFFIC_SELECTOR_SUBSTRUCTURE => Some (selector_verify p, p)
    | Known PLV2_TRANSFORM_SUBSTRUCTURE | Known PLV1_TRANSFORM_SUBSTRUCTURE => s ← transform_verify sub p; Some (s, p)
    | Known PLV2_TS_INITIATOR | Known PLV2_TS_RESPONDER => s ← ts_verify sub p; Some (s, p)
    | _ => Some (SUCCESS, p)
    end
  end.

(** ** What is accepted *)

Lemma of_bool_success b : of_bool b = SUCCESS <-> b = true.
Proof. by destruct b. Qed.

Lemma verify_list_success sub l :
  verify_list sub l = Some SUCCESS <-> Forall (fun p => sub p = Some SUCCESS) l.
Proof.
  induction l as [|p l IH]; cbn [verify_list]; [by split; [constructor|]|].
  rewrite Forall_cons, <- IH. destruct (sub p) as [[]|]; split; cbn; try done; by intros [].
Qed.

Lemma sa_verify_loop_success sub l : forall expected, sa_verify_loop sub expected l = Some SUCCESS ->
  StronglySorted Z.le (expected :: ((fun q => int_field q "proposal_number") <$> l)) /\
  Forall (fun q => sub q = Some SUCCESS) l.
Proof.
  induction l as [|q l IH]; intros expected He; cbn [sa_verify_loop] in He; [by repeat constructor|].
  destruct (Z.ltb_spec (int_field q "proposal_number") expected) as [|Hle]; [done|].
  destruct (sub q) as [[]|] eqn:Hq; try done. destruct (IH _ He) as [Hs Hf]. split; [|by constructor].
  cbn [fmap list_fmap]. constructor; [done|]. constructor; [done|]. apply StronglySorted_inv in Hs as [_ Hs].
  eapply Forall_impl; [exact Hs|]. cbn. lia.
Qed.

(** ** No read outside of the data *)

Lemma eap_verify_defined p : is_Some (eap_verify p).
Proof.
  unfold eap_verify. destruct (Z.ltb_spec (Z.of_nat (length (chunk_field p "data"))) 4) as [|Hl]; [done|].
  rewrite load_within by lia. cbn [fmap option_fmap option_map mbind option_bind]. destruct (negb _); [done|].
  destruct (chunk_field p "data") as [|c d]; [cbn in Hl; lia|done].
Qed.

Lemma verify_list_defined sub l : (forall p, is_Some (sub p)) -> is_Some (verify_list sub l).
Proof. intros Hs. induction l as [|p l IH]; cbn; [done|]. destruct (Hs p) as [[] ->]; cbn; done. Qed.

Lemma sa_verify_loop_defined sub l : (forall p, is_Some (sub p)) ->
  forall expected, is_Some (sa_verify_loop sub expected l).
Proof.
  intros Hs. induction l as [|p l IH]; intros expected; cbn; [done|]. destruct (_ <? _); [done|].
  destruct (Hs p) as [[] ->]; cbn; done.
Qed.

Lemma verify_defined fuel p : is_Some (verify fuel p).
Proof.
  revert p. induction fuel as [|fuel IH]; intros p; cbn [verify]; [done|].
  set (sub q := fst <$> verify fuel q). assert (forall q, is_Some (sub q)) as Hs by (intros q; by apply fmap_is_Some).
  clearbody sub. pose proof (fun l => verify_list_defined sub l Hs) as Hl.
  destruct (class_of p) as [[]|]; try done;
    try (destruct (eap_verify_defined p) as [s ->]; done);
    unfold proposal_verify, transform_verify, ts_verify; split_ifs; try done;
    try (match goal with |- context [verify_list sub ?l] => destruct (Hl l) as [s ->] end; done).
  all: destruct (sa_verify_loop_defined sub (list_field p "proposals") Hs
    (if bool_decide (class_of p = Known PLV2_SECURITY_ASSOCIATION) then 1 else 0)) as [s E].
  all: unfold sa_verify; by rewrite E.
Qed.

(** The SPI of a proposal has a length its protocol knows. *)
Definition spi_length_ok (protocol : Z) (len : nat) : Prop :=
  (protocol = 1 -> len = 0%nat \/ len = 8%nat) /\ (protocol = 2 \/ protocol = 3 -> len = 4%nat) /\
  (protocol = 4 -> len = 2%nat \/ len = 4%nat).

Lemma proposal_verify_success sub q : class_of q = Known PLV2_PROPOSAL_SUBSTRUCTURE -> proposal_verify sub q = Some SUCCESS ->
  int_field q "transforms_count" = Z.of_nat (length (list_field q "transforms")) /\
  spi_length_ok (int_field q "protocol_id") (length (chunk_field q "spi")) /\
  Forall (fun t => sub t = Some SUCCESS) (list_field q "transforms").
Proof.
  intros Hc. unfold proposal_verify. rewrite Hc, bool_decide_false by done. destruct (_ && _); [done|].
  destruct (Z.eqb_spec (int_field q "transforms_count") (Z.of_nat (length (list_field q "transforms")))) as [->|]; [|done].
  cbn [negb]. destruct (negb _) eqn:Hok; [done|]. apply negb_false_iff in Hok. intros Hl%verify_list_success.
  split; [done|]. split; [|done]. unfold spi_length_ok. revert Hok. generalize (int_field q "protocol_id").
  intros n Hok.
  destruct (Z.eqb_spec n 4); [lia|]. destruct (Z.eqb_spec n 2); [cbn in Hok; lia|].
  destruct (Z.eqb_spec n 3); [cbn in Hok; lia|]. cbn [orb] in Hok. destruct (Z.eqb_spec n 1); lia.
Qed.

(** an SA payload of IKEv2 that is accepted: the proposals are numbered from one on,
    without going back, and each one has as many transforms as it announces, and an SPI of
    a length that its protocol knows. *)
Theorem sa_payload_accepted p q : class_of p = Known PLV2_SECURITY_ASSOCIATION -> verify max_depth p = Some (SUCCESS, q) ->
  Forall (fun s => class_of s = Known PLV2_PROPOSAL_SUBSTRUCTURE) (list_field p "proposals") ->
  StronglySorted Z.le (1 :: ((fun s => int_field s "proposal_number") <$> list_field p "proposals")) /\
  Forall (fun s => int_field s "transforms_count" = Z.of_nat (length (list_field s "transforms")) /\
                   spi_length_ok (int_field s "protocol_id") (length (chunk_field s "spi"))) (list_field p "proposals").
Proof.
  intros Hc Hv Hcls. cbn [verify max_depth] in Hv. rewrite Hc in Hv. apply bind_Some in Hv as (s & Hv & [= -> _]).
  unfold sa_verify in Hv. rewrite Hc, bool_decide_true in Hv by done.
  apply sa_verify_loop_success in Hv as [Hs Hf]. split; [exact Hs|].
  apply Forall_forall. intros s Hin. rewrite Forall_forall in Hf, Hcls. specialize (Hf s Hin). specialize (Hcls s Hin).
  apply fmap_Some in Hf as ([? r] & Hf & [= <-]). cbn [verify] in Hf. rewrite Hcls in Hf.
  apply bind_Some in Hf as (? & Hf & [= -> _]). apply proposal_verify_success in Hf as (? & ? & _); done.
Qed.

Lemma sa_payload_accepted_witness :
  StronglySorted Z.le (1 :: ((fun s => int_field s "proposal_number") <$> list_field sa_example "proposals")) /\
  Forall (fun s => int_field s "transforms_count" = Z.of_nat (length (list_field s "transforms")) /\
                   spi_length_ok (int_field s "protocol_id") (length (chunk_field s "spi"))) (list_field sa_example "proposals").
Proof.
  refine (sa_payload_accepted sa_example sa_example eq_refl _ _); [vm_compute; reflexivity|].
  apply (bool_decide_unpack _). vm_compute. exact I.
Defined.

(** which ports a traffic selector may have.  The exception that is meant for opaque
    ports (65535 to 0) is made for all ranges that start at 65535 or end at 0. *)
Theorem selector_accepted p : class_of p = Known PLV2_TRAFFIC_SELECTOR_SUBSTRUCTURE ->
  verify max_depth p = Some (SUCCESS, p) <->
  (int_field p "start_port" <= int_field p "end_port" \/ int_field p "start_port" = 65535 \/ int_field p "end_port" = 0) /\
  (int_field p "ts_type" = 7 /\ length (chunk_field p "starting_address") = 4%nat /\ length (chunk_field p "ending_address") = 4%nat \/
   int_field p "ts_type" = 8 /\ length (chunk_field p "starting_address") = 16%nat /\ length (chunk_field p "ending_address") = 16%nat).
Proof.
  intros Hc. cbn [verify max_depth]. rewrite Hc. unfold selector_verify.
  assert (forall s, Some (s, p) = Some (SUCCESS, p) <-> s = SUCCESS) as -> by (intros s; split; [by intros [= ->]|by intros ->]).
  destruct ((_ <? _) && negb (_ =? 65535) && negb (_ =? 0)) eqn:Hp.
  - split; [done|]. intros [H _]. lia.
  - destruct (Z.eqb_spec (int_field p "ts_type") 7) as [->|H7]; [rewrite of_bool_success; lia|].
    destruct (Z.eqb_spec (int_field p "ts_type") 8) as [->|H8]; [rewrite of_bool_success; lia|]. split; [done|]. lia.
Qed.

(** A selector of the ports from 65535 to 1. *)
Definition selector_example : payload :=
  Eval vm_compute in
  assign (assign (assign (assign (create_object (Known PLV2_TRAFFIC_SELECTOR_SUBSTRUCTURE)) "start_port" (FInt 65535))
    "end_port" (FInt 1)) "starting_address" (FChunk [10; 0; 0; 0])) "ending_address" (FChunk [10; 0; 0; 255]).

Lemma selector_accepted_witness : verify max_depth selector_example = Some (SUCCESS, selector_example).
Proof. refine (proj2 (selector_accepted selector_example eq_refl) _). vm_compute. split; [by right; left|by left]. Defined.
