(* ===== verification/CodecTyping.v ===== *)
(** The types of the fields of payloads: what the encoding rules of
    [src/libcharon/encoding/payloads] declare of a field, and that what the parser makes
    has it.  Fields of parsed payloads are read by name with the ranges shown here. *)
From S2P Require Import Prelude Payloads Codec CodecParser CodecGenerator PayloadVerify.
From stdpp Require Import base numbers list option strings.
From Stdlib Require Import Lia ZArith.
Local Open Scope Z_scope.

(** ** Types of fields *)

(** A field has the kind its rule declares: integers of its width, flags, bytes, and
    lists of substructures of the type the rule names. *)
Definition field_ok (sub : payload -> bool) (ty : encoding_type_t) (f : field) : bool :=
  match ty, f with
  | U_INT_4, FInt v => in_range v 16
  | ATTRIBUTE_TYPE, FInt v => in_range v 32768
  | IKE_SPI, FInt v => in_range v (256 ^ 8)
  | PAYLOAD_LIST t, FList l => forallb (fun p => bool_decide (class_of p = Known t) && sub p) l
  | (SPI | ATTRIBUTE_VALUE | ADDRESS | CHUNK_DATA | ENCRYPTED_DATA), FChunk b => bool_decide (bytes_ok b)
  | (RESERVED_BIT | FLAG | ATTRIBUTE_FORMAT), FBool _ => true
  | ty, FInt v => match int_width ty with Some n => in_range v (256 ^ Z.of_nat n) | None => false end
  | _, _ => false
  end.

Fixpoint fields_ok (sub : payload -> bool) (rules : list encoding_rule_t) (fs : list field) : bool :=
  match rules, fs with
  | [], [] => true
  | (ty, _) :: rules, f :: fs => field_ok sub ty f && fields_ok sub rules fs
  | _, _ => false
  end.

Fixpoint well_typed (fuel : nat) (p : payload) : bool :=
  match fuel with
  | O => false
  | S fuel => fields_ok (well_typed fuel) (get_encoding_rules (class_of p)) (fields_of p)
  end.

(** ** What is encoded is well typed *)

Lemma encode_list_typed enc sub t l bs : (forall p b, enc p = Some b -> sub p = true) ->
  encode_list enc l = Some bs -> forallb (fun p => bool_decide (class_of p = Known t)) l = true ->
  forallb (fun p => bool_decide (class_of p = Known t) && sub p) l = true.
Proof.
  intros Hs. revert bs. induction l as [|p l IH]; intros bs; cbn [encode_list forallb]; [done|].
  destruct (enc p) as [b|] eqn:Ep; [|done]. cbn [mbind option_bind].
  destruct (encode_list enc l) as [bs'|]; [|done]. intros _ [Hc Hl]%andb_true_iff.
  rewrite Hc, (Hs _ _ Ep). by apply (IH bs').
Qed.

Lemma encode_field_typed enc sub cls c acc cnt ty f r : (forall p b, enc p = Some b -> sub p = true) ->
  encode_field enc cls c acc cnt ty f = Some r -> field_ok sub ty f = true.
Proof.
  intros Hs He. destruct f as [v|b|b|l].
  - destruct ty; cbn in He |- *; try done;
      repeat match type of He with (if ?b then _ else _) = _ => destruct b eqn:? end; try done;
      repeat match goal with H : (_ && _) = true |- _ => apply andb_true_iff in H as [? ?] end; try done;
      by apply negb_false_iff.
  - by destruct ty.
  - cbn in He. destruct (chunk_fits cls c ty (length b)) eqn:Hf; [|done].
    destruct (bool_decide (bytes_ok b)) eqn:Hb; [|done]. by destruct ty.
  - destruct ty; cbn in He |- *; try done. destruct (cnt =? 0); [|done]. unfold encode_sub in He.
    destruct (encode_list enc l) as [bs|] eqn:El; [|done]. cbn [mbind option_bind] in He.
    destruct (forallb _ l) eqn:Hl; [|done]. by eapply encode_list_typed.
Qed.

Lemma encode_rules_typed enc sub cls rules : (forall p b, enc p = Some b -> sub p = true) ->
  forall c acc cnt fs bs, encode_rules enc cls c acc cnt rules fs = Some bs -> fields_ok sub rules fs = true.
Proof.
  intros Hs. induction rules as [|[ty name] rules IH]; intros c acc cnt [|f fs] bs He; try done.
  cbn [encode_rules fields_ok] in *.
  destruct (encode_field _ _ _ _ _ _ _) as [[[out acc'] cnt']|] eqn:Ef; [|done]. cbn [mbind option_bind] in He.
  destruct (encode_rules _ _ _ _ _ rules fs) as [bs'|] eqn:Er; [|done].
  rewrite (encode_field_typed _ _ _ _ _ _ _ _ _ Hs Ef). by apply (IH _ _ _ _ _ Er).
Qed.

Lemma encode_typed fuel p b : encode fuel p = Some b -> well_typed fuel p = true.
Proof.
  revert p b. induction fuel as [|fuel IH]; intros p b He; [done|]. cbn [encode well_typed] in *.
  eapply encode_rules_typed; [|done]. apply IH.
Qed.

(** ** The encoding, field by field *)
Section Steps.
Context (enc : payload -> option chunk) (cls : payload_class).

Lemma encode_rules_int c acc cnt ty n name rules fs bs : int_width ty = Some n ->
  encode_rules enc cls c acc cnt ((ty, name) :: rules) fs = Some bs ->
  exists v fs' bs', fs = FInt v :: fs' /\ 0 <= v < 256 ^ Z.of_nat n /\ (ty = PAYLOAD_LENGTH -> 4 <= v) /\
    encode_rules enc cls (next_ctx c ty (FInt v)) 0 0 rules fs' = Some bs' /\ bs = be_bytes n v ++ bs'.
Proof.
  intros Hw He. destruct fs as [|f fs]; [done|]. cbn [encode_rules] in He.
  assert (exists v, f = FInt v) as [v ->] by (destruct f, ty; try done; by eexists).
  rewrite (encode_field_int _ _ _ _ _ _ _ _ Hw) in He. destruct (_ && _) eqn:Hc in He; [|done].
  cbn [mbind option_bind] in He. destruct (encode_rules _ _ _ _ _ rules fs) as [bs'|] eqn:Er; [|done].
  apply andb_true_iff in Hc as [[Hr%in_range_true _]%andb_true_iff Hl].
  exists v, fs, bs'. split; [done|]. split; [done|]. split; [|split; [done|]].
  - intros ->. rewrite bool_decide_true in Hl by done. cbn in Hl. lia.
  - remember (be_bytes n v) as b. by injection He.
Qed.

Lemma encode_rules_step c acc cnt ty name rules f fs out acc' cnt' bs :
  encode_field enc cls c acc cnt ty f = Some (out, acc', cnt') ->
  encode_rules enc cls (next_ctx c ty f) acc' cnt' rules fs = Some bs ->
  encode_rules enc cls c acc cnt ((ty, name) :: rules) (f :: fs) = Some (out ++ bs).
Proof. intros Hf Hr. cbn [encode_rules]. rewrite Hf. cbn [mbind option_bind]. by rewrite Hr. Qed.

Lemma encode_rules_int_intro c acc ty n name rules fs v bs : int_width ty = Some n -> 0 <= v < 256 ^ Z.of_nat n ->
  (ty = PAYLOAD_LENGTH -> 4 <= v) -> encode_rules enc cls (next_ctx c ty (FInt v)) 0 0 rules fs = Some bs ->
  encode_rules enc cls c acc 0 ((ty, name) :: rules) (FInt v :: fs) = Some (be_bytes n v ++ bs).
Proof.
  intros Hw Hv Hl Hr. cbn [encode_rules]. rewrite (encode_field_int _ _ _ _ _ _ _ _ Hw), (proj2 (in_range_true _ _) Hv).
  assert (bool_decide (ty = PAYLOAD_LENGTH) && (v <? 4) = false) as ->.
  { case_bool_decide as Ht; [specialize (Hl Ht); lia|done]. }
  cbn [andb negb Z.eqb mbind option_bind]. rewrite Hr. done.
Qed.

Lemma encode_rules_chunk c acc cnt ty name rules fs bs :  ty ∈ [SPI; CHUNK_DATA; ADDRESS; ATTRIBUTE_VALUE; ENCRYPTED_DATA] ->
  encode_rules enc cls c acc cnt ((ty, name) :: rules) fs = Some bs ->
  exists b fs' bs', fs = FChunk b :: fs' /\ chunk_fits cls c ty (length b) = true /\ bytes_ok b /\
    encode_rules enc cls c 0 0 rules fs' = Some bs' /\ bs = b ++ bs'.
Proof.
  intros Hty He. destruct fs as [|f fs]; [done|]. cbn [encode_rules] in He.
  destruct f as [v|v|b|l].
  1, 2, 4: by destruct ty; try discriminate He; apply (bool_decide_pack _) in Hty; vm_compute in Hty.
  cbn [encode_field] in He. destruct (chunk_fits _ _ _ _) eqn:Hf; [|done].
  case_bool_decide as Hb; [|done]. destruct (cnt =? 0); [|done]. cbn [andb mbind option_bind] in He.
  destruct (encode_rules _ _ _ _ _ rules fs) as [bs'|] eqn:Er; [|done]. injection He as <-.
  exists b, fs, bs'. assert (next_ctx c ty (FChunk b) = c) as Hc by (by destruct ty). by rewrite Hc in Er.
Qed.

Lemma encode_rules_chunk_intro c acc ty name rules fs b bs : chunk_fits cls c ty (length b) = true -> bytes_ok b ->
  encode_rules enc cls c 0 0 rules fs = Some bs ->
  encode_rules enc cls c acc 0 ((ty, name) :: rules) (FChunk b :: fs) = Some (b ++ bs).
Proof.
  intros Hf Hb Hr. cbn [encode_rules encode_field]. rewrite Hf, bool_decide_true by done. cbn [andb Z.eqb mbind option_bind].
  assert (next_ctx c ty (FChunk b) = c) as -> by (by destruct ty). by rewrite Hr.
Qed.

Lemma encode_rules_nil c acc cnt fs bs : encode_rules enc cls c acc cnt [] fs = Some bs -> fs = [] /\ bs = [].
Proof. destruct fs; [|done]. cbn. by destruct (cnt =? 0); intros [= <-]. Qed.
End Steps.

(** ** Reading fields *)

Lemma fields_ok_lookup sub rules fs i ty name : fields_ok sub rules fs = true -> rules !! i = Some (ty, name) ->
  exists f, fs !! i = Some f /\ field_ok sub ty f = true.
Proof.
  revert fs i. induction rules as [|[ty' name'] rules IH]; intros [|f fs] [|i] H; try done; cbn [fields_ok] in H;
    apply andb_true_iff in H as [Hf H]; cbn [lookup list_lookup].
  - intros [= -> ->]. by exists f.
  - by apply IH.
Qed.

(** A rule of the class types the field of its name. *)
Lemma typed_field fuel p ty name : well_typed (S fuel) p = true -> (ty, name) ∈ get_encoding_rules (class_of p) ->
  exists f, get_field p name = Some f /\ field_ok (well_typed fuel) ty f = true.
Proof.
  intros Hw Hin. apply list_elem_of_lookup in Hin as [i Hi].
  destruct (fields_ok_lookup _ _ _ _ _ _ Hw Hi) as (f & Hf & Hok). exists f. split; [|done].
  pose proof (take_drop_middle _ _ _ Hi) as Hr. symmetry in Hr. unfold get_field.
  rewrite (field_index_at _ _ _ _ _ Hr), length_take_le by (apply lookup_lt_Some in Hi; lia). exact Hf.
Qed.

(** An integer field of a width the payload has is in range. *)
Lemma typed_int fuel p ty name n : well_typed (S fuel) p = true -> (ty, name) ∈ get_encoding_rules (class_of p) ->
  int_width ty = Some n -> 0 <= int_field p name < 256 ^ Z.of_nat n.
Proof.
  intros Hw Hin Hn. destruct (typed_field _ _ _ _ Hw Hin) as (f & Hf & Hok). unfold int_field. rewrite Hf.
  apply in_range_true. destruct ty; try discriminate Hn; destruct f; try discriminate Hok; cbn in Hok;
    injection Hn as <-; done.
Qed.

Lemma typed_nonneg fuel p name : well_typed (S fuel) p = true -> 0 <= int_field p name.
Proof.
  intros Hw. unfold int_field, get_field.
  destruct (field_index (class_of p) name) as [i|] eqn:Hi; [|done]. cbn [mbind option_bind].
  destruct (field_index_Some _ _ _ Hi) as [ty Hr].
  destruct (fields_ok_lookup _ _ _ _ _ _ Hw Hr) as (f & Hf & Hok). rewrite Hf.
  destruct f as [v| | |]; try done. destruct ty; try discriminate Hok; cbn in Hok; apply in_range_true in Hok; lia.
Qed.

Lemma typed_chunk fuel p name : well_typed (S fuel) p = true -> bytes_ok (chunk_field p name).
Proof.
  intros Hw. unfold chunk_field, get_field.
  destruct (field_index (class_of p) name) as [i|] eqn:Hi; [|constructor]. cbn [mbind option_bind].
  destruct (field_index_Some _ _ _ Hi) as [ty Hr].
  destruct (fields_ok_lookup _ _ _ _ _ _ Hw Hr) as (f & Hf & Hok). rewrite Hf.
  destruct f as [| |b|]; try constructor. destruct ty; try discriminate Hok; by apply bool_decide_eq_true in Hok.
Qed.

(** ** Theorems *)

(** what the parser makes is well typed: every field has the kind and the width its
    encoding rule declares, and lists hold only substructures of the declared type. *)
Theorem parser_well_typed st t p st' : p_bit st = 0 -> bytes_ok (p_rest st) ->
  parse_payload max_depth st t = Done (p, st') -> well_typed max_depth p = true.
Proof. intros Hb Hr (_ & b & He & _)%parse_encode; try done. by eapply encode_typed. Qed.

Lemma parser_well_typed_witness : well_typed max_depth sa_example = true.
Proof.
  refine (parser_well_typed (parser_create sa_bytes) PLV2_SECURITY_ASSOCIATION sa_example _ _ _ _);
    [reflexivity|apply (bool_decide_unpack _); vm_compute; exact I|vm_compute; reflexivity].
Defined.
