(* ===== verification/MessageRules.v ===== *)
(** The rules of IKE messages, [src/libcharon/encoding/message.c]: which payloads an
    exchange has, how often, encrypted or not, and in which order. *)
From S2P Require Import Prelude Payloads.
From stdpp Require Import base numbers list.
From Stdlib Require Import ZArith.
Local Open Scope Z_scope.

(** The exchanges, as numbers in the header. *)
Definition ID_PROT : Z := 2.
Definition AGGRESSIVE : Z := 4.
Definition INFORMATIONAL_V1 : Z := 5.
Definition TRANSACTION : Z := 6.
Definition QUICK_MODE : Z := 32.
Definition IKE_SA_INIT : Z := 34.
Definition IKE_AUTH : Z := 35.
Definition CREATE_CHILD_SA : Z := 36.
Definition INFORMATIONAL : Z := 37.
Definition EXCHANGE_TYPE_UNDEFINED : Z := 255.

Record payload_rule_t := PRule {
  pr_type : payload_type_t;
  min_occurence : Z;
  max_occurence : Z;
  pr_encrypted : bool;
  sufficient : bool;
}.

(** A type, and the type of notification if it is not zero. *)
Definition payload_order_t : Type := payload_type_t * Z.

Record message_rule_t := MRule {
  mr_exchange_type : Z;
  mr_is_request : bool;
  mr_encrypted : bool;
  mr_rules : list payload_rule_t;
  mr_order : list payload_order_t;
}.

Definition ike_sa_init_i_rules : list payload_rule_t :=
  [PRule PLV2_NOTIFY 0 20 false false; PRule PLV2_SECURITY_ASSOCIATION 1 1 false false;
   PRule PLV2_KEY_EXCHANGE 1 1 false false; PRule PLV2_NONCE 1 1 false false;
   PRule PLV2_VENDOR_ID 0 20 false false].

Definition ike_sa_init_i_order : list payload_order_t :=
  [(PLV2_NOTIFY, 16390); (PLV2_SECURITY_ASSOCIATION, 0); (PLV2_KEY_EXCHANGE, 0); (PLV2_NONCE, 0);
   (PLV2_NOTIFY, 16388); (PLV2_NOTIFY, 16389); (PLV2_NOTIFY, 0); (PLV2_VENDOR_ID, 0)].

Definition ike_sa_init_r_rules : list payload_rule_t :=
  [PRule PLV2_NOTIFY 0 20 false true; PRule PLV2_SECURITY_ASSOCIATION 1 1 false false;
   PRule PLV2_KEY_EXCHANGE 1 1 false false; PRule PLV2_NONCE 1 1 false false;
   PRule PLV2_CERTREQ 0 20 false false; PRule PLV2_VENDOR_ID 0 20 false false].

Definition ike_sa_init_r_order : list payload_order_t :=
  [(PLV2_SECURITY_ASSOCIATION, 0); (PLV2_KEY_EXCHANGE, 0); (PLV2_NONCE, 0); (PLV2_NOTIFY, 16388);
   (PLV2_NOTIFY, 16389); (PLV2_NOTIFY, 16392); (PLV2_CERTREQ, 0); (PLV2_NOTIFY, 0);
   (PLV2_VENDOR_ID, 0)].

Definition ike_auth_i_rules : list payload_rule_t :=
  [PRule PLV2_FRAGMENT 0 1 true true; PRule PLV2_NOTIFY 0 20 true false;
   PRule PLV2_EAP 0 1 true true; PRule PLV2_AUTH 0 1 true true;
   PRule PLV2_ID_INITIATOR 0 1 true false; PRule PLV2_CERTIFICATE 0 8 true false;
   PRule PLV2_CERTREQ 0 20 true false; PRule PLV2_ID_RESPONDER 0 1 true false;
   PRule PLV2_SECURITY_ASSOCIATION 0 1 true false; PRule PLV2_TS_INITIATOR 0 1 true false;
   PRule PLV2_TS_RESPONDER 0 1 true false; PRule PLV2_CONFIGURATION 0 1 true false;
   PRule PLV2_VENDOR_ID 0 20 true false].

Definition ike_auth_i_order : list payload_order_t :=
  [(PLV2_ID_INITIATOR, 0); (PLV2_CERTIFICATE, 0); (PLV2_NOTIFY, 16384); (PLV2_NOTIFY, 16392);
   (PLV2_CERTREQ, 0); (PLV2_ID_RESPONDER, 0); (PLV2_AUTH, 0); (PLV2_EAP, 0);
   (PLV2_CONFIGURATION, 0); (PLV2_NOTIFY, 16387); (PLV2_NOTIFY, 16391); (PLV2_NOTIFY, 16394);
   (PLV2_NOTIFY, 16395); (PLV2_SECURITY_ASSOCIATION, 0); (PLV2_TS_INITIATOR, 0);
   (PLV2_TS_RESPONDER, 0); (PLV2_NOTIFY, 16396); (PLV2_NOTIFY, 16397); (PLV2_NOTIFY, 16398);
   (PLV2_NOTIFY, 16399); (PLV2_NOTIFY, 0); (PLV2_VENDOR_ID, 0); (PLV2_FRAGMENT, 0)].

Definition ike_auth_r_rules : list payload_rule_t :=
  [PRule PLV2_FRAGMENT 0 1 true true; PRule PLV2_NOTIFY 0 20 true true;
   PRule PLV2_EAP 0 1 true true; PRule PLV2_AUTH 0 1 true true;
   PRule PLV2_CERTIFICATE 0 8 true false; PRule PLV2_ID_RESPONDER 0 1 true false;
   PRule PLV2_SECURITY_ASSOCIATION 0 1 true false; PRule PLV2_TS_INITIATOR 0 1 true false;
   PRule PLV2_TS_RESPONDER 0 1 true false; PRule PLV2_CONFIGURATION 0 1 true false;
   PRule PLV2_VENDOR_ID 0 20 true false].

Definition ike_auth_r_order : list payload_order_t :=
  [(PLV2_ID_RESPONDER, 0); (PLV2_CERTIFICATE, 0); (PLV2_AUTH, 0); (PLV2_EAP, 0);
   (PLV2_CONFIGURATION, 0); (PLV2_NOTIFY, 16387); (PLV2_NOTIFY, 16391); (PLV2_NOTIFY, 16394);
   (PLV2_NOTIFY, 16395); (PLV2_SECURITY_ASSOCIATION, 0); (PLV2_TS_INITIATOR, 0);
   (PLV2_TS_RESPONDER, 0); (PLV2_NOTIFY, 16403); (PLV2_NOTIFY, 16396); (PLV2_NOTIFY, 16397);
   (PLV2_NOTIFY, 16398); (PLV2_NOTIFY, 16399); (PLV2_NOTIFY, 0); (PLV2_VENDOR_ID, 0);
   (PLV2_FRAGMENT, 0)].

Definition informational_i_rules : list payload_rule_t :=
  [PRule PLV2_FRAGMENT 0 1 true true; PRule PLV2_NOTIFY 0 20 true false;
   PRule PLV2_CONFIGURATION 0 1 true false; PRule PLV2_DELETE 0 20 true false;
   PRule PLV2_VENDOR_ID 0 20 true false].

Definition informational_i_order : list payload_order_t :=
  [(PLV2_NOTIFY, 16400); (PLV2_NOTIFY, 16388); (PLV2_NOTIFY, 16389); (PLV2_NOTIFY, 16401);
   (PLV2_NOTIFY, 0); (PLV2_DELETE, 0); (PLV2_CONFIGURATION, 0); (PLV2_FRAGMENT, 0)].

Definition informational_r_rules : list payload_rule_t :=
  [PRule PLV2_FRAGMENT 0 1 true true; PRule PLV2_NOTIFY 0 20 true false;
   PRule PLV2_CONFIGURATION 0 1 true false; PRule PLV2_DELETE 0 20 true false;
   PRule PLV2_VENDOR_ID 0 20 true false].

Definition informational_r_order : list payload_order_t :=
  [(PLV2_NOTIFY, 16400); (PLV2_NOTIFY, 16388); (PLV2_NOTIFY, 16389); (PLV2_NOTIFY, 16401);
   (PLV2_NOTIFY, 0); (PLV2_DELETE, 0); (PLV2_CONFIGURATION, 0); (PLV2_FRAGMENT, 0)].

Definition create_child_sa_i_rules : list payload_rule_t :=
  [PRule PLV2_FRAGMENT 0 1 true true; PRule PLV2_NOTIFY 0 20 true false;
   PRule PLV2_SECURITY_ASSOCIATION 1 1 true false; PRule PLV2_NONCE 1 1 true false;
   PRule PLV2_KEY_EXCHANGE 0 1 true false; PRule PLV2_TS_INITIATOR 0 1 true false;
   PRule PLV2_TS_RESPONDER 0 1 true false; PRule PLV2_CONFIGURATION 0 1 true false;
   PRule PLV2_VENDOR_ID 0 20 true false].

Definition create_child_sa_i_order : list payload_order_t :=
  [(PLV2_NOTIFY, 16393); (PLV2_NOTIFY, 16387); (PLV2_NOTIFY, 16391); (PLV2_NOTIFY, 16394);
   (PLV2_NOTIFY, 16395); (PLV2_SECURITY_ASSOCIATION, 0); (PLV2_NONCE, 0); (PLV2_KEY_EXCHANGE, 0);
   (PLV2_TS_INITIATOR, 0); (PLV2_TS_RESPONDER, 0); (PLV2_NOTIFY, 0); (PLV2_FRAGMENT, 0)].

Definition create_child_sa_r_rules : list payload_rule_t :=
  [PRule PLV2_FRAGMENT 0 1 true true; PRule PLV2_NOTIFY 0 20 true true;
   PRule PLV2_SECURITY_ASSOCIATION 1 1 true false; PRule PLV2_NONCE 1 1 true false;
   PRule PLV2_KEY_EXCHANGE 0 1 true false; PRule PLV2_TS_INITIATOR 0 1 true false;
   PRule PLV2_TS_RESPONDER 0 1 true false; PRule PLV2_CONFIGURATION 0 1 true false;
   PRule PLV2_VENDOR_ID 0 20 true false].

Definition create_child_sa_r_order : list payload_order_t :=
  [(PLV2_NOTIFY, 16387); (PLV2_NOTIFY, 16391); (PLV2_NOTIFY, 16394); (PLV2_NOTIFY, 16395);
   (PLV2_SECURITY_ASSOCIATION, 0); (PLV2_NONCE, 0); (PLV2_KEY_EXCHANGE, 0); (PLV2_TS_INITIATOR, 0);
   (PLV2_TS_RESPONDER, 0); (PLV2_NOTIFY, 16386); (PLV2_NOTIFY, 0); (PLV2_FRAGMENT, 0)].

Definition id_prot_i_rules : list payload_rule_t :=
  [PRule PLV1_NOTIFY 0 20 false false; PRule PLV1_SECURITY_ASSOCIATION 0 1 false false;
   PRule PLV1_KEY_EXCHANGE 0 1 false false; PRule PLV1_NONCE 0 1 false false;
   PRule PLV1_VENDOR_ID 0 20 false false; PRule PLV1_CERTREQ 0 20 false false;
   PRule PLV1_NAT_D 0 10 false false; PRule PLV1_NAT_D_DRAFT_00_03 0 10 false false;
   PRule PLV1_ID 0 1 true false; PRule PLV1_CERTIFICATE 0 8 true false;
   PRule PLV1_SIGNATURE 0 1 true false; PRule PLV1_HASH 0 1 true false;
   PRule PLV1_FRAGMENT 0 1 false true].

Definition id_prot_i_order : list payload_order_t :=
  [(PLV1_SECURITY_ASSOCIATION, 0); (PLV1_KEY_EXCHANGE, 0); (PLV1_NONCE, 0); (PLV1_ID, 0);
   (PLV1_CERTIFICATE, 0); (PLV1_SIGNATURE, 0); (PLV1_HASH, 0); (PLV1_CERTREQ, 0); (PLV1_NOTIFY, 0);
   (PLV1_VENDOR_ID, 0); (PLV1_NAT_D, 0); (PLV1_NAT_D_DRAFT_00_03, 0); (PLV1_FRAGMENT, 0)].

Definition id_prot_r_rules : list payload_rule_t :=
  [PRule PLV1_NOTIFY 0 20 false false; PRule PLV1_SECURITY_ASSOCIATION 0 1 false false;
   PRule PLV1_KEY_EXCHANGE 0 1 false false; PRule PLV1_NONCE 0 1 false false;
   PRule PLV1_VENDOR_ID 0 20 false false; PRule PLV1_CERTREQ 0 20 false false;
   PRule PLV1_NAT_D 0 10 false false; PRule PLV1_NAT_D_DRAFT_00_03 0 10 false false;
   PRule PLV1_ID 0 1 true false; PRule PLV1_CERTIFICATE 0 8 true false;
   PRule PLV1_SIGNATURE 0 1 true false; PRule PLV1_HASH 0 1 true false;
   PRule PLV1_FRAGMENT 0 1 false true].

Definition id_prot_r_order : list payload_order_t :=
  [(PLV1_SECURITY_ASSOCIATION, 0); (PLV1_KEY_EXCHANGE, 0); (PLV1_NONCE, 0); (PLV1_ID, 0);
   (PLV1_CERTIFICATE, 0); (PLV1_SIGNATURE, 0); (PLV1_HASH, 0); (PLV1_CERTREQ, 0); (PLV1_NOTIFY, 0);
   (PLV1_VENDOR_ID, 0); (PLV1_NAT_D, 0); (PLV1_NAT_D_DRAFT_00_03, 0); (PLV1_FRAGMENT, 0)].

Definition aggressive_i_rules : list payload_rule_t :=
  [PRule PLV1_NOTIFY 0 20 false false; PRule PLV1_SECURITY_ASSOCIATION 0 1 false false;
   PRule PLV1_KEY_EXCHANGE 0 1 false false; PRule PLV1_NONCE 0 1 false false;
   PRule PLV1_VENDOR_ID 0 20 false false; PRule PLV1_CERTREQ 0 20 false false;
   PRule PLV1_NAT_D 0 10 false false; PRule PLV1_NAT_D_DRAFT_00_03 0 10 false false;
   PRule PLV1_ID 0 1 false false; PRule PLV1_CERTIFICATE 0 8 true false;
   PRule PLV1_SIGNATURE 0 1 true false; PRule PLV1_HASH 0 1 true false;
   PRule PLV1_FRAGMENT 0 1 false true].

Definition aggressive_i_order : list payload_order_t :=
  [(PLV1_SECURITY_ASSOCIATION, 0); (PLV1_KEY_EXCHANGE, 0); (PLV1_NONCE, 0); (PLV1_ID, 0);
   (PLV1_CERTIFICATE, 0); (PLV1_CERTREQ, 0); (PLV1_NOTIFY, 0); (PLV1_VENDOR_ID, 0); (PLV1_HASH, 0);
   (PLV1_NAT_D, 0); (PLV1_NAT_D_DRAFT_00_03, 0); (PLV1_SIGNATURE, 0); (PLV1_FRAGMENT, 0)].

Definition aggressive_r_rules : list payload_rule_t :=
  [PRule PLV1_NOTIFY 0 20 false false; PRule PLV1_SECURITY_ASSOCIATION 0 1 false false;
   PRule PLV1_KEY_EXCHANGE 0 1 false false; PRule PLV1_NONCE 0 1 false false;
   PRule PLV1_VENDOR_ID 0 20 false false; PRule PLV1_CERTREQ 0 20 false false;
   PRule PLV1_NAT_D 0 10 false false; PRule PLV1_NAT_D_DRAFT_00_03 0 10 false false;
   PRule PLV1_ID 0 1 false false; PRule PLV1_CERTIFICATE 0 8 false false;
   PRule PLV1_SIGNATURE 0 1 false false; PRule PLV1_HASH 0 1 false false;
   PRule PLV1_FRAGMENT 0 1 false true].

Definition aggressive_r_order : list payload_order_t :=
  [(PLV1_SECURITY_ASSOCIATION, 0); (PLV1_KEY_EXCHANGE, 0); (PLV1_NONCE, 0); (PLV1_ID, 0);
   (PLV1_CERTIFICATE, 0); (PLV1_CERTREQ, 0); (PLV1_NOTIFY, 0); (PLV1_VENDOR_ID, 0);
   (PLV1_NAT_D, 0); (PLV1_NAT_D_DRAFT_00_03, 0); (PLV1_SIGNATURE, 0); (PLV1_HASH, 0);
   (PLV1_FRAGMENT, 0)].

Definition informational_i_rules_v1 : list payload_rule_t :=
  [PRule PLV1_NOTIFY 0 20 false false; PRule PLV1_NOTIFY 0 20 true false;
   PRule PLV1_DELETE 0 20 true false; PRule PLV1_VENDOR_ID 0 20 true false].

Definition informational_i_order_v1 : list payload_order_t :=
  [(PLV1_NOTIFY, 0); (PLV1_DELETE, 0); (PLV1_VENDOR_ID, 0)].

Definition informational_r_rules_v1 : list payload_rule_t :=
  [PRule PLV1_NOTIFY 0 20 false false; PRule PLV1_NOTIFY 0 20 true false;
   PRule PLV1_DELETE 0 20 true false; PRule PLV1_VENDOR_ID 0 20 true false].

Definition informational_r_order_v1 : list payload_order_t :=
  [(PLV1_NOTIFY, 0); (PLV1_DELETE, 0); (PLV1_VENDOR_ID, 0)].

Definition quick_mode_i_rules : list payload_rule_t :=
  [PRule PLV1_NOTIFY 0 20 true false; PRule PLV1_VENDOR_ID 0 20 true false;
   PRule PLV1_HASH 0 1 true false; PRule PLV1_SECURITY_ASSOCIATION 0 2 true false;
   PRule PLV1_NONCE 0 1 true false; PRule PLV1_KEY_EXCHANGE 0 1 true false;
   PRule PLV1_ID 0 2 true false; PRule PLV1_NAT_OA 0 2 true false;
   PRule PLV1_NAT_OA_DRAFT_00_03 0 2 true false].

Definition quick_mode_i_order : list payload_order_t :=
  [(PLV1_NOTIFY, 0); (PLV1_VENDOR_ID, 0); (PLV1_HASH, 0); (PLV1_SECURITY_ASSOCIATION, 0);
   (PLV1_NONCE, 0); (PLV1_KEY_EXCHANGE, 0); (PLV1_ID, 0); (PLV1_NAT_OA, 0);
   (PLV1_NAT_OA_DRAFT_00_03, 0)].

Definition quick_mode_r_rules : list payload_rule_t :=
  [PRule PLV1_NOTIFY 0 20 true false; PRule PLV1_VENDOR_ID 0 20 true false;
   PRule PLV1_HASH 0 1 true false; PRule PLV1_SECURITY_ASSOCIATION 0 2 true false;
   PRule PLV1_NONCE 0 1 true false; PRule PLV1_KEY_EXCHANGE 0 1 true false;
   PRule PLV1_ID 0 2 true false; PRule PLV1_NAT_OA 0 2 true false;
   PRule PLV1_NAT_OA_DRAFT_00_03 0 2 true false].

Definition quick_mode_r_order : list payload_order_t :=
  [(PLV1_NOTIFY, 0); (PLV1_VENDOR_ID, 0); (PLV1_HASH, 0); (PLV1_SECURITY_ASSOCIATION, 0);
   (PLV1_NONCE, 0); (PLV1_KEY_EXCHANGE, 0); (PLV1_ID, 0); (PLV1_NAT_OA, 0);
   (PLV1_NAT_OA_DRAFT_00_03, 0)].

Definition transaction_payload_rules_v1 : list payload_rule_t :=
  [PRule PLV1_HASH 0 1 true false; PRule PLV1_CONFIGURATION 1 1 false false].

Definition transaction_payload_order_v1 : list payload_order_t :=
  [(PLV1_HASH, 0); (PLV1_CONFIGURATION, 0)].

Definition message_rules : list message_rule_t :=
  [MRule IKE_SA_INIT true false ike_sa_init_i_rules ike_sa_init_i_order;
   MRule IKE_SA_INIT false false ike_sa_init_r_rules ike_sa_init_r_order;
   MRule IKE_AUTH true true ike_auth_i_rules ike_auth_i_order;
   MRule IKE_AUTH false true ike_auth_r_rules ike_auth_r_order;
   MRule INFORMATIONAL true true informational_i_rules informational_i_order;
   MRule INFORMATIONAL false true informational_r_rules informational_r_order;
   MRule CREATE_CHILD_SA true true create_child_sa_i_rules create_child_sa_i_order;
   MRule CREATE_CHILD_SA false true create_child_sa_r_rules create_child_sa_r_order;
   MRule ID_PROT true false id_prot_i_rules id_prot_i_order;
   MRule ID_PROT false false id_prot_r_rules id_prot_r_order;
   MRule AGGRESSIVE true false aggressive_i_rules aggressive_i_order;
   MRule AGGRESSIVE false false aggressive_r_rules aggressive_r_order;
   MRule INFORMATIONAL_V1 true true informational_i_rules_v1 informational_i_order_v1;
   MRule INFORMATIONAL_V1 false true informational_r_rules_v1 informational_r_order_v1;
   MRule QUICK_MODE true true quick_mode_i_rules quick_mode_i_order;
   MRule QUICK_MODE false true quick_mode_r_rules quick_mode_r_order;
   MRule TRANSACTION true true transaction_payload_rules_v1 transaction_payload_order_v1;
   MRule TRANSACTION false true transaction_payload_rules_v1 transaction_payload_order_v1].

Definition get_message_rule (exchange_type : Z) (is_request : bool) : option message_rule_t :=
  find (fun r => (exchange_type =? mr_exchange_type r) && Bool.eqb is_request (mr_is_request r)) message_rules.

Definition get_payload_rule (rule : message_rule_t) (type : payload_type_t) : option payload_rule_t :=
  find (fun r => bool_decide (pr_type r = type)) (mr_rules rule).
