(* ===== verification/EncryptedPayload.v ===== *)
(** The encrypted payload and the encrypted fragment of IKEv2,
    [src/libcharon/encoding/payloads/encrypted_payload.c], over the AEAD interface of
    [Crypto]. *)
From S2P Require Import Prelude Crypto Payloads Codec CodecParser CodecGenerator PayloadVerify.
From stdpp Require Import base numbers list option strings.
From Stdlib Require Import Lia ZArith.
Local Open Scope Z_scope.

(** A payload with what its object holds beside the encoded fields: an encrypted payload
    the payloads in it, whether a transform is set and whether its data is plain
    already; a fragment the plain data and whether a transform is set.  The transform
    itself is an argument of the operations. *)
Record object := Object {
  o_p : payload;
  o_payloads : list payload;
  o_aead : bool;
  o_from_plain : bool;
  o_plain : chunk;
}.

Definition ordinary (p : payload) : object := Object p [] false false [].

Definition with_p (o : object) (p : payload) : object :=
  Object p (o_payloads o) (o_aead o) (o_from_plain o) (o_plain o).

Definition encrypted_payload_create : object := ordinary (create_object (Known PLV2_ENCRYPTED)).

Definition set_transform (o : object) : object :=
  Object (o_p o) (o_payloads o) true (o_from_plain o) (o_plain o).

(** Setting the type of the next payload of every one but the last. *)
Fixpoint chain (ps : list payload) (last : payload_type_t) : list payload :=
  match ps with
  | [] => []
  | p :: ps => set_next_type p (match ps with [] => last | q :: _ => get_type q end) :: chain ps last
  end.

(** ** Lengths *)

(** [overhead] is what the transform makes of the length of the contents, if one is set. *)
Definition compute_length (overhead : Z -> Z) (o : object) : object :=
  let encrypted := Z.of_nat (length (chunk_field (o_p o) "encrypted")) in
  let length :=
    if negb (encrypted =? 0) then encrypted
    else overhead (fold_left (fun n p => n + get_length p) (o_payloads o) 0) in
  with_p o (assign (o_p o) "payload_length" (FInt (u16 (length + get_header_length (o_p o))))).

Definition frag_get_length (overhead : Z -> Z) (o : object) : object :=
  let encrypted := Z.of_nat (length (chunk_field (o_p o) "encrypted")) in
  let length :=
    if negb (encrypted =? 0) then u16 encrypted
    else u16 (overhead (u16 (Z.of_nat (length (o_plain o))))) in
  with_p o (assign (o_p o) "payload_length" (FInt (u16 (length + get_header_length (o_p o))))).

(** ** Contents *)

(** While the payload is filled no transform is set. *)
Definition enc_add_payload (o : object) (p : payload) : object :=
  let this := if bool_decide (o_payloads o = []) then
                with_p o (assign (o_p o) "next_payload" (FInt (u8 (payload_type_value (get_type p)))))
              else o in
  let before := match rev (o_payloads o) with
                | [] => []
                | l :: r => rev r ++ [set_next_type l (get_type p)]
                end in
  compute_length (fun n => n)
    (Object (o_p this) (before ++ [set_next_type p PL_NONE]) (o_aead this) (o_from_plain this) (o_plain this)).

Definition encrypted_payload_create_from_plain (next : Z) (plain : chunk) : object :=
  let p := assign (create_object (Known PLV2_ENCRYPTED)) "next_payload" (FInt next) in
  compute_length (fun n => n) (Object (assign p "encrypted" (FChunk plain)) [] false true []).

Definition encrypted_fragment_payload_create_from_data (num total : Z) (plain : chunk) : object :=
  let p := create_object (Known PLV2_FRAGMENT) in
  Object (assign (assign p "fragment_number" (FInt num)) "total_fragments" (FInt total)) [] false false plain.

(** The header, up to the IV. *)
Definition payload_header (p : payload) : chunk :=
  [int_field p "next_payload"; int_field p "flags"] ++ htoun16 (int_field p "payload_length") ++
  if bool_decide (class_of p = Known PLV2_FRAGMENT)
  then htoun16 (int_field p "fragment_number") ++ htoun16 (int_field p "total_fragments") else [].

Section Encrypted.
Context {A : Type} `{Aead A} {R : Type} `{Rng R} (junk : nat -> Z).

Definition compute_overhead (a : A) (len : Z) : Z :=
  let bs := Z.of_nat (aead_block_size a) in
  bs - len mod bs + Z.of_nat (aead_iv_size a) + Z.of_nat (aead_icv_size a).

(** [get_length] of encrypted payloads and fragments; it stores the length. *)
Definition update_length (a : A) (o : object) : object :=
  let overhead n := if o_aead o then n + compute_overhead a n else n in
  if bool_decide (class_of (o_p o) = Known PLV2_FRAGMENT) then frag_get_length overhead o
  else compute_length overhead o.

Definition object_length (a : A) (o : object) : Z := int_field (o_p (update_length a o)) "payload_length".

(** One generator for all payloads. *)
Fixpoint generate_all (g : generator) (ps : list payload) : option generator :=
  match ps with
  | [] => Some g
  | p :: ps => g ← generate_payload junk max_depth g p; generate_all g ps
  end.

(** [generate]: the plain text, and the payload with the types set. *)
Definition enc_generate (o : object) (g : generator) : option (chunk * generator * object) :=
  match o_payloads o with
  | [] => Some ([], g, o)
  | p :: _ =>
    let ps := chain (o_payloads o) PL_NONE in
    g ← generate_all g ps;
    Some (fst (get_chunk g), g,
          Object (assign (o_p o) "next_payload" (FInt (u8 (payload_type_value (get_type p))))) ps (o_aead o)
            (o_from_plain o) (o_plain o))
  end.

(** ** Encryption *)

(** The header behind the associated data, with the length updated. *)
Definition append_header (a : A) (o : object) (assoc : chunk) : object * chunk :=
  let o := update_length a o in (o, assoc ++ payload_header (o_p o)).

Definition encrypt_content (a : A) (rng : option R) (mid : Z) (plain assoc : chunk)
    : status_t * option chunk * A * option R :=
  match rng with
  | None => (NOT_SUPPORTED, None, a, rng)
  | Some r =>
    if negb (aead_has_iv_gen a) then (NOT_SUPPORTED, None, a, rng)
    else
      let bs := aead_block_size a in
      let padding := (bs - length plain mod bs)%nat in
      match aead_get_iv a mid (aead_iv_size a) with
      | (None, a) => (FAILED, None, a, rng)
      | (Some iv, a) =>
        match rng_get_bytes r (padding - 1) with
        | (None, r) => (FAILED, None, a, Some r)
        | (Some bytes, r) =>
          let crypt := plain ++ bytes ++ [u8 (Z.of_nat padding - 1)] in
          match aead_encrypt a crypt assoc iv with
          | (None, a) => (FAILED, None, a, Some r)
          | (Some enc, a) => (SUCCESS, Some (iv ++ enc), a, Some r)
          end
        end
      end
  end.

(** The last byte of the plain text is the length of the padding.  Of an empty one the
    byte in front is read: the last of the IV.  [None] is an access outside of the data,
    such as this one if there is no IV. *)
Definition decrypt_content (a : A) (encrypted assoc : chunk) : option (status_t * option chunk * A) :=
  let bs := aead_block_size a in
  let iv_len := Z.of_nat (aead_iv_size a) in
  let icv_len := Z.of_nat (aead_icv_size a) in
  let len := Z.of_nat (length encrypted) in
  let crypt_len := len - iv_len in
  if (len <? iv_len + icv_len) || negb ((crypt_len - icv_len) mod Z.of_nat bs =? 0)
  then Some (FAILED, None, a)
  else
    iv ← load encrypted 0 iv_len;
    crypt ← load encrypted iv_len crypt_len;
    match aead_decrypt a crypt assoc iv with
    | (None, a) => Some (FAILED, None, a)
    | (Some plain, a) =>
      last ← list.last (iv ++ plain);
      let padding := last + 1 in
      let len := Z.of_nat (length plain) in
      if len <? padding then Some (PARSE_ERROR, Some plain, a)
      else plain ← load plain 0 (len - padding); Some (SUCCESS, Some plain, a)
    end.

Definition set_encrypted (o : object) (data : chunk) : object :=
  with_p o (assign (o_p o) "encrypted" (FChunk data)).

(** [encrypt] and [frag_encrypt].  [None] is undefined behaviour of the generator. *)
Definition encrypt (a : A) (rng : option R) (o : object) (message_id : Z) (assoc : chunk)
    : option (status_t * object * A * option R) :=
  if negb (o_aead o) then Some (INVALID_STATE, o, a, rng)
  else
    '(plain, mid, o) ←
      (if bool_decide (class_of (o_p o) = Known PLV2_FRAGMENT)
       then Some (o_plain o, Z.lor (u64 (Z.shiftl message_id 32)) (int_field (o_p o) "fragment_number"), o)
       else '(plain, _, o) ← enc_generate o (generator_create junk);
            Some (plain, u64 (Z.shiftl message_id 32), o));
    let '(o, assoc) := append_header a o assoc in
    let '(status, enc, a, rng) := encrypt_content a rng mid plain assoc in
    Some (status, match enc with Some enc => set_encrypted o enc | None => o end, a, rng).

(** ** Decryption *)

(** Whether the length of the first payload is larger than the plain text.  [None] is a
    read outside of it. *)
Definition invalid_length (plain : chunk) : option bool :=
  if (length plain <? 4)%nat then Some true
  else len ← untoh16 <$> load plain 2 2; Some (Z.of_nat (length plain) <? len).

(** The loop of [parse]; [fuel] bounds the payloads, [None] is undefined behaviour. *)
Fixpoint parse_loop (fuel : nat) (plain : chunk) (st : parser) (type : payload_type_t) (ps : list payload)
    : option (status_t * list payload) :=
  if bool_decide (type = PL_NONE) then Some (SUCCESS, ps)
  else
    invalid ← invalid_length plain;
    if (invalid : bool) then Some (PARSE_ERROR, ps)
    else match fuel with
    | O => None
    | S fuel =>
      match parse_payload max_depth st type with
      | Undefined => None
      | Fails => Some (PARSE_ERROR, ps)
      | Done (p, st) =>
        '(status, p) ← verify max_depth p;
        if bool_decide (status = SUCCESS)
        then parse_loop fuel plain st (get_next_type p) (ps ++ [p])
        else Some (VERIFY_ERROR, ps)
      end
    end.

Definition enc_parse (o : object) (plain : chunk) : option (status_t * object) :=
  '(status, ps) ← parse_loop (S (length plain)) plain (set_major_version (parser_create plain) 2)
                    (get_next_type (o_p o)) (o_payloads o);
  Some (status, Object (o_p o) ps (o_aead o) (o_from_plain o) (o_plain o)).

(** [decrypt], [decrypt_plain], of which empty data is a null pointer, and
    [frag_decrypt]. *)
Definition decrypt (a : A) (o : object) (assoc : chunk) : option (status_t * object * A) :=
  if o_from_plain o then
    if bool_decide (chunk_field (o_p o) "encrypted" = []) then Some (FAILED, o, a)
    else '(status, o) ← enc_parse o (chunk_field (o_p o) "encrypted"); Some (status, o, a)
  else if negb (o_aead o) then Some (INVALID_STATE, o, a)
  else
    let '(o, assoc) := append_header a o assoc in
    '(status, plain, a) ← decrypt_content a (chunk_field (o_p o) "encrypted") assoc;
    if bool_decide (class_of (o_p o) = Known PLV2_FRAGMENT) then
      Some (status, Object (o_p o) (o_payloads o) (o_aead o) (o_from_plain o)
                      (match plain with Some c => c | None => o_plain o end), a)
    else match status, plain with
    | SUCCESS, Some plain => '(status, o) ← enc_parse o plain; Some (status, o, a)
    | _, _ => Some (status, o, a)
    end.
End Encrypted.
