(* ===== verification/Message.v ===== *)
(** IKEv2 messages, [src/libcharon/encoding/message.c]: building, encrypting,
    fragmenting and parsing them.  What only IKEv1 does (message hashes, IVs kept
    from message to message, encryption of whole messages) is not modelled. *)
From S2P Require Import Prelude LinkedList Host Crypto Payloads Codec CodecParser CodecGenerator.
From S2P Require Import PayloadVerify MessageRules EncryptedPayload.
From stdpp Require Import base numbers list option strings.
From Stdlib Require Import Lia ZArith.
Local Open Scope Z_scope.

Record ike_sa_id_t := IkeSaId { initiator_spi : Z; responder_spi : Z; is_initiator : bool }.

Record fragment_t := Frag { f_num : Z; f_data : chunk }.

(** The data to reassemble a message: number of the last fragment, length so far. *)
Record fragment_data_t := FragData { fd_last : Z; fd_len : Z; fd_max_packet : Z }.

(** The key material: the transforms of inbound and outbound messages. *)
Record keymat (A : Type) := Keymat { aead_in : option A; aead_out : option A }.
Arguments Keymat {A}. Arguments aead_in {A}. Arguments aead_out {A}.

Record message := Message {
  major_version : Z;
  minor_version : Z;
  first_payload : payload_type_t;
  exchange_type : Z;
  is_request : bool;
  is_encrypted : bool;
  version_flag : bool;
  reserved : bool * bool;
  sort_disabled : bool;
  message_id : Z;
  ike_sa_id : option ike_sa_id_t;
  source : option host;                (* of the packet *)
  destination : option host;
  data : chunk;
  fragments : option (list fragment_t);
  packets : list chunk;                (* the fragments generated *)
  payloads : list object;
  m_parser : option parser;
  rule : option message_rule_t;
  frag : option fragment_data_t;
}.

(** ** Updates of single fields *)

Definition set_payloads (m : message) (l : list object) : message :=
  Message (major_version m) (minor_version m) (first_payload m) (exchange_type m) (is_request m)
    (is_encrypted m) (version_flag m) (reserved m) (sort_disabled m) (message_id m) (ike_sa_id m) (source m)
    (destination m) (data m) (fragments m) (packets m) l (m_parser m) (rule m) (frag m).

Definition set_first (m : message) (t : payload_type_t) : message :=
  Message (major_version m) (minor_version m) t (exchange_type m) (is_request m)
    (is_encrypted m) (version_flag m) (reserved m) (sort_disabled m) (message_id m) (ike_sa_id m) (source m)
    (destination m) (data m) (fragments m) (packets m) (payloads m) (m_parser m) (rule m) (frag m).

Definition set_rule (m : message) (r : option message_rule_t) : message :=
  Message (major_version m) (minor_version m) (first_payload m) (exchange_type m) (is_request m)
    (is_encrypted m) (version_flag m) (reserved m) (sort_disabled m) (message_id m) (ike_sa_id m) (source m)
    (destination m) (data m) (fragments m) (packets m) (payloads m) (m_parser m) r (frag m).

Definition set_data (m : message) (d : chunk) : message :=
  Message (major_version m) (minor_version m) (first_payload m) (exchange_type m) (is_request m)
    (is_encrypted m) (version_flag m) (reserved m) (sort_disabled m) (message_id m) (ike_sa_id m) (source m)
    (destination m) d (fragments m) (packets m) (payloads m) (m_parser m) (rule m) (frag m).

Definition set_parser (m : message) (p : option parser) : message :=
  Message (major_version m) (minor_version m) (first_payload m) (exchange_type m) (is_request m)
    (is_encrypted m) (version_flag m) (reserved m) (sort_disabled m) (message_id m) (ike_sa_id m) (source m)
    (destination m) (data m) (fragments m) (packets m) (payloads m) p (rule m) (frag m).

Definition set_packets (m : message) (l : list chunk) : message :=
  Message (major_version m) (minor_version m) (first_payload m) (exchange_type m) (is_request m)
    (is_encrypted m) (version_flag m) (reserved m) (sort_disabled m) (message_id m) (ike_sa_id m) (source m)
    (destination m) (data m) (fragments m) l (payloads m) (m_parser m) (rule m) (frag m).

(** The state of the reassembly. *)
Definition set_defrag (m : message) (fs : option (list fragment_t)) (f : option fragment_data_t) : message :=
  Message (major_version m) (minor_version m) (first_payload m) (exchange_type m) (is_request m)
    (is_encrypted m) (version_flag m) (reserved m) (sort_disabled m) (message_id m) (ike_sa_id m) (source m)
    (destination m) (data m) fs (packets m) (payloads m) (m_parser m) (rule m) f.

Definition set_hosts (m : message) (src dst : option host) : message :=
  Message (major_version m) (minor_version m) (first_payload m) (exchange_type m) (is_request m)
    (is_encrypted m) (version_flag m) (reserved m) (sort_disabled m) (message_id m) (ike_sa_id m) src
    dst (data m) (fragments m) (packets m) (payloads m) (m_parser m) (rule m) (frag m).

(** What the header holds. *)
Definition set_header (m : message) (maj min : Z) (first : payload_type_t) (exch : Z) (req enc : bool)
    (res : bool * bool) (mid : Z) (id : option ike_sa_id_t) : message :=
  Message maj min first exch req enc (version_flag m) res (sort_disabled m) mid id (source m)
    (destination m) (data m) (fragments m) (packets m) (payloads m) (m_parser m) (rule m) (frag m).

(** ** Creation *)

Definition message_create_from_packet (src dst : option host) (d : chunk) : message :=
  Message 0 0 PL_NONE EXCHANGE_TYPE_UNDEFINED true false false (false, false) false 0 None src dst d None []
    [] (Some (parser_create d)) None None.

Definition message_create (major minor : Z) : message :=
  let m := message_create_from_packet None None [] in
  set_header m major minor PL_NONE EXCHANGE_TYPE_UNDEFINED true false (false, false) 0 None.

Definition object_type (o : object) : payload_type_t := get_type (o_p o).

Definition object_set_next (o : object) (t : payload_type_t) : object := with_p o (set_next_type (o_p o) t).

(** The last element, changed. *)
Definition change_last (f : object -> object) (l : list object) : list object :=
  match rev l with [] => [] | x :: r => rev r ++ [f x] end.

Definition add_payload (m : message) (o : object) : message :=
  let m := if bool_decide (length (payloads m) = 0%nat) then set_first m (object_type o)
           else set_payloads m (change_last (fun l => object_set_next l (object_type o)) (payloads m)) in
  set_payloads m (payloads m ++ [object_set_next o PL_NONE]).

Definition get_payload (m : message) (t : payload_type_t) : option object :=
  find (fun o => bool_decide (object_type o = t)) (payloads m).

(** [is_encoded]: the packet has data. *)
Definition is_encoded (m : message) : bool := negb (bool_decide (data m = [])).

(** ** Generating *)

(** The payloads an entry of the order is about. *)
Definition order_matches (order : payload_order_t) (o : object) : bool :=
  let '(t, notify) := order in
  bool_decide (object_type o = t) &&
  (negb (bool_decide (t = PLV2_NOTIFY)) || (notify =? 0) || (notify =? int_field (o_p o) "notify_type")).

(** One pass over the temporary list: what is moved, and what is left. *)
Fixpoint order_pass (order : payload_order_t) (l : list object) : list object * list object :=
  match l with
  | [] => ([], [])
  | o :: l =>
    let '(moved, rest) := order_pass order l in
    if order_matches order o then (o :: moved, rest) else (moved, o :: rest)
  end.

Fixpoint order_loop (orders : list payload_order_t) (l : list object) (m : message) : list object * message :=
  match orders with
  | [] => (l, m)
  | order :: orders =>
    let '(moved, rest) := order_pass order l in
    order_loop orders rest (fold_left add_payload moved m)
  end.

(** What no entry is about is appended from the end of the list on. *)
Definition order_payloads (m : message) (r : message_rule_t) : message :=
  let '(rest, m) := order_loop (mr_order r) (payloads m) (set_payloads m []) in
  fold_left add_payload (rev rest) m.

Section Generating.
Context {A : Type} `{Aead A} {R : Type} `{Rng R} (junk : nat -> Z).

(** A payload without a rule is encrypted. *)
Fixpoint wrap_loop (r : message_rule_t) (l : list object) (m : message) (e : object)
    : message * object :=
  match l with
  | [] => (m, e)
  | o :: l =>
    let encrypt := match get_payload_rule r (object_type o) with Some pr => pr_encrypted pr | None => true end in
    if encrypt || is_encrypted m then wrap_loop r l m (enc_add_payload e (o_p o))
    else wrap_loop r l (add_payload m o) e
  end.

Definition is_fragment (o : object) : bool := bool_decide (object_type o = PLV2_FRAGMENT).

Definition wrap_payloads (r : message_rule_t) (m : message) : message * object :=
  let others := List.filter (fun o => negb (is_fragment o)) (payloads m) in
  match list.last (List.filter is_fragment (payloads m)) with
  | Some e => (set_payloads m others, e)
  | None => wrap_loop r others (set_payloads m []) encrypted_payload_create
  end.

Definition create_header (m : message) : payload :=
  let id := match ike_sa_id m with Some id => id | None => IkeSaId 0 0 false end in
  let h := create_object (Known PL_HEADER) in
  let h := assign h "maj_version" (FInt (u8 (major_version m))) in
  let h := assign h "min_version" (FInt (u8 (minor_version m))) in
  let h := if major_version m =? 2 then assign h "flags.initiator" (FBool true) else h in
  let h := assign h "exchange_type" (FInt (u8 (exchange_type m))) in
  let h := assign h "message_id" (FInt (message_id m)) in
  let h := if major_version m =? 2 then
             let h := assign h "flags.response" (FBool (negb (is_request m))) in
             let h := assign h "flags.version" (FBool (version_flag m)) in
             assign h "flags.initiator" (FBool (is_initiator id))
           else assign h "flags.encryption" (FBool (is_encrypted m)) in
  let h := assign h "initiator_spi" (FInt (initiator_spi id)) in
  let h := assign h "responder_spi" (FInt (responder_spi id)) in
  let h := assign h "reserved[0]" (FBool (fst (reserved m))) in
  assign h "reserved[1]" (FBool (snd (reserved m))).

(** The payloads are ordered unless the caller has done it. *)
Definition sort_payloads (m : message) (r : message_rule_t) : message :=
  if sort_disabled m then m else order_payloads m r.

(** Encrypting if there are keys, and generating the header and the payloads. *)
Definition generate_payloads (m : message) (r : message_rule_t) (k : option (keymat A))
    : option (status_t * message * option (generator * option object)) :=
  let '(m, e) :=
    match k ≫= aead_out, mr_encrypted r with
    | Some _, true => let '(m, e) := wrap_payloads r m in (m, Some (set_transform e))
    | _, _ => (m, None)
    end in
  _ ← ike_sa_id m;
  let next := match e with Some e => object_type e | None => PL_NONE end in
  let ps := chain (create_header m :: (o_p <$> payloads m)) next in
  g ← generate_all junk (generator_create junk) ps;
  Some (SUCCESS, set_payloads m (zip_with with_p (payloads m) (drop 1 ps)), Some (g, e)).

(** [None] is undefined behaviour, or IKEv1, of which encrypted messages have a flag. *)
Definition generate_message (m : message) (k : option (keymat A))
    : option (status_t * message * option (generator * option object)) :=
  if exchange_type m =? EXCHANGE_TYPE_UNDEFINED then Some (INVALID_STATE, m, None)
  else if bool_decide (source m = None) || bool_decide (destination m = None) then Some (INVALID_STATE, m, None)
  else match get_message_rule (exchange_type m) (is_request m) with
    | None => Some (NOT_SUPPORTED, set_rule m None, None)
    | Some r =>
      let m := sort_payloads (set_rule m (Some r)) r in
      if negb (major_version m =? 2) || is_encrypted m then None else generate_payloads m r k
    end.

(** Writing the length of the message into the header. *)
Definition put_length (g : generator) (len : Z) : generator :=
  with_buffer g (splice (g_header_length_offset g) (htoun32 (u32 len)) (g_buffer g)) (g_out g) (g_bit g).

Definition chunk_len (g : generator) : Z := Z.of_nat (length (fst (get_chunk g))).

Definition finalize_message (m : message) (k : option (keymat A)) (rng : option R) (g : generator)
    (e : option object) : option (status_t * message * option (keymat A) * option R) :=
  '(status, m, k, rng, g) ←
    match e with
    | None => Some (SUCCESS, m, k, rng, g)
    | Some e =>
      km ← k;
      a ← aead_out km;
      let g := put_length g (chunk_len g + object_length a e) in
      let e := update_length a e in
      '(status, e, a, rng) ← encrypt junk a rng e (message_id m) (fst (get_chunk g));
      let m := set_payloads m (payloads m ++ [e]) in
      let k := Some (Keymat (aead_in km) (Some a)) in
      if bool_decide (status = SUCCESS) then
        g ← generate_payload junk max_depth g (o_p e); Some (SUCCESS, m, k, rng, g)
      else Some (INVALID_STATE, m, k, rng, g)
    end;
  if bool_decide (status = SUCCESS) then
    let g := put_length g (chunk_len g) in
    Some (SUCCESS, set_data m (fst (get_chunk g)), k, rng)
  else Some (status, m, k, rng).

Definition generate (m : message) (k : option (keymat A)) (rng : option R)
    : option (status_t * message * option (keymat A) * option R) :=
  '(status, m, g) ← generate_message m k;
  match g with
  | Some (g, e) => finalize_message m k rng g e
  | None => Some (status, m, k, rng)
  end.
End Generating.

(** ** Parsing *)
Section Parsing.
Context {A : Type} `{Aead A} (accept_unencrypted_mainmode_messages : bool).

Definition parse_header (m : message) : option (status_t * message) :=
  match m_parser m with
  | None => Some (SUCCESS, m)
  | Some st =>
    match parse_payload max_depth (reset_context st) PL_HEADER with
    | Undefined => None
    | Fails => Some (PARSE_ERROR, m)
    | Done (h, st) =>
      let m := set_parser m (Some st) in
      '(status, h) ← verify max_depth h;
      if negb (bool_decide (status = SUCCESS)) then Some (status, m)
      else
        let maj := int_field h "maj_version" in
        let id := IkeSaId (int_field h "initiator_spi") (int_field h "responder_spi")
                    (bool_field h "flags.initiator") in
        let req := if maj =? 2 then negb (bool_field h "flags.response") else is_request m in
        let enc := if maj =? 2 then is_encrypted m else bool_field h "flags.encryption" in
        let first := get_next_type h in
        let enc := if bool_decide (first = PLV1_FRAGMENT) && enc then false else enc in
        let m := set_header m maj (int_field h "min_version") first (int_field h "exchange_type") req enc
                   (bool_field h "reserved[0]", bool_field h "reserved[1]") (int_field h "message_id") (Some id) in
        Some (SUCCESS, set_parser m (Some (Codec.set_major_version st maj)))
    end
  end.

(** The loop of [parse_payloads]; [fuel] bounds the payloads, [None] is undefined. *)
Fixpoint payloads_loop (fuel : nat) (st : parser) (type : payload_type_t) (l : list object)
    : option (status_t * list object * parser) :=
  if bool_decide (type = PL_NONE) then Some (SUCCESS, l, st)
  else match fuel with
  | O => None
  | S fuel =>
    match parse_payload max_depth st type with
    | Undefined => None
    | Fails => Some (PARSE_ERROR, l, st)
    | Done (p, st) =>
      '(status, p) ← verify max_depth p;
      if negb (bool_decide (status = SUCCESS)) then Some (VERIFY_ERROR, l, st)
      else
        let l := l ++ [ordinary p] in
        if bool_decide (type = PLV2_ENCRYPTED) || bool_decide (type = PLV2_FRAGMENT) then Some (SUCCESS, l, st)
        else payloads_loop fuel st (get_next_type p) l
    end
  end.

Definition parse_payloads (m : message) (st : parser) : option (status_t * message) :=
  if is_encrypted m then None
  else
    '(status, l, st) ← payloads_loop (S (length (p_rest st))) st (first_payload m) (payloads m);
    Some (status, set_parser (set_payloads m l) (Some st)).

(** The decrypted payloads move to the end of the list, the payload before them, if there
    is one, is the last of the list. *)
Fixpoint extract_loop (ps : list payload) (m : message) : message :=
  match ps with
  | [] => m
  | p :: ps =>
    let m := if bool_decide (length (payloads m) = 0%nat) then set_first m (get_type p)
             else set_payloads m (change_last (fun l => object_set_next l (get_type p)) (payloads m)) in
    extract_loop ps (set_payloads m (payloads m ++ [ordinary p]))
  end.

Definition decrypt_and_extract (m : message) (k : option (keymat A)) (e : object)
    : option (status_t * message * option (keymat A)) :=
  match k with
  | None => Some (INVALID_ARG, m, k)
  | Some km =>
    match aead_in km with
    | None => Some (INVALID_ARG, m, k)
    | Some a =>
      '(status, e, a) ←
        match m_parser m with
        | None => EncryptedPayload.decrypt a e []
        | Some _ =>
          let e := set_transform e in
          let len := Z.of_nat (length (data m)) in
          if (len <? object_length a e) || (len <? Z.of_nat (aead_block_size a)) then Some (VERIFY_ERROR, e, a)
          else
            let e := update_length a e in
            assoc ← load (data m) 0 (len - object_length a e);
            EncryptedPayload.decrypt a e assoc
        end;
      let k := Some (Keymat (Some a) (aead_out km)) in
      Some (status, if bool_decide (status = SUCCESS) then extract_loop (o_payloads e) m else m, k)
    end
  end.

Definition decrypt_fragment (m : message) (k : option (keymat A)) (e : object)
    : option (status_t * object * option (keymat A)) :=
  match k with
  | None => Some (INVALID_ARG, e, k)
  | Some km =>
    match aead_in km with
    | None => Some (INVALID_ARG, e, k)
    | Some a =>
      let e := set_transform e in
      let len := Z.of_nat (length (data m)) in
      if (len <? object_length a e) || (len <? Z.of_nat (aead_block_size a)) then Some (VERIFY_ERROR, e, k)
      else
        let e := update_length a e in
        assoc ← load (data m) 0 (len - object_length a e);
        '(status, e, a) ← EncryptedPayload.decrypt a e assoc;
        Some (status, e, Some (Keymat (Some a) (aead_out km)))
    end
  end.

Definition accept_unencrypted_mm (m : message) (type : payload_type_t) : bool :=
  (exchange_type m =? ID_PROT) && bool_decide (type ∈ [PLV1_ID; PLV1_HASH]) &&
  accept_unencrypted_mainmode_messages.

(** A payload that was not encrypted must be permitted. *)
Definition unencrypted_ok (m : message) (r : message_rule_t) (type : payload_type_t) : bool :=
  bool_decide (type = PL_UNKNOWN) || (exchange_type m =? AGGRESSIVE) ||
  match get_payload_rule r type with Some pr => negb (pr_encrypted pr) | None => false end ||
  accept_unencrypted_mm m type.

(** The loop of [decrypt_payloads] over the list and its enumerator [s]; [fuel] bounds the
    payloads. *)
Fixpoint decrypt_loop (fuel : nat) (m : message) (r : message_rule_t) (k : option (keymat A))
    (s : sequence) (was_encrypted : bool) : option (status_t * message * option (keymat A)) :=
  match fuel with
  | O => None
  | S fuel =>
    match seq_enumerate s with
    | (None, s) => Some (SUCCESS, set_payloads m (items s), k)
    | (Some o, s) =>
      let type := object_type o in
      if bool_decide (type ∈ [PLV2_ENCRYPTED; PLV1_ENCRYPTED; PLV2_FRAGMENT]) && was_encrypted
      then Some (VERIFY_ERROR, set_payloads m (items s), k)
      else if bool_decide (type = PLV1_ENCRYPTED) then None
      else if bool_decide (type = PLV2_ENCRYPTED) then
        let s := seq_remove_at s in
        match seq_enumerate s with
        | (Some _, s) => Some (VERIFY_ERROR, set_payloads m (items s), k)
        | (None, s) =>
          '(status, m, k) ← decrypt_and_extract (set_payloads m (items s)) k o;
          if bool_decide (status = SUCCESS)
          then decrypt_loop fuel m r k (Seq [] (payloads m) (exhausted s)) true
          else Some (status, m, k)
        end
      else if bool_decide (type = PLV2_FRAGMENT) then
        match seq_enumerate s with
        | (Some _, s) => Some (VERIFY_ERROR, set_payloads m (items s), k)
        | (None, s) =>
          '(status, o, k) ← decrypt_fragment m k o;
          let s := Seq [] (change_last (fun _ => o) (items s)) (exhausted s) in
          if bool_decide (status = SUCCESS) then decrypt_loop fuel m r k s true
          else Some (status, set_payloads m (items s), k)
        end
      else if negb was_encrypted && negb (unencrypted_ok m r type) then Some (FAILED, set_payloads m (items s), k)
      else decrypt_loop fuel m r k s was_encrypted
    end
  end.

Definition decrypt_payloads (m : message) (r : message_rule_t) (k : option (keymat A))
    : option (status_t * message * option (keymat A)) :=
  decrypt_loop (S (length (payloads m))) m r k (seq_of (payloads m)) false.
End Parsing.

(** The count of a type, [None] if there are too many. *)
Fixpoint count_payloads (pr : payload_rule_t) (l : list object) (found : Z) : option Z :=
  match l with
  | [] => Some found
  | o :: l =>
    if bool_decide (object_type o = pr_type pr) then
      if max_occurence pr <? found + 1 then None else count_payloads pr l (found + 1)
    else count_payloads pr l found
  end.

Fixpoint verify_rules (rules : list payload_rule_t) (l : list object) (complete : bool) : status_t :=
  match rules with
  | [] => SUCCESS
  | pr :: rules =>
    match count_payloads pr l 0 with
    | None => VERIFY_ERROR
    | Some found =>
      if negb complete && (found <? min_occurence pr) then VERIFY_ERROR
      else verify_rules rules l (complete || (negb (found =? 0) && sufficient pr))
    end
  end.

Section Body.
Context {A : Type} `{Aead A} (accept_unencrypted_mainmode_messages : bool).

(** [None] is undefined behaviour, or IKEv1. *)
Definition parse_body (m : message) (k : option (keymat A)) : option (status_t * message * option (keymat A)) :=
  let m := set_rule m (get_message_rule (exchange_type m) (is_request m)) in
  match rule m with
  | None => Some (NOT_SUPPORTED, m, k)
  | Some r =>
    '(status, m) ← match m_parser m with Some st => parse_payloads m st | None => Some (SUCCESS, m) end;
    if negb (bool_decide (status = SUCCESS)) then Some (status, m, k)
    else
      '(status, m, k) ← decrypt_payloads accept_unencrypted_mainmode_messages m r k;
      if negb (bool_decide (status = SUCCESS)) then Some (status, m, k)
      else Some (verify_rules (mr_rules r) (payloads m) false, m, k)
  end.
End Body.

(** ** Fragments *)

Definition MAX_FRAGMENTS : Z := 255.

Definition reset_defrag (m : message) : message :=
  set_defrag m None (match frag m with Some f => Some (FragData 0 0 (fd_max_packet f)) | None => None end).

(** Inserted in front of the first fragment with a higher number, [None] if there is one
    with that number. *)
Fixpoint insert_fragment (num : Z) (f : fragment_t) (l : list fragment_t) : option (list fragment_t) :=
  match l with
  | [] => Some [f]
  | g :: l =>
    if f_num g =? num then None
    else if num <? f_num g then Some (f :: g :: l)
    else l ← insert_fragment num f l; Some (g :: l)
  end.

(** [None] is undefined behaviour: there is no state to add to. *)
Definition add_fragment (m : message) (num : Z) (d : chunk) : option (status_t * message) :=
  f ← frag m;
  let l := match fragments m with Some l => l | None => [] end in
  match insert_fragment num (Frag (u8 num) d) l with
  | None => Some (NEED_MORE, m)
  | Some l =>
    let len := fd_len f + Z.of_nat (length d) in
    let m := set_defrag m (fragments m) (Some (FragData (fd_last f) len (fd_max_packet f))) in
    if fd_max_packet f <? len then Some (FAILED, reset_defrag m)
    else Some (SUCCESS, set_defrag m (Some l) (frag m))
  end.

(** The data of all fragments; the addresses are those of the last message. *)
Definition merge_fragments (m last : message) : chunk * message :=
  let d := concat (f_data <$> match fragments m with Some l => l | None => [] end) in
  (d, set_hosts (set_defrag m None None) (source last) (destination last)).

(** The message changed by the payloads moved out of it is returned too. *)
Definition add_fragment_v2 (m msg : message) : option (status_t * message * message) :=
  match frag m with
  | None => Some (INVALID_STATE, m, msg)
  | Some f =>
    match get_payload msg PLV2_FRAGMENT with
    | None => Some (INVALID_ARG, m, msg)
    | Some o =>
      if negb (message_id m =? message_id msg) then Some (INVALID_ARG, m, msg)
      else
        let total := int_field (o_p o) "total_fragments" in
        if MAX_FRAGMENTS <? total then Some (FAILED, reset_defrag m, msg)
        else
          let m := if bool_decide (fragments m = None) || (fd_last f <? total)
                   then set_defrag m (Some []) (Some (FragData total 0 (fd_max_packet f))) else m in
          let num := int_field (o_p o) "fragment_number" in
          '(status, m) ← add_fragment m num (o_plain o);
          if negb (bool_decide (status = SUCCESS)) then Some (status, m, msg)
          else
            let '(m, msg) :=
              if num =? 1 then
                let m := set_first m (get_next_type (o_p o)) in
                (set_payloads m (payloads m ++ List.filter (fun o => negb (is_fragment o)) (payloads msg)),
                 set_payloads msg (List.filter is_fragment (payloads msg)))
              else (m, msg) in
            let count := Z.of_nat (length match fragments m with Some l => l | None => [] end) in
            if negb (count =? total) then Some (NEED_MORE, m, msg)
            else
              let '(d, m) := merge_fragments m msg in
              let e := encrypted_payload_create_from_plain (payload_type_value (first_payload m)) d in
              let m := set_payloads m (payloads m ++ [e]) in
              first ← head (payloads m);
              Some (SUCCESS, set_first m (object_type first), msg)
    end
  end.

(** The header, the addresses and the reserved bits of a message, for a fragment of it. *)
Definition clone_message (m : message) : message :=
  let c := message_create (major_version m) (minor_version m) in
  set_hosts (set_header c (major_version m) (minor_version m) (first_payload c) (exchange_type m) (is_request m)
               (is_encrypted c) (reserved m) (message_id m) (ike_sa_id m)) (source m) (destination m).

Definition message_create_defrag (max_packet : Z) (m : message) : option message :=
  match get_payload m PLV1_FRAGMENT, get_payload m PLV2_FRAGMENT with
  | None, None => None
  | _, _ => Some (set_defrag (set_parser (clone_message m) None) None (Some (FragData 0 0 max_packet)))
  end.

(** The payloads that are not encrypted move to the first fragment. *)
Definition create_fragment (m : message) (next : Z) (num count : Z) (d : chunk) : message * message :=
  let f := encrypted_fragment_payload_create_from_data num count d in
  let c := clone_message m in
  let enc o := bool_decide (object_type o = PLV2_ENCRYPTED) in
  let '(m, c, f) :=
    if num =? 1 then
      (set_payloads m (List.filter enc (payloads m)),
       fold_left add_payload (List.filter (fun o => negb (enc o)) (payloads m)) c,
       object_set_next f (payload_type_of next))
    else (m, c, f) in
  (m, add_payload c f).

Definition reduce_frag_len (frag_len amount : Z) : Z := Z.max 1 (frag_len - amount).

Section Fragments.
Context {A : Type} `{Aead A} {R : Type} `{Rng R} (junk : nat -> Z).

(** [n] fragments are left. *)
Fixpoint fragment_loop (n : nat) (m : message) (k : option (keymat A)) (rng : option R) (next num count frag_len : Z)
    (d : chunk) : option (status_t * message * option (keymat A) * option R) :=
  match n with
  | O => Some (SUCCESS, m, k, rng)
  | S n =>
    let len := Z.to_nat (Z.min (Z.of_nat (length d)) frag_len) in
    let '(m, c) := create_fragment m next num count (take len d) in
    '(status, c, k, rng) ← generate junk c k rng;
    if negb (bool_decide (status = SUCCESS)) then Some (FAILED, set_packets m [], k, rng)
    else fragment_loop n (set_packets m (packets m ++ [data c])) k rng next (num + 1) count frag_len (drop len d)
  end.

(** The packets to send.  [None] is undefined behaviour, IKEv1, or the loop over 65535
    fragments that does not end. *)
Definition fragment (m : message) (k : option (keymat A)) (rng : option R) (frag_len : Z)
    : option (status_t * message * option (keymat A) * option R * list chunk) :=
  src ← source m;
  dst ← destination m;
  let v4 := bool_decide (get_family src = AF_INET) in
  let frag_len := if frag_len =? 0 then if v4 then 576 else 1280 else frag_len in
  let frag_len := reduce_frag_len frag_len (if v4 then 20 else 40) in
  let frag_len := reduce_frag_len frag_len 8 in
  let frag_len := if negb (get_port dst =? 500) && negb (get_port src =? 500)
                  then reduce_frag_len frag_len 4 else frag_len in
  if negb (major_version m =? 2) then None
  else
    '(status, m, g, e) ←
      (if is_encoded m then Some (SUCCESS, m, None, get_payload m PLV2_ENCRYPTED)
       else '(status, m, r) ← generate_message junk m k;
            match r with
            | Some (g, e) => Some (status, m, Some g, e)
            | None => Some (status, m, None, None)
            end);
    if negb (bool_decide (status = SUCCESS)) then Some (status, m, k, rng, [])
    else
      let len := match g, e with
                 | None, _ => Z.of_nat (length (data m))
                 | Some g, Some e => chunk_len g + match k ≫= aead_out with Some a => object_length a e | None => 0 end
                 | Some g, None => chunk_len g
                 end in
      if (len <=? frag_len) || match e with Some _ => false | None => true end then
        match g with
        | None => Some (SUCCESS, m, k, rng, [data m])
        | Some g =>
          '(status, m, k, rng) ← finalize_message junk m k rng g e;
          Some (status, m, k, rng, if bool_decide (status = SUCCESS) then [data m] else [])
        end
      else
        e ← e;
        let frag_len := reduce_frag_len frag_len 28 in
        '(d, _, _) ← enc_generate junk e (generator_create junk);
        a ← k ≫= aead_out;
        let frag_len := reduce_frag_len frag_len (Z.of_nat (aead_iv_size a)) in
        let frag_len := reduce_frag_len frag_len (Z.of_nat (aead_icv_size a)) in
        let frag_len := reduce_frag_len frag_len 8 in
        let frag_len := frag_len - frag_len mod Z.of_nat (aead_block_size a) in
        let frag_len := reduce_frag_len frag_len 1 in
        let dlen := Z.of_nat (length d) in
        let count := u16 (dlen / frag_len + (if dlen mod frag_len =? 0 then 0 else 1)) in
        if count =? 65535 then None
        else
          '(status, m, k, rng) ← fragment_loop (Z.to_nat count) (set_packets m []) k rng
                                   (int_field (o_p e) "next_payload") 1 count frag_len d;
          Some (status, m, k, rng, packets m).
End Fragments.
