(* ===== verification/MessageParse.v ===== *)
(** Parsing IKEv2 messages: the functions of [Message] and [EncryptedPayload] that take
    what comes from the network are defined for every packet, and what they accept in an
    encrypted exchange was authenticated. *)
From S2P Require Import Prelude LinkedList Host Crypto Payloads Codec CodecParser CodecGenerator.
From S2P Require Import PayloadVerify CodecTyping MessageRules EncryptedPayload Message.
From stdpp Require Import base numbers list option strings sets.
From Stdlib Require Import Lia ZArith.
Local Open Scope Z_scope.

(** ** Payloads from the parser *)

Lemma payload_type_of_value n : payload_type_value (payload_type_of n) = n.
Proof.
  unfold payload_type_of. destruct (find _ named_types) as [t|] eqn:E; [|done].
  apply find_some in E as [_ E]. cbn. lia.
Qed.

Lemma tables_next cls : field_index cls "next_payload" = None \/ (U_INT_8, "next_payload") ∈ get_encoding_rules cls.
Proof.
  destruct cls as [t|t]; [destruct t|]; first [left; reflexivity|right; apply (bool_decide_unpack _); vm_compute; exact I].
Qed.

(** What a parsed payload announces fits eight bits. *)
Lemma typed_next fuel p : well_typed (S fuel) p = true -> 0 <= int_field p "next_payload" < 256.
Proof.
  intros Hw. destruct (tables_next (class_of p)) as [Hn|Hin].
  - unfold int_field, get_field. by rewrite Hn.
  - by apply (typed_int _ _ _ _ 1 Hw Hin).
Qed.

Definition on_wire (t : payload_type_t) : Prop := payload_type_value t < 256.

Lemma next_on_wire p : 0 <= int_field p "next_payload" < 256 -> on_wire (get_next_type p).
Proof.
  intros Hp. unfold on_wire, get_next_type.
  destruct (class_of p) as [[]|]; try done; rewrite payload_type_of_value; lia.
Qed.

(** ** Verification changes little *)

Lemma verify_shape fuel p status q : verify fuel p = Some (status, q) ->
  q = p \/ (exists c, q = assign p "data" (FChunk c)) \/ q = assign p "next_payload" (FInt 0).
Proof.
  destruct fuel as [|fuel]; [intros [= _ <-]; by left|]. cbn [verify].
  destruct (class_of p) as [[]|]; try (intros [= _ <-]; by left); try (intros (s & _ & [= _ <-])%bind_Some; by left).
  1, 2: intros [= _ <-]; unfold cert_verify; repeat case_match; cbn [fst]; try (by left); right; left; by eexists.
  unfold frag_verify. repeat case_match; intros [= _ <-]; try (by left). by right; right.
Qed.

Lemma verify_class fuel p status q : verify fuel p = Some (status, q) -> class_of q = class_of p.
Proof. intros [->|[[c ->]| ->]]%verify_shape; by rewrite ?assign_class. Qed.

Lemma verify_next fuel p status q : verify fuel p = Some (status, q) ->
  0 <= int_field p "next_payload" < 256 -> 0 <= int_field q "next_payload" < 256.
Proof.
  intros [->|[[c ->]| ->]]%verify_shape Hp; [done|by rewrite int_field_other|].
  unfold int_field in *. by destruct (assign_cases p "next_payload" (FInt 0)) as [->| ->].
Qed.

Lemma verify_length fuel p status q : verify fuel p = Some (status, q) ->
  int_field q "payload_length" = int_field p "payload_length".
Proof. intros [->|[[c ->]| ->]]%verify_shape; by rewrite ?int_field_other. Qed.

Lemma verify_encrypted fuel p status q : verify fuel p = Some (status, q) ->
  chunk_field q "encrypted" = chunk_field p "encrypted".
Proof. intros [->|[[c ->]| ->]]%verify_shape; by rewrite ?chunk_field_other. Qed.

(** ** Steps of the parser *)

Definition at_byte (st : parser) : Prop := p_bit st = 0 /\ bytes_ok (p_rest st).

Lemma parse_step st t p st' : at_byte st -> t <> PLV1_ENCRYPTED -> parse_payload max_depth st t = Done (p, st') ->
  at_byte st' /\ (length (p_rest st') < length (p_rest st))%nat /\ well_typed max_depth p = true /\
  class_of p = class_for (p_major_version st) t /\ p_major_version st' = p_major_version st.
Proof.
  intros [Hb Hr] Ht E. destruct (parse_state _ _ _ _ Hb Hr E) as [Hb' Hm].
  apply parse_encode in E as (Hc & b & He & Hrest); try done. rewrite Hrest in *. apply Forall_app in Hr as [_ Hr].
  split; [done|]. split; [|split; [by eapply encode_typed|done]].
  assert (b <> []) as Hne; [|destruct b; [done|]; rewrite length_app; cbn [length]; lia].
  eapply encode_rules_nonempty; [|exact He]. rewrite Hc. unfold class_for, payload_create, unknown_payload_create.
  destruct (payload_is_known t _); destruct t; done.
Qed.

Lemma on_wire_encrypted t : on_wire t -> t <> PLV1_ENCRYPTED.
Proof. by intros H ->. Qed.

(** What the loops over the payloads of a packet collect. *)
Record from_wire (p : payload) : Prop := FromWire {
  fw_class : class_of p <> Known PLV1_ENCRYPTED;
  fw_next : 0 <= int_field p "next_payload" < 256;
  fw_bytes : bytes_ok (chunk_field p "encrypted");
  fw_length : 0 <= int_field p "payload_length";
}.

Lemma parsed_from_wire st t p st' status q : at_byte st -> on_wire t ->
  parse_payload max_depth st t = Done (p, st') -> verify max_depth p = Some (status, q) -> from_wire q.
Proof.
  intros Hst Ht E Hv. pose proof (on_wire_encrypted t Ht) as Hne.
  destruct (parse_step _ _ _ _ Hst Hne E) as (_ & _ & Hw & Hc & _). constructor.
  - rewrite (verify_class _ _ _ _ Hv), Hc. unfold class_for. destruct (payload_is_known _ _); by destruct t.
  - apply (verify_next _ _ _ _ Hv), (typed_next _ _ Hw).
  - rewrite (verify_encrypted _ _ _ _ Hv). apply (typed_chunk _ _ _ Hw).
  - rewrite (verify_length _ _ _ _ Hv). apply (typed_nonneg _ _ _ Hw).
Qed.

Lemma parser_defined st t : at_byte st -> parse_payload max_depth st t <> Undefined.
Proof. intros [Hb Hr]. by apply parse_spec. Qed.

(** A payload of the packet [d], as verified. *)
Definition in_packet (d : chunk) (q : payload) : Prop :=
  exists p pre b post, verify max_depth p = Some (SUCCESS, q) /\ encode max_depth p = Some b /\ d = pre ++ b ++ post.

Lemma parsed_in_packet d st t p st' q : at_byte st -> p_rest st `suffix_of` d ->
  parse_payload max_depth st t = Done (p, st') -> p_rest st' `suffix_of` d /\
  (verify max_depth p = Some (SUCCESS, q) -> in_packet d q).
Proof.
  intros [Hb Hr] [pre ->] E. apply parse_encode in E as (_ & b & He & ->); try done.
  split; [exists (pre ++ b); by rewrite app_assoc|]. by exists p, pre, b, (p_rest st').
Qed.

(** What the loop over the payloads of the packet [d] collects. *)
Definition received (d : chunk) (o : object) : Prop := exists p, o = ordinary p /\ from_wire p /\ in_packet d p.

Lemma payloads_loop_total d fuel : forall st type l, at_byte st -> p_rest st `suffix_of` d -> on_wire type ->
  (length (p_rest st) < fuel)%nat -> Forall (received d) l ->
  exists status l' st', payloads_loop fuel st type l = Some (status, l', st') /\ Forall (received d) l'.
Proof.
  induction fuel as [|fuel IH]; intros st type l Hst Hd Ht Hf Hl; [lia|]. cbn [payloads_loop].
  case_bool_decide; [by eexists _, _, _|].
  destruct (parse_payload max_depth st type) as [[p st']| |] eqn:E; [|by eexists _, _, _|by apply parser_defined in E].
  destruct (verify_defined max_depth p) as [[status q] Ev]. rewrite Ev. cbn [mbind option_bind].
  pose proof (parsed_from_wire _ _ _ _ _ _ Hst Ht E Ev) as Hp.
  destruct (parsed_in_packet _ _ _ _ _ q Hst Hd E) as [Hd' Hq].
  apply parse_step in E as (Hst' & Hlen & _); [|done|by apply on_wire_encrypted].
  case_bool_decide as Hs; cbn [negb]; [|by eexists _, _, _]. subst status.
  assert (Forall (received d) (l ++ [ordinary q])) as Hl'.
  { apply Forall_app. split; [done|]. constructor; [|constructor]. exists q. split; [done|]. split; [done|by apply Hq]. }
  destruct (_ || _); [by eexists _, _, _|].
  apply IH; [done|done|by apply next_on_wire, Hp|lia|done].
Qed.

Lemma invalid_length_defined plain : is_Some (invalid_length plain).
Proof. unfold invalid_length. destruct (Nat.ltb_spec (length plain) 4); [done|]. by rewrite load_within by lia. Qed.

Lemma parse_loop_total fuel plain : forall st type ps, at_byte st -> on_wire type -> (length (p_rest st) < fuel)%nat ->
  parse_loop fuel plain st type ps <> None.
Proof.
  induction fuel as [|fuel IH]; intros st type ps Hst Ht Hf; [lia|]. cbn [parse_loop].
  case_bool_decide; [done|]. destruct (invalid_length_defined plain) as [invalid ->]. cbn [mbind option_bind].
  destruct invalid; [done|].
  destruct (parse_payload max_depth st type) as [[p st']| |] eqn:E; [|done|by apply parser_defined in E].
  destruct (verify_defined max_depth p) as [[status q] Ev]. rewrite Ev. cbn [mbind option_bind].
  pose proof (parsed_from_wire _ _ _ _ _ _ Hst Ht E Ev) as Hp.
  apply parse_step in E as (Hst' & Hlen & _); [|done|by apply on_wire_encrypted]. case_bool_decide; [|done].
  apply IH; [done|by apply next_on_wire, Hp|lia].
Qed.

Lemma enc_parse_total o plain : from_wire (o_p o) -> bytes_ok plain -> enc_parse o plain <> None.
Proof.
  intros Hp Hb. unfold enc_parse.
  destruct (parse_loop _ _ _ _ _) as [[status ps]|] eqn:E; [done|].
  apply parse_loop_total in E; [done|done|by apply next_on_wire, Hp|cbn; lia].
Qed.

(** ** Decryption is defined *)
Section Decryption.
Context {A : Type} `{AeadLaws A}.

(** A keyed transform with an IV. *)
Definition keyed (a : A) : Prop := exists v, ae_view a = Some v /\ (0 < av_iv v)%nat.

Definition keymat_ok (k : option (keymat A)) : Prop :=
  forall km a, k = Some km -> aead_in km = Some a -> keyed a.

(** The branches of [decrypt_content] behind the check of the length. *)
Lemma decrypt_content_eq a v encrypted assoc : ae_view a = Some v ->
  decrypt_content a encrypted assoc =
  if (length encrypted <? av_iv v + av_icv v)%nat ||
     negb ((Z.of_nat (length encrypted) - Z.of_nat (av_iv v) - Z.of_nat (av_icv v)) mod Z.of_nat (av_block v) =? 0)
  then Some (FAILED, None, a)
  else match aead_decrypt a (drop (av_iv v) encrypted) assoc (take (av_iv v) encrypted) with
  | (None, a) => Some (FAILED, None, a)
  | (Some plain, a) =>
    last ← list.last (take (av_iv v) encrypted ++ plain);
    if Z.of_nat (length plain) <? last + 1 then Some (PARSE_ERROR, Some plain, a)
    else plain ← load plain 0 (Z.of_nat (length plain) - (last + 1)); Some (SUCCESS, Some plain, a)
  end.
Proof.
  intros Hv. unfold decrypt_content. destruct (ae_sizes a v Hv) as (-> & -> & -> & _).
  replace (Z.of_nat (length encrypted) <? _) with (length encrypted <? av_iv v + av_icv v)%nat by lia.
  destruct (Nat.ltb_spec (length encrypted) (av_iv v + av_icv v)); [done|]. cbn [orb]. destruct (negb _); [done|].
  by rewrite load_prefix, load_suffix by lia.
Qed.

Lemma decrypt_content_total a encrypted assoc : keyed a -> bytes_ok encrypted ->
  exists status plain a', decrypt_content a encrypted assoc = Some (status, plain, a') /\ keyed a' /\
    forall c, plain = Some c -> bytes_ok c.
Proof.
  intros (v & Hv & Hiv) Hb. rewrite (decrypt_content_eq a v) by done.
  assert (keyed a) as Hk by (by exists v).
  destruct (Nat.ltb_spec (length encrypted) (av_iv v + av_icv v)) as [|Hlen]; [by eexists _, None, _|]. cbn [orb].
  destruct (negb _); [by eexists _, None, _|].
  pose proof (ae_decrypt_view a v (drop (av_iv v) encrypted) assoc (take (av_iv v) encrypted) Hv) as Hv'.
  pose proof (ae_decrypt_ok a v (drop (av_iv v) encrypted) assoc (take (av_iv v) encrypted)) as Hok.
  destruct (aead_decrypt _ _ _ _) as [[plain|] a']; cbn [fst snd] in *; [|eexists _, None, _; split; [done|]; split; [by exists v|done]].
  destruct (Hok plain Hv) as [Hp _]; [by apply Forall_drop|done|].
  destruct (list.last (take (av_iv v) encrypted ++ plain)) as [x|] eqn:El.
  - cbn [mbind option_bind]. assert (keyed a') by (by exists v).
    assert (byte_ok x) as Hx.
    { apply last_Some_elem_of in El. revert El. apply Forall_forall, Forall_app. split; [by apply Forall_take|done]. }
    unfold byte_ok in Hx. destruct (Z.ltb_spec (Z.of_nat (length plain)) (x + 1));
      [|rewrite load_within by lia; cbn [mbind option_bind]]; eexists _, (Some _), _; (split; [done|]); (split; [done|]);
      intros c [= <-]; [done|by apply Forall_take, Forall_drop].
  - apply last_None, app_eq_nil in El as [El _]. apply (f_equal length) in El. rewrite length_take in El. cbn in El. lia.
Qed.

(** Without an IV there is no byte in front of an empty plain text: the length of the
    padding is read outside of the data. *)
Lemma decrypt_content_no_iv a v encrypted assoc a' : ae_view a = Some v -> av_iv v = 0%nat ->
  length encrypted = av_icv v -> aead_decrypt a encrypted assoc [] = (Some [], a') ->
  decrypt_content a encrypted assoc = None.
Proof.
  intros Hv Hiv Hl Hd. rewrite (decrypt_content_eq a v), Hiv, Hl by done.
  replace (av_icv v <? 0 + av_icv v)%nat with false by lia. replace (Z.of_nat _ - _ - _) with 0 by lia.
  rewrite Z.mod_0_l by (destruct (ae_sizes a v Hv) as (_ & _ & _ & ? & _); lia). cbn [orb negb Z.eqb].
  rewrite drop_0, take_0, Hd. done.
Qed.

Lemma assign_length_from_wire p v : 0 <= v -> from_wire p -> from_wire (assign p "payload_length" (FInt v)).
Proof.
  intros Hv [Hc Hn Hb Hl]. constructor; [by rewrite assign_class|..|]; unfold int_field, chunk_field in *.
  1, 2: by rewrite assign_other.
  by destruct (assign_cases p "payload_length" (FInt v)) as [-> | ->].
Qed.

Lemma update_length_field a o name : name <> "payload_length"%string ->
  get_field (o_p (update_length a o)) name = get_field (o_p o) name.
Proof. intros Hn. unfold update_length. case_bool_decide; by apply assign_other. Qed.

Lemma update_length_object a o : o_aead (update_length a o) = o_aead o /\ o_from_plain (update_length a o) = o_from_plain o /\
  o_payloads (update_length a o) = o_payloads o.
Proof. unfold update_length. by case_bool_decide. Qed.

Lemma update_length_from_wire a o : from_wire (o_p o) -> from_wire (o_p (update_length a o)).
Proof.
  intros Hp. unfold update_length. case_bool_decide; apply assign_length_from_wire; try done; apply uwrap_range; lia.
Qed.

(** The length that is checked is the one that is subtracted. *)
Lemma get_header_length_assign p f : get_header_length (assign p "payload_length" f) = get_header_length p.
Proof. unfold get_header_length. rewrite assign_class, !int_field_other by done. done. Qed.

Lemma object_length_update a o : object_length a (update_length a o) = object_length a o.
Proof.
  unfold object_length, update_length. cbv zeta.
  destruct (bool_decide (class_of (o_p o) = Known PLV2_FRAGMENT)) eqn:Hc;
    unfold frag_get_length, compute_length; cbn [with_p o_p o_aead o_plain o_payloads]; rewrite assign_class, Hc;
    cbn [with_p o_p o_aead o_plain o_payloads];
    by rewrite chunk_field_other, get_header_length_assign, assign_assign by done.
Qed.

Lemma assoc_defined a m o : from_wire (o_p o) -> (Z.of_nat (length (data m)) <? object_length a o) = false ->
  is_Some (load (data m) 0 (Z.of_nat (length (data m)) - object_length a (update_length a o))).
Proof.
  intros Hp Hl. rewrite object_length_update. pose proof (fw_length _ (update_length_from_wire a o Hp)).
  unfold object_length in *. rewrite load_within by lia. done.
Qed.

Lemma decrypt_total a o assoc : keyed a -> from_wire (o_p o) ->
  exists status o' a', EncryptedPayload.decrypt a o assoc = Some (status, o', a') /\ keyed a'.
Proof.
  intros Hk Hp. unfold EncryptedPayload.decrypt. destruct (o_from_plain o).
  { case_bool_decide; [by eexists _, _, _|]. destruct (enc_parse o _) as [[status o']|] eqn:E; [by eexists _, _, _|].
    by apply enc_parse_total in E; [|done|apply Hp]. }
  destruct (negb (o_aead o)); [by eexists _, _, _|]. unfold append_header.
  pose proof (update_length_from_wire a o Hp) as Hp'. set (o1 := update_length a o) in *.
  edestruct (decrypt_content_total a (chunk_field (o_p o1) "encrypted")) as (status & plain & a' & -> & Hk' & Hb);
    [done|apply Hp'|]. cbn [mbind option_bind]. case_bool_decide; [by eexists _, _, _|].
  destruct status; try (by eexists _, _, _). destruct plain as [plain|]; [|by eexists _, _, _].
  destruct (enc_parse o1 plain) as [[status o']|] eqn:E; [by eexists _, _, _|].
  by apply enc_parse_total in E; [|done|apply Hb].
Qed.

Lemma decrypt_and_extract_total m k o : keymat_ok k -> from_wire (o_p o) ->
  exists status m' k', decrypt_and_extract m k o = Some (status, m', k') /\ keymat_ok k'.
Proof.
  intros Hk Hp. unfold decrypt_and_extract. destruct k as [km|]; [|by eexists _, _, _].
  destruct (aead_in km) as [a|] eqn:Ea; [|by eexists _, _, _].
  assert (keyed a) as Ha by (by eapply Hk).
  match goal with |- context [mbind _ ?x] => assert (exists status o' a', x = Some (status, o', a') /\ keyed a') as E end.
  { destruct (m_parser m); [|by apply decrypt_total]. destruct (_ || _) eqn:El; [by eexists _, _, _|].
    apply orb_false_iff in El as [El _]. destruct (assoc_defined a m (set_transform o) Hp El) as [assoc ->].
    by apply decrypt_total; [|apply update_length_from_wire]. }
  destruct E as (status & o' & a' & -> & Ha'). cbn [mbind option_bind]. eexists _, _, _. split; [done|].
  intros ? ? [= <-] [= <-]. done.
Qed.

Lemma decrypt_fragment_total m k o : keymat_ok k -> from_wire (o_p o) ->
  exists status o' k', decrypt_fragment m k o = Some (status, o', k') /\ keymat_ok k'.
Proof.
  intros Hk Hp. unfold decrypt_fragment. destruct k as [km|]; [|by eexists _, _, _].
  destruct (aead_in km) as [a|] eqn:Ea; [|by eexists _, _, _].
  destruct (_ || _) eqn:El; [by eexists _, _, _|].
  apply orb_false_iff in El as [El _]. destruct (assoc_defined a m (set_transform o) Hp El) as [assoc ->].
  cbn [mbind option_bind].
  match goal with |- context [EncryptedPayload.decrypt a ?o ?d] => destruct (decrypt_total a o d) as (status & o' & a' & E & Ha') end;
    [by eapply Hk|by apply update_length_from_wire|]. rewrite E. cbn [mbind option_bind].
  eexists _, _, _. split; [done|]. intros ? ? [= <-] [= <-]. done.
Qed.
End Decryption.

(** ** The loop over the payloads *)
Section Loop.
Context {A : Type} `{Aead A} (accept_mm : bool).

(** What the loop does, without the enumerator: once a payload was decrypted it ends,
    whatever was in it. *)
Fixpoint decrypt_spec (m : message) (r : message_rule_t) (k : option (keymat A)) (passed ahead : list object)
    : option (status_t * message * option (keymat A)) :=
  match ahead with
  | [] => Some (SUCCESS, set_payloads m passed, k)
  | o :: ahead =>
    if bool_decide (object_type o = PLV1_ENCRYPTED) then None
    else if bool_decide (object_type o = PLV2_ENCRYPTED) then
      match ahead with
      | [] => decrypt_and_extract (set_payloads m passed) k o
      | _ => Some (VERIFY_ERROR, set_payloads m (passed ++ ahead), k)
      end
    else if bool_decide (object_type o = PLV2_FRAGMENT) then
      match ahead with
      | [] => '(status, o, k) ← decrypt_fragment m k o; Some (status, set_payloads m (passed ++ [o]), k)
      | _ => Some (VERIFY_ERROR, set_payloads m (passed ++ o :: ahead), k)
      end
    else if unencrypted_ok accept_mm m r (object_type o) then decrypt_spec m r k (passed ++ [o]) ahead
    else Some (FAILED, set_payloads m (passed ++ o :: ahead), k)
  end.

Lemma set_payloads_id m : set_payloads m (payloads m) = m.
Proof. by destruct m. Qed.

Lemma change_last_app f l o : change_last f (l ++ [o]) = l ++ [f o].
Proof. unfold change_last. rewrite rev_app_distr. cbn. by rewrite rev_involutive. Qed.

Lemma seq_at_end {V : Type} (l : list V) : seq_enumerate (Seq l [] false) = (None, Seq [] l true).
Proof. done. Qed.

Lemma decrypt_loop_spec m r k ahead : forall fuel passed, (length ahead < fuel)%nat ->
  decrypt_loop accept_mm fuel m r k (Seq passed ahead false) false = decrypt_spec m r k passed ahead.
Proof.
  induction ahead as [|o ahead IH]; intros [|fuel] passed Hf; cbn [length] in Hf; try lia; cbn [decrypt_loop].
  { rewrite seq_at_end. done. }
  cbn [seq_enumerate decrypt_spec]. rewrite andb_false_r.
  case_bool_decide as H1; [done|]. case_bool_decide as H2.
  { unfold seq_remove_at. cbn [LinkedList.passed LinkedList.ahead exhausted]. rewrite removelast_last.
    destruct ahead as [|q ahead]; cbn [seq_enumerate].
    - unfold items. cbn [LinkedList.passed LinkedList.ahead exhausted app].
      destruct (decrypt_and_extract _ _ _) as [[[status m'] k']|]; [|done]. cbn [mbind option_bind].
      case_bool_decide as Hs; [|done]. destruct fuel as [|fuel]; [cbn in Hf; lia|].
      cbn [decrypt_loop seq_enumerate]. unfold items. cbn. by rewrite set_payloads_id, Hs.
    - unfold items. cbn [LinkedList.passed LinkedList.ahead]. by rewrite <- app_assoc. }
  case_bool_decide as H3.
  { destruct ahead as [|q ahead]; cbn [seq_enumerate].
    - unfold items. cbn [LinkedList.passed LinkedList.ahead exhausted app].
      destruct (decrypt_fragment _ _ _) as [[[status o'] k']|]; [|done]. cbn [mbind option_bind].
      rewrite change_last_app. case_bool_decide as Hs; [|done]. destruct fuel as [|fuel]; [cbn in Hf; lia|].
      cbn [decrypt_loop seq_enumerate]. unfold items. cbn. by rewrite Hs.
    - unfold items. cbn [LinkedList.passed LinkedList.ahead]. by rewrite <- !app_assoc. }
  cbn [negb andb]. destruct (unencrypted_ok _ _ _ _); cbn [negb]; [apply IH; lia|].
  unfold items. cbn. by rewrite <- app_assoc.
Qed.
End Loop.

(** ** The header *)

(** What [parse_header] leaves of a packet it accepts. *)
Record header_parsed (d : chunk) (m : message) : Prop := HeaderParsed {
  hp_parser : exists st, m_parser m = Some st /\ at_byte st /\ p_rest st `suffix_of` d /\ p_major_version st = major_version m;
  hp_first : on_wire (first_payload m);
  hp_payloads : payloads m = [];
  hp_data : data m = d;
  hp_plain : major_version m = 2 -> is_encrypted m = false;
}.

Lemma parse_header_total src dst d : bytes_ok d ->
  exists status m, parse_header (message_create_from_packet src dst d) = Some (status, m) /\
    (status = SUCCESS -> header_parsed d m).
Proof.
  intros Hd. unfold parse_header. cbn [m_parser message_create_from_packet].
  assert (at_byte (reset_context (parser_create d))) as Hst by done.
  destruct (parse_payload _ _ _) as [[h st]| |] eqn:E; [|by eexists _, _|by apply parser_defined in E].
  destruct (parsed_in_packet d _ _ _ _ h Hst ltac:(reflexivity) E) as [Hd' _].
  apply parse_step in E as (Hst' & _ & Hw & _ & Hm); [|done|done].
  destruct (verify_defined max_depth h) as [[status h'] Ev]. rewrite Ev. cbn [mbind option_bind].
  pose proof (verify_next _ _ _ _ Ev (typed_next _ _ Hw)) as Hn.
  destruct (negb (bool_decide (status = SUCCESS))) eqn:Es; [eexists _, _; split; [done|by intros ->]|].
  eexists _, _. split; [done|]. intros _. constructor; cbn; try done.
  - eexists. split; [done|]. split; [done|]. done.
  - by apply next_on_wire.
  - intros ->. by rewrite andb_false_r.
Qed.

Section Totality.
Context {A : Type} `{AeadLaws A} (accept_mm : bool).

Lemma decrypt_spec_total d m r k ahead : keymat_ok k -> forall passed,
  Forall (received d) ahead ->
  exists status m' k', decrypt_spec accept_mm m r k passed ahead = Some (status, m', k') /\ keymat_ok k'.
Proof.
  intros Hk. induction ahead as [|o ahead IH]; intros passed Hl; cbn [decrypt_spec]; [by eexists _, _, _|].
  inversion Hl as [|? ? (p & -> & Hp & _) Hl']; subst.
  case_bool_decide as H1.
  { exfalso. apply (fw_class _ Hp). unfold object_type, get_type in H1. cbn in H1. by destruct (class_of p); [subst|]. }
  case_bool_decide; [destruct ahead; [by apply decrypt_and_extract_total|by eexists _, _, _]|].
  case_bool_decide; [|destruct (unencrypted_ok _ _ _ _); [by apply IH|by eexists _, _, _]].
  destruct ahead; [|by eexists _, _, _].
  destruct (decrypt_fragment_total m k (ordinary p) Hk Hp) as (status & o & k' & -> & Hk').
  by eexists _, _, _.
Qed.

Lemma parse_payloads_total d m : header_parsed d m -> major_version m = 2 -> forall st, m_parser m = Some st ->
  exists status l st', parse_payloads m st = Some (status, set_parser (set_payloads m l) (Some st')) /\
    Forall (received d) l.
Proof.
  intros Hh Hm st Hst. destruct (hp_parser _ _ Hh) as (st0 & Hst0 & Hb & Hd & _). rewrite Hst in Hst0. injection Hst0 as <-.
  unfold parse_payloads. rewrite (hp_plain _ _ Hh Hm), (hp_payloads _ _ Hh).
  destruct (payloads_loop_total d (S (length (p_rest st))) st (first_payload m) []) as (status & l & st' & -> & Hl);
    [done|done|apply Hh|lia|constructor|]. by eexists _, _, _.
Qed.

Lemma parse_body_total d m k : header_parsed d m -> major_version m = 2 -> keymat_ok k ->
  exists status m' k', parse_body accept_mm m k = Some (status, m', k') /\ keymat_ok k'.
Proof.
  intros Hh Hm Hk. unfold parse_body. cbn [rule set_rule]. destruct (get_message_rule _ _) as [r|]; [|by eexists _, _, _].
  cbn [m_parser set_rule]. destruct (hp_parser _ _ Hh) as (st & Hst & _).
  set (m1 := set_rule m (Some r)).
  assert (header_parsed d m1) as Hh1 by (destruct Hh; by constructor).
  rewrite Hst. destruct (parse_payloads_total d m1 Hh1 Hm st Hst) as (status & l & st' & -> & Hl). cbn [mbind option_bind].
  set (m2 := set_parser _ _). destruct (negb _); [by eexists _, _, _|]. unfold decrypt_payloads, seq_of. rewrite decrypt_loop_spec by lia.
  destruct (decrypt_spec_total d m2 r k (payloads m2) Hk [] Hl) as (status' & m3 & k' & -> & Hk'). cbn [mbind option_bind].
  by destruct (negb _); eexists _, _, _.
Qed.
End Totality.

(** ** The bytes of encrypted payloads *)

Lemma be_bytes_1 v : 0 <= v < 256 -> be_bytes 1 v = [v].
Proof. intros Hv. cbn [be_bytes]. change (256 ^ Z.of_nat 0) with 1. by rewrite Z.div_1_r, Z.mod_small. Qed.

Definition is_encrypted_class (cls : payload_class) : Prop := cls = Known PLV2_ENCRYPTED \/ cls = Known PLV2_FRAGMENT.

Lemma encode_encrypted p b : is_encrypted_class (class_of p) -> encode max_depth p = Some b ->
  b = payload_header p ++ chunk_field p "encrypted" /\ int_field p "payload_length" = Z.of_nat (length b).
Proof.
  destruct p as [cls fs]. cbn [class_of]. intros Hc He. cbn [encode max_depth class_of fields_of] in He.
  destruct Hc as [-> | ->]; cbn [get_encoding_rules] in He.
  all: apply (encode_rules_int _ _ _ _ _ _ 1) in He as (v1 & fs1 & bs1 & -> & Hv1 & _ & He & ->); [|done].
  all: apply (encode_rules_int _ _ _ _ _ _ 1) in He as (v2 & fs2 & bs2 & -> & Hv2 & _ & He & ->); [|done].
  all: apply (encode_rules_int _ _ _ _ _ _ 2) in He as (v3 & fs3 & bs3 & -> & Hv3 & H4 & He & ->); [|done].
  2: apply (encode_rules_int _ _ _ _ _ _ 2) in He as (v5 & fs4 & bs4 & -> & Hv5 & _ & He & ->); [|done].
  2: apply (encode_rules_int _ _ _ _ _ _ 2) in He as (v6 & fs5 & bs5 & -> & Hv6 & _ & He & ->); [|done].
  all: apply encode_rules_chunk in He as (enc & fs' & bs' & -> & Hf & Hb & He & ->); [|by repeat constructor].
  all: apply encode_rules_nil in He as [-> ->]; rewrite !be_bytes_1 by done; unfold payload_header; rewrite !htoun16_be.
  all: cbn in Hf; cbn [int_field chunk_field get_field field_index]; rewrite app_nil_r.
  - split; [done|]. change (v3 = Z.of_nat (length ([v1] ++ [v2] ++ be_bytes 2 v3 ++ enc))). len.
  - split; [by rewrite <- !app_assoc|].
    change (v3 = Z.of_nat (length ([v1] ++ [v2] ++ be_bytes 2 v3 ++ be_bytes 2 v5 ++ be_bytes 2 v6 ++ enc))). len.
Qed.

Lemma length_payload_header p : is_encrypted_class (class_of p) ->
  Z.of_nat (length (payload_header p)) = get_header_length p.
Proof.
  unfold payload_header, get_header_length. rewrite !htoun16_be. intros [-> | ->]; cbn [bool_decide]; by len.
Qed.

(** An encrypted payload of a packet is there byte for byte, a fragment but for the
    type that is not verified. *)
Lemma received_encrypted d q : in_packet d q -> is_encrypted_class (class_of q) ->
  exists pre hdr post, d = pre ++ hdr ++ chunk_field q "encrypted" ++ post /\
    Z.of_nat (length hdr) = get_header_length q /\
    get_field q "payload_length" = Some (FInt (Z.of_nat (length (hdr ++ chunk_field q "encrypted")))) /\
    Z.of_nat (length (hdr ++ chunk_field q "encrypted")) < 65536 /\
    (class_of q = Known PLV2_ENCRYPTED -> hdr = payload_header q).
Proof.
  intros (p & pre & b & post & Hv & He & ->) Hc.
  assert (class_of q = class_of p) as Hcp by (by apply verify_class in Hv).
  assert (chunk_field q "encrypted" = chunk_field p "encrypted") as -> by (by apply verify_encrypted in Hv).
  rewrite Hcp in Hc. pose proof (encode_typed _ _ _ He) as Hw. apply encode_encrypted in He as [-> Hl]; [|done].
  exists pre, (payload_header p), post. split; [by rewrite <- !app_assoc|].
  split; [rewrite length_payload_header by done; unfold get_header_length; rewrite Hcp; by destruct Hc as [-> | ->]|].
  assert (get_field q "payload_length" = get_field p "payload_length") as ->.
  { destruct Hc as [Hc|Hc]; cbn [verify max_depth] in Hv; rewrite Hc in Hv; [by injection Hv as ->|].
    unfold frag_verify in Hv. destruct (_ || _); [done|]. injection Hv as <-. case_match; [by rewrite assign_other|done]. }
  assert ((PAYLOAD_LENGTH, "payload_length") ∈ get_encoding_rules (class_of p)) as Hin.
  { destruct Hc as [-> | ->]; apply (bool_decide_unpack _); vm_compute; exact I. }
  pose proof (typed_int _ _ _ _ 2 Hw Hin eq_refl) as Hr. destruct (typed_field _ _ _ _ Hw Hin) as (f & Hf & Hok).
  unfold int_field in *. rewrite Hf in *. destruct f; try discriminate Hok. rewrite <- Hl.
  split; [done|]. split; [lia|]. intros Hq. destruct Hc as [Hc|Hc]; [|congruence].
  cbn [verify max_depth] in Hv. rewrite Hc in Hv. by injection Hv as ->.
Qed.

Section Lengths.
Context {A : Type} `{Aead A}.

(** The length of a payload that has its data is not changed. *)
Lemma update_length_received (a : A) o hdr : is_encrypted_class (class_of (o_p o)) ->
  chunk_field (o_p o) "encrypted" <> [] -> Z.of_nat (length hdr) = get_header_length (o_p o) ->
  get_field (o_p o) "payload_length" = Some (FInt (Z.of_nat (length (hdr ++ chunk_field (o_p o) "encrypted")))) ->
  Z.of_nat (length (hdr ++ chunk_field (o_p o) "encrypted")) < 65536 ->
  update_length a o = o.
Proof.
  intros Hc Hne Hh Hf Hr. unfold update_length, frag_get_length, compute_length.
  set (enc := chunk_field (o_p o) "encrypted") in *.
  assert (Z.of_nat (length enc) <> 0) as Hl by (destruct enc; [done|cbn; lia]).
  replace (negb (Z.of_nat (length enc) =? 0)) with true by lia. rewrite length_app in Hr, Hf.
  assert (u16 (Z.of_nat (length enc) + get_header_length (o_p o)) = Z.of_nat (length hdr + length enc)) as E1.
  { rewrite <- Hh, uwrap_small; lia. }
  assert (u16 (Z.of_nat (length enc)) = Z.of_nat (length enc)) as E2 by (apply uwrap_small; lia).
  rewrite E2, E1, assign_id by done. by destruct o; case_bool_decide.
Qed.
End Lengths.

(** ** What is accepted was authenticated *)
Section Protection.
Context {A : Type} `{AeadLaws A} (accept_mm : bool).

(** The transform takes [encrypted], that is IV, data and ICV, with the associated data,
    and [plain] is the text without its padding. *)
Definition authenticated (a : A) (assoc encrypted plain : chunk) : Prop :=
  exists padded, fst (aead_decrypt a (drop (aead_iv_size a) encrypted) assoc (take (aead_iv_size a) encrypted))
                 = Some padded /\ plain `prefix_of` padded.

(** The payloads in [plain], of which the first has the type [next]. *)
Definition contents (next : payload_type_t) (plain : chunk) : list payload :=
  match parse_loop (S (length plain)) plain (Codec.set_major_version (parser_create plain) 2) next [] with
  | Some (SUCCESS, ps) => ps
  | _ => []
  end.

Lemma decrypt_content_authenticated a encrypted assoc plain a' : keyed a ->
  decrypt_content a encrypted assoc = Some (SUCCESS, plain, a') ->
  encrypted <> [] /\ exists c, plain = Some c /\ authenticated a assoc encrypted c.
Proof.
  intros (v & Hv & Hiv). rewrite (decrypt_content_eq a v) by done. unfold authenticated.
  destruct (ae_sizes a v Hv) as (_ & _ & -> & _).
  destruct (Nat.ltb_spec (length encrypted) (av_iv v + av_icv v)) as [|Hlen]; [done|]. cbn [orb].
  destruct (negb _); [done|]. destruct (aead_decrypt _ _ _ _) as [[padded|] a1]; [|done].
  destruct (list.last _) as [x|]; [|done]. cbn [mbind option_bind]. destruct (_ <? _); [done|].
  destruct (load padded _ _) as [c|] eqn:Ec; [|done]. apply load_Some in Ec as [_ ->].
  intros [= <- <-]. split; [intros ->; cbn in Hlen; lia|]. eexists. split; [done|]. exists padded.
  split; [done|]. apply prefix_take.
Qed.

(** A payload of the packet [d] that is decrypted: all that is in front of its data is
    authenticated with it, as long as nothing follows. *)
Definition protected_by (a : A) (d : chunk) (q : payload) (plain : chunk) : Prop :=
  exists pre hdr post, d = pre ++ hdr ++ chunk_field q "encrypted" ++ post /\
    authenticated a (take (length (pre ++ post)) d ++ payload_header q) (chunk_field q "encrypted") plain /\
    (class_of q = Known PLV2_ENCRYPTED -> hdr = payload_header q).

(** The object in front of decryption, with the transform set. *)
Lemma decrypt_protected a d q assoc o' a' : keyed a -> in_packet d q -> is_encrypted_class (class_of q) ->
  let o := set_transform (ordinary q) in
  assoc = take (Z.to_nat (Z.of_nat (length d) - object_length a (update_length a o))) d ->
  EncryptedPayload.decrypt a (update_length a o) assoc = Some (SUCCESS, o', a') ->
  exists plain, protected_by a d q plain /\
    if bool_decide (class_of q = Known PLV2_FRAGMENT) then o' = Object q [] true false plain
    else o_payloads o' = contents (get_next_type q) plain.
Proof.
  intros Hk Hq Hc o Ha Hd. destruct (received_encrypted d q Hq Hc) as (pre & hdr & post & Hdd & Hh & Hf & Hr & Hhdr).
  assert (chunk_field q "encrypted" <> [] -> update_length a o = o) as Hid
    by (intros Hne; by apply (update_length_received a o hdr)).
  assert (chunk_field q "encrypted" <> []) as Hne.
  { unfold EncryptedPayload.decrypt, append_header in Hd.
    destruct (update_length_object a o) as (Ea & Ep & _). rewrite Ea, Ep in Hd.
    change (o_from_plain o) with false in Hd. change (o_aead o) with true in Hd. cbn [negb] in Hd.
    destruct (decrypt_content _ _ _) as [[[[] plain] a1]|] eqn:E; try done; try (by case_bool_decide).
    apply decrypt_content_authenticated in E as [E _]; [|done].
    unfold chunk_field in *. by rewrite !update_length_field in E. }
  specialize (Hid Hne). unfold object_length in Ha. rewrite !Hid in Ha. rewrite Hid in Hd. unfold EncryptedPayload.decrypt, append_header in Hd.
  rewrite Hid in Hd. unfold o in Hd. cbn [set_transform ordinary o_p o_aead o_from_plain o_payloads o_plain negb] in Hd.
  destruct (decrypt_content _ _ _) as [[[s plain] a1]|] eqn:E; [|done]. cbn [mbind option_bind] in Hd.
  assert (s = SUCCESS) as -> by (destruct s; try done; by case_bool_decide).
  apply decrypt_content_authenticated in E as (_ & c & -> & Hauth); [|done].
  exists c. split.
  - exists pre, hdr, post. split; [done|]. split; [|done]. rewrite Ha in Hauth.
    unfold o, int_field in Hauth. cbn [set_transform ordinary o_p] in Hauth. rewrite Hf in Hauth.
    replace (length (pre ++ post)) with (Z.to_nat (Z.of_nat (length d) - Z.of_nat (length (hdr ++ chunk_field q "encrypted"))));
      [done|]. rewrite Hdd at 1. len.
  - case_bool_decide; [by injection Hd as <-|]. unfold enc_parse, contents in *.
    cbn [set_transform ordinary o_p o_payloads] in Hd.
    destruct (parse_loop _ _ _ _ _) as [[s ps]|]; [|done]. cbn [mbind option_bind] in Hd. by injection Hd as -> <- _.
Qed.

(** The same payload but for the type of the next one. *)
Definition relinked (p q : payload) : Prop := exists ts, q = foldl set_next_type p ts.

Lemma relinked_refl p : relinked p p.
Proof. by exists []. Qed.

Lemma relinked_step p q t : relinked p q -> relinked p (set_next_type q t).
Proof. intros [ts ->]. exists (ts ++ [t]). by rewrite foldl_snoc. Qed.

Lemma set_next_type_class p t : class_of (set_next_type p t) = class_of p.
Proof. unfold set_next_type. repeat case_match; by rewrite ?assign_class. Qed.

Lemma relinked_class p q : relinked p q -> class_of q = class_of p.
Proof. intros [ts ->]. revert p. induction ts as [|t ts IH]; intros p; [done|]. cbn. by rewrite IH, set_next_type_class. Qed.

Lemma change_last_elem f l o : o ∈ change_last f l -> o ∈ l \/ exists q, q ∈ l /\ o = f q.
Proof.
  destruct l as [|x l _] using rev_ind; [by intros ?%elem_of_nil|]. rewrite change_last_app.
  intros [Ho|Ho%list_elem_of_singleton]%elem_of_app; [left|right; exists x]; set_solver.
Qed.

Lemma extract_loop_elem ps : forall m o, o ∈ payloads (extract_loop ps m) ->
  (exists q, q ∈ payloads m /\ relinked (o_p q) (o_p o)) \/ exists p, p ∈ ps /\ relinked p (o_p o).
Proof.
  induction ps as [|p ps IH]; intros m o Ho; cbn [extract_loop] in Ho; [left; exists o; by split; [|apply relinked_refl]|].
  apply IH in Ho as [(q & Hq & Hr)|(p' & Hp & Hr)]; [|right; exists p'; set_solver].
  cbn [payloads set_payloads] in Hq. apply elem_of_app in Hq as [Hq|Hq%list_elem_of_singleton].
  - left. case_bool_decide; cbn [payloads set_payloads set_first] in Hq; [by exists q|].
    apply change_last_elem in Hq as [Hq|(q' & Hq & ->)]; [by exists q|]. exists q'. split; [done|].
    destruct Hr as [ts Hts]. exists (get_type p :: ts). exact Hts.
  - right. exists p. subst q. split; [left|done].
Qed.

(** A payload that was in the encrypted part of the packet [d]. *)
Definition protected_payload (a : A) (d : chunk) (o : object) : Prop :=
  exists q plain, in_packet d q /\ protected_by a d q plain /\
    (o = Object q [] true false plain \/ exists p, p ∈ contents (get_next_type q) plain /\ relinked p (o_p o)).

Definition from_transform (k : option (keymat A)) (d : chunk) (o : object) : Prop :=
  exists km a, k = Some km /\ aead_in km = Some a /\ protected_payload a d o.

Lemma object_type_class p t : get_type p = t -> t <> PL_UNKNOWN -> class_of p = Known t.
Proof. unfold get_type. by destruct (class_of p); intros <-. Qed.

Lemma decrypt_and_extract_protected m k q m' k' o : keymat_ok k -> in_packet (data m) q ->
  class_of q = Known PLV2_ENCRYPTED -> m_parser m <> None ->
  decrypt_and_extract m k (ordinary q) = Some (SUCCESS, m', k') -> o ∈ payloads m' ->
  (exists o', o' ∈ payloads m /\ relinked (o_p o') (o_p o)) \/ from_transform k (data m) o.
Proof.
  intros Hk Hq Hc Hp Hd Ho. unfold decrypt_and_extract in Hd. destruct k as [km|]; [|done].
  destruct (aead_in km) as [a|] eqn:Ea; [|done]. destruct (m_parser m); [|done].
  destruct (_ || _); [done|]. destruct (load _ _ _) as [assoc|] eqn:El; [|done]. apply load_prefix_take in El.
  cbn [mbind option_bind] in Hd.
  destruct (EncryptedPayload.decrypt _ _ _) as [[[s e] a']|] eqn:E; [|done]. cbn [mbind option_bind] in Hd.
  case_bool_decide as Hs; [subst s|by injection Hd]. injection Hd as <- <-.
  apply (decrypt_protected a (data m) q) in E as (plain & Hpr & Hc2); [|by eapply Hk|done|by left|done].
  rewrite Hc, bool_decide_false in Hc2 by done. rewrite Hc2 in Ho.
  apply extract_loop_elem in Ho as [Ho|Ho]; [by left|right]. exists km, a. split; [done|]. split; [done|].
  exists q, plain. split; [done|]. split; [done|]. by right.
Qed.

Lemma decrypt_fragment_protected m k q o' k' : keymat_ok k -> in_packet (data m) q ->
  class_of q = Known PLV2_FRAGMENT -> decrypt_fragment m k (ordinary q) = Some (SUCCESS, o', k') ->
  from_transform k (data m) o'.
Proof.
  intros Hk Hq Hc Hd. unfold decrypt_fragment in Hd. destruct k as [km|]; [|done].
  destruct (aead_in km) as [a|] eqn:Ea; [|done]. destruct (_ || _); [done|].
  destruct (load _ _ _) as [assoc|] eqn:El; [|done]. apply load_prefix_take in El. cbn [mbind option_bind] in Hd.
  destruct (EncryptedPayload.decrypt _ _ _) as [[[s e] a']|] eqn:E; [|done]. cbn [mbind option_bind] in Hd.
  injection Hd as -> <- <-.
  apply (decrypt_protected a (data m) q) in E as (plain & Hpr & Hc2); [|by eapply Hk|done|by right|done].
  rewrite Hc, bool_decide_true in Hc2 by done. exists km, a. split; [done|]. split; [done|].
  exists q, plain. split; [done|]. split; [done|]. by left.
Qed.

(** The rule lets only payloads of unknown type through that were not encrypted. *)
Lemma decrypt_spec_protected m r k ahead : keymat_ok k -> m_parser m <> None ->
  (forall t, unencrypted_ok accept_mm m r t = true -> t = PL_UNKNOWN) -> forall passed m' k' o,
  Forall (received (data m)) ahead -> Forall (fun o => object_type o = PL_UNKNOWN) passed ->
  decrypt_spec accept_mm m r k passed ahead = Some (SUCCESS, m', k') -> o ∈ payloads m' ->
  object_type o = PL_UNKNOWN \/ from_transform k (data m) o.
Proof.
  intros Hk Hp Hu. induction ahead as [|q ahead IH]; intros passed m' k' o Hl Hps; cbn [decrypt_spec].
  { intros [= <- <-] Ho. left. by apply (proj1 (Forall_forall _ _) Hps). }
  inversion Hl as [|? ? (p & -> & _ & Hin) Hl']; subst.
  case_bool_decide; [done|]. case_bool_decide as Henc.
  { destruct ahead; [|done]. intros Hd Ho.
    apply (decrypt_and_extract_protected _ _ _ _ _ o) in Hd as [(q & Hq & Hr)|]; try done;
      [left|by right|by apply object_type_class].
    unfold object_type, get_type. rewrite (relinked_class _ _ Hr).
    exact (proj1 (Forall_forall _ _) Hps q Hq). }
  case_bool_decide as Hfrag.
  { destruct ahead; [|done]. destruct (decrypt_fragment _ _ _) as [[[s e] k1]|] eqn:E; [|done]. cbn [mbind option_bind].
    intros [= -> <- <-] Ho. cbn [payloads set_payloads] in Ho. apply elem_of_app in Ho as [Ho|Ho%list_elem_of_singleton].
    - left. by apply (proj1 (Forall_forall _ _) Hps).
    - subst o. right. eapply decrypt_fragment_protected; [done|done|by apply object_type_class|done]. }
  destruct (unencrypted_ok _ _ _ _) eqn:Hok; [|done]. apply IH; [done|]. apply Forall_app. split; [done|].
  constructor; [by apply Hu|constructor].
Qed.

(** In the exchanges under an IKE SA every rule is encrypted. *)
Lemma protected_rules m r t : exchange_type m ∈ [IKE_AUTH; CREATE_CHILD_SA; INFORMATIONAL] ->
  get_message_rule (exchange_type m) (is_request m) = Some r ->
  unencrypted_ok accept_mm m r t = true -> t = PL_UNKNOWN.
Proof.
  intros He Hr. assert (forallb pr_encrypted (mr_rules r) = true) as Hall.
  { apply list_elem_of_In in He. destruct He as [E|[E|[E|[]]]]; rewrite <- E in Hr;
    destruct (is_request m); injection Hr as <-; reflexivity. }
  unfold unencrypted_ok, accept_unencrypted_mm. case_bool_decide; [done|].
  assert ((exchange_type m =? AGGRESSIVE) = false /\ (exchange_type m =? ID_PROT) = false) as [-> ->].
  { apply list_elem_of_In in He. destruct He as [<-|[<-|[<-|[]]]]; done. }
  cbn [orb andb]. rewrite orb_false_r. unfold get_payload_rule. destruct (find _ _) as [pr|] eqn:Ef; [|done].
  apply find_some in Ef as [Hin _]. rewrite forallb_forall in Hall. by rewrite (Hall _ Hin).
Qed.
End Protection.

(** ** Theorems *)
Section Results.
Context {A : Type} `{AeadLaws A} (accept_mm : bool).

(** C26: whatever comes from the network, parsing an IKEv2 message is defined: the header
    is parsed or refused, and so is the body, with the keys of the IKE SA or without
    them.  The loops end, and no read of the parser, of the decryption or of the checks of
    the plain text and of payloads is outside of the packet or the plain text.  The
    transform, if there is one, has an IV ([keymat_ok]): [decrypt_content_no_iv] shows that
    without one a payload can be made to read in front of the plain text. *)
Theorem ike_parse_total src dst d (k : option (keymat A)) : bytes_ok d -> keymat_ok k ->
  exists status m, parse_header (message_create_from_packet src dst d) = Some (status, m) /\
    (status = SUCCESS -> major_version m = 2 ->
     exists status' m' k', parse_body accept_mm m k = Some (status', m', k') /\ keymat_ok k').
Proof.
  intros Hd Hk. destruct (parse_header_total src dst d Hd) as (status & m & E & Hh).
  exists status, m. split; [done|]. intros Hs Hm. by apply (parse_body_total accept_mm d m k (Hh Hs) Hm).
Qed.

(** C12: a message of an exchange under an IKE SA that is accepted: every payload of a
    known type was in an encrypted payload or fragment of the packet that the transform
    authenticated together with the packet in front of it. *)
Theorem ike_parse_protected src dst d m (k : option (keymat A)) m' k' o : bytes_ok d -> keymat_ok k ->
  parse_header (message_create_from_packet src dst d) = Some (SUCCESS, m) -> major_version m = 2 ->
  exchange_type m ∈ [IKE_AUTH; CREATE_CHILD_SA; INFORMATIONAL] ->
  parse_body accept_mm m k = Some (SUCCESS, m', k') -> o ∈ payloads m' ->
  object_type o = PL_UNKNOWN \/ from_transform k d o.
Proof.
  intros Hd Hk Eh Hm Hex Eb Ho. destruct (parse_header_total src dst d Hd) as (status & m0 & E & Hh).
  rewrite Eh in E. injection E as <- <-. specialize (Hh eq_refl). unfold parse_body in Eb. cbn [rule set_rule] in Eb.
  destruct (get_message_rule _ _) as [r|] eqn:Er; [|done]. destruct (hp_parser _ _ Hh) as (st & Hst & _).
  cbn [m_parser set_rule] in Eb. rewrite Hst in Eb. set (m1 := set_rule m (Some r)) in *.
  assert (header_parsed d m1) as Hh1 by (destruct Hh; by constructor).
  destruct (parse_payloads_total d m1 Hh1 Hm st Hst) as (s1 & l & st' & E1 & Hl). rewrite E1 in Eb.
  cbn [mbind option_bind] in Eb. destruct (negb _) eqn:Hs1 in Eb; [by injection Eb as ->|].
  unfold decrypt_payloads, seq_of in Eb. rewrite decrypt_loop_spec in Eb by lia. set (m2 := set_parser _ _) in *.
  destruct (decrypt_spec _ _ _ _ _ _) as [[[s2 m3] k3]|] eqn:Ed; [|done]. cbn [mbind option_bind] in Eb.
  case_bool_decide as Hs2; cbn [negb] in Eb; [subst s2|by injection Eb as ->]. injection Eb as _ <- <-.
  assert (data m2 = d) as Hdata by apply Hh. rewrite <- Hdata in Hl |- *.
  eapply (decrypt_spec_protected accept_mm m2 r k); [done|done| |exact Hl|constructor|exact Ed|done].
  intros t. by apply (protected_rules accept_mm m2).
Qed.
End Results.

(** ** Examples *)

Definition toy_host : host := Host AF_INET [10; 0; 0; 1] 500.

Definition toy_keys : option (keymat Toy.toy_aead) := Some (Keymat (Some Toy.toy_end) (Some Toy.toy_end)).

(** An exchange of a toy IKE SA. *)
Definition toy_message (exchange : Z) (ps : list payload) : message :=
  fold_left (fun m p => add_payload m (ordinary p)) ps
    (set_hosts (set_header (message_create 2 0) 2 0 PL_NONE exchange true false (false, false) 7
                  (Some (IkeSaId 1 2 true))) (Some toy_host) (Some toy_host)).

Definition toy_packet (exchange : Z) (ps : list payload) : chunk :=
  match generate (fun _ => 170) (toy_message exchange ps) toy_keys (Some 3%nat) with
  | Some (SUCCESS, m, _, _) => data m
  | _ => []
  end.

Definition toy_header (d : chunk) : option (status_t * message) :=
  parse_header (message_create_from_packet (Some toy_host) (Some toy_host) d).

Definition toy_parse (d : chunk) (k : option (keymat Toy.toy_aead)) : option (status_t * list object) :=
  match toy_header d with
  | Some (SUCCESS, m) => '(status, m, _) ← parse_body false m k; Some (status, payloads m)
  | _ => None
  end.

Definition delete_example : payload := 
  Eval vm_compute in assign (create_object (Known PLV2_DELETE)) "protocol_id" (FInt 3).
Definition informational_example : chunk := Eval vm_compute in toy_packet INFORMATIONAL [delete_example].
Definition nested_example : chunk :=
  Eval vm_compute in toy_packet INFORMATIONAL [create_object (Known PLV2_ENCRYPTED)].
Definition empty_example : chunk := [0; 0; 0; 0; 0; 0; 0; 1; 0; 0; 0; 0; 0; 0; 0; 2; 0; 32; 37; 8; 0; 0; 0; 7; 0; 0; 0; 28].

(** The messages of the packets, as parsed. *)
Definition message_of (r : option (status_t * message)) : message :=
  match r with Some (_, m) => m | None => message_create 2 0 end.

Definition informational_parsed : message := Eval vm_compute in message_of (toy_header informational_example).
Definition nested_parsed : message := Eval vm_compute in message_of (toy_header nested_example).
Definition empty_parsed : message := Eval vm_compute in message_of (toy_header empty_example).

Lemma toy_keys_ok : keymat_ok toy_keys.
Proof.
  intros km a [= <-] [= <-]. exists Toy.toy_view. split; [apply Toy.toy_end_view|cbn; lia].
Qed.

Lemma ike_parse_total_witness : exists status m,
  toy_header informational_example = Some (status, m) /\
  (status = SUCCESS -> major_version m = 2 ->
   exists status' m' k', parse_body false m toy_keys = Some (status', m', k') /\ keymat_ok k').
Proof.
  refine (ike_parse_total false (Some toy_host) (Some toy_host) informational_example toy_keys _ _);
    [apply (bool_decide_unpack _); vm_compute; exact I|exact toy_keys_ok].
Defined.

Definition accepted_parsed : message :=
  Eval vm_compute in match parse_body false informational_parsed toy_keys with
                     | Some (_, m, _) => m | None => message_create 2 0 end.

Lemma ike_parse_protected_witness : exists o k', o ∈ payloads accepted_parsed /\
  parse_body false informational_parsed toy_keys = Some (SUCCESS, accepted_parsed, k') /\
  (object_type o = PL_UNKNOWN \/ from_transform toy_keys informational_example o).
Proof.
  eexists _, _. split; [vm_compute; left|]. split; [vm_compute; reflexivity|].
  refine (ike_parse_protected false (Some toy_host) (Some toy_host) informational_example informational_parsed
    toy_keys accepted_parsed _ _ _ toy_keys_ok _ _ _ _ _);
    [apply (bool_decide_unpack _); vm_compute; exact I|vm_compute; reflexivity|reflexivity
    |apply (bool_decide_unpack _); vm_compute; exact I|vm_compute; reflexivity|vm_compute; left].
Defined.

Lemma verify_rules_empty rules complete : forallb (fun pr => min_occurence pr =? 0) rules = true ->
  verify_rules rules [] complete = SUCCESS.
Proof.
  revert complete. induction rules as [|pr rules IH]; intros complete Hr; cbn in *; [done|].
  apply andb_true_iff in Hr as [Hm Hr]. replace (0 <? min_occurence pr) with false by lia.
  rewrite andb_false_r. by apply IH.
Qed.

(** C35: a message without payloads passes as it is.  An INFORMATIONAL message of an IKE SA
    that consists of a header is accepted, whoever sent it: no payload has to be
    encrypted, and no key is used. *)
Theorem empty_message_unprotected {A : Type} `{AeadLaws A} accept_mm src dst d m (k : option (keymat A)) :
  bytes_ok d -> parse_header (message_create_from_packet src dst d) = Some (SUCCESS, m) -> major_version m = 2 ->
  exchange_type m = INFORMATIONAL -> first_payload m = PL_NONE ->
  exists m', parse_body accept_mm m k = Some (SUCCESS, m', k) /\ payloads m' = [].
Proof.
  intros Hd Eh Hm Hex Hf. destruct (parse_header_total src dst d Hd) as (status & m0 & E & Hh).
  rewrite Eh in E. injection E as <- <-. specialize (Hh eq_refl). destruct (hp_parser _ _ Hh) as (st & Hst & _).
  unfold parse_body. rewrite Hex.
  assert (exists r, get_message_rule INFORMATIONAL (is_request m) = Some r /\
            forallb (fun pr => min_occurence pr =? 0) (mr_rules r) = true) as (r & -> & Hr).
  { destruct (is_request m); eexists; split; reflexivity. }
  cbn [rule set_rule m_parser]. rewrite Hst. unfold parse_payloads. cbn [is_encrypted set_rule first_payload payloads].
  rewrite (hp_plain _ _ Hh Hm), Hf, (hp_payloads _ _ Hh). cbn [payloads_loop]. rewrite bool_decide_true by done.
  cbn [mbind option_bind negb]. rewrite bool_decide_true by done. cbn [negb]. unfold decrypt_payloads, seq_of.
  rewrite decrypt_loop_spec by lia. cbn [payloads set_parser set_payloads decrypt_spec mbind option_bind].
  rewrite bool_decide_true by done. cbn [negb payloads set_parser set_payloads]. rewrite verify_rules_empty by done.
  by eexists.
Qed.

Lemma empty_message_unprotected_witness : exists m',
  parse_body false empty_parsed (None : option (keymat Toy.toy_aead)) = Some (SUCCESS, m', None) /\ payloads m' = [].
Proof.
  refine (empty_message_unprotected false (Some toy_host) (Some toy_host) empty_example empty_parsed None _ _ _ _ _);
    [apply (bool_decide_unpack _); vm_compute; exact I|vm_compute; reflexivity|reflexivity|reflexivity|reflexivity].
Defined.

(** an encrypted payload in an encrypted payload is not refused: the loop over the
    payloads ends with the first that is decrypted, and what was in it is not examined. *)
Theorem nested_encrypted_accepted : exists m' k',
  toy_header nested_example = Some (SUCCESS, nested_parsed) /\
  parse_body false nested_parsed toy_keys = Some (SUCCESS, m', k') /\
  (object_type <$> payloads m') = [PLV2_ENCRYPTED].
Proof. eexists _, _. split; [vm_compute; reflexivity|]. split; vm_compute; reflexivity. Qed.
