(* ===== verification/Defragment.v ===== *)
(** Reassembling IKEv2 messages: fragments of one message, in any order and with
    duplicates, give back the data that was fragmented.  [add_fragment] and
    [merge_fragments] of [src/libcharon/encoding/message.c] are in [Message]; here is
    [handle_fragment] of [src/libcharon/sa/ikev2/task_manager_v2.c] over them. *)
From S2P Require Import Prelude LinkedList Host Crypto Payloads Codec CodecParser CodecGenerator.
From S2P Require Import PayloadVerify CodecTyping MessageRules EncryptedPayload Message MessageParse.
From stdpp Require Import base numbers list option strings sorting sets.
From Stdlib Require Import Lia ZArith.
Local Open Scope Z_scope.

(** ** The handler *)

(** The state is the message that collects the fragments.  [inr] is the reassembled
    message, which the IKE SA processes as if it had been received. *)
Definition handle_fragment (max_packet : Z) (defrag : option message) (msg : message)
    : option ((status_t + message) * option message) :=
  match get_payload msg PLV2_FRAGMENT with
  | None => Some (inl SUCCESS, defrag)
  | Some _ =>
    match (match defrag with Some m => Some m | None => message_create_defrag max_packet msg end) with
    | None => Some (inl FAILED, None)
    | Some m =>
      '(status, m, _) ← add_fragment_v2 m msg;
      if bool_decide (status = SUCCESS) then Some (inr m, None) else Some (inl status, Some m)
    end
  end.

(** Messages until one is reassembled or refused. *)
Fixpoint handle_fragments (max_packet : Z) (defrag : option message) (msgs : list message)
    : option ((status_t + message) * option message) :=
  match msgs with
  | [] => Some (inl NEED_MORE, defrag)
  | msg :: msgs =>
    '(r, defrag) ← handle_fragment max_packet defrag msg;
    match r with
    | inl NEED_MORE => handle_fragments max_packet defrag msgs
    | r => Some (r, defrag)
    end
  end.

(** ** Ordered insertion *)

Fixpoint insert_number (n : Z) (ns : list Z) : list Z :=
  match ns with
  | [] => [n]
  | x :: ns => if n <? x then n :: x :: ns else x :: insert_number n ns
  end.

Lemma insert_number_perm n ns : insert_number n ns ≡ₚ n :: ns.
Proof.
  induction ns as [|x ns IH]; [done|]. cbn. destruct (n <? x); [done|]. rewrite IH. constructor.
Qed.

Lemma insert_number_sorted n ns : n ∉ ns -> StronglySorted Z.lt ns -> StronglySorted Z.lt (insert_number n ns).
Proof.
  induction ns as [|x ns IH]; intros Hn Hs; cbn; [by repeat constructor|].
  apply not_elem_of_cons in Hn as [Hx Hn]. apply StronglySorted_inv in Hs as [Hs Hall].
  destruct (Z.ltb_spec n x).
  - constructor; [by constructor|]. constructor; [done|]. eapply Forall_impl; [done|]. cbn. lia.
  - constructor; [by apply IH|]. rewrite insert_number_perm. constructor; [lia|done].
Qed.

Lemma sorted_bound ns : forall a b, a <= b -> StronglySorted Z.lt ns -> Forall (fun n => a < n <= b) ns ->
  Z.of_nat (length ns) <= b - a.
Proof.
  induction ns as [|x ns IH]; intros a b Hab Hs Hr; cbn [length]; [lia|].
  apply StronglySorted_inv in Hs as [Hs Hx]. inversion Hr as [|? ? Hxr Hr']; subst.
  assert (Z.of_nat (length ns) <= b - x); [|lia]. apply IH; [lia|done|].
  apply Forall_forall. intros n Hn. rewrite Forall_forall in Hx, Hr'. specialize (Hx n Hn). specialize (Hr' n Hn). lia.
Qed.

(** As many different numbers of a range as it has are the range. *)
Lemma sorted_range ns : forall lo, StronglySorted Z.lt ns ->
  Forall (fun n => lo <= n < lo + Z.of_nat (length ns)) ns -> ns = seqZ lo (Z.of_nat (length ns)).
Proof.
  induction ns as [|x ns IH]; intros lo Hs Hr; [done|]. cbn [length].
  apply StronglySorted_inv in Hs as [Hs Hx]. inversion Hr as [|? ? Hxr Hr']; subst. cbn [length] in *.
  assert (Z.of_nat (length ns) <= lo + Z.of_nat (length ns) - x) as Hb.
  { apply sorted_bound; [lia|done|]. apply Forall_forall. intros n Hn. rewrite Forall_forall in Hx, Hr'.
    specialize (Hx n Hn). specialize (Hr' n Hn). cbn in Hr'. lia. }
  assert (x = lo) as -> by lia. rewrite seqZ_cons by lia. f_equal.
  replace (Z.pred (Z.of_nat (S (length ns)))) with (Z.of_nat (length ns)) by lia. apply IH; [done|].
  apply Forall_forall. intros n Hn. rewrite Forall_forall in Hx, Hr'. specialize (Hx n Hn). specialize (Hr' n Hn).
  cbn in Hr'. lia.
Qed.

(** ** Fragments of one message *)
Section Fragments.
Context (parts : list chunk) (next : payload_type_t) (others : list object) (mid max_packet : Z).

Definition total : Z := Z.of_nat (length parts).
Definition part (n : Z) : chunk := nth (Z.to_nat (n - 1)) parts [].
Definition sum_length (ns : list Z) : Z := Z.of_nat (length (concat (part <$> ns))).

Context (Htotal : 1 <= total <= MAX_FRAGMENTS) (Hmax : Z.of_nat (length (concat parts)) <= max_packet).

(** The message [msg] holds the fragment [n]; the first also has what was not encrypted. *)
Record fragment_of (n : Z) (msg : message) : Prop := FragmentOf {
  fo_range : 1 <= n <= total;
  fo_id : message_id msg = mid;
  fo_payload : exists o, get_payload msg PLV2_FRAGMENT = Some o /\
    int_field (o_p o) "fragment_number" = n /\ int_field (o_p o) "total_fragments" = total /\
    o_plain o = part n /\ (n = 1 -> get_next_type (o_p o) = next);
  fo_others : n = 1 -> List.filter (fun o => negb (is_fragment o)) (payloads msg) = others;
}.

(** The fragments [ns] have been collected. *)
Record collected (ns : list Z) (m : message) : Prop := Collected {
  co_id : message_id m = mid;
  co_frag : exists last, frag m = Some (FragData last (sum_length ns) max_packet) /\ (ns <> [] -> last = total);
  co_fragments : ns <> [] -> fragments m = Some ((fun n => Frag n (part n)) <$> ns);
  co_none : ns = [] -> fragments m = None;
  co_sorted : StronglySorted Z.lt ns;
  co_range : Forall (fun n => 1 <= n <= total) ns;
  co_payloads : payloads m = if decide (1 ∈ ns) then others else [];
  co_first : 1 ∈ ns -> first_payload m = next;
  co_parser : m_parser m = None;
}.

Lemma insert_fragment_spec n ns : StronglySorted Z.lt ns ->
  insert_fragment n (Frag n (part n)) ((fun n => Frag n (part n)) <$> ns) =
  if decide (n ∈ ns) then None else Some ((fun n => Frag n (part n)) <$> insert_number n ns).
Proof.
  induction ns as [|x ns IH]; intros Hs; [done|]. apply StronglySorted_inv in Hs as [Hs Hx].
  cbn [fmap list_fmap insert_fragment insert_number f_num]. rewrite IH by done. destruct (Z.eqb_spec x n) as [->|Hn].
  { rewrite decide_True by left. done. }
  destruct (Z.ltb_spec n x) as [Hlt|Hge].
  - rewrite decide_False; [done|]. intros [->|Hin]%elem_of_cons; [lia|].
    rewrite Forall_forall in Hx. specialize (Hx n Hin). lia.
  - destruct (decide (n ∈ ns)) as [Hin|Hin]; [rewrite decide_True by (by right); done|].
    rewrite decide_False; [done|]. intros [->|?]%elem_of_cons; done.
Qed.

Lemma parts_range : part <$> seqZ 1 total = parts.
Proof.
  apply list_eq. intros i. rewrite list_lookup_fmap. unfold total.
  destruct (decide (i < length parts)%nat) as [Hi|Hi].
  - rewrite lookup_seqZ_lt by lia. cbn [fmap option_fmap option_map]. unfold part.
    replace (Z.to_nat (1 + Z.of_nat i - 1)) with i by lia. destruct (lookup_lt_is_Some_2 _ _ Hi) as [c Hc].
    rewrite Hc. f_equal. by apply nth_lookup_Some.
  - rewrite lookup_seqZ_ge, lookup_ge_None_2 by lia. done.
Qed.

Lemma sum_length_perm ns ns' : ns ≡ₚ ns' -> sum_length ns = sum_length ns'.
Proof. intros Hp. unfold sum_length. f_equal. apply Permutation_length. by rewrite Hp. Qed.

Lemma sum_length_cons n ns : sum_length (n :: ns) = Z.of_nat (length (part n)) + sum_length ns.
Proof. unfold sum_length. cbn. rewrite length_app. lia. Qed.

Lemma sum_length_bound ns : StronglySorted Z.lt ns -> Forall (fun n => 1 <= n <= total) ns ->
  sum_length ns <= Z.of_nat (length (concat parts)).
Proof.
  intros Hs Hr. rewrite <- parts_range. fold (sum_length (seqZ 1 total)).
  assert (ns ⊆+ seqZ 1 total) as [k Hk]%submseteq_Permutation.
  { apply NoDup_submseteq.
    - clear Hr. induction Hs as [|x l Hs IH Hx]; constructor; [|done]. intros Hin.
      rewrite Forall_forall in Hx. specialize (Hx x Hin). lia.
    - intros n Hn. rewrite Forall_forall in Hr. specialize (Hr n Hn). apply elem_of_seqZ. lia. }
  rewrite (sum_length_perm _ _ Hk). unfold sum_length. rewrite fmap_app, concat_app, length_app. lia.
Qed.

Lemma collected_all ns : StronglySorted Z.lt ns -> Forall (fun n => 1 <= n <= total) ns ->
  Z.of_nat (length ns) = total -> concat (part <$> ns) = concat parts.
Proof.
  intros Hs Hr Hl. rewrite <- parts_range. rewrite <- Hl, <- (sorted_range ns 1); [done|done|].
  eapply Forall_impl; [exact Hr|]. cbn. lia.
Qed.

(** The message when all fragments are there. *)
Definition reassembled (m : message) : Prop :=
  payloads m = others ++ [encrypted_payload_create_from_plain (payload_type_value next) (concat parts)] /\
  message_id m = mid /\ m_parser m = None /\ frag m = None.

Lemma add_duplicate ns m n msg : collected ns m -> fragment_of n msg -> n ∈ ns ->
  add_fragment_v2 m msg = Some (NEED_MORE, m, msg).
Proof using Htotal.
  intros Hm [Hn Hid (o & Ho & Hnum & Htot & Hp & Hnx) Hot] Hin.
  assert (ns <> []) as Hne by (by intros ->; apply elem_of_nil in Hin).
  destruct (co_frag _ _ Hm) as (last & Hf & Hl). rewrite (Hl Hne) in Hf.
  pose proof (co_fragments _ _ Hm Hne) as Hfs. unfold add_fragment_v2, add_fragment.
  rewrite Hf, Ho, Htot, Hnum, (co_id _ _ Hm), Hid, Z.eqb_refl. cbn [negb]. rewrite Hfs.
  replace (MAX_FRAGMENTS <? total) with false by lia. cbn [fd_last]. rewrite Z.ltb_irrefl.
  rewrite bool_decide_false by done. cbn [orb]. rewrite Hf. cbn [mbind option_bind]. rewrite Hfs.
  assert (u8 n = n) as -> by (apply uwrap_small; unfold MAX_FRAGMENTS in *; lia).
  rewrite Hp, insert_fragment_spec by apply Hm. by rewrite decide_True.
Qed.

(** The state a new fragment is added to. *)
Lemma collected_start ns m : collected ns m -> exists m1,
  (forall f, frag m = Some f ->
    (if bool_decide (fragments m = None) || (fd_last f <? total)
     then set_defrag m (Some []) (Some (FragData total 0 (fd_max_packet f))) else m) = m1) /\
  m1 = set_defrag m (Some ((fun n => Frag n (part n)) <$> ns)) (Some (FragData total (sum_length ns) max_packet)).
Proof.
  intros Hm. eexists. split; [|done]. destruct (co_frag _ _ Hm) as (last & Hf & Hl). intros f. rewrite Hf.
  intros [= <-]. cbn [fd_last fd_max_packet]. destruct (decide (ns = [])) as [->|Hne].
  - rewrite (co_none _ _ Hm eq_refl), bool_decide_true by done. done.
  - pose proof (co_fragments _ _ Hm Hne) as Hfs. rewrite (Hl Hne) in *.
    rewrite bool_decide_false, Z.ltb_irrefl by (by rewrite Hfs). cbn [orb]. rewrite <- Hfs, <- Hf. by destruct m.
Qed.

(** The state after the new fragment [n], before the fragments are counted. *)
Definition with_fragment (m : message) (ns : list Z) (n : Z) : message :=
  let m := set_defrag m (Some ((fun n => Frag n (part n)) <$> insert_number n ns))
             (Some (FragData total (sum_length (insert_number n ns)) max_packet)) in
  if n =? 1 then set_payloads (set_first m next) (payloads m ++ others) else m.

Lemma add_new ns m n msg : collected ns m -> fragment_of n msg -> (n ∉ ns) -> exists msg',
  add_fragment_v2 m msg =
  let m := with_fragment m ns n in
  if negb (Z.of_nat (S (length ns)) =? total) then Some (NEED_MORE, m, msg')
  else let '(d, m) := merge_fragments m msg' in
       let e := encrypted_payload_create_from_plain (payload_type_value (first_payload m)) d in
       let m := set_payloads m (payloads m ++ [e]) in
       first ← head (payloads m); Some (SUCCESS, set_first m (object_type first), msg').
Proof using Htotal Hmax.
  intros Hm [Hn Hid (o & Ho & Hnum & Htot & Hp & Hnx) Hot] Hin.
  destruct (collected_start ns m Hm) as (m1 & Hst & Hm1). destruct (co_frag _ _ Hm) as (last & Hf & _).
  specialize (Hst _ Hf). unfold add_fragment_v2. rewrite Hf, Ho, Htot, Hnum, (co_id _ _ Hm), Hid, Z.eqb_refl. cbn [negb].
  replace (MAX_FRAGMENTS <? total) with false by lia. rewrite Hst, Hm1. unfold add_fragment.
  cbn [frag set_defrag mbind option_bind fragments fd_len fd_max_packet fd_last].
  assert (u8 n = n) as -> by (apply uwrap_small; unfold MAX_FRAGMENTS in *; lia).
  rewrite Hp, insert_fragment_spec, decide_False by (done || apply Hm).
  assert (StronglySorted Z.lt (insert_number n ns)) as Hs by (apply insert_number_sorted; [done|apply Hm]).
  assert (Forall (fun n => 1 <= n <= total) (insert_number n ns)) as Hr.
  { rewrite insert_number_perm. constructor; [done|apply Hm]. }
  assert (sum_length ns + Z.of_nat (length (part n)) = sum_length (insert_number n ns)) as ->.
  { rewrite (sum_length_perm _ _ (insert_number_perm n ns)), sum_length_cons. lia. }
  pose proof (sum_length_bound _ Hs Hr). replace (max_packet <? _) with false by lia.
  cbn [negb bool_decide mbind option_bind]. rewrite bool_decide_true by done. cbn [negb]. unfold with_fragment.
  assert (length (insert_number n ns) = S (length ns)) as Hl by (by rewrite insert_number_perm).
  destruct (Z.eqb_spec n 1) as [->|Hn1]; cbn [fragments set_defrag set_payloads set_first frag];
    rewrite length_fmap, Hl; [|by eexists].
  rewrite (Hot eq_refl), (Hnx eq_refl). by eexists.
Qed.

Lemma with_fragment_collected ns m n : collected ns m -> 1 <= n <= total -> (n ∉ ns) ->
  collected (insert_number n ns) (with_fragment m ns n).
Proof.
  intros Hm Hn Hin. assert (n ∈ insert_number n ns) as Hin' by (rewrite insert_number_perm; left).
  assert (insert_number n ns <> []) as Hne by (intros E; rewrite E in Hin'; by apply elem_of_nil in Hin').
  assert (forall x, x ∈ insert_number n ns <-> x = n \/ x ∈ ns) as Hiff.
  { intros x. rewrite insert_number_perm. apply elem_of_cons. }
  assert (payloads (with_fragment m ns n) = if decide (1 ∈ insert_number n ns) then others else []) as Hpl.
  { unfold with_fragment. destruct (Z.eqb_spec n 1) as [->|Hn1]; cbn [payloads set_payloads set_defrag]; rewrite (co_payloads _ _ Hm).
    - rewrite decide_False, decide_True by done. done.
    - destruct (decide (1 ∈ ns)); [rewrite decide_True by (apply Hiff; by right)|rewrite decide_False]; try done.
      intros [?|?]%Hiff; [lia|done]. }
  constructor; try done.
  - unfold with_fragment. destruct (n =? 1); apply Hm.
  - exists total. unfold with_fragment. by destruct (n =? 1).
  - unfold with_fragment. by destruct (n =? 1).
  - apply insert_number_sorted; [done|apply Hm].
  - rewrite insert_number_perm. constructor; [done|apply Hm].
  - intros H1%Hiff. unfold with_fragment. destruct (Z.eqb_spec n 1) as [|Hne1]; [done|].
    destruct H1 as [<-|H1]; [done|by apply (co_first _ _ Hm)].
  - unfold with_fragment. destruct (n =? 1); apply Hm.
Qed.

Lemma add_last ns m n msg : collected ns m -> fragment_of n msg -> (n ∉ ns) -> Z.of_nat (S (length ns)) = total ->
  exists m' msg', add_fragment_v2 m msg = Some (SUCCESS, m', msg') /\ reassembled m'.
Proof using Htotal Hmax.
  intros Hm Hf Hin Hl. destruct (add_new _ _ _ _ Hm Hf Hin) as (msg' & ->).
  pose proof (with_fragment_collected _ _ _ Hm (fo_range _ _ Hf) Hin) as Hm'.
  set (m1 := with_fragment m ns n) in *. set (ns1 := insert_number n ns) in *.
  assert (Z.of_nat (length ns1) = total) as Hl1 by (unfold ns1; by rewrite insert_number_perm).
  assert (ns1 = seqZ 1 total) as Hall.
  { rewrite <- Hl1. apply sorted_range; [apply Hm'|]. eapply Forall_impl; [apply Hm'|]. cbn. lia. }
  assert (1 ∈ ns1) as H1 by (rewrite Hall; apply elem_of_seqZ; lia).
  rewrite Hl, Z.eqb_refl. cbn [negb]. unfold merge_fragments.
  cbn [payloads first_payload set_payloads set_hosts set_defrag].
  rewrite (co_fragments _ _ Hm') by (intros E; rewrite E in H1; by apply elem_of_nil in H1).
  rewrite (co_payloads _ _ Hm'), decide_True, (co_first _ _ Hm' H1) by done.
  assert (f_data <$> ((fun n => Frag n (part n)) <$> ns1) = part <$> ns1) as -> by (by rewrite <- list_fmap_compose).
  rewrite (collected_all ns1) by (done || apply Hm').
  destruct (others ++ _) as [|x l] eqn:Ex; [by apply app_eq_nil in Ex as [_ ?]|]. cbn [head mbind option_bind].
  eexists _, _. split; [done|]. unfold reassembled. rewrite Ex.
  split; [done|]. split; [apply Hm'|]. split; [apply Hm'|done].
Qed.

(** ** The handler on fragments of one message *)

Definition collecting (seen : list Z) (defrag : option message) : Prop :=
  Z.of_nat (length seen) < total /\
  match defrag with Some m => seen <> [] /\ collected seen m | None => seen = [] end.

Lemma create_collected n msg : fragment_of n msg ->
  exists m, message_create_defrag max_packet msg = Some m /\ collected [] m.
Proof.
  intros [_ Hid (o & Ho & _) _]. unfold message_create_defrag. rewrite Ho. eexists.
  split; [by destruct (get_payload msg PLV1_FRAGMENT)|]. constructor; cbn; try done;
    first [by exists 0|by constructor|by intros ?%elem_of_nil].
Qed.

Lemma handle_step seen defrag n msg : collecting seen defrag -> fragment_of n msg -> exists m,
  handle_fragment max_packet defrag msg =
    ('(status, m, _) ← add_fragment_v2 m msg;
     if bool_decide (status = SUCCESS) then Some (inr m, None) else Some (inl status, Some m)) /\ collected seen m.
Proof.
  intros [_ Hd] Hf. destruct (fo_payload _ _ Hf) as (o & Ho & _). unfold handle_fragment. rewrite Ho.
  destruct defrag as [m|]; [exists m; by split; [|apply Hd]|]. subst seen.
  destruct (create_collected n msg Hf) as (m & -> & Hm). by exists m.
Qed.

Lemma handle_fragment_spec seen defrag n msg : collecting seen defrag -> fragment_of n msg ->
  (exists defrag' seen', handle_fragment max_packet defrag msg = Some (inl NEED_MORE, defrag') /\
     collecting seen' defrag' /\ forall x, x ∈ seen' <-> x = n \/ x ∈ seen) \/
  (exists m, handle_fragment max_packet defrag msg = Some (inr m, None) /\ reassembled m /\
     forall x, 1 <= x <= total -> x = n \/ x ∈ seen).
Proof using Htotal Hmax.
  intros Hc Hf. destruct (handle_step _ _ _ _ Hc Hf) as (m & -> & Hm). pose proof (proj1 Hc) as Hlt.
  destruct (decide (n ∈ seen)) as [Hin|Hin].
  { left. rewrite (add_duplicate _ _ _ _ Hm Hf Hin). cbn [mbind option_bind]. rewrite bool_decide_false by done.
    exists (Some m), seen. split; [done|]. split; [|intros x; split; [by right|intros [->|]; done]].
    split; [done|]. split; [by intros ->; apply elem_of_nil in Hin|done]. }
  pose proof (with_fragment_collected _ _ _ Hm (fo_range _ _ Hf) Hin) as Hm'.
  assert (forall x, x ∈ insert_number n seen <-> x = n \/ x ∈ seen) as Hiff.
  { intros x. rewrite insert_number_perm. apply elem_of_cons. }
  assert (length (insert_number n seen) = S (length seen)) as Hl by (by rewrite insert_number_perm).
  destruct (decide (Z.of_nat (S (length seen)) = total)) as [Hlast|Hmore].
  - right. destruct (add_last _ _ _ _ Hm Hf Hin Hlast) as (m' & msg' & -> & Hr). cbn [mbind option_bind].
    rewrite bool_decide_true by done. exists m'. split; [done|]. split; [done|]. intros x Hx. apply Hiff.
    assert (insert_number n seen = seqZ 1 total) as ->; [|by apply elem_of_seqZ; lia].
    rewrite <- Hlast, <- Hl. apply sorted_range; [apply Hm'|]. eapply Forall_impl; [apply Hm'|]. cbn. lia.
  - left. destruct (add_new _ _ _ _ Hm Hf Hin) as (msg' & ->). replace (negb _) with true by lia.
    cbn [mbind option_bind]. rewrite bool_decide_false by done. eexists _, (insert_number n seen).
    split; [done|]. split; [|done]. split; [lia|]. split; [intros E; by rewrite E in Hl|done].
Qed.

Lemma handle_fragments_spec ns msgs : Forall2 fragment_of ns msgs -> forall seen defrag, collecting seen defrag ->
  (exists defrag' x, handle_fragments max_packet defrag msgs = Some (inl NEED_MORE, defrag') /\
     1 <= x <= total /\ (x ∉ seen) /\ (x ∉ ns)) \/
  (exists m, handle_fragments max_packet defrag msgs = Some (inr m, None) /\ reassembled m /\
     forall x, 1 <= x <= total -> x ∈ seen \/ x ∈ ns).
Proof using Htotal Hmax.
  induction 1 as [|n msg ns msgs Hf Hfs IH]; intros seen defrag Hc; cbn [handle_fragments].
  - left. destruct (decide (Forall (fun x => x ∈ seen) (seqZ 1 total))) as [Hall|Hnot].
    + exfalso. assert (seqZ 1 total ⊆+ seen) as Hsub%submseteq_length.
      { apply NoDup_submseteq; [apply NoDup_seqZ|]. by apply Forall_forall. }
      rewrite length_seqZ in Hsub. pose proof (proj1 Hc). lia.
    + apply not_Forall_Exists, Exists_exists in Hnot as (x & Hx & Hn); [|intros ?; apply _].
      apply elem_of_seqZ in Hx. exists defrag, x. split; [done|]. split; [lia|]. split; [done|apply not_elem_of_nil].
  - destruct (handle_fragment_spec _ _ _ _ Hc Hf) as [(d' & seen' & -> & Hc' & Hiff)|(m & -> & Hr & Hall)];
      cbn [mbind option_bind].
    + destruct (IH _ _ Hc') as [(d2 & x & -> & Hx & H1 & H2)|(m & -> & Hr & Hall)].
      * left. exists d2, x. split; [done|]. split; [done|]. rewrite Hiff in H1. rewrite not_elem_of_cons. tauto.
      * right. exists m. split; [done|]. split; [done|]. intros x Hx. specialize (Hall x Hx).
        rewrite Hiff in Hall. rewrite elem_of_cons. tauto.
    + right. exists m. split; [done|]. split; [done|]. intros x Hx. rewrite elem_of_cons. specialize (Hall x Hx). tauto.
Qed.
End Fragments.

(** ** Theorems *)

(** C23: the fragments of a message, received in any order and any number of times: once all
    of them were received, and not before, the message is reassembled, with the
    data in the order of the numbers, the type of the first payload in it and the
    payloads that were not encrypted. *)
Theorem defragment_any_order parts next others mid max_packet ns msgs :
  1 <= total parts <= MAX_FRAGMENTS -> Z.of_nat (length (concat parts)) <= max_packet ->
  Forall2 (fragment_of parts next others mid) ns msgs ->
  if decide (Forall (fun x => x ∈ ns) (seqZ 1 (total parts)))
  then exists m, handle_fragments max_packet None msgs = Some (inr m, None) /\ reassembled parts next others mid m
  else exists defrag, handle_fragments max_packet None msgs = Some (inl NEED_MORE, defrag).
Proof.
  intros Ht Hm Hfs.
  destruct (handle_fragments_spec parts next others mid max_packet Ht Hm ns msgs Hfs [] None) as
    [(d & x & -> & Hx & _ & Hn)|(m & -> & Hr & Hall)]; [split; [cbn; lia|done]|..].
  - rewrite decide_False; [by eexists|]. intros Ha. rewrite Forall_forall in Ha. apply Hn, Ha, elem_of_seqZ. lia.
  - rewrite decide_True; [by eexists|]. apply Forall_forall. intros x Hx%elem_of_seqZ.
    destruct (Hall x) as [Hin|]; [lia|by apply elem_of_nil in Hin|done].
Qed.

(** Two fragments, as they come out of decryption. *)
Definition fragment_example (num count : Z) (d : chunk) : message :=
  let o := encrypted_fragment_payload_create_from_data num count d in
  let o := if num =? 1 then object_set_next o PLV2_DELETE else o in
  set_payloads (toy_message INFORMATIONAL []) [o].

Lemma fragment_example_of n : n = 1 \/ n = 2 ->
  fragment_of [[1; 2]; [3]] PLV2_DELETE [] 7 n (fragment_example n 2 (part [[1; 2]; [3]] n)).
Proof.
  intros [-> | ->]; (constructor; [by vm_compute|by vm_compute| |by vm_compute]);
    (eexists; split; [vm_compute; reflexivity|]; by vm_compute).
Qed.

Lemma defragment_any_order_witness :
  let msgs := [fragment_example 2 2 [3]; fragment_example 2 2 [3]; fragment_example 1 2 [1; 2]] in
  exists m, handle_fragments 100 None msgs = Some (inr m, None) /\
    reassembled [[1; 2]; [3]] PLV2_DELETE [] 7 m.
Proof.
  intros msgs. pose proof (defragment_any_order [[1; 2]; [3]] PLV2_DELETE [] 7 100 [2; 2; 1] msgs) as H.
  rewrite decide_True in H by (apply (bool_decide_unpack _); vm_compute; exact I).
  apply H; [by vm_compute|by vm_compute|].
  repeat (constructor; [apply fragment_example_of; by auto|]). constructor.
Defined.
