(* ===== verification/PayloadChain.v ===== *)
(** Payloads one after the other in a message: the types and lengths their headers
    announce, what [set_next_type] does to the encoding, and the generator and the
    loop of the encrypted payload on a whole list. *)
From S2P Require Import Prelude Bio Host Crypto Payloads Codec CodecParser CodecGenerator.
From S2P Require Import PayloadVerify CodecTyping MessageRules EncryptedPayload Message MessageParse.
From stdpp Require Import base numbers list option strings.
From Stdlib Require Import Lia ZArith.
Local Open Scope Z_scope.

(** ** The payloads of IKEv2 messages *)

(** All but the encrypted ones. *)
Definition v2_type (t : payload_type_t) : bool :=
  match t with
  | PLV2_SECURITY_ASSOCIATION | PLV2_KEY_EXCHANGE | PLV2_ID_INITIATOR | PLV2_ID_RESPONDER | PLV2_CERTIFICATE
  | PLV2_CERTREQ | PLV2_AUTH | PLV2_NONCE | PLV2_NOTIFY | PLV2_DELETE | PLV2_VENDOR_ID | PLV2_TS_INITIATOR
  | PLV2_TS_RESPONDER | PLV2_CONFIGURATION | PLV2_EAP => true
  | _ => false
  end.

(** The bytes of the fields behind the length but for the SPI and the data at the end,
    and whether there is an SPI. *)
Fixpoint tail_fixed (rules : list encoding_rule_t) : option (Z * bool) :=
  match rules with
  | [] => None
  | (ty, _) :: rules =>
    match ty, rules with
    | CHUNK_DATA, [] | PAYLOAD_LIST _, [] => Some (0, false)
    | SPI, _ =>
      '(n, spi) ← tail_fixed rules;
      if spi || existsb (fun r => bool_decide (fst r = SPI_SIZE)) rules then None else Some (n, true)
    | PAYLOAD_LENGTH, _ => None
    | ty, _ => n ← int_width ty; '(m, spi) ← tail_fixed rules; Some (Z.of_nat n + m, spi)
    end
  end.

Definition bit_rule (r : encoding_rule_t) : bool :=
  match fst r with FLAG | RESERVED_BIT => true | _ => false end.

(** Type of the next payload, a byte of flags, the length, and fields that the header
    length counts. *)
Lemma v2_table t : v2_type t = true -> exists flags rest n spi,
  get_encoding_rules (Known t) = (U_INT_8, "next_payload") :: flags ++ (PAYLOAD_LENGTH, "payload_length") :: rest /\
  length flags = 8%nat /\ forallb bit_rule flags = true /\ tail_fixed rest = Some (n, spi) /\
  forall s, header_length (Known t) s = 4 + n + if spi then s else 0.
Proof.
  intros Ht. exists (take 8 (drop 1 (get_encoding_rules (Known t)))), (drop 10 (get_encoding_rules (Known t))).
  destruct t; try discriminate Ht; eexists _, _; (split; [reflexivity|]); (split; [reflexivity|]);
    (split; [reflexivity|]); (split; [reflexivity|]); intros s; cbn; lia.
Qed.

Section Encoding.
Context (enc : payload -> option chunk) (cls : payload_class).

(** Flags up to the end of a byte. *)
Lemma encode_flags flags rest : forallb bit_rule flags = true -> flags <> [] -> forall c acc cnt fs bs,
  Z.of_nat (length flags) = 8 - cnt -> encode_rules enc cls c acc cnt (flags ++ rest) fs = Some bs ->
  exists x fs1 fs2 bs', fs = fs1 ++ fs2 /\ length fs1 = length flags /\
    encode_rules enc cls c 0 0 rest fs2 = Some bs' /\ bs = x :: bs'.
Proof.
  induction flags as [|[ty name] flags IH]; intros Hb Hne0 c acc cnt fs bs Hl He; [done|]. clear Hne0.
  cbn [forallb] in Hb. apply andb_true_iff in Hb as [Hty Hb]. cbn [length] in Hl.
  destruct fs as [|f fs]; [done|]. cbn [app encode_rules] in He.
  assert (exists b, f = FBool b) as [b ->].
  { destruct f as [v|b|v|v]; [|by exists b|..]; exfalso; destruct ty; try discriminate Hty; cbn in He; discriminate He. }
  assert (next_ctx c ty (FBool b) = c) as Hc by (by destruct ty).
  assert (is_flag ty = true) as Hf by (by destruct ty).
  cbn [encode_field] in He. rewrite Hf in He. cbn [negb] in He. destruct (Z.eqb_spec cnt 7) as [->|Hn].
  - destruct flags; [|cbn in Hl; lia]. cbn [mbind option_bind app] in He. rewrite Hc in He.
    destruct (encode_rules _ _ _ _ _ rest fs) as [bs'|] eqn:Er; [|done]. injection He as <-.
    by exists (2 * acc + Z.b2z b), [FBool b], fs, bs'.
  - assert (flags <> []) as Hne by (intros ->; cbn in Hl; lia).
    cbn [mbind option_bind] in He. rewrite Hc in He.
    destruct (encode_rules _ _ _ _ _ (flags ++ rest) fs) as [bs'|] eqn:Er; [|done]. injection He as <-.
    apply (IH Hb Hne) in Er as (x & fs1 & fs2 & bs2 & -> & Hl1 & Hr & ->); [|lia].
    exists x, (FBool b :: fs1), fs2, bs2. cbn [length]. by rewrite Hl1.
Qed.

(** The length of the fields behind the length. *)
Lemma encode_tail rules : forall n spi c fs bs, tail_fixed rules = Some (n, spi) ->
  encode_rules enc cls c 0 0 rules fs = Some bs -> exists s,
  Z.of_nat (length bs) = n + (if spi then s else 0) + (payload_length c - header_length cls s) /\
  (existsb (fun r => bool_decide (fst r = SPI_SIZE)) rules = false -> s = spi_size c).
Proof.
  induction rules as [|[ty name] rules IH]; intros n spi c fs bs Ht He; [done|].
  destruct (int_width ty) as [w|] eqn:Hw.
  - assert (exists m, ty <> PAYLOAD_LENGTH /\ tail_fixed rules = Some (m, spi) /\ n = Z.of_nat w + m) as (m & Hty & Hm & ->).
    { destruct ty; try discriminate Hw; injection Hw as <-; cbn in Ht; try discriminate Ht;
        destruct (tail_fixed rules) as [[m spi']|]; try discriminate Ht; cbn in Ht; injection Ht as <- <-; by exists m. }
    apply (encode_rules_int _ _ _ _ _ _ w) in He as (v & fs' & bs' & -> & _ & _ & He & ->); [|done].
    destruct (IH _ _ _ _ _ Hm He) as (s & Hl & Hs). exists s.
    assert (payload_length (next_ctx c ty (FInt v)) = payload_length c) as Hp by (by destruct ty).
    rewrite Hp in Hl. split; [rewrite length_app, length_be_bytes; lia|].
    cbn [existsb fst]. intros [Hne Hex]%orb_false_iff. rewrite (Hs Hex). by destruct ty.
  - destruct ty; try discriminate Ht; try discriminate Hw; cbn in Ht.
    + destruct (tail_fixed rules) as [[m spi']|] eqn:Hm; [|done]. cbn in Ht.
      destruct (spi' || _) eqn:Hb in Ht; [done|]. injection Ht as <- <-. apply orb_false_iff in Hb as [-> Hex].
      apply encode_rules_chunk in He as (b & fs' & bs' & -> & Hf & _ & He & ->); [|by repeat constructor].
      destruct (IH _ _ _ _ _ eq_refl He) as (s & Hl & Hs). rewrite (Hs Hex) in Hl. cbn in Hf.
      exists (spi_size c). split; [|done]. rewrite length_app. lia.
    + destruct rules; [|done]. injection Ht as <- <-.
      apply encode_rules_chunk in He as (b & fs' & bs' & -> & Hf & _ & He & ->); [|by repeat constructor].
      apply encode_rules_nil in He as [_ ->]. cbn in Hf. exists (spi_size c). rewrite app_nil_r. split; [lia|done].
    + destruct rules; [|done]. injection Ht as <- <-. destruct fs as [|f fs]; [done|]. cbn [encode_rules] in He.
      destruct f as [v|v|v|l]; [discriminate He|discriminate He|by cbn in He|]. cbn in He. unfold encode_sub in He.
      destruct (encode_list enc l) as [b|]; [|done]. cbn [mbind option_bind] in He.
      destruct (_ && _) eqn:Hb in He; [|done]. cbn [mbind option_bind] in He. destruct fs; [|done].
      injection He as <-. apply andb_true_iff in Hb as [_ Hb]. exists (spi_size c). rewrite app_nil_r. split; [lia|done].
Qed.
End Encoding.

(** ** The header of a payload *)

Lemma get_field_split cls done_ ty name todo fs f gs : get_encoding_rules cls = done_ ++ (ty, name) :: todo ->
  length fs = length done_ -> get_field (Payload cls (fs ++ f :: gs)) name = Some f.
Proof. intros Hr Hl. by apply (get_field_at _ done_ ty name todo). Qed.

(** The encoding starts with the type of the next payload, a byte of flags and the length
    of the whole; another type is another first byte. *)
Record v2_encoded (p : payload) (b : chunk) : Prop := V2Encoded {
  ve_bytes : exists fl rest, b = int_field p "next_payload" :: fl :: be_bytes 2 (int_field p "payload_length") ++ rest;
  ve_length : int_field p "payload_length" = Z.of_nat (length b);
  ve_range : 4 <= Z.of_nat (length b) < 65536;
  ve_next : forall v, 0 <= v < 256 ->
    encode max_depth (assign p "next_payload" (FInt v)) = Some (v :: drop 1 b) /\
    int_field (assign p "next_payload" (FInt v)) "next_payload" = v;
}.

Lemma v2_encoding p t b : class_of p = Known t -> v2_type t = true -> encode max_depth p = Some b -> v2_encoded p b.
Proof.
  destruct p as [cls fs]. cbn [class_of]. intros -> Ht He.
  destruct (v2_table t Ht) as (flags & rest & n & spi & Hr & Hfl & Hbit & Htail & Hhl).
  assert (encode_rules (encode 3) (Known t) (Ctx 0 0 0 0 false) 0 0 (get_encoding_rules (Known t)) fs = Some b) as He0 by exact He.
  rewrite Hr in He0. apply (encode_rules_int _ _ _ _ _ _ 1) in He0 as (v1 & fs1 & bs1 & -> & Hv1 & _ & H1 & Hb); [|done].
  rewrite be_bytes_1 in Hb by done. pose proof H1 as H2.
  apply encode_flags in H2 as (fl & gs & fs2 & bs2 & Hfs1 & Hg & H2 & Hbs1); [|done|by intros ->|exact (f_equal Z.of_nat Hfl)].
  apply (encode_rules_int _ _ _ _ _ _ 2) in H2 as (v3 & fs3 & bs3 & Hfs2 & Hv3 & H4 & H3 & Hbs2); [|done].
  apply (encode_tail _ _ rest n spi) in H3 as (s & Hl & _); [|done]. rewrite Hhl in Hl. cbn in Hl. specialize (H4 eq_refl).
  assert (int_field (Payload (Known t) (FInt v1 :: fs1)) "payload_length" = v3) as Hlen.
  { unfold int_field. rewrite Hfs1, Hfs2, app_comm_cons.
    rewrite (get_field_split (Known t) ((U_INT_8, "next_payload") :: flags) PAYLOAD_LENGTH _ rest); [done|done|].
    cbn [length]. by f_equal. }
  assert (forall v, int_field (Payload (Known t) (FInt v :: fs1)) "next_payload" = v) as Hnx.
  { intros v. unfold int_field. change (FInt v :: fs1) with ([] ++ FInt v :: fs1).
    by rewrite (get_field_split (Known t) [] U_INT_8 _ (flags ++ (PAYLOAD_LENGTH, "payload_length") :: rest)). }
  assert (forall v, assign (Payload (Known t) (FInt v1 :: fs1)) "next_payload" (FInt v) = Payload (Known t) (FInt v :: fs1)) as Has.
  { intros v. unfold assign. change (FInt v1 :: fs1) with ([] ++ FInt v1 :: fs1).
    by rewrite (set_field_at (Known t) [] U_INT_8 _ (flags ++ (PAYLOAD_LENGTH, "payload_length") :: rest)). }
  assert (v3 = Z.of_nat (length b)) as Hv3b.
  { rewrite Hb, Hbs1, Hbs2. cbn [app length]. rewrite length_app, length_be_bytes. lia. }
  constructor.
  - rewrite Hnx, Hlen. exists fl, bs3. by rewrite Hb, Hbs1, Hbs2.
  - by rewrite Hlen.
  - cbn in Hv3. lia.
  - intros v Hv. rewrite Has, Hnx. split; [|done]. cbn [encode max_depth class_of fields_of].
    change (encode_rules (encode 3) (Known t) (Ctx 0 0 0 0 false) 0 0 (get_encoding_rules (Known t)) (FInt v :: fs1) = Some (v :: drop 1 b)).
    rewrite Hr, Hb. change (v :: drop 1 ([v1] ++ bs1)) with ([v] ++ bs1). rewrite <- (be_bytes_1 v) by done.
    by apply encode_rules_int_intro.
Qed.

(** ** Changing the type of the next payload *)

Lemma set_next_v2 p t t' : class_of p = Known t -> v2_type t = true ->
  set_next_type p t' = assign p "next_payload" (FInt (u8 (payload_type_value t'))).
Proof. intros Hc Ht. unfold set_next_type. rewrite Hc. by destruct t. Qed.

Lemma get_next_assigned p t v : class_of p = Known t -> v2_type t = true ->
  int_field p "next_payload" = v -> get_next_type p = payload_type_of v.
Proof. intros Hc Ht <-. unfold get_next_type. rewrite Hc. by destruct t. Qed.

Create Rewrite HintDb field_other.
#[local] Hint Rewrite assign_class : field_other.
#[local] Hint Rewrite int_field_other chunk_field_other list_field_other using discriminate : field_other.

Lemma verify_relinked fuel p t f : class_of p = Known t -> v2_type t = true ->
  verify fuel (assign p "next_payload" f) =
  '(status, q) ← verify fuel p; Some (status, assign q "next_payload" f).
Proof.
  intros Hc Ht. destruct fuel as [|fuel]; [done|]. cbn [verify]. rewrite assign_class, Hc.
  destruct t; try discriminate Ht; try done; unfold certreq_verify, delete_verify, eap_verify, id_verify, nonce_verify,
    notify_verify, sa_verify, ts_verify; autorewrite with field_other; try done;
    try (match goal with |- context [mbind _ ?x] => by destruct x end).
  unfold cert_verify. autorewrite with field_other. repeat case_match; cbn; try done. f_equal. f_equal. by rewrite assign_comm.
Qed.

(** A payload that can be sent, and is accepted as it is. *)
Record sendable (p : payload) : Prop := Sendable {
  se_type : v2_type (get_type p) = true;
  se_encode : is_Some (encode max_depth p);
  se_verify : verify max_depth p = Some (SUCCESS, p);
}.

Lemma sendable_class p : v2_type (get_type p) = true -> class_of p = Known (get_type p).
Proof. unfold get_type. by destruct (class_of p). Qed.

Lemma set_next_type_type p t : get_type (set_next_type p t) = get_type p.
Proof. unfold get_type. by rewrite set_next_type_class. Qed.

(** The types a message has. *)
Definition chain_type (t : payload_type_t) : Prop := payload_type_of (u8 (payload_type_value t)) = t.

Lemma v2_chain_type t : v2_type t = true -> chain_type t.
Proof. intros Ht. by destruct t. Qed.

Lemma sendable_next p t : sendable p ->
  sendable (set_next_type p t) /\
  (forall b, encode max_depth p = Some b -> exists x, encode max_depth (set_next_type p t) = Some (x :: drop 1 b)) /\
  (chain_type t -> get_next_type (set_next_type p t) = t).
Proof.
  intros [Ht [b He] Hv]. pose proof (sendable_class p Ht) as Hc. rewrite (set_next_v2 _ _ _ Hc Ht).
  destruct (ve_next _ _ (v2_encoding _ _ _ Hc Ht He) (u8 (payload_type_value t))) as [He' Hi]; [apply (uwrap_range 8); lia|].
  split; [constructor|split].
  - unfold get_type. by rewrite assign_class.
  - by eexists.
  - by rewrite (verify_relinked _ _ _ _ Hc Ht), Hv.
  - intros b' Hb'. rewrite He in Hb'. injection Hb' as <-. by eexists.
  - intros Hct. rewrite (get_next_assigned _ (get_type p) _ ltac:(by rewrite assign_class) Ht Hi). exact Hct.
Qed.

(** ** Lists of payloads *)

Definition head_type (ps : list payload) (last : payload_type_t) : payload_type_t :=
  match ps with [] => last | p :: _ => get_type p end.

Fixpoint linked (ps : list payload) (last : payload_type_t) : Prop :=
  match ps with [] => True | p :: ps => get_next_type p = head_type ps last /\ linked ps last end.

Lemma chain_cons p ps last : chain (p :: ps) last = set_next_type p (head_type ps last) :: chain ps last.
Proof. done. Qed.

Lemma chain_head_type ps last : head_type (chain ps last) last = head_type ps last.
Proof. destruct ps as [|p ps]; [done|]. cbn [chain head_type]. apply set_next_type_type. Qed.

Lemma chain_spec ps last : chain_type last -> Forall sendable ps ->
  Forall sendable (chain ps last) /\ linked (chain ps last) last.
Proof.
  intros Hl. induction 1 as [|p ps Hp Hps [IH1 IH2]]; [done|]. rewrite chain_cons.
  destruct (sendable_next p (head_type ps last) Hp) as (Hs & _ & Hn).
  split; [by constructor|]. cbn [linked]. rewrite chain_head_type. split; [|done]. apply Hn.
  destruct Hps as [|q ps Hq]; [done|]. apply v2_chain_type, Hq.
Qed.

Lemma sendable_list_encodes ps : Forall sendable ps -> is_Some (encode_list (encode max_depth) ps).
Proof.
  induction 1 as [|p ps [_ [b He] _] _ [bs IH]]; cbn [encode_list]; [done|]. rewrite He, IH. by eexists.
Qed.

Lemma encode_list_cons ps p bs : encode_list (encode max_depth) (p :: ps) = Some bs ->
  exists b bs', encode max_depth p = Some b /\ encode_list (encode max_depth) ps = Some bs' /\ bs = b ++ bs'.
Proof.
  cbn [encode_list]. destruct (encode max_depth p) as [b|]; [|done]. cbn [mbind option_bind].
  destruct (encode_list _ ps) as [bs'|]; [|done]. intros [= <-]. by exists b, bs'.
Qed.

Lemma encode_list_bytes ps : forall bs, encode_list (encode max_depth) ps = Some bs -> bytes_ok bs.
Proof.
  induction ps as [|p ps IH]; intros bs He; [injection He as <-; constructor|].
  apply encode_list_cons in He as (b & bs' & Hb & Hbs & ->). apply Forall_app.
  split; [by eapply encode_bytes_ok|by apply IH].
Qed.

Lemma sendable_length p b : sendable p -> encode max_depth p = Some b -> get_length p = Z.of_nat (length b).
Proof.
  intros [Ht _ _] He. pose proof (sendable_class p Ht) as Hc.
  rewrite <- (ve_length _ _ (v2_encoding _ _ _ Hc Ht He)). unfold get_length. rewrite Hc. by destruct (get_type p).
Qed.

Lemma sum_lengths ps : Forall sendable ps -> forall bs n, encode_list (encode max_depth) ps = Some bs ->
  fold_left (fun n p => n + get_length p) ps n = n + Z.of_nat (length bs).
Proof.
  induction 1 as [|p ps Hp _ IH]; intros bs n He; [injection He as <-; cbn; lia|].
  apply encode_list_cons in He as (b & bs' & Hb & Hbs & ->). cbn [fold_left].
  rewrite (IH _ _ Hbs), (sendable_length _ _ Hp Hb). len.
Qed.

Lemma chain_encodes_length ps : forall bs, Forall sendable ps -> encode_list (encode max_depth) ps = Some bs ->
  (length ps <= length bs)%nat.
Proof.
  induction ps as [|p ps IH]; intros bs Hs He; [cbn; lia|]. inversion Hs as [|? ? Hp Hs']; subst.
  apply encode_list_cons in He as (b & bs' & Hb & Hbs & ->). specialize (IH _ Hs' Hbs).
  pose proof (ve_range _ _ (v2_encoding _ _ _ (sendable_class p (se_type _ Hp)) (se_type _ Hp) Hb)). len.
Qed.

(** Chaining keeps the lengths. *)
Lemma chain_length ps last : Forall sendable ps -> forall bs, encode_list (encode max_depth) ps = Some bs ->
  exists bs', encode_list (encode max_depth) (chain ps last) = Some bs' /\ length bs' = length bs.
Proof.
  induction 1 as [|p ps Hp _ IH]; intros bs He; [by exists bs|].
  apply encode_list_cons in He as (b & bs' & Hb & Hbs & ->). rewrite chain_cons.
  destruct (sendable_next p (head_type ps last) Hp) as (_ & Hx & _). destruct (Hx b Hb) as [x Hx'].
  destruct (IH _ Hbs) as (bs2 & E2 & Hl). exists ((x :: drop 1 b) ++ bs2). cbn [encode_list]. rewrite Hx'.
  cbn [mbind option_bind]. rewrite E2. split; [done|].
  pose proof (ve_range _ _ (v2_encoding _ _ _ (sendable_class p (se_type _ Hp)) (se_type _ Hp) Hb)). len.
Qed.

(** ** The generator on a list *)

(** No configuration payload behind an SA payload: the generator keeps the format
    of the attributes of the latter. *)
Fixpoint format_safe (dirty : bool) (ps : list payload) : bool :=
  match ps with
  | [] => true
  | p :: ps => negb (dirty && relies_on_format (class_of p)) && format_safe (dirty || sets_format (class_of p)) ps
  end.

Lemma format_safe_chain ps last : forall dirty, format_safe dirty (chain ps last) = format_safe dirty ps.
Proof.
  induction ps as [|p ps IH]; intros dirty; [done|]. rewrite chain_cons. cbn [format_safe].
  by rewrite set_next_type_class, IH.
Qed.

Lemma generate_all_spec junk ps : forall dirty g pre bs, gen_at g pre 0 0 false ->
  Forall (fun p => class_of p <> Known PL_HEADER) ps ->
  encode_list (encode max_depth) ps = Some bs -> format_safe dirty ps = true ->
  (dirty = false -> g_attribute_format g = false) -> exists g', generate_all junk g ps = Some g' /\
    gen_at g' (pre ++ bs) 0 0 false /\ g_header_length_offset g' = g_header_length_offset g.
Proof.
  induction ps as [|p ps IH]; intros dirty g pre bs Hg Hh He Hf Hd.
  { injection He as <-. exists g. by rewrite app_nil_r. }
  apply encode_list_cons in He as (b & bs' & Hb & Hbs & ->). cbn [format_safe] in Hf.
  apply andb_true_iff in Hf as [Hr Hf]. inversion Hh as [|? ? Hhp Hh']; subst. cbn [generate_all].
  destruct (generate_payload_spec junk max_depth (class_of p)) with (st := g) (p := p) (b := b) (pre := pre)
    as (g1 & -> & Hg1 & [Hfm Hoff] & _); try done; [apply rank_pos| |].
  { intros Hrel. apply Hd. rewrite Hrel, andb_true_r in Hr. by destruct dirty. }
  cbn [mbind option_bind]. destruct (IH (dirty || sets_format (class_of p)) g1 (pre ++ b) bs') as (g2 & -> & Hg2 & Ho2); try done.
  - intros [Hdf Hsf]%orb_false_iff. rewrite (Hfm Hsf). by apply Hd.
  - exists g2. rewrite app_assoc. split; [done|]. split; [done|]. by rewrite Ho2, Hoff.
Qed.

Lemma generate_all_fresh junk ps bs : Forall sendable ps -> encode_list (encode max_depth) ps = Some bs ->
  format_safe false ps = true -> exists g, generate_all junk (generator_create junk) ps = Some g /\ fst (get_chunk g) = bs.
Proof.
  intros Hs He Hf. destruct (generate_all_spec junk ps false (generator_create junk) [] bs) as (g & -> & Hg & _); try done.
  - apply gen_at_create.
  - eapply Forall_impl; [exact Hs|]. intros p [Ht _ _] Hc. unfold get_type in Ht. by rewrite Hc in Ht.
  - exists g. split; [done|]. apply (ga_pre _ _ _ _ _ Hg).
Qed.

(** ** The parser on a list *)

Lemma parse_one st t p b tail : at_byte st -> p_rest st = b ++ tail -> encode max_depth p = Some b ->
  class_of p = class_for (p_major_version st) t -> t <> PLV1_ENCRYPTED ->
  exists st', parse_payload max_depth st t = Done (p, st') /\ at_byte st' /\ p_rest st' = tail /\
    p_major_version st' = p_major_version st.
Proof.
  intros Hst Hr He Hc Ht. pose proof Hst as [Hb Hok]. destruct (parse_spec st t Hb Hok) as [_ Hspec].
  destruct (Hspec p tail) as [_ Hd].
  { intros Hp. rewrite Hp in Hc. exfalso. unfold class_for in Hc. by destruct (payload_is_known t _), t. }
  destruct Hd as (st' & E & Hr'); [split; [done|by exists b]|]. exists st'. split; [done|].
  destruct (parse_step _ _ _ _ Hst Ht E) as (Hst' & _ & _ & _ & Hm). done.
Qed.

Lemma v2_class_for t : v2_type t = true -> class_for 2 t = Known t.
Proof. intros Ht. by destruct t. Qed.

(** The data announces a first payload that fits. *)
Definition announces (plain : chunk) : Prop :=
  (4 <= length plain)%nat /\ untoh16 (drop 2 plain) <= Z.of_nat (length plain).

Lemma untoh16_be v tail : 0 <= v < 65536 -> untoh16 (be_bytes 2 v ++ tail) = v.
Proof.
  intros Hv. unfold untoh16. by rewrite Reader.untoh_app.
Qed.

Lemma sendable_announces p b tail : sendable p -> encode max_depth p = Some b -> announces (b ++ tail).
Proof.
  intros [Ht _ _] He. destruct (v2_encoding _ _ _ (sendable_class p Ht) Ht He) as [(fl & rest & Hb) Hl Hr _].
  split; [rewrite length_app; lia|].
  assert (drop 2 (b ++ tail) = be_bytes 2 (int_field p "payload_length") ++ rest ++ tail) as ->
    by (rewrite Hb; cbn [app drop]; by rewrite <- app_assoc).
  rewrite untoh16_be by lia. rewrite length_app. lia.
Qed.

Lemma announces_valid plain : announces plain -> invalid_length plain = Some false.
Proof.
  intros [Hl Hu]. unfold invalid_length. destruct (Nat.ltb_spec (length plain) 4); [lia|].
  rewrite load_within by lia. cbn [fmap option_fmap option_map mbind option_bind]. f_equal.
  change (Z.to_nat 2) with 2%nat. unfold untoh16 in *. rewrite take_take, Nat.min_id. lia.
Qed.

Lemma parse_loop_linked plain ps : announces plain \/ ps = [] -> Forall sendable ps -> linked ps PL_NONE ->
  forall fuel st acc tail bs, (length ps < fuel)%nat -> at_byte st -> p_major_version st = 2 ->
  encode_list (encode max_depth) ps = Some bs -> p_rest st = bs ++ tail ->
  parse_loop fuel plain st (head_type ps PL_NONE) acc = Some (SUCCESS, acc ++ ps).
Proof.
  induction ps as [|p ps IH]; intros Hpl Hs Hl [|fuel] st acc tail bs Hf Hst Hm He Hr; cbn [length] in Hf; try lia.
  { cbn. by rewrite app_nil_r. }
  inversion Hs as [|? ? Hp Hs']; subst. destruct Hl as [Hn Hl]. destruct Hpl as [[H4 Hu]|]; [|done].
  apply encode_list_cons in He as (b & bs' & Hb & Hbs & ->). rewrite <- app_assoc in Hr.
  cbn [parse_loop head_type]. pose proof (se_type _ Hp) as Ht.
  rewrite bool_decide_false by (intros E; by rewrite E in Ht).
  rewrite announces_valid by done. cbn [mbind option_bind].
  destruct (parse_one st (get_type p) p b (bs' ++ tail)) as (st' & -> & Hst' & Hr' & Hm'); try done.
  { rewrite Hm, (v2_class_for _ Ht). by apply sendable_class. }
  { intros E. by rewrite E in Ht. }
  rewrite (se_verify _ Hp). cbn [mbind option_bind]. rewrite bool_decide_true by done. rewrite Hn.
  rewrite (IH (or_introl (conj H4 Hu)) Hs' Hl fuel st' _ tail bs'); try done; [|lia|by rewrite Hm'].
  by rewrite <- app_assoc.
Qed.
