(* ===== verification/MessageOrder.v ===== *)
(** Ordering and wrapping the payloads of a message before it is generated
    ([order_payloads], [wrap_payloads] of [src/libcharon/encoding/message.c]): no payload
    is lost or added, only the types of the next payloads change. *)
From S2P Require Import Prelude LinkedList Host Crypto Payloads Codec CodecParser CodecGenerator.
From S2P Require Import PayloadVerify CodecTyping MessageRules EncryptedPayload Message MessageParse PayloadChain.
From stdpp Require Import base numbers list option strings sets.
From Stdlib Require Import Lia ZArith.
Local Open Scope Z_scope.

(** ** Payloads up to the type of the next one *)

Definition unlink (p : payload) : payload := set_next_type p PL_NONE.

Lemma set_next_twice p t t' : v2_type (get_type p) = true -> set_next_type (set_next_type p t) t' = set_next_type p t'.
Proof.
  intros Ht. pose proof (sendable_class p Ht) as Hc. rewrite !(set_next_v2 p _ _ Hc Ht).
  rewrite (set_next_v2 _ (get_type p)) by (by rewrite ?assign_class). apply assign_assign.
Qed.

Lemma unlink_next p t : v2_type (get_type p) = true -> unlink (set_next_type p t) = unlink p.
Proof. apply set_next_twice. Qed.

(** Equal payloads of the same kind. *)
Definition similar (ps qs : list payload) : Prop := unlink <$> ps = unlink <$> qs.

Lemma similar_type p q : unlink p = unlink q -> get_type p = get_type q.
Proof. intros E. unfold unlink in E. rewrite <- (set_next_type_type p PL_NONE), E. apply set_next_type_type. Qed.

Lemma chain_unlink ps last : Forall sendable ps -> chain (unlink <$> ps) last = chain ps last.
Proof.
  induction 1 as [|p ps Hp Hps IH]; [done|]. cbn [fmap list_fmap]. rewrite !chain_cons. f_equal; [|done].
  unfold unlink at 1. rewrite set_next_twice by apply Hp. f_equal. destruct ps; [done|]. cbn. apply set_next_type_type.
Qed.

Lemma unlink_chain ps last : Forall sendable ps -> unlink <$> chain ps last = unlink <$> ps.
Proof.
  induction 1 as [|p ps Hp Hps IH]; [done|]. rewrite chain_cons. cbn [fmap list_fmap]. f_equal; [|done].
  apply unlink_next, Hp.
Qed.

(** ** Objects *)

Definition good (o : object) : Prop := o = ordinary (o_p o) /\ sendable (o_p o).

Lemma good_ordinary p : sendable p -> good (ordinary p).
Proof. done. Qed.

Lemma good_next o t : good o -> good (object_set_next o t).
Proof.
  intros [-> Hs]. unfold object_set_next. cbn [with_p o_p ordinary]. split; [done|]. by apply sendable_next.
Qed.

Definition payloads_of (os : list object) : list payload := o_p <$> os.

Lemma payloads_of_ordinary ps : payloads_of (ordinary <$> ps) = ps.
Proof. induction ps as [|p ps IH]; [done|]. cbn. by f_equal. Qed.

Lemma good_list os : Forall good os -> os = ordinary <$> payloads_of os /\ Forall sendable (payloads_of os).
Proof.
  induction 1 as [|o os [Ho Hs] _ [IH1 IH2]]; [done|]. split; [|by constructor]. cbn. f_equal; [exact Ho|exact IH1].
Qed.

(** ** Messages with the same payloads *)

(** All but the payloads and the type of the first. *)
Definition frame (m : message) : message := set_payloads (set_first m PL_NONE) [].

Record holds (m0 : message) (os : list object) (m : message) : Prop := Holds {
  hd_good : Forall good (payloads m);
  hd_similar : similar (payloads_of (payloads m)) (payloads_of os);
  hd_frame : frame m = frame m0;
}.

Lemma change_last_similar t os : Forall good os ->
  Forall good (change_last (fun o => object_set_next o t) os) /\
  similar (payloads_of (change_last (fun o => object_set_next o t) os)) (payloads_of os).
Proof.
  destruct os as [|o os _] using rev_ind; intros Hg; [done|]. rewrite change_last_app.
  apply Forall_app in Hg as [Hg Ho]. inversion Ho as [|? ? Hoo _]; subst. split.
  - apply Forall_app. split; [done|]. constructor; [by apply good_next|constructor].
  - unfold similar, payloads_of. rewrite !fmap_app. f_equal. cbn. f_equal. apply unlink_next, Hoo.
Qed.

Lemma add_payload_holds m0 os m o : holds m0 os m -> good o -> holds m0 (os ++ [o]) (add_payload m o).
Proof.
  intros [Hg Hs Hf] Ho. destruct (change_last_similar (object_type o) _ Hg) as [Hg' Hs'].
  assert (forall l, Forall good l -> similar (payloads_of l) (payloads_of os) ->
    Forall good (l ++ [object_set_next o PL_NONE]) /\
    similar (payloads_of (l ++ [object_set_next o PL_NONE])) (payloads_of (os ++ [o]))) as Hadd.
  { intros l Hl Hsl. split; [apply Forall_app; split; [done|]; constructor; [by apply good_next|constructor]|].
    unfold similar, payloads_of in *. rewrite !fmap_app, Hsl. f_equal. cbn. f_equal. apply unlink_next, Ho. }
  unfold add_payload. case_bool_decide as Hl; cbn [payloads set_first set_payloads].
  - destruct (Hadd (payloads m) Hg Hs). by constructor.
  - destruct (Hadd _ Hg' (eq_trans Hs' Hs)). by constructor.
Qed.

Lemma add_payloads_holds m0 qs : Forall good qs -> forall os m, holds m0 os m ->
  holds m0 (os ++ qs) (fold_left add_payload qs m).
Proof.
  induction 1 as [|o qs Ho _ IH]; intros os m Hm; cbn [fold_left]; [by rewrite app_nil_r|].
  rewrite (cons_middle o os qs), app_assoc. apply IH. by apply add_payload_holds.
Qed.

(** ** Ordering *)

(** The order: what the entries are about, one after the other, and the rest backwards. *)
Fixpoint arrange (orders : list payload_order_t) (l : list object) : list object :=
  match orders with
  | [] => rev l
  | order :: orders =>
    List.filter (order_matches order) l ++ arrange orders (List.filter (fun o => negb (order_matches order o)) l)
  end.

Lemma order_pass_filter order l :
  order_pass order l = (List.filter (order_matches order) l, List.filter (fun o => negb (order_matches order o)) l).
Proof.
  induction l as [|o l IH]; cbn [order_pass List.filter]; [done|]. rewrite IH. by destruct (order_matches order o).
Qed.

Lemma filter_both {X} (f : X -> bool) l : List.filter f l ++ List.filter (fun x => negb (f x)) l ≡ₚ l.
Proof.
  induction l as [|x l IH]; cbn [List.filter]; [done|]. destruct (f x); cbn [negb app]; [by constructor|].
  rewrite <- Permutation_middle. by constructor.
Qed.

Lemma arrange_perm orders : forall l, arrange orders l ≡ₚ l.
Proof.
  induction orders as [|order orders IH]; intros l; cbn [arrange]; [symmetry; apply Permutation_rev|].
  rewrite IH. apply filter_both.
Qed.

Lemma order_loop_holds m0 orders : forall l os m, Forall good l -> holds m0 os m ->
  let '(rest, m') := order_loop orders l m in holds m0 (os ++ arrange orders l) (fold_left add_payload (rev rest) m').
Proof.
  induction orders as [|order orders IH]; intros l os m Hl Hm; cbn [order_loop arrange].
  { apply add_payloads_holds; [by apply Forall_rev|done]. }
  rewrite order_pass_filter, app_assoc.
  assert (Forall good (List.filter (order_matches order) l ++ List.filter (fun o => negb (order_matches order o)) l))
    as [Hmv Hrs]%Forall_app by (by rewrite filter_both).
  apply IH; [exact Hrs|]. by apply add_payloads_holds.
Qed.

(** Ordering arranges the payloads of a message, and nothing else changes. *)
Lemma order_payloads_holds m r : Forall good (payloads m) ->
  holds m (arrange (mr_order r) (payloads m)) (order_payloads m r).
Proof.
  intros Hg. unfold order_payloads.
  pose proof (order_loop_holds m (mr_order r) (payloads m) [] (set_payloads m []) Hg ltac:(by constructor)) as Hl.
  by destruct (order_loop _ _ _) as [rest m'].
Qed.

(** ** What does not depend on the order and the types of the next payloads *)

Definition total_length (ps : list payload) : Z := fold_right Z.add 0 (get_length <$> ps).

Lemma total_length_perm ps qs : ps ≡ₚ qs -> total_length ps = total_length qs.
Proof.
  unfold total_length. induction 1; cbn [fmap list_fmap fold_right] in *; lia.
Qed.

Lemma get_length_unlink p : v2_type (get_type p) = true -> get_length (unlink p) = get_length p.
Proof.
  intros Ht. pose proof (sendable_class p Ht) as Hc. unfold unlink. rewrite (set_next_v2 _ _ _ Hc Ht).
  unfold get_length. rewrite assign_class, Hc. by destruct (get_type p); try discriminate Ht; rewrite int_field_other.
Qed.

Lemma total_length_unlink ps : Forall sendable ps -> total_length (unlink <$> ps) = total_length ps.
Proof.
  unfold total_length. induction 1 as [|p ps Hp _ IH]; [done|]. cbn [fmap list_fmap fold_right] in *.
  rewrite IH, get_length_unlink by apply Hp. done.
Qed.

Lemma total_length_encode ps bs : Forall sendable ps -> encode_list (encode max_depth) ps = Some bs ->
  total_length ps = Z.of_nat (length bs).
Proof.
  intros Hs. revert bs. unfold total_length. induction Hs as [|p ps Hp _ IH]; intros bs He; [injection He as <-; done|].
  apply encode_list_cons in He as (b & bs' & Hb & Hbs & ->). cbn [fmap list_fmap fold_right].
  rewrite (IH _ Hbs), (sendable_length _ _ Hp Hb). len.
Qed.

Lemma format_safe_similar ps : forall qs dirty, similar ps qs -> format_safe dirty ps = format_safe dirty qs.
Proof.
  induction ps as [|p ps IH]; intros [|q qs] dirty E; try done. unfold similar in E. cbn [fmap list_fmap] in E.
  injection E as Ep Eps. cbn [format_safe].
  assert (class_of p = class_of q) as ->
    by (rewrite <- (set_next_type_class p PL_NONE), <- (set_next_type_class q PL_NONE); by apply (f_equal class_of) in Ep).
  by rewrite (IH qs).
Qed.

(** The counts of the payload types decide on the structure of a message. *)
Fixpoint count_type (t : payload_type_t) (ts : list payload_type_t) : Z :=
  match ts with [] => 0 | x :: ts => (if bool_decide (x = t) then 1 else 0) + count_type t ts end.

Lemma count_type_nonneg t ts : 0 <= count_type t ts.
Proof. induction ts as [|x ts IH]; cbn; [done|]. case_bool_decide; lia. Qed.

Lemma count_type_perm t ts ts' : ts ≡ₚ ts' -> count_type t ts = count_type t ts'.
Proof. induction 1; cbn; lia. Qed.

Lemma count_payloads_spec pr l : forall found, 0 <= found -> count_payloads pr l found =
  let n := count_type (pr_type pr) (object_type <$> l) in
  if (0 <? n) && (max_occurence pr <? found + n) then None else Some (found + n).
Proof.
  induction l as [|o l IH]; intros found Hf; cbn [count_payloads fmap list_fmap count_type]; [cbn; f_equal; lia|].
  pose proof (count_type_nonneg (pr_type pr) (object_type <$> l)) as Hn. case_bool_decide.
  - rewrite IH by lia. cbn zeta. replace (0 <? 1 + count_type (pr_type pr) (object_type <$> l)) with true by lia.
    destruct (Z.ltb_spec (max_occurence pr) (found + 1)).
    + replace (max_occurence pr <? _) with true by lia. done.
    + cbn [andb]. replace (found + 1 + count_type (pr_type pr) (object_type <$> l)) with
        (found + (1 + count_type (pr_type pr) (object_type <$> l))) by lia.
      destruct (Z.ltb_spec 0 (count_type (pr_type pr) (object_type <$> l))); [done|].
      replace (count_type (pr_type pr) (object_type <$> l)) with 0 by lia. cbn [andb].
      by replace (max_occurence pr <? found + (1 + 0)) with false by lia.
  - by rewrite IH.
Qed.

Lemma verify_rules_types rules l l' : (object_type <$> l) ≡ₚ (object_type <$> l') -> forall complete,
  verify_rules rules l complete = verify_rules rules l' complete.
Proof.
  intros Hp. induction rules as [|pr rules IH]; intros complete; cbn [verify_rules]; [done|].
  rewrite !count_payloads_spec, (count_type_perm _ _ _ Hp) by done. cbn zeta.
  destruct (_ && _); [done|]. destruct (_ && _); [done|]. apply IH.
Qed.

Lemma types_unlink (ps : list payload) : (object_type <$> (ordinary <$> ps)) = get_type <$> (unlink <$> ps).
Proof. rewrite <- !list_fmap_compose. apply list_fmap_ext. intros i p _. cbn. symmetry. apply set_next_type_type. Qed.
