(* ===== verification/MessageRoundtrip.v ===== *)
(** IKEv2 messages that are generated are parsed back: the encrypted payload, and the
    whole message, between two ends with the same keys. *)
From S2P Require Import Prelude LinkedList Host Crypto Payloads Codec CodecParser CodecGenerator.
From S2P Require Import PayloadVerify CodecTyping MessageRules EncryptedPayload Message MessageParse PayloadChain MessageOrder.
From stdpp Require Import base numbers list option strings sets.
From Stdlib Require Import Lia ZArith.
Local Open Scope Z_scope.

(** ** Encryption and decryption of the contents *)
Section Contents.
Context {A : Type} `{AeadLaws A} {R : Type} `{RngLaws R}.

(** The padding makes a multiple of the block size. *)
Definition padding_for (bs len : nat) : nat := bs - len mod bs.

Lemma padding_range bs len : bs <> 0%nat -> (1 <= padding_for bs len <= bs)%nat.
Proof. intros Hbs. pose proof (Nat.mod_upper_bound len bs Hbs). unfold padding_for. lia. Qed.

Lemma padding_divides bs len : bs <> 0%nat -> Nat.divide bs (len + padding_for bs len).
Proof.
  intros Hbs. unfold padding_for. exists (len / bs + 1)%nat.
  pose proof (Nat.div_mod_eq len bs). pose proof (Nat.mod_upper_bound len bs Hbs). nia.
Qed.

Lemma decrypt_content_padded (b : A) v iv crypt plain pad assoc b' : ae_view b = Some v -> ae_view b' = Some v ->
  length iv = av_iv v -> length crypt = (length (plain ++ pad) + av_icv v)%nat ->
  Nat.divide (av_block v) (length (plain ++ pad)) -> (1 <= length pad)%nat ->
  list.last pad = Some (Z.of_nat (length pad) - 1) ->
  aead_decrypt b crypt assoc iv = (Some (plain ++ pad), b') ->
  decrypt_content b (iv ++ crypt) assoc = Some (SUCCESS, Some plain, b').
Proof.
  intros Hv Hv' Hiv Hc Hd Hp Hlast Ed. rewrite (decrypt_content_eq b v) by done.
  destruct (ae_sizes b v Hv) as (_ & _ & _ & Hbs & _).
  rewrite (drop_app_length' iv), (take_app_length' iv) by done. rewrite length_app, Hiv, Hc.
  replace ((av_iv v + (length (plain ++ pad) + av_icv v) <? av_iv v + av_icv v)%nat) with false by lia.
  replace (Z.of_nat _ - _ - _) with (Z.of_nat (length (plain ++ pad))) by lia.
  rewrite <- Nat2Z.inj_mod, (proj2 (Nat.Lcm0.mod_divide _ _) Hd). cbn [orb negb Z.eqb Z.of_nat]. rewrite Ed.
  assert (list.last (iv ++ plain ++ pad) = Some (Z.of_nat (length pad) - 1)) as ->.
  { rewrite app_assoc, last_app, Hlast. done. }
  cbn [mbind option_bind]. rewrite length_app. replace (Z.of_nat _ <? _) with false by lia.
  replace (Z.of_nat _ - (_ + 1)) with (Z.of_nat (length plain)) by lia.
  rewrite load_prefix by (rewrite length_app; lia). by rewrite take_app_length.
Qed.

(** The IV generator and the random number generator deliver what encryption needs. *)
Definition supplied (a : A) (v : aead_view) (rng : option R) (mid : Z) : Prop :=
  is_Some (fst (aead_get_iv a mid (av_iv v))) /\
  exists r, rng = Some r /\ forall n, (n < av_block v)%nat -> is_Some (fst (rng_get_bytes r n)).

Lemma encrypt_content_spec (a : A) v (rng : option R) mid plain assoc : ae_view a = Some v -> (av_block v <= 256)%nat ->
  bytes_ok plain ->
  exists status enc a' rng', encrypt_content a rng mid plain assoc = (status, enc, a', rng') /\
    (supplied a v rng mid -> status = SUCCESS) /\
    (status = SUCCESS -> exists c, enc = Some c /\ bytes_ok c /\ ae_view a' = Some v /\
      length c = (av_iv v + length plain + padding_for (av_block v) (length plain) + av_icv v)%nat /\
      forall b, ae_view b = Some v ->
        exists b', decrypt_content b c assoc = Some (SUCCESS, Some plain, b') /\ ae_view b' = Some v).
Proof.
  intros Hv Hbs Hp. unfold encrypt_content, supplied.
  destruct rng as [r|]; [|eexists _, _, _, _; split; [done|]; split; [by intros (_ & ? & ? & _)|done]].
  destruct (ae_sizes a v Hv) as (-> & _ & -> & Hb0 & ->). cbn [negb].
  destruct (aead_get_iv a mid (av_iv v)) as [[iv|] a1] eqn:Eiv;
    [|eexists _, _, _, _; split; [done|]; split; [by intros [[? ?] _]|done]].
  pose proof (ae_get_iv_view a v mid (av_iv v) Hv) as Hv1. rewrite Eiv in Hv1. cbn [snd] in Hv1.
  destruct (ae_get_iv_length _ _ _ _ _ _ Hv Eiv) as [Hlen Hivb].
  change (av_block v - length plain mod av_block v)%nat with (padding_for (av_block v) (length plain)).
  set (n := padding_for (av_block v) (length plain)). pose proof (padding_range (av_block v) (length plain) Hb0) as Hn. fold n in Hn.
  destruct (rng_get_bytes r (n - 1)) as [[bytes|] r'] eqn:Er;
    [|eexists _, _, _, _; split; [done|]; split;
        [intros (_ & ? & [= <-] & Hr); destruct (Hr (n - 1)%nat ltac:(lia)) as [? Hx]; by rewrite Er in Hx|done]].
  destruct (rng_length _ _ _ _ Er) as [Hbl Hbb].
  assert (u8 (Z.of_nat n - 1) = Z.of_nat n - 1) as -> by (apply uwrap_small; lia).
  set (pad := bytes ++ [Z.of_nat n - 1]). assert (length pad = n) as Hpl by (unfold pad; len).
  assert (bytes_ok (plain ++ pad)) as Hok.
  { apply Forall_app. split; [done|]. apply Forall_app. split; [done|]. constructor; [unfold byte_ok; lia|constructor]. }
  assert (Nat.divide (av_block v) (length (plain ++ pad))) as Hd by (rewrite length_app, Hpl; by apply padding_divides).
  destruct (ae_inverse a1 a v _ assoc iv Hv1 Hv Hok Hivb Hlen Hd) as (enc & a3 & b3 & Ee & Hv3 & He1 & Hl1 & _).
  rewrite Ee. eexists _, _, _, _. split; [done|]. split; [done|]. intros _. exists (iv ++ enc). split; [done|].
  split; [by apply Forall_app|]. split; [done|].
  split; [rewrite !length_app, Hl1, length_app, Hpl, Hlen; lia|]. intros b Hvb.
  destruct (ae_inverse a1 b v _ assoc iv Hv1 Hvb Hok Hivb Hlen Hd) as (e2 & a4 & b4 & E2 & _ & _ & Hl2 & Ed & Hvb').
  rewrite Ee in E2. injection E2 as -> ->. exists b4. split; [|done].
  apply (decrypt_content_padded b v) with (pad := pad); try done; [lia|]. unfold pad. rewrite last_snoc. f_equal. fold pad. by rewrite Hpl.
Qed.
End Contents.

(** ** The encrypted payload *)

Definition enc_p (next len : Z) (d : chunk) : payload :=
  Payload (Known PLV2_ENCRYPTED) [FInt next; FInt 0; FInt len; FChunk d].

Lemma encode_enc_p next len d : 0 <= next < 256 -> 4 <= len < 65536 -> len = 4 + Z.of_nat (length d) -> bytes_ok d ->
  encode max_depth (enc_p next len d) = Some (payload_header (enc_p next len d) ++ d).
Proof.
  intros Hn Hl Hd Hb.
  change (payload_header (enc_p next len d)) with ([next; 0] ++ htoun16 len ++ []). rewrite htoun16_be, app_nil_r.
  change ([next; 0] ++ be_bytes 2 len) with ([next] ++ [0] ++ be_bytes 2 len).
  rewrite <- (be_bytes_1 next), <- (be_bytes_1 0), <- !app_assoc by lia.
  cbn [encode max_depth enc_p class_of fields_of get_encoding_rules]. unfold encrypted_payload_encodings_v2.
  apply encode_rules_int_intro; [done|done|done|]. apply encode_rules_int_intro; [done|done|done|].
  apply encode_rules_int_intro; [done|cbn; lia|lia|]. rewrite <- (app_nil_r d) at 2.
  apply encode_rules_chunk_intro; [|done|done]. cbn. lia.
Qed.

Section Payload.
Context {A : Type} `{AeadLaws A} {R : Type} `{RngLaws R} (junk : nat -> Z).

(** The length of an encrypted payload with [len] bytes of contents. *)
Definition sealed_length (v : aead_view) (len : nat) : nat :=
  4 + (av_iv v + len + padding_for (av_block v) len + av_icv v).

Lemma overhead_padding (a : A) v len : ae_view a = Some v ->
  Z.of_nat len + compute_overhead a (Z.of_nat len) + 4 = Z.of_nat (sealed_length v len).
Proof.
  intros Hv. unfold compute_overhead, sealed_length, padding_for. destruct (ae_sizes a v Hv) as (-> & -> & -> & Hb & _).
  rewrite <- Nat2Z.inj_mod. pose proof (Nat.mod_upper_bound len (av_block v) Hb). lia.
Qed.

Lemma update_length_enc (a : A) v next len qs bs : ae_view a = Some v -> Forall sendable qs ->
  encode_list (encode max_depth) qs = Some bs -> Z.of_nat (sealed_length v (length bs)) < 65536 ->
  update_length a (Object (enc_p next len []) qs true false []) =
  Object (enc_p next (Z.of_nat (sealed_length v (length bs))) []) qs true false [].
Proof.
  intros Hv Hs He Hr. unfold update_length. cbn [o_p enc_p class_of]. rewrite bool_decide_false by done.
  unfold compute_length. cbn [o_p o_payloads o_aead]. change (chunk_field (enc_p next len []) "encrypted") with (@nil Z).
  cbn [length Z.of_nat Z.eqb negb]. rewrite (sum_lengths qs Hs bs 0 He), Z.add_0_l.
  change (get_header_length (enc_p next len [])) with 4.
  cbn beta iota. change (negb (Z.of_nat 0 =? 0)) with false. cbn iota. rewrite (overhead_padding a v _ Hv), uwrap_small by lia. reflexivity.
Qed.

(** Encryption of the payloads [qs]: the other end decrypts them. *)
Lemma seal_payloads_spec (a : A) v (rng : option R) next len qs mid assoc plain : ae_view a = Some v -> (av_block v <= 256)%nat ->
  Forall sendable qs -> format_safe false qs = true -> 0 <= next < 256 ->
  encode_list (encode max_depth) (chain qs PL_NONE) = Some plain -> Z.of_nat (sealed_length v (length plain)) < 65536 ->
  let next' := match qs with [] => next | q :: _ => u8 (payload_type_value (get_type q)) end in
  let L := Z.of_nat (sealed_length v (length plain)) in
  exists status o' a' rng', encrypt junk a rng (Object (enc_p next len []) qs true false []) mid assoc
    = Some (status, o', a', rng') /\ (supplied a v rng (u64 (Z.shiftl mid 32)) -> status = SUCCESS) /\
    (status = SUCCESS -> exists c, o' = Object (enc_p next' L c) (chain qs PL_NONE) true false [] /\ bytes_ok c /\
      ae_view a' = Some v /\ (4 + length c)%nat = sealed_length v (length plain) /\
      forall b, ae_view b = Some v -> exists b',
        decrypt_content b c (assoc ++ payload_header (enc_p next' L c)) = Some (SUCCESS, Some plain, b') /\ ae_view b' = Some v).
Proof.
  intros Hv Hbs Hs Hf Hn He Hr next' L.
  destruct (chain_spec qs PL_NONE eq_refl Hs) as [Hs' _].
  assert (bytes_ok plain) as Hp by (by eapply encode_list_bytes).
  unfold encrypt. cbn [o_aead negb]. rewrite bool_decide_false by done.
  assert (exists g, enc_generate junk (Object (enc_p next len []) qs true false []) (generator_create junk)
    = Some (plain, g, Object (enc_p next' len []) (chain qs PL_NONE) true false [])) as [g Eg].
  { unfold enc_generate. cbn [o_payloads]. destruct qs as [|q qs]; [injection He as <-; by eexists|].
    destruct (generate_all_fresh junk (chain (q :: qs) PL_NONE) plain) as (g & Eg & Hg); [done|done|by rewrite format_safe_chain|].
    rewrite Eg. cbn [mbind option_bind]. exists g. by rewrite Hg. }
  rewrite Eg. cbn [mbind option_bind]. unfold append_header.
  rewrite (update_length_enc a v next' len _ plain) by done. fold L. cbn [o_p].
  destruct (encrypt_content_spec a v rng (u64 (Z.shiftl mid 32)) plain (assoc ++ payload_header (enc_p next' L []))) as
    (status & enc & a' & rng' & -> & Hsup & Hok); [done|done|done|].
  eexists _, _, _, _. split; [done|]. split; [exact Hsup|]. intros ->. destruct (Hok eq_refl) as (c & -> & Hc & Hv' & Hl & Hdec).
  exists c. split; [done|]. split; [done|]. split; [done|]. split; [unfold sealed_length; lia|]. exact Hdec.
Qed.
End Payload.

(** ** The header *)

Definition header_p (m : message) (id : ike_sa_id_t) (next len : Z) : payload :=
  Payload (Known PL_HEADER)
    [FInt (initiator_spi id); FInt (responder_spi id); FInt next; FInt 2; FInt (u8 (minor_version m));
     FInt (u8 (exchange_type m)); FBool (fst (reserved m)); FBool (snd (reserved m));
     FBool (negb (is_request m)); FBool (version_flag m); FBool (is_initiator id); FBool false; FBool false;
     FBool false; FInt (message_id m); FInt len].

Lemma create_header_p m id t : major_version m = 2 -> ike_sa_id m = Some id ->
  set_next_type (create_header m) t = header_p m id (u8 (payload_type_value t)) 28.
Proof. intros Hm Hi. unfold create_header. rewrite Hm, Hi. reflexivity. Qed.

(** The fields of the header are in the ranges of the message and the IKE SA. *)
Record header_ok (m : message) (id : ike_sa_id_t) : Prop := HeaderOk {
  ho_major : major_version m = 2;
  ho_minor : 0 <= minor_version m < 16;
  ho_exchange : 0 <= exchange_type m < 256;
  ho_mid : 0 <= message_id m < 2 ^ 32;
  ho_id : ike_sa_id m = Some id;
  ho_initiator : 0 < initiator_spi id < 2 ^ 64;
  ho_responder : 0 <= responder_spi id < 2 ^ 64;
}.

Lemma encode_header m id next : header_ok m id -> 0 <= next < 256 -> exists hb, length hb = 24%nat /\
  forall len, 0 <= len < 2 ^ 32 -> encode max_depth (header_p m id next len) = Some (hb ++ be_bytes 4 len).
Proof.
  intros Ho Hn. destruct Ho as [_ Hmin Hex Hmid _ Hi Hr].
  assert (u8 (minor_version m) = minor_version m) as Emin by (apply uwrap_small; lia).
  assert (u8 (exchange_type m) = exchange_type m) as Eex by (apply uwrap_small; lia).
  assert (exists fl, forall len, 0 <= len < 2 ^ 32 -> encode max_depth (header_p m id next len) =
    Some (le_image 8 (initiator_spi id) ++ le_image 8 (responder_spi id) ++ be_bytes 1 next ++ [] ++
          [16 * 2 + minor_version m] ++ be_bytes 1 (exchange_type m) ++ [] ++ [] ++ [] ++ [] ++ [] ++ [] ++ [] ++ [fl] ++
          be_bytes 4 (message_id m) ++ be_bytes 4 len ++ [])) as [fl He].
  { eexists. intros len Hlen. cbn [encode max_depth header_p class_of fields_of get_encoding_rules].
    unfold ike_header_encodings. rewrite Emin, Eex.
    eapply encode_rules_step; [cbn [encode_field]; by rewrite (proj2 (in_range_true _ _)) by lia|].
    eapply encode_rules_step; [cbn [encode_field]; by rewrite (proj2 (in_range_true _ _)) by lia|].
    apply encode_rules_int_intro; [done|done|done|].
    eapply encode_rules_step; [reflexivity|].
    eapply encode_rules_step; [cbn [encode_field]; by rewrite (proj2 (in_range_true _ _)) by lia|].
    apply encode_rules_int_intro; [done|cbn; lia|done|].
    do 8 (eapply encode_rules_step; [reflexivity|]).
    apply encode_rules_int_intro; [done|cbn; lia|done|]. apply encode_rules_int_intro; [done|cbn; lia|done|]. reflexivity. }
  exists (le_image 8 (initiator_spi id) ++ le_image 8 (responder_spi id) ++ be_bytes 1 next ++
          [16 * 2 + minor_version m] ++ be_bytes 1 (exchange_type m) ++ [fl] ++ be_bytes 4 (message_id m)).
  split; [len|]. intros len Hlen. rewrite (He len Hlen). cbn [app]. by rewrite <- !app_assoc, app_nil_r.
Qed.

(** A generator that has written the header [hb] and its length, and [rest]. *)
Definition wrote (g : generator) (hb : chunk) (len : Z) (rest : chunk) : Prop :=
  gen_at g (hb ++ be_bytes 4 len ++ rest) 0 0 false /\ g_header_length_offset g = length hb.

Lemma wrote_chunk g hb len rest : wrote g hb len rest -> fst (get_chunk g) = hb ++ be_bytes 4 len ++ rest.
Proof. intros [Hg _]. exact (ga_pre _ _ _ _ _ Hg). Qed.

Lemma put_length_wrote g hb len rest len' : wrote g hb len rest -> 0 <= len' < 2 ^ 32 -> wrote (put_length g len') hb len' rest.
Proof.
  intros [Hg Ho] Hl. unfold put_length. rewrite htoun32_be, uwrap_small by lia. split; [|done].
  pose proof (ga_pre _ _ _ _ _ Hg) as Hp. pose proof (ga_out _ _ _ _ _ Hg) as Hout. rewrite Ho.
  assert (g_out g = length (hb ++ be_bytes 4 len ++ rest)) as Hn by (rewrite <- Hp, length_take; lia).
  assert (g_buffer g = hb ++ be_bytes 4 len ++ rest ++ drop (g_out g) (g_buffer g)) as Hbuf.
  { rewrite <- (take_drop (g_out g) (g_buffer g)) at 1. rewrite Hp. by rewrite <- !app_assoc. }
  assert (splice (length hb) (be_bytes 4 len') (g_buffer g) = (hb ++ be_bytes 4 len' ++ rest) ++ drop (g_out g) (g_buffer g)) as Hs.
  { unfold splice. rewrite Hbuf at 1 2. rewrite take_app_length, drop_app_add. rewrite (drop_app_length' (be_bytes 4 len)) by len.
    by rewrite <- !app_assoc. }
  constructor; cbn [with_buffer g_bit g_out g_buffer]; [apply Hg| | |lia].
  - rewrite Hs. apply take_app_length'. rewrite Hn. len.
  - rewrite Hs. rewrite Hn in *. len.
Qed.

Lemma generate_header junk m id next : header_ok m id -> 0 <= next < 256 -> exists hb g,
  length hb = 24%nat /\
  (forall len, 0 <= len < 2 ^ 32 -> encode max_depth (header_p m id next len) = Some (hb ++ be_bytes 4 len)) /\
  generate_all junk (generator_create junk) [header_p m id next 28] = Some g /\ wrote g hb 28 [] /\
  g_attribute_format g = false.
Proof.
  intros Ho Hn. destruct (encode_header m id next Ho Hn) as (hb & Hl & He). exists hb.
  destruct (generate_payload_spec junk max_depth (Known PL_HEADER)) with (st := generator_create junk)
    (p := header_p m id next 28) (b := hb ++ be_bytes 4 28) (pre := @nil Z) as (g & Eg & Hg & [Hf _] & Hoff);
    [apply rank_pos|done|apply gen_at_create|by apply He|done|].
  exists g. split; [done|]. split; [done|]. cbn [generate_all]. rewrite Eg. split; [done|]. split; [|by rewrite Hf].
  split; [by rewrite app_nil_r|]. rewrite (Hoff eq_refl). len.
Qed.

(** Another payload behind the header. *)
Lemma generate_behind junk g hb len rest p b : wrote g hb len rest -> class_of p <> Known PL_HEADER ->
  (relies_on_format (class_of p) = true -> g_attribute_format g = false) -> encode max_depth p = Some b ->
  exists g', generate_payload junk max_depth g p = Some g' /\ wrote g' hb len (rest ++ b).
Proof.
  intros [Hg Ho] Hc Hr He.
  destruct (generate_payload_spec junk max_depth (class_of p)) with (st := g) (p := p) (b := b)
    (pre := hb ++ be_bytes 4 len ++ rest) as (g' & Eg & Hg' & [_ Hoff] & _); [apply rank_pos|done|done|done|done|].
  exists g'. split; [done|]. split; [by rewrite <- !app_assoc in Hg'|]. by rewrite Hoff.
Qed.

(** ** Generating *)
Section Generate.
Context {A : Type} `{AeadLaws A} {R : Type} `{RngLaws R} (junk : nat -> Z).

(** A packet that consists of a header and an encrypted payload with the payloads that
    [plain] encodes: the other end of the IKE SA decrypts it. *)
Record sealed (v : aead_view) (hb : chunk) (next : Z) (plain d c : chunk) : Prop := Sealed {
  sd_length : (4 + length c)%nat = sealed_length v (length plain);
  sd_bytes : bytes_ok c;
  sd_data : d = hb ++ be_bytes 4 (28 + Z.of_nat (4 + length c)) ++
                payload_header (enc_p next (Z.of_nat (4 + length c)) c) ++ c;
  sd_decrypt : forall b : A, ae_view b = Some v -> exists b',
    decrypt_content b c ((hb ++ be_bytes 4 (28 + Z.of_nat (4 + length c))) ++
                         payload_header (enc_p next (Z.of_nat (4 + length c)) c))
    = Some (SUCCESS, Some plain, b') /\ ae_view b' = Some v;
}.

Definition next_of (next : Z) (qs : list payload) : Z :=
  match qs with [] => next | q :: _ => u8 (payload_type_value (get_type q)) end.

Lemma finalize_spec m (km : keymat A) a v (rng : option R) g hb next len qs plain : aead_out km = Some a ->
  ae_view a = Some v -> (av_block v <= 256)%nat -> wrote g hb 28 [] -> length hb = 24%nat ->
  Forall sendable qs -> format_safe false qs = true -> 0 <= next < 256 ->
  encode_list (encode max_depth) (chain qs PL_NONE) = Some plain -> Z.of_nat (sealed_length v (length plain)) < 65536 ->
  exists status m' k' rng', finalize_message junk m (Some km) rng g (Some (Object (enc_p next len []) qs true false []))
    = Some (status, m', k', rng') /\
    (supplied a v rng (u64 (Z.shiftl (message_id m) 32)) -> status = SUCCESS) /\
    (status = SUCCESS -> (exists a', k' = Some (Keymat (aead_in km) (Some a')) /\ ae_view a' = Some v) /\
      exists c, sealed v hb (next_of next qs) plain (data m') c).
Proof.
  intros Ha Hv Hb Hg Hhb Hs Hf Hn He Hr. set (L := Z.of_nat (sealed_length v (length plain))) in *.
  destruct (sendable_list_encodes qs Hs) as [bs Hbs]. destruct (chain_length qs PL_NONE Hs bs Hbs) as (bs' & E' & Hlen).
  rewrite He in E'. injection E' as <-.
  assert (4 <= L) as HL by (unfold L, sealed_length; lia).
  assert (forall len, update_length a (Object (enc_p next len []) qs true false []) = Object (enc_p next L []) qs true false []) as Hu.
  { intros l. unfold L. rewrite Hlen. apply (update_length_enc a v); [done|done|done|]. by rewrite <- Hlen. }
  unfold finalize_message. cbn [mbind option_bind]. rewrite Ha. cbn [mbind option_bind].
  unfold object_length. rewrite !Hu. cbn [o_p]. change (int_field (enc_p next L []) "payload_length") with L.
  assert (chunk_len g = 28) as Hcl by (unfold chunk_len; rewrite (wrote_chunk _ _ _ _ Hg); len).
  rewrite Hcl. pose proof (put_length_wrote _ _ _ _ (28 + L) Hg ltac:(lia)) as Hg1.
  set (g1 := put_length g (28 + L)) in *. rewrite (wrote_chunk _ _ _ _ Hg1), app_nil_r.
  destruct (seal_payloads_spec junk a v rng next L qs (message_id m) (hb ++ be_bytes 4 (28 + L)) plain)
    as (status & o' & a' & rng' & -> & Hsup & Hok); try done. cbn [mbind option_bind].
  case_bool_decide as Hst; [|eexists _, _, _, _; split; [done|]; split; [intros Hx; by destruct (Hst (Hsup Hx))|done]].
  subst status.
  destruct (Hok eq_refl) as (c & -> & Hc & Hv' & Hlc & Hdec). fold L in Hdec, Hlc |- *. cbn [o_p].
  destruct (generate_behind junk g1 hb (28 + L) [] (enc_p (next_of next qs) L c)
    (payload_header (enc_p (next_of next qs) L c) ++ c)) as (g2 & Eg2 & Hg2); [done|done|done| |].
  { apply encode_enc_p; [|lia|lia|done]. unfold next_of. destruct qs; [done|]. apply (uwrap_range 8). lia. }
  change (match qs with [] => next | q :: _ => u8 (payload_type_value (get_type q)) end) with (next_of next qs).
  fold L. rewrite Eg2. cbn [mbind option_bind]. rewrite bool_decide_true by done. eexists _, _, _, _. split; [done|].
  split; [done|]. intros _. split; [by eexists|]. exists c. assert (Z.of_nat (4 + length c) = L) as HcL by (unfold L; lia).
  constructor; [done|done| |by rewrite HcL]. rewrite HcL. cbn [data set_data app] in *.
  rewrite (wrote_chunk (put_length g2 (chunk_len g2)) hb (28 + L) (payload_header (enc_p (next_of next qs) L c) ++ c)); [done|].
  assert (chunk_len g2 = 28 + L) as ->; [|apply (put_length_wrote _ _ _ _ _ Hg2); lia].
  unfold chunk_len. rewrite (wrote_chunk _ _ _ _ Hg2), !length_app, length_be_bytes.
  assert (length (payload_header (enc_p (next_of next qs) L c)) = 4%nat) as -> by reflexivity. lia.
Qed.
End Generate.

(** ** Wrapping *)

(** An encrypted payload that is being filled. *)
Definition filled (e : object) (ps : list payload) : Prop :=
  exists next len qs, e = Object (enc_p next len []) qs false false [] /\ 0 <= next < 256 /\
    (qs = [] -> next = 0) /\ Forall sendable qs /\ similar qs ps.

Lemma enc_add_filled e ps p : filled e ps -> sendable p -> filled (enc_add_payload e p) (ps ++ [p]).
Proof.
  intros (next & len & qs & -> & Hn & _ & Hs & Hsim) Hp. unfold enc_add_payload.
  cbn [o_payloads o_p o_aead o_from_plain o_plain with_p].
  assert (sendable (unlink p)) as Hu by (by apply sendable_next).
  assert (unlink (unlink p) = unlink p) as Huu by (apply unlink_next, Hp).
  destruct qs as [|q qs _] using rev_ind.
  - rewrite bool_decide_true by done. cbn [rev app o_p o_aead o_from_plain o_plain with_p].
    eexists _, _, [unlink p]. split; [reflexivity|]. split; [apply (uwrap_range 8); lia|]. split; [done|].
    split; [by constructor|]. destruct ps; [|done]. unfold similar. cbn. by rewrite Huu.
  - rewrite bool_decide_false by (by destruct qs). rewrite rev_app_distr. cbn [rev app]. rewrite rev_involutive.
    apply Forall_app in Hs as [Hs Hq]. inversion Hq as [|? ? Hqq _]; subst.
    eexists _, _, ((qs ++ [set_next_type q (get_type p)]) ++ [unlink p]). split; [reflexivity|]. split; [done|].
    split; [by destruct qs|]. split.
    + rewrite !Forall_app. split; [split; [done|]|]; (constructor; [|constructor]); [by apply sendable_next|done].
    + unfold similar in *. rewrite !fmap_app, <- Hsim, !fmap_app. cbn. by rewrite Huu, unlink_next by apply Hqq.
Qed.

Lemma wrap_loop_filled r l : Forall good l ->
  (forall o, o ∈ l -> match get_payload_rule r (object_type o) with Some pr => pr_encrypted pr | None => true end = true) ->
  forall m e ps, filled e ps -> exists e', wrap_loop r l m e = (m, e') /\ filled e' (ps ++ payloads_of l).
Proof.
  induction 1 as [|o l [Ho Hs] _ IH]; intros Henc m e ps He; cbn [wrap_loop]; [exists e; by rewrite app_nil_r|].
  rewrite (Henc o ltac:(left)). cbn [orb].
  destruct (IH (fun o' Hin => Henc o' ltac:(by right)) m _ _ (enc_add_filled _ _ _ He Hs)) as (e' & -> & He').
  exists e'. split; [done|]. by rewrite <- app_assoc in He'.
Qed.

Lemma good_not_fragment l : Forall good l -> List.filter is_fragment l = [] /\ List.filter (fun o => negb (is_fragment o)) l = l.
Proof.
  induction 1 as [|o l [_ [Ht _ _]] _ [IH1 IH2]]; [done|]. cbn [List.filter].
  assert (is_fragment o = false) as ->.
  { unfold is_fragment, object_type. apply bool_decide_eq_false. intros E. by rewrite E in Ht. }
  cbn [negb]. by rewrite IH1, IH2.
Qed.

Lemma wrap_payloads_filled r m : Forall good (payloads m) -> forallb pr_encrypted (mr_rules r) = true ->
  exists e, wrap_payloads r m = (set_payloads m [], e) /\ filled e (payloads_of (payloads m)).
Proof.
  intros Hg Hr. unfold wrap_payloads. destruct (good_not_fragment _ Hg) as [-> ->]. cbn [list.last].
  apply (wrap_loop_filled r (payloads m) Hg) with (ps := @nil payload).
  - intros o _. unfold get_payload_rule. destruct (find _ _) as [pr|] eqn:E; [|done]. apply find_some in E as [Hin _].
    rewrite forallb_forall in Hr. by apply Hr.
  - exists 0, 4, []. done.
Qed.

(** ** Generating a message *)

Lemma frame_fields m m' : frame m = frame m' ->
  major_version m = major_version m' /\ minor_version m = minor_version m' /\ exchange_type m = exchange_type m' /\
  is_request m = is_request m' /\ version_flag m = version_flag m' /\ reserved m = reserved m' /\
  message_id m = message_id m' /\ ike_sa_id m = ike_sa_id m'.
Proof.
  intros E. split; [exact (f_equal major_version E)|]. split; [exact (f_equal minor_version E)|].
  split; [exact (f_equal exchange_type E)|]. split; [exact (f_equal is_request E)|].
  split; [exact (f_equal version_flag E)|]. split; [exact (f_equal reserved E)|].
  split; [exact (f_equal message_id E)|exact (f_equal ike_sa_id E)].
Qed.

Lemma frame_header m m' id next len : frame m = frame m' -> header_p m id next len = header_p m' id next len.
Proof. intros (_ & E1 & E2 & E3 & E4 & E5 & E6 & _)%frame_fields. unfold header_p. by rewrite E1, E2, E3, E4, E5, E6. Qed.

Lemma frame_ok m m' id : frame m = frame m' -> header_ok m id -> header_ok m' id.
Proof.
  intros (E1 & E2 & E3 & _ & _ & _ & E4 & E5)%frame_fields [? ? ? ? ? ? ?].
  constructor; congruence || (rewrite <- ?E2, <- ?E3, <- ?E4; done).
Qed.

(** The message as it is generated, before the payloads are encrypted. *)
Definition ordered (m : message) (r : message_rule_t) : message := sort_payloads (set_rule m (Some r)) r.

(** The payloads in the order in which they are sent. *)
Definition in_order (m : message) (r : message_rule_t) (os : list object) : list object :=
  if sort_disabled m then os else arrange (mr_order r) os.

Lemma in_order_perm m r os : in_order m r os ≡ₚ os.
Proof. unfold in_order. destruct (sort_disabled m); [done|apply arrange_perm]. Qed.

Lemma ordered_holds m r : Forall good (payloads m) ->
  holds (set_rule m (Some r)) (in_order m r (payloads m)) (ordered m r).
Proof.
  intros Hg. unfold ordered, sort_payloads, in_order. change (sort_disabled (set_rule m (Some r))) with (sort_disabled m).
  destruct (sort_disabled m); [by constructor|]. by apply (order_payloads_holds (set_rule m (Some r)) r).
Qed.

Section Message.
Context {A : Type} `{AeadLaws A} {R : Type} `{RngLaws R} (junk : nat -> Z).

(** What is needed to send the message [m] with the payloads [ps]. *)
Record ready_to_send (m : message) (r : message_rule_t) (id : ike_sa_id_t) (ps : list payload) (v : aead_view) : Prop := ReadyToSend {
  rs_header : header_ok m id;
  rs_exchange : exchange_type m ∈ [IKE_AUTH; CREATE_CHILD_SA; INFORMATIONAL];
  rs_rule : get_message_rule (exchange_type m) (is_request m) = Some r;
  rs_plain : is_encrypted m = false;
  rs_hosts : source m <> None /\ destination m <> None;
  rs_payloads : payloads m = ordinary <$> ps;
  rs_sendable : Forall sendable ps;
  rs_format : format_safe false (payloads_of (payloads (ordered m r))) = true;
  rs_block : (av_block v <= 256)%nat;
  rs_size : Z.of_nat (sealed_length v (Z.to_nat (total_length ps))) < 65536;
}.

Lemma protected_rule_encrypted m r : exchange_type m ∈ [IKE_AUTH; CREATE_CHILD_SA; INFORMATIONAL] ->
  get_message_rule (exchange_type m) (is_request m) = Some r ->
  mr_encrypted r = true /\ forallb pr_encrypted (mr_rules r) = true.
Proof.
  intros He Hr. apply list_elem_of_In in He. destruct He as [E|[E|[E|[]]]]; rewrite <- E in Hr;
    destruct (is_request m); injection Hr as <-; by split.
Qed.

Lemma generate_payloads_eq m r (km : keymat A) a m' e id g : mr_encrypted r = true -> aead_out km = Some a ->
  wrap_payloads r m = (m', e) -> ike_sa_id m' = Some id -> payloads m' = [] -> object_type e = PLV2_ENCRYPTED ->
  generate_all junk (generator_create junk) [set_next_type (create_header m') PLV2_ENCRYPTED] = Some g ->
  generate_payloads junk m r (Some km) = Some (SUCCESS, m', Some (g, Some (set_transform e))).
Proof.
  intros Hre Ha Hw Hid Hp Ht Hg. unfold generate_payloads. cbn [mbind option_bind].
  rewrite Ha, Hre, Hw, Hid, Hp. cbn [mbind option_bind fmap list_fmap chain]. change (object_type (set_transform e)) with (object_type e).
  rewrite Ht, Hg. cbn [mbind option_bind drop zip_with]. rewrite <- Hp at 1. by rewrite set_payloads_id.
Qed.

Lemma generate_message_eq m r (km : keymat A) : get_message_rule (exchange_type m) (is_request m) = Some r ->
  exchange_type m <> EXCHANGE_TYPE_UNDEFINED -> source m <> None -> destination m <> None ->
  major_version (ordered m r) = 2 -> is_encrypted (ordered m r) = false ->
  generate_message junk m (Some km) = generate_payloads junk (ordered m r) r (Some km).
Proof.
  intros Hr Hex Hsrc Hdst Hm Hpl. unfold generate_message. rewrite (proj2 (Z.eqb_neq _ _) Hex), !bool_decide_false by done.
  cbn [orb]. rewrite Hr. unfold ordered in *. rewrite Hm, Hpl.
  assert (negb (2 =? 2) || false = false) as -> by reflexivity. reflexivity.
Qed.

Lemma generate_message_spec m r id ps v (km : keymat A) a : ready_to_send m r id ps v -> aead_out km = Some a ->
  exists m1 e g hb qs, generate_message junk m (Some km) = Some (SUCCESS, m1, Some (g, Some (set_transform e))) /\
    (exists next len, e = Object (enc_p next len []) qs false false [] /\ 0 <= next < 256 /\ (qs = [] -> next = 0)) /\
    length hb = 24%nat /\ wrote g hb 28 [] /\
    (forall len, 0 <= len < 2 ^ 32 -> encode max_depth (header_p m id 46 len) = Some (hb ++ be_bytes 4 len)) /\
    Forall sendable qs /\ format_safe false qs = true /\ similar qs (payloads_of (in_order m r (payloads m))) /\
    message_id m1 = message_id m.
Proof.
  intros Hrs Ha. destruct Hrs as [Hh Hex Hr Hpl [Hsrc Hdst] Hps Hs Hf _ _].
  destruct (protected_rule_encrypted m r Hex Hr) as [Hre Hrp].
  assert (Forall good (payloads m)) as Hg by (rewrite Hps; apply Forall_fmap; eapply Forall_impl; [exact Hs|apply good_ordinary]).
  destruct (ordered_holds m r Hg) as [Hg1 Hsim Hfr].
  remember (ordered m r) as m1 eqn:Eord.
  destruct (wrap_payloads_filled r m1 Hg1 Hrp) as (e & Hw & next & len & qs & He & Hn & Hn0 & Hqs & Hq).
  assert (header_ok (set_rule m (Some r)) id) as Hh0 by (destruct Hh; by constructor).
  assert (header_ok m1 id) as Hh1 by (apply (frame_ok (set_rule m (Some r))); [by symmetry|done]).
  assert (header_ok (set_payloads m1 []) id) as Hh2 by (destruct Hh1; by constructor).
  destruct (generate_header junk (set_payloads m1 []) id 46 Hh2) as (hb & g & Hhb & Henc & Hgen & Hwr & _); [done|].
  exists (set_payloads m1 []), e, g, hb, qs. split.
  { rewrite (generate_message_eq m r km Hr); [rewrite <- Eord| |done|done|rewrite <- Eord; apply Hh1
      |rewrite <- Hpl, <- Eord; exact (f_equal is_encrypted Hfr)].
    - apply (generate_payloads_eq m1 r km a _ e id g Hre Ha Hw); [apply Hh1|reflexivity|by rewrite He|].
      rewrite (create_header_p _ id PLV2_ENCRYPTED); [exact Hgen|apply Hh2|apply Hh2].
    - intros E. rewrite E in Hex. apply list_elem_of_In in Hex. destruct Hex as [X|[X|[X|[]]]]; discriminate X. }
  split; [exists next, len; split; [exact He|split; [exact Hn|exact Hn0]]|]. split; [exact Hhb|]. split; [exact Hwr|]. split.
  { intros l Hl. rewrite <- (Henc l Hl). f_equal. transitivity (header_p (set_rule m (Some r)) id 46 l); [reflexivity|].
    transitivity (header_p m1 id 46 l); [|reflexivity]. apply frame_header. symmetry. exact Hfr. }
  split; [exact Hqs|]. split; [by rewrite (format_safe_similar _ _ _ Hq)|]. split; [exact (eq_trans Hq Hsim)|].
  exact (f_equal message_id Hfr).
Qed.
End Message.

(** ** Parsing what was generated *)

Lemma set_next_same p t : sendable p -> get_next_type p = t -> set_next_type p t = p.
Proof.
  intros [Ht [b He] _] <-. pose proof (sendable_class p Ht) as Hc. rewrite (set_next_v2 _ _ _ Hc Ht).
  rewrite (get_next_assigned p _ _ Hc Ht eq_refl), payload_type_of_value.
  pose proof (encode_typed _ _ _ He) as Hw. pose proof (typed_next _ _ Hw) as Hn.
  rewrite uwrap_small by lia. apply assign_id.
  destruct (tables_next (class_of p)) as [Hno|Hin].
  - exfalso. rewrite Hc in Hno. by destruct (get_type p).
  - destruct (typed_field _ _ _ _ Hw Hin) as (f & Hf & Hok). unfold int_field. rewrite Hf. by destruct f.
Qed.

Lemma extract_loop_linked ps : Forall sendable ps -> linked ps PL_NONE -> forall m pre,
  payloads m = ordinary <$> pre ->
  (pre = [] \/ exists pre' p, pre = pre' ++ [p] /\ sendable p /\ get_next_type p = head_type ps PL_NONE) ->
  payloads (extract_loop ps m) = ordinary <$> (pre ++ ps) /\ frame (extract_loop ps m) = frame m.
Proof.
  induction 1 as [|p ps Hp _ IH]; intros Hl m pre Hm Hpre; cbn [extract_loop]; [by rewrite app_nil_r|].
  destruct Hl as [Hn Hl]. set (m1 := if bool_decide _ then _ else _).
  assert (payloads m1 = payloads m /\ frame m1 = frame m) as [E1 E2].
  { unfold m1. case_bool_decide as Hlen; [done|]. split; [|done]. cbn [payloads set_payloads].
    destruct Hpre as [->|(pre' & q & -> & Hq & Hqn)]; [by rewrite Hm in Hlen|].
    rewrite Hm, fmap_app. cbn [fmap list_fmap]. rewrite change_last_app. f_equal. f_equal.
    unfold object_set_next. cbn [o_p ordinary with_p]. by rewrite (set_next_same q (get_type p)). }
  clearbody m1. destruct (IH Hl (set_payloads m1 (payloads m1 ++ [ordinary p])) (pre ++ [p])) as [E3 E4].
  - cbn [payloads set_payloads]. by rewrite E1, Hm, fmap_app.
  - right. by exists pre, p.
  - rewrite <- app_assoc in E3. split; [exact E3|]. rewrite E4. exact E2.
Qed.

Lemma chain_next_of qs : Forall sendable qs -> payload_type_of (next_of 0 qs) = head_type qs PL_NONE.
Proof. destruct 1 as [|q qs Hq _]; [done|]. cbn [next_of head_type]. apply v2_chain_type, Hq. Qed.

Section Parse.
Context {A : Type} `{AeadLaws A} (accept_mm : bool).

(** The list of chained payloads is found in its encoding. *)
Lemma enc_parse_chain o qs plain : get_next_type (o_p o) = head_type qs PL_NONE -> o_payloads o = [] ->
  Forall sendable qs -> encode_list (encode max_depth) (chain qs PL_NONE) = Some plain ->
  enc_parse o plain = Some (SUCCESS, Object (o_p o) (chain qs PL_NONE) (o_aead o) (o_from_plain o) (o_plain o)).
Proof.
  intros Hn Ho Hs He. destruct (chain_spec qs PL_NONE eq_refl Hs) as [Hs' Hl]. unfold enc_parse.
  rewrite Hn, Ho, <- (chain_head_type qs PL_NONE).
  rewrite (parse_loop_linked plain (chain qs PL_NONE)) with (tail := @nil Z) (bs := plain); [done| |done|done| | |done|done|].
  - destruct (chain qs PL_NONE) as [|p ps] eqn:E; [by right|left]. inversion Hs' as [|? ? Hp _]; subst.
    apply encode_list_cons in He as (b & bs' & Hb & _ & ->). by eapply sendable_announces.
  - pose proof (chain_encodes_length (chain qs PL_NONE) plain Hs' He). lia.
  - split; [done|]. by apply (encode_list_bytes _ _ He).
  - cbn. by rewrite app_nil_r.
Qed.

Lemma decrypt_sealed (b : A) v hb qs plain d c m st (km : keymat A) : ae_view b = Some v -> length hb = 24%nat ->
  sealed v hb (next_of 0 qs) plain d c -> Forall sendable qs ->
  encode_list (encode max_depth) (chain qs PL_NONE) = Some plain -> Z.of_nat (sealed_length v (length plain)) < 65536 ->
  aead_in km = Some b -> data m = d -> m_parser m = Some st ->
  exists b', decrypt_and_extract m (Some km) (ordinary (enc_p (next_of 0 qs) (Z.of_nat (4 + length c)) c)) =
    Some (SUCCESS, extract_loop (chain qs PL_NONE) m, Some (Keymat (Some b') (aead_out km))) /\ ae_view b' = Some v.
Proof.
  intros Hv Hhb Hsd Hs He Hr Hk Hm Hst. destruct (sd_decrypt _ _ _ _ _ _ Hsd b Hv) as (b' & Ed & Hv').
  pose proof (sd_length _ _ _ _ _ _ Hsd) as Hl. pose proof (sd_data _ _ _ _ _ _ Hsd) as Hd.
  remember (Z.of_nat (4 + length c)) as L eqn:HL. remember (next_of 0 qs) as next eqn:Hnext.
  set (e := set_transform (ordinary (enc_p next L c))).
  destruct (ae_sizes b v Hv) as (Hbs & _ & _ & Hb0 & _). pose proof (padding_range (av_block v) (length plain) Hb0) as Hpad.
  assert (c <> []) as Hc by (intros ->; unfold sealed_length in Hl; cbn in Hl; lia).
  assert (length (payload_header (enc_p next L c)) = 4%nat) as Hph by reflexivity.
  assert (update_length b e = e) as Hu.
  { apply (update_length_received b e (payload_header (enc_p next L c))); [by left|exact Hc|by rewrite Hph|..].
    - change (get_field (enc_p next L c) "payload_length" = Some (FInt (Z.of_nat (length (payload_header (enc_p next L c) ++ c))))).
      rewrite length_app, Hph, <- HL. reflexivity.
    - change (Z.of_nat (length (payload_header (enc_p next L c) ++ c)) < 65536). rewrite length_app, Hph. lia. }
  assert (length d = (28 + (4 + length c))%nat) as Hdl by (rewrite Hd, !length_app, Hph, length_be_bytes; lia).
  unfold decrypt_and_extract. rewrite Hk, Hst, Hm. fold e. unfold object_length. rewrite !Hu.
  change (int_field (o_p e) "payload_length") with L. rewrite Hbs.
  assert ((Z.of_nat (length d) <? L) || (Z.of_nat (length d) <? Z.of_nat (av_block v)) = false) as ->.
  { pose proof (padding_divides (av_block v) (length plain) Hb0) as Hdiv.
    apply Nat.divide_pos_le in Hdiv; [|lia]. unfold sealed_length in Hl. lia. }
  assert (load d 0 (Z.of_nat (length d) - L) = Some (hb ++ be_bytes 4 (28 + L))) as ->.
  { rewrite load_within by lia. f_equal. rewrite drop_0. rewrite Hd at 2. rewrite app_assoc. apply take_app_length'. rewrite length_app, length_be_bytes. lia. }
  cbn [mbind option_bind]. unfold EncryptedPayload.decrypt, append_header. rewrite Hu.
  change (o_from_plain e) with false. change (o_aead e) with true. cbn [negb].
  change (chunk_field (o_p e) "encrypted") with c. change (payload_header (o_p e)) with (payload_header (enc_p next L c)).
  rewrite Ed. cbn [mbind option_bind]. rewrite bool_decide_false by discriminate.
  rewrite (enc_parse_chain e qs plain); [|by rewrite <- chain_next_of, <- Hnext|reflexivity|exact Hs|exact He].
  cbn [mbind option_bind]. rewrite bool_decide_true by reflexivity. exists b'. split; [reflexivity|exact Hv'].
Qed.

(** The header of a generated message, parsed. *)
Record header_back (m : message) (id : ike_sa_id_t) (d rest : chunk) (m1 : message) : Prop := HeaderBack {
  hb_major : major_version m1 = 2;
  hb_exchange : exchange_type m1 = exchange_type m;
  hb_request : is_request m1 = is_request m;
  hb_mid : message_id m1 = message_id m;
  hb_id : ike_sa_id m1 = Some id;
  hb_first : first_payload m1 = PLV2_ENCRYPTED;
  hb_payloads : payloads m1 = [];
  hb_encrypted : is_encrypted m1 = false;
  hb_data : data m1 = d;
  hb_parser : exists st, m_parser m1 = Some st /\ at_byte st /\ p_rest st = rest /\ p_major_version st = 2;
}.

Lemma header_verify_ok m id next len : header_ok m id -> exchange_type m ∈ [IKE_AUTH; CREATE_CHILD_SA; INFORMATIONAL] ->
  verify max_depth (header_p m id next len) = Some (SUCCESS, header_p m id next len).
Proof.
  intros Hh Hex. cbn [verify max_depth header_p class_of]. do 2 f_equal. unfold header_verify.
  change (int_field (header_p m id next len) "exchange_type") with (u8 (exchange_type m)).
  change (int_field (header_p m id next len) "maj_version") with 2.
  change (int_field (header_p m id next len) "initiator_spi") with (initiator_spi id).
  assert ((initiator_spi id =? 0) = false) as -> by (pose proof (ho_initiator _ _ Hh); lia).
  apply list_elem_of_In in Hex. destruct Hex as [<-|[<-|[<-|[]]]]; reflexivity.
Qed.

Lemma parse_header_back m id hb len rest src dst : header_ok m id ->
  exchange_type m ∈ [IKE_AUTH; CREATE_CHILD_SA; INFORMATIONAL] ->
  encode max_depth (header_p m id 46 len) = Some (hb ++ be_bytes 4 len) -> bytes_ok rest ->
  exists m1, parse_header (message_create_from_packet src dst ((hb ++ be_bytes 4 len) ++ rest)) = Some (SUCCESS, m1) /\
    header_back m id ((hb ++ be_bytes 4 len) ++ rest) rest m1.
Proof.
  intros Hh Hex He Hr. set (d := (hb ++ be_bytes 4 len) ++ rest).
  assert (at_byte (reset_context (parser_create d))) as Hst.
  { split; [reflexivity|]. apply Forall_app. split; [by eapply encode_bytes_ok|exact Hr]. }
  destruct (parse_one _ PL_HEADER (header_p m id 46 len) (hb ++ be_bytes 4 len) rest Hst) as (st & E & Hst' & Hrest & _);
    [reflexivity|exact He|reflexivity|discriminate|].
  unfold parse_header. change (m_parser (message_create_from_packet src dst d)) with (Some (parser_create d)).
  cbn iota beta. rewrite E, (header_verify_ok m id 46 len Hh Hex). cbn [mbind option_bind]. rewrite bool_decide_true by reflexivity. cbn [negb].
  eexists. split; [reflexivity|]. assert (u8 (exchange_type m) = exchange_type m) as Eex
    by (apply uwrap_small; apply Hh). constructor.
  - reflexivity.
  - exact Eex.
  - apply negb_involutive.
  - reflexivity.
  - by destruct id.
  - reflexivity.
  - reflexivity.
  - reflexivity.
  - reflexivity.
  - eexists. split; [reflexivity|]. split; [exact Hst'|]. split; [exact Hrest|reflexivity].
Qed.

Lemma payloads_loop_encrypted st p b fuel : at_byte st -> p_rest st = b -> p_major_version st = 2 ->
  encode max_depth p = Some b -> class_of p = Known PLV2_ENCRYPTED ->
  exists st', payloads_loop (S fuel) st PLV2_ENCRYPTED [] = Some (SUCCESS, [ordinary p], st').
Proof.
  intros Hst Hr Hm He Hc.
  destruct (parse_one st PLV2_ENCRYPTED p b []) as (st' & E & _); [exact Hst|by rewrite app_nil_r|exact He| |discriminate|].
  { rewrite Hm, Hc. reflexivity. }
  exists st'. cbn [payloads_loop]. rewrite bool_decide_false by discriminate. rewrite E.
  assert (verify max_depth p = Some (SUCCESS, p)) as -> by (cbn [verify max_depth]; by rewrite Hc).
  cbn [mbind option_bind]. rewrite bool_decide_true by reflexivity. cbn [negb]. by rewrite (bool_decide_true (PLV2_ENCRYPTED = PLV2_ENCRYPTED)).
Qed.

Lemma parse_body_back m r id hb qs plain d c m1 (km : keymat A) b v : header_back m id d
    (payload_header (enc_p (next_of 0 qs) (Z.of_nat (4 + length c)) c) ++ c) m1 ->
  get_message_rule (exchange_type m) (is_request m) = Some r ->
  ae_view b = Some v -> length hb = 24%nat -> sealed v hb (next_of 0 qs) plain d c -> Forall sendable qs ->
  encode_list (encode max_depth) (chain qs PL_NONE) = Some plain -> Z.of_nat (sealed_length v (length plain)) < 65536 ->
  aead_in km = Some b ->
  exists m2 k2, parse_body accept_mm m1 (Some km) =
      Some (verify_rules (mr_rules r) (ordinary <$> chain qs PL_NONE) false, m2, k2) /\
    payloads m2 = ordinary <$> chain qs PL_NONE /\ exchange_type m2 = exchange_type m /\ is_request m2 = is_request m /\
    message_id m2 = message_id m /\ ike_sa_id m2 = Some id.
Proof.
  intros Hb Hr Hv Hhb Hsd Hs He Hlt Hk. destruct (hb_parser _ _ _ _ _ Hb) as (st & Hst & Hat & Hrest & Hmaj).
  pose proof (sd_length _ _ _ _ _ _ Hsd) as Hlc.
  assert (0 <= next_of 0 qs < 256) as Hnx by (destruct qs; [done|apply (uwrap_range 8); lia]).
  set (P := enc_p (next_of 0 qs) (Z.of_nat (4 + length c)) c) in *.
  destruct (payloads_loop_encrypted st P _ (length (p_rest st)) Hat Hrest Hmaj) as [st' El]; [|reflexivity|].
  { apply encode_enc_p; [exact Hnx|lia|lia|apply Hsd]. }
  unfold parse_body. rewrite (hb_exchange _ _ _ _ _ Hb), (hb_request _ _ _ _ _ Hb), Hr.
  change (rule (set_rule m1 (Some r))) with (Some r). change (m_parser (set_rule m1 (Some r))) with (m_parser m1).
  cbn iota beta. rewrite Hst. unfold parse_payloads.
  change (is_encrypted (set_rule m1 (Some r))) with (is_encrypted m1).
  change (first_payload (set_rule m1 (Some r))) with (first_payload m1).
  change (payloads (set_rule m1 (Some r))) with (payloads m1).
  rewrite (hb_encrypted _ _ _ _ _ Hb), (hb_first _ _ _ _ _ Hb), (hb_payloads _ _ _ _ _ Hb), El.
  cbn [mbind option_bind]. rewrite bool_decide_true by reflexivity. cbn [negb].
  unfold decrypt_payloads, seq_of. rewrite decrypt_loop_spec by lia.
  set (m2 := set_parser (set_payloads (set_rule m1 (Some r)) [ordinary P]) (Some st')).
  change (payloads m2) with [ordinary P]. cbn [decrypt_spec].
  change (object_type (ordinary P)) with PLV2_ENCRYPTED. rewrite bool_decide_false by discriminate.
  rewrite bool_decide_true by reflexivity.
  destruct (decrypt_sealed b v hb qs plain d c (set_payloads m2 []) st' km) as (b' & Edec & _);
    [exact Hv|exact Hhb|exact Hsd|exact Hs|exact He|exact Hlt|exact Hk|apply Hb|reflexivity|]. fold P in Edec. rewrite Edec.
  destruct (chain_spec qs PL_NONE eq_refl Hs) as [Hs' Hl'].
  destruct (extract_loop_linked (chain qs PL_NONE) Hs' Hl' (set_payloads m2 []) [] eq_refl) as [Ep Ef]; [by left|].
  cbn [mbind option_bind]. rewrite bool_decide_true by reflexivity. cbn [negb]. rewrite Ep.
  eexists _, _. split; [reflexivity|]. split; [exact Ep|]. apply frame_fields in Ef as (_ & _ & E1 & E2 & _ & _ & E3 & E4).
  rewrite E1, E2, E3, E4. split; [apply Hb|]. split; [apply Hb|]. split; apply Hb.
Qed.

(** The header and the body of a generated message. *)
Lemma parse_generated m r id hb qs plain d c src dst (km : keymat A) b v : header_ok m id ->
  exchange_type m ∈ [IKE_AUTH; CREATE_CHILD_SA; INFORMATIONAL] ->
  get_message_rule (exchange_type m) (is_request m) = Some r ->
  ae_view b = Some v -> length hb = 24%nat -> sealed v hb (next_of 0 qs) plain d c -> Forall sendable qs ->
  encode_list (encode max_depth) (chain qs PL_NONE) = Some plain -> Z.of_nat (sealed_length v (length plain)) < 65536 ->
  aead_in km = Some b ->
  (forall len, 0 <= len < 2 ^ 32 -> encode max_depth (header_p m id 46 len) = Some (hb ++ be_bytes 4 len)) ->
  exists m1 m2 k2, parse_header (message_create_from_packet src dst d) = Some (SUCCESS, m1) /\ major_version m1 = 2 /\
    parse_body accept_mm m1 (Some km) = Some (verify_rules (mr_rules r) (ordinary <$> chain qs PL_NONE) false, m2, k2) /\
    payloads m2 = ordinary <$> chain qs PL_NONE /\ exchange_type m2 = exchange_type m /\ is_request m2 = is_request m /\
    message_id m2 = message_id m /\ ike_sa_id m2 = Some id.
Proof.
  intros Hh Hex Hr Hvb Hhb Hsd Hqs He Hsz Hb Henc.
  pose proof (sd_length _ _ _ _ _ _ Hsd) as Hlc. pose proof (sd_data _ _ _ _ _ _ Hsd) as Hd.
  set (P := enc_p (next_of 0 qs) (Z.of_nat (4 + length c)) c) in *. rewrite app_assoc in Hd.
  destruct (parse_header_back m id hb (28 + Z.of_nat (4 + length c)) (payload_header P ++ c) src dst) as (m2 & Eh & Hback);
    [exact Hh|exact Hex|apply Henc; lia| |].
  { apply (encode_bytes_ok max_depth P). apply encode_enc_p; [|lia|lia|apply Hsd].
    destruct qs; [done|apply (uwrap_range 8); lia]. }
  rewrite <- Hd in Eh, Hback.
  destruct (parse_body_back m r id hb qs plain d c m2 km b v Hback Hr Hvb Hhb Hsd Hqs He Hsz Hb) as (m3 & k3 & Ebody & Hrest).
  exists m2, m3, k3. split; [exact Eh|]. split; [apply Hback|]. split; [exact Ebody|exact Hrest].
Qed.
End Parse.

(** ** Theorems *)

Lemma chained_length ps qs plain : Forall sendable ps -> Forall sendable qs -> (unlink <$> qs) ≡ₚ (unlink <$> ps) ->
  encode_list (encode max_depth) (chain qs PL_NONE) = Some plain -> length plain = Z.to_nat (total_length ps).
Proof.
  intros Hp Hq Hperm He. destruct (chain_spec qs PL_NONE eq_refl Hq) as [Hq' _].
  rewrite <- (total_length_unlink ps Hp), <- (total_length_perm _ _ Hperm), <- (unlink_chain qs PL_NONE Hq),
    (total_length_unlink _ Hq'), (total_length_encode _ _ Hq' He). lia.
Qed.

Lemma message_sealed {A : Type} `{AeadLaws A} {R : Type} `{RngLaws R} junk accept_mm src dst m r id ps v
    (km km' : keymat A) a b (rng : option R) :
  ready_to_send m r id ps v -> verify_rules (mr_rules r) (payloads m) false = SUCCESS ->
  aead_out km = Some a -> ae_view a = Some v -> aead_in km' = Some b -> ae_view b = Some v ->
  exists status m' k' rng', generate junk m (Some km) rng = Some (status, m', k', rng') /\
    (supplied a v rng (u64 (Z.shiftl (message_id m) 32)) -> status = SUCCESS) /\
    (status = SUCCESS -> (exists a', k' = Some (Keymat (aead_in km) (Some a')) /\ ae_view a' = Some v) /\
     exists m1 m2 k2 qs,
      parse_header (message_create_from_packet src dst (data m')) = Some (SUCCESS, m1) /\ major_version m1 = 2 /\
      parse_body accept_mm m1 (Some km') = Some (SUCCESS, m2, k2) /\
      payloads m2 = ordinary <$> qs /\ similar qs (payloads_of (in_order m r (payloads m))) /\ linked qs PL_NONE /\
      exchange_type m2 = exchange_type m /\ is_request m2 = is_request m /\
      message_id m2 = message_id m /\ ike_sa_id m2 = Some id).
Proof.
  intros Hrs Hver Ha Hva Hb Hvb.
  destruct (generate_message_spec junk m r id ps v km a Hrs Ha) as
    (m1 & e & g & hb & qs & Eg & (next & len & -> & Hn & Hn0) & Hhb & Hwr & Henc & Hqs & Hfs & Hsim & Hmid).
  assert ((unlink <$> qs) ≡ₚ (unlink <$> ps)) as Hperm.
  { unfold similar in Hsim. rewrite Hsim, (rs_payloads _ _ _ _ _ Hrs). unfold payloads_of.
    rewrite (in_order_perm m r). change (o_p <$> (ordinary <$> ps)) with (payloads_of (ordinary <$> ps)).
    by rewrite payloads_of_ordinary. }
  pose proof (rs_sendable _ _ _ _ _ Hrs) as Hps. destruct (chain_spec qs PL_NONE eq_refl Hqs) as [Hqs' Hlk].
  destruct (sendable_list_encodes _ Hqs') as [plain He]. pose proof (rs_size _ _ _ _ _ Hrs) as Hsz.
  rewrite <- (chained_length ps qs plain Hps Hqs Hperm He) in Hsz.
  assert (next_of next qs = next_of 0 qs) as Hnx by (destruct qs; [apply Hn0; reflexivity|reflexivity]).
  destruct (finalize_spec junk m1 km a v rng g hb next len qs plain Ha Hva (rs_block _ _ _ _ _ Hrs) Hwr Hhb Hqs Hfs Hn He Hsz)
    as (status & m' & k' & rng' & Ef & Hsup & Hok). rewrite Hmid in Hsup.
  exists status, m', k', rng'. unfold generate. rewrite Eg. cbn [mbind option_bind].
  split; [exact Ef|]. split; [exact Hsup|]. intros Hs. destruct (Hok Hs) as (Hk' & c & Hsd). rewrite Hnx in Hsd.
  split; [exact Hk'|].
  destruct (parse_generated accept_mm m r id hb qs plain (data m') c src dst km' b v) as (m2 & m3 & k3 & Eh & Emaj & Ebody & Epl & Hrest);
    [apply Hrs|apply Hrs|apply Hrs|exact Hvb|exact Hhb|exact Hsd|exact Hqs|exact He|exact Hsz|exact Hb|exact Henc|].
  exists m2, m3, k3, (chain qs PL_NONE). split; [exact Eh|]. split; [exact Emaj|]. split.
  { rewrite Ebody. f_equal. f_equal. f_equal. rewrite <- Hver. apply verify_rules_types.
    rewrite (rs_payloads _ _ _ _ _ Hrs), !types_unlink, (unlink_chain qs PL_NONE Hqs). by rewrite Hperm. }
  split; [exact Epl|]. split; [unfold similar; by rewrite (unlink_chain qs PL_NONE Hqs)|]. split; [exact Hlk|exact Hrest].
Qed.

Lemma message_roundtrip {A : Type} `{AeadLaws A} {R : Type} `{RngLaws R} junk accept_mm src dst m r id ps v
    (km km' : keymat A) a b (rng : option R) :
  ready_to_send m r id ps v -> verify_rules (mr_rules r) (payloads m) false = SUCCESS ->
  aead_out km = Some a -> ae_view a = Some v -> aead_in km' = Some b -> ae_view b = Some v ->
  exists status m' k' rng', generate junk m (Some km) rng = Some (status, m', k', rng') /\
    (supplied a v rng (u64 (Z.shiftl (message_id m) 32)) -> status = SUCCESS) /\
    (status = SUCCESS -> exists m1 m2 k2 qs,
      parse_header (message_create_from_packet src dst (data m')) = Some (SUCCESS, m1) /\
      parse_body accept_mm m1 (Some km') = Some (SUCCESS, m2, k2) /\
      payloads m2 = ordinary <$> qs /\ similar qs (payloads_of (in_order m r (payloads m))) /\ linked qs PL_NONE /\
      exchange_type m2 = exchange_type m /\ is_request m2 = is_request m /\
      message_id m2 = message_id m /\ ike_sa_id m2 = Some id).
Proof.
  intros Hr Hver Ha Va Hb Vb. destruct (message_sealed junk accept_mm src dst m r id ps v km km' a b rng Hr Hver Ha Va Hb Vb)
    as (st & m' & k' & rng' & E & Hs & Hp).
  exists st, m', k', rng'. split; [exact E|]. split; [exact Hs|]. intros Hst.
  destruct (Hp Hst) as (_ & m1 & m2 & k2 & qs & E1 & _ & Hrest). by exists m1, m2, k2, qs.
Qed.

(** C2: a message of an exchange under an IKE SA with consistent payloads is generated if
    there are an IV and random bytes for the padding, and the other end, with the same keys,
    parses and accepts what was generated: the same exchange, message ID and IKE SA, and
    the same payloads, in the order of the rule of the exchange.  Without IV or random
    bytes generating it fails, but is defined. *)
Theorem ike_roundtrip {A : Type} `{AeadLaws A} {R : Type} `{RngLaws R} junk accept_mm src dst m r id ps v
    (km km' : keymat A) a b (rng : option R) :
  ready_to_send m r id ps v -> verify_rules (mr_rules r) (payloads m) false = SUCCESS ->
  aead_out km = Some a -> ae_view a = Some v -> aead_in km' = Some b -> ae_view b = Some v ->
  exists status m' k' rng', generate junk m (Some km) rng = Some (status, m', k', rng') /\
    (supplied a v rng (u64 (Z.shiftl (message_id m) 32)) -> status = SUCCESS) /\
    (status = SUCCESS -> exists m1 m2 k2 qs,
      parse_header (message_create_from_packet src dst (data m')) = Some (SUCCESS, m1) /\
      parse_body accept_mm m1 (Some km') = Some (SUCCESS, m2, k2) /\
      payloads m2 = ordinary <$> qs /\ similar qs (payloads_of (in_order m r (payloads m))) /\ linked qs PL_NONE /\
      exchange_type m2 = exchange_type m /\ is_request m2 = is_request m /\
      message_id m2 = message_id m /\ ike_sa_id m2 = Some id).
Proof. apply message_roundtrip. Qed.

(** Two payloads, of which the order is changed. *)
Definition sent_payloads : list payload := [unlink cp_example; unlink delete_example].

Definition sent_message : message := set_payloads (toy_message INFORMATIONAL []) (ordinary <$> sent_payloads).

Definition sent_rule : message_rule_t := MRule INFORMATIONAL true true informational_i_rules informational_i_order.

Lemma sent_ready : ready_to_send sent_message sent_rule (IkeSaId 1 2 true) sent_payloads Toy.toy_view.
Proof.
  assert (sendable (unlink cp_example) /\ sendable (unlink delete_example)) as [H1 H2].
  { split; (constructor; [vm_compute; reflexivity|vm_compute; by eexists|vm_compute; reflexivity]). }
  constructor.
  - constructor; try (vm_compute; split; [discriminate|reflexivity]); try (vm_compute; split; reflexivity); reflexivity.
  - apply (bool_decide_unpack _). vm_compute. exact I.
  - reflexivity.
  - reflexivity.
  - split; discriminate.
  - reflexivity.
  - by repeat constructor.
  - vm_compute. reflexivity.
  - vm_compute. lia.
  - vm_compute. reflexivity.
Qed.

Lemma sent_supplied : supplied Toy.toy_end Toy.toy_view (Some 3%nat) (u64 (Z.shiftl 7 32)).
Proof. split; [vm_compute; by eexists|]. exists 3%nat. split; [done|]. intros n _. by eexists. Qed.

Lemma ike_roundtrip_witness : supplied Toy.toy_end Toy.toy_view (Some 3%nat) (u64 (Z.shiftl 7 32)) /\ exists status m' k' rng',
  generate (fun _ => 170) sent_message toy_keys (Some 3%nat) = Some (status, m', k', rng') /\
  (supplied Toy.toy_end Toy.toy_view (Some 3%nat) (u64 (Z.shiftl 7 32)) -> status = SUCCESS) /\
  (status = SUCCESS -> exists m1 m2 k2 qs,
    parse_header (message_create_from_packet None None (data m')) = Some (SUCCESS, m1) /\
    parse_body false m1 toy_keys = Some (SUCCESS, m2, k2) /\
    payloads m2 = ordinary <$> qs /\ similar qs (rev sent_payloads) /\ linked qs PL_NONE /\
    exchange_type m2 = INFORMATIONAL /\ is_request m2 = true /\ message_id m2 = 7 /\ ike_sa_id m2 = Some (IkeSaId 1 2 true)).
Proof.
  split; [exact sent_supplied|].
  refine (ike_roundtrip (fun _ => 170) false None None sent_message sent_rule (IkeSaId 1 2 true) sent_payloads Toy.toy_view
    (Keymat (Some Toy.toy_end) (Some Toy.toy_end)) (Keymat (Some Toy.toy_end) (Some Toy.toy_end)) Toy.toy_end Toy.toy_end
    (Some 3%nat) sent_ready _ _ _ _ _);
    [vm_compute; reflexivity|reflexivity|exact Toy.toy_end_view|reflexivity|exact Toy.toy_end_view].
Defined.
