(* ===== verification/Prf.v ===== *)
(** Pseudo random functions and the key stream made of them: the interface [prf_t] of
    [src/libstrongswan/crypto/prfs/prf.h], the PRFs that are MACs
    ([crypto/prfs/mac_prf.c]) and [crypto/prf_plus.c]. *)
From S2P Require Import Prelude Memory Chunk Crypto.
From stdpp Require Import base numbers list option.
From Stdlib Require Import Lia ZArith.
Local Open Scope Z_scope.

(** ** The interface *)

(** [prf_t]; the flag tells whether an output buffer is given.  Without one the seed is
    kept for the next call. *)
Class Prf (P : Type) := {
  prf_get_bytes : P -> chunk -> bool -> option chunk * P;
  prf_allocate_bytes : P -> chunk -> bool -> option chunk * P;
  prf_block_size : P -> nat;
  prf_key_size : P -> nat;
  prf_set_key : P -> chunk -> bool * P;
}.

(** The function of key and data an object computes does not change; [prf_ready p k d]
    is an object with the key [k] that was given the data [d]. *)
Class PrfLaws (P : Type) `{Prf P} := {
  prf_fun : P -> chunk -> chunk -> chunk;
  prf_ready : P -> chunk -> chunk -> Prop;
  prf_length p k d : length (prf_fun p k d) = prf_block_size p;
  prf_bytes p k d : bytes_ok (prf_fun p k d);
  prf_append p k d x : prf_ready p k d ->
    exists p', prf_get_bytes p x false = (Some [], p') /\ prf_ready p' k (d ++ x) /\
      prf_fun p' = prf_fun p /\ prf_key_size p' = prf_key_size p;
  prf_final p k d x : prf_ready p k d ->
    exists p', prf_get_bytes p x true = (Some (prf_fun p k (d ++ x)), p') /\ prf_ready p' k [] /\
      prf_fun p' = prf_fun p /\ prf_key_size p' = prf_key_size p;
  prf_alloc p x : prf_allocate_bytes p x true = prf_get_bytes p x true;
  prf_keyed p k : exists p', prf_set_key p k = (true, p') /\ prf_ready p' k [] /\
      prf_fun p' = prf_fun p /\ prf_key_size p' = prf_key_size p;
}.

(** ** mac_prf *)
Module MacPrf.
Record private_prf (M : Type) := PrivatePrf { mac : M }.
#[global] Arguments PrivatePrf {M} mac.
#[global] Arguments mac {M} p.

Section MacPrf.
Context {M : Type} `{Mac M}.

Definition get_bytes (this : private_prf M) (seed : chunk) (buffer : bool) : option chunk * private_prf M :=
  let '(r, m) := get_mac (mac this) seed buffer in (r, PrivatePrf m).

Definition allocate_bytes (this : private_prf M) (seed : chunk) (chunk_ : bool)
    : option chunk * private_prf M :=
  if chunk_ then let '(r, m) := get_mac (mac this) seed true in (r, PrivatePrf m)
  else let '(r, m) := get_mac (mac this) seed false in (r, PrivatePrf m).

Definition get_block_size (this : private_prf M) : nat := get_mac_size (M := M).

(** IKEv2 uses the size of the MAC as the size of the key. *)
Definition get_key_size (this : private_prf M) : nat := get_mac_size (M := M).

Definition set_key (this : private_prf M) (key : chunk) : bool * private_prf M :=
  let '(r, m) := mac_set_key (mac this) key in (r, PrivatePrf m).

Definition mac_prf_create (m : M) : private_prf M := PrivatePrf m.
End MacPrf.

#[global] Instance mac_prf_prf {M} `{Mac M} : Prf (private_prf M) := {
  prf_get_bytes := get_bytes;
  prf_allocate_bytes := allocate_bytes;
  prf_block_size := get_block_size;
  prf_key_size := get_key_size;
  prf_set_key := set_key;
}.

Section Laws.
Context {M : Type} `{MacLaws M}.

#[local] Obligation Tactic := idtac.
#[global] Program Instance mac_prf_laws : PrfLaws (private_prf M) := {
  prf_fun := fun p k d => mac_fun (mac_keep (mac p) k) d;
  prf_ready := fun p k d => mac_view (mac p) = Some (mac_keep (mac p) k, d);
}.
Next Obligation. intros. apply mac_length. Qed.
Next Obligation. intros. apply mac_bytes. Qed.
Next Obligation.
  intros p k d x Hr. destruct (mac_append _ _ _ x Hr) as (m' & E & Hv). cbn. unfold get_bytes. rewrite E.
  pose proof (mac_keep_mac (mac p) x false) as Hk. rewrite E in Hk. cbn in Hk. eexists. split; [done|]. cbn. by rewrite Hk.
Qed.
Next Obligation.
  intros p k d x Hr. destruct (mac_final _ _ _ x Hr) as (m' & E & Hv). cbn. unfold get_bytes. rewrite E.
  pose proof (mac_keep_mac (mac p) x true) as Hk. rewrite E in Hk. cbn in Hk. eexists. split; [done|]. cbn. by rewrite Hk.
Qed.
Next Obligation. done. Qed.
Next Obligation.
  intros p k. destruct (mac_keyed (mac p) k) as (m' & E & Hv). cbn. unfold set_key. rewrite E.
  pose proof (mac_keep_key (mac p) k) as Hk. rewrite E in Hk. cbn in Hk. eexists. split; [done|]. cbn. by rewrite Hk.
Qed.
End Laws.
End MacPrf.

(** ** prf_plus *)
Module PrfPlus.
Record prf_plus_t (P : Type) := PrfPlus {
  prf : P;
  seed : chunk;
  counter : Z;              (* octet appended to the seed, 0 if there is none *)
  used : nat;               (* bytes of the buffer that were given out *)
  buffer : chunk;
}.
#[global] Arguments PrfPlus {P} prf seed counter used buffer.
#[global] Arguments prf {P} p.
#[global] Arguments seed {P} p.
#[global] Arguments counter {P} p.
#[global] Arguments used {P} p.
#[global] Arguments buffer {P} p.

Section PrfPlus.
Context {P : Type} `{Prf P}.

Definition with_prf (this : prf_plus_t P) (p : P) : prf_plus_t P :=
  PrfPlus p (seed this) (counter this) (used this) (buffer this).

(** The next round when the buffer is used up. *)
Definition next_round (this : prf_plus_t P) : bool * prf_plus_t P :=
  match prf_get_bytes (prf this) (buffer this) false with
  | (None, p) => (false, with_prf this p)
  | (Some _, p) =>
    if negb (counter this =? 0) then
      match prf_get_bytes p (seed this) false with
      | (None, p) => (false, with_prf this p)
      | (Some _, p) =>
        match prf_get_bytes p [counter this] true with
        | (None, p) => (false, with_prf this p)
        | (Some b, p) => (true, PrfPlus p (seed this) (u8 (counter this + 1)) 0 b)
        end
      end
    else
      match prf_get_bytes p (seed this) true with
      | (None, p) => (false, with_prf this p)
      | (Some b, p) => (true, PrfPlus p (seed this) (counter this) 0 b)
      end
  end.

(** The loop of [get_bytes] behind the bytes [written]; [None] is out of [fuel]: the C loop
    does not end for a PRF of block size zero. *)
Fixpoint get_bytes_loop (fuel : nat) (this : prf_plus_t P) (len : nat) (written : chunk)
    : option (option chunk * prf_plus_t P) :=
  match len, fuel with
  | O, _ => Some (Some written, this)
  | _, O => None
  | _, S fuel =>
    let '(ok, this) := if (length (buffer this) =? used this)%nat then next_round this else (true, this) in
    if negb ok then Some (None, this)
    else
      let round := Nat.min len (length (buffer this) - used this) in
      get_bytes_loop fuel (PrfPlus (prf this) (seed this) (counter this) (used this + round) (buffer this))
        (len - round) (written ++ take round (drop (used this) (buffer this)))
  end.

Definition get_bytes (this : prf_plus_t P) (len : nat) : option (option chunk * prf_plus_t P) :=
  get_bytes_loop len this len [].

Definition allocate_bytes (this : prf_plus_t P) (len : nat) : option (option chunk * prf_plus_t P) :=
  if (len =? 0)%nat then Some (Some [], this) else get_bytes this len.

(** The PRF is an object of the caller, which goes on using it. *)
Definition prf_plus_create (p : P) (count : bool) (s : chunk) : option (prf_plus_t P) * P :=
  if count then
    match prf_get_bytes p s false with
    | (None, p) => (None, p)
    | (Some _, p) =>
      match prf_get_bytes p [1] true with
      | (None, p) => (None, p)
      | (Some b, p) => (Some (PrfPlus p s (u8 (1 + 1)) 0 b), p)
      end
    end
  else
    match prf_get_bytes p s true with
    | (None, p) => (None, p)
    | (Some b, p) => (Some (PrfPlus p s 0 0 b), p)
    end.
End PrfPlus.

(** *** The key stream *)

(** The octet behind the seed of the block [n], counted from zero: 255 blocks have one. *)
Definition octet (count : bool) (n : nat) : chunk :=
  if count && (n <? 255)%nat then [Z.of_nat n + 1] else [].

(** T1 = prf(K, S | 1), T2 = prf(K, T1 | S | 2), ...; [f] is the PRF with the key. *)
Fixpoint block (count : bool) (f : chunk -> chunk) (s : chunk) (n : nat) : chunk :=
  match n with
  | O => f (s ++ octet count 0)
  | S m => f (block count f s m ++ s ++ octet count n)
  end.

Definition stream (count : bool) (f : chunk -> chunk) (s : chunk) (n : nat) : chunk :=
  concat (map (block count f s) (seq 0 n)).

(** The bytes from [pos] on of the stream. *)
Definition stream_bytes (count : bool) (f : chunk -> chunk) (s : chunk) (pos len : nat) : chunk :=
  take len (drop pos (stream count f s (pos + len))).

Section Stream.
Context (count : bool) (f : chunk -> chunk) (s : chunk) (bs : nat).
Hypothesis block_length : forall d, length (f d) = bs.
Hypothesis bs_pos : (0 < bs)%nat.

Lemma length_block n : length (block count f s n) = bs.
Proof. destruct n; apply block_length. Qed.

Lemma length_stream n : length (stream count f s n) = (n * bs)%nat.
Proof.
  unfold stream. generalize 0%nat. induction n as [|n IH]; intros a; [done|]. cbn [seq map concat].
  rewrite length_app, IH, length_block. lia.
Qed.

Lemma stream_app n m : stream count f s (n + m) = stream count f s n ++ concat (map (block count f s) (seq n m)).
Proof. unfold stream. by rewrite seq_app, map_app, concat_app. Qed.

Lemma take_stream len n m : (len <= n * bs)%nat -> (n <= m)%nat ->
  take len (stream count f s m) = take len (stream count f s n).
Proof.
  intros Hl Hm. replace m with (n + (m - n))%nat by lia. rewrite stream_app, take_app_le; [done|].
  by rewrite length_stream.
Qed.

(** The stream does not depend on how many blocks of it are computed. *)
Lemma stream_bytes_of pos len n : (pos + len <= n * bs)%nat ->
  stream_bytes count f s pos len = take len (drop pos (stream count f s n)).
Proof.
  intros Hl. unfold stream_bytes.
  rewrite !take_drop_commute. f_equal. destruct (decide (n <= pos + len)%nat).
  - apply take_stream; [done|lia].
  - symmetry. apply take_stream; [nia|lia].
Qed.

Lemma length_stream_bytes pos len : length (stream_bytes count f s pos len) = len.
Proof. unfold stream_bytes. rewrite length_take, length_drop, length_stream. nia. Qed.

Lemma stream_bytes_app pos a b :
  stream_bytes count f s pos (a + b) = stream_bytes count f s pos a ++ stream_bytes count f s (pos + a) b.
Proof.
  set (n := (pos + a + b)%nat). rewrite !(stream_bytes_of _ _ n) by (unfold n; nia).
  rewrite <- drop_drop. set (l := drop pos _). rewrite <- (take_drop a l) at 1.
  rewrite take_app_ge by (rewrite length_take; lia). f_equal. f_equal. rewrite length_take.
  assert (a <= length l)%nat by (unfold l; rewrite length_drop, length_stream; unfold n; nia). lia.
Qed.

(** A part of one block. *)
Lemma stream_bytes_block n u len : (u + len <= bs)%nat ->
  stream_bytes count f s (n * bs + u) len = take len (drop u (block count f s n)).
Proof.
  intros Hl. rewrite (stream_bytes_of _ _ (n + 1)) by lia.
  rewrite stream_app. cbn [seq map concat]. rewrite app_nil_r, <- drop_drop, drop_app_ge by (rewrite length_stream; lia).
  rewrite length_stream, Nat.sub_diag. done.
Qed.
End Stream.

(** *** prf_plus gives the stream *)
Section Spec.
Context {P : Type} `{PrfLaws P}.

(** The object after [pos] bytes of the stream with the key [k] and the seed [sd]. *)
Record at_pos (count : bool) (fn : chunk -> chunk -> chunk) (ks : nat) (k sd : chunk) (pos : nat)
    (this : prf_plus_t P) : Prop := AtPos {
  ap_ready : prf_ready (prf this) k [];
  ap_fun : prf_fun (prf this) = fn;
  ap_key_size : prf_key_size (prf this) = ks;
  ap_seed : seed this = sd;
  ap_block : exists n, buffer this = block count (fn k) sd n /\ pos = (n * length (buffer this) + used this)%nat /\
    (used this <= length (buffer this))%nat /\ counter this = (if count && (n <? 254)%nat then Z.of_nat n + 2 else 0);
}.

Lemma fn_length (p : P) fn k d : prf_fun p = fn -> length (fn k d) = prf_block_size p.
Proof. intros <-. apply prf_length. Qed.

Lemma at_pos_block_size count fn ks k sd pos this : at_pos count fn ks k sd pos this ->
  length (buffer this) = prf_block_size (prf this) /\ forall d, length (fn k d) = length (buffer this).
Proof.
  intros [_ Hf _ _ (n & Hb & _)].
  assert (length (buffer this) = prf_block_size (prf this)) as E.
  { rewrite Hb. apply length_block. intros d. by apply fn_length. }
  split; [done|]. intros d. rewrite E. by apply fn_length.
Qed.

Lemma octet_counter count n : octet count (S n) =
  if (if count && (n <? 254)%nat then Z.of_nat n + 2 else 0) =? 0 then [] else [Z.of_nat n + 2].
Proof.
  unfold octet. destruct count; cbn [andb]; [|done].
  destruct (Nat.ltb_spec n 254), (Nat.ltb_spec (S n) 255); try lia.
  - replace (Z.of_nat n + 2 =? 0) with false by lia. f_equal. lia.
  - done.
Qed.

Lemma next_round_spec count fn ks k sd pos this : at_pos count fn ks k sd pos this ->
  length (buffer this) = used this ->
  exists this', next_round this = (true, this') /\ at_pos count fn ks k sd pos this' /\ used this' = 0%nat /\
    length (buffer this') = length (buffer this).
Proof.
  intros Ha Hu. destruct (at_pos_block_size _ _ _ _ _ _ _ Ha) as [_ Hlen].
  destruct Ha as [Hr Hf Hks Hs (n & Hb & Hpos & _ & Hc)]. unfold next_round.
  destruct (prf_append _ _ _ (buffer this) Hr) as (p1 & -> & Hr1 & Hf1 & Hks1). rewrite Hs, Hc.
  pose proof (octet_counter count n) as Ho.
  set (c := if count && (n <? 254)%nat then Z.of_nat n + 2 else 0) in *.
  destruct (c =? 0) eqn:E0; cbn [negb].
  - destruct (prf_final _ _ _ sd Hr1) as (p2 & -> & Hr2 & Hf2 & Hks2). cbn [app].
    eexists. split; [done|]. split; [|cbn; split; [done|rewrite Hf1, Hf; by rewrite !Hlen]].
    constructor; cbn; [done|congruence|congruence|done|]. exists (S n). rewrite Hf1, Hf, Hlen. cbn [block]. rewrite Ho, app_nil_r, <- Hb.
    split; [done|]. split; [lia|]. split; [lia|]. unfold c in *. destruct count; cbn [andb] in *; [|done].
    destruct (Nat.ltb_spec n 254); [lia|]. by destruct (Nat.leb_spec (S n) 253); [lia|].
  - destruct (prf_append _ _ _ sd Hr1) as (p2 & -> & Hr2 & Hf2 & Hks2).
    destruct (prf_final _ _ _ [c] Hr2) as (p3 & -> & Hr3 & Hf3 & Hks3).
    eexists. split; [done|]. split; [|cbn; split; [done|rewrite Hf2, Hf1, Hf; by rewrite !Hlen]].
    unfold c in *. destruct count; [|done]. cbn [andb] in *. destruct (Nat.ltb_spec n 254); [|done].
    constructor; cbn; [done|congruence|congruence|done|]. exists (S n). rewrite Hf2, Hf1, Hf, Hlen. cbn [block].
    rewrite Ho, <- Hb, <- app_assoc. split; [done|]. split; [lia|]. split; [lia|].
    destruct (Nat.leb_spec (S n) 253).
    + rewrite uwrap_small by lia. lia.
    + replace n with 253%nat by lia. done.
Qed.

Lemma get_bytes_loop_spec count fn ks k sd : forall fuel pos this len written,
  (len <= fuel)%nat -> (0 < length (buffer this))%nat -> at_pos count fn ks k sd pos this ->
  exists this', get_bytes_loop fuel this len written =
      Some (Some (written ++ stream_bytes count (fn k) sd pos len), this') /\
    at_pos count fn ks k sd (pos + len) this' /\ length (buffer this') = length (buffer this).
Proof.
  induction fuel as [|fuel IH]; intros pos this len written Hl Hb Ha.
  { replace len with 0%nat by lia. cbn. exists this. by rewrite app_nil_r, Nat.add_0_r. }
  destruct len as [|len]; [cbn; exists this; by rewrite app_nil_r, Nat.add_0_r|].
  set (L := S len) in *. cbn [get_bytes_loop]. fold L.
  assert (exists this1, (if (length (buffer this) =? used this)%nat then next_round this else (true, this)) = (true, this1) /\
    at_pos count fn ks k sd pos this1 /\ (used this1 < length (buffer this1))%nat /\
    length (buffer this1) = length (buffer this)) as (this1 & -> & Ha1 & Hu & Hb1).
  { destruct (Nat.eqb_spec (length (buffer this)) (used this)) as [E|E].
    - destruct (next_round_spec _ _ _ _ _ _ _ Ha E) as (t & -> & Ht & Hu0 & Hbl). exists t. rewrite Hu0, Hbl. done.
    - exists this. split; [done|]. split; [done|]. split; [|done]. destruct Ha as [_ _ _ _ (n & _ & _ & ? & _)]. lia. }
  cbn [negb]. set (round := Nat.min L (length (buffer this1) - used this1)).
  assert (1 <= round <= L /\ used this1 + round <= length (buffer this1))%nat as [Hrd Hru] by lia. clearbody round.
  destruct (at_pos_block_size _ _ _ _ _ _ _ Ha1) as [_ Hlen].
  destruct Ha1 as [Hr Hf Hks Hs (n & Hbk & Hpos & Hle & Hc)].
  destruct (IH (pos + round)%nat (PrfPlus (prf this1) (seed this1) (counter this1) (used this1 + round) (buffer this1))
    (L - round)%nat (written ++ take round (drop (used this1) (buffer this1)))) as (this' & -> & Ha' & Hb'); [lia|cbn; lia| |].
  { constructor; cbn; try done. exists n. split; [done|]. split; [lia|]. split; [lia|done]. }
  exists this'. split; [|split; [by replace (pos + L)%nat with (pos + round + (L - round))%nat by lia|by rewrite Hb'; cbn]].
  f_equal. f_equal. f_equal. rewrite <- app_assoc. f_equal.
  replace L with (round + (L - round))%nat at 2 by lia.
  rewrite (stream_bytes_app count (fn k) sd (length (buffer this1))) by (done || lia). f_equal.
  rewrite Hpos, (stream_bytes_block count (fn k) sd (length (buffer this1))) by (done || lia). by rewrite <- Hbk.
Qed.

(** [allocate_bytes] gives the next bytes of the stream. *)
Lemma allocate_bytes_spec count fn ks k sd pos this len : (0 < length (buffer this))%nat ->
  at_pos count fn ks k sd pos this ->
  exists this', allocate_bytes this len = Some (Some (stream_bytes count (fn k) sd pos len), this') /\
    at_pos count fn ks k sd (pos + len) this' /\ length (buffer this') = length (buffer this).
Proof.
  intros Hb Ha. unfold allocate_bytes, get_bytes. destruct (Nat.eqb_spec len 0) as [->|].
  - exists this. by rewrite Nat.add_0_r.
  - apply (get_bytes_loop_spec count fn ks k sd len pos this len []); [lia|done|done].
Qed.

Lemma prf_plus_create_spec count (p : P) k sd : prf_ready p k [] ->
  exists this, prf_plus_create p count sd = (Some this, prf this) /\
    at_pos count (prf_fun p) (prf_key_size p) k sd 0 this /\ length (buffer this) = prf_block_size p.
Proof.
  intros Hr. unfold prf_plus_create. destruct count.
  - destruct (prf_append _ _ _ sd Hr) as (p1 & -> & Hr1 & Hf1 & Hk1).
    destruct (prf_final _ _ _ [1] Hr1) as (p2 & -> & Hr2 & Hf2 & Hk2).
    exists (PrfPlus p2 sd (u8 (1 + 1)) 0 (prf_fun p1 k (([] ++ sd) ++ [1]))). split; [reflexivity|]. cbn [app buffer].
    split; [|rewrite Hf1; apply prf_length]. constructor; cbn; [done|congruence|congruence|done|].
    exists 0%nat. rewrite Hf1. split; [done|]. split; [lia|]. split; [lia|reflexivity].
  - destruct (prf_final _ _ _ sd Hr) as (p1 & -> & Hr1 & Hf1 & Hk1).
    exists (PrfPlus p1 sd 0 0 (prf_fun p k ([] ++ sd))). split; [reflexivity|]. cbn [app buffer].
    split; [|apply prf_length]. constructor; cbn; [done|congruence|congruence|done|].
    exists 0%nat. cbn [block octet andb]. rewrite app_nil_r. split; [done|]. split; [lia|]. split; [lia|done].
Qed.
End Spec.

(** Keys taken one after the other, [None] if the stream fails or does not end. *)
Fixpoint take_keys {P} `{Prf P} (this : prf_plus_t P) (lens : list nat) : option (list chunk * prf_plus_t P) :=
  match lens with
  | [] => Some ([], this)
  | len :: lens =>
    '(key, this) ← allocate_bytes this len;
    key ← key;
    '(keys, this) ← take_keys this lens;
    Some (key :: keys, this)
  end.

Lemma take_keys_spec {P} `{PrfLaws P} count fn ks k sd lens : forall pos (this : prf_plus_t P),
  (0 < length (buffer this))%nat -> at_pos count fn ks k sd pos this ->
  exists keys this', take_keys this lens = Some (keys, this') /\ (length <$> keys) = lens /\
    concat keys = stream_bytes count (fn k) sd pos (list_sum lens).
Proof.
  induction lens as [|len lens IH]; intros pos this Hb Ha; cbn [take_keys list_sum foldr]; [by eexists _, _|].
  destruct (at_pos_block_size _ _ _ _ _ _ _ Ha) as [_ Hlen].
  destruct (allocate_bytes_spec _ _ _ _ _ _ _ len Hb Ha) as (t1 & -> & Ha1 & Hb1). cbn [mbind option_bind].
  destruct (IH _ t1 ltac:(lia) Ha1) as (keys & t2 & -> & Hls & Hc). cbn [mbind option_bind].
  eexists _, _. split; [done|]. cbn [fmap list_fmap concat].
  rewrite Hls, (length_stream_bytes count (fn k) sd (length (buffer this))), Hc by (done || lia).
  by rewrite <- (stream_bytes_app count (fn k) sd (length (buffer this))) by (done || lia).
Qed.

(** prf+ of RFC 7296, section 2.13. *)
Fixpoint T (f : chunk -> chunk) (s : chunk) (n : nat) : chunk :=
  match n with
  | O => []
  | S m => f (T f s m ++ s ++ [Z.of_nat n])
  end.

Lemma block_T f s n : (n < 255)%nat -> block true f s n = T f s (S n).
Proof.
  assert (forall m, (m < 255)%nat -> octet true m = [Z.of_nat (S m)]) as Ho.
  { intros m Hm. unfold octet. cbn [andb]. replace (m <? 255)%nat with true by lia. f_equal. lia. }
  induction n as [|n IH]; intros Hn.
  - cbn [block T app]. by rewrite (Ho 0%nat) by lia.
  - cbn [block]. rewrite IH, Ho by lia. done.
Qed.

Lemma stream_T f s n : (n <= 255)%nat -> stream true f s n = concat (map (T f s) (seq 1 n)).
Proof.
  intros Hn. unfold stream. rewrite <- seq_shift, map_map. f_equal. apply map_ext_in.
  intros i Hi%in_seq. apply block_T. lia.
Qed.
End PrfPlus.

(** ** Theorems *)

(** C17: the keys that are taken from a prf+ with a counter, of whatever lengths, are
    consecutive parts of T1 | T2 | ... | T255 of RFC 7296, each of the length that was asked
    for. *)
Theorem prf_plus_stream {P} `{PrfLaws P} (p : P) (k sd : chunk) (lens : list nat) :
  prf_ready p k [] -> (0 < prf_block_size p)%nat -> (list_sum lens <= 255 * prf_block_size p)%nat ->
  exists this keys this', PrfPlus.prf_plus_create p true sd = (Some this, PrfPlus.prf this) /\
    PrfPlus.take_keys this lens = Some (keys, this') /\ (length <$> keys) = lens /\
    concat keys = take (list_sum lens) (concat (map (PrfPlus.T (prf_fun p k) sd) (seq 1 255))).
Proof.
  intros Hr Hb Hl. destruct (PrfPlus.prf_plus_create_spec true p k sd Hr) as (this & E & Ha & Hbl).
  destruct (PrfPlus.take_keys_spec _ _ _ _ _ lens 0 this ltac:(lia) Ha) as (keys & this' & Ek & Hls & Hc).
  exists this, keys, this'. split; [done|]. split; [done|]. split; [done|].
  rewrite Hc, <- PrfPlus.stream_T by done.
  by rewrite (PrfPlus.stream_bytes_of true _ sd (prf_block_size p)) with (n := 255%nat) by (try apply prf_length; lia).
Qed.

(** C34: when 255 blocks are used up the counter wraps to zero, which means that there is none:
    the next block is computed without a counter, where RFC 7296 ends. *)
Theorem prf_plus_wraps {P} `{PrfLaws P} (p : P) (k sd : chunk) :
  prf_ready p k [] -> (0 < prf_block_size p)%nat ->
  exists this this1 this2, PrfPlus.prf_plus_create p true sd = (Some this, PrfPlus.prf this) /\
    PrfPlus.allocate_bytes this (255 * prf_block_size p) =
      Some (Some (concat (map (PrfPlus.T (prf_fun p k) sd) (seq 1 255))), this1) /\
    PrfPlus.allocate_bytes this1 (prf_block_size p) =
      Some (Some (prf_fun p k (PrfPlus.T (prf_fun p k) sd 255 ++ sd)), this2).
Proof.
  intros Hr Hb. destruct (PrfPlus.prf_plus_create_spec true p k sd Hr) as (this & E & Ha & Hbl).
  assert (forall d, length (prf_fun p k d) = prf_block_size p) as Hlen by (intros; apply prf_length).
  destruct (PrfPlus.allocate_bytes_spec _ _ _ _ _ _ this (255 * prf_block_size p) ltac:(lia) Ha) as (t1 & E1 & Ha1 & Hb1).
  destruct (PrfPlus.allocate_bytes_spec _ _ _ _ _ _ t1 (prf_block_size p) ltac:(lia) Ha1) as (t2 & E2 & _).
  exists this, t1, t2. split; [done|]. rewrite E1, E2. split; (f_equal; f_equal; f_equal).
  - rewrite <- PrfPlus.stream_T by done.
    rewrite (PrfPlus.stream_bytes_of true _ sd (prf_block_size p)) with (n := 255%nat) by (done || lia).
    rewrite drop_0. apply take_ge. by rewrite (PrfPlus.length_stream true _ sd (prf_block_size p)).
  - replace (0 + 255 * prf_block_size p)%nat with (255 * prf_block_size p + 0)%nat by lia.
    rewrite (PrfPlus.stream_bytes_block true _ sd (prf_block_size p)) by (done || lia). rewrite drop_0, take_ge.
    + change (PrfPlus.block true (prf_fun p k) sd 255) with
        (prf_fun p k (PrfPlus.block true (prf_fun p k) sd 254 ++ sd ++ PrfPlus.octet true 255)).
      rewrite PrfPlus.block_T by lia. change (PrfPlus.octet true 255) with (@nil Z). by rewrite app_nil_r.
    + by rewrite PrfPlus.length_block with (bs := prf_block_size p).
Qed.

(** A PRF from the example HMAC. *)
Definition toy_prf : MacPrf.private_prf Toy.toy_mac := MacPrf.mac_prf_create Toy.toy_keyed_hmac.

Lemma toy_prf_ready : prf_ready toy_prf [1; 2; 3] [].
Proof. vm_compute. reflexivity. Qed.

Lemma prf_plus_stream_witness : exists this keys this',
  PrfPlus.prf_plus_create toy_prf true [5; 6] = (Some this, PrfPlus.prf this) /\
  PrfPlus.take_keys this [3; 0; 10]%nat = Some (keys, this') /\ (length <$> keys) = [3; 0; 10]%nat /\
  concat keys = take 13 (concat (map (PrfPlus.T (prf_fun toy_prf [1; 2; 3]) [5; 6]) (seq 1 255))).
Proof.
  refine (prf_plus_stream toy_prf [1; 2; 3] [5; 6] [3; 0; 10]%nat toy_prf_ready _ _); cbn; lia.
Defined.

Lemma prf_plus_wraps_witness : exists this this1 this2,
  PrfPlus.prf_plus_create toy_prf true [5; 6] = (Some this, PrfPlus.prf this) /\
  PrfPlus.allocate_bytes this (255 * 4) =
    Some (Some (concat (map (PrfPlus.T (prf_fun toy_prf [1; 2; 3]) [5; 6]) (seq 1 255))), this1) /\
  PrfPlus.allocate_bytes this1 4 =
    Some (Some (prf_fun toy_prf [1; 2; 3] (PrfPlus.T (prf_fun toy_prf [1; 2; 3]) [5; 6] 255 ++ [5; 6])), this2).
Proof. refine (prf_plus_wraps toy_prf [1; 2; 3] [5; 6] toy_prf_ready _). cbn. lia. Defined.
