(* ===== verification/Array.v ===== *)
(** Arrays of elements in one block of memory, with room in front of and behind them
    ([src/libstrongswan/collections/array.c]).  The block is modelled byte by byte, the
    movements of memory and the sizes as the code computes them. *)
From S2P Require Import Prelude Memory Chunk.
From stdpp Require Import base numbers list option.
From Stdlib Require Import Lia ZArith.
Local Open Scope Z_scope.

(** [array_t]; an element size of zero is for pointers. *)
Record array_t := Array {
  count : Z;       (* uint32_t *)
  esize : Z;       (* uint16_t *)
  head : Z;        (* uint8_t: unused elements in front *)
  tail : Z;        (* uint8_t: unused elements behind *)
  data : chunk;
}.

Definition ARRAY_MAX_UNUSED : Z := 32.

(** [memmove(d + dst, d + src, n)], [None] outside of the block. *)
Definition memmove (d : chunk) (dst src n : nat) : option chunk :=
  if (dst + n <=? length d)%nat && (src + n <=? length d)%nat
  then Some (splice dst (take n (drop src d)) d) else None.

(** [memcpy] into and out of the block. *)
Definition write_at (d : chunk) (pos : nat) (e : chunk) : option chunk :=
  if (pos + length e <=? length d)%nat then Some (splice pos e d) else None.

Definition read_at (d : chunk) (pos n : nat) : option chunk :=
  if (pos + n <=? length d)%nat then Some (take n (drop pos d)) else None.

(** [get_size]: the product with an element size is one of 32 bits. *)
Definition get_size (a : array_t) (num : Z) : nat :=
  Z.to_nat (if negb (esize a =? 0) then u32 (esize a * u32 num) else 8 * u32 num).

Section Operations.
(** The contents of new memory. *)
Context (junk : nat -> Z).

Definition realloc (d : chunk) (n : nat) : chunk := take n d ++ map junk (seq (length d) (n - length d)).

Definition make_tail_room (a : array_t) (room : Z) : array_t :=
  if tail a <? room then
    Array (count a) (esize a) (head a) room (realloc (data a) (get_size a (u32 (count a + head a + room))))
  else a.

Definition make_head_room (a : array_t) (room : Z) : option array_t :=
  if head a <? room then
    let increase := u8 (room - head a) in
    let d := realloc (data a) (get_size a (u32 (count a + tail a + room))) in
    d ← memmove d (get_size a increase) 0 (get_size a (u32 (count a + tail a + head a)));
    Some (Array (count a) (esize a) room (tail a) d)
  else Some a.

(** Room for an element at an index. *)
Definition insert_tail (a : array_t) (idx : Z) : option array_t :=
  let a := make_tail_room a 1 in
  d ← memmove (data a) (get_size a (head a + idx + 1)) (get_size a (head a + idx)) (get_size a (u32 (count a - idx)));
  Some (Array (u32 (count a + 1)) (esize a) (head a) (u8 (tail a - 1)) d).

Definition insert_head (a : array_t) (idx : Z) : option array_t :=
  a ← make_head_room a 1;
  d ← memmove (data a) (get_size a (head a - 1)) (get_size a (head a)) (get_size a idx);
  Some (Array (u32 (count a + 1)) (esize a) (u8 (head a - 1)) (tail a) d).

(** Without the element at an index. *)
Definition remove_tail (a : array_t) (idx : Z) : option array_t :=
  d ← memmove (data a) (get_size a (idx + head a)) (get_size a (idx + head a + 1)) (get_size a (u32 (count a - 1 - idx)));
  Some (Array (u32 (count a - 1)) (esize a) (head a) (u8 (tail a + 1)) d).

Definition remove_head (a : array_t) (idx : Z) : option array_t :=
  d ← memmove (data a) (get_size a (head a + 1)) (get_size a (head a)) (get_size a idx);
  Some (Array (u32 (count a - 1)) (esize a) (u8 (head a + 1)) (tail a) d).

Definition array_create (esz reserve : Z) : array_t :=
  let a := Array 0 (u16 esz) 0 (u8 reserve) [] in
  if negb (tail a =? 0) then Array 0 (u16 esz) 0 (tail a) (map junk (seq 0 (get_size a (tail a)))) else a.

(** The count as an [int]. *)
Definition array_count (a : array_t) : Z := if count a <? 2 ^ 31 then count a else count a - 2 ^ 32.

Definition array_compress (a : array_t) : option array_t :=
  let room := tail a in
  '(d, room) ← (if negb (head a =? 0)
                then d ← memmove (data a) 0 (get_size a (head a)) (get_size a (u32 (count a + tail a)));
                     Some (d, room + head a)
                else Some (data a, room));
  Some (if negb (room =? 0) then Array (count a) (esize a) 0 0 (realloc d (get_size a (count a)))
        else Array (count a) (esize a) 0 (tail a) d).

Definition array_insert (a : array_t) (idx : Z) (e : chunk) : option array_t :=
  if (idx <? 0) || (idx <=? array_count a) then
    let idx := if idx <? 0 then array_count a else idx in
    a ← (if negb (head a =? 0) && (tail a =? 0) then insert_head a idx
         else if negb (tail a =? 0) && (head a =? 0) then insert_tail a idx
         else if Z.quot (array_count a) 2 <? idx then insert_tail a idx
         else insert_head a idx);
    d ← write_at (data a) (get_size a (head a + idx)) e;
    Some (Array (count a) (esize a) (head a) (tail a) d)
  else Some a.

(** The element, if there is one. *)
Definition array_get (a : array_t) (idx : Z) : option (option chunk) :=
  if (0 <=? idx) && (array_count a <=? idx) then Some None
  else if (idx <? 0) && (array_count a =? 0) then Some None
  else
    let idx := if idx <? 0 then array_count a - 1 else idx in
    e ← read_at (data a) (get_size a (head a + idx)) (get_size a 1);
    Some (Some e).

Definition array_remove (a : array_t) (idx : Z) : option (option chunk * array_t) :=
  e ← array_get a idx;
  match e with
  | None => Some (None, a)
  | Some e =>
    let idx := if idx <? 0 then array_count a - 1 else idx in
    a ← (if Z.quot (array_count a) 2 <? idx then remove_tail a idx else remove_head a idx);
    a ← (if ARRAY_MAX_UNUSED <? head a + tail a then array_compress a else Some a);
    Some (Some e, a)
  end.

(** An enumerator is the index of the next element.  What it yields for a size is the
    pointer to the element, here what is stored there. *)
Definition enumerate (a : array_t) (idx : Z) : option (option chunk * Z) :=
  if count a <=? idx then Some (None, idx)
  else e ← read_at (data a) (get_size a (idx + head a)) (get_size a 1); Some (Some e, idx + 1).

Definition array_remove_at (a : array_t) (idx : Z) : option (array_t * Z) :=
  if idx =? 0 then Some (a, idx)
  else '(_, a) ← array_remove a (idx - 1); Some (a, idx - 1).

Definition array_insert_create (a : option array_t) (idx : Z) (e : chunk) : option array_t :=
  array_insert (match a with Some a => a | None => array_create 0 0 end) idx e.

Definition array_insert_create_value (a : option array_t) (esz idx : Z) (e : chunk) : option array_t :=
  array_insert (match a with Some a => a | None => array_create esz 0 end) idx e.

(** [array_invoke]: the elements the callback is given, with their indices. *)
Fixpoint invoke_loop (a : array_t) (i : Z) (n : nat) : option (list (chunk * Z)) :=
  match n with
  | O => Some []
  | S n =>
    e ← read_at (data a) (get_size a i) (get_size a 1);
    l ← invoke_loop a (i + 1) n;
    Some ((e, i - head a) :: l)
  end.

Definition array_invoke (a : array_t) : option (list (chunk * Z)) :=
  invoke_loop a (head a) (Z.to_nat (count a)).
End Operations.

(** [qsort] and [bsearch] of the C library get the elements and compare with what the
    callback says. *)
Section Sorting.
Context (qsort : (chunk -> chunk -> Z) -> list chunk -> list chunk).
Context (bsearch : (chunk -> Z) -> list chunk -> option nat).

Definition array_sort (a : array_t) (cmp : chunk -> chunk -> Z) : option array_t :=
  es ← array_invoke a;
  d ← write_at (data a) (get_size a (head a)) (concat (qsort cmp (fst <$> es)));
  Some (Array (count a) (esize a) (head a) (tail a) d).

(** The index, -1 if there is none, and the element. *)
Definition array_bsearch (a : array_t) (cmp : chunk -> Z) : option (Z * option chunk) :=
  es ← array_invoke a;
  match bsearch cmp (fst <$> es) with
  | None => Some (-1, None)
  | Some i => e ← read_at (data a) (get_size a (head a + Z.of_nat i)) (get_size a 1); Some (Z.of_nat i, Some e)
  end.
End Sorting.

(** ** Movements in the block *)

Lemma memmove_up A B G D n : length B = n ->
  exists X, length X = length G /\ memmove (A ++ B ++ G ++ D) (length A + length G) (length A) n = Some (A ++ X ++ B ++ D).
Proof.
  intros <-. unfold memmove. rewrite (proj2 (andb_true_iff _ _)) by len.
  rewrite drop_app_length, take_app_length. exists (take (length G) (B ++ G)). split; [len|]. f_equal. unfold splice.
  rewrite take_app_add, <- Nat.add_assoc, drop_app_add, (Nat.add_comm (length G)), drop_app_add, drop_app_length.
  rewrite <- app_assoc. f_equal. f_equal. rewrite app_assoc, take_app_le by len. done.
Qed.

Lemma memmove_down A B G D n : length B = n ->
  exists X, length X = length G /\ memmove (A ++ G ++ B ++ D) (length A) (length A + length G) n = Some (A ++ B ++ X ++ D).
Proof.
  intros <-. unfold memmove. rewrite (proj2 (andb_true_iff _ _)) by len.
  rewrite <- drop_drop, drop_app_length, drop_app_length, take_app_length.
  exists (drop (length B) (G ++ B)). split; [len|]. f_equal. unfold splice.
  rewrite take_app_length. f_equal. f_equal. rewrite <- drop_drop, drop_app_length, (app_assoc G), drop_app_le by len. done.
Qed.

Lemma write_between A X B e : length X = length e ->
  write_at (A ++ X ++ B) (length A) e = Some (A ++ e ++ B).
Proof.
  intros Hl. unfold write_at. rewrite (proj2 (Nat.leb_le _ _)) by len. f_equal. unfold splice.
  rewrite take_app_length, <- drop_drop, drop_app_length, drop_app_length' by done. done.
Qed.

Lemma read_between A e B : read_at (A ++ e ++ B) (length A) (length e) = Some e.
Proof. unfold read_at. rewrite (proj2 (Nat.leb_le _ _)) by len. by rewrite drop_app_length, take_app_length. Qed.

(** ** The elements of an array *)

Definition elem_size (a : array_t) : Z := if esize a =? 0 then 8 else esize a.

(** The block holds the elements [l], between the room in front and behind. *)
Record layout (a : array_t) (l : list chunk) : Prop := Layout {
  la_esize : 0 <= esize a < 2 ^ 16;
  la_elems : Forall (fun e => Z.of_nat (length e) = elem_size a) l;
  la_count : count a = Z.of_nat (length l);
  la_room : 0 <= head a <= 255 /\ 0 <= tail a <= 255;
  la_data : exists H T, data a = H ++ concat l ++ T /\
    Z.of_nat (length H) = head a * elem_size a /\ Z.of_nat (length T) = tail a * elem_size a;
}.

(** The room does not exceed its counters: in front it stays small, and behind it was given
    to [array_create] or stays small. *)
Record holds (a : array_t) (l : list chunk) : Prop := Holds {
  ho_layout : layout a l;
  ho_head : head a <= 32;
  ho_tail : tail a <= 254 \/ l = [] /\ head a = 0;
}.

(** The sizes are computed without overflow. *)
Definition fits (a : array_t) (n : nat) : Prop := (Z.of_nat n + 512) * elem_size a < 2 ^ 31.

Lemma elem_size_pos a : 0 <= esize a -> 1 <= elem_size a.
Proof. intros He. unfold elem_size. destruct (Z.eqb_spec (esize a) 0); lia. Qed.

Lemma get_size_fits a n num : 0 <= esize a -> fits a n -> 0 <= num <= Z.of_nat n + 512 ->
  get_size a num = Z.to_nat (num * elem_size a).
Proof.
  intros He Hf Hn. unfold get_size, fits in *. pose proof (elem_size_pos a He) as Hp.
  assert (u32 num = num) as -> by (apply uwrap_small; nia). unfold elem_size in *.
  destruct (Z.eqb_spec (esize a) 0) as [E|E]; cbn [negb]; [f_equal; lia|].
  rewrite (uwrap_small 32) by nia. f_equal. lia.
Qed.

Lemma concat_length (l : list chunk) s : Forall (fun e => Z.of_nat (length e) = s) l ->
  Z.of_nat (length (concat l)) = Z.of_nat (length l) * s.
Proof. induction 1 as [|e l He _ IH]; [done|]. cbn [concat length]. rewrite length_app. lia. Qed.

Lemma size_length a n num (X : chunk) : 0 <= esize a -> fits a n -> 0 <= num <= Z.of_nat n + 512 ->
  Z.of_nat (length X) = num * elem_size a -> get_size a num = length X.
Proof. intros He Hf Hn HX. rewrite (get_size_fits a n) by done. rewrite <- HX. lia. Qed.

Lemma realloc_more junk d n : (length d <= n)%nat -> exists X, length X = (n - length d)%nat /\ realloc junk d n = d ++ X.
Proof. intros Hn. unfold realloc. rewrite take_ge by done. eexists. split; [|done]. by rewrite length_map, length_seq. Qed.

Section Proofs.
Context (junk : nat -> Z).

Lemma make_tail_room_holds a l : holds a l -> fits a (length l) ->
  holds (make_tail_room junk a 1) l /\ 1 <= tail (make_tail_room junk a 1) /\ head (make_tail_room junk a 1) = head a /\
  esize (make_tail_room junk a 1) = esize a.
Proof.
  intros Ho Hf. unfold make_tail_room. destruct (Z.ltb_spec (tail a) 1) as [Ht|Ht]; [|done].
  destruct Ho as [[He Hel Hc [Hh Htl] (H & T & Hd & HH & HT)] Hh32 Ht4].
  replace (tail a) with 0 in HT by lia. destruct T; [|cbn in HT; lia]. pose proof (elem_size_pos a ltac:(lia)).
  assert (get_size a (u32 (count a + head a + 1)) = (length (data a) + Z.to_nat (elem_size a))%nat) as ->.
  { unfold fits in *. rewrite uwrap_small by nia. rewrite (get_size_fits a (length l)) by (done || lia).
    rewrite Hd, !length_app. cbn [length]. pose proof (concat_length _ _ Hel). nia. }
  destruct (realloc_more junk (data a) (length (data a) + Z.to_nat (elem_size a))) as (X & HX & ->); [lia|].
  split; [|done]. constructor; cbn; [|done|lia]. constructor; cbn; try done.
  exists H, X. rewrite Hd, app_nil_r, <- app_assoc. split; [done|]. split; [done|]. unfold elem_size in *. cbn. lia.
Qed.

Lemma make_head_room_holds a l : holds a l -> fits a (length l) -> tail a <= 254 ->
  exists a', make_head_room junk a 1 = Some a' /\ holds a' l /\ 1 <= head a' /\ tail a' = tail a /\ esize a' = esize a.
Proof.
  intros Ho Hf Ht4. unfold make_head_room. destruct (Z.ltb_spec (head a) 1) as [Hh0|Hh0]; [|by exists a].
  destruct Ho as [[He Hel Hc [Hh Htl] (H & T & Hd & HH & HT)] Hh32 _].
  replace (head a) with 0 in * by lia. destruct H; [|cbn in HH; lia]. pose proof (elem_size_pos a ltac:(lia)).
  pose proof (concat_length _ _ Hel) as Hcl. cbn [app] in Hd.
  assert (get_size a (u32 (count a + tail a + 1)) = (length (data a) + Z.to_nat (elem_size a))%nat) as ->.
  { unfold fits in *. rewrite uwrap_small by nia. rewrite (get_size_fits a (length l)) by (done || lia).
    rewrite Hd, !length_app. nia. }
  destruct (realloc_more junk (data a) (length (data a) + Z.to_nat (elem_size a))) as (X & HX & ->); [lia|].
  destruct (memmove_up [] (data a) X [] (length (data a)) eq_refl) as (Y & HY & E). cbn [app length Nat.add] in E. rewrite !app_nil_r in E.
  assert (get_size a (u8 (1 - 0)) = length X) as ->.
  { change (u8 (1 - 0)) with 1. apply (size_length a (length l)); [lia|done|lia|]. lia. }
  assert (get_size a (u32 (count a + tail a + 0)) = length (data a)) as ->.
  { unfold fits in *. rewrite uwrap_small by nia. apply (size_length a (length l)); [lia|done|lia|].
    rewrite Hd, !length_app. lia. }
  rewrite E. cbn [mbind option_bind]. eexists. split; [done|]. cbn. split; [|done].
  constructor; cbn; [|lia|lia]. constructor; cbn; try done.
  exists Y, T. rewrite Hd. split; [done|]. unfold elem_size in *. cbn. lia.
Qed.

(** Room for an element between [l1] and [l2]. *)
Record gap (a : array_t) (l1 l2 : list chunk) : Prop := Gap {
  ga_esize : 0 <= esize a < 2 ^ 16;
  ga_elems : Forall (fun e => Z.of_nat (length e) = elem_size a) (l1 ++ l2);
  ga_count : count a = Z.of_nat (length (l1 ++ l2)) + 1;
  ga_room : 0 <= head a <= 32 /\ 0 <= tail a <= 254;
  ga_data : exists H X T, data a = H ++ concat l1 ++ X ++ concat l2 ++ T /\
    Z.of_nat (length H) = head a * elem_size a /\ Z.of_nat (length X) = elem_size a /\
    Z.of_nat (length T) = tail a * elem_size a;
}.

Lemma fits_less a n m : (n <= m)%nat -> 0 <= esize a -> fits a m -> fits a n.
Proof. intros Hn He. unfold fits. pose proof (elem_size_pos a He). nia. Qed.

Lemma fits_esize a a' n : esize a' = esize a -> fits a n -> fits a' n.
Proof. unfold fits, elem_size. by intros ->. Qed.

Lemma split_room (a : array_t) (T : chunk) : 0 <= esize a -> 1 <= tail a -> Z.of_nat (length T) = tail a * elem_size a ->
  exists G T', T = G ++ T' /\ Z.of_nat (length G) = elem_size a /\ Z.of_nat (length T') = (tail a - 1) * elem_size a.
Proof.
  intros He Ht HT. pose proof (elem_size_pos a He). exists (take (Z.to_nat (elem_size a)) T), (drop (Z.to_nat (elem_size a)) T).
  rewrite take_drop, length_take, length_drop. split; [done|]. nia.
Qed.

Lemma insert_tail_gap a l1 l2 : holds a (l1 ++ l2) -> fits a (length (l1 ++ l2)) ->
  exists a', insert_tail junk a (Z.of_nat (length l1)) = Some a' /\ gap a' l1 l2 /\ esize a' = esize a.
Proof.
  intros Ho Hf. unfold insert_tail. destruct (make_tail_room_holds a _ Ho Hf) as (Ho1 & Ht1 & _ & Hes).
  set (a1 := make_tail_room junk a 1) in *. clearbody a1. apply (fits_esize _ a1) in Hf; [|done].
  destruct Ho1 as [[He Hel Hc [Hh Htl] (H & T & Hd & HH & HT)] Hh32 _].
  destruct (split_room a1 T ltac:(lia) Ht1 HT) as (G & T' & -> & HG & HT'). rewrite concat_app, <- app_assoc in Hd.
  apply Forall_app in Hel as [Hel1 Hel2]. pose proof (concat_length _ _ Hel1) as Hl1. pose proof (concat_length _ _ Hel2) as Hl2.
  rewrite length_app in Hc, Hf.
  assert (get_size a1 (head a1 + Z.of_nat (length l1)) = length (H ++ concat l1)) as E1.
  { apply (size_length a1 (length l1 + length l2)); [lia|done|lia|]. rewrite length_app. lia. }
  assert (get_size a1 (head a1 + Z.of_nat (length l1) + 1) = (length (H ++ concat l1) + length G)%nat) as E2.
  { rewrite <- length_app. apply (size_length a1 (length l1 + length l2)); [lia|done|lia|]. rewrite !length_app. lia. }
  assert (get_size a1 (u32 (count a1 - Z.of_nat (length l1))) = length (concat l2)) as E3.
  { pose proof (elem_size_pos a1 ltac:(lia)). unfold fits in Hf. rewrite uwrap_small by nia.
    apply (size_length a1 (length l1 + length l2)); [lia|done|lia|lia]. }
  rewrite E1, E2, E3, Hd.
  destruct (memmove_up (H ++ concat l1) (concat l2) G T' _ eq_refl) as (X & HX & E).
  rewrite <- !app_assoc in E. rewrite E. cbn [mbind option_bind]. eexists. split; [done|]. split; [|done].
  constructor; cbn; [done|by apply Forall_app|rewrite length_app, uwrap_small|rewrite uwrap_small|]; try lia.
  { pose proof (elem_size_pos a1 ltac:(lia)). unfold fits in Hf. nia. }
  exists H, X, T'. unfold elem_size in *. cbn. rewrite (uwrap_small 8) by lia. split; [done|]. lia.
Qed.

Lemma insert_head_gap a l1 l2 : holds a (l1 ++ l2) -> fits a (length (l1 ++ l2)) -> tail a <= 254 ->
  exists a', insert_head junk a (Z.of_nat (length l1)) = Some a' /\ gap a' l1 l2 /\ esize a' = esize a.
Proof.
  intros Ho Hf Ht. unfold insert_head. destruct (make_head_room_holds a _ Ho Hf Ht) as (a1 & -> & Ho1 & Hh1 & Ht1 & Hes).
  cbn [mbind option_bind]. apply (fits_esize _ a1) in Hf; [|done].
  destruct Ho1 as [[He Hel Hc [Hh Htl] (H & T & Hd & HH & HT)] Hh32 _]. pose proof (elem_size_pos a1 ltac:(lia)).
  set (n := (length H - Z.to_nat (elem_size a1))%nat). rewrite <- (take_drop n H) in Hd.
  assert (Z.of_nat (length (take n H)) = (head a1 - 1) * elem_size a1 /\ Z.of_nat (length (drop n H)) = elem_size a1) as [HH' HG].
  { rewrite length_take, length_drop. unfold n. nia. }
  revert Hd HH' HG. generalize (take n H) as H', (drop n H) as G. intros H' G Hd HH' HG. rewrite concat_app, <- !app_assoc in Hd.
  apply Forall_app in Hel as [Hel1 Hel2]. pose proof (concat_length _ _ Hel1) as Hl1.
  rewrite length_app in Hc, Hf.
  assert (get_size a1 (head a1 - 1) = length H') as E1.
  { apply (size_length a1 (length l1 + length l2)); [lia|done|lia|lia]. }
  assert (get_size a1 (head a1) = (length H' + length G)%nat) as E2.
  { rewrite <- length_app. apply (size_length a1 (length l1 + length l2)); [lia|done|lia|]. rewrite !length_app. lia. }
  assert (get_size a1 (Z.of_nat (length l1)) = length (concat l1)) as E3.
  { apply (size_length a1 (length l1 + length l2)); [lia|done|lia|lia]. }
  rewrite E1, E2, E3, Hd.
  destruct (memmove_down H' (concat l1) G (concat l2 ++ T) _ eq_refl) as (X & HX & E).
  rewrite E. cbn [mbind option_bind]. eexists. split; [done|]. split; [|done].
  constructor; cbn; [done|by apply Forall_app|rewrite length_app, uwrap_small|rewrite uwrap_small|]; try lia.
  { unfold fits in Hf. nia. }
  exists H', X, T. unfold elem_size in *. cbn. rewrite (uwrap_small 8) by lia. split; [done|]. lia.
Qed.

Lemma array_count_holds a l : layout a l -> fits a (length l) -> array_count a = Z.of_nat (length l).
Proof.
  intros Hl Hf. unfold array_count. rewrite (la_count _ _ Hl). pose proof (elem_size_pos a ltac:(apply Hl)).
  unfold fits in Hf. replace (_ <? _) with true; [done|]. symmetry. apply Z.ltb_lt. nia.
Qed.

Lemma fill_gap a l1 l2 e n : gap a l1 l2 -> fits a n -> (length (l1 ++ l2) <= n)%nat -> Z.of_nat (length e) = elem_size a ->
  exists d, write_at (data a) (get_size a (head a + Z.of_nat (length l1))) e = Some d /\
    holds (Array (count a) (esize a) (head a) (tail a) d) (l1 ++ e :: l2).
Proof.
  intros [He Hel Hc [Hh Ht] (H & X & T & Hd & HH & HX & HT)] Hf Hn Hlen. rewrite length_app in Hc, Hn.
  apply Forall_app in Hel as [Hel1 Hel2]. pose proof (concat_length _ _ Hel1) as Hl1.
  rewrite (size_length a n _ (H ++ concat l1)); [|lia|done|lia|rewrite length_app; lia].
  rewrite Hd, (app_assoc H), (write_between (H ++ concat l1) X) by lia. eexists. split; [done|].
  constructor; cbn; [|lia|lia]. constructor; cbn; [done| |len|lia|].
  - apply Forall_app. split; [done|]. by constructor.
  - exists H, T. rewrite concat_app. cbn [concat]. rewrite <- !app_assoc. done.
Qed.

(** What [array_insert] does to the elements. *)
Definition insert_spec (l : list chunk) (idx : Z) (e : chunk) : list chunk :=
  if idx <? 0 then l ++ [e]
  else if idx <=? Z.of_nat (length l) then take (Z.to_nat idx) l ++ e :: drop (Z.to_nat idx) l else l.

Lemma array_insert_at a l1 l2 e : holds a (l1 ++ l2) -> fits a (length (l1 ++ l2)) -> Z.of_nat (length e) = elem_size a ->
  exists a', (a ← (if negb (head a =? 0) && (tail a =? 0) then insert_head junk a (Z.of_nat (length l1))
         else if negb (tail a =? 0) && (head a =? 0) then insert_tail junk a (Z.of_nat (length l1))
         else if Z.quot (array_count a) 2 <? Z.of_nat (length l1) then insert_tail junk a (Z.of_nat (length l1))
         else insert_head junk a (Z.of_nat (length l1)));
    d ← write_at (data a) (get_size a (head a + Z.of_nat (length l1))) e;
    Some (Array (count a) (esize a) (head a) (tail a) d)) = Some a' /\ holds a' (l1 ++ e :: l2) /\ esize a' = esize a.
Proof.
  intros Ho Hf Hlen.
  assert (exists a1, (if negb (head a =? 0) && (tail a =? 0) then insert_head junk a (Z.of_nat (length l1))
         else if negb (tail a =? 0) && (head a =? 0) then insert_tail junk a (Z.of_nat (length l1))
         else if Z.quot (array_count a) 2 <? Z.of_nat (length l1) then insert_tail junk a (Z.of_nat (length l1))
         else insert_head junk a (Z.of_nat (length l1))) = Some a1 /\ gap a1 l1 l2 /\ esize a1 = esize a) as (a1 & -> & Hg & Hes).
  { pose proof (insert_tail_gap a l1 l2 Ho Hf) as Hta. pose proof (insert_head_gap a l1 l2 Ho Hf) as Hhe.
    destruct (ho_tail _ _ Ho) as [Ht|[_ Hh0]].
    - repeat case_match; auto.
    - rewrite Hh0 in *. cbn [negb Z.eqb andb]. destruct (Z.eqb_spec (tail a) 0) as [Ht0|]; cbn [negb andb]; [|done].
      case_match; [done|]. apply Hhe. lia. }
  cbn [mbind option_bind]. apply (fits_esize _ a1) in Hf; [|done].
  assert (elem_size a1 = elem_size a) as Hee by (unfold elem_size; by rewrite Hes).
  destruct (fill_gap a1 l1 l2 e _ Hg Hf ltac:(lia) ltac:(lia)) as (d & -> & Hh). by eexists.
Qed.

Lemma array_insert_holds a l idx e : holds a l -> fits a (length l) -> Z.of_nat (length e) = elem_size a ->
  exists a', array_insert junk a idx e = Some a' /\ holds a' (insert_spec l idx e) /\ esize a' = esize a.
Proof.
  intros Ho Hf Hlen. unfold array_insert, insert_spec. rewrite (array_count_holds a l) by (done || apply Ho).
  destruct (Z.ltb_spec idx 0); cbn [orb].
  - destruct (array_insert_at a l [] e) as (a' & E & Ha'); rewrite ?app_nil_r; try done.
    rewrite (array_count_holds a l) in E by (done || apply Ho). exists a'. split; [exact E|exact Ha'].
  - destruct (Z.leb_spec idx (Z.of_nat (length l))); [|by exists a].
    set (n := Z.to_nat idx). destruct (array_insert_at a (take n l) (drop n l) e) as (a' & E & Ha'); rewrite ?take_drop; try done.
    replace (length (take n l)) with n in E by (rewrite length_take; lia). unfold n in E at 1 2 3 4 5 6.
    rewrite Z2Nat.id, (array_count_holds a l) in E by (lia || done || apply Ho). exists a'. split; [exact E|exact Ha'].
Qed.

Lemma array_get_holds a l idx : layout a l -> fits a (length l) ->
  array_get a idx = Some (if idx <? 0 then list.last l else l !! Z.to_nat idx).
Proof.
  intros Hl Hf. unfold array_get. rewrite (array_count_holds a l) by done.
  destruct Hl as [He Hel Hc [Hh Ht] (H & T & Hd & HH & HT)].
  assert (forall l1 e l2, l = l1 ++ e :: l2 ->
    read_at (data a) (get_size a (head a + Z.of_nat (length l1))) (get_size a 1) = Some e) as Hread.
  { intros l1 e l2 ->. apply Forall_app in Hel as [Hel1 Hel2]. inversion Hel2 as [|? ? Hlen _]; subst.
    rewrite length_app in Hf. cbn [length] in Hf.
    rewrite (size_length a (length l1 + S (length l2)) _ (H ++ concat l1)), (size_length a (length l1 + S (length l2)) 1 e);
      [|lia|done|lia|lia|lia|done|lia|].
    - rewrite Hd, concat_app. cbn [concat]. rewrite <- !app_assoc, (app_assoc H). apply read_between.
    - pose proof (concat_length _ _ Hel1). rewrite length_app. lia. }
  destruct (Z.ltb_spec idx 0), (Z.leb_spec 0 idx); try lia; cbn [andb].
  - destruct l as [|e l _] using rev_ind; [done|]. rewrite length_app, last_snoc. cbn [length].
    replace (Z.of_nat (length l + 1) =? 0) with false by lia. replace (Z.of_nat (length l + 1) - 1) with (Z.of_nat (length l)) by lia.
    by rewrite (Hread l e []).
  - destruct (Z.leb_spec (Z.of_nat (length l)) idx).
    + rewrite lookup_ge_None_2 by lia. done.
    + destruct (lookup_lt_is_Some_2 l (Z.to_nat idx)) as [e Hlk]; [lia|]. rewrite Hlk.
      pose proof (Hread _ _ _ (eq_sym (take_drop_middle l (Z.to_nat idx) e Hlk))) as R.
      rewrite length_take, Nat.min_l in R by lia. rewrite Z2Nat.id in R by lia. by rewrite R.
Qed.

Lemma remove_tail_layout a l1 e l2 : holds a (l1 ++ e :: l2) -> fits a (length (l1 ++ e :: l2)) ->
  exists a', remove_tail a (Z.of_nat (length l1)) = Some a' /\ layout a' (l1 ++ l2) /\ esize a' = esize a /\ head a' <= 33.
Proof.
  intros [[He Hel Hc [Hh Htl] (H & T & Hd & HH & HT)] Hh32 Ht4] Hf. unfold remove_tail.
  assert (tail a <= 254) as Ht by (destruct Ht4 as [|[Hnil _]]; [done|by destruct l1]).
  apply Forall_app in Hel as [Hel1 Hel2]. inversion Hel2 as [|? ? Hlen Hel2']; subst.
  pose proof (concat_length _ _ Hel1) as Hl1. pose proof (concat_length _ _ Hel2') as Hl2. pose proof (elem_size_pos a ltac:(lia)).
  rewrite concat_app in Hd. cbn [concat] in Hd. rewrite <- !app_assoc, (app_assoc H) in Hd.
  rewrite length_app in Hc, Hf. cbn [length] in Hc, Hf. set (n := (length l1 + S (length l2))%nat) in *.
  assert (get_size a (Z.of_nat (length l1) + head a) = length (H ++ concat l1)) as E1.
  { apply (size_length a n); [lia|done|lia|]. rewrite length_app. lia. }
  assert (get_size a (Z.of_nat (length l1) + head a + 1) = (length (H ++ concat l1) + length e)%nat) as E2.
  { rewrite <- length_app. apply (size_length a n); [lia|done|lia|]. rewrite !length_app. lia. }
  assert (get_size a (u32 (count a - 1 - Z.of_nat (length l1))) = length (concat l2)) as E3.
  { unfold fits in Hf. rewrite uwrap_small by nia. apply (size_length a n); [lia|done|lia|lia]. }
  rewrite E1, E2, E3, Hd. destruct (memmove_down (H ++ concat l1) (concat l2) e T _ eq_refl) as (X & HX & E).
  rewrite E. cbn [mbind option_bind]. eexists. split; [done|]. split; [|cbn; lia].
  assert (0 <= count a - 1 < 2 ^ 32) by (unfold fits in Hf; nia).
  constructor; cbn; [done|by apply Forall_app|rewrite uwrap_small, length_app by lia; unfold n in Hc; lia|rewrite uwrap_small by lia; lia|].
  exists H, (X ++ T). rewrite concat_app, <- !app_assoc, length_app. unfold elem_size in *. cbn.
  rewrite (uwrap_small 8) by lia. split; [done|]. lia.
Qed.

Lemma remove_head_layout a l1 e l2 : holds a (l1 ++ e :: l2) -> fits a (length (l1 ++ e :: l2)) ->
  exists a', remove_head a (Z.of_nat (length l1)) = Some a' /\ layout a' (l1 ++ l2) /\ esize a' = esize a /\ head a' <= 33.
Proof.
  intros [[He Hel Hc [Hh Htl] (H & T & Hd & HH & HT)] Hh32 _] Hf. unfold remove_head.
  apply Forall_app in Hel as [Hel1 Hel2]. inversion Hel2 as [|? ? Hlen Hel2']; subst.
  pose proof (concat_length _ _ Hel1) as Hl1. pose proof (elem_size_pos a ltac:(lia)).
  rewrite concat_app in Hd. cbn [concat] in Hd. rewrite <- !app_assoc in Hd.
  rewrite length_app in Hc, Hf. cbn [length] in Hc, Hf. set (n := (length l1 + S (length l2))%nat) in *.
  assert (get_size a (head a) = length H) as E1 by (apply (size_length a n); [lia|done|lia|lia]).
  assert (get_size a (head a + 1) = (length H + length e)%nat) as E2.
  { rewrite <- length_app. apply (size_length a n); [lia|done|lia|]. rewrite !length_app. lia. }
  assert (get_size a (Z.of_nat (length l1)) = length (concat l1)) as E3 by (apply (size_length a n); [lia|done|lia|lia]).
  rewrite E1, E2, E3, Hd. destruct (memmove_up H (concat l1) e (concat l2 ++ T) _ eq_refl) as (X & HX & E).
  rewrite E. cbn [mbind option_bind]. eexists. split; [done|]. cbn. rewrite (uwrap_small 8) by lia. split; [|lia].
  assert (0 <= count a - 1 < 2 ^ 32) by (unfold fits in Hf; nia).
  constructor; cbn; [done|by apply Forall_app|rewrite uwrap_small, length_app by lia; unfold n in Hc; lia|lia|].
  exists (H ++ X), T. rewrite concat_app, <- !app_assoc, length_app. unfold elem_size in *. cbn. split; [done|]. lia.
Qed.

Lemma realloc_take d n : (n <= length d)%nat -> realloc junk d n = take n d.
Proof. intros Hn. unfold realloc. replace (n - length d)%nat with 0%nat by lia. apply app_nil_r. Qed.

Lemma array_compress_holds a l : layout a l -> fits a (length l) ->
  exists a', array_compress junk a = Some a' /\ holds a' l /\ esize a' = esize a /\ head a' = 0 /\ tail a' = 0 /\
    data a' = concat l.
Proof.
  intros [He Hel Hc [Hh Htl] (H & T & Hd & HH & HT)] Hf. unfold array_compress. pose proof (elem_size_pos a ltac:(lia)).
  pose proof (concat_length _ _ Hel) as Hl.
  assert (exists X, (if negb (head a =? 0)
      then d ← memmove (data a) 0 (get_size a (head a)) (get_size a (u32 (count a + tail a))); Some (d, tail a + head a)
      else Some (data a, tail a)) = Some (concat l ++ X, tail a + head a) /\
      Z.of_nat (length X) = (tail a + head a) * elem_size a) as (X & -> & HX).
  { destruct (Z.eqb_spec (head a) 0) as [E0|E0]; cbn [negb].
    - exists T. rewrite E0, Z.mul_0_l in HH. destruct H; [|cbn in HH; lia]. rewrite Hd, E0, Z.add_0_r. done.
    - assert (get_size a (head a) = length H) as -> by (apply (size_length a (length l)); [lia|done|lia|lia]).
      assert (get_size a (u32 (count a + tail a)) = length (concat l ++ T)) as ->.
      { unfold fits in Hf. rewrite uwrap_small by nia. apply (size_length a (length l)); [lia|done|lia|]. rewrite length_app. lia. }
      destruct (memmove_down [] (concat l ++ T) H [] _ eq_refl) as (X & HX & E). rewrite !app_nil_r in E. cbn [app length Nat.add] in E.
      rewrite Hd, E. cbn [mbind option_bind]. exists (T ++ X). rewrite app_assoc, length_app. split; [done|]. lia. }
  cbn [mbind option_bind]. eexists. split; [done|]. destruct (Z.eqb_spec (tail a + head a) 0) as [E0|E0]; cbn [negb esize head tail data].
  - rewrite E0, Z.mul_0_l in HX. destruct X; [|cbn in HX; lia]. rewrite app_nil_r. split; [|split_and!; done || lia].
    constructor; cbn; [|lia|lia]. constructor; cbn; try done. exists [], []. rewrite app_nil_r. cbn. by replace (tail a) with 0 by lia.
  - rewrite (size_length a (length l) _ (concat l)), realloc_take, take_app_length by (rewrite ?length_app; (done || lia)). split; [|done].
    constructor; cbn; [|lia|lia]. constructor; cbn; try done. exists [], []. rewrite app_nil_r. done.
Qed.

(** What [array_remove] does to the elements. *)
Definition remove_index (l : list chunk) (idx : Z) : nat := if idx <? 0 then (length l - 1)%nat else Z.to_nat idx.

Lemma array_remove_holds a l idx : holds a l -> fits a (length l) ->
  exists a', array_remove junk a idx = Some (l !! remove_index l idx, a') /\
    holds a' (delete (remove_index l idx) l) /\ esize a' = esize a.
Proof.
  intros Ho Hf. unfold array_remove. rewrite (array_get_holds a l idx) by (done || apply Ho). cbn [mbind option_bind].
  assert ((if idx <? 0 then list.last l else l !! Z.to_nat idx) = l !! remove_index l idx) as ->.
  { unfold remove_index. destruct (idx <? 0); [|done]. rewrite last_lookup. f_equal. lia. }
  destruct (l !! remove_index l idx) as [e|] eqn:Hlk; [|exists a; by rewrite delete_take_drop, take_ge, drop_ge, app_nil_r
    by (apply lookup_ge_None_1 in Hlk; lia)].
  rewrite (array_count_holds a l) by (done || apply Ho). pose proof (lookup_lt_Some _ _ _ Hlk) as Hlt.
  assert ((if idx <? 0 then Z.of_nat (length l) - 1 else idx) = Z.of_nat (remove_index l idx)) as ->.
  { unfold remove_index in *. destruct (Z.ltb_spec idx 0); lia. }
  set (n := remove_index l idx) in *. clearbody n. destruct (list_elem_of_split_length l n e Hlk) as (l1 & l2 & -> & ->).
  rewrite delete_middle.
  assert (exists a1, (if Z.quot (Z.of_nat (length (l1 ++ e :: l2))) 2 <? Z.of_nat (length l1) then remove_tail a (Z.of_nat (length l1))
    else remove_head a (Z.of_nat (length l1))) = Some a1 /\ layout a1 (l1 ++ l2) /\ esize a1 = esize a /\ head a1 <= 33)
    as (a1 & -> & Hla & Hes & Hh).
  { destruct (_ <? _); [by apply (remove_tail_layout a l1 e l2)|by apply (remove_head_layout a l1 e l2)]. }
  cbn [mbind option_bind]. unfold ARRAY_MAX_UNUSED. pose proof (la_room _ _ Hla). destruct (Z.ltb_spec 32 (head a1 + tail a1)).
  - destruct (array_compress_holds a1 _ Hla) as (a2 & -> & H2 & He2 & _).
    { apply (fits_esize a); [done|]. apply (fits_less a _ (length (l1 ++ e :: l2))); [rewrite !length_app; cbn; lia|apply Ho|done]. }
    cbn [mbind option_bind]. exists a2. split; [done|]. split; [done|congruence].
  - exists a1. split; [done|]. split; [|done]. constructor; [done|lia|lia].
Qed.

Lemma enumerate_holds a l (i : nat) : layout a l -> fits a (length l) ->
  enumerate a (Z.of_nat i) = Some (l !! i, Z.of_nat (if (i <? length l)%nat then S i else i)).
Proof.
  intros Hl Hf. unfold enumerate. rewrite (la_count _ _ Hl). pose proof (array_get_holds a l (Z.of_nat i) Hl Hf) as Hg.
  unfold array_get in Hg. rewrite (array_count_holds a l) in Hg by done. rewrite Nat2Z.id in Hg.
  replace (Z.of_nat i <? 0) with false in Hg by lia. replace (0 <=? Z.of_nat i) with true in Hg by lia. cbn [andb] in Hg.
  destruct (Z.leb_spec (Z.of_nat (length l)) (Z.of_nat i)).
  - rewrite (proj2 (Nat.ltb_ge _ _)) by lia. injection Hg as <-. done.
  - rewrite (proj2 (Nat.ltb_lt _ _)) by lia. rewrite (Z.add_comm _ (head a)). destruct (read_at _ _ _) as [e|]; [|done].
    cbn in Hg |- *. injection Hg as <-. f_equal. f_equal. lia.
Qed.

Lemma array_remove_at_holds a l (i : nat) : holds a l -> fits a (length l) ->
  exists a', array_remove_at junk a (Z.of_nat i) = Some (a', Z.of_nat (i - 1)) /\
    holds a' (if (i =? 0)%nat then l else delete (i - 1)%nat l) /\ esize a' = esize a.
Proof.
  intros Ho Hf. unfold array_remove_at. destruct (Nat.eqb_spec i 0) as [->|]; [by exists a|].
  replace (Z.of_nat i =? 0) with false by lia.
  destruct (array_remove_holds a l (Z.of_nat i - 1) Ho Hf) as (a' & -> & Ha' & He). cbn [mbind option_bind].
  assert (remove_index l (Z.of_nat i - 1) = (i - 1)%nat) as Hri.
  { unfold remove_index. replace (_ <? 0) with false by lia. lia. }
  rewrite Hri in Ha'. exists a'. split; [|done]. f_equal. f_equal. lia.
Qed.

Lemma array_create_holds esz reserve : holds (array_create junk esz reserve) [].
Proof.
  pose proof (uwrap_range 16 esz ltac:(lia)) as He. pose proof (uwrap_range 8 reserve ltac:(lia)) as Hr.
  unfold array_create. cbn [tail]. destruct (Z.eqb_spec (u8 reserve) 0) as [E|E]; cbn [negb].
  - constructor; [|done|by right]. constructor; cbn; try done; [rewrite E; lia|]. exists [], []. by rewrite E.
  - set (a := Array 0 (u16 esz) 0 (u8 reserve) []). constructor; [|done|by right]. constructor; cbn [count esize head tail]; try done; [lia|].
    exists [], (map junk (seq 0 (get_size a (u8 reserve)))). split; [reflexivity|]. split; [done|].
    assert (elem_size a = if u16 esz =? 0 then 8 else u16 esz) as Hes by reflexivity.
    rewrite length_map, length_seq, (get_size_fits a 0); [|cbn; lia| |lia].
    + change (elem_size (Array _ _ _ _ _)) with (elem_size a). destruct (Z.eqb_spec (u16 esz) 0); nia.
    + unfold fits. rewrite Hes. destruct (Z.eqb_spec (u16 esz) 0); lia.
Qed.

Lemma invoke_loop_holds a l n : layout a l -> fits a (length l) -> forall i, (i + n = length l)%nat ->
  invoke_loop a (head a + Z.of_nat i) n = Some (imap (fun j e => (e, Z.of_nat (i + j))) (drop i l)).
Proof.
  intros Hl Hf. induction n as [|n IH]; intros i Hi; cbn [invoke_loop].
  { by rewrite drop_ge by lia. }
  pose proof (enumerate_holds a l i Hl Hf) as He. unfold enumerate in He. rewrite (la_count _ _ Hl) in He.
  replace (Z.of_nat (length l) <=? Z.of_nat i) with false in He by lia. rewrite (Z.add_comm _ (head a)) in He.
  destruct (lookup_lt_is_Some_2 l i) as [e Hlk]; [lia|]. rewrite Hlk in He.
  destruct (read_at _ _ _) as [x|]; [|done]. cbn [mbind option_bind] in *. injection He as -> _.
  replace (head a + Z.of_nat i + 1) with (head a + Z.of_nat (S i)) by lia. rewrite (IH (S i)) by lia. cbn [mbind option_bind].
  rewrite (drop_S _ _ _ Hlk). cbn [imap]. f_equal. f_equal; [f_equal; lia|]. apply imap_ext. intros j x' _. cbn. f_equal. lia.
Qed.

Lemma array_invoke_holds a l : layout a l -> fits a (length l) ->
  array_invoke a = Some (imap (fun j e => (e, Z.of_nat j)) l).
Proof.
  intros Hl Hf. unfold array_invoke. rewrite (la_count _ _ Hl), Nat2Z.id.
  pose proof (invoke_loop_holds a l (length l) Hl Hf 0 ltac:(lia)) as E. by rewrite Z.add_0_r in E.
Qed.

Lemma imap_fst (l : list chunk) (f : nat -> Z) : (fst <$> imap (fun j e => (e, f j)) l) = l.
Proof. revert f. induction l as [|x l IH]; intros f; [done|]. cbn. f_equal. apply (IH (fun j => f (S j))). Qed.

(** Sorting with any [qsort] that permutes. *)
Lemma array_sort_holds qsort cmp a l : (forall l, qsort cmp l ≡ₚ l) -> holds a l -> fits a (length l) ->
  exists a', array_sort qsort a cmp = Some a' /\ holds a' (qsort cmp l) /\ esize a' = esize a.
Proof.
  intros Hq Ho Hf. unfold array_sort. rewrite (array_invoke_holds a l) by (done || apply Ho). cbn [mbind option_bind].
  rewrite imap_fst. destruct Ho as [[He Hel Hc [Hh Htl] (H & T & Hd & HH & HT)] Hh32 Ht4].
  assert (Forall (fun e => Z.of_nat (length e) = elem_size a) (qsort cmp l)) as Hqe by (by rewrite Hq).
  assert (length (qsort cmp l) = length l) as Hql by (by rewrite Hq).
  rewrite (size_length a (length l) _ H), Hd, write_between; [|apply Nat2Z.inj; by rewrite !(concat_length _ (elem_size a)), Hql|lia|done|lia|lia].
  cbn [mbind option_bind]. eexists. split; [done|]. split; [|done].
  constructor; cbn; [|done|destruct Ht4 as [|[-> ?]]; [by left|right; split; [by destruct (qsort cmp [])|done]]].
  constructor; cbn; try done; [lia|by exists H, T].
Qed.

(** ** Arrays as sequences *)

Inductive command : Type :=
| Insert (idx : Z) (e : chunk)
| Remove (idx : Z)
| Get (idx : Z)
| Count
| Compress
| Restart
| Enumerate
| RemoveAt.

Inductive output : Type :=
| Nothing
| Element (e : option chunk)
| Number (n : Z).

(** An operation on an array with an enumerator. *)
Definition step (s : array_t * Z) (c : command) : option (output * (array_t * Z)) :=
  let '(a, i) := s in
  match c with
  | Insert idx e => a ← array_insert junk a idx e; Some (Nothing, (a, i))
  | Remove idx => '(e, a) ← array_remove junk a idx; Some (Element e, (a, i))
  | Get idx => e ← array_get a idx; Some (Element e, (a, i))
  | Count => Some (Number (array_count a), (a, i))
  | Compress => a ← array_compress junk a; Some (Nothing, (a, i))
  | Restart => Some (Nothing, (a, 0))
  | Enumerate => '(e, i) ← enumerate a i; Some (Element e, (a, i))
  | RemoveAt => '(a, i) ← array_remove_at junk a i; Some (Nothing, (a, i))
  end.

(** The same on the sequence of the elements. *)
Definition spec_step (s : list chunk * nat) (c : command) : output * (list chunk * nat) :=
  let '(l, i) := s in
  match c with
  | Insert idx e => (Nothing, (insert_spec l idx e, i))
  | Remove idx => (Element (l !! remove_index l idx), (delete (remove_index l idx) l, i))
  | Get idx => (Element (l !! remove_index l idx), (l, i))
  | Count => (Number (Z.of_nat (length l)), (l, i))
  | Compress => (Nothing, (l, i))
  | Restart => (Nothing, (l, 0%nat))
  | Enumerate => (Element (l !! i), (l, if (i <? length l)%nat then S i else i))
  | RemoveAt => (Nothing, (if (i =? 0)%nat then l else delete (i - 1)%nat l, (i - 1)%nat))
  end.

Fixpoint run (s : array_t * Z) (cs : list command) : option (list output * (array_t * Z)) :=
  match cs with
  | [] => Some ([], s)
  | c :: cs => '(o, s) ← step s c; '(os, s) ← run s cs; Some (o :: os, s)
  end.

Fixpoint spec_run (s : list chunk * nat) (cs : list command) : list output * (list chunk * nat) :=
  match cs with
  | [] => ([], s)
  | c :: cs => let '(o, s) := spec_step s c in let '(os, s) := spec_run s cs in (o :: os, s)
  end.

(** Elements that are inserted have the size of the elements. *)
Definition sized (esz : Z) (c : command) : Prop :=
  match c with Insert _ e => Z.of_nat (length e) = if esz =? 0 then 8 else esz | _ => True end.

Lemma insert_spec_length l idx e : (length (insert_spec l idx e) <= S (length l))%nat.
Proof.
  unfold insert_spec. destruct (idx <? 0); [rewrite length_app; cbn; lia|]. destruct (_ <=? _); [|lia].
  rewrite length_app. cbn. rewrite length_take, length_drop. lia.
Qed.

Lemma delete_length_le (l : list chunk) n : (length (delete n l) <= length l)%nat.
Proof. rewrite delete_take_drop, length_app, length_take, length_drop. lia. Qed.

Lemma array_spec_length l i c : (length (fst (snd (spec_step (l, i) c))) <= S (length l))%nat.
Proof.
  destruct c; cbn; try lia; [apply insert_spec_length|pose proof (delete_length_le l (remove_index l idx)); lia|].
  destruct (i =? 0)%nat; [lia|]. pose proof (delete_length_le l (i - 1)). lia.
Qed.

Lemma array_step_refines a l (i : nat) c : holds a l -> fits a (length l) -> sized (esize a) c ->
  let '(o, (l', i')) := spec_step (l, i) c in
  exists a', step (a, Z.of_nat i) c = Some (o, (a', Z.of_nat i')) /\ holds a' l' /\ esize a' = esize a.
Proof.
  intros Ho Hf Hs. destruct c as [idx e|idx|idx| | | | |]; cbn [step spec_step].
  - destruct (array_insert_holds a l idx e Ho Hf Hs) as (a' & -> & Ha'). by exists a'.
  - destruct (array_remove_holds a l idx Ho Hf) as (a' & -> & Ha'). by exists a'.
  - rewrite (array_get_holds a l) by (done || apply Ho). exists a. split; [|done]. cbn. do 2 f_equal. f_equal.
    unfold remove_index. destruct (idx <? 0); [|done]. rewrite last_lookup. f_equal. lia.
  - rewrite (array_count_holds a l) by (done || apply Ho). by exists a.
  - destruct (array_compress_holds a l) as (a' & -> & Ha' & He & _); [apply Ho|done|]. by exists a'.
  - by exists a.
  - rewrite (enumerate_holds a l) by (done || apply Ho). by exists a.
  - destruct (array_remove_at_holds a l i Ho Hf) as (a' & -> & Ha'). by exists a'.
Qed.

Lemma array_run_refines cs : forall a l (i : nat), holds a l -> fits a (length l + length cs) -> Forall (sized (esize a)) cs ->
  let '(os, (l', i')) := spec_run (l, i) cs in
  exists a', run (a, Z.of_nat i) cs = Some (os, (a', Z.of_nat i')) /\ holds a' l' /\ esize a' = esize a /\
    (length l' <= length l + length cs)%nat.
Proof.
  induction cs as [|c cs IH]; intros a l i Ho Hf Hs; cbn [spec_run run length].
  { exists a. split_and!; try done. lia. }
  inversion Hs as [|? ? Hc Hcs]; subst. pose proof (array_step_refines a l i c Ho) as Hst. pose proof (array_spec_length l i c) as Hlen.
  destruct (spec_step (l, i) c) as [o [l1 i1]]. cbn [fst snd] in Hlen. cbn [length] in Hf.
  destruct Hst as (a1 & E1 & H1 & He1); [eapply fits_less; [|apply Ho|exact Hf]; lia|done|].
  specialize (IH a1 l1 i1 H1). rewrite E1. cbn [mbind option_bind].
  destruct (spec_run (l1, i1) cs) as [os [l2 i2]]. destruct IH as (a2 & E2 & H2 & He2 & Hl2).
  - apply (fits_esize a); [done|]. eapply fits_less; [|apply Ho|exact Hf]. lia.
  - by rewrite He1.
  - rewrite E2. cbn [mbind option_bind]. exists a2. split_and!; try done; [congruence|lia].
Qed.
End Proofs.

(** ** Theorems *)

(** C29: an array implements the sequence of its elements: every series of insertions,
    removals, accesses and compressions, with an enumerator open on it, stays within the
    block of memory and the widths of the counters, gives the results the sequence gives,
    and ends with an array whose walk visits the elements of the sequence.  The elements
    and the room around them must be less than 2^31 bytes, because [get_size] multiplies in
    32 bits and the count is used as an [int]. *)
Theorem array_refines junk esz reserve cs :
  0 <= esz < 2 ^ 16 -> (Z.of_nat (length cs) + 512) * (if esz =? 0 then 8 else esz) < 2 ^ 31 -> Forall (sized esz) cs ->
  let '(os, (l, i)) := spec_run ([], 0%nat) cs in
  exists a, run junk (array_create junk esz reserve, 0) cs = Some (os, (a, Z.of_nat i)) /\
    array_count a = Z.of_nat (length l) /\ array_invoke a = Some (imap (fun j e => (e, Z.of_nat j)) l).
Proof.
  intros He Hn Hs. pose proof (array_create_holds junk esz reserve) as Hc.
  assert (esize (array_create junk esz reserve) = esz) as Hes.
  { unfold array_create. cbn [tail]. destruct (negb _); cbn [esize]; apply (uwrap_small 16); lia. }
  pose proof (array_run_refines junk cs (array_create junk esz reserve) [] 0 Hc) as Hr. rewrite Hes in Hr.
  assert (fits (array_create junk esz reserve) (length cs)) as Hf by (unfold fits, elem_size; by rewrite Hes).
  destruct (spec_run ([], 0%nat) cs) as [os [l i]]. destruct (Hr Hf Hs) as (a & E & Ha & Hea & Hl). exists a. split; [exact E|].
  assert (fits a (length l)) as Hfl.
  { eapply (fits_less _ _ (length cs)); [exact Hl|rewrite Hea; lia|]. eapply fits_esize; [|exact Hf]. congruence. }
  split; [apply array_count_holds|apply array_invoke_holds]; done || apply Ha.
Qed.

(** Series with an enumerator that removes. *)
Definition array_commands : list command :=
  [Insert (-1) [1; 2]; Insert 0 [3; 4]; Insert 1 [5; 6]; Get (-1); Enumerate; Enumerate; RemoveAt; Enumerate; Remove 0; Compress; Count].

Lemma array_refines_witness : let '(os, (l, i)) := spec_run ([], 0%nat) array_commands in
  exists a, run (fun _ => 170) (array_create (fun _ => 170) 2 1, 0) array_commands = Some (os, (a, Z.of_nat i)) /\
    array_count a = Z.of_nat (length l) /\ array_invoke a = Some (imap (fun j e => (e, Z.of_nat j)) l).
Proof.
  refine (array_refines (fun _ => 170) 2 1 array_commands _ _ _); [lia|cbn; lia|]. unfold array_commands.
  repeat constructor.
Defined.
