(* ===== verification/Scheduler.v ===== *)
(** The scheduler of timed jobs ([src/libstrongswan/processing/scheduler.c]): a binary heap
    of events, the thread that waits for the first of them, and the threads that schedule
    jobs. *)
From S2P Require Import Prelude.
From Stdlib Require Import Lia ZArith Sorted.
From stdpp Require Import base numbers list option relations.
Local Open Scope Z_scope.

Record timeval := Timeval { tv_sec : Z; tv_usec : Z }.

(** Greater than zero if [a] is later, less if it is earlier. *)
Definition timeval_cmp (a b : timeval) : Z :=
  if tv_sec b <? tv_sec a then 1
  else if tv_sec a <? tv_sec b then -1
  else if tv_usec b <? tv_usec a then 1
  else if tv_usec a <? tv_usec b then -1
  else 0.

(** [timeradd] of the C library. *)
Definition timeradd (a b : timeval) : timeval :=
  let usec := tv_usec a + tv_usec b in
  if 1000000 <=? usec then Timeval (tv_sec a + tv_sec b + 1) (usec - 1000000)
  else Timeval (tv_sec a + tv_sec b) usec.

Definition HEAP_SIZE_DEFAULT : Z := 64.

Section Scheduler.
Context {J : Type}.

Record event_t := Event { time : timeval; job : J }.

(** The slot zero of the heap is not used; [None] is a slot that was never written. *)
Record scheduler := Scheduler {
  heap : list (option event_t);
  heap_size : Z;            (* u_int *)
  event_count : Z;          (* u_int *)
}.

(** Accesses to the array of pointers, [None] outside of it or through a pointer that was
    never written. *)
Definition slot (h : list (option event_t)) (i : nat) : option event_t := h !! i ≫= id.

Definition set_slot (h : list (option event_t)) (i : nat) (e : event_t) : option (list (option event_t)) :=
  if (i <? length h)%nat then Some (<[i := Some e]> h) else None.

(** The first event, [NULL] if there is none. *)
Definition peek_event (s : scheduler) : option (option event_t) :=
  if 0 <? event_count s then Some <$> slot (heap s) 1 else Some None.

(** The loop that seeps the event [top] down from [position]; [n] is the count of events, and
    [fuel] bounds the depth. *)
Fixpoint seep_down (fuel : nat) (h : list (option event_t)) (n position : nat) (top : event_t)
    : option (list (option event_t)) :=
  match fuel with
  | O => None
  | S fuel =>
    if (2 * position <=? n)%nat then
      let child := (2 * position)%nat in
      c ← slot h child;
      '(child, c) ← (if (child + 1 <=? n)%nat then
                       r ← slot h (child + 1);
                       Some (if timeval_cmp (time r) (time c) <? 0 then ((child + 1)%nat, r) else (child, c))
                     else Some (child, c));
      if timeval_cmp (time top) (time c) <=? 0 then set_slot h position top
      else h ← set_slot h position c; seep_down fuel h n child top
    else set_slot h position top
  end.

Definition remove_event (s : scheduler) : option (option event_t * scheduler) :=
  if event_count s =? 0 then Some (None, s)
  else
    event ← slot (heap s) 1;
    top ← slot (heap s) (Z.to_nat (event_count s));
    h ← set_slot (heap s) 1 top;
    let n := u32 (event_count s - 1) in
    h ← (if 1 <? n then seep_down (Z.to_nat n) h (Z.to_nat n) 1 top else Some h);
    Some (Some event, Scheduler h (heap_size s) n).

(** What a run of the scheduling job does: queue a job, or wait, for a time at most. *)
Inductive outcome : Type :=
| QueueJob (j : J)
| WaitUntil (tv : timeval)
| Wait.

Definition schedule (s : scheduler) (now : timeval) : option (outcome * scheduler) :=
  e ← peek_event s;
  match e with
  | Some event =>
    if 0 <=? timeval_cmp now (time event) then
      '(_, s) ← remove_event s; Some (QueueJob (job event), s)
    else Some (WaitUntil (time event), s)
  | None => Some (Wait, s)
  end.

Definition get_job_load (s : scheduler) : Z := event_count s.

(** The loop that moves parents down until there is a place for [event]. *)
Fixpoint bubble_up (fuel : nat) (h : list (option event_t)) (position : nat) (event : event_t)
    : option (list (option event_t)) :=
  match fuel with
  | O => None
  | S fuel =>
    if (1 <? position)%nat then
      p ← slot h (position / 2);
      if 0 <? timeval_cmp (time p) (time event)
      then h ← set_slot h position p; bubble_up fuel h (position / 2) event
      else set_slot h position event
    else set_slot h position event
  end.

(** [realloc] keeps what fits. *)
Definition resize_heap (h : list (option event_t)) (n : nat) : list (option event_t) :=
  take n h ++ replicate (n - length h) None.

Definition schedule_job_tv (s : scheduler) (j : J) (tv : timeval) : option scheduler :=
  let event := Event tv j in
  let n := u32 (event_count s + 1) in
  let '(h, size) := if heap_size s <? n then
                      let size := u32 (heap_size s * 2) in (resize_heap (heap s) (Z.to_nat (u32 (size + 1))), size)
                    else (heap s, heap_size s) in
  h ← bubble_up (Z.to_nat n) h (Z.to_nat n) event;
  Some (Scheduler h size n).

Definition schedule_job (s : scheduler) (now : timeval) (j : J) (secs : Z) : option scheduler :=
  schedule_job_tv s j (Timeval (tv_sec now + secs) (tv_usec now)).

Definition schedule_job_ms (s : scheduler) (now : timeval) (j : J) (ms : Z) : option scheduler :=
  schedule_job_tv s j (timeradd now (Timeval (ms / 1000) (ms mod 1000 * 1000))).

(** The events that are destroyed. *)
Fixpoint flush_loop (fuel : nat) (s : scheduler) : option (list event_t * scheduler) :=
  match fuel with
  | O => None
  | S fuel =>
    '(e, s) ← remove_event s;
    match e with
    | None => Some ([], s)
    | Some e => '(es, s) ← flush_loop fuel s; Some (e :: es, s)
    end
  end.

Definition flush (s : scheduler) : option (list event_t * scheduler) :=
  flush_loop (S (Z.to_nat (event_count s))) s.

Definition scheduler_create : scheduler :=
  Scheduler (replicate (Z.to_nat (HEAP_SIZE_DEFAULT + 1)) None) HEAP_SIZE_DEFAULT 0.
End Scheduler.
#[global] Arguments event_t : clear implicits.
#[global] Arguments scheduler : clear implicits.
#[global] Arguments outcome : clear implicits.

(** ** Times *)

Definition tle (a b : timeval) : Prop := timeval_cmp a b <= 0.

Ltac cmp_cases := unfold tle, timeval_cmp in *; repeat (case_match; bsplit); lia.

Lemma tle_refl a : tle a a.
Proof. cmp_cases. Qed.

Lemma tle_trans a b c : tle a b -> tle b c -> tle a c.
Proof. unfold tle, timeval_cmp. repeat case_match; lia. Qed.

Lemma tle_total a b : 0 <= timeval_cmp a b <-> tle b a.
Proof. unfold tle, timeval_cmp. repeat case_match; lia. Qed.

Lemma tle_or a b : tle a b \/ tle b a.
Proof. unfold tle, timeval_cmp. repeat case_match; lia. Qed.

(** ** The heap *)
Section Heap.
Context {J : Type}.
Abbreviation event := (event_t J).
Implicit Types (h : list (option event)) (e : event).

(** The events of the slots from one on. *)
Definition slots h (n : nat) : list (option event) := take n (drop 1 h).

(** The event in [i] is not before the one in the slot above. *)
Definition ordered h (i : nat) : Prop :=
  forall p c, slot h (i / 2) = Some p -> slot h i = Some c -> tle (time p) (time c).

Record heap_ok h (n : nat) : Prop := HeapOk {
  hk_length : (n < length h)%nat;
  hk_full : forall i, (1 <= i <= n)%nat -> is_Some (slot h i);
  hk_order : forall i, (2 <= i <= n)%nat -> ordered h i;
}.

Lemma slot_insert h i j e : (i < length h)%nat ->
  slot (<[i := Some e]> h) j = if decide (i = j) then Some e else slot h j.
Proof.
  intros Hi. unfold slot. destruct (decide (i = j)) as [->|Hn]; [by rewrite list_lookup_insert_eq|by rewrite list_lookup_insert_ne].
Qed.

(** Exchanging an item for another. *)
Lemma insert_exchange {X} (l : list X) i x y : l !! i = Some x -> x :: <[i := y]> l ≡ₚ y :: l.
Proof.
  intros Hl. rewrite (insert_take_drop l i y) by (by eapply lookup_lt_Some).
  rewrite <- (take_drop_middle l i x Hl) at 3. rewrite !(Permutation_app_comm (take i l)). cbn. constructor.
Qed.

Lemma insert_swap {X} (l : list X) i j x y : l !! i = Some x -> l !! j = Some y -> i <> j ->
  <[j := x]> (<[i := y]> l) ≡ₚ l.
Proof.
  intros Hi Hj Hn. apply (Permutation_cons_inv (a := y)). rewrite insert_exchange by (by rewrite list_lookup_insert_ne).
  by apply insert_exchange.
Qed.

Lemma slots_insert h n i e : (1 <= i <= n)%nat -> slots (<[i := Some e]> h) n = <[(i - 1)%nat := Some e]> (slots h n).
Proof.
  intros Hi. unfold slots. destruct h as [|x h]; [by destruct i, n|].
  destruct i as [|i]; [lia|]. cbn [insert list_insert drop]. rewrite !drop_0. cbn [Nat.sub]. rewrite Nat.sub_0_r. apply take_insert_lt. lia.
Qed.

Lemma slots_lookup h n i e : (1 <= i <= n)%nat -> slot h i = Some e -> slots h n !! (i - 1)%nat = Some (Some e).
Proof.
  intros Hi Hs. unfold slots. rewrite lookup_take_lt, lookup_drop by lia. replace (1 + (i - 1))%nat with i by lia.
  unfold slot in Hs. destruct (h !! i) as [x|]; [|done]. cbn in Hs. unfold id in Hs. by subst.
Qed.

(** Two events change places. *)
Lemma slots_swap h n i j e p : (1 <= i <= n)%nat -> (1 <= j <= n)%nat -> i <> j -> (n < length h)%nat ->
  slot h j = Some p -> slots (<[j := Some e]> (<[i := Some p]> h)) n ≡ₚ slots (<[i := Some e]> h) n.
Proof.
  intros Hi Hj Hn Hl Hs.
  assert (<[j := Some e]> (<[i := Some p]> h) = <[j := Some e]> (<[i := Some p]> (<[i := Some e]> h))) as ->
    by (by rewrite (list_insert_insert_eq h i)).
  rewrite (slots_insert _ n j) by done. rewrite (slots_insert (<[i := Some e]> h) n i) by done. apply insert_swap; [| |lia].
  - apply slots_lookup; [done|]. by rewrite slot_insert, decide_True by lia.
  - apply slots_lookup; [done|]. by rewrite slot_insert, decide_False by lia.
Qed.

Lemma set_slot_in h i e : (i < length h)%nat -> set_slot h i e = Some (<[i := Some e]> h).
Proof. intros Hi. unfold set_slot. by rewrite (proj2 (Nat.ltb_lt _ _)). Qed.

Lemma half_lt i : (1 < i)%nat -> (1 <= i / 2 < i)%nat.
Proof. intros Hi. split; [apply Nat.div_le_lower_bound; lia|apply Nat.div_lt; lia]. Qed.

(** The heap with a hole at [pos], for which the event [e] is meant: the order holds but
    between the hole and the slot above it. *)
Record rising h (n pos : nat) e : Prop := Rising {
  ri_pos : (1 <= pos <= n)%nat;
  ri_length : (n < length h)%nat;
  ri_full : forall i, (1 <= i <= n)%nat -> i <> pos -> is_Some (slot h i);
  ri_order : forall i, (2 <= i <= n)%nat -> i <> pos -> ordered (<[pos := Some e]> h) i;
  ri_above : forall c p x, (2 <= c <= n)%nat -> (c / 2 = pos)%nat -> (2 <= pos)%nat ->
    slot h (pos / 2) = Some p -> slot h c = Some x -> tle (time p) (time x);
}.

Lemma rising_done h n pos e : rising h n pos e -> ((2 <= pos)%nat -> forall p, slot h (pos / 2) = Some p -> tle (time p) (time e)) ->
  heap_ok (<[pos := Some e]> h) n.
Proof.
  intros [Hp Hl Hf Ho _] He. constructor.
  - by rewrite length_insert.
  - intros i Hi. rewrite slot_insert by lia. destruct (decide (pos = i)); [done|]. by apply Hf; [|congruence].
  - intros i Hi. destruct (decide (i = pos)) as [->|]; [|by apply Ho]. intros p c. rewrite !slot_insert by lia.
    pose proof (half_lt pos). rewrite (decide_True (P := pos = pos)) by done. rewrite decide_False by lia.
    intros Hpp [= <-]. apply He; [lia|done].
Qed.

Lemma rising_up h n pos e p : rising h n pos e -> (2 <= pos)%nat -> slot h (pos / 2) = Some p -> tle (time e) (time p) ->
  rising (<[pos := Some p]> h) n (pos / 2) e.
Proof.
  intros [Hp Hl Hf Ho Ha] H2 Hs He. pose proof (half_lt pos ltac:(lia)) as Hh. constructor.
  - lia.
  - by rewrite length_insert.
  - intros i Hi Hn. rewrite slot_insert by lia. destruct (decide (pos = i)); [done|]. apply Hf; [done|congruence].
  - intros i Hi Hn q c. rewrite !slot_insert by (rewrite ?length_insert; lia). rewrite (decide_False (P := (pos / 2 = i)%nat)) by congruence.
    destruct (decide (pos = i)) as [<-|Hni].
    + rewrite decide_True by done. intros [= <-] [= <-]. done.
    + assert (slot (<[pos := Some e]> h) i = slot h i) as Esi by (by rewrite slot_insert, decide_False by lia).
      destruct (decide (pos / 2 = i / 2)%nat) as [Eq|Nq].
      * intros [= <-] Hc. apply (tle_trans _ (time p)); [done|]. apply (Ho i Hi ltac:(congruence)); [|by rewrite Esi].
        rewrite slot_insert, decide_False by lia. by rewrite <- Eq.
      * destruct (decide (pos = i / 2)%nat) as [Eq2|Nq2].
        -- intros [= <-] Hc. apply (Ha i p c); [done|congruence|done|done|done].
        -- intros Hq Hc. apply (Ho i Hi ltac:(congruence)); [|by rewrite Esi]. by rewrite slot_insert, decide_False by lia.
  - intros c q x Hc Hcp H2' Hq Hx. pose proof (half_lt (pos / 2) ltac:(lia)) as Hh2.
    rewrite slot_insert, decide_False in Hq by lia.
    assert (tle (time q) (time p)) as Hqp.
    { apply (Ho (pos / 2)%nat ltac:(lia) ltac:(lia)); rewrite slot_insert, decide_False by lia; done. }
    rewrite slot_insert in Hx by lia. destruct (decide (pos = c)) as [->|Hnc]; [by injection Hx as <-|].
    apply (tle_trans _ (time p)); [done|].
    apply (Ho c Hc ltac:(congruence)); rewrite slot_insert, decide_False by lia; [by rewrite Hcp|done].
Qed.

Lemma bubble_up_spec fuel : forall h n pos e, (pos <= fuel)%nat -> rising h n pos e ->
  exists h', bubble_up fuel h pos e = Some h' /\ heap_ok h' n /\ slots h' n ≡ₚ slots (<[pos := Some e]> h) n /\
    length h' = length h.
Proof.
  induction fuel as [|fuel IH]; intros h n pos e Hfu Hr; [destruct Hr; lia|]. cbn [bubble_up].
  pose proof (ri_pos _ _ _ _ Hr) as Hp. pose proof (ri_length _ _ _ _ Hr) as Hl. rewrite (set_slot_in h) by lia.
  destruct (Nat.ltb_spec 1 pos).
  - pose proof (half_lt pos ltac:(lia)) as Hh. destruct (ri_full _ _ _ _ Hr (pos / 2)%nat ltac:(lia) ltac:(lia)) as [p Hs]. rewrite Hs.
    cbn [mbind option_bind]. destruct (Z.ltb_spec 0 (timeval_cmp (time p) (time e))) as [Hc|Hc].
    + rewrite set_slot_in by lia. cbn [mbind option_bind].
      destruct (IH (<[pos := Some p]> h) n (pos / 2)%nat e) as (h' & -> & Hk & Hpm & Hlen); [lia| |].
      { apply rising_up; try done. apply tle_total. lia. }
      exists h'. split; [done|]. split; [done|]. split; [|by rewrite Hlen, length_insert]. rewrite Hpm.
      apply slots_swap; (lia || done).
    + eexists. split; [done|]. split; [|by rewrite length_insert]. apply rising_done; [done|]. intros _ q Hq.
      rewrite Hs in Hq. by injection Hq as <-.
  - eexists. split; [done|]. split; [|by rewrite length_insert]. apply rising_done; [done|]. lia.
Qed.

(** The heap with a hole at [pos], for which the event [e] is meant: the order holds but
    between the hole and the slots below it. *)
Record falling h (n pos : nat) e : Prop := Falling {
  fa_pos : (1 <= pos <= n)%nat;
  fa_length : (n < length h)%nat;
  fa_full : forall i, (1 <= i <= n)%nat -> i <> pos -> is_Some (slot h i);
  fa_order : forall i, (2 <= i <= n)%nat -> i <> pos -> (i / 2 <> pos)%nat -> ordered h i;
  fa_above : forall p, (2 <= pos)%nat -> slot h (pos / 2) = Some p -> tle (time p) (time e) /\
    forall c x, (2 <= c <= n)%nat -> (c / 2 = pos)%nat -> slot h c = Some x -> tle (time p) (time x);
}.

Lemma falling_done h n pos e : falling h n pos e ->
  (forall c x, (2 <= c <= n)%nat -> (c / 2 = pos)%nat -> slot h c = Some x -> tle (time e) (time x)) ->
  heap_ok (<[pos := Some e]> h) n.
Proof.
  intros [Hp Hl Hf Ho Ha] He. constructor.
  - by rewrite length_insert.
  - intros i Hi. rewrite slot_insert by lia. destruct (decide (pos = i)); [done|]. by apply Hf; [|congruence].
  - intros i Hi p c. pose proof (half_lt i ltac:(lia)) as Hh. rewrite !slot_insert by lia.
    destruct (decide (pos = i / 2)%nat) as [E|E].
    + rewrite decide_False by lia. intros [= <-]. by apply He; [lia|].
    + destruct (decide (pos = i)) as [<-|]; [|apply Ho; lia]. intros Hpp [= <-].
      apply (Ha p); [lia|done].
Qed.

Lemma falling_down h n pos e c x : falling h n pos e -> (2 <= c <= n)%nat -> (c / 2 = pos)%nat -> slot h c = Some x ->
  tle (time x) (time e) ->
  (forall d y, (2 <= d <= n)%nat -> (d / 2 = pos)%nat -> slot h d = Some y -> tle (time x) (time y)) ->
  falling (<[pos := Some x]> h) n c e.
Proof.
  intros [Hp Hl Hf Ho Ha] Hc Hcp Hx Hxe Hmin. pose proof (half_lt c ltac:(lia)) as Hhc. constructor.
  - lia.
  - by rewrite length_insert.
  - intros i Hi Hn. rewrite slot_insert by lia. destruct (decide (pos = i)); [done|]. apply Hf; [done|congruence].
  - intros i Hi Hn Hn2 p y. pose proof (half_lt i ltac:(lia)) as Hhi. rewrite !slot_insert by lia.
    destruct (decide (pos = i / 2)%nat) as [E|E].
    + rewrite decide_False by lia. intros [= <-]. by apply Hmin; [lia|].
    + destruct (decide (pos = i)) as [<-|]; [|apply Ho; lia]. intros Hpp [= <-]. by apply (Ha p ltac:(lia) Hpp) with (c := c).
  - intros p Hc2 Hs. rewrite Hcp, slot_insert, decide_True in Hs by (done || lia). injection Hs as <-. split; [done|].
    intros d y Hd Hdc Hy. pose proof (half_lt d ltac:(lia)) as Hhd. rewrite slot_insert, decide_False in Hy by lia.
    apply (Ho d); [done|lia|lia|by rewrite Hdc|done].
Qed.

Lemma children i pos : (i / 2 = pos)%nat -> (i = 2 * pos \/ i = 2 * pos + 1)%nat.
Proof. intros <-. pose proof (Nat.div_mod_eq i 2). pose proof (Nat.mod_upper_bound i 2). lia. Qed.

Lemma child_half pos : (2 * pos / 2 = pos)%nat /\ ((2 * pos + 1) / 2 = pos)%nat.
Proof. split; symmetry; [apply (Nat.div_unique _ _ _ 0)|apply (Nat.div_unique _ _ _ 1)]; lia. Qed.

(** The slot below with the earlier event. *)
Lemma smaller_child h n pos e : falling h n pos e -> (2 * pos <= n)%nat ->
  exists c x, (c0 ← slot h (2 * pos);
    (if (2 * pos + 1 <=? n)%nat then
       r ← slot h (2 * pos + 1);
       Some (if timeval_cmp (time r) (time c0) <? 0 then ((2 * pos + 1)%nat, r) else ((2 * pos)%nat, c0))
     else Some ((2 * pos)%nat, c0))) = Some (c, x) /\
    (2 <= c <= n)%nat /\ (c / 2 = pos)%nat /\ slot h c = Some x /\
    forall d y, (2 <= d <= n)%nat -> (d / 2 = pos)%nat -> slot h d = Some y -> tle (time x) (time y).
Proof.
  intros [Hp Hl Hf _ _] Hn. destruct (child_half pos) as [H2 H3].
  destruct (Hf (2 * pos)%nat ltac:(lia) ltac:(lia)) as [c0 Hc0]. rewrite Hc0. cbn [mbind option_bind].
  destruct (Nat.leb_spec (2 * pos + 1) n).
  - destruct (Hf (2 * pos + 1)%nat ltac:(lia) ltac:(lia)) as [r Hr]. rewrite Hr. cbn [mbind option_bind].
    destruct (Z.ltb_spec (timeval_cmp (time r) (time c0)) 0) as [Hlt|Hge].
    + eexists _, _. split; [done|]. split_and!; [lia|lia|done|done|]. intros d y _ [->| ->]%children Hy; simplify_eq; [unfold tle; lia|apply tle_refl].
    + eexists _, _. split; [done|]. split_and!; [lia|lia|done|done|]. intros d y _ [->| ->]%children Hy; simplify_eq; [apply tle_refl|by apply tle_total].
  - eexists _, _. split; [done|]. split_and!; [lia|lia|done|done|]. intros d y Hd [->| ->]%children Hy; [|lia]. simplify_eq. apply tle_refl.
Qed.

Lemma seep_down_spec fuel : forall h n pos e, (n < fuel + pos)%nat -> falling h n pos e ->
  exists h', seep_down fuel h n pos e = Some h' /\ heap_ok h' n /\ slots h' n ≡ₚ slots (<[pos := Some e]> h) n /\
    length h' = length h.
Proof.
  induction fuel as [|fuel IH]; intros h n pos e Hfu Hr; [destruct Hr; lia|]. cbn [seep_down].
  pose proof (fa_pos _ _ _ _ Hr) as Hp. pose proof (fa_length _ _ _ _ Hr) as Hl. rewrite (set_slot_in h) by lia.
  destruct (Nat.leb_spec (2 * pos) n) as [Hn|Hn].
  - destruct (smaller_child h n pos e Hr Hn) as (c & x & E & Hc & Hcp & Hx & Hmin).
    destruct (slot h (2 * pos)) as [c0|]; [|done]. cbn [mbind option_bind] in E |- *. rewrite E. cbn [mbind option_bind].
    destruct (Z.leb_spec (timeval_cmp (time e) (time x)) 0) as [Hle|Hgt].
    + eexists. split; [done|]. split; [|by rewrite length_insert]. apply falling_done; [done|]. intros d y Hd Hdp Hy.
      apply (tle_trans _ (time x)); [done|]. by apply (Hmin d).
    + rewrite set_slot_in by lia. cbn [mbind option_bind]. pose proof (half_lt c ltac:(lia)) as Hhc.
      destruct (IH (<[pos := Some x]> h) n c e) as (h' & -> & Hk & Hpm & Hlen); [lia| |].
      { apply falling_down; try done. apply tle_total. lia. }
      exists h'. split; [done|]. split; [done|]. split; [|by rewrite Hlen, length_insert]. rewrite Hpm.
      apply slots_swap; (lia || done).
  - eexists. split; [done|]. split; [|by rewrite length_insert]. apply falling_done; [done|]. intros d y Hd Hdp _.
    apply children in Hdp. lia.
Qed.

(** The top is the earliest. *)
Lemma top_earliest h n p : heap_ok h n -> slot h 1 = Some p -> forall i x, (1 <= i <= n)%nat -> slot h i = Some x ->
  tle (time p) (time x).
Proof.
  intros Hk Hp i. induction i as [i IH] using lt_wf_ind. intros x Hi Hx. destruct (decide (i = 1)%nat) as [->|].
  { simplify_eq. apply tle_refl. }
  pose proof (half_lt i ltac:(lia)) as Hh. destruct (hk_full _ _ Hk (i / 2)%nat ltac:(lia)) as [q Hq].
  apply (tle_trans _ (time q)); [apply (IH (i / 2)%nat); lia || done|]. apply (hk_order _ _ Hk i); [lia|done|done].
Qed.

(** ** The scheduler as a set of events *)

(** The events that are scheduled. *)
Definition pending (s : scheduler J) : list event := omap id (slots (heap s) (Z.to_nat (event_count s))).

Record sched_ok (s : scheduler J) : Prop := SchedOk {
  so_count : 0 <= event_count s <= heap_size s;
  so_size : 1 <= heap_size s < 2 ^ 32 - 1;
  so_length : Z.of_nat (length (heap s)) = heap_size s + 1;
  so_heap : heap_ok (heap s) (Z.to_nat (event_count s));
}.

Lemma slots_length h n : (n < length h)%nat -> length (slots h n) = n.
Proof. intros Hn. unfold slots. rewrite length_take, length_drop. lia. Qed.

Lemma slots_some h n : heap_ok h n -> slots h n = Some <$> omap id (slots h n).
Proof.
  intros Hk. assert (Forall is_Some (slots h n)) as Hs.
  { apply Forall_lookup. intros i x Hx. pose proof (lookup_lt_Some _ _ _ Hx) as Hi. rewrite slots_length in Hi by apply Hk.
    destruct (hk_full _ _ Hk (S i) ltac:(lia)) as [e He]. apply (slots_lookup _ n) in He; [|lia].
    rewrite Nat.sub_succ, Nat.sub_0_r in He. rewrite He in Hx. by injection Hx as <-. }
  induction Hs as [|x l [e ->] _ IH]; [done|]. cbn. by f_equal.
Qed.

Lemma pending_perm s n es : heap_ok (heap s) n -> Z.to_nat (event_count s) = n ->
  slots (heap s) n ≡ₚ Some <$> es -> pending s ≡ₚ es.
Proof.
  intros Hk Hn Hp. unfold pending. rewrite Hn. rewrite Hp. clear. induction es as [|e es IH]; [done|]. cbn. by constructor.
Qed.

Lemma pending_length s : sched_ok s -> Z.of_nat (length (pending s)) = event_count s.
Proof.
  intros Hs. pose proof (so_heap _ Hs) as Hk. pose proof (so_count _ Hs). unfold pending.
  rewrite <- (length_fmap Some), <- (slots_some _ _ Hk), slots_length by apply Hk. lia.
Qed.

Lemma pending_slot s e : sched_ok s -> e ∈ pending s ->
  exists i, (1 <= i <= Z.to_nat (event_count s))%nat /\ slot (heap s) i = Some e.
Proof.
  intros Hs He. pose proof (so_heap _ Hs) as Hk. apply (list_elem_of_fmap_2 (Some (A := event))) in He.
  unfold pending in He. rewrite <- (slots_some _ _ Hk) in He. apply list_elem_of_lookup in He as [i Hi].
  pose proof (lookup_lt_Some _ _ _ Hi) as Hlt. rewrite slots_length in Hlt by apply Hk. exists (S i). split; [lia|].
  unfold slots in Hi. rewrite lookup_take_lt, lookup_drop in Hi by lia. unfold slot. change (S i) with (1 + i)%nat. by rewrite Hi.
Qed.

Lemma sched_ok_create : sched_ok scheduler_create /\ pending scheduler_create = [].
Proof.
  split; [|done]. constructor; cbn [event_count heap_size heap scheduler_create]; unfold HEAP_SIZE_DEFAULT; [lia|lia|done|].
  constructor; [vm_compute; lia|intros i Hi; cbn in Hi; lia|intros i Hi; cbn in Hi; lia].
Qed.

Lemma schedule_job_tv_spec s j tv : sched_ok s -> event_count s + 1 < 2 ^ 31 ->
  exists s', schedule_job_tv s j tv = Some s' /\ sched_ok s' /\ pending s' ≡ₚ Event tv j :: pending s /\
    event_count s' = event_count s + 1.
Proof.
  intros Hs Hc. unfold schedule_job_tv. destruct Hs as [Hct Hsz Hln Hk].
  rewrite (uwrap_small 32 (event_count s + 1)) by lia.
  set (n := Z.to_nat (event_count s)) in *. assert (Z.to_nat (event_count s + 1) = S n) as Hn by lia. rewrite Hn.
  assert (exists h size, (if heap_size s <? event_count s + 1 then
      (resize_heap (heap s) (Z.to_nat (u32 (u32 (heap_size s * 2) + 1))), u32 (heap_size s * 2))
    else (heap s, heap_size s)) = (h, size) /\ Z.of_nat (length h) = size + 1 /\ event_count s + 1 <= size < 2 ^ 32 - 1 /\
    exists room, h = heap s ++ room) as (h & size & E & Hlh & Hsize & room & Hh).
  { destruct (Z.ltb_spec (heap_size s) (event_count s + 1)).
    - eexists _, _. split; [done|]. rewrite (uwrap_small 32 (heap_size s * 2)), (uwrap_small 32 (heap_size s * 2 + 1)) by lia.
      unfold resize_heap.
      rewrite take_ge, length_app, length_replicate by lia. split; [lia|]. split; [lia|]. by eexists.
    - eexists _, _. split; [done|]. split; [done|]. split; [lia|]. exists []. by rewrite app_nil_r. }
  cbn zeta. rewrite E. clear E.
  assert (forall i, (i <= n)%nat -> slot h i = slot (heap s) i) as Hsl.
  { intros i Hi. unfold slot. rewrite Hh, lookup_app_l; [done|]. lia. }
  assert (slots h n = slots (heap s) n) as Hss.
  { unfold slots. rewrite Hh, drop_app_le, take_app_le; [done|rewrite length_drop; lia|lia]. }
  destruct (bubble_up_spec (S n) h (S n) (S n) (Event tv j)) as (h' & -> & Hk' & Hp & Hl'); [done| |].
  { constructor; [lia|lia|intros i Hi Hne; rewrite Hsl by lia; apply Hk; lia| |].
    - intros i Hi Hne p c. pose proof (half_lt i ltac:(lia)). rewrite !slot_insert, !decide_False, !Hsl by lia. apply Hk. lia.
    - intros c p x Hc' Hcp. pose proof (half_lt c ltac:(lia)). lia. }
  cbn [mbind option_bind]. eexists. split; [done|]. split_and!; cbn; [|apply (pending_perm _ (S n)); cbn; [done|lia|]|done].
  - constructor; cbn; [lia|lia|lia|by rewrite Hn].
  - rewrite Hp, (slots_insert h) by lia. cbn. rewrite Nat.sub_0_r. unfold pending. fold n. rewrite <- (slots_some _ _ Hk), <- Hss.
    unfold slots. rewrite (insert_take_drop (take (S n) (drop 1 h))) by (rewrite length_take, length_drop; lia).
    rewrite (drop_ge _ (S n)) by (rewrite length_take; lia). rewrite take_take, Nat.min_l by lia. by rewrite Permutation_app_comm.
Qed.

Lemma pending_nil s : sched_ok s -> event_count s = 0 -> pending s = [].
Proof. intros Hs Hc. pose proof (pending_length s Hs) as Hl. destruct (pending s); [done|cbn in Hl; lia]. Qed.

Definition earliest (e : event) (es : list event) : Prop := forall x, x ∈ es -> tle (time e) (time x).

Lemma peek_event_spec s : sched_ok s ->
  (pending s = [] /\ event_count s = 0 /\ peek_event s = Some None) \/
  exists e, peek_event s = Some (Some e) /\ slot (heap s) 1 = Some e /\ 0 < event_count s /\ e ∈ pending s /\ earliest e (pending s).
Proof.
  intros Hs. unfold peek_event. pose proof (so_count _ Hs) as Hc. pose proof (so_heap _ Hs) as Hk.
  destruct (Z.ltb_spec 0 (event_count s)).
  - right. destruct (hk_full _ _ Hk 1%nat ltac:(lia)) as [e He]. exists e. rewrite He. split_and!; try done.
    + apply (slots_lookup _ (Z.to_nat (event_count s))) in He; [|lia]. unfold pending.
      apply list_elem_of_omap. exists (Some e). split; [by eapply list_elem_of_lookup_2|done].
    + intros x Hx. destruct (pending_slot s x Hs Hx) as (i & Hi & Hsl). by apply (top_earliest _ _ _ Hk He i).
  - left. assert (event_count s = 0) by lia. split; [by apply pending_nil|done].
Qed.

(** The last event in the place of the first. *)
Lemma move_last h n event top : heap_ok h (S n) -> slot h 1 = Some event -> slot h (S n) = Some top ->
  Some event :: slots (<[1%nat := Some top]> h) n ≡ₚ slots h (S n).
Proof.
  intros Hk He Ht. pose proof (hk_length _ _ Hk) as Hl.
  assert (slots h (S n) = slots h n ++ [Some top]) as ->.
  { unfold slots. apply take_S_r. apply (slots_lookup _ (S n)) in Ht; [|lia]. unfold slots in Ht.
    rewrite lookup_take_lt in Ht by lia. by replace (S n - 1)%nat with n in Ht by lia. }
  destruct n as [|n].
  - cbn. simplify_eq. done.
  - rewrite slots_insert by lia. rewrite (insert_exchange _ _ (Some event)); [by rewrite Permutation_app_comm|].
    by apply (slots_lookup h (S n) 1); [lia|].
Qed.

Lemma falling_top h n top : heap_ok h (S n) -> (1 <= n)%nat -> falling (<[1%nat := Some top]> h) n 1 top.
Proof.
  intros [Hl Hf Ho] Hn. constructor; [lia|rewrite length_insert; lia| | |lia].
  - intros i Hi Hne. rewrite slot_insert, decide_False by lia. apply Hf. lia.
  - intros i Hi Hne Hh p c. rewrite !slot_insert, !decide_False by lia. apply Ho. lia.
Qed.

Lemma remove_event_spec s event : sched_ok s -> 0 < event_count s -> slot (heap s) 1 = Some event ->
  exists s', remove_event s = Some (Some event, s') /\ sched_ok s' /\ event :: pending s' ≡ₚ pending s /\
    event_count s' = event_count s - 1.
Proof.
  intros Hs Hc He. destruct Hs as [Hct Hsz Hln Hk]. unfold remove_event. rewrite (proj2 (Z.eqb_neq _ _)) by lia.
  assert (exists n, Z.to_nat (event_count s) = S n) as [n Hn] by (exists (Z.to_nat (event_count s - 1)); lia).
  rewrite Hn in *. pose proof (hk_length _ _ Hk) as Hlen.
  destruct (hk_full _ _ Hk (S n) ltac:(lia)) as [top Ht]. rewrite He, Ht. cbn [mbind option_bind].
  rewrite set_slot_in by lia. cbn [mbind option_bind]. rewrite uwrap_small by lia.
  pose proof (move_last _ _ _ _ Hk He Ht) as Hmv. pose proof (falling_top _ _ top Hk) as Hfa.
  set (h := <[1%nat := Some top]> (heap s)) in *.
  assert (exists h', (if 1 <? event_count s - 1 then seep_down (Z.to_nat (event_count s - 1)) h (Z.to_nat (event_count s - 1)) 1 top
    else Some h) = Some h' /\ heap_ok h' n /\ slots h' n ≡ₚ slots h n /\ length h' = length (heap s)) as (h' & -> & Hk' & Hp & Hl').
  { replace (Z.to_nat (event_count s - 1)) with n by lia. destruct (Z.ltb_spec 1 (event_count s - 1)).
    - destruct (seep_down_spec n h n 1 top) as (h' & -> & Hk' & Hp & Hl'); [lia|apply Hfa; lia|]. exists h'.
      split; [done|]. split; [done|]. rewrite Hp, Hl'. unfold h. by rewrite list_insert_insert_eq, length_insert.
    - exists h. split; [done|]. split; [|unfold h; by rewrite length_insert]. destruct n as [|[|n]]; [| |lia].
      + constructor; [unfold h; rewrite length_insert; lia|lia|lia].
      + pose proof (falling_done _ _ _ _ (Hfa ltac:(lia))) as Hd. unfold h in *. rewrite list_insert_insert_eq in Hd.
        apply Hd. lia. }
  cbn [mbind option_bind]. eexists. split; [done|]. split_and!; [|..|done].
  - constructor; cbn; [lia|lia|lia|by replace (Z.to_nat (event_count s - 1)) with n by lia].
  - assert (pending (Scheduler h' (heap_size s) (event_count s - 1)) ≡ₚ omap id (slots h n)) as ->.
    { unfold pending. cbn. replace (Z.to_nat (event_count s - 1)) with n by lia. by rewrite Hp. }
    unfold pending. rewrite Hn, <- Hmv. done.
Qed.

Lemma schedule_spec s now : sched_ok s ->
  exists out s', schedule s now = Some (out, s') /\ sched_ok s' /\ event_count s' <= event_count s /\
  match out with
  | QueueJob j => exists e, job e = j /\ e :: pending s' ≡ₚ pending s /\ earliest e (pending s) /\ tle (time e) now
  | WaitUntil tv => s' = s /\ exists e, e ∈ pending s /\ time e = tv /\ earliest e (pending s) /\ ~ tle (time e) now
  | Wait => s' = s /\ pending s = []
  end.
Proof.
  intros Hs. unfold schedule. destruct (peek_event_spec s Hs) as [(Hp & _ & ->)|(e & -> & He & Hc & Hin & Hea)]; cbn [mbind option_bind].
  { eexists _, _. split; [done|]. split; [done|]. split; [lia|done]. }
  destruct (Z.leb_spec 0 (timeval_cmp now (time e))) as [Hd|Hd].
  - destruct (remove_event_spec s e Hs Hc He) as (s' & -> & Hs' & Hp & Hc'). cbn [mbind option_bind].
    eexists _, _. split; [done|]. split; [done|]. split; [lia|]. exists e. split_and!; try done. by apply tle_total.
  - eexists _, _. split; [done|]. split; [done|]. split; [lia|]. split; [done|]. exists e. split_and!; try done.
    rewrite <- tle_total. lia.
Qed.

Lemma flush_loop_spec fuel : forall s, sched_ok s -> (length (pending s) < fuel)%nat ->
  exists es s', flush_loop fuel s = Some (es, s') /\ sched_ok s' /\ pending s' = [] /\ es ≡ₚ pending s /\
    StronglySorted (fun a b => tle (time a) (time b)) es /\ event_count s' = 0.
Proof.
  induction fuel as [|fuel IH]; intros s Hs Hf; [lia|]. cbn [flush_loop].
  destruct (peek_event_spec s Hs) as [(Hp & Hc & _)|(e & _ & He & Hc & Hin & Hea)].
  - unfold remove_event. rewrite Hc. cbn. eexists _, _. split; [done|]. rewrite Hp. split_and!; try done. constructor.
  - destruct (remove_event_spec s e Hs Hc He) as (s1 & -> & Hs1 & Hp1 & _). cbn [mbind option_bind].
    destruct (IH s1 Hs1) as (es & s2 & -> & Hs2 & Hp2 & Hes & Hst & Hc2).
    { apply Permutation_length in Hp1. cbn in Hp1. lia. }
    cbn [mbind option_bind]. eexists _, _. split; [done|]. split_and!; try done; [by rewrite Hes|].
    constructor; [done|]. apply Forall_forall. intros x Hx. apply Hea. rewrite <- Hp1. right. by rewrite <- Hes.
Qed.

Lemma flush_spec s : sched_ok s -> exists es s', flush s = Some (es, s') /\ sched_ok s' /\ pending s' = [] /\
  es ≡ₚ pending s /\ StronglySorted (fun a b => tle (time a) (time b)) es /\ event_count s' = 0.
Proof.
  intros Hs. apply flush_loop_spec; [done|]. pose proof (pending_length s Hs). lia.
Qed.

(** *** Commands *)

Inductive command : Type :=
| ScheduleTv (j : J) (tv : timeval)
| ScheduleIn (j : J) (now : timeval) (secs : Z)
| ScheduleMs (j : J) (now : timeval) (ms : Z)
| Run (now : timeval)
| Flush
| Load.

Inductive output : Type :=
| Nothing
| Outcome (o : outcome J)
| Destroyed (es : list event)
| Number (n : Z).

Definition step (s : scheduler J) (c : command) : option (output * scheduler J) :=
  match c with
  | ScheduleTv j tv => s ← schedule_job_tv s j tv; Some (Nothing, s)
  | ScheduleIn j now secs => s ← schedule_job s now j secs; Some (Nothing, s)
  | ScheduleMs j now ms => s ← schedule_job_ms s now j ms; Some (Nothing, s)
  | Run now => '(o, s) ← schedule s now; Some (Outcome o, s)
  | Flush => '(es, s) ← flush s; Some (Destroyed es, s)
  | Load => Some (Number (get_job_load s), s)
  end.

(** The scheduler as a collection of events, in any order. *)
Inductive spec_step : list event -> command -> output -> list event -> Prop :=
| SpecTv es es' j tv : es' ≡ₚ Event tv j :: es -> spec_step es (ScheduleTv j tv) Nothing es'
| SpecIn es es' j now secs : es' ≡ₚ Event (Timeval (tv_sec now + secs) (tv_usec now)) j :: es ->
    spec_step es (ScheduleIn j now secs) Nothing es'
| SpecMs es es' j now ms : es' ≡ₚ Event (timeradd now (Timeval (ms / 1000) (ms mod 1000 * 1000))) j :: es ->
    spec_step es (ScheduleMs j now ms) Nothing es'
| SpecQueue es es' e now : e :: es' ≡ₚ es -> earliest e es -> tle (time e) now ->
    spec_step es (Run now) (Outcome (QueueJob (job e))) es'
| SpecWait es e now : e ∈ es -> earliest e es -> ~ tle (time e) now ->
    spec_step es (Run now) (Outcome (WaitUntil (time e))) es
| SpecIdle now : spec_step [] (Run now) (Outcome Wait) []
| SpecFlush es l : l ≡ₚ es -> StronglySorted (fun a b => tle (time a) (time b)) l -> spec_step es Flush (Destroyed l) []
| SpecLoad es : spec_step es Load (Number (Z.of_nat (length es))) es.

Lemma step_spec s c : sched_ok s -> event_count s + 1 < 2 ^ 31 ->
  exists o s', step s c = Some (o, s') /\ sched_ok s' /\ spec_step (pending s) c o (pending s') /\
    event_count s' <= event_count s + 1.
Proof.
  intros Hs Hc. destruct c as [j tv|j now secs|j now ms|now| |]; cbn [step].
  - destruct (schedule_job_tv_spec s j tv Hs Hc) as (s' & -> & Hs' & Hp & Hc').
    eexists _, _. split; [done|]. split; [done|]. split; [by constructor|lia].
  - unfold schedule_job. edestruct (schedule_job_tv_spec s j) as (s' & -> & Hs' & Hp & Hc'); [done|done|].
    eexists _, _. split; [done|]. split; [done|]. split; [by constructor|lia].
  - unfold schedule_job_ms. edestruct (schedule_job_tv_spec s j) as (s' & -> & Hs' & Hp & Hc'); [done|done|].
    eexists _, _. split; [done|]. split; [done|]. split; [by constructor|lia].
  - destruct (schedule_spec s now Hs) as (out & s' & -> & Hs' & Hc' & Ho). cbn [mbind option_bind].
    eexists _, _. split; [done|]. split; [done|]. split; [|lia]. destruct out as [j|tv|].
    + destruct Ho as (e & <- & Hp & He & Hd). by constructor.
    + destruct Ho as (-> & e & He & <- & Hea & Hn). by constructor.
    + destruct Ho as (-> & ->). constructor.
  - destruct (flush_spec s Hs) as (es & s' & -> & Hs' & Hp & Hes & Hst & Hc'). cbn [mbind option_bind]. pose proof (so_count _ Hs).
    eexists _, _. split; [done|]. split; [done|]. split; [rewrite Hp; by constructor|lia].
  - eexists _, _. split; [done|]. split; [done|]. split; [|lia]. unfold get_job_load. rewrite <- (pending_length s Hs). constructor.
Qed.

Fixpoint run (s : scheduler J) (cs : list command) : option (list output * scheduler J) :=
  match cs with
  | [] => Some ([], s)
  | c :: cs => '(o, s) ← step s c; '(os, s) ← run s cs; Some (o :: os, s)
  end.

Inductive spec_run : list event -> list command -> list output -> list event -> Prop :=
| SpecNil es : spec_run es [] [] es
| SpecCons es es' es'' c cs o os : spec_step es c o es' -> spec_run es' cs os es'' -> spec_run es (c :: cs) (o :: os) es''.

Lemma run_spec cs : forall s, sched_ok s -> event_count s + Z.of_nat (length cs) < 2 ^ 31 ->
  exists os s', run s cs = Some (os, s') /\ sched_ok s' /\ spec_run (pending s) cs os (pending s').
Proof.
  induction cs as [|c cs IH]; intros s Hs Hc; cbn [run]; [eexists _, _; split; [done|]; split; [done|constructor]|].
  cbn [length] in Hc. destruct (step_spec s c Hs ltac:(lia)) as (o & s1 & -> & Hs1 & Ho & Hc1). cbn [mbind option_bind].
  destruct (IH s1 Hs1 ltac:(lia)) as (os & s2 & -> & Hs2 & Hos). cbn [mbind option_bind].
  eexists _, _. split; [done|]. split; [done|]. by econstructor.
Qed.

(** *** The thread that runs the scheduling job *)

(** The thread runs, or sleeps on the condition variable, for ever or until a time. *)
Inductive thread : Type :=
| Running
| Sleeping (deadline : option timeval).

Record system := System {
  sched : scheduler J;
  clock : timeval;
  state : thread;
  queue : list J;           (* the jobs given to the processor *)
}.

Definition after (o : outcome J) (s : scheduler J) (y : system) : system :=
  match o with
  | QueueJob j => System s (clock y) Running (queue y ++ [j])
  | WaitUntil tv => System s (clock y) (Sleeping (Some tv)) (queue y)
  | Wait => System s (clock y) (Sleeping None) (queue y)
  end.

(** What the scheduling thread does on its own: run the job again, or wake up when its time
    has come. *)
Definition thread_step (y : system) : option system :=
  match state y with
  | Running => '(o, s) ← schedule (sched y) (clock y); Some (after o s y)
  | Sleeping (Some tv) =>
    Some (if 0 <=? timeval_cmp (clock y) tv then System (sched y) (clock y) Running (queue y) else y)
  | Sleeping None => Some y
  end.

(** The steps of the system: a lock of the mutex, or the end of a wait.  A signal wakes the
    thread if it sleeps, wake-ups may be spurious. *)
Inductive system_step : system -> system -> Prop :=
| StepThread y y' : thread_step y = Some y' -> system_step y y'
| StepSchedule y s j tv : event_count (sched y) + 1 < 2 ^ 31 -> schedule_job_tv (sched y) j tv = Some s ->
    system_step y (System s (clock y) Running (queue y))
| StepFlush y es s : flush (sched y) = Some (es, s) -> system_step y (System s (clock y) Running (queue y))
| StepClock y now : tle (clock y) now -> system_step y (System (sched y) now (state y) (queue y))
| StepSpurious y : system_step y (System (sched y) (clock y) Running (queue y)).

Definition system_create (now : timeval) : system := System scheduler_create now Running [].

(** A sleeping thread wakes up before the first event. *)
Definition alert (y : system) : Prop :=
  match state y with
  | Running => True
  | Sleeping d => forall e, e ∈ pending (sched y) -> exists tv, d = Some tv /\ tle tv (time e)
  end.

Definition system_ok (y : system) : Prop := sched_ok (sched y) /\ alert y.

Lemma thread_step_ok y : system_ok y -> exists y', thread_step y = Some y' /\ system_ok y'.
Proof.
  intros [Hs Ha]. unfold thread_step. destruct (state y) as [|[tv|]] eqn:Est.
  - destruct (schedule_spec _ (clock y) Hs) as (o & s' & -> & Hs' & _ & Ho). cbn [mbind option_bind].
    eexists. split; [done|]. destruct o as [j|tv|]; cbn.
    + done.
    + split; [done|]. destruct Ho as (-> & e & _ & <- & He & _). intros x Hx. exists (time e). split; [done|]. by apply He.
    + split; [done|]. destruct Ho as (-> & Hp). intros x Hx. cbn in Hx. rewrite Hp in Hx. by apply not_elem_of_nil in Hx.
  - eexists. split; [done|]. destruct (_ <=? _); [done|]. done.
  - eexists. split; [done|]. done.
Qed.

Lemma system_step_ok y y' : system_step y y' -> system_ok y -> system_ok y'.
Proof.
  intros Hst Hok. destruct Hst as [y y' E|y s j tv Hc E|y es s E|y now Hle|y]; pose proof Hok as [Hs Ha].
  - destruct (thread_step_ok y Hok) as (y1 & E1 & H1). rewrite E in E1. by injection E1 as ->.
  - destruct (schedule_job_tv_spec _ j tv Hs Hc) as (s' & E' & Hs' & _). rewrite E in E'. by injection E' as ->.
  - destruct (flush_spec _ Hs) as (es' & s' & E' & Hs' & _). rewrite E in E'. by injection E' as _ ->.
  - done.
  - done.
Qed.

Lemma reachable_ok now y : rtc system_step (system_create now) y -> system_ok y.
Proof.
  assert (system_ok (system_create now)) as Hok by (split; [apply sched_ok_create|done]).
  intros Hr. revert Hok. induction Hr as [|y1 y2 y3 Hst _ IH]; [done|]. intros Hok. apply IH. by eapply system_step_ok.
Qed.

Fixpoint thread_steps (n : nat) (y : system) : option system :=
  match n with O => Some y | S n => y ← thread_step y; thread_steps n y end.

(** A running thread queues the events whose time has come, one per step. *)
Lemma due_job_queued_running n : forall y e, system_ok y -> state y = Running -> (length (pending (sched y)) <= n)%nat ->
  e ∈ pending (sched y) -> tle (time e) (clock y) ->
  exists m y', (m <= n)%nat /\ thread_steps m y = Some y' /\ job e ∈ queue y' /\ system_ok y'.
Proof.
  induction n as [|n IH]; intros y e Hok Hst Hn He Hd; [destruct (pending _); [by apply not_elem_of_nil in He|cbn in Hn; lia]|].
  pose proof Hok as [Hs _]. destruct (thread_step_ok y Hok) as (y1 & E1 & Hok1). pose proof E1 as E1'.
  unfold thread_step in E1. rewrite Hst in E1. destruct (schedule_spec _ (clock y) Hs) as (o & s' & E & Hs' & _ & Ho).
  rewrite E in E1. cbn [mbind option_bind] in E1. injection E1 as <-. destruct o as [j|tv|].
  - destruct Ho as (e1 & <- & Hp & He1 & Hd1). cbn [after] in *. rewrite <- Hp in He. apply elem_of_cons in He as [->|He].
    + exists 1%nat. eexists. split; [lia|]. cbn [thread_steps]. rewrite E1'. cbn [mbind option_bind]. split; [done|]. split; [|done].
      cbn. apply elem_of_app. right. by left.
    + destruct (IH _ e Hok1) as (m & y' & Hm & Ey & Hq & Hok'); cbn; try done.
      { apply Permutation_length in Hp. cbn in Hp. lia. }
      exists (S m), y'. split; [lia|]. cbn [thread_steps]. rewrite E1'. done.
  - destruct Ho as (-> & e1 & Hin & <- & He1 & Hn1). destruct Hn1. apply (tle_trans _ (time e)); [by apply He1|done].
  - destruct Ho as (-> & Hp). rewrite Hp in He. by apply not_elem_of_nil in He.
Qed.
End Heap.
#[global] Arguments command : clear implicits.
#[global] Arguments output : clear implicits.
#[global] Arguments system : clear implicits.

(** ** Theorems *)

(** C30: the heap implements a collection of events: in every series of operations nothing is
    read outside of the heap or through a pointer that was not set, each run of the scheduling
    job gives the job of an earliest event away if its time has come and waits for it
    otherwise, the load is the number of events, and flushing destroys all of them.  Fewer
    than 2^31 events keep the size of the heap, which is doubled, within its width. *)
Theorem scheduler_refines {J : Type} (cs : list (command J)) : Z.of_nat (length cs) < 2 ^ 31 ->
  exists os s, run scheduler_create cs = Some (os, s) /\ spec_run [] cs os (pending s) /\ get_job_load s = Z.of_nat (length (pending s)).
Proof.
  intros Hc. destruct (run_spec cs scheduler_create) as (os & s & E & Hs & Hr); [apply sched_ok_create|done|].
  exists os, s. split; [done|]. split; [by rewrite (proj2 sched_ok_create) in Hr|]. unfold get_job_load. by rewrite pending_length.
Qed.

(** C31: no job is forgotten.  Whatever other threads schedule and flush, and however the thread
    of the scheduler is woken up, when the time of a job has come that thread gives it to
    the processor within as many steps of its own as there are events, and one to wake up. *)
Theorem due_job_queued {J : Type} now (y : system J) e : rtc system_step (system_create now) y ->
  e ∈ pending (sched y) -> tle (time e) (clock y) ->
  exists m y', (m <= S (length (pending (sched y))))%nat /\ thread_steps m y = Some y' /\ job e ∈ queue y'.
Proof.
  intros Hr He Hd. pose proof (reachable_ok now y Hr) as Hok. destruct (state y) as [|d] eqn:Est.
  - destruct (due_job_queued_running _ y e Hok Est (Nat.le_refl _) He Hd) as (m & y' & Hm & E & Hq & _). exists m, y'. split; [lia|done].
  - pose proof Hok as [Hs Ha]. unfold alert in Ha. rewrite Est in Ha. destruct (Ha e He) as (tv & -> & Htv).
    set (y1 := System (sched y) (clock y) Running (queue y)).
    assert (thread_step y = Some y1) as E1.
    { unfold thread_step. rewrite Est. replace (0 <=? timeval_cmp (clock y) tv) with true; [done|]. symmetry. apply Z.leb_le.
      apply tle_total. by apply (tle_trans _ (time e)). }
    destruct (due_job_queued_running (length (pending (sched y))) y1 e) as (m & y' & Hm & E & Hq & _); try done.
    exists (S m), y'. split; [lia|]. cbn [thread_steps]. rewrite E1. done.
Qed.

(** Events that come out in the order of their times. *)
Definition scheduler_commands : list (command nat) :=
  [ScheduleTv 1%nat (Timeval 5 0); ScheduleIn 2%nat (Timeval 1 7) 2; ScheduleMs 3%nat (Timeval 1 999999) 1500; Run (Timeval 2 0);
   Run (Timeval 4 0); Run (Timeval 4 0); Load; Flush].

Lemma scheduler_refines_witness : exists os s, run scheduler_create scheduler_commands = Some (os, s) /\
  spec_run [] scheduler_commands os (pending s) /\ get_job_load s = Z.of_nat (length (pending s)).
Proof. refine (scheduler_refines scheduler_commands _). cbn. lia. Defined.

(** A thread that sleeps until its time has come. *)
Definition sleeping_system : system nat :=
  System (Scheduler (<[1%nat := Some (Event (Timeval 5 0) 7%nat)]> (heap scheduler_create)) 64 1) (Timeval 6 0)
    (Sleeping (Some (Timeval 5 0))) [].

Lemma sleeping_reachable : rtc system_step (system_create (Timeval 0 0)) sleeping_system.
Proof.
  eapply rtc_l; [eapply (StepSchedule _ _ 7%nat (Timeval 5 0)); [cbn; lia|vm_compute; reflexivity]|].
  eapply rtc_l; [apply StepThread; vm_compute; reflexivity|].
  eapply rtc_l; [apply (StepClock _ (Timeval 6 0)); vm_compute; discriminate|]. apply rtc_refl.
Qed.

Lemma due_job_queued_witness : exists m y', (m <= 2)%nat /\ thread_steps m sleeping_system = Some y' /\ 7%nat ∈ queue y'.
Proof.
  refine (due_job_queued (Timeval 0 0) sleeping_system (Event (Timeval 5 0) 7%nat) sleeping_reachable _ _);
    [vm_compute; left|vm_compute; discriminate].
Defined.
