(* ===== verification/Proposal.v ===== *)
(** Proposals of algorithms: [src/libcharon/config/proposal.c], and the enumerator over the
    tokens of a string ([src/libstrongswan/collections/enumerator.c]) that reads them from
    the configuration.

    The transforms of a proposal are in an array ([collections/array.c]), of which
    [Array.array_refines] shows that it is a sequence with an enumerator by index.  Here it
    is that sequence; loops that change it while they walk over it keep the index. *)
From S2P Require Import Prelude Crypto.
From Stdlib Require Import Lia ZArith Ascii String.
From stdpp Require Import base numbers list option sets.
Local Open Scope Z_scope.

(** ** Tokens of a string *)
Module Token.
Abbreviation text := (list ascii).

Definition among (cs : text) (c : ascii) : bool := bool_decide (c ∈ cs).

(** One step of a [while] over the characters of [cs]: a character that is one of them is
    passed.  The flag is [*trim], not at the end. *)
Definition pass (cs : text) (s : text) : bool * text :=
  match s with
  | c :: s' => if among cs c then (true, s') else (false, s)
  | [] => (false, [])
  end.

(** The first loop of [enumerate_token_enum]. *)
Fixpoint skip_leading (fuel : nat) (sep trim : text) (s : text) : text :=
  match fuel, s with
  | S fuel, _ :: _ =>
    let '(t, s1) := pass trim s in
    let '(p, s2) := pass sep s1 in
    if t || p then skip_leading fuel sep trim s2 else s2
  | _, _ => s
  end.

(** The text from the first character on that is not among [cs]. *)
Fixpoint trim_left (cs : text) (s : text) : text :=
  match s with
  | [] => []
  | c :: s' => if among cs c then trim_left cs s' else s
  end.

Definition trim_right (cs : text) (s : text) : text := rev (trim_left cs (rev s)).

(** [strchr]: what is in front of and behind the first of the characters. *)
Fixpoint split_at (cs : text) (s : text) : option (text * text) :=
  match s with
  | [] => None
  | c :: s' => if among cs c then Some ([], s')
               else '(a, b) ← split_at cs s'; Some (c :: a, b)
  end.

Definition quotes : text := [ascii_of_nat 34; ascii_of_nat 39].

(** [enumerate_token_enum]: the token and the text behind it. *)
Definition next_token (sep trim : text) (s : text) : option (text * text) :=
  let s := skip_leading (length s) sep trim s in
  match (match s with
         | c :: s' => if among quotes c then split_at [c] s' else None
         | [] => None
         end) with
  | Some (quoted, rest) => Some (quoted, rest)
  | None =>
    match split_at sep s with
    | Some (token, rest) => Some (trim_right trim token, rest)
    | None => let token := trim_right trim s in
              if bool_decide (token = []) then None else Some (token, [])
    end
  end.

(** All tokens; every one takes a character, [fuel] bounds them. *)
Fixpoint tokens_loop (fuel : nat) (sep trim : text) (s : text) : list text :=
  match fuel with
  | O => []
  | S fuel => match next_token sep trim s with
              | None => []
              | Some (token, rest) => token :: tokens_loop fuel sep trim rest
              end
  end.

Definition tokens (sep trim : text) (s : text) : list text := tokens_loop (S (length s)) sep trim s.
End Token.

(** ** Data *)

Inductive protocol_id_t : Type := PROTO_NONE | PROTO_IKE | PROTO_AH | PROTO_ESP | PROTO_IPCOMP.

#[export] Instance protocol_id_eq_dec : EqDecision protocol_id_t.
Proof. solve_decision. Defined.

Inductive transform_type_t : Type :=
| UNDEFINED_TRANSFORM_TYPE | HASH_ALGORITHM | RANDOM_NUMBER_GENERATOR | AEAD_ALGORITHM
| COMPRESSION_ALGORITHM | EXTENDED_OUTPUT_FUNCTION | ENCRYPTION_ALGORITHM
| PSEUDO_RANDOM_FUNCTION | INTEGRITY_ALGORITHM | DIFFIE_HELLMAN_GROUP
| EXTENDED_SEQUENCE_NUMBERS.

#[export] Instance transform_type_eq_dec : EqDecision transform_type_t.
Proof. solve_decision. Defined.

Record entry_t := Entry { e_type : transform_type_t; e_alg : Z; e_key_size : Z }.

#[export] Instance entry_eq_dec : EqDecision entry_t.
Proof. solve_decision. Defined.

Record proposal := Proposal {
  protocol : protocol_id_t;
  transforms : list entry_t;
  spi : Z;
  number : Z;
}.

Definition with_transforms (p : proposal) (l : list entry_t) : proposal :=
  Proposal (protocol p) l (spi p) (number p).

(** The numbers of the encryption algorithms. *)
Definition encryption_algorithm_value (alg : encryption_algorithm_t) : Z :=
  match alg with
  | ENCR_DES_IV64 => 1 | ENCR_DES => 2 | ENCR_3DES => 3 | ENCR_RC5 => 4 | ENCR_IDEA => 5
  | ENCR_CAST => 6 | ENCR_BLOWFISH => 7 | ENCR_3IDEA => 8 | ENCR_DES_IV32 => 9 | ENCR_NULL => 11
  | ENCR_AES_CBC => 12 | ENCR_AES_CTR => 13 | ENCR_AES_CCM_ICV8 => 14 | ENCR_AES_CCM_ICV12 => 15
  | ENCR_AES_CCM_ICV16 => 16 | ENCR_AES_GCM_ICV8 => 18 | ENCR_AES_GCM_ICV12 => 19
  | ENCR_AES_GCM_ICV16 => 20 | ENCR_NULL_AUTH_AES_GMAC => 21 | ENCR_CAMELLIA_CBC => 23
  | ENCR_CAMELLIA_CTR => 24 | ENCR_CAMELLIA_CCM_ICV8 => 25 | ENCR_CAMELLIA_CCM_ICV12 => 26
  | ENCR_CAMELLIA_CCM_ICV16 => 27 | ENCR_CHACHA20_POLY1305 => 28 | ENCR_UNDEFINED => 1024
  | ENCR_DES_ECB => 1025 | ENCR_SERPENT_CBC => 1026 | ENCR_TWOFISH_CBC => 1027 | ENCR_RC2_CBC => 1028
  end.

Definition encryption_algorithms : list encryption_algorithm_t :=
  [ENCR_DES_IV64; ENCR_DES; ENCR_3DES; ENCR_RC5; ENCR_IDEA; ENCR_CAST; ENCR_BLOWFISH; ENCR_3IDEA;
   ENCR_DES_IV32; ENCR_NULL; ENCR_AES_CBC; ENCR_AES_CTR; ENCR_AES_CCM_ICV8; ENCR_AES_CCM_ICV12;
   ENCR_AES_CCM_ICV16; ENCR_AES_GCM_ICV8; ENCR_AES_GCM_ICV12; ENCR_AES_GCM_ICV16;
   ENCR_NULL_AUTH_AES_GMAC; ENCR_CAMELLIA_CBC; ENCR_CAMELLIA_CTR; ENCR_CAMELLIA_CCM_ICV8;
   ENCR_CAMELLIA_CCM_ICV12; ENCR_CAMELLIA_CCM_ICV16; ENCR_CHACHA20_POLY1305; ENCR_UNDEFINED;
   ENCR_DES_ECB; ENCR_SERPENT_CBC; ENCR_TWOFISH_CBC; ENCR_RC2_CBC].

(** The algorithm with a number, if there is one. *)
Definition encryption_algorithm_of (v : Z) : option encryption_algorithm_t :=
  find (fun a => encryption_algorithm_value a =? v) encryption_algorithms.

Definition is_aead (v : Z) : bool :=
  match encryption_algorithm_of v with Some a => encryption_algorithm_is_aead a | None => false end.

(** ** Operations *)

Definition proposal_create (p : protocol_id_t) (n : Z) : proposal := Proposal p [] 0 n.

Definition add_algorithm (p : proposal) (t : transform_type_t) (alg key_size : Z) : proposal :=
  with_transforms p (transforms p ++ [Entry t (u16 alg) (u16 key_size)]).

(** [create_enumerator] with [alg_filter]: the algorithms of a type and their key sizes. *)
Definition algorithms (p : proposal) (t : transform_type_t) : list (Z * Z) :=
  (fun e => (e_alg e, e_key_size e)) <$> List.filter (fun e => bool_decide (e_type e = t)) (transforms p).

Definition get_algorithm (p : proposal) (t : transform_type_t) : option (Z * Z) := head (algorithms p t).

Definition has_dh_group (p : proposal) (group : Z) : bool :=
  let groups := algorithms p DIFFIE_HELLMAN_GROUP in
  existsb (fun '(current, _) => current =? group) groups || (bool_decide (groups = []) && (group =? 0)).

(** A walk over the array that removes what it finds; the removal steps back. *)
Fixpoint remove_walk (fuel : nat) (cond : entry_t -> bool) (l : list entry_t) (i : nat) : list entry_t :=
  match fuel, l !! i with
  | S fuel, Some e => if cond e then remove_walk fuel cond (delete i l) i else remove_walk fuel cond l (S i)
  | _, _ => l
  end.

Definition remove_entries (cond : entry_t -> bool) (p : proposal) : proposal :=
  with_transforms p (remove_walk (length (transforms p)) cond (transforms p) 0).

Definition strip_dh (p : proposal) (keep : Z) : proposal :=
  remove_entries (fun e => bool_decide (e_type e = DIFFIE_HELLMAN_GROUP) && negb (e_alg e =? keep)) p.

Definition remove_transform (p : proposal) (t : transform_type_t) : proposal :=
  remove_entries (fun e => bool_decide (e_type e = t)) p.

(** The algorithm of [this] is looked for in [other]; algorithms of the private space only
    count if they are wanted. *)
Fixpoint select_inner (priv : bool) (x : Z * Z) (l2 : list (Z * Z)) : bool :=
  match l2 with
  | [] => false
  | y :: l2 =>
    if (fst x =? fst y) && (snd x =? snd y) then
      if negb priv && (1024 <=? fst x) then select_inner priv x l2 else true
    else select_inner priv x l2
  end.

Fixpoint select_outer (priv : bool) (l1 l2 : list (Z * Z)) : option (Z * Z) :=
  match l1 with
  | [] => None
  | x :: l1 => if select_inner priv x l2 then Some x else select_outer priv l1 l2
  end.

Definition select_algo (this other selected : proposal) (t : transform_type_t) (priv : bool) : bool * proposal :=
  if bool_decide (t = INTEGRITY_ALGORITHM) &&
     match get_algorithm selected ENCRYPTION_ALGORITHM with Some (alg, _) => is_aead alg | None => false end
  then (true, selected)
  else
    let optional := bool_decide (t = DIFFIE_HELLMAN_GROUP) &&
                    (bool_decide (protocol this = PROTO_ESP) || bool_decide (protocol this = PROTO_AH)) in
    let l1 := algorithms this t in
    let l2 := algorithms other t in
    let none l := optional && existsb (fun '(alg, _) => alg =? 0) l in
    let found := match l1, l2 with
                 | [], [] => true
                 | [], _ => none l2
                 | _, [] => none l1
                 | _, _ => false
                 end in
    if found then (true, selected)
    else match select_outer priv l1 l2 with
    | Some (alg, ks) => (true, add_algorithm selected t alg ks)
    | None => (false, selected)
    end.

(** The types in the order in which they are selected. *)
Definition selected_types : list transform_type_t :=
  [ENCRYPTION_ALGORITHM; PSEUDO_RANDOM_FUNCTION; INTEGRITY_ALGORITHM; DIFFIE_HELLMAN_GROUP; EXTENDED_SEQUENCE_NUMBERS].

Fixpoint select_types (this other selected : proposal) (priv : bool) (ts : list transform_type_t) : option proposal :=
  match ts with
  | [] => Some selected
  | t :: ts => let '(ok, selected) := select_algo this other selected t priv in
               if ok then select_types this other selected priv ts else None
  end.

Definition select_proposal (this other : proposal) (other_remote priv : bool) : option proposal :=
  if negb (bool_decide (protocol this = protocol other)) then None
  else
    let selected := if other_remote then Proposal (protocol this) [] (spi other) (number other)
                    else Proposal (protocol this) [] (spi this) (number this) in
    select_types this other selected priv selected_types.

Fixpoint algo_list_equals (l1 l2 : list (Z * Z)) : bool :=
  match l1, l2 with
  | [], [] => true
  | x :: l1, y :: l2 => (fst x =? fst y) && (snd x =? snd y) && algo_list_equals l1 l2
  | _, _ => false
  end.

(** [equals] of different objects. *)
Definition equals (this other : proposal) : bool :=
  forallb (fun t => algo_list_equals (algorithms this t) (algorithms other t))
    [ENCRYPTION_ALGORITHM; INTEGRITY_ALGORITHM; PSEUDO_RANDOM_FUNCTION; DIFFIE_HELLMAN_GROUP; EXTENDED_SEQUENCE_NUMBERS].

Definition clone_ (p : proposal) : proposal :=
  Proposal (protocol p) (fold_left (fun l e => l ++ [e]) (transforms p) []) (spi p) (number p).

Definition set_spi (p : proposal) (v : Z) : proposal :=
  Proposal (protocol p) (transforms p) (u64 v) (number p).

(** *** Default proposals *)

(** The enumerators of [lib->crypto] give the numbers of the algorithms that are registered. *)
Record supported := Supported {
  aeads : list Z; crypters : list Z; signers : list Z; prfs : list Z; dhs : list Z;
}.

(** One round: every algorithm of the list, with the key sizes that [sizes] gives it. *)
Definition add_round (t : transform_type_t) (sizes : Z -> list Z) (algs : list Z) (p : proposal) : proposal :=
  fold_left (fun p alg => fold_left (fun p ks => add_algorithm p t alg ks) (sizes alg) p) algs p.

Definition one_of (l : list Z) (v : Z) : bool := existsb (Z.eqb v) l.

Definition no_size (l : list Z) (v : Z) : list Z := if one_of l v then [0] else [].

Definition add_supported_encr (sup : supported) (aead : bool) (p : proposal) : option proposal :=
  if aead then
    let p := add_round ENCRYPTION_ALGORITHM
               (fun v => if one_of [20; 16; 27] v then [128; 192; 256] else if v =? 28 then [256] else [])
               (aeads sup) p in
    let p := add_round ENCRYPTION_ALGORITHM
               (fun v => if one_of [19; 18; 15; 14; 26; 25] v then [128; 192; 256] else []) (aeads sup) p in
    if bool_decide (transforms p = []) then None else Some p
  else
    let p := add_round ENCRYPTION_ALGORITHM
               (fun v => if one_of [12; 13; 23; 24] v then [128; 192; 256] else []) (crypters sup) p in
    let p := add_round ENCRYPTION_ALGORITHM (no_size [3]) (crypters sup) p in
    if bool_decide (transforms p = []) then None
    else
      let p := add_round INTEGRITY_ALGORITHM (no_size [12; 13; 14]) (signers sup) p in
      Some (add_round INTEGRITY_ALGORITHM (no_size [5; 8; 2]) (signers sup) p).

Definition proposal_add_supported_ike (sup : supported) (aead : bool) (p : proposal) : option proposal :=
  p ← add_supported_encr sup aead p;
  let p := add_round PSEUDO_RANDOM_FUNCTION (no_size [5; 6; 7; 4; 8]) (prfs sup) p in
  let p := add_round PSEUDO_RANDOM_FUNCTION (no_size [2]) (prfs sup) p in
  let p := add_round DIFFIE_HELLMAN_GROUP
             (no_size [19; 20; 21; 28; 29; 30; 31; 32; 1031; 1032; 1033; 1040]) (dhs sup) p in
  let p := add_round DIFFIE_HELLMAN_GROUP (no_size [15; 16; 18]) (dhs sup) p in
  Some (add_round DIFFIE_HELLMAN_GROUP (no_size [14]) (dhs sup) p).

Definition default_integ : list entry_t :=
  [Entry INTEGRITY_ALGORITHM 12 0; Entry INTEGRITY_ALGORITHM 13 0; Entry INTEGRITY_ALGORITHM 14 0;
   Entry INTEGRITY_ALGORITHM 2 0; Entry INTEGRITY_ALGORITHM 5 0; Entry EXTENDED_SEQUENCE_NUMBERS 0 0].

Definition proposal_create_default (sup : supported) (pr : protocol_id_t) : option proposal :=
  let p := proposal_create pr 0 in
  let add := fold_left (fun p e => add_algorithm p (e_type e) (e_alg e) (e_key_size e)) in
  match pr with
  | PROTO_IKE => proposal_add_supported_ike sup false p
  | PROTO_ESP => Some (add ([Entry ENCRYPTION_ALGORITHM 12 128; Entry ENCRYPTION_ALGORITHM 12 192;
                             Entry ENCRYPTION_ALGORITHM 12 256] ++ default_integ) p)
  | PROTO_AH => Some (add default_integ p)
  | _ => Some p
  end.

Definition proposal_create_default_aead (sup : supported) (pr : protocol_id_t) : option proposal :=
  match pr with
  | PROTO_IKE => proposal_add_supported_ike sup true (proposal_create pr 0)
  | _ => None
  end.

(** *** Proposals from the configuration *)

Definition integ_prf_map : list (Z * Z) :=
  [(2, 2); (7, 2); (12, 5); (13, 6); (14, 7); (1, 1); (6, 1); (5, 4); (1030, 1028); (8, 8)].

Definition prf_of_integ (alg : Z) : option Z := snd <$> find (fun x => alg =? fst x) integ_prf_map.

(** The walk over the integrity algorithms, which appends to the array. *)
Fixpoint add_prfs_walk (fuel : nat) (l : list entry_t) (i : nat) : list entry_t :=
  match fuel, l !! i with
  | S fuel, Some e =>
    add_prfs_walk fuel
      (match (if bool_decide (e_type e = INTEGRITY_ALGORITHM) then prf_of_integ (e_alg e) else None) with
       | Some prf => l ++ [Entry PSEUDO_RANDOM_FUNCTION prf 0]
       | None => l
       end) (S i)
  | _, _ => l
  end.

(** AES-GMAC as an integrity algorithm; other encryption algorithms are removed. *)
Definition gmac_integ (key_size : Z) : option Z :=
  if key_size =? 128 then Some 9 else if key_size =? 192 then Some 10 else if key_size =? 256 then Some 11 else None.

Fixpoint gmac_walk (fuel : nat) (l : list entry_t) (i : nat) : list entry_t :=
  match fuel, l !! i with
  | S fuel, Some e =>
    if bool_decide (e_type e = ENCRYPTION_ALGORITHM) then
      match (if e_alg e =? encryption_algorithm_value ENCR_NULL_AUTH_AES_GMAC then gmac_integ (e_key_size e) else None) with
      | Some integ => gmac_walk fuel (<[i := Entry INTEGRITY_ALGORITHM integ 0]> l) (S i)
      | None => gmac_walk fuel (delete i l) i
      end
    else gmac_walk fuel l (S i)
  | _, _ => l
  end.

Definition has (p : proposal) (t : transform_type_t) : bool := bool_decide (algorithms p t <> []).

(** The part for IKE, and for the other protocols: PRF and DH group. *)
Definition check_prf_dh (p : proposal) : option proposal :=
  if bool_decide (protocol p = PROTO_IKE) then
    let p := if has p PSEUDO_RANDOM_FUNCTION then p
             else with_transforms p (add_prfs_walk (2 * length (transforms p)) (transforms p) 0) in
    if negb (has p PSEUDO_RANDOM_FUNCTION) then None
    else
      let p := remove_entries (fun e => bool_decide (e_type e = DIFFIE_HELLMAN_GROUP) && (e_alg e =? 0)) p in
      if negb (has p DIFFIE_HELLMAN_GROUP) then None else Some p
  else Some (remove_transform p PSEUDO_RANDOM_FUNCTION).

Definition check_encryption (p : proposal) : option proposal :=
  if bool_decide (protocol p = PROTO_IKE) || bool_decide (protocol p = PROTO_ESP) then
    let encr := algorithms p ENCRYPTION_ALGORITHM in
    let any_aead := existsb (fun '(alg, _) => is_aead alg) encr in
    let all_aead := forallb (fun '(alg, _) => is_aead alg) encr in
    if bool_decide (encr = []) then None
    else if any_aead && negb all_aead then None
    else if all_aead then Some (remove_transform p INTEGRITY_ALGORITHM)
    else Some p
  else
    let p := with_transforms p (gmac_walk (length (transforms p)) (transforms p) 0) in
    if negb (has p INTEGRITY_ALGORITHM) then None else Some p.

Definition check_proposal (p : proposal) : option proposal :=
  p ← check_prf_dh p;
  p ← check_encryption p;
  Some (if (bool_decide (protocol p = PROTO_AH) || bool_decide (protocol p = PROTO_ESP)) &&
           negb (has p EXTENDED_SEQUENCE_NUMBERS)
        then add_algorithm p EXTENDED_SEQUENCE_NUMBERS 0 0 else p).

(** The keywords are those of [lib->proposal]. *)
Section Keywords.
Context (get_token : Token.text -> option entry_t).

Definition add_string_algo (p : proposal) (alg : Token.text) : option proposal :=
  token ← get_token alg;
  Some (add_algorithm p (e_type token) (e_alg token) (e_key_size token)).

Fixpoint add_string_algos (p : proposal) (algs : list Token.text) : option proposal :=
  match algs with
  | [] => Some p
  | alg :: algs => p ← add_string_algo p alg; add_string_algos p algs
  end.

Definition dash : Token.text := [ascii_of_nat 45].
Definition space : Token.text := [ascii_of_nat 32].

Definition proposal_create_from_string (p : protocol_id_t) (algs : Token.text) : option proposal :=
  match Token.tokens dash space algs with
  | [] => None
  | tokens => q ← add_string_algos (proposal_create p 0) tokens; check_proposal q
  end.
End Keywords.

(** ** Tokens: the enumerator gives back what was joined *)
Section TokenLemmas.
Import Token.

Lemma among_spec cs c : among cs c = true <-> c ∈ cs.
Proof. apply bool_decide_eq_true. Qed.

Lemma among_app cs ds c : among (cs ++ ds) c = among cs c || among ds c.
Proof. apply eq_true_iff_eq. rewrite orb_true_iff, !among_spec. set_solver. Qed.

(** The leading loop passes all characters of both sets. *)
Lemma skip_leading_spec sep trim fuel s :
  (length s <= fuel)%nat -> skip_leading fuel sep trim s = trim_left (trim ++ sep) s.
Proof.
  revert s. induction fuel as [|fuel IH]; intros [|c s]; cbn [length]; intros H; try done; [lia|].
  cbn [skip_leading trim_left pass]. rewrite among_app.
  destruct (among trim c) eqn:Ht; cbn [orb].
  - destruct s as [|d s]; cbn [pass orb].
    + by rewrite IH by (cbn; lia).
    + cbn [length] in H. destruct (among sep d) eqn:Hd; cbn [orb].
      * rewrite IH by lia. cbn [trim_left]. by rewrite among_app, Hd, orb_true_r.
      * rewrite IH by (cbn; lia). done.
  - cbn [pass]. destruct (among sep c); cbn [orb]; [by rewrite IH by lia|done].
Qed.

Lemma trim_left_length cs s : (length (trim_left cs s) <= length s)%nat.
Proof. induction s as [|c s IH]; cbn; [lia|]. destruct (among cs c); cbn; lia. Qed.

Lemma split_at_length cs s a b : split_at cs s = Some (a, b) -> (length b < length s)%nat.
Proof.
  revert a b. induction s as [|c s IH]; intros a b; cbn; [done|].
  destruct (among cs c); [intros [= <- <-]; lia|].
  destruct (split_at cs s) as [[x y]|]; cbn; [|done]. intros [= <- <-].
  specialize (IH x y eq_refl). lia.
Qed.

(** Every token takes a character. *)
Lemma next_token_length sep trim s t r :
  next_token sep trim s = Some (t, r) -> (length r < length s)%nat.
Proof.
  unfold next_token. rewrite skip_leading_spec by lia.
  pose proof (trim_left_length (trim ++ sep) s) as Hl.
  destruct (trim_left (trim ++ sep) s) as [|c s']; cbn [length] in Hl.
  - cbn. done.
  - destruct (if among quotes c then split_at [c] s' else None) as [[q r']|] eqn:Hq.
    + intros [= <- <-]. destruct (among quotes c); [|done]. apply split_at_length in Hq. lia.
    + destruct (split_at sep (c :: s')) as [[x y]|] eqn:Hs.
      * intros [= <- <-]. apply split_at_length in Hs. cbn [length] in Hs. lia.
      * case_bool_decide; [done|]. intros [= <- <-]. cbn. lia.
Qed.

(** The fuel is enough: the tokens are the next one and those of the rest. *)
Lemma tokens_loop_fuel sep trim n m s :
  (length s < n)%nat -> (length s < m)%nat -> tokens_loop n sep trim s = tokens_loop m sep trim s.
Proof.
  revert m s. induction n as [|n IH]; intros [|m] s Hn Hm; try lia. cbn [tokens_loop].
  destruct (next_token sep trim s) as [[t r]|] eqn:H; [|done].
  apply next_token_length in H. f_equal. apply IH; lia.
Qed.

Lemma tokens_unfold sep trim s :
  tokens sep trim s =
  match next_token sep trim s with None => [] | Some (t, r) => t :: tokens sep trim r end.
Proof.
  unfold tokens at 1. cbn [tokens_loop].
  destruct (next_token sep trim s) as [[t r]|] eqn:H; [|done].
  apply next_token_length in H. f_equal. apply tokens_loop_fuel; lia.
Qed.

(** A token that survives: it is not empty, has neither a separator nor a character that is
    trimmed, and does not begin with a quote. *)
Definition clean (sep trim : text) (t : text) : Prop :=
  match t with
  | [] => False
  | c :: _ => Forall (fun x => x ∉ sep ++ trim) t /\ c ∉ quotes
  end.

#[export] Instance clean_dec sep trim t : Decision (clean sep trim t).
Proof. destruct t; cbn; apply _. Defined.

Lemma trim_left_id cs s c s' : s = c :: s' -> c ∉ cs -> trim_left cs s = s.
Proof. intros -> H. cbn. destruct (among cs c) eqn:E; [by apply among_spec in E|done]. Qed.

Lemma split_at_app cs t c r :
  Forall (fun x => x ∉ cs) t -> c ∈ cs -> split_at cs (t ++ c :: r) = Some (t, r).
Proof.
  intros H Hc. induction H as [|x t Hx _ IH]; cbn.
  - by rewrite (proj2 (among_spec cs c) Hc).
  - destruct (among cs x) eqn:E; [by apply among_spec in E|]. by rewrite IH.
Qed.

Lemma split_at_none cs t : Forall (fun x => x ∉ cs) t -> split_at cs t = None.
Proof.
  induction 1 as [|x t Hx _ IH]; cbn; [done|].
  destruct (among cs x) eqn:E; [by apply among_spec in E|]. by rewrite IH.
Qed.

Lemma trim_right_id cs t : Forall (fun x => x ∉ cs) t -> trim_right cs t = t.
Proof.
  intros H. unfold trim_right. destruct (rev t) as [|c r] eqn:E.
  - apply (f_equal (@rev ascii)) in E. rewrite rev_involutive in E. by subst.
  - rewrite (trim_left_id _ _ c r eq_refl).
    + by rewrite <- E, rev_involutive.
    + assert (c ∈ t) as Hc.
      { apply list_elem_of_In, in_rev. rewrite E. by left. }
      rewrite Forall_forall in H. by apply H.
Qed.

Lemma clean_split sep trim t :
  clean sep trim t -> Forall (fun x => x ∉ sep) t /\ Forall (fun x => x ∉ trim) t.
Proof.
  destruct t as [|c t]; [done|]. intros [H _].
  split; (eapply Forall_impl; [exact H|]); intros x Hx; set_solver.
Qed.

(** A clean token in front of a separator or the end. *)
Lemma next_token_clean sep trim t r (tail : text) :
  clean sep trim t -> (tail = [] /\ r = [] \/ exists c, c ∈ sep /\ tail = c :: r) ->
  next_token sep trim (t ++ tail) = Some (t, r).
Proof.
  intros Hc Ht. pose proof (clean_split _ _ _ Hc) as [Hs Hm].
  unfold next_token. rewrite skip_leading_spec by lia.
  destruct t as [|c t]; [done|]. destruct Hc as [Hc Hq].
  assert (c ∉ trim ++ sep) as Hn by (apply Forall_cons in Hc as [Hc' _]; clear -Hc'; rewrite elem_of_app in *; tauto).
  rewrite (trim_left_id (trim ++ sep) ((c :: t) ++ tail) c (t ++ tail) eq_refl Hn). cbn [app].
  destruct (among quotes c) eqn:E; [by apply among_spec in E|].
  change (c :: t ++ tail) with ((c :: t) ++ tail).
  destruct Ht as [[-> ->]|(d & Hd & ->)].
  - rewrite app_nil_r, split_at_none, trim_right_id by done. by rewrite bool_decide_eq_false_2.
  - rewrite split_at_app, trim_right_id by done. done.
Qed.

(** The text that has the tokens, with a separator between them. *)
Fixpoint join (c : ascii) (l : list text) : text :=
  match l with
  | [] => []
  | [t] => t
  | t :: l => t ++ c :: join c l
  end.

Lemma tokens_join sep trim c l :
  c ∈ sep -> Forall (clean sep trim) l -> tokens sep trim (join c l) = l.
Proof.
  intros Hc H. induction H as [|t l Ht Hl IH]; [by rewrite tokens_unfold|].
  rewrite tokens_unfold. destruct l as [|u l].
  - cbn [join]. rewrite <- (app_nil_r t) at 1.
    rewrite (next_token_clean _ _ _ []) by (by auto). by rewrite tokens_unfold.
  - change (join c (t :: u :: l)) with (t ++ c :: join c (u :: l)).
    rewrite (next_token_clean _ _ _ (join c (u :: l))) by (eauto). by rewrite IH.
Qed.
End TokenLemmas.

(** ** Sequences of transforms *)

Definition of_type (t : transform_type_t) (e : entry_t) : bool := bool_decide (e_type e = t).
Definition alg_of (e : entry_t) : Z * Z := (e_alg e, e_key_size e).
Definition algs (t : transform_type_t) (l : list entry_t) : list (Z * Z) := alg_of <$> List.filter (of_type t) l.
Definition entries (t : transform_type_t) (l : list (Z * Z)) : list entry_t :=
  (fun x => Entry t (fst x) (snd x)) <$> l.

Lemma algorithms_algs p t : algorithms p t = algs t (transforms p).
Proof. reflexivity. Qed.

Lemma algs_app t l k : algs t (l ++ k) = algs t l ++ algs t k.
Proof. unfold algs. by rewrite List.filter_app, fmap_app. Qed.

Lemma algs_entries t l : algs t (entries t l) = l.
Proof.
  unfold algs, entries. induction l as [|[a k] l IH]; [done|]. cbn.
  unfold of_type at 1. cbn. rewrite bool_decide_eq_true_2 by done. cbn. f_equal. exact IH.
Qed.

Lemma algs_entries_ne t u l : t <> u -> algs t (entries u l) = [].
Proof.
  intros H. unfold algs, entries. induction l as [|x l IH]; [done|]. cbn.
  unfold of_type at 1. cbn. rewrite bool_decide_eq_false_2 by congruence. exact IH.
Qed.

Lemma elem_of_algs t l x : x ∈ algs t l <-> Entry t (fst x) (snd x) ∈ l.
Proof.
  unfold algs. rewrite list_elem_of_fmap. split.
  - intros (e & -> & He). apply list_elem_of_In, filter_In in He as [He Ht].
    unfold of_type in Ht. apply bool_decide_eq_true in Ht. destruct e; cbn in *. subst.
    by apply list_elem_of_In.
  - intros H. exists (Entry t (fst x) (snd x)). split; [by destruct x|].
    apply list_elem_of_In, filter_In. split; [by apply list_elem_of_In|].
    unfold of_type. by apply bool_decide_eq_true.
Qed.

Lemma algs_empty t l : algs t l = [] <-> Forall (fun e => e_type e <> t) l.
Proof.
  rewrite Forall_forall. split.
  - intros H e He <-. apply (not_elem_of_nil (alg_of e)). rewrite <- H. apply elem_of_algs. by destruct e.
  - intros H. destruct (algs t l) as [|x k] eqn:E; [done|].
    exfalso. refine (H (Entry t (fst x) (snd x)) _ eq_refl). apply elem_of_algs. rewrite E. left.
Qed.

Lemma filter_filter_andb {A} (f g : A -> bool) l :
  List.filter f (List.filter g l) = List.filter (fun x => g x && f x) l.
Proof.
  induction l as [|x l IH]; [done|]. cbn. destruct (g x); cbn; [destruct (f x); by rewrite IH|exact IH].
Qed.

(** Walking and removing is filtering. *)
Lemma remove_walk_spec cond fuel l i :
  (length l - i <= fuel)%nat ->
  remove_walk fuel cond l i = take i l ++ List.filter (fun e => negb (cond e)) (drop i l).
Proof.
  revert l i. induction fuel as [|fuel IH]; intros l i H; cbn [remove_walk].
  - rewrite drop_ge, take_ge, app_nil_r by lia. done.
  - destruct (l !! i) as [e|] eqn:E.
    + pose proof (lookup_lt_Some _ _ _ E). rewrite (drop_S _ _ _ E). cbn [List.filter].
      destruct (cond e); cbn [negb].
      * rewrite IH by (rewrite length_delete by eauto; lia).
        rewrite delete_take_drop, take_app_le, take_take, Nat.min_id by (rewrite length_take; lia).
        rewrite drop_app_ge by (rewrite length_take; lia). rewrite length_take, Nat.min_l by lia.
        by rewrite Nat.sub_diag.
      * rewrite IH by lia. rewrite (take_S_r _ _ _ E), <- app_assoc. done.
    + apply lookup_ge_None in E. by rewrite drop_ge, take_ge, app_nil_r by lia.
Qed.

Lemma remove_entries_spec cond p :
  remove_entries cond p = with_transforms p (List.filter (fun e => negb (cond e)) (transforms p)).
Proof. unfold remove_entries. by rewrite remove_walk_spec by lia. Qed.

(** The PRFs of the integrity algorithms, behind what is there. *)
Definition integ_prfs (l : list entry_t) : list entry_t :=
  omap (fun e => if of_type INTEGRITY_ALGORITHM e
                 then (fun prf => Entry PSEUDO_RANDOM_FUNCTION prf 0) <$> prf_of_integ (e_alg e) else None) l.

Lemma integ_prfs_cons e l :
  integ_prfs (e :: l) =
  match (if of_type INTEGRITY_ALGORITHM e then prf_of_integ (e_alg e) else None) with
  | Some prf => Entry PSEUDO_RANDOM_FUNCTION prf 0 :: integ_prfs l
  | None => integ_prfs l
  end.
Proof.
  unfold integ_prfs. simpl. unfold of_type. case_bool_decide; [|done].
  by destruct (prf_of_integ (e_alg e)).
Qed.

(** [l] is the walked part and the rest; behind it are PRFs that were added. *)
Lemma add_prfs_walk_spec fuel l rest added :
  Forall (fun e => e_type e <> INTEGRITY_ALGORITHM) added ->
  (length rest + length rest + length added <= fuel)%nat ->
  add_prfs_walk fuel ((l ++ rest) ++ added) (length l) = (l ++ rest) ++ added ++ integ_prfs rest.
Proof.
  revert l rest added. induction fuel as [|fuel IH]; intros l rest added Ha H; cbn [add_prfs_walk].
  - destruct rest, added; cbn in *; try lia. by rewrite !app_nil_r.
  - destruct rest as [|e rest].
    + cbn [integ_prfs omap list_omap]. rewrite !app_nil_r. destruct added as [|e added].
      * rewrite !app_nil_r, (proj2 (lookup_ge_None l (length l))) by done. done.
      * rewrite list_lookup_middle by done. apply Forall_cons in Ha as [He Ha].
        rewrite bool_decide_eq_false_2 by done. cbn in H.
        replace (S (length l)) with (length (l ++ [e])) by (rewrite length_app; cbn; lia).
        specialize (IH (l ++ [e]) [] added Ha). rewrite !app_nil_r in IH.
        rewrite <- app_assoc in IH. cbn [app] in IH. apply IH. cbn; lia.
    + rewrite <- app_assoc. cbn [app]. rewrite list_lookup_middle by done. cbn in H.
      replace (S (length l)) with (length (l ++ [e])) by (rewrite length_app; cbn; lia).
      rewrite integ_prfs_cons. unfold of_type at 1.
      assert (forall x, l ++ e :: rest ++ x = ((l ++ [e]) ++ rest) ++ x) as Hr
        by (intros x; by rewrite <- !app_assoc).
      assert (l ++ e :: rest = (l ++ [e]) ++ rest) as Hr' by (by rewrite <- app_assoc).
      case_bool_decide; [destruct (prf_of_integ (e_alg e)) as [prf|]|];
        rewrite Hr, ?Hr'.
      * rewrite <- (app_assoc _ added), IH; [by rewrite <- (app_assoc added)| |].
        -- apply Forall_app. split; [done|]. by repeat constructor.
        -- rewrite length_app. cbn. lia.
      * rewrite IH by (done || lia). done.
      * rewrite IH by (done || lia). done.
Qed.

(** What becomes of a transform in AH. *)
Definition gmac_map (e : entry_t) : option entry_t :=
  if of_type ENCRYPTION_ALGORITHM e then
    if e_alg e =? encryption_algorithm_value ENCR_NULL_AUTH_AES_GMAC
    then (fun integ => Entry INTEGRITY_ALGORITHM integ 0) <$> gmac_integ (e_key_size e)
    else None
  else Some e.

Lemma gmac_walk_spec fuel l i :
  (length l - i <= fuel)%nat -> gmac_walk fuel l i = take i l ++ omap gmac_map (drop i l).
Proof.
  revert l i. induction fuel as [|fuel IH]; intros l i H; cbn [gmac_walk].
  - rewrite drop_ge, take_ge, app_nil_r by lia. done.
  - destruct (l !! i) as [e|] eqn:E; cycle 1.
    { apply lookup_ge_None in E. by rewrite drop_ge, take_ge, app_nil_r by lia. }
    pose proof (lookup_lt_Some _ _ _ E) as Hi. rewrite (drop_S _ _ _ E).
    change (omap gmac_map (e :: drop (S i) l))
      with (match gmac_map e with Some y => y :: omap gmac_map (drop (S i) l) | None => omap gmac_map (drop (S i) l) end).
    assert (gmac_walk fuel (delete i l) i = take i l ++ omap gmac_map (drop (S i) l)) as Hdel.
    { rewrite IH by (rewrite length_delete by eauto; lia).
      rewrite delete_take_drop, take_app_le, take_take, Nat.min_id by (rewrite length_take; lia).
      rewrite drop_app_ge by (rewrite length_take; lia). rewrite length_take, Nat.min_l by lia.
      by rewrite Nat.sub_diag. }
    unfold gmac_map at 1, of_type. case_bool_decide.
    + destruct (e_alg e =? _); [|exact Hdel].
      destruct (gmac_integ (e_key_size e)) as [integ|]; [|exact Hdel]. cbn [fmap option_fmap option_map].
      rewrite IH by (rewrite length_insert; lia).
      rewrite (take_S_r _ _ (Entry INTEGRITY_ALGORITHM integ 0)) by (by rewrite list_lookup_insert_eq).
      rewrite take_insert_ge, drop_insert_lt by lia. by rewrite <- app_assoc.
    + rewrite IH by lia. rewrite (take_S_r _ _ _ E), <- app_assoc. done.
Qed.

(** ** Well-formed proposals: the fields have their widths *)

Definition in_range (e : entry_t) : Prop := 0 <= e_alg e < 2 ^ 16 /\ 0 <= e_key_size e < 2 ^ 16.
Definition wf (p : proposal) : Prop := Forall in_range (transforms p).

Lemma add_algorithm_wf p t alg ks : wf p -> wf (add_algorithm p t alg ks).
Proof.
  intros H. apply Forall_app. split; [exact H|]. repeat constructor; cbn; apply uwrap_range; lia.
Qed.

Lemma remove_entries_wf cond p : wf p -> wf (remove_entries cond p).
Proof.
  rewrite remove_entries_spec. unfold wf, with_transforms. cbn. rewrite !Forall_forall.
  intros H e He. apply H. apply list_elem_of_In. by apply list_elem_of_In, filter_In in He as [He _].
Qed.

(** ** Selection *)

(** Both know the algorithm, and it may be used. *)
Definition common (priv : bool) (l2 : list (Z * Z)) (x : Z * Z) : Prop :=
  x ∈ l2 /\ (priv = true \/ fst x < 1024).

(** The first algorithm of [l1] that is common. *)
Definition best (priv : bool) (l1 l2 : list (Z * Z)) (x : Z * Z) : Prop :=
  exists a b, l1 = a ++ x :: b /\ common priv l2 x /\ Forall (fun y => ~ common priv l2 y) a.

Lemma select_inner_spec priv x l2 : select_inner priv x l2 = true <-> common priv l2 x.
Proof.
  unfold common. induction l2 as [|y l2 IH]; cbn [select_inner].
  - split; [done|]. intros [H _]. by apply not_elem_of_nil in H.
  - rewrite elem_of_cons. destruct ((fst x =? fst y) && (snd x =? snd y)) eqn:E; cycle 1.
    + assert (x <> y) by (intros ->; rewrite !Z.eqb_refl in E; done). tauto.
    + assert (x = y) as -> by (destruct x, y; cbn in E; f_equal; lia).
      destruct priv; cbn [negb andb]; [tauto|]. destruct (Z.leb_spec 1024 (fst y)).
      * rewrite IH. split; intros [_ [?|?]]; done || lia.
      * split; [|done]. intros _. split; [by left|by right].
Qed.

Lemma select_outer_some priv l1 l2 x : select_outer priv l1 l2 = Some x <-> best priv l1 l2 x.
Proof.
  induction l1 as [|y l1 IH]; cbn [select_outer].
  - split; [done|]. intros ([|]&?&?&_); done.
  - destruct (select_inner priv y l2) eqn:E.
    + apply select_inner_spec in E. split.
      * intros [= <-]. exists [], l1. split_and!; [done|done|constructor].
      * intros ([|z a] & b & Hb & Hc & Ha); injection Hb as -> Hb; [done|].
        by apply Forall_cons in Ha as [Ha _].
    + assert (~ common priv l2 y) as Hy by (rewrite <- select_inner_spec; by rewrite E).
      rewrite IH. split.
      * intros (a & b & -> & Hc & Ha). exists (y :: a), b. split_and!; [done..|]. by constructor.
      * intros ([|z a] & b & Hb & Hc & Ha); injection Hb as -> Hb; [done|]. apply Forall_cons in Ha as [_ Ha].
        exists a, b. by subst.
Qed.

Lemma select_outer_none priv l1 l2 :
  select_outer priv l1 l2 = None <-> Forall (fun y => ~ common priv l2 y) l1.
Proof.
  induction l1 as [|y l1 IH]; cbn [select_outer]; [by split|].
  rewrite Forall_cons, <- IH, <- select_inner_spec. destruct (select_inner priv y l2).
  - split; [done|]. by intros [[] _].
  - split; [by split|]. by intros [_ H].
Qed.

Lemma best_fun priv l1 l2 x y : best priv l1 l2 x -> best priv l1 l2 y -> x = y.
Proof. rewrite <- !select_outer_some. congruence. Qed.

(** The algorithm that was chosen for encryption is combined with authentication. *)
Definition aead_chosen (encr : list (Z * Z)) : Prop := exists x, head encr = Some x /\ is_aead (fst x) = true.

(** What the two lists of a type come to: the preferred common algorithm, or nothing where
    neither has the type or where, for a DH group of ESP or AH, the only one that has the
    type has NONE. *)
Inductive agreement (priv : bool) (pr : protocol_id_t) (t : transform_type_t) (l1 l2 : list (Z * Z)) :
  list (Z * Z) -> Prop :=
| agreed x : best priv l1 l2 x -> agreement priv pr t l1 l2 [x]
| neither : l1 = [] -> l2 = [] -> agreement priv pr t l1 l2 []
| none_proposed k :
    t = DIFFIE_HELLMAN_GROUP -> pr = PROTO_ESP \/ pr = PROTO_AH ->
    l1 = [] /\ (0, k) ∈ l2 \/ l2 = [] /\ (0, k) ∈ l1 ->
    agreement priv pr t l1 l2 [].

Definition settled (priv : bool) (this other : proposal) (encr : list (Z * Z)) (t : transform_type_t)
    (ls : list (Z * Z)) : Prop :=
  (t = INTEGRITY_ALGORITHM /\ aead_chosen encr /\ ls = []) \/
  (~ (t = INTEGRITY_ALGORITHM /\ aead_chosen encr) /\
   agreement priv (protocol this) t (algorithms this t) (algorithms other t) ls).

Lemma best_elem priv l1 l2 x : best priv l1 l2 x -> x ∈ l1 /\ x ∈ l2.
Proof. intros (a & b & -> & [H _] & _). split; [|done]. apply elem_of_app. right. left. Qed.

Lemma agreement_fun priv pr t l1 l2 a b :
  agreement priv pr t l1 l2 a -> agreement priv pr t l1 l2 b -> a = b.
Proof.
  assert (forall x, best priv l1 l2 x -> l1 <> [] /\ l2 <> []) as Hne.
  { intros x [H1 H2]%best_elem. split; intros ->; by apply not_elem_of_nil in H1 || apply not_elem_of_nil in H2. }
  intros [x Hx|H1 H2|k Ht Hp Hk] [y Hy|H3 H4|k' Ht' Hp' Hk']; try done.
  - by rewrite (best_fun _ _ _ _ _ Hx Hy).
  - by destruct (Hne x Hx).
  - destruct (Hne x Hx). by destruct Hk' as [[-> _]|[-> _]].
  - by destruct (Hne y Hy).
  - destruct (Hne y Hy). by destruct Hk as [[-> _]|[-> _]].
Qed.

Lemma settled_fun priv this other encr t a b :
  settled priv this other encr t a -> settled priv this other encr t b -> a = b.
Proof.
  intros [(Ht & He & ->)|[Hn Ha]] [(Ht' & He' & ->)|[Hn' Hb]]; [done| | |].
  - by destruct Hn'.
  - by destruct Hn.
  - eapply agreement_fun; eassumption.
Qed.

Lemma none_elem l : existsb (fun '(alg, _) => alg =? 0) l = true <-> exists k : Z, (0, k) ∈ l.
Proof.
  rewrite existsb_exists. split.
  - intros ([a k] & H & Ha). apply Z.eqb_eq in Ha as ->. exists k. by apply list_elem_of_In.
  - intros [k H]. exists (0, k). split; [by apply list_elem_of_In|done].
Qed.

Lemma algorithms_in_range p t x : wf p -> x ∈ algorithms p t -> u16 (fst x) = fst x /\ u16 (snd x) = snd x.
Proof.
  intros H Hx. rewrite algorithms_algs in Hx. apply elem_of_algs in Hx.
  unfold wf in H. rewrite Forall_forall in H. apply H in Hx as [Ha Hk]. cbn in *.
  split; apply uwrap_small; lia.
Qed.

Lemma app_entries_nil sel t : with_transforms sel (transforms sel ++ entries t []) = sel.
Proof. cbn. rewrite app_nil_r. by destruct sel. Qed.

Lemma aead_chosen_spec p :
  match get_algorithm p ENCRYPTION_ALGORITHM with Some (alg, _) => is_aead alg | None => false end = true
  <-> aead_chosen (algorithms p ENCRYPTION_ALGORITHM).
Proof.
  unfold aead_chosen, get_algorithm. destruct (head _) as [[a k]|].
  - split; [intros H; by exists (a, k)|]. by intros (x & [= <-] & H).
  - split; [done|]. by intros (x & ? & _).
Qed.

Definition optional (pr : protocol_id_t) (t : transform_type_t) : bool :=
  bool_decide (t = DIFFIE_HELLMAN_GROUP) && (bool_decide (pr = PROTO_ESP) || bool_decide (pr = PROTO_AH)).

(** Neither list has an algorithm, or the one that has may do without. *)
Definition dispensable (pr : protocol_id_t) (t : transform_type_t) (l1 l2 : list (Z * Z)) : bool :=
  let none l := optional pr t && existsb (fun '(alg, _) => alg =? 0) l in
  match l1, l2 with [], [] => true | [], _ => none l2 | _, [] => none l1 | _, _ => false end.

(** The lists without the first guard. *)
Definition agree_lists (priv : bool) (pr : protocol_id_t) (t : transform_type_t) (l1 l2 : list (Z * Z)) :
  option (list (Z * Z)) :=
  if dispensable pr t l1 l2 then Some [] else (fun x => [x]) <$> select_outer priv l1 l2.

Lemma optional_spec pr t :
  optional pr t = true <-> t = DIFFIE_HELLMAN_GROUP /\ (pr = PROTO_ESP \/ pr = PROTO_AH).
Proof. unfold optional. rewrite andb_true_iff, orb_true_iff, !bool_decide_eq_true. done. Qed.

Lemma dispensable_spec priv pr t l1 l2 : dispensable pr t l1 l2 = true <-> agreement priv pr t l1 l2 [].
Proof.
  split.
  - destruct l1 as [|x l1], l2 as [|y l2]; try done; [by constructor| |];
      intros [Ho Hn]%andb_true_iff; apply optional_spec in Ho as [-> Ho];
      apply none_elem in Hn as [k Hk]; eapply none_proposed; eauto.
  - intros H. destruct l1 as [|x l1], l2 as [|y l2]; [done| | |];
      inversion H as [|?? |k Ht Hp Hk]; subst; try done;
      destruct Hk as [[E Hk]|[E Hk]]; try done;
      apply andb_true_iff; rewrite optional_spec, none_elem; eauto.
Qed.

Lemma agree_lists_spec priv pr t l1 l2 ls :
  agree_lists priv pr t l1 l2 = Some ls <-> agreement priv pr t l1 l2 ls.
Proof.
  unfold agree_lists. destruct (dispensable pr t l1 l2) eqn:E.
  - apply (dispensable_spec priv) in E. split; [by intros [= <-]|].
    intros H. f_equal. eapply agreement_fun; eassumption.
  - assert (~ agreement priv pr t l1 l2 []) as Hn by (rewrite <- (dispensable_spec priv); congruence).
    rewrite fmap_Some. split.
    + intros (x & Hx & ->). constructor. by apply select_outer_some.
    + intros [x Hx|H1 H2|k Ht Hp Hk].
      * exists x. split; [by apply select_outer_some|done].
      * destruct Hn. by constructor.
      * destruct Hn. by eapply none_proposed.
Qed.

Definition app_entries (sel : proposal) (t : transform_type_t) (ls : list (Z * Z)) : proposal :=
  with_transforms sel (transforms sel ++ entries t ls).

Lemma select_algo_lists this other sel t priv :
  wf this ->
  select_algo this other sel t priv =
  if bool_decide (t = INTEGRITY_ALGORITHM) &&
     match get_algorithm sel ENCRYPTION_ALGORITHM with Some (alg, _) => is_aead alg | None => false end
  then (true, sel)
  else match agree_lists priv (protocol this) t (algorithms this t) (algorithms other t) with
       | Some ls => (true, app_entries sel t ls)
       | None => (false, sel)
       end.
Proof.
  intros Hw. unfold select_algo. destruct (_ && _); [done|]. unfold agree_lists.
  fold (optional (protocol this) t).
  fold (dispensable (protocol this) t (algorithms this t) (algorithms other t)).
  destruct (dispensable _ _ _ _); [unfold app_entries; by rewrite app_entries_nil|].
  destruct (select_outer _ _ _) as [x|] eqn:Ho; [|done]. cbn [fmap option_fmap option_map].
  apply select_outer_some, best_elem in Ho as [Hx _].
  apply (algorithms_in_range _ _ _ Hw) in Hx as [Ha Hk]. destruct x as [a k]; cbn in Ha, Hk.
  unfold add_algorithm, app_entries. by rewrite Ha, Hk.
Qed.

(** A step of the selection settles the type or fails if it cannot be settled. *)
Lemma select_algo_settles this other sel t priv :
  wf this ->
  let encr := algorithms sel ENCRYPTION_ALGORITHM in
  (exists ls, settled priv this other encr t ls /\ select_algo this other sel t priv = (true, app_entries sel t ls)) \/
  ((forall ls, ~ settled priv this other encr t ls) /\ select_algo this other sel t priv = (false, sel)).
Proof.
  intros Hw encr. rewrite select_algo_lists by done.
  destruct (_ && _) eqn:E.
  - apply andb_true_iff in E as [Ht%bool_decide_eq_true He%aead_chosen_spec].
    left. exists []. unfold app_entries. rewrite app_entries_nil. split; [by left|done].
  - assert (~ (t = INTEGRITY_ALGORITHM /\ aead_chosen encr)) as Hn.
    { intros [Ht He]. apply aead_chosen_spec in He.
      assert (true = false); [|done]. rewrite <- E, He. by rewrite bool_decide_eq_true_2. }
    destruct (agree_lists _ _ _ _ _) as [ls|] eqn:Ha.
    + left. exists ls. split; [|done]. right. split; [done|]. by apply agree_lists_spec.
    + right. split; [|done]. intros ls [[? []]|[_ H]]; [by destruct Hn|].
      apply agree_lists_spec in H. congruence.
Qed.

Lemma select_types_cons this other sel priv t ts r :
  wf this ->
  select_types this other sel priv (t :: ts) = Some r <->
  exists ls, settled priv this other (algorithms sel ENCRYPTION_ALGORITHM) t ls /\
             select_types this other (app_entries sel t ls) priv ts = Some r.
Proof.
  intros Hw. cbn [select_types].
  destruct (select_algo_settles this other sel t priv Hw) as [(ls & Hs & ->)|[Hn ->]].
  - split; [by eauto|]. intros (ls' & Hs' & H). by rewrite (settled_fun _ _ _ _ _ _ _ Hs Hs').
  - split; [done|]. intros (ls & Hs & _). by destruct (Hn ls).
Qed.

(** The transforms for what was settled, in the order of the types. *)
Definition chosen (f : transform_type_t -> list (Z * Z)) : list entry_t :=
  concat ((fun t => entries t (f t)) <$> selected_types).

Lemma algs_chosen f t : t ∈ selected_types -> algs t (chosen f) = f t.
Proof.
  unfold chosen, selected_types. cbn [fmap list_fmap concat]. rewrite !algs_app.
  intros H. repeat (apply elem_of_cons in H as [->|H]); [..|by apply not_elem_of_nil in H];
    rewrite algs_entries, ?(algs_entries_ne _ _ _) by done; cbn; by rewrite ?app_nil_r.
Qed.

Lemma settled_encr priv this other e e' t ls :
  t <> INTEGRITY_ALGORITHM -> settled priv this other e t ls -> settled priv this other e' t ls.
Proof. intros Ht [[? _]|[_ H]]; [done|]. right. split; [tauto|exact H]. Qed.

Definition outcome (this other : proposal) (other_remote priv : bool) (sel : proposal) : Prop :=
  protocol this = protocol other /\
  exists f, (forall t, t ∈ selected_types -> settled priv this other (f ENCRYPTION_ALGORITHM) t (f t)) /\
            sel = Proposal (protocol this) (chosen f) (if other_remote then spi other else spi this)
                           (if other_remote then number other else number this).

Definition override (t : transform_type_t) (ls : list (Z * Z)) (f : transform_type_t -> list (Z * Z)) :=
  fun u => if decide (u = t) then ls else f u.

Lemma override_map t ls f (ts : list transform_type_t) :
  t ∉ ts -> (fun u => entries u (override t ls f u)) <$> ts = (fun u => entries u (f u)) <$> ts.
Proof.
  intros H. apply list_fmap_ext. intros i u Hu. unfold override. rewrite decide_False; [done|].
  intros ->. apply H. by eapply list_elem_of_lookup_2.
Qed.

Lemma algorithms_app_entries sel t ls u :
  u <> t -> algorithms (app_entries sel t ls) u = algorithms sel u.
Proof. intros H. rewrite !algorithms_algs. cbn [transforms app_entries with_transforms].
  by rewrite algs_app, algs_entries_ne, app_nil_r. Qed.

(** The types behind the first: encryption is chosen already. *)
Lemma select_types_settled this other priv ts sel r :
  wf this -> NoDup ts -> ENCRYPTION_ALGORITHM ∉ ts ->
  select_types this other sel priv ts = Some r <->
  exists f, (forall t, t ∈ ts -> settled priv this other (algorithms sel ENCRYPTION_ALGORITHM) t (f t)) /\
            r = with_transforms sel (transforms sel ++ concat ((fun t => entries t (f t)) <$> ts)).
Proof.
  intros Hw Hd He. revert sel. induction Hd as [|t ts Ht Hd IH]; intros sel.
  - cbn. rewrite app_nil_r. replace (with_transforms sel (transforms sel)) with sel by (by destruct sel).
    split; [intros [= <-]; exists (fun _ => []); split; [|done]|by intros (f & _ & ->)].
    intros t Ht. by apply not_elem_of_nil in Ht.
  - apply not_elem_of_cons in He as [Hne He]. rewrite select_types_cons by done. split.
    + intros (ls & Hs & H). apply IH in H as (f & Hf & ->); [|done].
      rewrite algorithms_app_entries in Hf by done. exists (override t ls f). split.
      * intros u [->|Hu]%elem_of_cons; unfold override; [by rewrite decide_True|].
        rewrite decide_False by (by intros ->). by apply Hf.
      * cbn [fmap list_fmap concat]. rewrite override_map by done.
        unfold override. rewrite decide_True by done. unfold app_entries, with_transforms. cbn.
        by rewrite <- app_assoc.
    + intros (f & Hf & ->). exists (f t). split; [apply Hf; left|]. apply IH; [done|].
      rewrite algorithms_app_entries by done. exists f. split; [intros u Hu; apply Hf; by right|].
      unfold app_entries, with_transforms. cbn. by rewrite <- app_assoc.
Qed.

Lemma select_outcome this other other_remote priv sel :
  wf this -> select_proposal this other other_remote priv = Some sel <-> outcome this other other_remote priv sel.
Proof.
  intros Hw. unfold select_proposal, outcome.
  case_bool_decide as Hp; cbn [negb]; [|split; [done|by intros [? _]]].
  set (start := if other_remote then _ else _).
  assert (start = Proposal (protocol this) [] (if other_remote then spi other else spi this)
                    (if other_remote then number other else number this)) as Hstart
    by (unfold start; by destruct other_remote).
  clearbody start. subst start.
  assert (Hnd : NoDup (tail selected_types)) by (refine (bool_decide_unpack _ _); vm_compute; exact I).
  assert (Hne : ENCRYPTION_ALGORITHM ∉ tail selected_types) by (refine (bool_decide_unpack _ _); vm_compute; exact I).
  change selected_types with (ENCRYPTION_ALGORITHM :: tail selected_types) at 1.
  rewrite select_types_cons by done. split.
  - intros (encr & H1 & H). split; [done|]. apply select_types_settled in H as (f & Hf & ->); [|done..].
    rewrite algorithms_algs in Hf. cbn [transforms app_entries with_transforms app] in Hf.
    rewrite algs_entries in Hf. exists (override ENCRYPTION_ALGORITHM encr f). split.
    + intros t Ht. unfold override at 1. rewrite decide_True by done.
      change selected_types with (ENCRYPTION_ALGORITHM :: tail selected_types) in Ht.
      apply elem_of_cons in Ht as [->|Ht]; unfold override; [rewrite decide_True by done|].
      * by eapply settled_encr.
      * rewrite decide_False by (by intros ->). by apply Hf.
    + unfold chosen. change selected_types with (ENCRYPTION_ALGORITHM :: tail selected_types) at 2.
      cbn [fmap list_fmap concat]. rewrite override_map by done.
      unfold override. by rewrite decide_True by done.
  - intros (_ & f & Hf & ->). exists (f ENCRYPTION_ALGORITHM).
    split; [eapply settled_encr; [done|apply Hf; left]|].
    apply select_types_settled; [done..|]. exists f. split; [|done].
    rewrite algorithms_algs. cbn [transforms app_entries with_transforms app]. rewrite algs_entries.
    intros t Ht. apply Hf. by right.
Qed.

Lemma settled_wf priv this other encr t ls :
  wf this -> settled priv this other encr t ls -> Forall in_range (entries t ls).
Proof.
  intros Hw [(_ & _ & ->)|[_ H]]; [constructor|]. destruct H as [x Hx| |]; [|constructor..].
  apply best_elem in Hx as [Hx _]. rewrite algorithms_algs in Hx. apply elem_of_algs in Hx.
  constructor; [|constructor]. unfold wf in Hw. rewrite Forall_forall in Hw.
  destruct (Hw _ Hx). by split.
Qed.

Lemma outcome_wf this other r priv sel : wf this -> outcome this other r priv sel -> wf sel.
Proof.
  intros Hw (_ & f & Hf & ->). unfold wf, chosen. cbn [transforms].
  apply Forall_concat, Forall_fmap, Forall_forall. intros t Ht. by eapply settled_wf, Hf.
Qed.

Lemma outcome_algorithms this other r priv sel t :
  outcome this other r priv sel -> t ∈ selected_types ->
  settled priv this other (algorithms sel ENCRYPTION_ALGORITHM) t (algorithms sel t).
Proof.
  intros (_ & f & Hf & ->) Ht. rewrite !algorithms_algs. cbn [transforms].
  rewrite !algs_chosen by (done || left). by apply Hf.
Qed.

(** C16: the selection of a proposal gives, for every type of transform, the algorithm that
    is preferred by [this] among those both proposals have, or none where that is allowed:
    integrity with an AEAD, DH for ESP and AH where NONE is proposed, and types neither
    proposal has.  It gives nothing only where the protocols differ or a type cannot be
    settled. *)
Theorem select_proposal_correct this other other_remote priv :
  wf this ->
  match select_proposal this other other_remote priv with
  | Some sel =>
    wf sel /\ protocol this = protocol other /\ protocol sel = protocol this /\
    (if other_remote then spi sel = spi other /\ number sel = number other
     else spi sel = spi this /\ number sel = number this) /\
    (forall t, t ∈ selected_types ->
      settled priv this other (algorithms sel ENCRYPTION_ALGORITHM) t (algorithms sel t))
  | None =>
    protocol this <> protocol other \/
    ~ exists f, forall t, t ∈ selected_types -> settled priv this other (f ENCRYPTION_ALGORITHM) t (f t)
  end.
Proof.
  intros Hw. destruct (select_proposal this other other_remote priv) as [sel|] eqn:E.
  - apply select_outcome in E; [|done]. split_and!.
    + by eapply outcome_wf.
    + by destruct E.
    + by destruct E as (_ & f & _ & ->).
    + destruct E as (_ & f & _ & ->). by destruct other_remote.
    + intros t Ht. by eapply outcome_algorithms.
  - destruct (decide (protocol this = protocol other)) as [Hp|Hp]; [|by left]. right.
    intros [f Hf].
    assert (outcome this other other_remote priv
      (Proposal (protocol this) (chosen f) (if other_remote then spi other else spi this)
         (if other_remote then number other else number this))) as H by (split; eauto).
    apply select_outcome in H; [|done]. congruence.
Qed.

(** ** The check of a configured proposal *)

Lemma has_spec p t : has p t = true <-> algorithms p t <> [].
Proof. apply bool_decide_eq_true. Qed.

Lemma has_false p t : has p t = false <-> algorithms p t = [].
Proof. unfold has. rewrite bool_decide_eq_false. split; [apply dec_stable|]. intros -> H. by apply H. Qed.

Lemma filter_all {A} (f : A -> bool) l : Forall (fun x => f x = true) l -> List.filter f l = l.
Proof. induction 1 as [|x l Hx _ IH]; cbn; [done|]. by rewrite Hx, IH. Qed.

Lemma with_transforms_id p : with_transforms p (transforms p) = p.
Proof. by destruct p. Qed.

(** Removing what a type does not meet keeps the type. *)
Lemma algorithms_remove cond p t :
  (forall e, e_type e = t -> cond e = false) -> algorithms (remove_entries cond p) t = algorithms p t.
Proof.
  intros H. rewrite remove_entries_spec, !algorithms_algs. cbn [transforms with_transforms]. unfold algs.
  rewrite filter_filter_andb. f_equal. apply filter_ext_in. intros e _. unfold of_type.
  case_bool_decide; [by rewrite H|by rewrite andb_false_r].
Qed.

Lemma algorithms_removed p t : algorithms (remove_transform p t) t = [].
Proof.
  unfold remove_transform. rewrite remove_entries_spec, algorithms_algs. cbn [transforms with_transforms].
  apply algs_empty, Forall_forall. intros e He Ht.
  apply list_elem_of_In, filter_In in He as [_ He]. by rewrite bool_decide_eq_true_2 in He.
Qed.

Lemma remove_absent p t : algorithms p t = [] -> remove_transform p t = p.
Proof.
  intros H. unfold remove_transform. rewrite remove_entries_spec, filter_all; [apply with_transforms_id|].
  rewrite algorithms_algs, algs_empty in H. eapply Forall_impl; [exact H|].
  intros e He. cbn. by rewrite bool_decide_eq_false_2.
Qed.

Lemma algorithms_remove_transform p t u :
  u <> t -> algorithms (remove_transform p t) u = algorithms p u.
Proof. intros H. apply algorithms_remove. intros e <-. by apply bool_decide_eq_false. Qed.

Lemma remove_entries_protocol cond p : protocol (remove_entries cond p) = protocol p.
Proof. reflexivity. Qed.

(** The groups without NONE. *)
Definition some_groups (l : list (Z * Z)) : list (Z * Z) := List.filter (fun x => negb (fst x =? 0)) l.

Definition is_none_group (e : entry_t) : bool :=
  bool_decide (e_type e = DIFFIE_HELLMAN_GROUP) && (e_alg e =? 0).

Lemma algorithms_remove_none p :
  algorithms (remove_entries is_none_group p) DIFFIE_HELLMAN_GROUP = some_groups (algorithms p DIFFIE_HELLMAN_GROUP).
Proof.
  rewrite remove_entries_spec, !algorithms_algs. cbn [transforms with_transforms]. unfold algs, some_groups.
  rewrite filter_filter_andb. induction (transforms p) as [|e l IH]; [done|]. cbn [List.filter].
  change (is_none_group e) with (of_type DIFFIE_HELLMAN_GROUP e && (e_alg e =? 0)).
  destruct (of_type DIFFIE_HELLMAN_GROUP e); cbn [andb negb fmap list_fmap List.filter alg_of fst]; [|exact IH].
  destruct (e_alg e =? 0); cbn [andb negb fmap list_fmap]; [exact IH|by f_equal].
Qed.

Lemma remove_none_id p :
  Forall (fun x => fst x <> 0) (algorithms p DIFFIE_HELLMAN_GROUP) -> remove_entries is_none_group p = p.
Proof.
  intros H. rewrite remove_entries_spec, filter_all; [apply with_transforms_id|].
  rewrite Forall_forall in H. apply Forall_forall. intros e He. unfold is_none_group. case_bool_decide as Ht; [|done]. cbn.
  apply negb_true_iff, Z.eqb_neq. refine (H (alg_of e) _). apply elem_of_algs. by destruct e; cbn in *; subst.
Qed.

(** All or none of the encryption algorithms are AEADs. *)
Definition all_aeads (l : list (Z * Z)) : bool := forallb (fun '(alg, _) => is_aead alg) l.
Definition any_aead (l : list (Z * Z)) : bool := existsb (fun '(alg, _) => is_aead alg) l.

(** The proposals the check accepts as they are, part by part. *)
Definition valid_prf_dh (p : proposal) : Prop :=
  match protocol p with
  | PROTO_IKE =>
    algorithms p PSEUDO_RANDOM_FUNCTION <> [] /\ algorithms p DIFFIE_HELLMAN_GROUP <> [] /\
    Forall (fun x => fst x <> 0) (algorithms p DIFFIE_HELLMAN_GROUP)
  | _ => algorithms p PSEUDO_RANDOM_FUNCTION = []
  end.

Definition valid_encryption (p : proposal) : Prop :=
  let encr := algorithms p ENCRYPTION_ALGORITHM in
  let integ := algorithms p INTEGRITY_ALGORITHM in
  match protocol p with
  | PROTO_IKE | PROTO_ESP => encr <> [] /\ (all_aeads encr = true /\ integ = [] \/ any_aead encr = false)
  | _ => encr = [] /\ integ <> []
  end.

Definition valid_esn (p : proposal) : Prop :=
  match protocol p with
  | PROTO_AH | PROTO_ESP => algorithms p EXTENDED_SEQUENCE_NUMBERS <> []
  | _ => True
  end.

Definition valid (p : proposal) : Prop := valid_prf_dh p /\ valid_encryption p /\ valid_esn p.

Lemma any_all_aead l : l <> [] -> all_aeads l = true -> any_aead l = true.
Proof. destruct l as [|[a k] l]; [done|]. intros _ [H _]%andb_true_iff. cbn. by rewrite H. Qed.

Lemma add_prfs_spec l : add_prfs_walk (2 * length l) l 0 = l ++ integ_prfs l.
Proof.
  pose proof (add_prfs_walk_spec (2 * length l) [] l []) as H. cbn [app length] in H.
  rewrite app_nil_r in H. apply H; [constructor|cbn; lia].
Qed.

Lemma algs_integ_prfs t l : t <> PSEUDO_RANDOM_FUNCTION -> algs t (integ_prfs l) = [].
Proof.
  intros Ht. apply algs_empty, Forall_forall. intros e He. apply list_elem_of_omap in He as (x & _ & Hx).
  destruct (of_type INTEGRITY_ALGORITHM x); [|done]. apply fmap_Some in Hx as (prf & _ & ->). done.
Qed.

Lemma integ_prfs_all l : algs PSEUDO_RANDOM_FUNCTION (integ_prfs l) = [] <-> integ_prfs l = [].
Proof.
  split; [|by intros ->]. rewrite algs_empty. intros H. destruct (integ_prfs l) as [|e k] eqn:E; [done|].
  exfalso. apply Forall_cons in H as [H _]. apply H.
  assert (e ∈ integ_prfs l) as He by (rewrite E; left). apply list_elem_of_omap in He as (x & _ & Hx).
  destruct (of_type INTEGRITY_ALGORITHM x); [|done]. by apply fmap_Some in Hx as (prf & _ & ->).
Qed.

(** What the first part makes of a proposal it accepts. *)
Definition with_prf (p : proposal) : proposal :=
  if has p PSEUDO_RANDOM_FUNCTION then p else with_transforms p (transforms p ++ integ_prfs (transforms p)).

Lemma with_prf_other p t : t <> PSEUDO_RANDOM_FUNCTION -> algorithms (with_prf p) t = algorithms p t.
Proof.
  intros Ht. unfold with_prf. destruct (has p _); [done|]. rewrite !algorithms_algs. cbn [transforms with_transforms].
  by rewrite algs_app, algs_integ_prfs, app_nil_r.
Qed.

Lemma with_prf_none p :
  algorithms (with_prf p) PSEUDO_RANDOM_FUNCTION = [] <->
  algorithms p PSEUDO_RANDOM_FUNCTION = [] /\ integ_prfs (transforms p) = [].
Proof.
  unfold with_prf. destruct (has p _) eqn:E.
  - apply has_spec in E. tauto.
  - apply has_false in E. rewrite <- integ_prfs_all, !algorithms_algs in *. cbn [transforms with_transforms].
    rewrite algs_app, E. cbn [app]. tauto.
Qed.

Lemma with_prf_protocol p : protocol (with_prf p) = protocol p.
Proof. unfold with_prf. by destruct (has p _). Qed.

Lemma check_prf_dh_ike p :
  protocol p = PROTO_IKE ->
  check_prf_dh p = if has (with_prf p) PSEUDO_RANDOM_FUNCTION
                   then let q := remove_entries is_none_group (with_prf p) in
                        if has q DIFFIE_HELLMAN_GROUP then Some q else None
                   else None.
Proof.
  intros Hp. unfold check_prf_dh. rewrite bool_decide_eq_true_2 by done.
  rewrite add_prfs_spec. fold (with_prf p). fold is_none_group.
  destruct (has (with_prf p) _); cbn [negb]; [|done].
  by destruct (has (remove_entries is_none_group (with_prf p)) _).
Qed.

Lemma remove_none_other p t :
  t <> DIFFIE_HELLMAN_GROUP -> algorithms (remove_entries is_none_group p) t = algorithms p t.
Proof. intros H. apply algorithms_remove. intros e He. unfold is_none_group. by rewrite bool_decide_eq_false_2 by congruence. Qed.

Lemma some_groups_spec l : Forall (fun x => fst x <> 0) (some_groups l).
Proof.
  apply Forall_forall. intros x Hx. apply list_elem_of_In, filter_In in Hx as [_ Hx].
  by apply negb_true_iff, Z.eqb_neq in Hx.
Qed.

(** The first part gives what is valid and keeps the other types. *)
Lemma check_prf_dh_some p q :
  check_prf_dh p = Some q ->
  protocol q = protocol p /\ valid_prf_dh q /\
  forall t, t <> PSEUDO_RANDOM_FUNCTION -> t <> DIFFIE_HELLMAN_GROUP -> algorithms q t = algorithms p t.
Proof.
  destruct (decide (protocol p = PROTO_IKE)) as [Hp|Hp].
  - rewrite check_prf_dh_ike by done. destruct (has (with_prf p) _) eqn:E; [|done].
    cbn zeta. destruct (has (remove_entries _ _) _) eqn:E2; [|done]. intros [= <-].
    apply has_spec in E, E2. split_and!.
    + by rewrite remove_entries_protocol, with_prf_protocol.
    + unfold valid_prf_dh. rewrite remove_entries_protocol, with_prf_protocol, Hp. split_and!; [by rewrite remove_none_other|done|].
      rewrite algorithms_remove_none. apply some_groups_spec.
    + intros t H1 H2. by rewrite remove_none_other, with_prf_other.
  - unfold check_prf_dh. rewrite bool_decide_eq_false_2 by done. intros [= <-].
    split_and!; [done| |].
    + unfold valid_prf_dh. rewrite algorithms_removed.
      change (protocol (remove_transform p PSEUDO_RANDOM_FUNCTION)) with (protocol p). by destruct (protocol p).
    + intros t H1 H2. by apply algorithms_remove_transform.
Qed.

Definition with_gmac (p : proposal) : proposal := with_transforms p (omap gmac_map (transforms p)).

(** Where an entry of the result comes from. *)
Lemma gmac_map_type e e' : gmac_map e = Some e' -> e' = e /\ e_type e <> ENCRYPTION_ALGORITHM \/
  e_type e' = INTEGRITY_ALGORITHM /\ e_type e = ENCRYPTION_ALGORITHM.
Proof.
  unfold gmac_map, of_type. case_bool_decide as He; [|intros [= <-]; by left].
  destruct (e_alg e =? _); [|done]. intros (i & _ & ->)%fmap_Some. by right.
Qed.

Lemma with_gmac_other p t :
  t <> ENCRYPTION_ALGORITHM -> t <> INTEGRITY_ALGORITHM -> algorithms (with_gmac p) t = algorithms p t.
Proof.
  intros H1 H2. rewrite !algorithms_algs. cbn [transforms with_gmac with_transforms]. unfold algs.
  induction (transforms p) as [|e l IH]; [done|].
  change (omap gmac_map (e :: l)) with (match gmac_map e with Some y => y :: omap gmac_map l | None => omap gmac_map l end).
  cbn [List.filter]. destruct (gmac_map e) as [e'|] eqn:E.
  - destruct (gmac_map_type _ _ E) as [[-> _]|[H3 H4]]; cbn [List.filter].
    + destruct (of_type t e); cbn [fmap list_fmap]; [by f_equal|exact IH].
    + assert (of_type t e' = false) as -> by (unfold of_type; apply bool_decide_eq_false; congruence).
      assert (of_type t e = false) as -> by (unfold of_type; apply bool_decide_eq_false; congruence). exact IH.
  - assert (of_type t e = false) as ->; [|exact IH]. unfold of_type. apply bool_decide_eq_false.
    intros <-. unfold gmac_map, of_type in E. by rewrite bool_decide_eq_false_2 in E.
Qed.

Lemma with_gmac_encr p : algorithms (with_gmac p) ENCRYPTION_ALGORITHM = [].
Proof.
  rewrite algorithms_algs, algs_empty, Forall_forall. intros e He.
  apply list_elem_of_omap in He as (x & _ & Hx). apply gmac_map_type in Hx as [[-> H]|[-> _]]; done.
Qed.

Lemma with_gmac_id p : algorithms p ENCRYPTION_ALGORITHM = [] -> with_gmac p = p.
Proof.
  rewrite algorithms_algs, algs_empty. intros H. destruct p as [pr l s n]. unfold with_gmac, with_transforms.
  cbn [protocol transforms spi number] in *. f_equal.
  induction H as [|e l He _ IH]; [done|]. cbn. unfold gmac_map at 1, of_type.
  rewrite bool_decide_eq_false_2 by done. f_equal. exact IH.
Qed.

Definition ciphers (p : proposal) : bool :=
  bool_decide (protocol p = PROTO_IKE) || bool_decide (protocol p = PROTO_ESP).

Lemma check_encryption_gmac p :
  ciphers p = false ->
  check_encryption p = if has (with_gmac p) INTEGRITY_ALGORITHM then Some (with_gmac p) else None.
Proof.
  intros Hc. unfold check_encryption. fold (ciphers p). rewrite Hc.
  rewrite gmac_walk_spec by lia. rewrite drop_0, take_0. cbn [app]. fold (with_gmac p).
  by destruct (has (with_gmac p) _).
Qed.

Lemma check_encryption_ciphers p :
  ciphers p = true ->
  let encr := algorithms p ENCRYPTION_ALGORITHM in
  check_encryption p =
  if bool_decide (encr = []) then None
  else if any_aead encr && negb (all_aeads encr) then None
  else if all_aeads encr then Some (remove_transform p INTEGRITY_ALGORITHM) else Some p.
Proof. intros Hc. unfold check_encryption. fold (ciphers p). by rewrite Hc. Qed.

Lemma valid_encryption_ciphers p :
  ciphers p = true ->
  valid_encryption p <->
  algorithms p ENCRYPTION_ALGORITHM <> [] /\
  (all_aeads (algorithms p ENCRYPTION_ALGORITHM) = true /\ algorithms p INTEGRITY_ALGORITHM = [] \/
   any_aead (algorithms p ENCRYPTION_ALGORITHM) = false).
Proof. unfold ciphers, valid_encryption. by destruct (protocol p). Qed.

Lemma valid_encryption_gmac p :
  ciphers p = false ->
  valid_encryption p <-> algorithms p ENCRYPTION_ALGORITHM = [] /\ algorithms p INTEGRITY_ALGORITHM <> [].
Proof. unfold ciphers, valid_encryption. by destruct (protocol p). Qed.

Lemma ciphers_protocol p q : protocol p = protocol q -> ciphers p = ciphers q.
Proof. unfold ciphers. by intros ->. Qed.

(** The second part. *)
Lemma check_encryption_some p q :
  check_encryption p = Some q ->
  protocol q = protocol p /\ valid_encryption q /\
  forall t, t <> ENCRYPTION_ALGORITHM -> t <> INTEGRITY_ALGORITHM -> algorithms q t = algorithms p t.
Proof.
  destruct (ciphers p) eqn:Hc.
  - rewrite check_encryption_ciphers by done. cbn zeta. case_bool_decide as He; [done|].
    destruct (_ && _) eqn:Hm; [done|]. destruct (all_aeads _) eqn:Ha; intros [= <-].
    + split_and!; [done| |intros t H1 H2; by apply algorithms_remove_transform].
      rewrite valid_encryption_ciphers by done.
      rewrite algorithms_removed, algorithms_remove_transform by done. auto.
    + split_and!; [done| |done]. rewrite valid_encryption_ciphers by done.
      split; [done|]. right. by destruct (any_aead _).
  - rewrite check_encryption_gmac by done. destruct (has _ _) eqn:Hi; [|done]. intros [= <-].
    split_and!; [done| |intros; by apply with_gmac_other].
    rewrite valid_encryption_gmac by done. apply has_spec in Hi. split; [apply with_gmac_encr|done].
Qed.

Lemma check_encryption_valid p : valid_encryption p -> check_encryption p = Some p.
Proof.
  destruct (ciphers p) eqn:Hc.
  - rewrite valid_encryption_ciphers, check_encryption_ciphers by done. cbn zeta. intros [He H].
    rewrite bool_decide_eq_false_2 by done. destruct H as [[Ha Hi]|Hn].
    + rewrite Ha, andb_false_r, remove_absent by done. done.
    + rewrite Hn. cbn [andb]. destruct (all_aeads _) eqn:Ha; [|done].
      apply any_all_aead in Ha; [congruence|done].
  - rewrite valid_encryption_gmac, check_encryption_gmac by done. intros [He Hi].
    rewrite with_gmac_id by done. by rewrite (proj2 (has_spec p _) Hi).
Qed.

Lemma check_prf_dh_valid p : valid_prf_dh p -> check_prf_dh p = Some p.
Proof.
  unfold valid_prf_dh. destruct (decide (protocol p = PROTO_IKE)) as [Hp|Hp].
  - rewrite Hp, check_prf_dh_ike by done. intros (H1 & H2 & H3). apply has_spec in H1, H2.
    unfold with_prf. rewrite H1, H1. cbn zeta. rewrite remove_none_id by done. by rewrite H2.
  - intros H. unfold check_prf_dh. rewrite bool_decide_eq_false_2 by done.
    rewrite remove_absent; [done|]. by destruct (protocol p).
Qed.

Definition sequences (p : proposal) : bool :=
  bool_decide (protocol p = PROTO_AH) || bool_decide (protocol p = PROTO_ESP).

Lemma valid_transfer p q :
  protocol q = protocol p ->
  (forall t, t <> EXTENDED_SEQUENCE_NUMBERS -> algorithms q t = algorithms p t) ->
  (valid_prf_dh p -> valid_prf_dh q) /\ (valid_encryption p -> valid_encryption q).
Proof.
  intros Hp Ha. unfold valid_prf_dh, valid_encryption. rewrite Hp, !Ha by done. done.
Qed.

Lemma algorithms_add_other p t alg ks u :
  u <> t -> algorithms (add_algorithm p t alg ks) u = algorithms p u.
Proof. intros H. apply (algorithms_app_entries p t [(u16 alg, u16 ks)] u H). Qed.

Lemma check_proposal_some p q :
  check_proposal p = Some q -> protocol q = protocol p /\ valid q.
Proof.
  unfold check_proposal. destruct (check_prf_dh p) as [p1|] eqn:E1; [|done]. cbn [mbind option_bind].
  destruct (check_encryption p1) as [p2|] eqn:E2; [|done]. cbn [mbind option_bind]. fold (sequences p2).
  apply check_prf_dh_some in E1 as (H1 & V1 & A1). apply check_encryption_some in E2 as (H2 & V2 & A2).
  assert (valid_prf_dh p2) as V1'.
  { unfold valid_prf_dh in *. rewrite H2, !A2 by done. exact V1. }
  intros [= <-]. destruct (sequences p2 && negb (has p2 EXTENDED_SEQUENCE_NUMBERS)) eqn:E.
  - split; [cbn; congruence|]. split_and!.
    + eapply valid_transfer; [| |exact V1']; [done|intros; by apply algorithms_add_other].
    + eapply valid_transfer; [| |exact V2]; [done|intros; by apply algorithms_add_other].
    + unfold valid_esn. cbn [protocol add_algorithm with_transforms].
      rewrite algorithms_algs. cbn [transforms add_algorithm with_transforms]. rewrite algs_app.
      destruct (protocol p2); try done; intros [_ H]%app_eq_nil; done.
  - split; [congruence|]. split_and!; [done|done|]. unfold valid_esn. unfold sequences in E.
    destruct (protocol p2) eqn:Hp; try done; cbn in E; by apply negb_false_iff, has_spec in E.
Qed.

Lemma check_proposal_id p : valid p -> check_proposal p = Some p.
Proof.
  intros (V1 & V2 & V3). unfold check_proposal.
  rewrite check_prf_dh_valid by done. cbn [mbind option_bind].
  rewrite check_encryption_valid by done. cbn [mbind option_bind]. f_equal. fold (sequences p).
  destruct (sequences p) eqn:E; [|done]. cbn [andb].
  rewrite (proj2 (has_spec p EXTENDED_SEQUENCE_NUMBERS)); [done|].
  unfold valid_esn, sequences in *. by destruct (protocol p).
Qed.

(** Neither an integrity algorithm nor AES-GMAC with a key size that it has. *)
Definition no_integrity (p : proposal) : Prop :=
  algorithms p INTEGRITY_ALGORITHM = [] /\
  forall ks, (encryption_algorithm_value ENCR_NULL_AUTH_AES_GMAC, ks) ∈ algorithms p ENCRYPTION_ALGORITHM ->
             gmac_integ ks = None.

Lemma with_gmac_integ p : algorithms (with_gmac p) INTEGRITY_ALGORITHM = [] <-> no_integrity p.
Proof.
  unfold no_integrity. rewrite !algorithms_algs, !algs_empty, !Forall_forall. cbn [transforms with_gmac with_transforms].
  split.
  - intros H. split.
    + intros e He Ht. apply (H e); [|done]. apply list_elem_of_omap. exists e. split; [done|].
      unfold gmac_map, of_type. by rewrite bool_decide_eq_false_2 by congruence.
    + intros ks Hk%elem_of_algs. destruct (gmac_integ ks) as [i|] eqn:E; [|done]. exfalso.
      apply (H (Entry INTEGRITY_ALGORITHM i 0)); [|done]. apply list_elem_of_omap.
      eexists. split; [exact Hk|]. unfold gmac_map, of_type. cbn. by rewrite E.
  - intros [H1 H2] e He Ht. apply list_elem_of_omap in He as (x & Hx & Hm).
    unfold gmac_map, of_type in Hm. case_bool_decide as Hc; [|injection Hm as ->; by apply (H1 e)].
    destruct (Z.eqb_spec (e_alg x) (encryption_algorithm_value ENCR_NULL_AUTH_AES_GMAC)) as [Ea|]; [|done].
    apply fmap_Some in Hm as (i & Hi & _). rewrite (H2 (e_key_size x)) in Hi; [done|].
    apply elem_of_algs. rewrite <- Ea, <- Hc. by destruct x.
Qed.

(** The reasons to refuse a proposal. *)
Definition refused (p : proposal) : Prop :=
  let encr := algorithms p ENCRYPTION_ALGORITHM in
  (protocol p = PROTO_IKE /\
   (algorithms p PSEUDO_RANDOM_FUNCTION = [] /\ integ_prfs (transforms p) = [] \/
    some_groups (algorithms p DIFFIE_HELLMAN_GROUP) = [])) \/
  (ciphers p = true /\ (encr = [] \/ any_aead encr = true /\ all_aeads encr = false)) \/
  (ciphers p = false /\ no_integrity p).

Lemma check_prf_dh_none p :
  check_prf_dh p = None <->
  protocol p = PROTO_IKE /\
  (algorithms p PSEUDO_RANDOM_FUNCTION = [] /\ integ_prfs (transforms p) = [] \/
   some_groups (algorithms p DIFFIE_HELLMAN_GROUP) = []).
Proof.
  destruct (decide (protocol p = PROTO_IKE)) as [Hp|Hp].
  - rewrite check_prf_dh_ike by done. rewrite <- with_prf_none, <- (with_prf_other p DIFFIE_HELLMAN_GROUP) by done.
    rewrite <- algorithms_remove_none, <- !has_false. cbn zeta.
    destruct (has (with_prf p) _), (has (remove_entries _ _) _);
      (split; [intros H; by auto|intros [_ [H|H]]; done]).
  - unfold check_prf_dh. rewrite bool_decide_eq_false_2 by done. split; [done|]. by intros [? _].
Qed.

Lemma check_encryption_none p :
  check_encryption p = None <->
  (ciphers p = true /\ (algorithms p ENCRYPTION_ALGORITHM = [] \/
     any_aead (algorithms p ENCRYPTION_ALGORITHM) = true /\ all_aeads (algorithms p ENCRYPTION_ALGORITHM) = false)) \/
  (ciphers p = false /\ no_integrity p).
Proof.
  destruct (ciphers p) eqn:Hc.
  - rewrite check_encryption_ciphers by done. cbn zeta. case_bool_decide as He; [tauto|].
    destruct (any_aead _), (all_aeads _); cbn [andb negb];
      (split; [intros H|intros [[_ [H|[H H']]]|[H _]]]); first [done | left; by auto].
  - rewrite check_encryption_gmac by done.
    rewrite <- with_gmac_integ, <- (has_false (with_gmac p) INTEGRITY_ALGORITHM).
    destruct (has _ _); (split; [intros H|intros [[H _]|[_ H]]]); try done. by right.
Qed.

Lemma check_proposal_none p : check_proposal p = None <-> refused p.
Proof.
  unfold check_proposal, refused. destruct (check_prf_dh p) as [q|] eqn:E; cbn [mbind option_bind]; cycle 1.
  { apply check_prf_dh_none in E. tauto. }
  assert (~ (protocol p = PROTO_IKE /\
    (algorithms p PSEUDO_RANDOM_FUNCTION = [] /\ integ_prfs (transforms p) = [] \/
     some_groups (algorithms p DIFFIE_HELLMAN_GROUP) = []))) as Hn
    by (rewrite <- check_prf_dh_none; congruence).
  pose proof (check_prf_dh_some _ _ E) as (Hp & _ & Ha).
  transitivity (check_encryption q = None); [by destruct (check_encryption q)|].
  rewrite check_encryption_none. unfold no_integrity. rewrite (ciphers_protocol q p), !Ha by done. tauto.
Qed.

(** the check of a configured proposal refuses it exactly for these reasons: IKE without a
    PRF and without an integrity algorithm that gives one, or without a DH group; IKE or ESP
    without encryption or with AEADs beside ciphers; other protocols without an integrity
    algorithm, AES-GMAC included.  What it gives is valid for the protocol (a PRF and no
    group NONE in IKE, no PRF elsewhere, no integrity beside AEADs, no encryption in AH, a
    choice of sequence numbers), and these are the proposals it accepts unchanged, so that
    checking twice is checking once. *)
Theorem check_proposal_correct p :
  (check_proposal p = None <-> refused p) /\ (check_proposal p = Some p <-> valid p) /\
  (forall q, check_proposal p = Some q -> protocol q = protocol p /\ valid q /\ check_proposal q = Some q).
Proof.
  split_and!; [apply check_proposal_none|split; [|apply check_proposal_id]|].
  - intros H. by apply check_proposal_some in H as [_ H].
  - intros q H. apply check_proposal_some in H as [Hp Hv]. split_and!; [done..|]. by apply check_proposal_id.
Qed.

(** ** Proposals from strings *)
Section StringLemmas.
Context (get_token : Token.text -> option entry_t).

Lemma add_string_algos_spec p l es :
  mapM get_token l = Some es -> Forall in_range es ->
  add_string_algos get_token p l = Some (with_transforms p (transforms p ++ es)).
Proof.
  revert p es. induction l as [|t l IH]; intros p es; cbn [mapM add_string_algos].
  - intros [= <-] _. by rewrite app_nil_r, with_transforms_id.
  - unfold add_string_algo. destruct (get_token t) as [e|] eqn:E; [|done]. cbn [mbind option_bind].
    destruct (mapM get_token l) as [es'|] eqn:El; [|done]. cbn [mbind option_bind mret option_ret].
    intros [= <-] [[Ha Hk] Hr]%Forall_cons.
    rewrite (IH _ es' eq_refl Hr). f_equal. unfold with_transforms, add_algorithm. cbn.
    rewrite <- app_assoc, !uwrap_small by done. by destruct e.
Qed.

Lemma add_string_algos_none p l : mapM get_token l = None -> add_string_algos get_token p l = None.
Proof.
  revert p. induction l as [|t l IH]; intros p; cbn [mapM add_string_algos]; [done|].
  unfold add_string_algo. destruct (get_token t) as [e|]; [|done]. cbn [mbind option_bind].
  destruct (mapM get_token l); [done|]. intros _. by apply IH.
Qed.

(** a string of keywords, joined with dashes, gives the proposal that has the transforms
    of the keywords in their order, checked for the protocol; a keyword that is not known
    makes it fail.  Tokens are read back as they were joined, whatever their number. *)
Theorem proposal_from_string pr l :
  l <> [] -> Forall (clean dash space) l -> (forall t e, get_token t = Some e -> in_range e) ->
  proposal_create_from_string get_token pr (join (ascii_of_nat 45) l) =
  es ← mapM get_token l; check_proposal (Proposal pr es 0 0).
Proof.
  intros Hl Hc Hr. unfold proposal_create_from_string.
  rewrite tokens_join by (done || left). destruct l as [|t l]; [done|].
  destruct (mapM get_token (t :: l)) as [es|] eqn:E.
  - erewrite add_string_algos_spec; [reflexivity|exact E|].
    apply Forall_forall. intros e He. apply mapM_Some in E.
    apply list_elem_of_lookup_1 in He as [i Hi]. eapply Forall2_lookup_r in E as (x & _ & Hx); [|exact Hi].
    by eapply Hr.
  - by rewrite add_string_algos_none.
Qed.
End StringLemmas.

(** ** Both ends come to the same algorithms *)

(** The reply fits both lists it came from, from either side. *)
Lemma agreement_reply priv pr t l1 l2 ls l :
  agreement priv pr t l1 l2 ls -> l = l1 \/ l = l2 ->
  agreement priv pr t l ls ls /\ agreement priv pr t ls l ls.
Proof.
  intros [x Hx|H1 H2|k Ht Hp Hk] Hl.
  - assert (x ∈ l) as Hm by (apply best_elem in Hx; destruct Hx, Hl; by subst).
    destruct Hx as (_ & _ & _ & [_ Hp] & _). split; constructor.
    + apply select_outer_some. destruct (select_outer priv l [x]) as [y|] eqn:E.
      * apply select_outer_some, best_elem in E as [_ Hy]. by apply list_elem_of_singleton in Hy as ->.
      * apply select_outer_none in E. rewrite Forall_forall in E. destruct (E x Hm).
        split; [by apply list_elem_of_singleton|done].
    + exists [], []. split_and!; [done|by split|constructor].
  - destruct Hl; subst; split; by constructor.
  - destruct Hl; subst; destruct Hk as [[H1 Hk]|[H1 Hk]]; subst; split; (by constructor) || (eapply none_proposed; by eauto).
Qed.

Lemma settled_reply priv this other o encr t ls sel :
  settled priv this other encr t ls -> o = this \/ o = other ->
  protocol this = protocol other -> protocol sel = protocol this -> algorithms sel t = ls ->
  settled priv o sel encr t ls /\ settled priv sel o encr t ls.
Proof.
  intros [H|[Hn Ha]] Ho Hp Hs Hl; [by split; left|].
  assert (protocol o = protocol this) as Hpo by (destruct Ho; by subst).
  destruct (agreement_reply _ _ _ _ _ _ (algorithms o t) Ha) as [H1 H2]; [destruct Ho; subst; auto|].
  split; right; (split; [done|]); by rewrite ?Hpo, ?Hs, Hl.
Qed.

(** A reply has the protocol and the transforms that were selected, with an SPI of its own. *)
Definition reply_of (sel rep : proposal) : Prop :=
  protocol rep = protocol sel /\ transforms rep = transforms sel.

Lemma reply_algorithms sel rep t : reply_of sel rep -> algorithms rep t = algorithms sel t.
Proof. intros [_ H]. by rewrite !algorithms_algs, H. Qed.

(** So each of the two proposals accepts the reply. *)
Lemma reply_accepted priv this other o r r' sel rep :
  outcome this other r priv sel -> reply_of sel rep -> o = this \/ o = other ->
  (exists s, outcome o rep r' priv s) /\ (exists s, outcome rep o r' priv s).
Proof.
  intros (Hp & f & Hf & Hs) Hr Ho.
  assert (protocol rep = protocol this) as Hps by (destruct Hr as [-> _]; by rewrite Hs).
  assert (protocol o = protocol this) as Hpo by (destruct Ho; by subst).
  assert (forall t, t ∈ selected_types ->
    settled priv o rep (f ENCRYPTION_ALGORITHM) t (f t) /\ settled priv rep o (f ENCRYPTION_ALGORITHM) t (f t)) as H.
  { intros t Ht. eapply settled_reply; [by apply Hf|done..|].
    rewrite (reply_algorithms _ _ _ Hr), Hs, algorithms_algs. by apply algs_chosen. }
  split; eexists; (split; [congruence|]); exists f; (split; [|reflexivity]); intros t Ht; by apply H.
Qed.

(** The same algorithms, where no group is as good as the group NONE. *)
Definition same_choice (p q : proposal) : Prop :=
  forall t, t ∈ selected_types ->
  if decide (t = DIFFIE_HELLMAN_GROUP) then some_groups (algorithms p t) = some_groups (algorithms q t)
  else algorithms p t = algorithms q t.

Lemma agreement_length priv pr t l1 l2 ls : agreement priv pr t l1 l2 ls -> (length ls <= 1)%nat.
Proof. intros []; cbn; lia. Qed.

Lemma short_elem {A} (l : list A) x : (length l <= 1)%nat -> x ∈ l -> l = [x].
Proof.
  destruct l as [|y [|z l]]; cbn; [intros _ H; by apply not_elem_of_nil in H| |lia].
  intros _ H. by apply list_elem_of_singleton in H as ->.
Qed.

Lemma some_groups_none k : some_groups [(0, k)] = [].
Proof. reflexivity. Qed.

(** With a list of at most one algorithm there is nothing else to agree on. *)
Lemma agreement_forced priv pr t l ls res :
  (length ls <= 1)%nat -> agreement priv pr t l ls res \/ agreement priv pr t ls l res ->
  if decide (t = DIFFIE_HELLMAN_GROUP) then some_groups res = some_groups ls else res = ls.
Proof.
  intros Hs H.
  assert (res = ls \/ t = DIFFIE_HELLMAN_GROUP /\ some_groups res = some_groups ls) as Hc.
  { destruct H as [H|H]; destruct H as [x Hx|H1 H2|k Ht Hp Hk].
    - apply best_elem in Hx as [_ Hx]. left. symmetry. by apply short_elem.
    - by left.
    - destruct Hk as [[_ Hk]|[-> _]]; [|by left]. right. apply short_elem in Hk as ->; [|done]. done.
    - apply best_elem in Hx as [Hx _]. left. symmetry. by apply short_elem.
    - by left.
    - destruct Hk as [[-> _]|[_ Hk]]; [by left|]. right. apply short_elem in Hk as ->; [|done]. done. }
  case_decide; [by destruct Hc as [->|[_ ?]]|]. by destruct Hc as [?|[? _]].
Qed.

Lemma settled_length priv this other encr t ls : settled priv this other encr t ls -> (length ls <= 1)%nat.
Proof. intros [(_ & _ & ->)|[_ H]]; [cbn; lia|by eapply agreement_length]. Qed.

Lemma settled_not_integ priv this other encr t ls :
  t <> INTEGRITY_ALGORITHM -> settled priv this other encr t ls ->
  agreement priv (protocol this) t (algorithms this t) (algorithms other t) ls.
Proof. intros Ht [[? _]|[_ H]]; done. Qed.

(** Whatever accepts the reply has chosen what it says. *)
Lemma reply_forced priv this other o r r' sel rep s :
  outcome this other r priv sel -> reply_of sel rep ->
  outcome o rep r' priv s \/ outcome rep o r' priv s -> same_choice s sel.
Proof.
  intros Hsel Hr Hs.
  set (set_by := fun t l => settled priv o rep (algorithms s ENCRYPTION_ALGORITHM) t l \/
                            settled priv rep o (algorithms s ENCRYPTION_ALGORITHM) t l).
  assert (forall t, t ∈ selected_types -> set_by t (algorithms s t)) as Hby.
  { intros t Ht. destruct Hs as [Hs|Hs]; [left|right]; by eapply outcome_algorithms. }
  assert (forall t, t ∈ selected_types -> t <> INTEGRITY_ALGORITHM ->
    if decide (t = DIFFIE_HELLMAN_GROUP) then some_groups (algorithms s t) = some_groups (algorithms sel t)
    else algorithms s t = algorithms sel t) as Hother.
  { intros t Ht Hi. pose proof (settled_length _ _ _ _ _ _ (outcome_algorithms _ _ _ _ _ _ Hsel Ht)) as Hl.
    destruct (Hby t Ht) as [H|H]; apply settled_not_integ in H; try done; rewrite (reply_algorithms _ _ _ Hr) in H;
      eapply agreement_forced; eauto. }
  intros t Ht. destruct (decide (t = INTEGRITY_ALGORITHM)) as [->|Hi]; [|by apply Hother].
  rewrite decide_False by done.
  pose proof (Hother ENCRYPTION_ALGORITHM) as Henc. rewrite decide_False in Henc by done.
  specialize (Henc ltac:(left) ltac:(done)).
  pose proof (outcome_algorithms _ _ _ _ _ _ Hsel Ht) as Hself. rewrite <- Henc in Hself.
  unfold set_by, settled in Hby. setoid_rewrite (reply_algorithms sel rep _ Hr) in Hby.
  destruct (Hby _ Ht) as [[(_ & Ha & ->)|[Hn Hg]]|[(_ & Ha & ->)|[Hn Hg]]];
    destruct Hself as [(_ & Ha' & Hl)|[Hn' Hg']]; try (by rewrite Hl); try (by destruct Hn'); try (by destruct Hn).
  - pose proof (agreement_forced priv _ INTEGRITY_ALGORITHM (algorithms o INTEGRITY_ALGORITHM) _ _
      (agreement_length _ _ _ _ _ _ Hg') (or_introl Hg)) as H. by rewrite decide_False in H by done.
  - pose proof (agreement_forced priv _ INTEGRITY_ALGORITHM (algorithms o INTEGRITY_ALGORITHM) _ _
      (agreement_length _ _ _ _ _ _ Hg') (or_intror Hg)) as H. by rewrite decide_False in H by done.
Qed.

(** ** Witnesses *)

Definition esp_default : proposal :=
  Proposal PROTO_ESP ([Entry ENCRYPTION_ALGORITHM 12 128; Entry ENCRYPTION_ALGORITHM 12 192;
                       Entry ENCRYPTION_ALGORITHM 12 256] ++ default_integ) 0 0.

Definition esp_offer : proposal :=
  Proposal PROTO_ESP [Entry ENCRYPTION_ALGORITHM 20 256; Entry ENCRYPTION_ALGORITHM 12 256;
                      Entry ENCRYPTION_ALGORITHM 12 192; Entry INTEGRITY_ALGORITHM 2 0;
                      Entry INTEGRITY_ALGORITHM 12 0; Entry EXTENDED_SEQUENCE_NUMBERS 0 0] 77 3.

Lemma esp_default_create sup : proposal_create_default sup PROTO_ESP = Some esp_default.
Proof. reflexivity. Qed.

Lemma esp_default_wf : wf esp_default.
Proof. unfold wf, esp_default. cbn. repeat constructor; cbn; lia. Qed.

(** The order of [esp_default] decides: 192 bits before 256. *)
Lemma select_proposal_correct_witness :
  select_proposal esp_default esp_offer true false =
    Some (Proposal PROTO_ESP [Entry ENCRYPTION_ALGORITHM 12 192; Entry INTEGRITY_ALGORITHM 12 0;
                              Entry EXTENDED_SEQUENCE_NUMBERS 0 0] 77 3) /\
  match select_proposal esp_default esp_offer true false with
  | Some sel => settled false esp_default esp_offer (algorithms sel ENCRYPTION_ALGORITHM) ENCRYPTION_ALGORITHM [(12, 192)]
  | None => False
  end.
Proof.
  split; [vm_compute; reflexivity|].
  pose proof (select_proposal_correct esp_default esp_offer true false esp_default_wf) as H.
  destruct (select_proposal esp_default esp_offer true false) as [sel|] eqn:E; [|vm_compute in E; discriminate E].
  destruct H as (_ & _ & _ & _ & H). vm_compute in E. injection E as <-. refine (H ENCRYPTION_ALGORITHM _). left.
Defined.

(** Some of the keywords. *)
Definition some_keywords (t : Token.text) : option entry_t :=
  if decide (t = list_ascii_of_string "aes256") then Some (Entry ENCRYPTION_ALGORITHM 12 256)
  else if decide (t = list_ascii_of_string "sha256") then Some (Entry INTEGRITY_ALGORITHM 12 0)
  else if decide (t = list_ascii_of_string "modp2048") then Some (Entry DIFFIE_HELLMAN_GROUP 14 0)
  else None.

Lemma some_keywords_range t e : some_keywords t = Some e -> in_range e.
Proof.
  intros He. unfold some_keywords in He.
  repeat case_decide; try discriminate He; injection He as <-; cbv; intuition congruence.
Qed.

Definition some_tokens : list Token.text :=
  [list_ascii_of_string "aes256"; list_ascii_of_string "sha256"; list_ascii_of_string "modp2048"].

Lemma proposal_from_string_witness :
  proposal_create_from_string some_keywords PROTO_IKE (list_ascii_of_string "aes256-sha256-modp2048") =
  Some (Proposal PROTO_IKE [Entry ENCRYPTION_ALGORITHM 12 256; Entry INTEGRITY_ALGORITHM 12 0;
                            Entry DIFFIE_HELLMAN_GROUP 14 0; Entry PSEUDO_RANDOM_FUNCTION 5 0] 0 0).
Proof.
  change (list_ascii_of_string "aes256-sha256-modp2048") with (join (ascii_of_nat 45) some_tokens).
  rewrite (proposal_from_string some_keywords PROTO_IKE some_tokens).
  - vm_compute. reflexivity.
  - discriminate.
  - refine (bool_decide_unpack _ _). vm_compute. exact I.
  - exact some_keywords_range.
Defined.

Lemma check_proposal_correct_witness :
  check_proposal (Proposal PROTO_ESP [Entry ENCRYPTION_ALGORITHM 20 256; Entry INTEGRITY_ALGORITHM 12 0] 0 0) =
    Some (Proposal PROTO_ESP [Entry ENCRYPTION_ALGORITHM 20 256; Entry EXTENDED_SEQUENCE_NUMBERS 0 0] 0 0) /\
  valid (Proposal PROTO_ESP [Entry ENCRYPTION_ALGORITHM 20 256; Entry EXTENDED_SEQUENCE_NUMBERS 0 0] 0 0) /\
  refused (Proposal PROTO_IKE [Entry ENCRYPTION_ALGORITHM 12 256] 0 0).
Proof.
  split_and!.
  - vm_compute. reflexivity.
  - refine (proj1 (proj2 (proj2 (proj2 (check_proposal_correct
      (Proposal PROTO_ESP [Entry ENCRYPTION_ALGORITHM 20 256; Entry INTEGRITY_ALGORITHM 12 0] 0 0))) _ _))).
    vm_compute. reflexivity.
  - refine (proj1 (proj1 (check_proposal_correct (Proposal PROTO_IKE [Entry ENCRYPTION_ALGORITHM 12 256] 0 0))) _).
    vm_compute. reflexivity.
Defined.
