(* ===== verification/ProposalConfig.v ===== *)
(** The proposals of a configuration: what [src/libcharon/config/ike_cfg.c] and
    [config/child_cfg.c] do with the lists of proposals they hold, for the IKE_SA and for
    CHILD_SAs.  The responder selects from the lists of both ends and replies with one
    proposal, from which the initiator selects again. *)
From S2P Require Import Prelude Crypto Proposal.
From Stdlib Require Import Lia ZArith Ascii String.
From stdpp Require Import base numbers list option sets.
Local Open Scope Z_scope.

Definition MODP_NONE : Z := 0.

(** ** [ike_cfg.c] *)
Module IkeCfg.

Definition add_proposal (proposals : list proposal) (p : option proposal) : list proposal :=
  match p with Some p => proposals ++ [p] | None => proposals end.

Definition get_proposals (this : list proposal) : list proposal :=
  fold_left (fun l current => l ++ [clone_ current]) this [].

(** The inner loop, over the list that is matched. *)
Fixpoint match_loop (proposal : proposal) (prefer_self priv : bool) (ms : list Proposal.proposal) : option Proposal.proposal :=
  match ms with
  | [] => None
  | m :: ms => match select_proposal proposal m prefer_self priv with
               | Some selected => Some selected
               | None => match_loop proposal prefer_self priv ms
               end
  end.

Fixpoint prefer_loop (prefer_self priv : bool) (ps ms : list proposal) : option proposal :=
  match ps with
  | [] => None
  | p :: ps => match match_loop p prefer_self priv ms with
               | Some selected => Some selected
               | None => prefer_loop prefer_self priv ps ms
               end
  end.

Definition select_proposal (this proposals : list proposal) (priv prefer_self : bool) : option proposal :=
  if prefer_self then prefer_loop prefer_self priv this proposals
  else prefer_loop prefer_self priv proposals this.

(** The first DH group of the first proposal that has one. *)
Fixpoint get_dh_group (this : list proposal) : Z :=
  match this with
  | [] => MODP_NONE
  | p :: this => match get_algorithm p DIFFIE_HELLMAN_GROUP with
                 | Some (group, _) => group
                 | None => get_dh_group this
                 end
  end.
End IkeCfg.

(** ** [child_cfg.c] *)
Module ChildCfg.

Definition get_proposals (this : list proposal) (strip : bool) : list proposal :=
  fold_left (fun proposals current =>
               let current := clone_ current in
               let current := if strip then strip_dh current MODP_NONE else current in
               if existsb (fun item => equals item current) proposals then proposals
               else proposals ++ [current]) this [].

(** The inner loop; the clone of the preferred proposal is stripped in every round. *)
Fixpoint match_loop (proposal : proposal) (strip prefer_self priv : bool) (ms : list Proposal.proposal) :
  option Proposal.proposal :=
  match ms with
  | [] => None
  | m :: ms => let proposal := if strip then strip_dh proposal MODP_NONE else proposal in
               match select_proposal proposal m prefer_self priv with
               | Some selected => Some selected
               | None => match_loop proposal strip prefer_self priv ms
               end
  end.

Fixpoint prefer_loop (strip prefer_self priv : bool) (ps ms : list proposal) : option proposal :=
  match ps with
  | [] => None
  | p :: ps => match match_loop (clone_ p) strip prefer_self priv ms with
               | Some selected => Some selected
               | None => prefer_loop strip prefer_self priv ps ms
               end
  end.

Definition select_proposal (this proposals : list proposal) (strip priv prefer_self : bool) : option proposal :=
  if prefer_self then prefer_loop strip prefer_self priv this proposals
  else prefer_loop strip prefer_self priv proposals this.
End ChildCfg.

(** ** The loops find the first pair *)

Lemma clone_id p : clone_ p = p.
Proof.
  unfold clone_. assert (forall l acc, fold_left (fun l (e : entry_t) => l ++ [e]) l acc = acc ++ l) as H.
  { induction l as [|e l IH]; intros acc; cbn; [by rewrite app_nil_r|]. by rewrite IH, <- app_assoc. }
  rewrite H. by destruct p.
Qed.

Lemma get_proposals_id l : IkeCfg.get_proposals l = l.
Proof.
  unfold IkeCfg.get_proposals. assert (forall k acc, fold_left (fun l p => l ++ [clone_ p]) k acc = acc ++ k) as H.
  { induction k as [|p k IH]; intros acc; cbn; [by rewrite app_nil_r|]. by rewrite IH, clone_id, <- app_assoc. }
  apply H.
Qed.

Lemma match_loop_some p pf priv ms sel :
  IkeCfg.match_loop p pf priv ms = Some sel -> exists m, m ∈ ms /\ select_proposal p m pf priv = Some sel.
Proof.
  induction ms as [|m ms IH]; cbn; [done|]. destruct (select_proposal p m pf priv) as [s|] eqn:E.
  - intros [= <-]. exists m. split; [left|done].
  - intros (m' & Hm & H)%IH. exists m'. split; [by right|done].
Qed.

Lemma match_loop_none p pf priv ms :
  IkeCfg.match_loop p pf priv ms = None -> forall m, m ∈ ms -> select_proposal p m pf priv = None.
Proof.
  induction ms as [|m ms IH]; cbn; [intros _ m H; by apply not_elem_of_nil in H|].
  destruct (select_proposal p m pf priv) as [s|] eqn:E; [done|].
  intros H m' [->|Hm]%elem_of_cons; [done|by apply IH].
Qed.

Lemma prefer_loop_some pf priv ps ms sel :
  IkeCfg.prefer_loop pf priv ps ms = Some sel ->
  exists p m, p ∈ ps /\ m ∈ ms /\ select_proposal p m pf priv = Some sel.
Proof.
  induction ps as [|p ps IH]; cbn; [done|]. destruct (IkeCfg.match_loop p pf priv ms) as [s|] eqn:E.
  - intros [= <-]. apply match_loop_some in E as (m & Hm & H). exists p, m. split_and!; [left|done..].
  - intros (p' & m & Hp & H)%IH. exists p', m. split; [by right|done].
Qed.

Lemma prefer_loop_none pf priv ps ms :
  IkeCfg.prefer_loop pf priv ps ms = None ->
  forall p m, p ∈ ps -> m ∈ ms -> select_proposal p m pf priv = None.
Proof.
  induction ps as [|p ps IH]; cbn; [intros _ p m H; by apply not_elem_of_nil in H|].
  destruct (IkeCfg.match_loop p pf priv ms) as [s|] eqn:E; [done|].
  intros H p' m [->|Hp]%elem_of_cons Hm; [by eapply match_loop_none|by apply IH].
Qed.

(** The pairs of the two lists, the local proposal first. *)
Lemma ike_select_some this props priv pf sel :
  IkeCfg.select_proposal this props priv pf = Some sel ->
  exists c m, c ∈ this /\ m ∈ props /\
    (if pf then select_proposal c m pf priv else select_proposal m c pf priv) = Some sel.
Proof.
  unfold IkeCfg.select_proposal. destruct pf; intros (p & m & Hp & Hm & H)%prefer_loop_some; eauto.
Qed.

Lemma ike_select_exists (this props : list proposal) (priv pf : bool) (c m : proposal) :
  c ∈ this -> m ∈ props ->
  (if pf then select_proposal c m pf priv else select_proposal m c pf priv) <> None ->
  exists sel, IkeCfg.select_proposal this props priv pf = Some sel.
Proof.
  intros Hc Hm H. destruct (IkeCfg.select_proposal this props priv pf) as [sel|] eqn:E; [by exists sel|].
  exfalso. apply H. unfold IkeCfg.select_proposal in E.
  destruct pf; refine (prefer_loop_none _ _ _ _ E _ _ _ _); done.
Qed.

(** With [pf] the outcome of a pair, in terms of the two proposals. *)
Lemma pair_outcome c m (pf priv : bool) sel :
  wf c -> wf m ->
  (if pf then select_proposal c m pf priv else select_proposal m c pf priv) = Some sel <->
  (if pf then outcome c m pf priv sel else outcome m c pf priv sel).
Proof. intros Hc Hm. destruct pf; by apply select_outcome. Qed.

Lemma pair_wf c m (pf priv : bool) sel :
  wf c -> wf m -> (if pf then outcome c m pf priv sel else outcome m c pf priv sel) -> wf sel.
Proof. intros Hc Hm. destruct pf; apply outcome_wf; done. Qed.

(** ** The initiator comes to what the responder selected *)

Lemma ike_reply_spi (this : list proposal) rep priv pf sel :
  IkeCfg.select_proposal this [rep] priv pf = Some sel -> Forall wf this -> wf rep ->
  spi sel = spi rep /\ number sel = number rep.
Proof.
  intros (c & m & Hc & Hm & H)%ike_select_some Hw Hr. apply list_elem_of_singleton in Hm as ->.
  rewrite Forall_forall in Hw. apply pair_outcome in H; [|auto..].
  destruct pf; by destruct H as (_ & f & _ & ->).
Qed.

Lemma set_spi_reply sel v : reply_of sel (set_spi sel v).
Proof. done. Qed.

(** The lists of the two ends; [received] is what the initiator sent, [initiator] what it
    selects from when the reply comes. *)
Lemma lists_agree responder received initiator priv pf pf' sel v :
  Forall wf responder -> Forall wf initiator -> received ⊆ initiator ->
  IkeCfg.select_proposal responder received priv pf = Some sel ->
  exists sel', IkeCfg.select_proposal initiator [set_spi sel v] priv pf' = Some sel' /\
               same_choice sel' sel /\ spi sel' = u64 v /\ number sel' = number sel.
Proof.
  intros Hr Hi Hsub (c & m & Hc & Hm%Hsub & H)%ike_select_some.
  pose proof (Hr' := proj1 (Forall_forall _ _) Hr). pose proof (Hi' := proj1 (Forall_forall _ _) Hi).
  apply pair_outcome in H; [|auto..].
  assert (exists a b, (m = a \/ m = b) /\ outcome a b pf priv sel) as (a & b & Hab & Hsel)
    by (destruct pf; eauto).
  assert (wf (set_spi sel v)) as Hw by (exact (pair_wf c m pf priv sel (Hr' c Hc) (Hi' m Hm) H)).
  destruct (reply_accepted _ _ _ _ _ pf' _ _ Hsel (set_spi_reply sel v) Hab) as [[s1 H1] [s2 H2]].
  destruct (ike_select_exists initiator [set_spi sel v] priv pf' m (set_spi sel v)) as [sel' E]; [done|left| |].
  { destruct pf'; [apply select_outcome in H1|apply select_outcome in H2]; [congruence|by auto|congruence|done]. }
  exists sel'. split; [done|]. destruct (ike_reply_spi _ _ _ _ _ E Hi Hw) as [Hs Hn].
  split; [|by rewrite Hs, Hn].
  apply ike_select_some in E as (o & n & Ho & Hn' & E). apply list_elem_of_singleton in Hn' as ->.
  apply pair_outcome in E; [|auto..]. eapply reply_forced; [exact Hsel|apply (set_spi_reply sel v)|].
  destruct pf'; [left|right]; exact E.
Qed.

(** C14: in the negotiation of an IKE_SA, whatever the configured lists and the preferences of
    the two ends, the initiator accepts the reply of the responder and comes to the same
    algorithms, with the SPI and the number of the reply.  Both ends agree on whether algorithms
    from the private range are accepted ([priv]). *)
Theorem ike_negotiation_agrees responder initiator priv pf pf' sel v :
  Forall wf responder -> Forall wf initiator ->
  IkeCfg.select_proposal responder (IkeCfg.get_proposals initiator) priv pf = Some sel ->
  exists sel', IkeCfg.select_proposal initiator [set_spi sel v] priv pf' = Some sel' /\
               same_choice sel' sel /\ spi sel' = u64 v /\ number sel' = number sel.
Proof. rewrite get_proposals_id. intros Hr Hi. by apply lists_agree. Qed.

(** ** Stripped DH groups *)

Definition stripped (strip : bool) (p : proposal) : proposal := if strip then strip_dh p MODP_NONE else p.

Lemma strip_dh_other p keep t : t <> DIFFIE_HELLMAN_GROUP -> algorithms (strip_dh p keep) t = algorithms p t.
Proof. intros H. apply algorithms_remove. intros e He. by rewrite bool_decide_eq_false_2 by congruence. Qed.

Lemma strip_dh_groups p keep x : x ∈ algorithms (strip_dh p keep) DIFFIE_HELLMAN_GROUP -> fst x = keep.
Proof.
  unfold strip_dh. rewrite remove_entries_spec, algorithms_algs. cbn [transforms with_transforms].
  intros Hx%elem_of_algs. apply list_elem_of_In, filter_In in Hx as [_ Hx]. cbn in Hx.
  by apply negb_true_iff, negb_false_iff, Z.eqb_eq in Hx.
Qed.

Lemma strip_dh_idem p keep : strip_dh (strip_dh p keep) keep = strip_dh p keep.
Proof.
  unfold strip_dh. rewrite !remove_entries_spec. unfold with_transforms. cbn [protocol transforms spi number].
  f_equal. rewrite filter_filter_andb. apply filter_ext. intros e. by rewrite andb_diag.
Qed.

Lemma stripped_wf strip p : wf p -> wf (stripped strip p).
Proof. destruct strip; [apply remove_entries_wf|done]. Qed.

Lemma stripped_wfs strip l : Forall wf l -> Forall wf (stripped strip <$> l).
Proof. intros H. apply Forall_fmap. eapply Forall_impl; [exact H|]. intros p. apply stripped_wf. Qed.

Lemma stripped_idem strip p : stripped strip (stripped strip p) = stripped strip p.
Proof. destruct strip; [apply strip_dh_idem|done]. Qed.

(** The loops are those over the stripped proposals. *)
Lemma child_match_loop p strip pf priv ms :
  ChildCfg.match_loop p strip pf priv ms = IkeCfg.match_loop (stripped strip p) pf priv ms.
Proof.
  revert p. induction ms as [|m ms IH]; intros p; cbn; [done|]. fold (stripped strip p).
  by rewrite IH, stripped_idem.
Qed.

Lemma child_prefer_loop strip pf priv ps ms :
  ChildCfg.prefer_loop strip pf priv ps ms = IkeCfg.prefer_loop pf priv (stripped strip <$> ps) ms.
Proof.
  induction ps as [|p ps IH]; cbn; [done|]. rewrite child_match_loop, clone_id. by rewrite IH.
Qed.

Lemma child_select_lists this props strip priv pf :
  ChildCfg.select_proposal this props strip priv pf =
  if pf then IkeCfg.select_proposal (stripped strip <$> this) props priv true
  else IkeCfg.select_proposal this (stripped strip <$> props) priv false.
Proof. unfold ChildCfg.select_proposal, IkeCfg.select_proposal. destruct pf; apply child_prefer_loop. Qed.

Lemma child_get_proposals_elem this strip p :
  p ∈ ChildCfg.get_proposals this strip -> p ∈ stripped strip <$> this.
Proof.
  unfold ChildCfg.get_proposals.
  assert (forall l acc, p ∈ fold_left (fun proposals current =>
      let current := clone_ current in
      let current := if strip then strip_dh current MODP_NONE else current in
      if existsb (fun item => equals item current) proposals then proposals else proposals ++ [current]) l acc ->
    p ∈ acc \/ p ∈ stripped strip <$> l) as H.
  { induction l as [|q l IH]; intros acc; cbn; [by left|]. intros H%IH. rewrite clone_id in H.
    fold (stripped strip q) in H. rewrite elem_of_cons. destruct (existsb _ acc); [tauto|].
    rewrite elem_of_app, list_elem_of_singleton in H. tauto. }
  intros Hp%H. destruct Hp as [Hp|Hp]; [by apply not_elem_of_nil in Hp|done].
Qed.

Lemma child_received_stripped this strip :
  Forall (fun p => stripped strip p = p) (ChildCfg.get_proposals this strip).
Proof.
  apply Forall_forall. intros p Hp%child_get_proposals_elem. apply list_elem_of_fmap in Hp as (q & -> & _).
  apply stripped_idem.
Qed.

Lemma map_fixed {A} (f : A -> A) l : Forall (fun x => f x = x) l -> f <$> l = l.
Proof. induction 1 as [|x l Hx _ IH]; cbn; [done|]. by rewrite Hx, IH. Qed.

Lemma child_received_subset this strip : ChildCfg.get_proposals this strip ⊆ stripped strip <$> this.
Proof. intros p. apply child_get_proposals_elem. Qed.

Lemma strip_false_id (l : list proposal) : stripped false <$> l = l.
Proof. apply list_fmap_id. Qed.

(** C15: in the negotiation of a CHILD_SA the initiator accepts the reply of the responder and
    comes to the same algorithms, with the SPI and the number of the reply, for all lists
    and preferences of the responder; if DH groups are stripped, the initiator has to prefer
    its own proposals. *)
Theorem child_negotiation_agrees responder initiator strip priv pf pf' sel v :
  Forall wf responder -> Forall wf initiator -> strip = false \/ pf' = true ->
  ChildCfg.select_proposal responder (ChildCfg.get_proposals initiator strip) strip priv pf = Some sel ->
  exists sel', ChildCfg.select_proposal initiator [set_spi sel v] strip priv pf' = Some sel' /\
               same_choice sel' sel /\ spi sel' = u64 v /\ number sel' = number sel.
Proof.
  intros Hr Hi Hs. rewrite !child_select_lists, (map_fixed _ _ (child_received_stripped initiator strip)).
  intros H.
  assert (exists R, Forall wf R /\ IkeCfg.select_proposal R (ChildCfg.get_proposals initiator strip) priv pf = Some sel)
    as (R & HR & HS) by (destruct pf; eauto using stripped_wfs).
  destruct (lists_agree R _ _ priv pf pf' sel v HR (stripped_wfs strip _ Hi)
    (child_received_subset initiator strip) HS) as (sel' & E & H').
  exists sel'. split; [|done]. destruct pf'; [exact E|].
  destruct Hs as [-> | ?]; [|done]. by rewrite strip_false_id in *.
Qed.

(** C33: if DH groups are to be stripped and the proposals of the peer are preferred, no
    proposal is ever selected where all configured proposals have DH groups, not NONE: the
    groups are stripped from the received proposals only. *)
Theorem child_strip_no_match configured received priv :
  Forall wf received ->
  Forall (fun c => algorithms c DIFFIE_HELLMAN_GROUP <> [] /\
                   Forall (fun x => fst x <> MODP_NONE) (algorithms c DIFFIE_HELLMAN_GROUP)) configured ->
  ChildCfg.select_proposal configured received true priv false = None.
Proof.
  intros Hw Hc. rewrite child_select_lists.
  destruct (IkeCfg.select_proposal _ _ _ _) as [sel|] eqn:E; [exfalso|done].
  apply ike_select_some in E as (c & m & Hin & Hm & E).
  apply list_elem_of_fmap in Hm as (q & -> & Hq). rewrite Forall_forall in Hw, Hc.
  destruct (Hc c Hin) as [Hne Hnn]. apply select_outcome in E; [|by apply (stripped_wf true), Hw].
  pose proof (outcome_algorithms _ _ _ _ _ DIFFIE_HELLMAN_GROUP E) as Hs.
  apply settled_not_integ in Hs; [|done|by do 3 right; left]. cbn [stripped] in Hs. rewrite Forall_forall in Hnn.
  destruct Hs as [x Hx|H1 H2|k _ _ [[_ Hk]|[H2 _]]].
  - apply best_elem in Hx as [H1 H2]. apply strip_dh_groups in H1. by apply (Hnn x).
  - done.
  - by apply (Hnn _ Hk).
  - done.
Qed.

(** ** Witnesses *)

Definition esp_groups : proposal :=
  Proposal PROTO_ESP [Entry ENCRYPTION_ALGORITHM 12 128; Entry INTEGRITY_ALGORITHM 12 0;
                      Entry DIFFIE_HELLMAN_GROUP 14 0; Entry EXTENDED_SEQUENCE_NUMBERS 0 0] 0 0.
Definition ike_suite (encr : Z) (group : Z) : proposal :=
  Proposal PROTO_IKE [Entry ENCRYPTION_ALGORITHM encr 256; Entry ENCRYPTION_ALGORITHM encr 128;
                      Entry INTEGRITY_ALGORITHM 12 0; Entry PSEUDO_RANDOM_FUNCTION 5 0;
                      Entry DIFFIE_HELLMAN_GROUP group 0; Entry DIFFIE_HELLMAN_GROUP 14 0] 0 1.

(** The responder prefers its own list, the initiator what it receives. *)
Lemma ike_negotiation_agrees_witness :
  exists sel sel',
    IkeCfg.select_proposal [ike_suite 23 19; ike_suite 12 31] (IkeCfg.get_proposals [ike_suite 12 19]) false true = Some sel /\
    IkeCfg.select_proposal [ike_suite 12 19] [set_spi sel 99] false false = Some sel' /\
    algorithms sel DIFFIE_HELLMAN_GROUP = [(14, 0)] /\ same_choice sel' sel /\ spi sel' = 99.
Proof.
  eexists. destruct (ike_negotiation_agrees [ike_suite 23 19; ike_suite 12 31] [ike_suite 12 19] false true false
    _ 99 ltac:(repeat constructor; cbn; lia) ltac:(repeat constructor; cbn; lia) ltac:(vm_compute; reflexivity))
    as (sel' & H1 & H2 & H3 & _).
  exists sel'. split_and!; [vm_compute; reflexivity|exact H1|vm_compute; reflexivity|exact H2|exact H3].
Defined.

Lemma child_negotiation_agrees_witness :
  exists sel sel',
    ChildCfg.select_proposal [esp_groups] (ChildCfg.get_proposals [esp_groups] true) true false true = Some sel /\
    ChildCfg.select_proposal [esp_groups] [set_spi sel 7] true false true = Some sel' /\
    algorithms sel DIFFIE_HELLMAN_GROUP = [] /\ same_choice sel' sel.
Proof.
  eexists. destruct (child_negotiation_agrees [esp_groups] [esp_groups] true false true true
    _ 7 ltac:(repeat constructor; cbn; lia) ltac:(repeat constructor; cbn; lia) ltac:(right; reflexivity)
    ltac:(vm_compute; reflexivity)) as (sel' & H1 & H2 & _ & _).
  exists sel'. split_and!; [vm_compute; reflexivity|exact H1|vm_compute; reflexivity|exact H2].
Defined.

(** The same lists match if the own proposals are preferred. *)
Lemma child_strip_no_match_witness :
  ChildCfg.select_proposal [esp_groups] (ChildCfg.get_proposals [esp_groups] true) true false false = None /\
  ChildCfg.select_proposal [esp_groups] (ChildCfg.get_proposals [esp_groups] true) true false true <> None.
Proof.
  split; [|vm_compute; discriminate].
  apply (child_strip_no_match [esp_groups]).
  - repeat constructor; cbn; lia.
  - repeat constructor; cbn; discriminate.
Defined.
