(* ===== verification/Keymat.v ===== *)
(** The keys of IKEv2: [src/libcharon/sa/ikev2/keymat_v2.c] and the key lengths of
    [src/libcharon/sa/keymat.c].  From the secret of the Diffie-Hellman exchange, the nonces
    and the SPIs both ends derive the keys of the IKE_SA and of its CHILD_SAs, and the data
    that authenticates them.

    The crypto factory is an argument.  The general purpose PRF of the object is the one
    prf+ works on, unless the SA is rekeyed, so what prf+ does to it is seen afterwards. *)
From S2P Require Import Prelude Memory Chunk Crypto EspContext Message Prf Proposal.
From stdpp Require Import base numbers list option.
From Stdlib Require Import Lia ZArith.
Local Open Scope Z_scope.

(** ** Key lengths, [keymat.c] *)

Definition keylen_of (map : list (Z * Z)) (alg : Z) : Z :=
  match find (fun e => fst e =? alg) map with Some (_, len) => len | None => 0 end.

Definition keymat_get_keylen_encr : Z -> Z := keylen_of [(2, 64); (3, 192)].

Definition keymat_get_keylen_integ : Z -> Z :=
  keylen_of [(1, 128); (6, 128); (2, 160); (7, 160); (1026, 256); (12, 256); (13, 384); (14, 512); (5, 128); (8, 128)].

(** ** The object *)

(** [get_key_size] of an AEAD, which only key derivation uses. *)
Class AeadKeySize (P : Type) := { aead_key_size : P -> nat }.

(** The constructors of [lib->crypto], by the number of the algorithm. *)
Record ike_factory (P C S R F : Type) := IkeFactory {
  new_aead : Z -> nat -> nat -> option P;
  new_crypter : Z -> nat -> option C;
  new_signer : Z -> option S;
  new_prf : Z -> option F;
  ike_rng_weak : option R;
  ike_rng_strong : option R;
}.
#[global] Arguments IkeFactory {P C S R F}.
#[global] Arguments new_aead {P C S R F} i.
#[global] Arguments new_crypter {P C S R F} i.
#[global] Arguments new_signer {P C S R F} i.
#[global] Arguments new_prf {P C S R F} i.
#[global] Arguments ike_rng_weak {P C S R F} i.
#[global] Arguments ike_rng_strong {P C S R F} i.

Definition PRF_UNDEFINED : Z := 1024.

(** Chunks that were not set are empty. *)
Record keymat_v2 (A F : Type) := KeymatV2 {
  initiator : bool;
  km_aead_in : option A;
  km_aead_out : option A;
  km_prf : option F;
  prf_alg : Z;
  skd : chunk;
  skp_build : chunk;
  skp_verify : chunk;
}.
#[global] Arguments KeymatV2 {A F}.
#[global] Arguments initiator {A F} k.
#[global] Arguments km_aead_in {A F} k.
#[global] Arguments km_aead_out {A F} k.
#[global] Arguments km_prf {A F} k.
#[global] Arguments prf_alg {A F} k.
#[global] Arguments skd {A F} k.
#[global] Arguments skp_build {A F} k.
#[global] Arguments skp_verify {A F} k.

Definition keymat_v2_create {A F} (initiator : bool) : keymat_v2 A F :=
  KeymatV2 initiator None None None PRF_UNDEFINED [] [] [].

(** An identity: its type and encoding. *)
Record identification_t := Identification { id_type : Z; id_encoding : chunk }.

Section Keymat.
Context {P C S R F : Type} `{Aead P} `{AeadKeySize P} `{Crypter C} `{Signer S} `{Rng R} `{Prf F}.
Context (lib : ike_factory P C S R F).
(** What a fresh allocation holds. *)
Context (junk : nat -> chunk).
Abbreviation aead := (esp_aead P C S R).
Abbreviation keymat_t := (keymat_v2 aead F).
Abbreviation prf_plus := (PrfPlus.prf_plus_t F).

Definition set_aeads (this : keymat_t) (i o : option aead) : keymat_t :=
  KeymatV2 (initiator this) i o (km_prf this) (prf_alg this) (skd this) (skp_build this) (skp_verify this).
Definition set_prf (this : keymat_t) (p : option F) : keymat_t :=
  KeymatV2 (initiator this) (km_aead_in this) (km_aead_out this) p (prf_alg this) (skd this) (skp_build this) (skp_verify this).
Definition set_prf_alg (this : keymat_t) (a : Z) : keymat_t :=
  KeymatV2 (initiator this) (km_aead_in this) (km_aead_out this) (km_prf this) a (skd this) (skp_build this) (skp_verify this).
Definition set_skd (this : keymat_t) (k : chunk) : keymat_t :=
  KeymatV2 (initiator this) (km_aead_in this) (km_aead_out this) (km_prf this) (prf_alg this) k (skp_build this) (skp_verify this).
Definition set_skp (this : keymat_t) (build : bool) (k : chunk) : keymat_t :=
  KeymatV2 (initiator this) (km_aead_in this) (km_aead_out this) (km_prf this) (prf_alg this) (skd this)
    (if build then k else skp_build this) (if build then skp_verify this else k).

(** The result of both functions for the transforms, also after a failure. *)
Definition have_aeads (this : keymat_t) : bool :=
  bool_decide (is_Some (km_aead_in this)) && bool_decide (is_Some (km_aead_out this)).

Definition ike_salt (alg : Z) : option nat :=
  match encryption_algorithm_of alg with
  | Some (ENCR_AES_GCM_ICV8 | ENCR_AES_GCM_ICV12 | ENCR_AES_GCM_ICV16 | ENCR_CHACHA20_POLY1305) => Some 4%nat
  | Some (ENCR_AES_CCM_ICV8 | ENCR_AES_CCM_ICV12 | ENCR_AES_CCM_ICV16
         | ENCR_CAMELLIA_CCM_ICV8 | ENCR_CAMELLIA_CCM_ICV12 | ENCR_CAMELLIA_CCM_ICV16) => Some 3%nat
  | _ => None
  end.

(** Take a key and set it, [None] inside is a failure of either. *)
Definition keyed {X : Type} (set_key : X -> chunk -> bool * X) (x : X) (len : nat) (pp : prf_plus)
    : option (option X * prf_plus) :=
  '(key, pp) ← PrfPlus.allocate_bytes pp len;
  match key with
  | None => Some (None, pp)
  | Some key => match set_key x key with
                | (true, x) => Some (Some x, pp)
                | (false, _) => Some (None, pp)
                end
  end.

Definition install (this : keymat_t) (i r : aead) : keymat_t :=
  if initiator this then set_aeads this (Some r) (Some i) else set_aeads this (Some i) (Some r).

Definition derive_ike_aead (this : keymat_t) (alg key_size : Z) (pp : prf_plus)
    : option (bool * keymat_t * prf_plus) :=
  let failure pp := Some (have_aeads this, this, pp) in
  match ike_salt alg with
  | None => Some (false, this, pp)
  | Some salt_size =>
    match new_aead lib alg (Z.to_nat (key_size / 8)) salt_size, new_aead lib alg (Z.to_nat (key_size / 8)) salt_size with
    | Some aead_i, Some aead_r =>
      let key_size := u16 (Z.of_nat (aead_key_size aead_i)) in
      if negb (key_size =? Z.of_nat (aead_key_size aead_r)) then failure pp
      else
        '(i, pp) ← keyed aead_set_key aead_i (Z.to_nat key_size) pp;
        match i with
        | None => failure pp
        | Some aead_i =>
          '(r, pp) ← keyed aead_set_key aead_r (Z.to_nat key_size) pp;
          match r with
          | None => failure pp
          | Some aead_r => let this := install this (inl aead_i) (inl aead_r) in Some (have_aeads this, this, pp)
          end
        end
    | _, _ => failure pp
    end
  end.

Definition ivg_for (alg : Z) : option (Iv.iv_gen R) :=
  a ← encryption_algorithm_of alg; Iv.iv_gen_create_for_alg (ike_rng_weak lib) (ike_rng_strong lib) a.

Definition derive_ike_traditional (this : keymat_t) (enc_alg enc_size int_alg : Z) (pp : prf_plus)
    : option (bool * keymat_t * prf_plus) :=
  let failure pp := Some (have_aeads this, this, pp) in
  match new_signer lib int_alg, new_signer lib int_alg,
        new_crypter lib enc_alg (Z.to_nat (enc_size / 8)), new_crypter lib enc_alg (Z.to_nat (enc_size / 8)) with
  | Some signer_i, Some signer_r, Some crypter_i, Some crypter_r =>
    let key_size := signer_key_size signer_i in
    '(ai, pp) ← keyed signer_set_key signer_i key_size pp;
    match ai with None => failure pp | Some signer_i =>
    '(ar, pp) ← keyed signer_set_key signer_r key_size pp;
    match ar with None => failure pp | Some signer_r =>
    let key_size := crypter_key_size crypter_i in
    '(ei, pp) ← keyed crypter_set_key crypter_i key_size pp;
    match ei with None => failure pp | Some crypter_i =>
    '(er, pp) ← keyed crypter_set_key crypter_r key_size pp;
    match er with None => failure pp | Some crypter_r =>
    match ivg_for enc_alg, ivg_for enc_alg with
    | Some ivg_i, Some ivg_r =>
      let this := install this (inr (AeadWrapper.aead_create crypter_i signer_i ivg_i))
                               (inr (AeadWrapper.aead_create crypter_r signer_r ivg_r)) in
      Some (have_aeads this, this, pp)
    | _, _ => failure pp
    end end end end end
  | _, _, _, _ => failure pp
  end.
(** The nonce as part of a key: PRFs with a fixed key size use the first bytes. *)
Definition fixed_nonce (alg : Z) (p : F) (nonce : chunk) : chunk :=
  if one_of [8; 4; 1028] alg
  then take (Nat.min (length nonce) (Z.to_nat (u16 (Z.of_nat (prf_key_size p / 2))))) nonce
  else nonce.

(** SKEYSEED and the prf+ object made with it.  The chunk for SKEYSEED is not initialized and
    is cleared in any case, so that it is undefined if the PRF fails before it is set. *)
Definition seed_prf_plus (p : F) (key data seed : chunk) : option (option prf_plus * F) :=
  match prf_set_key p key with
  | (false, _) => None
  | (true, p) =>
    match prf_allocate_bytes p data true with
    | (None, _) => None
    | (Some skeyseed, p) =>
      match prf_set_key p skeyseed with
      | (false, p) => Some (None, p)
      | (true, p) => Some (PrfPlus.prf_plus_create p true seed)
      end
    end
  end.

(** Where prf+ works on the PRF of the object, its state is that of prf+. *)
Definition share (shared : bool) (this : keymat_t) (pp : prf_plus) : keymat_t :=
  if shared then set_prf this (Some (PrfPlus.prf pp)) else this.

Definition derived (this : keymat_t) : bool * keymat_t :=
  (negb (length (skp_build this) =? 0)%nat && negb (length (skp_verify this) =? 0)%nat, this).

Definition general_key_size (this : keymat_t) : option nat :=
  p ← km_prf this; Some (Z.to_nat (u16 (Z.of_nat (prf_key_size p)))).

Definition derive_transforms (this : keymat_t) (proposal : proposal) (pp : prf_plus)
    : option (bool * keymat_t * prf_plus) :=
  match get_algorithm proposal ENCRYPTION_ALGORITHM with
  | None => Some (false, this, pp)
  | Some (alg, key_size) =>
    if is_aead alg then derive_ike_aead this alg key_size pp
    else match get_algorithm proposal INTEGRITY_ALGORITHM with
         | None => Some (false, this, pp)
         | Some (int_alg, _) => derive_ike_traditional this alg key_size int_alg pp
         end
  end.

(** The keys in their order, behind the creation of prf+. *)
Definition derive_all (this : keymat_t) (proposal : proposal) (pp : prf_plus) (shared : bool) : option (bool * keymat_t) :=
  key_size ← general_key_size this;
  '(key, pp) ← PrfPlus.allocate_bytes pp key_size;
  let this := share shared this pp in
  match key with
  | None => Some (derived (set_skd this (junk key_size)))
  | Some key =>
    '(ok, this, pp) ← derive_transforms (set_skd this key) proposal pp;
    let this := share shared this pp in
    if negb (ok : bool) then Some (derived this)
    else
      key_size ← general_key_size this;
      '(key, pp) ← PrfPlus.allocate_bytes pp key_size;
      let this := share shared this pp in
      match key with
      | None => Some (derived this)
      | Some sk_pi =>
        let this := set_skp this (initiator this) sk_pi in
        '(key, pp) ← PrfPlus.allocate_bytes pp key_size;
        let this := share shared this pp in
        match key with
        | None => Some (derived this)
        | Some sk_pr => Some (derived (set_skp this (negb (initiator this)) sk_pr))
        end
      end
  end.

Definition derive_ike_keys (this : keymat_t) (proposal : proposal) (dh : option chunk) (nonce_i nonce_r : chunk)
    (id : ike_sa_id_t) (rekey_function : Z) (rekey_skd : chunk) : option (bool * keymat_t) :=
  match dh with
  | None => Some (false, this)
  | Some secret =>
    match get_algorithm proposal PSEUDO_RANDOM_FUNCTION with
    | None => Some (false, this)
    | Some (alg, _) =>
      let this := set_prf (set_prf_alg this alg) (new_prf lib alg) in
      match new_prf lib alg with
      | None => Some (false, this)
      | Some p =>
        let full_nonce := nonce_i ++ nonce_r in
        let seed := full_nonce ++ le_image 8 (initiator_spi id) ++ le_image 8 (responder_spi id) in
        if rekey_function =? PRF_UNDEFINED then
          '(pp, p) ← seed_prf_plus p (fixed_nonce alg p nonce_i ++ fixed_nonce alg p nonce_r) secret seed;
          let this := set_prf this (Some p) in
          match pp with
          | None => Some (derived this)
          | Some pp => derive_all this proposal pp true
          end
        else
          match new_prf lib rekey_function with
          | None => Some (false, this)
          | Some rekey_prf =>
            '(pp, _) ← seed_prf_plus rekey_prf rekey_skd (secret ++ full_nonce) seed;
            match pp with
            | None => Some (derived this)
            | Some pp => derive_all this proposal pp false
            end
          end
      end
    end
  end.

(** *** Keys of CHILD_SAs *)

Definition child_salt (alg : Z) : Z :=
  match encryption_algorithm_of alg with
  | Some (ENCR_AES_CCM_ICV8 | ENCR_AES_CCM_ICV12 | ENCR_AES_CCM_ICV16
         | ENCR_CAMELLIA_CCM_ICV8 | ENCR_CAMELLIA_CCM_ICV12 | ENCR_CAMELLIA_CCM_ICV16) => 3
  | Some (ENCR_AES_GCM_ICV8 | ENCR_AES_GCM_ICV12 | ENCR_AES_GCM_ICV16 | ENCR_AES_CTR | ENCR_CAMELLIA_CTR
         | ENCR_NULL_AUTH_AES_GMAC | ENCR_CHACHA20_POLY1305) => 4
  | _ => 0
  end.

(** The sizes in bytes, [None] if a length is not known. *)
Definition child_enc_size (proposal : proposal) : option Z :=
  match get_algorithm proposal ENCRYPTION_ALGORITHM with
  | None => Some 0
  | Some (enc_alg, enc_size) =>
    let enc_size := if enc_size =? 0 then u16 (keymat_get_keylen_encr enc_alg) else enc_size in
    if negb (enc_alg =? encryption_algorithm_value ENCR_NULL) && (enc_size =? 0) then None
    else Some (u16 (enc_size / 8 + child_salt enc_alg))
  end.

Definition child_int_size (proposal : proposal) : option Z :=
  match get_algorithm proposal INTEGRITY_ALGORITHM with
  | None => Some 0
  | Some (int_alg, int_size) =>
    let int_size := if int_size =? 0 then u16 (keymat_get_keylen_integ int_alg) else int_size in
    if int_size =? 0 then None else Some (int_size / 8)
  end.

Record child_keys := ChildKeys { encr_i : chunk; integ_i : chunk; encr_r : chunk; integ_r : chunk }.

(** [dh] is [None] without an exchange, [Some None] if it gives no secret. *)
Definition derive_child_keys (this : keymat_t) (proposal : proposal) (dh : option (option chunk))
    (nonce_i nonce_r : chunk) : option (option child_keys * keymat_t) :=
  match child_enc_size proposal, child_int_size proposal with
  | Some enc_size, Some int_size =>
    p ← km_prf this;
    match prf_set_key p (skd this) with
    | (false, p) => Some (None, set_prf this (Some p))
    | (true, p) =>
      match (match dh with None => Some [] | Some s => s end) with
      | None => Some (None, set_prf this (Some p))
      | Some secret =>
        match PrfPlus.prf_plus_create p true (secret ++ nonce_i ++ nonce_r) with
        | (None, p) => Some (None, set_prf this (Some p))
        | (Some pp, _) =>
          '(k1, pp) ← PrfPlus.allocate_bytes pp (Z.to_nat enc_size);
          match k1 with None => Some (None, share true this pp) | Some k1 =>
          '(k2, pp) ← PrfPlus.allocate_bytes pp (Z.to_nat int_size);
          match k2 with None => Some (None, share true this pp) | Some k2 =>
          '(k3, pp) ← PrfPlus.allocate_bytes pp (Z.to_nat enc_size);
          match k3 with None => Some (None, share true this pp) | Some k3 =>
          '(k4, pp) ← PrfPlus.allocate_bytes pp (Z.to_nat int_size);
          match k4 with None => Some (None, share true this pp) | Some k4 =>
          Some (Some (ChildKeys k1 k2 k3 k4), share true this pp)
          end end end end
        end
      end
    end
  | _, _ => Some (None, this)
  end.

Definition get_skd (this : keymat_t) : chunk * Z := (skd this, prf_alg this).

Definition get_aead (this : keymat_t) (inbound : bool) : option aead :=
  if inbound then km_aead_in this else km_aead_out this.

(** *** Authentication *)

(** Key and data through the PRF of the object. *)
Definition prf_once (this : keymat_t) (key data : chunk) : option (option chunk * keymat_t) :=
  p ← km_prf this;
  match prf_set_key p key with
  | (false, p) => Some (None, set_prf this (Some p))
  | (true, p) => let '(r, p) := prf_allocate_bytes p data true in Some (r, set_prf this (Some p))
  end.

Definition get_auth_octets (this : keymat_t) (verify : bool) (ike_sa_init nonce : chunk)
    (id : identification_t) (reserved : chunk) : option (option chunk * keymat_t) :=
  let skp := if verify then skp_verify this else skp_build this in
  match prf_once this skp ([u8 (id_type id)] ++ reserved ++ id_encoding id) with
  | None => None
  | Some (None, this) => Some (None, this)
  | Some (Some c, this) => Some (Some (ike_sa_init ++ nonce ++ c), this)
  end.

(** "Key Pad for IKEv2" *)
Definition IKEV2_KEY_PAD : chunk :=
  [75; 101; 121; 32; 80; 97; 100; 32; 102; 111; 114; 32; 73; 75; 69; 118; 50].

Definition get_psk_sig (this : keymat_t) (verify : bool) (ike_sa_init nonce secret : chunk)
    (id : identification_t) (reserved : chunk) : option (option chunk * keymat_t) :=
  let secret := match secret with [] => if verify then skp_verify this else skp_build this | _ => secret end in
  '(octets, this) ← get_auth_octets this verify ike_sa_init nonce id reserved;
  match octets with
  | None => Some (None, this)
  | Some octets =>
    '(key, this) ← prf_once this secret IKEV2_KEY_PAD;
    match key with
    | None => Some (None, this)
    | Some key => prf_once this key octets
    end
  end.
End Keymat.

(** ** What is derived *)

(** Set a key or fail. *)
Definition with_key {X : Type} (set_key : X -> chunk -> bool * X) (x : X) (key : chunk) : option X :=
  match set_key x key with (true, x) => Some x | (false, _) => None end.

Section Spec.
Context {P C S R F : Type} `{Aead P} `{AeadKeySize P} `{Crypter C} `{Signer S} `{Rng R} `{PrfLaws F}.
Context (lib : ike_factory P C S R F) (junk : nat -> chunk).
Abbreviation aead := (esp_aead P C S R).
Abbreviation keymat_t := (keymat_v2 aead F).
Abbreviation prf_plus := (PrfPlus.prf_plus_t F).

(** The transforms of the two directions with keys from a stream, and the position behind
    these: SK_ei and SK_er for an AEAD, ... *)
Definition aead_pair (alg key_size : Z) (K : nat -> nat -> chunk) (pos : nat) : option (aead * aead * nat) :=
  salt_size ← ike_salt alg;
  a ← new_aead lib alg (Z.to_nat (key_size / 8)) salt_size;
  let n := aead_key_size a in
  if decide (Z.of_nat n < 2 ^ 16) then
    i ← with_key aead_set_key a (K pos n);
    r ← with_key aead_set_key a (K (pos + n)%nat n);
    Some (inl i, inl r, (pos + n + n)%nat)
  else None.

(** ... SK_ai, SK_ar, SK_ei and SK_er otherwise. *)
Definition traditional_pair (enc_alg enc_size int_alg : Z) (K : nat -> nat -> chunk) (pos : nat)
    : option (aead * aead * nat) :=
  s ← new_signer lib int_alg;
  c ← new_crypter lib enc_alg (Z.to_nat (enc_size / 8));
  let n := signer_key_size s in
  let m := crypter_key_size c in
  si ← with_key signer_set_key s (K pos n);
  sr ← with_key signer_set_key s (K (pos + n)%nat n);
  ci ← with_key crypter_set_key c (K (pos + n + n)%nat m);
  cr ← with_key crypter_set_key c (K (pos + n + n + m)%nat m);
  g ← ivg_for lib enc_alg;
  Some (inr (AeadWrapper.aead_create ci si g), inr (AeadWrapper.aead_create cr sr g), (pos + n + n + m + m)%nat).

Definition transforms_for (proposal : proposal) (K : nat -> nat -> chunk) (pos : nat) : option (aead * aead * nat) :=
  '(alg, key_size) ← get_algorithm proposal ENCRYPTION_ALGORITHM;
  if is_aead alg then aead_pair alg key_size K pos
  else '(int_alg, _) ← get_algorithm proposal INTEGRITY_ALGORITHM; traditional_pair alg key_size int_alg K pos.

Record ike_keys := IkeKeys { sk_d : chunk; transform_i : aead; transform_r : aead; sk_pi : chunk; sk_pr : chunk }.

Definition prf_keylen (p : F) : nat := Z.to_nat (u16 (Z.of_nat (prf_key_size p))).

(** SK_d | SK_ai | SK_ar | SK_ei | SK_er | SK_pi | SK_pr of the stream [K]. *)
Definition split_keys (proposal : proposal) (p : F) (K : nat -> nat -> chunk) : option ike_keys :=
  let n := prf_keylen p in
  if decide (n = 0%nat) then None
  else '(i, r, pos) ← transforms_for proposal K n; Some (IkeKeys (K 0%nat n) i r (K pos n) (K (pos + n)%nat n)).

(** The stream of prf+ with the function [fn], the key [k] and the seed [sd]. *)
Definition key_stream (fn : chunk -> chunk -> chunk) (k sd : chunk) : nat -> nat -> chunk :=
  PrfPlus.stream_bytes true (fn k) sd.

(** prf+ at a position of its stream. *)
Definition streaming fn ks k sd pos (pp : prf_plus) : Prop :=
  PrfPlus.at_pos true fn ks k sd pos pp /\ (0 < length (PrfPlus.buffer pp))%nat.

Lemma allocate_streaming fn ks k sd pos pp len : streaming fn ks k sd pos pp ->
  exists pp', PrfPlus.allocate_bytes pp len = Some (Some (key_stream fn k sd pos len), pp') /\
    streaming fn ks k sd (pos + len) pp'.
Proof.
  intros [Ha Hb]. destruct (PrfPlus.allocate_bytes_spec _ _ _ _ _ _ _ len Hb Ha) as (pp' & E & Ha' & Hb').
  exists pp'. split; [exact E|]. split; [exact Ha'|]. by rewrite Hb'.
Qed.

Lemma keyed_streaming {X : Type} (set_key : X -> chunk -> bool * X) x fn ks k sd pos pp len :
  streaming fn ks k sd pos pp ->
  exists pp', keyed set_key x len pp = Some (with_key set_key x (key_stream fn k sd pos len), pp') /\
    streaming fn ks k sd (pos + len) pp'.
Proof.
  intros Hs. destruct (allocate_streaming _ _ _ _ _ _ len Hs) as (pp' & E & Hs'). exists pp'. split; [|exact Hs'].
  unfold keyed, with_key. rewrite E. cbn [mbind option_bind]. by destruct (set_key x _) as [[] ?].
Qed.

Lemma seed_streaming (p : F) key data sd : (0 < prf_block_size p)%nat ->
  exists pp, seed_prf_plus p key data sd = Some (Some pp, PrfPlus.prf pp) /\
    streaming (prf_fun p) (prf_key_size p) (prf_fun p key data) sd 0 pp.
Proof.
  intros Hb. unfold seed_prf_plus.
  destruct (prf_keyed p key) as (p1 & -> & Hr1 & Hf1 & Hk1).
  rewrite prf_alloc. destruct (prf_final _ _ _ data Hr1) as (p2 & -> & Hr2 & Hf2 & Hk2). cbn [app].
  destruct (prf_keyed p2 (prf_fun p1 key data)) as (p3 & -> & Hr3 & Hf3 & Hk3).
  destruct (PrfPlus.prf_plus_create_spec true p3 _ sd Hr3) as (pp & E & Ha & Hl).
  assert (prf_fun p3 = prf_fun p) as Hf by congruence.
  assert (prf_key_size p3 = prf_key_size p) as Hk by congruence.
  rewrite Hf, Hk, Hf1 in Ha. exists pp. split; [by rewrite E|]. split; [exact Ha|].
  rewrite Hl, <- (prf_length p3 key data), Hf, prf_length. exact Hb.
Qed.

Lemma have_no_aeads (this : keymat_t) : km_aead_in this = None -> have_aeads this = false.
Proof. intros H'. unfold have_aeads. by rewrite H'. Qed.

Lemma have_installed (this : keymat_t) i r : have_aeads (install this i r) = true.
Proof. unfold have_aeads, install. by destruct (initiator this). Qed.

(** The result and the object, for transforms or none. *)
Definition installed (this : keymat_t) (pair : option (aead * aead * nat)) : bool * keymat_t :=
  match pair with Some (i, r, _) => (true, install this i r) | None => (false, this) end.

Definition behind fn ks k sd (pair : option (aead * aead * nat)) (pp : prf_plus) : Prop :=
  forall i r n, pair = Some (i, r, n) -> streaming fn ks k sd n pp.

Lemma u16_fits n : (u16 (Z.of_nat n) =? Z.of_nat n) = bool_decide (Z.of_nat n < 2 ^ 16).
Proof.
  case_bool_decide as E.
  - rewrite uwrap_small by lia. apply Z.eqb_refl.
  - apply Z.eqb_neq. pose proof (uwrap_range 16 (Z.of_nat n) ltac:(lia)). lia.
Qed.

Lemma derive_ike_aead_spec (this : keymat_t) alg size fn ks k sd pos pp :
  km_aead_in this = None -> streaming fn ks k sd pos pp ->
  let pair := aead_pair alg size (key_stream fn k sd) pos in
  exists pp', derive_ike_aead lib this alg size pp = Some (installed this pair, pp') /\ behind fn ks k sd pair pp'.
Proof.
  intros Hn Hs. unfold derive_ike_aead, aead_pair.
  destruct (ike_salt alg) as [salt|]; cbn [mbind option_bind]; [|by exists pp].
  destruct (new_aead lib alg _ salt) as [a|]; cbn [mbind option_bind]; [|exists pp; by rewrite (have_no_aeads this Hn)].
  rewrite u16_fits. destruct (decide (Z.of_nat (aead_key_size a) < 2 ^ 16)) as [Hf|Hf].
  - rewrite bool_decide_eq_true_2 by done. cbn [negb]. rewrite uwrap_small, Nat2Z.id by lia.
    destruct (keyed_streaming aead_set_key a _ _ _ _ _ _ (aead_key_size a) Hs) as (p1 & -> & Q1). cbn [mbind option_bind].
    destruct (with_key aead_set_key a _) as [i|]; cbn [mbind option_bind]; [|exists p1; by rewrite (have_no_aeads this Hn)].
    destruct (keyed_streaming aead_set_key a _ _ _ _ _ _ (aead_key_size a) Q1) as (p2 & -> & Q2). cbn [mbind option_bind].
    destruct (with_key aead_set_key a _) as [r|]; cbn [mbind option_bind]; [|exists p2; by rewrite (have_no_aeads this Hn)].
    exists p2. rewrite have_installed. split; [done|]. intros i' r' n' [= <- <- <-]. exact Q2.
  - rewrite bool_decide_eq_false_2 by done. cbn [negb]. exists pp. by rewrite (have_no_aeads this Hn).
Qed.

Lemma derive_ike_traditional_spec (this : keymat_t) alg size int fn ks k sd pos pp :
  km_aead_in this = None -> streaming fn ks k sd pos pp ->
  let pair := traditional_pair alg size int (key_stream fn k sd) pos in
  exists pp', derive_ike_traditional lib this alg size int pp = Some (installed this pair, pp') /\
    behind fn ks k sd pair pp'.
Proof.
  intros Hn Hs. unfold derive_ike_traditional, traditional_pair. rewrite (have_no_aeads this Hn).
  destruct (new_signer lib int) as [s|]; cbn [mbind option_bind]; [|by exists pp].
  destruct (new_crypter lib alg _) as [c|]; cbn [mbind option_bind]; [|by exists pp].
  destruct (keyed_streaming signer_set_key s _ _ _ _ _ _ (signer_key_size s) Hs) as (p1 & -> & Q1). cbn [mbind option_bind].
  destruct (with_key signer_set_key s _) as [si|]; cbn [mbind option_bind]; [|by exists p1].
  destruct (keyed_streaming signer_set_key s _ _ _ _ _ _ (signer_key_size s) Q1) as (p2 & -> & Q2). cbn [mbind option_bind].
  destruct (with_key signer_set_key s _) as [sr|]; cbn [mbind option_bind]; [|by exists p2].
  destruct (keyed_streaming crypter_set_key c _ _ _ _ _ _ (crypter_key_size c) Q2) as (p3 & -> & Q3). cbn [mbind option_bind].
  destruct (with_key crypter_set_key c _) as [ci|]; cbn [mbind option_bind]; [|by exists p3].
  destruct (keyed_streaming crypter_set_key c _ _ _ _ _ _ (crypter_key_size c) Q3) as (p4 & -> & Q4). cbn [mbind option_bind].
  destruct (with_key crypter_set_key c _) as [cr|]; cbn [mbind option_bind]; [|by exists p4].
  destruct (ivg_for lib alg) as [g|]; cbn [mbind option_bind]; [|by exists p4].
  exists p4. rewrite have_installed. split; [done|]. intros i' r' n' [= <- <- <-]. exact Q4.
Qed.

Lemma derive_transforms_spec (this : keymat_t) prop fn ks k sd pos pp :
  km_aead_in this = None -> streaming fn ks k sd pos pp ->
  let pair := transforms_for prop (key_stream fn k sd) pos in
  exists pp', derive_transforms lib this prop pp = Some (installed this pair, pp') /\ behind fn ks k sd pair pp'.
Proof.
  intros Hn Hs. unfold derive_transforms, transforms_for.
  destruct (get_algorithm prop ENCRYPTION_ALGORITHM) as [[alg size]|]; cbn [mbind option_bind]; [|by exists pp].
  destruct (is_aead alg); [by apply derive_ike_aead_spec|].
  destruct (get_algorithm prop INTEGRITY_ALGORITHM) as [[int ?]|]; cbn [mbind option_bind]; [|by exists pp].
  by apply derive_ike_traditional_spec.
Qed.

(** The PRF of the object computes the function of [p]. *)
Definition prf_like (p : F) (this : keymat_t) : Prop :=
  exists q, km_prf this = Some q /\ prf_fun q = prf_fun p /\ prf_key_size q = prf_key_size p.

Lemma general_key_size_like p (this : keymat_t) : prf_like p this -> general_key_size this = Some (prf_keylen p).
Proof. intros (q & Hq & _ & Hk). unfold general_key_size, prf_keylen. rewrite Hq. cbn. by rewrite Hk. Qed.

(** What prf+ works on is the PRF of the object, or another one. *)
Definition works_on (shared : bool) (p : F) (fn : chunk -> chunk -> chunk) (ks : nat) : Prop :=
  shared = true -> fn = prf_fun p /\ ks = prf_key_size p.

Lemma share_like shared p (this : keymat_t) fn ks k sd pos pp :
  works_on shared p fn ks -> streaming fn ks k sd pos pp -> prf_like p this -> prf_like p (share shared this pp).
Proof.
  intros Hw [[_ Hf Hk _ _] _] Hl. destruct shared; [|exact Hl]. destruct (Hw eq_refl) as [-> ->].
  by exists (PrfPlus.prf pp).
Qed.

Lemma stream_length fn ks k sd pos pp a n : streaming fn ks k sd pos pp -> length (key_stream fn k sd a n) = n.
Proof.
  intros [Ha Hb]. destruct (PrfPlus.at_pos_block_size _ _ _ _ _ _ _ Ha) as [_ Hl].
  by apply (PrfPlus.length_stream_bytes true (fn k) sd (length (PrfPlus.buffer pp))).
Qed.

(** The object holds the keys, by its role. *)
Record holds_keys (this : keymat_t) (init : bool) (alg : Z) (p : F) (kk : ike_keys) : Prop := HoldsKeys {
  hk_initiator : initiator this = init;
  hk_prf_alg : prf_alg this = alg;
  hk_prf : prf_like p this;
  hk_skd : skd this = sk_d kk;
  hk_out : km_aead_out this = Some (if init then transform_i kk else transform_r kk);
  hk_in : km_aead_in this = Some (if init then transform_r kk else transform_i kk);
  hk_build : skp_build this = (if init then sk_pi kk else sk_pr kk);
  hk_verify : skp_verify this = (if init then sk_pr kk else sk_pi kk);
}.

(** An object before the keys are derived. *)
Record keyless (this : keymat_t) : Prop := Keyless {
  kl_in : km_aead_in this = None;
  kl_out : km_aead_out this = None;
  kl_build : skp_build this = [];
  kl_verify : skp_verify this = [];
}.

Lemma keyless_share shared (this : keymat_t) pp : keyless this -> keyless (share shared this pp).
Proof. intros []. by destruct shared. Qed.

Lemma derived_keyless (this : keymat_t) : skp_build this = [] -> derived this = (false, this).
Proof. intros Hb. unfold derived. by rewrite Hb. Qed.

(** The fields the operations of [derive_all] leave alone. *)
Lemma share_fields shared (this : keymat_t) pp :
  initiator (share shared this pp) = initiator this /\ prf_alg (share shared this pp) = prf_alg this /\
  skd (share shared this pp) = skd this /\ km_aead_in (share shared this pp) = km_aead_in this /\
  km_aead_out (share shared this pp) = km_aead_out this /\ skp_build (share shared this pp) = skp_build this /\
  skp_verify (share shared this pp) = skp_verify this.
Proof. by destruct shared. Qed.

Lemma derive_all_spec (this : keymat_t) prop shared p fn ks k sd pp :
  keyless this -> prf_like p this -> works_on shared p fn ks -> streaming fn ks k sd 0 pp ->
  let kk := split_keys prop p (key_stream fn k sd) in
  exists this', derive_all lib junk this prop pp shared = Some (bool_decide (is_Some kk), this') /\
    forall keys, kk = Some keys -> holds_keys this' (initiator this) (prf_alg this) p keys.
Proof.
  intros Hkl Hl Hw Hs. unfold derive_all, split_keys. rewrite (general_key_size_like p this Hl). cbn [mbind option_bind].
  destruct (allocate_streaming _ _ _ _ _ _ (prf_keylen p) Hs) as (pp1 & -> & Hs1). cbn [mbind option_bind].
  pose proof (share_like _ _ _ _ _ _ _ _ _ Hw Hs1 Hl) as Hl1.
  set (this1 := set_skd (share shared this pp1) (key_stream fn k sd 0 (prf_keylen p))).
  assert (keyless this1) as Hkl1 by (destruct Hkl, shared; by constructor).
  destruct (derive_transforms_spec this1 prop fn ks k sd (0 + prf_keylen p) pp1 (kl_in _ Hkl1) Hs1) as (pp2 & -> & Hb2).
  cbn [mbind option_bind]. change (0 + prf_keylen p)%nat with (prf_keylen p) in *.
  destruct (transforms_for prop (key_stream fn k sd) (prf_keylen p)) as [[[i r] n]|] eqn:Et; cbn [installed negb]; cycle 1.
  { rewrite derived_keyless by (destruct (share_fields shared this1 pp2) as (_ & _ & _ & _ & _ & -> & _); apply Hkl1).
    destruct (decide (prf_keylen p = 0%nat)); cbn; eexists; (split; [reflexivity|done]). }
  specialize (Hb2 i r n eq_refl).
  assert (prf_like p (share shared (install this1 i r) pp2)) as Hl2.
  { eapply share_like; [exact Hw|exact Hb2|]. unfold install, prf_like. by destruct (initiator this1). }
  rewrite (general_key_size_like _ _ Hl2). cbn [mbind option_bind].
  destruct (allocate_streaming _ _ _ _ _ _ (prf_keylen p) Hb2) as (pp3 & -> & Hs3). cbn [mbind option_bind].
  destruct (allocate_streaming _ _ _ _ _ _ (prf_keylen p) Hs3) as (pp4 & -> & Hs4). cbn [mbind option_bind].
  pose proof (stream_length _ _ _ _ _ _ n (prf_keylen p) Hs) as L1.
  pose proof (stream_length _ _ _ _ _ _ (n + prf_keylen p) (prf_keylen p) Hs) as L2.
  set (K1 := key_stream fn k sd n (prf_keylen p)) in *.
  set (K2 := key_stream fn k sd (n + prf_keylen p) (prf_keylen p)) in *.
  set (last := share shared (set_skp _ _ K1) pp4).
  assert (prf_like p last) as Hl4.
  { unfold last. eapply share_like; [exact Hw|exact Hs4|]. exact (share_like _ _ _ _ _ _ _ _ _ Hw Hs3 Hl2). }
  exists (set_skp last (negb (initiator last)) K2).
  assert (skp_build (set_skp last (negb (initiator last)) K2) = (if initiator this then K1 else K2) /\
          skp_verify (set_skp last (negb (initiator last)) K2) = (if initiator this then K2 else K1)) as [HB HV].
  { unfold last, this1, install, share. destruct shared, (initiator this) eqn:Hi; cbn; rewrite ?Hi; cbn; by rewrite ?Hi. }
  split.
  - unfold derived. rewrite HB, HV. f_equal. f_equal. destruct (decide (prf_keylen p = 0%nat)) as [E|E]; cbn.
    + destruct (initiator this); by rewrite L1, L2, E.
    + destruct (initiator this); rewrite L1, L2; by destruct (prf_keylen p).
  - intros keys Hk. destruct (decide (prf_keylen p = 0%nat)); [done|]. injection Hk as <-.
    constructor; cbn [sk_d transform_i transform_r sk_pi sk_pr]; [| |exact Hl4| | | |exact HB|exact HV];
    unfold last, this1, install, share; destruct shared, (initiator this) eqn:Hi; cbn; rewrite ?Hi; cbn; by rewrite ?Hi.
Qed.

(** SKEYSEED: from the nonces and the secret, or from the SK_d of the SA that is rekeyed. *)
Definition skeyseed_of (alg : Z) (p rekey_prf : F) (rekey : bool) (secret nonce_i nonce_r rekey_skd : chunk) : chunk :=
  if rekey then prf_fun rekey_prf rekey_skd (secret ++ nonce_i ++ nonce_r)
  else prf_fun p (fixed_nonce alg p nonce_i ++ fixed_nonce alg p nonce_r) secret.

(** The keys of RFC 7296, section 2.14 and 2.18. *)
Definition ike_keys_of (prop : proposal) (alg : Z) (p rekey_prf : F) (rekey : bool) (secret nonce_i nonce_r : chunk)
    (id : ike_sa_id_t) (rekey_skd : chunk) : option ike_keys :=
  split_keys prop p
    (key_stream (prf_fun (if rekey then rekey_prf else p))
       (skeyseed_of alg p rekey_prf rekey secret nonce_i nonce_r rekey_skd)
       ((nonce_i ++ nonce_r) ++ le_image 8 (initiator_spi id) ++ le_image 8 (responder_spi id))).

Lemma derive_ike_keys_spec (this : keymat_t) prop alg ks p rekey_prf rekey_function secret nonce_i nonce_r id rekey_skd :
  keyless this -> get_algorithm prop PSEUDO_RANDOM_FUNCTION = Some (alg, ks) -> new_prf lib alg = Some p ->
  let rekey := negb (rekey_function =? PRF_UNDEFINED) in
  (rekey = true -> new_prf lib rekey_function = Some rekey_prf) ->
  (0 < prf_block_size (if rekey then rekey_prf else p))%nat ->
  let kk := ike_keys_of prop alg p rekey_prf rekey secret nonce_i nonce_r id rekey_skd in
  exists this', derive_ike_keys lib junk this prop (Some secret) nonce_i nonce_r id rekey_function rekey_skd =
      Some (bool_decide (is_Some kk), this') /\
    forall keys, kk = Some keys -> holds_keys this' (initiator this) alg p keys.
Proof.
  intros Hkl Ha Hp rekey Hr Hb. unfold derive_ike_keys, ike_keys_of, skeyseed_of. rewrite Ha, Hp.
  unfold rekey in *. destruct (rekey_function =? PRF_UNDEFINED); cbn [negb] in *.
  - destruct (seed_streaming p (fixed_nonce alg p nonce_i ++ fixed_nonce alg p nonce_r) secret
      ((nonce_i ++ nonce_r) ++ le_image 8 (initiator_spi id) ++ le_image 8 (responder_spi id)) Hb) as (pp & -> & Hs).
    cbn [mbind option_bind].
    apply (derive_all_spec (set_prf (set_prf (set_prf_alg this alg) (Some p)) (Some (PrfPlus.prf pp))) prop true p
      (prf_fun p) (prf_key_size p)); [by destruct Hkl| |done|exact Hs].
    destruct Hs as [[_ Hf Hk _ _] _]. by exists (PrfPlus.prf pp).
  - rewrite (Hr eq_refl).
    destruct (seed_streaming rekey_prf rekey_skd (secret ++ nonce_i ++ nonce_r)
      ((nonce_i ++ nonce_r) ++ le_image 8 (initiator_spi id) ++ le_image 8 (responder_spi id)) Hb) as (pp & -> & Hs).
    cbn [mbind option_bind].
    apply (derive_all_spec (set_prf (set_prf_alg this alg) (Some p)) prop false p
      (prf_fun rekey_prf) (prf_key_size rekey_prf)); [by destruct Hkl|by exists p|done|exact Hs].
Qed.

(** *** CHILD_SAs and authentication *)

(** KEYMAT = prf+(SK_d, [g^ir |] Ni | Nr): encryption and integrity of the initiator's
    direction, then of the responder's. *)
Definition child_keys_of (fn : chunk -> chunk -> chunk) (sk : chunk) (prop : proposal) (dh : option (option chunk))
    (nonce_i nonce_r : chunk) : option child_keys :=
  enc ← child_enc_size prop;
  int ← child_int_size prop;
  secret ← (match dh with None => Some [] | Some s => s end);
  let e := Z.to_nat enc in
  let a := Z.to_nat int in
  let K := key_stream fn sk (secret ++ nonce_i ++ nonce_r) in
  Some (ChildKeys (K 0%nat e) (K e a) (K (e + a)%nat e) (K (e + a + e)%nat a)).

Lemma derive_child_keys_spec (this : keymat_t) p prop dh nonce_i nonce_r :
  prf_like p this -> (0 < prf_block_size p)%nat ->
  exists q, derive_child_keys this prop dh nonce_i nonce_r =
      Some (child_keys_of (prf_fun p) (skd this) prop dh nonce_i nonce_r, set_prf this (Some q)) /\
    prf_like p (set_prf this (Some q)).
Proof.
  intros (q & Hq & Hf & Hk) Hb. unfold derive_child_keys, child_keys_of.
  assert (set_prf this (Some q) = this) as Hid by (destruct this; cbn in *; by subst).
  assert (prf_like p (set_prf this (Some q))) as Hl by (by exists q).
  destruct (child_enc_size prop) as [enc|]; cbn [mbind option_bind]; [|exists q; split; [by rewrite Hid|done]].
  destruct (child_int_size prop) as [int|]; cbn [mbind option_bind]; [|exists q; split; [by rewrite Hid|done]].
  rewrite Hq. cbn [mbind option_bind]. destruct (prf_keyed q (skd this)) as (p1 & -> & Hr1 & Hf1 & Hk1).
  destruct (match dh with None => Some [] | Some s => s end) as [secret|]; cbn [mbind option_bind]; cycle 1.
  { exists p1. split; [done|]. exists p1. split; [done|]. split; congruence. }
  destruct (PrfPlus.prf_plus_create_spec true p1 _ (secret ++ nonce_i ++ nonce_r) Hr1) as (pp & -> & Ha & Hl1).
  assert (streaming (prf_fun p) (prf_key_size p) (skd this) (secret ++ nonce_i ++ nonce_r) 0 pp) as Hs.
  { split; [by rewrite <- Hf, <- Hk, <- Hf1, <- Hk1|].
    rewrite Hl1, <- (prf_length p1 [] []), Hf1, Hf, prf_length. exact Hb. }
  destruct (allocate_streaming _ _ _ _ _ _ (Z.to_nat enc) Hs) as (pp1 & -> & Q1). cbn [mbind option_bind].
  destruct (allocate_streaming _ _ _ _ _ _ (Z.to_nat int) Q1) as (pp2 & -> & Q2). cbn [mbind option_bind].
  destruct (allocate_streaming _ _ _ _ _ _ (Z.to_nat enc) Q2) as (pp3 & -> & Q3). cbn [mbind option_bind].
  destruct (allocate_streaming _ _ _ _ _ _ (Z.to_nat int) Q3) as (pp4 & -> & Q4). cbn [mbind option_bind].
  exists (PrfPlus.prf pp4). split; [done|]. destruct Q4 as [[_ Hf4 Hk4 _ _] _]. by exists (PrfPlus.prf pp4).
Qed.

Lemma prf_once_spec (this : keymat_t) p key data : prf_like p this ->
  exists q, prf_once this key data = Some (Some (prf_fun p key data), set_prf this (Some q)) /\
    prf_like p (set_prf this (Some q)).
Proof.
  intros (q & Hq & Hf & Hk). unfold prf_once. rewrite Hq. cbn [mbind option_bind].
  destruct (prf_keyed q key) as (p1 & -> & Hr1 & Hf1 & Hk1). rewrite prf_alloc.
  destruct (prf_final _ _ _ data Hr1) as (p2 & -> & Hr2 & Hf2 & Hk2). cbn [app]. exists p2.
  split; [by rewrite Hf1, Hf|]. exists p2. split; [done|]. split; congruence.
Qed.

(** InitiatorSignedOctets and ResponderSignedOctets of RFC 7296, section 2.15. *)
Definition auth_octets (fn : chunk -> chunk -> chunk) (skp ike_sa_init nonce : chunk) (id : identification_t)
    (reserved : chunk) : chunk :=
  ike_sa_init ++ nonce ++ fn skp ([u8 (id_type id)] ++ reserved ++ id_encoding id).

(** AUTH = prf(prf(Shared Secret, "Key Pad for IKEv2"), <octets>) *)
Definition psk_auth (fn : chunk -> chunk -> chunk) (skp ike_sa_init nonce secret : chunk) (id : identification_t)
    (reserved : chunk) : chunk :=
  fn (fn (match secret with [] => skp | _ => secret end) IKEV2_KEY_PAD)
     (auth_octets fn skp ike_sa_init nonce id reserved).

Lemma get_auth_octets_spec (this : keymat_t) p (verify : bool) ike_sa_init nonce id reserved : prf_like p this ->
  let skp := if verify then skp_verify this else skp_build this in
  exists q, get_auth_octets this verify ike_sa_init nonce id reserved =
      Some (Some (auth_octets (prf_fun p) skp ike_sa_init nonce id reserved), set_prf this (Some q)) /\
    prf_like p (set_prf this (Some q)).
Proof.
  intros Hl. unfold get_auth_octets.
  destruct (prf_once_spec this p (if verify then skp_verify this else skp_build this)
    ([u8 (id_type id)] ++ reserved ++ id_encoding id) Hl) as (q & -> & Hq). by exists q.
Qed.

Lemma get_psk_sig_spec (this : keymat_t) p (verify : bool) ike_sa_init nonce secret id reserved : prf_like p this ->
  let skp := if verify then skp_verify this else skp_build this in
  exists q, get_psk_sig this verify ike_sa_init nonce secret id reserved =
      Some (Some (psk_auth (prf_fun p) skp ike_sa_init nonce secret id reserved), set_prf this (Some q)) /\
    prf_like p (set_prf this (Some q)).
Proof.
  intros Hl. unfold get_psk_sig, psk_auth.
  destruct (get_auth_octets_spec this p verify ike_sa_init nonce id reserved Hl) as (q1 & -> & Hl1). cbn [mbind option_bind].
  set (sec := match secret with [] => _ | _ => secret end).
  destruct (prf_once_spec _ p sec IKEV2_KEY_PAD Hl1) as (q2 & -> & Hl2). cbn [mbind option_bind].
  destruct (prf_once_spec _ p (prf_fun p sec IKEV2_KEY_PAD)
    (auth_octets (prf_fun p) (if verify then skp_verify this else skp_build this) ike_sa_init nonce id reserved) Hl2)
    as (q3 & -> & Hl3).
  exists q3. by split.
Qed.
End Spec.

(** ** Both ends derive the same keys *)
Section Agree.
Context {P C S R F : Type} `{AeadLaws P} `{AeadKeySize P} `{CrypterLaws C} `{SignerLaws S} `{RngLaws R} `{PrfLaws F}.
Abbreviation aead := (esp_aead P C S R).
Abbreviation keymat_t := (keymat_v2 aead F).
Abbreviation factory := (ike_factory P C S R F).

(** The implementations of an algorithm at the two ends compute the same: PRFs are the same
    function, and with the same key the objects are the ends of one association. *)
Record interoperable (f g : factory) : Prop := Interoperable {
  io_block : forall alg p, new_prf f alg = Some p \/ new_prf g alg = Some p -> (0 < prf_block_size p)%nat;
  io_prf : forall alg p q, new_prf f alg = Some p -> new_prf g alg = Some q ->
    prf_fun p = prf_fun q /\ prf_key_size p = prf_key_size q;
  io_aead : forall alg n s a b, new_aead f alg n s = Some a -> new_aead g alg n s = Some b ->
    aead_key_size a = aead_key_size b /\
    forall k a' b', aead_set_key a k = (true, a') -> aead_set_key b k = (true, b') ->
      exists v, ae_view a' = Some v /\ ae_view b' = Some v;
  io_crypter : forall alg n a b, new_crypter f alg n = Some a -> new_crypter g alg n = Some b ->
    crypter_key_size a = crypter_key_size b /\
    forall k a' b', crypter_set_key a k = (true, a') -> crypter_set_key b k = (true, b') ->
      exists v, cr_view a' = Some v /\ cr_view b' = Some v;
  io_signer : forall alg a b, new_signer f alg = Some a -> new_signer g alg = Some b ->
    signer_key_size a = signer_key_size b /\
    forall k a' b', signer_set_key a k = (true, a') -> signer_set_key b k = (true, b') ->
      exists n k', sig_view a' = Some (SignerView n k' []) /\ sig_view b' = Some (SignerView n k' []);
}.

Lemma with_key_some {X : Type} (set_key : X -> chunk -> bool * X) x k x' :
  with_key set_key x k = Some x' -> set_key x k = (true, x').
Proof. unfold with_key. destruct (set_key x k) as [[] ?]; [by intros [= <-]|done]. Qed.

Lemma ivg_for_ok (f : factory) alg g : ivg_for f alg = Some g -> Iv.gen_ok g.
Proof.
  unfold ivg_for. destruct (encryption_algorithm_of alg) as [a|]; [|done]. cbn [mbind option_bind].
  assert (Iv.gen_ok (R := R) (Iv.IvSeq (Iv.seq_create (ike_rng_strong f)))) as Hseq.
  { cbn. destruct (ike_rng_strong f) as [r|]; [|done]. destruct (rng_get_bytes r 8) as [[c|] r'] eqn:E; [|done].
    by apply rng_length in E. }
  destruct a; cbn; intros [= <-]; done.
Qed.

Definition same_ends (a b : aead) : Prop := exists v, ae_view a = Some v /\ ae_view b = Some v.

Lemma wrapper_ends c c' s s' (g g' : Iv.iv_gen R) v n k :
  cr_view c = Some v -> cr_view c' = Some v -> sig_view s = Some (SignerView n k []) ->
  sig_view s' = Some (SignerView n k []) -> Iv.gen_ok g -> Iv.gen_ok g' ->
  same_ends (inr (AeadWrapper.aead_create c s g)) (inr (AeadWrapper.aead_create c' s' g')).
Proof.
  intros Hc Hc' Hs Hs' Hg Hg'. destruct v as [bs ivs ck].
  exists (tag_view 1 (AeadView bs n ivs (k, ck))). cbn. unfold AeadWrapper.aead_create.
  split; by rewrite (w_view_intro _ _ _ bs ivs ck n k).
Qed.

Lemma aead_pair_agree f g alg size K pos i r n i' r' n' :
  interoperable f g ->
  aead_pair f alg size K pos = Some (i, r, n) -> aead_pair g alg size K pos = Some (i', r', n') ->
  n = n' /\ same_ends i i' /\ same_ends r r'.
Proof.
  intros Hio Hf Hg. unfold aead_pair in *. destruct (ike_salt alg) as [s|]; [|done]. cbn [mbind option_bind] in *.
  destruct (new_aead f alg _ s) as [a|] eqn:Ea; [|done]. destruct (new_aead g alg _ s) as [b|] eqn:Eb; [|done].
  cbn [mbind option_bind] in *. destruct (io_aead _ _ Hio _ _ _ _ _ Ea Eb) as [Hs Hk]. rewrite <- Hs in Hg.
  destruct (decide _); [|done].
  destruct (with_key aead_set_key a (K pos _)) as [ai|] eqn:A1; [|done]. cbn [mbind option_bind] in *.
  destruct (with_key aead_set_key a (K (pos + _)%nat _)) as [ar|] eqn:A2; [|done].
  destruct (with_key aead_set_key b (K pos _)) as [bi|] eqn:B1; [|done]. cbn [mbind option_bind] in *.
  destruct (with_key aead_set_key b (K (pos + _)%nat _)) as [br|] eqn:B2; [|done].
  injection Hf as <- <- <-. injection Hg as <- <- <-. apply with_key_some in A1, A2, B1, B2.
  split; [done|]. split.
  - destruct (Hk _ _ _ A1 B1) as (v & Va & Vb). exists (tag_view 0 v). cbn. by rewrite Va, Vb.
  - destruct (Hk _ _ _ A2 B2) as (v & Va & Vb). exists (tag_view 0 v). cbn. by rewrite Va, Vb.
Qed.

Lemma traditional_pair_agree f g alg size int K pos i r n i' r' n' :
  interoperable f g ->
  traditional_pair f alg size int K pos = Some (i, r, n) -> traditional_pair g alg size int K pos = Some (i', r', n') ->
  n = n' /\ same_ends i i' /\ same_ends r r'.
Proof.
  intros Hio Hf Hg. unfold traditional_pair in *.
  destruct (new_signer f int) as [s|] eqn:Es; [|done]. destruct (new_signer g int) as [s'|] eqn:Es'; [|done].
  cbn [mbind option_bind] in *.
  destruct (new_crypter f alg _) as [c|] eqn:Ec; [|done]. destruct (new_crypter g alg _) as [c'|] eqn:Ec'; [|done].
  cbn [mbind option_bind] in *.
  destruct (io_signer _ _ Hio _ _ _ Es Es') as [Hs Hsk]. destruct (io_crypter _ _ Hio _ _ _ _ Ec Ec') as [Hc Hck].
  rewrite <- Hs, <- Hc in Hg.
  apply bind_Some in Hf as (si & A1 & Hf), Hg as (si' & B1 & Hg).
  apply bind_Some in Hf as (sr & A2 & Hf), Hg as (sr' & B2 & Hg).
  apply bind_Some in Hf as (ci & A3 & Hf), Hg as (ci' & B3 & Hg).
  apply bind_Some in Hf as (cr & A4 & Hf), Hg as (cr' & B4 & Hg).
  apply bind_Some in Hf as (v & A5 & Hf), Hg as (v' & B5 & Hg).
  injection Hf as <- <- <-. injection Hg as <- <- <-.
  apply with_key_some in A1, A2, A3, A4, B1, B2, B3, B4. apply ivg_for_ok in A5, B5.
  destruct (Hsk _ _ _ A1 B1) as (? & ? & ? & ?), (Hsk _ _ _ A2 B2) as (? & ? & ? & ?).
  destruct (Hck _ _ _ A3 B3) as (? & ? & ?), (Hck _ _ _ A4 B4) as (? & ? & ?).
  split; [done|]. split; by eapply wrapper_ends.
Qed.

Lemma same_choice_algorithm p q t :
  same_choice p q -> t ∈ selected_types -> t <> DIFFIE_HELLMAN_GROUP -> get_algorithm p t = get_algorithm q t.
Proof. intros Hs Ht Hn. specialize (Hs t Ht). rewrite decide_False in Hs by done. unfold get_algorithm. by rewrite Hs. Qed.

Lemma same_choice_keys p q : same_choice p q ->
  get_algorithm p ENCRYPTION_ALGORITHM = get_algorithm q ENCRYPTION_ALGORITHM /\
  get_algorithm p INTEGRITY_ALGORITHM = get_algorithm q INTEGRITY_ALGORITHM /\
  get_algorithm p PSEUDO_RANDOM_FUNCTION = get_algorithm q PSEUDO_RANDOM_FUNCTION.
Proof.
  intros Hs. split_and!; apply same_choice_algorithm; try done; unfold selected_types.
  - left.
  - right; right; left.
  - right; left.
Qed.

Lemma transforms_agree f g pi pr K pos i r n i' r' n' :
  interoperable f g -> same_choice pi pr ->
  transforms_for f pi K pos = Some (i, r, n) -> transforms_for g pr K pos = Some (i', r', n') ->
  n = n' /\ same_ends i i' /\ same_ends r r'.
Proof.
  intros Hio Hs Hf Hg. destruct (same_choice_keys _ _ Hs) as (He & Hi & _). unfold transforms_for in *.
  rewrite <- He, <- Hi in Hg. destruct (get_algorithm pi ENCRYPTION_ALGORITHM) as [[alg size]|]; [|done].
  cbn [mbind option_bind] in *. destruct (is_aead alg); [by eapply aead_pair_agree|].
  destruct (get_algorithm pi INTEGRITY_ALGORITHM) as [[int ?]|]; [|done]. by eapply traditional_pair_agree.
Qed.

Lemma split_keys_agree f g pi pr (p q : F) K kk kk' :
  interoperable f g -> same_choice pi pr -> prf_key_size p = prf_key_size q ->
  split_keys f pi p K = Some kk -> split_keys g pr q K = Some kk' ->
  sk_d kk = sk_d kk' /\ same_ends (transform_i kk) (transform_i kk') /\ same_ends (transform_r kk) (transform_r kk') /\
  sk_pi kk = sk_pi kk' /\ sk_pr kk = sk_pr kk'.
Proof.
  intros Hio Hs Hk Hf Hg. unfold split_keys in *.
  assert (prf_keylen p = prf_keylen q) as Hl by (unfold prf_keylen; by rewrite Hk). rewrite <- Hl in Hg.
  destruct (decide _) as [|Hz]; [done|].
  destruct (transforms_for f pi K _) as [[[i r] n]|] eqn:Ef; [|done].
  destruct (transforms_for g pr K _) as [[[i' r'] n']|] eqn:Eg; [|done]. cbn [mbind option_bind] in *.
  injection Hf as <-. injection Hg as <-.
  destruct (transforms_agree _ _ _ _ _ _ _ _ _ _ _ _ Hio Hs Ef Eg) as (-> & Hi & Hr). done.
Qed.

(** What a derivation that succeeded has used. *)
Lemma derive_ike_keys_inv (f : factory) junk (this this' : keymat_t) prop dh ni nr id rf rskd :
  derive_ike_keys f junk this prop dh ni nr id rf rskd = Some (true, this') ->
  exists alg ks p, get_algorithm prop PSEUDO_RANDOM_FUNCTION = Some (alg, ks) /\ new_prf f alg = Some p /\
    exists rp, negb (rf =? PRF_UNDEFINED) = true -> new_prf f rf = Some rp.
Proof.
  unfold derive_ike_keys. destruct dh; [|done].
  destruct (get_algorithm prop PSEUDO_RANDOM_FUNCTION) as [[alg ks]|]; [|done].
  destruct (new_prf f alg) as [p|] eqn:Ep; [|done]. intros E. exists alg, ks, p. split; [done|]. split; [done|].
  destruct (rf =? PRF_UNDEFINED); [by exists p|]. destruct (new_prf f rf) as [rp|] eqn:Er; [|done]. by exists rp.
Qed.

(** Initiator and responder with the keys of one IKE_SA. *)
Record in_step (ki kr : keymat_t) : Prop := InStep {
  is_out : exists a b, km_aead_out ki = Some a /\ km_aead_in kr = Some b /\ same_ends a b;
  is_in : exists a b, km_aead_in ki = Some a /\ km_aead_out kr = Some b /\ same_ends a b;
  is_skd : get_skd ki = get_skd kr;
  is_build : skp_build ki = skp_verify kr;
  is_verify : skp_verify ki = skp_build kr;
  is_prf : exists p q, prf_like p ki /\ prf_like q kr /\ prf_fun p = prf_fun q /\
    (0 < prf_block_size p)%nat /\ (0 < prf_block_size q)%nat;
}.

(** The keys of a successful derivation. *)
Lemma derive_ike_keys_holds (f : factory) junk init (this' : keymat_t) prop secret ni nr id rf rskd alg ks p rp :
  derive_ike_keys f junk (keymat_v2_create init) prop (Some secret) ni nr id rf rskd = Some (true, this') ->
  get_algorithm prop PSEUDO_RANDOM_FUNCTION = Some (alg, ks) -> new_prf f alg = Some p ->
  (negb (rf =? PRF_UNDEFINED) = true -> new_prf f rf = Some rp) ->
  (forall a x, new_prf f a = Some x -> (0 < prf_block_size x)%nat) ->
  exists kk, ike_keys_of f prop alg p rp (negb (rf =? PRF_UNDEFINED)) secret ni nr id rskd = Some kk /\
    holds_keys this' init alg p kk.
Proof.
  intros E Ha Hp Hr Hb.
  destruct (derive_ike_keys_spec f junk (keymat_v2_create init) prop alg ks p rp rf secret ni nr id rskd)
    as (t & E' & Hk); [by constructor|done|done|exact Hr| |].
  { destruct (negb _) eqn:En; [by eapply Hb, Hr|by eapply Hb]. }
  rewrite E' in E. injection E as Eb <-. apply bool_decide_eq_true in Eb as [kk Hkk].
  exists kk. split; [exact Hkk|]. by apply Hk.
Qed.

Lemma fixed_nonce_agree alg (p q : F) n : prf_key_size p = prf_key_size q -> fixed_nonce alg p n = fixed_nonce alg q n.
Proof. intros Hk. unfold fixed_nonce. by rewrite Hk. Qed.

Lemma ike_keys_of_agree f g pi pr alg p q rp rq rekey secret ni nr id rskd kk kk' :
  interoperable f g -> same_choice pi pr -> prf_fun p = prf_fun q -> prf_key_size p = prf_key_size q ->
  (rekey = true -> prf_fun rp = prf_fun rq) ->
  ike_keys_of f pi alg p rp rekey secret ni nr id rskd = Some kk ->
  ike_keys_of g pr alg q rq rekey secret ni nr id rskd = Some kk' ->
  sk_d kk = sk_d kk' /\ same_ends (transform_i kk) (transform_i kk') /\ same_ends (transform_r kk) (transform_r kk') /\
  sk_pi kk = sk_pi kk' /\ sk_pr kk = sk_pr kk'.
Proof.
  intros Hio Hs Hf Hk Hr E E'. unfold ike_keys_of, skeyseed_of in *. destruct rekey.
  - rewrite <- (Hr eq_refl) in E'. by eapply split_keys_agree.
  - rewrite <- Hf, <- !(fixed_nonce_agree alg p q _ Hk) in E'. by eapply split_keys_agree.
Qed.

Lemma derive_in_step f g junk junk' (ki kr : keymat_t) pi pr secret ni nr id rf rskd :
  interoperable f g -> same_choice pi pr ->
  derive_ike_keys f junk (keymat_v2_create true) pi (Some secret) ni nr id rf rskd = Some (true, ki) ->
  derive_ike_keys g junk' (keymat_v2_create false) pr (Some secret) ni nr id rf rskd = Some (true, kr) ->
  in_step ki kr.
Proof.
  intros Hio Hs Ei Er.
  destruct (derive_ike_keys_inv _ _ _ _ _ _ _ _ _ _ _ Ei) as (alg & ks & p & Ha & Hp & rp & Hrp).
  destruct (derive_ike_keys_inv _ _ _ _ _ _ _ _ _ _ _ Er) as (alg' & ks' & q & Ha' & Hq & rq & Hrq).
  destruct (same_choice_keys _ _ Hs) as (_ & _ & Hprf).
  assert (alg' = alg) as -> by congruence. assert (ks' = ks) as -> by congruence.
  destruct (derive_ike_keys_holds _ _ _ _ _ _ _ _ _ _ _ _ _ _ _ Ei Ha Hp Hrp) as (kk & Ek & Hi);
    [intros a x Hx; eapply (io_block _ _ Hio); by left|].
  destruct (derive_ike_keys_holds _ _ _ _ _ _ _ _ _ _ _ _ _ _ _ Er Ha' Hq Hrq) as (kk' & Ek' & Hr);
    [intros a x Hx; eapply (io_block _ _ Hio); by right|].
  destruct (io_prf _ _ Hio _ _ _ Hp Hq) as [Hfun Hsize].
  assert (negb (rf =? PRF_UNDEFINED) = true -> prf_fun rp = prf_fun rq) as Hrf
    by (intros Hn; exact (proj1 (io_prf _ _ Hio _ _ _ (Hrp Hn) (Hrq Hn)))).
  destruct (ike_keys_of_agree _ _ _ _ _ _ _ _ _ _ _ _ _ _ _ _ _ Hio Hs Hfun Hsize Hrf Ek Ek') as (Hd & Hti & Htr & Hpi & Hpr).
  destruct Hi as [_ Hi1 Hi2 Hi3 Hi4 Hi5 Hi6 Hi7], Hr as [_ Hr1 Hr2 Hr3 Hr4 Hr5 Hr6 Hr7]. cbn in *. constructor.
  - eexists _, _. split; [exact Hi4|]. split; [exact Hr5|exact Hti].
  - eexists _, _. split; [exact Hi5|]. split; [exact Hr4|exact Htr].
  - unfold get_skd. congruence.
  - congruence.
  - congruence.
  - exists p, q. split_and!; [exact Hi2|exact Hr2|exact Hfun| |]; eapply (io_block _ _ Hio); eauto.
Qed.
End Agree.

(** ** Theorems *)

Lemma key_stream_T {F} `{PrfLaws F} (p : F) k sd pos len :
  (0 < prf_block_size p)%nat -> (pos + len <= 255 * prf_block_size p)%nat ->
  key_stream (prf_fun p) k sd pos len = take len (drop pos (concat (map (PrfPlus.T (prf_fun p k) sd) (seq 1 255)))).
Proof.
  intros Hb Hl. unfold key_stream. rewrite <- PrfPlus.stream_T by done.
  by rewrite (PrfPlus.stream_bytes_of true _ sd (prf_block_size p)) with (n := 255%nat) by (try apply prf_length; lia).
Qed.

(** C7: the derivation of the keys of an IKE_SA is defined, succeeds exactly if the algorithms
    can be created and take their keys, and gives the keys of RFC 7296: SKEYSEED from the
    nonces and the secret, or from the SK_d of the SA that is rekeyed, and SK_d, SK_ai,
    SK_ar, SK_ei, SK_er, SK_pi and SK_pr in this order from T1 | T2 | ... of prf+ over the
    nonces and SPIs, each for its direction and role.  A pseudo-random function takes every
    key ([prf_keyed] of [PrfLaws]); one that refuses a key is not covered. *)
Theorem ike_keys_rfc7296 {P C S R F} `{Aead P} `{AeadKeySize P} `{Crypter C} `{Signer S} `{Rng R} `{PrfLaws F}
    (lib : ike_factory P C S R F) junk init prop alg ks p rekey_prf rekey_function secret nonce_i nonce_r id rekey_skd :
  get_algorithm prop PSEUDO_RANDOM_FUNCTION = Some (alg, ks) -> new_prf lib alg = Some p ->
  let rekey := negb (rekey_function =? PRF_UNDEFINED) in
  (rekey = true -> new_prf lib rekey_function = Some rekey_prf) ->
  let used := if rekey then rekey_prf else p in
  (0 < prf_block_size used)%nat ->
  let keys := ike_keys_of lib prop alg p rekey_prf rekey secret nonce_i nonce_r id rekey_skd in
  let skeyseed := skeyseed_of alg p rekey_prf rekey secret nonce_i nonce_r rekey_skd in
  let seed := (nonce_i ++ nonce_r) ++ le_image 8 (initiator_spi id) ++ le_image 8 (responder_spi id) in
  (exists this, derive_ike_keys lib junk (keymat_v2_create init) prop (Some secret) nonce_i nonce_r id
       rekey_function rekey_skd = Some (bool_decide (is_Some keys), this) /\
     forall kk, keys = Some kk -> holds_keys this init alg p kk) /\
  keys = split_keys lib prop p (key_stream (prf_fun used) skeyseed seed) /\
  (forall pos len, (pos + len <= 255 * prf_block_size used)%nat ->
     key_stream (prf_fun used) skeyseed seed pos len =
     take len (drop pos (concat (map (PrfPlus.T (prf_fun used skeyseed) seed) (seq 1 255))))).
Proof.
  intros Ha Hp rekey Hr used Hb keys skeyseed seed. split; [|split].
  - by apply (derive_ike_keys_spec lib junk (keymat_v2_create init) prop alg ks p rekey_prf).
  - reflexivity.
  - intros pos len Hl. by apply key_stream_T.
Qed.

(** C6: if both ends of a negotiation, which came to the same algorithms, derive the keys of an
    IKE_SA from the same secret, nonces and SPIs, then each outbound transform is the other
    end of the inbound one of the peer, SK_d is the same, what one end signs with a shared
    secret is what the other end computes to verify it, and all keys of CHILD_SAs they
    derive are the same. *)
Theorem ike_keys_agree {P C S R F} `{AeadLaws P} `{AeadKeySize P} `{CrypterLaws C} `{SignerLaws S} `{RngLaws R} `{PrfLaws F}
    (f g : ike_factory P C S R F) junk junk' ki kr pi pr secret nonce_i nonce_r id rekey_function rekey_skd :
  interoperable f g -> same_choice pi pr ->
  derive_ike_keys f junk (keymat_v2_create true) pi (Some secret) nonce_i nonce_r id rekey_function rekey_skd = Some (true, ki) ->
  derive_ike_keys g junk' (keymat_v2_create false) pr (Some secret) nonce_i nonce_r id rekey_function rekey_skd = Some (true, kr) ->
  in_step ki kr /\
  (forall ike_sa_init nonce psk idx reserved, exists sig ki' kr',
     get_psk_sig ki false ike_sa_init nonce psk idx reserved = Some (Some sig, ki') /\
     get_psk_sig kr true ike_sa_init nonce psk idx reserved = Some (Some sig, kr')) /\
  (forall ike_sa_init nonce psk idx reserved, exists sig ki' kr',
     get_psk_sig kr false ike_sa_init nonce psk idx reserved = Some (Some sig, kr') /\
     get_psk_sig ki true ike_sa_init nonce psk idx reserved = Some (Some sig, ki')) /\
  (forall ci cr dh ni nr, same_choice ci cr -> exists keys ki' kr',
     derive_child_keys ki ci dh ni nr = Some (keys, ki') /\ derive_child_keys kr cr dh ni nr = Some (keys, kr')).
Proof.
  intros Hio Hs Ei Er. pose proof (derive_in_step f g junk junk' ki kr pi pr secret nonce_i nonce_r id
    rekey_function rekey_skd Hio Hs Ei Er) as Hst. split; [exact Hst|].
  destruct Hst as [_ _ Hd Hb Hv (p & q & Hp & Hq & Hf & Bp & Bq)]. split_and!.
  - intros ini n psk idx res. destruct (get_psk_sig_spec ki p false ini n psk idx res Hp) as (x & E & _).
    destruct (get_psk_sig_spec kr q true ini n psk idx res Hq) as (y & E' & _).
    eexists _, _, _. split; [exact E|]. by rewrite E', Hf, <- Hb.
  - intros ini n psk idx res. destruct (get_psk_sig_spec ki p true ini n psk idx res Hp) as (x & E & _).
    destruct (get_psk_sig_spec kr q false ini n psk idx res Hq) as (y & E' & _).
    eexists _, _, _. split; [exact E'|]. by rewrite E, Hf, <- Hv.
  - intros ci cr dh ni nr Hc. destruct (derive_child_keys_spec ki p ci dh ni nr Hp Bp) as (x & E & _).
    destruct (derive_child_keys_spec kr q cr dh ni nr Hq Bq) as (y & E' & _).
    eexists _, _, _. split; [exact E|]. rewrite E'. f_equal. f_equal.
    injection Hd as Hd _. destruct (same_choice_keys _ _ Hc) as (He & Hi & _).
    unfold child_keys_of, child_enc_size, child_int_size. by rewrite Hf, Hd, He, Hi.
Qed.

(** C18: the keys of a CHILD_SA are those of RFC 7296: for the initiator's direction encryption
    and integrity, then for the responder's, from prf+ over [g^ir |] Ni | Nr with SK_d, of
    the lengths of the algorithms with their salts, which are those of the tables of the code;
    nothing is derived exactly if a length is not known or there is no secret.  A pseudo-random
    function takes every key ([PrfLaws]). *)
Theorem child_keys_rfc7296 {P C S R F} `{PrfLaws F} (this : keymat_v2 (esp_aead P C S R) F) p prop dh nonce_i nonce_r :
  prf_like p this -> (0 < prf_block_size p)%nat ->
  exists this', derive_child_keys this prop dh nonce_i nonce_r =
      Some (child_keys_of (prf_fun p) (skd this) prop dh nonce_i nonce_r, this') /\
    prf_like p this' /\ get_skd this' = get_skd this /\
    (child_keys_of (prf_fun p) (skd this) prop dh nonce_i nonce_r = None <->
     child_enc_size prop = None \/ child_int_size prop = None \/ dh = Some None) /\
    forall keys, child_keys_of (prf_fun p) (skd this) prop dh nonce_i nonce_r = Some keys ->
      exists enc int secret, child_enc_size prop = Some enc /\ child_int_size prop = Some int /\
        secret = default [] (dh ≫= id) /\
        (Z.to_nat enc + Z.to_nat int + Z.to_nat enc + Z.to_nat int <= 255 * prf_block_size p ->
         encr_i keys ++ integ_i keys ++ encr_r keys ++ integ_r keys =
         take (Z.to_nat enc + Z.to_nat int + Z.to_nat enc + Z.to_nat int)
           (concat (map (PrfPlus.T (prf_fun p (skd this)) (secret ++ nonce_i ++ nonce_r)) (seq 1 255))))%nat.
Proof.
  intros Hl Hb. destruct (derive_child_keys_spec this p prop dh nonce_i nonce_r Hl Hb) as (q & E & Hq).
  exists (set_prf this (Some q)). split; [exact E|]. split; [exact Hq|]. split; [reflexivity|].
  unfold child_keys_of.
  destruct (child_enc_size prop) as [enc|]; cbn [mbind option_bind]; [|split; [split; [by auto|done]|done]].
  destruct (child_int_size prop) as [int|]; cbn [mbind option_bind]; [|split; [split; [by auto|done]|done]].
  destruct (match dh with None => Some [] | Some s => s end) as [secret|] eqn:Ed; cbn [mbind option_bind].
  - split.
    + split; [done|]. intros [?|[?|Hd]]; [done..|]. by rewrite Hd in Ed.
    + intros keys [= <-]. exists enc, int, secret. cbn [encr_i integ_i encr_r integ_r].
      assert (secret = default [] (dh ≫= id)) as Hs by (destruct dh as [[?|]|]; cbn in *; congruence).
      split_and!; [done|done|exact Hs|]. intros Hn. unfold key_stream.
      assert (forall d, length (prf_fun p (skd this) d) = prf_block_size p) as Hlen by (intros; apply prf_length).
      rewrite !app_assoc. rewrite <- (PrfPlus.stream_bytes_app true _ _ (prf_block_size p) Hlen Hb 0).
      rewrite <- (PrfPlus.stream_bytes_app true _ _ (prf_block_size p) Hlen Hb 0).
      rewrite <- (PrfPlus.stream_bytes_app true _ _ (prf_block_size p) Hlen Hb 0).
      pose proof (key_stream_T p (skd this) (secret ++ nonce_i ++ nonce_r) 0 _ Hb Hn) as Hk.
      unfold key_stream in Hk. rewrite drop_0 in Hk. rewrite <- app_assoc. exact Hk.
  - split; [|done]. split; [|done]. intros _. right. right. destruct dh as [[?|]|]; done.
Qed.

(** ** Witnesses *)
Import Toy.

#[local] Instance toy_aead_key_size : AeadKeySize toy_aead := { aead_key_size := AeadWrapper.get_key_size }.

Abbreviation toy_factory_t := (ike_factory toy_aead toy_crypter toy_signer nat (MacPrf.private_prf toy_mac)).

(** AES-CBC, HMAC-SHA2-256 and its PRF stand for the example algorithms; [r] seeds the
    generators of an end. *)
Definition toy_factory (r : nat) : toy_factory_t :=
  IkeFactory (fun _ _ _ => None)
    (fun alg n => if alg =? 12 then Some (ToyCrypter 4 8 (replicate n 0)) else None)
    (fun alg => if alg =? 12 then Some (MacSigner.mac_signer_create toy_hmac 3) else None)
    (fun alg => if alg =? 5 then Some (MacPrf.mac_prf_create toy_hmac) else None) (Some r) (Some r).

Lemma toy_interoperable r r' : interoperable (toy_factory r) (toy_factory r').
Proof.
  constructor; cbn.
  - intros alg p [Hp|Hp]; destruct (alg =? 5); try done; injection Hp as <-; cbn; lia.
  - intros alg p q Hp Hq. destruct (alg =? 5); [|done]. by injection Hp as <-; injection Hq as <-.
  - done.
  - intros alg n a b Ha Hb. destruct (alg =? 12); [|done]. injection Ha as <-. injection Hb as <-. split; [done|].
    intros k a' b' [= <-] [= <-]. by eexists.
  - intros alg a b Ha Hb. destruct (alg =? 12); [|done]. injection Ha as <-. injection Hb as <-. split; [done|].
    intros k a' b' Ha Hb. unfold MacSigner.set_key in *. destruct (mac_keyed toy_hmac k) as (m' & E & Hv).
    change (mac_set_key toy_hmac k) with (Hmac.set_key toy_hmac k) in E. cbn in *.
    rewrite E in Ha, Hb. injection Ha as <-. injection Hb as <-.
    eexists _, _. split; by apply ms_view_intro; [exact Hv|cbn; lia].
Qed.

Definition toy_suite : proposal :=
  Proposal PROTO_IKE [Entry ENCRYPTION_ALGORITHM 12 128; Entry PSEUDO_RANDOM_FUNCTION 5 0;
                      Entry INTEGRITY_ALGORITHM 12 0; Entry DIFFIE_HELLMAN_GROUP 14 0] 0 1.

Definition toy_ike_id : ike_sa_id_t := IkeSaId 1 2 true.

Abbreviation toy_derive r init :=
  (derive_ike_keys (toy_factory r) (fun n => replicate n 0) (keymat_v2_create init) toy_suite (Some [9; 8; 7])
    [1; 2; 3] [4; 5; 6] toy_ike_id PRF_UNDEFINED []).

Definition toy_keymat (r : nat) (init : bool) : keymat_v2 (esp_aead toy_aead toy_crypter toy_signer nat) (MacPrf.private_prf toy_mac) :=
  default (keymat_v2_create init) (snd <$> toy_derive r init).

Lemma toy_derive_succeeds r init : toy_derive r init = Some (true, toy_keymat r init).
Proof. destruct init; vm_compute; reflexivity. Qed.

Lemma ike_keys_rfc7296_witness : exists this kk,
  toy_derive 3 true = Some (true, this) /\ holds_keys this true 5 (MacPrf.mac_prf_create toy_hmac) kk.
Proof.
  destruct (ike_keys_rfc7296 (toy_factory 3) (fun n => replicate n 0) true toy_suite 5 0 (MacPrf.mac_prf_create toy_hmac)
    (MacPrf.mac_prf_create toy_hmac) PRF_UNDEFINED [9; 8; 7] [1; 2; 3] [4; 5; 6] toy_ike_id [])
    as [(this & E & Hk) _]; [vm_compute; reflexivity|reflexivity|discriminate|cbn; lia|].
  pose proof (toy_derive_succeeds 3 true) as E'. rewrite E in E'.
  destruct (ike_keys_of (toy_factory 3) toy_suite 5 _ _ _ _ _ _ _ _) as [kk|]; [|discriminate E'].
  exists this, kk. split; [exact E|]. apply Hk. reflexivity.
Defined.

Lemma ike_keys_agree_witness :
  in_step (toy_keymat 3 true) (toy_keymat 4 false) /\
  exists keys ki kr, derive_child_keys (toy_keymat 3 true) toy_suite None [1] [2] = Some (keys, ki) /\
    derive_child_keys (toy_keymat 4 false) toy_suite None [1] [2] = Some (keys, kr).
Proof.
  destruct (ike_keys_agree (toy_factory 3) (toy_factory 4) (fun n => replicate n 0) (fun n => replicate n 0)
    (toy_keymat 3 true) (toy_keymat 4 false) toy_suite toy_suite [9; 8; 7] [1; 2; 3] [4; 5; 6] toy_ike_id PRF_UNDEFINED []
    (toy_interoperable 3 4)) as (H1 & _ & _ & H2).
  - intros t _. destruct (decide (t = DIFFIE_HELLMAN_GROUP)); reflexivity.
  - exact (toy_derive_succeeds 3 true).
  - exact (toy_derive_succeeds 4 false).
  - split; [exact H1|]. apply H2. intros t _. destruct (decide (t = DIFFIE_HELLMAN_GROUP)); reflexivity.
Defined.

Lemma child_keys_rfc7296_witness : exists this,
  derive_child_keys (toy_keymat 3 true) toy_suite (Some (Some [5])) [1] [2] =
    Some (child_keys_of (prf_fun (MacPrf.mac_prf_create toy_hmac)) (skd (toy_keymat 3 true)) toy_suite (Some (Some [5])) [1] [2], this) /\
  get_skd this = get_skd (toy_keymat 3 true).
Proof.
  destruct (child_keys_rfc7296 (toy_keymat 3 true) (MacPrf.mac_prf_create toy_hmac) toy_suite (Some (Some [5])) [1] [2])
    as (this & E & _ & Hd & _).
  - eexists. split; [vm_compute; reflexivity|]. split; reflexivity.
  - cbn. lia.
  - exists this. split; [exact E|exact Hd].
Defined.
