(* ===== verification/IkeSession.v ===== *)
(** From the configurations of the two ends to protected messages: the negotiation of the
    algorithms ([ProposalConfig]), the keys derived for them ([Keymat]) and the messages
    that are exchanged under these keys ([MessageRoundtrip]). *)
From S2P Require Import Prelude Memory Chunk Crypto EspContext Payloads Codec CodecParser CodecGenerator PayloadVerify CodecTyping.
From S2P Require Import MessageRules EncryptedPayload Message PayloadChain MessageOrder MessageRoundtrip Prf Proposal ProposalConfig Keymat.
From stdpp Require Import base numbers list option.
From Stdlib Require Import Lia ZArith.
Local Open Scope Z_scope.

(** [get_aead] as the messages use it. *)
Definition keymat_of {A F} (k : keymat_v2 A F) : keymat A := Message.Keymat (km_aead_in k) (km_aead_out k).

Section Session.
Context {P C S R F : Type} `{AeadLaws P} `{AeadKeySize P} `{CrypterLaws C} `{SignerLaws S} `{RngLaws R} `{PrfLaws F}.
Abbreviation aead := (esp_aead P C S R).
Abbreviation keymat_t := (keymat_v2 aead F).

(** What is sent under the keys [k] is understood under the keys [k']: every consistent
    message is generated, given an IV and random padding, and is parsed back to the same
    exchange, message ID, IKE_SA and payloads. *)
Definition delivers (k k' : keymat_t) : Prop :=
  exists a v, km_aead_out k = Some a /\ ae_view a = Some v /\
  forall junk accept_mm src dst m r id ps (rng : option R),
    ready_to_send m r id ps v -> verify_rules (mr_rules r) (payloads m) false = SUCCESS ->
    exists status m' k1 rng', generate junk m (Some (keymat_of k)) rng = Some (status, m', k1, rng') /\
      (supplied a v rng (u64 (Z.shiftl (message_id m) 32)) -> status = SUCCESS) /\
      (status = SUCCESS -> exists m1 m2 k2 qs,
        parse_header (message_create_from_packet src dst (data m')) = Some (SUCCESS, m1) /\
        parse_body accept_mm m1 (Some (keymat_of k')) = Some (SUCCESS, m2, k2) /\
        payloads m2 = ordinary <$> qs /\ similar qs (payloads_of (in_order m r (payloads m))) /\
        exchange_type m2 = exchange_type m /\ is_request m2 = is_request m /\
        message_id m2 = message_id m /\ ike_sa_id m2 = Some id).

Lemma ends_deliver (k k' : keymat_t) a b :
  km_aead_out k = Some a -> km_aead_in k' = Some b -> same_ends a b -> delivers k k'.
Proof.
  intros Ha Hb (v & Va & Vb). exists a, v. split; [done|]. split; [done|].
  intros junk accept_mm src dst m r id ps rng Hr Hv.
  destruct (message_roundtrip junk accept_mm src dst m r id ps v (keymat_of k) (keymat_of k') a b rng Hr Hv Ha Va Hb Vb)
    as (st & m' & k1 & rng' & E & Hs & Hp).
  exists st, m', k1, rng'. split; [exact E|]. split; [exact Hs|]. intros Hst.
  destruct (Hp Hst) as (m1 & m2 & k2 & qs & E1 & E2 & E3 & E4 & _ & E5).
  exists m1, m2, k2, qs. split_and!; first [done | apply E5].
Qed.

(** C5: when a responder selects one of the proposals of an initiator, the initiator accepts the
    reply; if both then derive keys for what they selected from the same secret, nonces and
    SPIs, the messages of each are understood by the other. *)
Theorem negotiated_session (f g : ike_factory P C S R F) initiator_cfg responder_cfg priv pf pf' sel v :
  interoperable f g -> Forall wf initiator_cfg -> Forall wf responder_cfg ->
  IkeCfg.select_proposal responder_cfg (IkeCfg.get_proposals initiator_cfg) priv pf = Some sel ->
  exists sel', IkeCfg.select_proposal initiator_cfg [set_spi sel v] priv pf' = Some sel' /\
    forall junk junk' secret nonce_i nonce_r id rekey_function rekey_skd ki kr,
      derive_ike_keys f junk (keymat_v2_create true) sel' (Some secret) nonce_i nonce_r id rekey_function rekey_skd = Some (true, ki) ->
      derive_ike_keys g junk' (keymat_v2_create false) sel (Some secret) nonce_i nonce_r id rekey_function rekey_skd = Some (true, kr) ->
      delivers ki kr /\ delivers kr ki.
Proof.
  intros Hio Hi Hr Hsel. rewrite get_proposals_id in Hsel.
  destruct (lists_agree _ _ initiator_cfg priv pf pf' sel v Hr Hi (reflexivity _) Hsel) as (sel' & E & Hc & _).
  exists sel'. split; [exact E|]. intros junk junk' secret ni nr id rf rskd ki kr Ei Er.
  destruct (derive_in_step f g junk junk' ki kr sel' sel secret ni nr id rf rskd Hio Hc Ei Er)
    as [(a & b & Ha & Hb & Hab) (a' & b' & Ha' & Hb' & (v' & Va & Vb)) _ _ _ _].
  split; [by eapply ends_deliver|]. eapply ends_deliver; [exact Hb'|exact Ha'|]. by exists v'.
Qed.
End Session.

(** ** Witness *)

Lemma toy_negotiated pf :
  IkeCfg.select_proposal [toy_suite] [set_spi toy_suite 0] false pf = Some toy_suite /\
  IkeCfg.select_proposal [toy_suite] (IkeCfg.get_proposals [toy_suite]) false pf = Some toy_suite.
Proof. destruct pf; split; vm_compute; reflexivity. Qed.

Lemma negotiated_session_witness :
  delivers (toy_keymat 3 true) (toy_keymat 4 false) /\ delivers (toy_keymat 4 false) (toy_keymat 3 true).
Proof.
  destruct (negotiated_session (toy_factory 3) (toy_factory 4) [toy_suite] [toy_suite] false true false toy_suite 0
    (toy_interoperable 3 4) ltac:(repeat constructor; cbn; lia) ltac:(repeat constructor; cbn; lia)
    (proj2 (toy_negotiated true))) as (sel' & E & Hk).
  rewrite (proj1 (toy_negotiated false)) in E. injection E as <-.
  exact (Hk _ _ _ _ _ _ _ _ _ _ (toy_derive_succeeds 3 true) (toy_derive_succeeds 4 false)).
Defined.
