(* ===== verification/TaskManager.v ===== *)
(** The exchanges of an IKEv2 IKE_SA: [src/libcharon/sa/ikev2/task_manager_v2.c], and what it
    uses of [src/libcharon/sa/ike_sa.c].  The task manager runs tasks over request and
    response messages, retransmits requests, answers retransmitted ones and keeps the
    message IDs.

    A task is a pointer; the objects tasks point to and everything of the daemon the tasks
    work on is the [world], and [Tasks] is the interface of [src/libcharon/sa/task.h].  Tasks
    are given the IKE_SA, so they may change anything of it, the task manager included.
    What the operations do to the rest of the daemon is in the [log].  The code is built
    without the mediation extension ([ME]). *)
From S2P Require Import Prelude Chunk Host EspPacket Scheduler Crypto Payloads Codec PayloadVerify.
From S2P Require Import MessageRules EncryptedPayload Message Defragment.
From stdpp Require Import base numbers list option strings.
From Stdlib Require Import Lia ZArith.
Local Open Scope Z_scope.

(** ** Constants *)

Inductive task_type_t :=
  | TASK_IKE_INIT | TASK_IKE_NATD | TASK_IKE_MOBIKE | TASK_IKE_AUTH | TASK_IKE_AUTH_LIFETIME
  | TASK_IKE_CERT_PRE | TASK_IKE_CERT_POST | TASK_IKE_CONFIG | TASK_IKE_REKEY | TASK_IKE_REAUTH
  | TASK_IKE_REAUTH_COMPLETE | TASK_IKE_REDIRECT | TASK_IKE_VERIFY_PEER_CERT | TASK_IKE_MID_SYNC
  | TASK_IKE_DELETE | TASK_IKE_DPD | TASK_IKE_VENDOR
  | TASK_CHILD_CREATE | TASK_CHILD_DELETE | TASK_CHILD_REKEY
  | TASK_MAIN_MODE | TASK_AGGRESSIVE_MODE | TASK_INFORMATIONAL | TASK_ISAKMP_DELETE | TASK_XAUTH
  | TASK_MODE_CONFIG | TASK_QUICK_MODE | TASK_QUICK_DELETE | TASK_ISAKMP_VENDOR | TASK_ISAKMP_NATD
  | TASK_ISAKMP_DPD | TASK_ISAKMP_CERT_PRE | TASK_ISAKMP_CERT_POST.

#[export] Instance task_type_eq_dec : EqDecision task_type_t.
Proof. solve_decision. Defined.

Inductive task_queue_t := TASK_QUEUE_ACTIVE | TASK_QUEUE_PASSIVE | TASK_QUEUE_QUEUED.

#[export] Instance task_queue_eq_dec : EqDecision task_queue_t.
Proof. solve_decision. Defined.

Inductive ike_sa_state_t :=
  | IKE_CREATED | IKE_CONNECTING | IKE_ESTABLISHED | IKE_PASSIVE | IKE_REKEYING | IKE_REKEYED
  | IKE_DELETING | IKE_DESTROYING.

#[export] Instance ike_sa_state_eq_dec : EqDecision ike_sa_state_t.
Proof. solve_decision. Defined.

Definition EXT_MOBIKE : Z := Z.shiftl 1 1.
Definition EXT_MS_WINDOWS : Z := Z.shiftl 1 6.
Definition EXT_IKE_FRAGMENTATION : Z := Z.shiftl 1 11.
Definition EXT_IKE_MESSAGE_ID_SYNC : Z := Z.shiftl 1 14.
Definition COND_NAT_HERE : Z := Z.shiftl 1 1.
Definition COND_NAT_THERE : Z := Z.shiftl 1 2.
Definition COND_ORIGINAL_INITIATOR : Z := Z.shiftl 1 6.
Definition COND_STALE : Z := Z.shiftl 1 7.
Definition COND_ONLINE_VALIDATION_SUSPENDED : Z := Z.shiftl 1 12.

Definition UNSUPPORTED_CRITICAL_PAYLOAD : Z := 1.
Definition INVALID_SYNTAX : Z := 7.
Definition NO_PROPOSAL_CHOSEN : Z := 14.
Definition AUTHENTICATION_FAILED : Z := 24.
Definition REKEY_SA : Z := 16393.
Definition AUTH_LIFETIME : Z := 16403.
Definition REDIRECT : Z := 16407.
Definition IKEV2_MESSAGE_ID_SYNC : Z := 16422.
Definition IPSEC_REPLAY_COUNTER_SYNC : Z := 16423.

(** [ADDITIONAL_IP4_ADDRESS], [ADDITIONAL_IP6_ADDRESS], [NO_ADDITIONAL_ADDRESSES],
    [UPDATE_SA_ADDRESSES], [NO_NATS_ALLOWED], [UNACCEPTABLE_ADDRESSES],
    [UNEXPECTED_NAT_DETECTED], [COOKIE2], [NAT_DETECTION_SOURCE_IP] and
    [NAT_DETECTION_DESTINATION_IP]. *)
Definition mobike_notifies : list Z := [16397; 16398; 16399; 16400; 16402; 40; 41; 16401; 16388; 16389].

Definition ROUTEABILITY_CHECK_INTERVAL : Z := 2500.
Definition ROUTEABILITY_CHECK_TRIES : Z := 10.
Definition UINT_MAX : Z := 2 ^ 32 - 1.

(** ** Messages *)

Definition set_message_id (m : message) (mid : Z) : message :=
  set_header m (major_version m) (minor_version m) (first_payload m) (exchange_type m) (is_request m)
    (is_encrypted m) (reserved m) mid (ike_sa_id m).

Definition set_exchange_type (m : message) (exchange : Z) : message :=
  set_header m (major_version m) (minor_version m) (first_payload m) exchange (is_request m)
    (is_encrypted m) (reserved m) (message_id m) (ike_sa_id m).

Definition set_request (m : message) (request : bool) : message :=
  set_header m (major_version m) (minor_version m) (first_payload m) (exchange_type m) request
    (is_encrypted m) (reserved m) (message_id m) (ike_sa_id m).

Definition set_ike_sa_id (m : message) (id : ike_sa_id_t) : message :=
  set_header m (major_version m) (minor_version m) (first_payload m) (exchange_type m) (is_request m)
    (is_encrypted m) (reserved m) (message_id m) (Some id).

(** [notify_payload_create], [set_notify_type] and [set_notification_data]. *)
Definition notify_create (t : payload_type_t) (type : Z) (d : chunk) : payload :=
  let p := assign (assign (payload_create t) "notify_type" (FInt type)) "notify_data" (FChunk d) in
  assign p "payload_length" (FInt (u16 (Payloads.get_header_length p + Z.of_nat (length d)))).

Definition add_notify (m : message) (flush : bool) (type : Z) (d : chunk) : message :=
  let m := if flush then set_payloads m [] else m in
  add_payload m (ordinary (notify_create (if major_version m =? 2 then PLV2_NOTIFY else PLV1_NOTIFY) type d)).

Definition notify_type (o : object) : Z := int_field (o_p o) "notify_type".

Definition get_notify (m : message) (type : Z) : option object :=
  find (fun o => (bool_decide (object_type o = PLV2_NOTIFY) || bool_decide (object_type o = PLV1_NOTIFY))
                 && (notify_type o =? type)) (payloads m).

(** ** The IKE_SA and its task manager *)

Abbreviation packet := Packet.packet.

Inductive job_t :=
  | retransmit_job (message_id : Z) (id : ike_sa_id_t)
  | delete_ike_sa_job (id : ike_sa_id_t) (delete_if_established : bool)
  | initiate_tasks_job (id : ike_sa_id_t).

Inductive alert_t :=
  | ALERT_RETRANSMIT_SEND (p : packet) (n : Z)
  | ALERT_RETRANSMIT_SEND_CLEARED (p : option packet)
  | ALERT_RETRANSMIT_SEND_TIMEOUT (p : packet)
  | ALERT_RETRANSMIT_RECEIVE (m : message)
  | ALERT_PARSE_ERROR_BODY (m : message) (status : status_t).

(** Calls of the sender, the bus and the scheduler. *)
Inductive event_t :=
  | Sent (p : packet)
  | BusMessage (m : message) (incoming plain : bool)
  | IkeUpdown (up : bool)
  | IkeUpdate (local : bool) (h : host)
  | Alert (a : alert_t)
  | ScheduleMs (j : job_t) (ms : Z)
  | ScheduleTv (j : job_t) (tv : timeval)
  | ScheduleHalfOpen (j : job_t).

Inductive fragmentation_t := FRAGMENTATION_NO | FRAGMENTATION_ACCEPT | FRAGMENTATION_YES | FRAGMENTATION_FORCE.

Record ike_cfg_t := IkeCfg { fragmentation : fragmentation_t; cfg_dscp : Z }.

Record peer_cfg_t := PeerCfg { peer_ike_cfg : ike_cfg_t; use_mobike : bool }.

Section Objects.
Context {T W A R : Type}.

Record queued_task_t := Queued { q_task : T; q_time : timeval }.

(** The exchange handled as responder. *)
Record responding_t := Responding {
  r_mid : Z;
  r_packets : list packet;
  r_defrag : option message;
}.

(** The exchange handled as initiator. *)
Record initiating_t := Initiating {
  i_mid : Z;
  retransmitted : Z;
  i_packets : list packet;
  i_type : Z;
  deferred : bool;
  i_defrag : option message;
}.

(** [retransmit_delay] is [retransmit_timeout * 1000.0 * pow(retransmit_base, n)] as an
    unsigned integer. *)
Record task_manager := TaskManager {
  responding : responding_t;
  initiating : initiating_t;
  queued_tasks : list queued_task_t;
  active_tasks : list T;
  passive_tasks : list T;
  was_reset : bool;
  retransmit_tries : Z;
  retransmit_delay : Z -> Z;
  retransmit_jitter : Z;
  retransmit_limit : Z;
  make_before_break : bool;
}.

Record ike_sa := IkeSa {
  sa_version : Z;
  sa_state : ike_sa_state_t;
  sa_id : ike_sa_id_t;
  extensions : Z;
  conditions : Z;
  my_host : host;
  other_host : host;
  ike_cfg : option ike_cfg_t;
  peer_cfg : option peer_cfg_t;
  fragment_size : Z;
  sa_keymat : keymat A;
  sa_rng : option R;
  stat_inbound : Z;
  stat_outbound : Z;
  flush_auth_cfg : bool;
  tm : task_manager;
  world : W;
  log : list event_t;
}.

(** *** Updates *)

Definition with_tm (s : ike_sa) (t : task_manager) : ike_sa :=
  IkeSa (sa_version s) (sa_state s) (sa_id s) (extensions s) (conditions s) (my_host s) (other_host s) (ike_cfg s)
    (peer_cfg s) (fragment_size s) (sa_keymat s) (sa_rng s) (stat_inbound s) (stat_outbound s) (flush_auth_cfg s)
    t (world s) (log s).

Definition with_world (s : ike_sa) (w : W) : ike_sa :=
  IkeSa (sa_version s) (sa_state s) (sa_id s) (extensions s) (conditions s) (my_host s) (other_host s) (ike_cfg s)
    (peer_cfg s) (fragment_size s) (sa_keymat s) (sa_rng s) (stat_inbound s) (stat_outbound s) (flush_auth_cfg s)
    (tm s) w (log s).

Definition emit (s : ike_sa) (e : event_t) : ike_sa :=
  IkeSa (sa_version s) (sa_state s) (sa_id s) (extensions s) (conditions s) (my_host s) (other_host s) (ike_cfg s)
    (peer_cfg s) (fragment_size s) (sa_keymat s) (sa_rng s) (stat_inbound s) (stat_outbound s) (flush_auth_cfg s)
    (tm s) (world s) (log s ++ [e]).

Definition with_keys (s : ike_sa) (k : keymat A) (rng : option R) : ike_sa :=
  IkeSa (sa_version s) (sa_state s) (sa_id s) (extensions s) (conditions s) (my_host s) (other_host s) (ike_cfg s)
    (peer_cfg s) (fragment_size s) k rng (stat_inbound s) (stat_outbound s) (flush_auth_cfg s)
    (tm s) (world s) (log s).

Definition with_hosts (s : ike_sa) (me other : host) : ike_sa :=
  IkeSa (sa_version s) (sa_state s) (sa_id s) (extensions s) (conditions s) me other (ike_cfg s)
    (peer_cfg s) (fragment_size s) (sa_keymat s) (sa_rng s) (stat_inbound s) (stat_outbound s) (flush_auth_cfg s)
    (tm s) (world s) (log s).

Definition with_stats (s : ike_sa) (inb outb : Z) : ike_sa :=
  IkeSa (sa_version s) (sa_state s) (sa_id s) (extensions s) (conditions s) (my_host s) (other_host s) (ike_cfg s)
    (peer_cfg s) (fragment_size s) (sa_keymat s) (sa_rng s) inb outb (flush_auth_cfg s)
    (tm s) (world s) (log s).

Definition with_ike_cfg (s : ike_sa) (c : option ike_cfg_t) : ike_sa :=
  IkeSa (sa_version s) (sa_state s) (sa_id s) (extensions s) (conditions s) (my_host s) (other_host s) c
    (peer_cfg s) (fragment_size s) (sa_keymat s) (sa_rng s) (stat_inbound s) (stat_outbound s) (flush_auth_cfg s)
    (tm s) (world s) (log s).

Definition with_id (s : ike_sa) (id : ike_sa_id_t) : ike_sa :=
  IkeSa (sa_version s) (sa_state s) id (extensions s) (conditions s) (my_host s) (other_host s) (ike_cfg s)
    (peer_cfg s) (fragment_size s) (sa_keymat s) (sa_rng s) (stat_inbound s) (stat_outbound s) (flush_auth_cfg s)
    (tm s) (world s) (log s).

(** The flags: conditions and [flush_auth_cfg]. *)
Definition with_flags (s : ike_sa) (c : Z) (flush : bool) : ike_sa :=
  IkeSa (sa_version s) (sa_state s) (sa_id s) (extensions s) c (my_host s) (other_host s) (ike_cfg s)
    (peer_cfg s) (fragment_size s) (sa_keymat s) (sa_rng s) (stat_inbound s) (stat_outbound s) flush
    (tm s) (world s) (log s).

Definition with_exchanges (t : task_manager) (r : responding_t) (i : initiating_t) : task_manager :=
  TaskManager r i (queued_tasks t) (active_tasks t) (passive_tasks t) (was_reset t) (retransmit_tries t)
    (retransmit_delay t) (retransmit_jitter t) (retransmit_limit t) (make_before_break t).

Definition with_tasks (t : task_manager) (q : list queued_task_t) (a p : list T) : task_manager :=
  TaskManager (responding t) (initiating t) q a p (was_reset t) (retransmit_tries t)
    (retransmit_delay t) (retransmit_jitter t) (retransmit_limit t) (make_before_break t).

Definition with_reset (t : task_manager) (b : bool) : task_manager :=
  TaskManager (responding t) (initiating t) (queued_tasks t) (active_tasks t) (passive_tasks t) b (retransmit_tries t)
    (retransmit_delay t) (retransmit_jitter t) (retransmit_limit t) (make_before_break t).

Definition set_responding (s : ike_sa) (r : responding_t) : ike_sa :=
  with_tm s (with_exchanges (tm s) r (initiating (tm s))).

Definition set_initiating (s : ike_sa) (i : initiating_t) : ike_sa :=
  with_tm s (with_exchanges (tm s) (responding (tm s)) i).

Definition set_queued (s : ike_sa) (l : list queued_task_t) : ike_sa :=
  with_tm s (with_tasks (tm s) l (active_tasks (tm s)) (passive_tasks (tm s))).

Definition set_active (s : ike_sa) (l : list T) : ike_sa :=
  with_tm s (with_tasks (tm s) (queued_tasks (tm s)) l (passive_tasks (tm s))).

Definition set_passive (s : ike_sa) (l : list T) : ike_sa :=
  with_tm s (with_tasks (tm s) (queued_tasks (tm s)) (active_tasks (tm s)) l).

Definition set_r_mid (s : ike_sa) (mid : Z) : ike_sa :=
  let r := responding (tm s) in set_responding s (Responding mid (r_packets r) (r_defrag r)).
Definition set_r_packets (s : ike_sa) (l : list packet) : ike_sa :=
  let r := responding (tm s) in set_responding s (Responding (r_mid r) l (r_defrag r)).
Definition set_r_defrag (s : ike_sa) (d : option message) : ike_sa :=
  let r := responding (tm s) in set_responding s (Responding (r_mid r) (r_packets r) d).
Definition set_i_mid (s : ike_sa) (mid : Z) : ike_sa :=
  let i := initiating (tm s) in
  set_initiating s (Initiating mid (retransmitted i) (i_packets i) (i_type i) (deferred i) (i_defrag i)).
Definition set_i_packets (s : ike_sa) (l : list packet) : ike_sa :=
  let i := initiating (tm s) in
  set_initiating s (Initiating (i_mid i) (retransmitted i) l (i_type i) (deferred i) (i_defrag i)).
Definition set_i_type (s : ike_sa) (type : Z) : ike_sa :=
  let i := initiating (tm s) in
  set_initiating s (Initiating (i_mid i) (retransmitted i) (i_packets i) type (deferred i) (i_defrag i)).
Definition set_i_defrag (s : ike_sa) (d : option message) : ike_sa :=
  let i := initiating (tm s) in
  set_initiating s (Initiating (i_mid i) (retransmitted i) (i_packets i) (i_type i) (deferred i) d).
Definition set_tries (s : ike_sa) (n : Z) (defer : bool) : ike_sa :=
  let i := initiating (tm s) in
  set_initiating s (Initiating (i_mid i) n (i_packets i) (i_type i) defer (i_defrag i)).
End Objects.
Arguments queued_task_t T : clear implicits.
Arguments task_manager T : clear implicits.
Arguments ike_sa T W A R : clear implicits.

(** ** Interfaces *)

(** The constructors of the tasks, with [initiator] where they have it.  Configurations and
    selectors are pointers. *)
Inductive task_create :=
  | ike_vendor_create (initiator : bool) | ike_init_create (initiator : bool) | ike_natd_create (initiator : bool)
  | ike_cert_pre_create (initiator : bool) | ike_auth_create (initiator : bool) | ike_cert_post_create (initiator : bool)
  | ike_config_create (initiator : bool) | ike_auth_lifetime_create (initiator : bool)
  | ike_mobike_create (initiator : bool) | ike_rekey_create (initiator : bool) | ike_reauth_create
  | ike_delete_create (initiator : bool) | ike_dpd_create (initiator : bool) | ike_redirect_create
  | ike_mid_sync_create | child_create_create (cfg tsi tsr : option nat)
  | child_rekey_create (protocol spi : Z) | child_delete_create (protocol spi : Z) (expired : bool).

(** [task_t], the methods of particular tasks the manager calls, and the constructors.
    A message is changed in place; [None] is undefined behaviour. *)
Class Tasks (T W A R : Type) := {
  task_type : T -> task_type_t;
  build : T -> message -> ike_sa T W A R -> option (status_t * message * ike_sa T W A R);
  process : T -> message -> ike_sa T W A R -> option (status_t * message * ike_sa T W A R);
  pre_process : T -> option (message -> ike_sa T W A R -> option (status_t * message * ike_sa T W A R));
  migrate : T -> ike_sa T W A R -> ike_sa T W A R;
  destroy : T -> ike_sa T W A R -> ike_sa T W A R;
  create : task_create -> ike_sa T W A R -> T * ike_sa T W A R;
  collide : T -> T -> ike_sa T W A R -> ike_sa T W A R;
  is_probing : T -> ike_sa T W A R -> bool;
  transmit : T -> packet -> ike_sa T W A R -> bool * ike_sa T W A R;
  enable_probing : T -> ike_sa T W A R -> ike_sa T W A R;
  mobike_roam : T -> bool -> ike_sa T W A R -> ike_sa T W A R;
  mobike_addresses : T -> ike_sa T W A R -> ike_sa T W A R;
  mobike_dpd : T -> ike_sa T W A R -> ike_sa T W A R;
  use_reqid : T -> Z -> ike_sa T W A R -> ike_sa T W A R;
}.

(** The rest of the daemon: the clock, the listeners of the bus, who may alter messages, the
    configuration backends, the CHILD_SAs to update and the authentication data of the IKE_SA, the random part of
    the retransmission timeout, reauthentication on a new IKE_SA, settings, and the memory
    the generator writes to. *)
Class Daemon (T W A R : Type) := {
  time_monotonic : W -> timeval;
  bus_message : message -> bool -> bool -> W -> message * W;
  get_ike_cfg : option host -> option host -> W -> option ike_cfg_t;
  update_child_sas : ike_sa T W A R -> ike_sa T W A R;
  flush_auth_cfgs : W -> W;
  apply_jitter : Z -> Z -> W -> Z * W;
  trigger_mbb_reauth : ike_sa T W A R -> ike_sa T W A R;
  max_packet : Z;
  accept_mm : bool;
  junk : nat -> Z;
}.

Section Operations.
Context {T W A R : Type} `{Aead A} `{Rng R} `{Tasks T W A R} `{Daemon T W A R}.
Abbreviation sa := (ike_sa T W A R).

(** ** The IKE_SA *)

Definition supports_extension (s : sa) (extension : Z) : bool := negb (Z.land (extensions s) extension =? 0).

Definition has_condition (s : sa) (condition : Z) : bool := negb (Z.land (conditions s) condition =? 0).

(** [charon->bus->message]: the listeners see the message and may alter it. *)
Definition bus (m : message) (incoming plain : bool) (s : sa) : message * sa :=
  let '(m', w) := bus_message m incoming plain (world s) in
  (m', with_world (emit s (BusMessage m incoming plain)) w).

Definition now (s : sa) : timeval := time_monotonic (world s).

(** The IKE config of the peer config is preferred. *)
Definition set_dscp (s : sa) (p : packet) : packet :=
  match (match peer_cfg s with Some c => Some (peer_ike_cfg c) | None => ike_cfg s end) with
  | Some c => Packet.set_dscp p (cfg_dscp c)
  | None => p
  end.

(** [get_packet]: a clone of the packet of the message. *)
Definition get_packet (m : message) : packet :=
  Packet.clone (Packet.packet_create_from_data (source m) (destination m) (data m)).

Definition keymat_after (s : sa) (k : option (keymat A)) : keymat A :=
  match k with Some k => k | None => sa_keymat s end.

(** [generate_message] of the IKE_SA. *)
Definition sa_generate_message (m : message) (s : sa) : option (status_t * option packet * message * sa) :=
  if is_encoded m then Some (SUCCESS, Some (set_dscp s (get_packet m)), m, s)
  else
    let s := with_stats s (stat_inbound s) (tv_sec (now s)) in
    let m := set_ike_sa_id m (sa_id s) in
    let '(m, s) := bus m false true s in
    '(status, m, k, rng) ← generate junk m (Some (sa_keymat s)) (sa_rng s);
    let s := with_keys s (keymat_after s k) rng in
    if bool_decide (status = SUCCESS) then
      let p := set_dscp s (get_packet m) in
      let '(m, s) := bus m false false s in
      Some (SUCCESS, Some p, m, s)
    else Some (status, None, m, s).

Definition use_fragments (m : message) (s : sa) : bool :=
  match ike_cfg s with
  | None => false
  | Some c =>
    match fragmentation c with
    | FRAGMENTATION_FORCE => true
    | FRAGMENTATION_YES =>
      let use_frags := supports_extension s EXT_IKE_FRAGMENTATION in
      if use_frags && (sa_version s =? 1) && supports_extension s EXT_MS_WINDOWS
      then bool_decide (get_payload m PLV1_CERTIFICATE <> None)
      else use_frags
    | _ => false
    end
  end.

Definition generate_message_fragmented (m : message) (s : sa) : option (status_t * list packet * sa) :=
  if negb (use_fragments m s) then
    '(status, p, _, s) ← sa_generate_message m s;
    Some (status, option_list p, s)
  else
    let pre_generated := is_encoded m in
    let s := with_stats s (stat_inbound s) (tv_sec (now s)) in
    let m := set_ike_sa_id m (sa_id s) in
    let ms := if pre_generated then (m, s) else bus m false true s in
    let s := snd ms in
    '(status, m, k, rng, ds) ← fragment junk (fst ms) (Some (sa_keymat s)) (sa_rng s) (fragment_size s);
    let s := with_keys s (keymat_after s k) rng in
    let fragments := Packet.packet_create_from_data (source m) (destination m) <$> (ds : list chunk) in
    if bool_decide (status = SUCCESS) then
      let s := if pre_generated then s else snd (bus m false false s) in
      Some (SUCCESS, (fun p => set_dscp s (Packet.clone p)) <$> (fragments : list packet), s)
    else Some (status, [], s).

(** Hosts that are not given are left alone; [update_child_sas] is the loop over the
    CHILD_SAs. *)
Definition update_hosts (s : sa) (me other : option host) (force : bool) : sa :=
  let me := match me with Some h => h | None => my_host s end in
  let other := match other with Some h => h | None => other_host s end in
  let '(update, s) :=
    if is_anyaddr (my_host s) || is_anyaddr (other_host s) then (true, with_hosts s me other)
    else
      let '(update, s) :=
        if force && negb (equals me (my_host s))
        then (true, with_hosts (emit s (IkeUpdate true me)) me (other_host s)) else (false, s) in
      if negb (equals other (other_host s)) && (force || has_condition s COND_NAT_THERE) &&
         (force || negb (has_condition s COND_NAT_HERE) || negb (has_condition s COND_ORIGINAL_INITIATOR))
      then (true, with_hosts (emit s (IkeUpdate false other)) (my_host s) other) else (update, s) in
  if update then update_child_sas s else s.

(** ** Tasks *)

Definition destroy_all (l : list T) (s : sa) : sa := fold_left (fun s t => destroy t s) l s.

(** The tail of the array first. *)
Definition flush_queue (queue : task_queue_t) (s : sa) : sa :=
  match queue with
  | TASK_QUEUE_ACTIVE => let l := active_tasks (tm s) in destroy_all (rev l) (set_active s [])
  | TASK_QUEUE_PASSIVE => let l := passive_tasks (tm s) in destroy_all (rev l) (set_passive s [])
  | TASK_QUEUE_QUEUED => let l := queued_tasks (tm s) in destroy_all (rev (q_task <$> l)) (set_queued s [])
  end.

Definition flush (s : sa) : sa :=
  flush_queue TASK_QUEUE_ACTIVE (flush_queue TASK_QUEUE_PASSIVE (flush_queue TASK_QUEUE_QUEUED s)).

(** The first task of that type which is not delayed. *)
Definition activatable (type : task_type_t) (s : sa) (q : queued_task_t T) : bool :=
  bool_decide (task_type (q_task q) = type) && (0 <=? timeval_cmp (now s) (q_time q)).

Definition activate_task (type : task_type_t) (s : sa) : bool * sa :=
  let l := queued_tasks (tm s) in
  match list_find (fun q => activatable type s q = true) l with
  | Some (i, q) => (true, set_active (set_queued s (delete i l)) (active_tasks (tm s) ++ [q_task q]))
  | None => (false, s)
  end.

(** ** Sending *)

Definition send_packets (l : list packet) (src dst : option host) (s : sa) : sa :=
  fold_left (fun s p =>
    let c := Packet.clone p in
    let c := match src with Some h => Packet.set_source c (Some h) | None => c end in
    let c := match dst with Some h => Packet.set_destination c (Some h) | None => c end in
    emit s (Sent c)) l s.

(** [generate_message] of the task manager: the packets to append to an array. *)
Definition tm_generate_message (m : message) (s : sa) : option (option (list packet) * sa) :=
  '(status, ps, s) ← generate_message_fragmented m s;
  Some (if bool_decide (status = SUCCESS) then Some ps else None, s).

(** The timeout of the next retransmission. *)
Definition retransmit_timeout (s : sa) : Z * sa :=
  let t := tm s in
  let timeout := u32 (retransmit_delay t (retransmitted (initiating t))) in
  let timeout := if retransmit_limit t =? 0 then timeout else Z.min timeout (retransmit_limit t) in
  if retransmit_jitter t =? 0 then (timeout, s)
  else let '(timeout, w) := apply_jitter timeout (retransmit_jitter t) (world s) in (timeout, with_world s w).

Definition schedule_retransmit (timeout : Z) (s : sa) : status_t * sa :=
  let s := set_tries s (u32 (retransmitted (initiating (tm s)) + 1)) (deferred (initiating (tm s))) in
  (SUCCESS, emit s (ScheduleMs (retransmit_job (i_mid (initiating (tm s))) (sa_id s)) timeout)).

(** There is no path: the exchange is deferred. *)
Definition defer_exchange (s : sa) : status_t * sa :=
  let s := with_flags s (Z.lor (conditions s) COND_STALE) (flush_auth_cfg s) in
  (SUCCESS, set_tries s (retransmitted (initiating (tm s))) true).

Definition retransmit (message_id : Z) (s : sa) : status_t * sa :=
  match i_packets (initiating (tm s)) with
  | [] => (SUCCESS, s)
  | packet :: _ =>
    if negb (message_id =? i_mid (initiating (tm s))) then (SUCCESS, s)
    else
      let n := retransmitted (initiating (tm s)) in
      let mobike := if i_type (initiating (tm s)) =? INFORMATIONAL
                    then find (fun t => bool_decide (task_type t = TASK_IKE_MOBIKE)) (active_tasks (tm s)) else None in
      match (match mobike with Some t => if is_probing t s then Some t else None | None => None end) with
      | None =>
        if n <=? retransmit_tries (tm s) then
          let '(timeout, s) := retransmit_timeout s in
          let s := if n =? 0 then s else emit s (Alert (ALERT_RETRANSMIT_SEND packet n)) in
          match mobike with
          | None =>
            schedule_retransmit timeout
              (send_packets (i_packets (initiating (tm s))) (Some (my_host s)) (Some (other_host s)) s)
          | Some t =>
            let '(sent, s) := transmit t packet s in
            if negb sent then defer_exchange s
            else schedule_retransmit (if is_probing t s then ROUTEABILITY_CHECK_INTERVAL else timeout) s
          end
        else (DESTROY_ME, emit s (Alert (ALERT_RETRANSMIT_SEND_TIMEOUT packet)))
      | Some t =>
        if n <=? ROUTEABILITY_CHECK_TRIES then
          let '(sent, s) := transmit t packet s in
          if negb sent then defer_exchange s else schedule_retransmit ROUTEABILITY_CHECK_INTERVAL s
        else (DESTROY_ME, s)
      end
  end.

(** ** Initiating *)

(** The first of the tasks that is queued is activated. *)
Fixpoint activate_first (l : list (task_type_t * Z)) (s : sa) : Z * sa :=
  match l with
  | [] => (0, s)
  | (type, exchange) :: l =>
    let '(found, s) := activate_task type s in
    if found then (exchange, s) else activate_first l s
  end.

Definition established_tasks : list (task_type_t * Z) :=
  [(TASK_IKE_MOBIKE, INFORMATIONAL); (TASK_IKE_DELETE, INFORMATIONAL); (TASK_IKE_REDIRECT, INFORMATIONAL);
   (TASK_CHILD_DELETE, INFORMATIONAL); (TASK_IKE_REAUTH, INFORMATIONAL); (TASK_CHILD_CREATE, CREATE_CHILD_SA);
   (TASK_CHILD_REKEY, CREATE_CHILD_SA); (TASK_IKE_REKEY, CREATE_CHILD_SA); (TASK_IKE_DPD, INFORMATIONAL);
   (TASK_IKE_AUTH_LIFETIME, INFORMATIONAL); (TASK_IKE_REAUTH_COMPLETE, INFORMATIONAL);
   (TASK_IKE_VERIFY_PEER_CERT, INFORMATIONAL)].

(** The exchange to initiate, 0 if there is none. *)
Definition activate_new (s : sa) : Z * sa :=
  let deletion := [(TASK_IKE_DELETE, INFORMATIONAL)] in
  match sa_state s with
  | IKE_CREATED =>
    let s := snd (activate_task TASK_IKE_VENDOR s) in
    let '(found, s) := activate_task TASK_IKE_INIT s in
    if found then
      (IKE_SA_INIT,
       fold_left (fun s type => snd (activate_task type s))
         [TASK_IKE_NATD; TASK_IKE_CERT_PRE; TASK_IKE_AUTH; TASK_IKE_CERT_POST; TASK_IKE_CONFIG; TASK_CHILD_CREATE;
          TASK_IKE_AUTH_LIFETIME; TASK_IKE_MOBIKE] (set_i_mid s 0))
    else (0, s)
  | IKE_ESTABLISHED => activate_first (established_tasks ++ deletion) s
  | IKE_REKEYING | IKE_REKEYED => activate_first deletion s
  | _ => (0, s)
  end.

Definition exchange_of (type : task_type_t) : option Z :=
  match type with
  | TASK_IKE_INIT => Some IKE_SA_INIT
  | TASK_IKE_AUTH => Some IKE_AUTH
  | TASK_CHILD_CREATE | TASK_CHILD_REKEY | TASK_IKE_REKEY => Some CREATE_CHILD_SA
  | TASK_IKE_MOBIKE => Some INFORMATIONAL
  | _ => None
  end.

(** The exchange of the first active task that has one. *)
Fixpoint reinitiate (l : list T) : Z :=
  match l with
  | [] => 0
  | t :: l => match exchange_of (task_type t) with Some e => e | None => reinitiate l end
  end.

Definition remove_active (i : nat) (s : sa) : sa := set_active s (delete i (active_tasks (tm s))).

Definition remove_passive (i : nat) (s : sa) : sa := set_passive s (delete i (passive_tasks (tm s))).

(** [false]: the IKE_SA is to be destroyed.  [None] for want of fuel or undefined behaviour. *)
Fixpoint build_request (fuel i : nat) (m : message) (s : sa) : option (bool * message * sa) :=
  match fuel with
  | O => None
  | S fuel =>
    match active_tasks (tm s) !! i with
    | None => Some (true, m, s)
    | Some t =>
      '(status, m, s) ← build t m s;
      match status with
      | SUCCESS => build_request fuel i m (destroy t (remove_active i s))
      | NEED_MORE => build_request fuel (S i) m s
      | DESTROY_ME => Some (false, m, s)
      | _ =>
        let s := set_i_type s EXCHANGE_TYPE_UNDEFINED in
        Some (false, m, if bool_decide (sa_state s = IKE_CONNECTING) || bool_decide (sa_state s = IKE_REKEYED)
                        then s else emit s (IkeUpdown false))
      end
    end
  end.

Definition request_message (exchange : Z) (s : sa) : message :=
  let m := set_message_id (message_create 2 0) (i_mid (initiating (tm s))) in
  set_exchange_type (set_hosts m (Some (my_host s)) (Some (other_host s))) exchange.

Fixpoint initiate (fuel : nat) (s : sa) : option (status_t * sa) :=
  match fuel with
  | O => None
  | S fuel =>
    let i := initiating (tm s) in
    if negb (i_type i =? EXCHANGE_TYPE_UNDEFINED) then
      if deferred i then Some (retransmit (i_mid i) (set_tries s 0 false)) else Some (SUCCESS, s)
    else
      let '(exchange, s) := match active_tasks (tm s) with
                            | [] => activate_new s
                            | l => (reinitiate l, s)
                            end in
      if exchange =? 0 then Some (SUCCESS, s)
      else
        let m := request_message exchange s in
        let s := set_tries (set_i_type s exchange) 0 false in
        '(built, m, s) ← build_request (S (length (active_tasks (tm s)))) 0 m s;
        if negb (built : bool) then Some (DESTROY_ME, flush s)
        else
          let s := set_i_type s (exchange_type m) in
          if exchange_type m =? EXCHANGE_TYPE_UNDEFINED then initiate fuel s
          else
            '(ps, s) ← tm_generate_message m s;
            match ps with
            | None => Some (DESTROY_ME, emit (flush s) (IkeUpdown false))
            | Some ps =>
              let s := set_i_packets s (i_packets (initiating (tm s)) ++ ps) in
              Some (retransmit (i_mid (initiating (tm s))) s)
            end
  end.

(** ** Responses *)

(** What the tasks that check messages first say of one: [None] is that it may be processed. *)
Fixpoint pre_process_loop (fuel i : nat) (tasks : sa -> list T) (m : message) (s : sa)
    : option (option status_t * message * sa) :=
  match fuel with
  | O => None
  | S fuel =>
    match tasks s !! i with
    | None => Some (None, m, s)
    | Some t =>
      match pre_process t with
      | None => pre_process_loop fuel (S i) tasks m s
      | Some f =>
        '(status, m, s) ← f m s;
        match status with
        | SUCCESS => pre_process_loop fuel (S i) tasks m s
        | DESTROY_ME => Some (Some DESTROY_ME, m, s)
        | _ => Some (Some FAILED, m, s)
        end
      end
    end
  end.

Inductive processed := Processed | Restart | Destroy.

Fixpoint process_response_loop (fuel i : nat) (m : message) (s : sa) : option (processed * message * sa) :=
  match fuel with
  | O => None
  | S fuel =>
    match active_tasks (tm s) !! i with
    | None => Some (Processed, m, s)
    | Some t =>
      '(status, m, s) ← process t m s;
      let next i s := if was_reset (tm s) then Some (Restart, m, with_tm s (with_reset (tm s) false))
                      else process_response_loop fuel i m s in
      match status with
      | SUCCESS => next i (destroy t (remove_active i s))
      | NEED_MORE => next (S i) s
      | DESTROY_ME => Some (Destroy, m, destroy t (remove_active i s))
      | _ => Some (Destroy, m, destroy t (remove_active i (emit s (IkeUpdown false))))
      end
    end
  end.

Definition process_response (fuel : nat) (m : message) (s : sa) : option (status_t * sa) :=
  if negb (exchange_type m =? i_type (initiating (tm s))) then Some (DESTROY_ME, emit s (IkeUpdown false))
  else
    '(verdict, m, s) ← pre_process_loop (S (length (active_tasks (tm s)))) 0 (fun s => active_tasks (tm s)) m s;
    match verdict with
    | Some DESTROY_ME => Some (DESTROY_ME, s)
    | Some _ => Some (SUCCESS, s)
    | None =>
      let s := if 1 <? retransmitted (initiating (tm s))
               then emit s (Alert (ALERT_RETRANSMIT_SEND_CLEARED (head (i_packets (initiating (tm s)))))) else s in
      let s := with_tm s (with_reset (tm s) false) in
      '(result, m, s) ← process_response_loop (S (length (active_tasks (tm s)))) 0 m s;
      match result with
      | Destroy => Some (DESTROY_ME, s)
      | Restart => initiate fuel s
      | Processed =>
        let s := set_i_mid s (u32 (i_mid (initiating (tm s)) + 1)) in
        initiate fuel (set_i_packets (set_i_type s EXCHANGE_TYPE_UNDEFINED) [])
      end
    end.

(** ** Requests *)

(** An active task is told of a task that collides with it, and takes it over. *)
Definition collides (type active : task_type_t) : bool :=
  match active with
  | TASK_IKE_REKEY => bool_decide (type = TASK_IKE_REKEY) || bool_decide (type = TASK_IKE_DELETE)
  | TASK_CHILD_REKEY => bool_decide (type = TASK_CHILD_REKEY) || bool_decide (type = TASK_CHILD_DELETE)
  | _ => false
  end.

Definition handle_collisions (t : T) (s : sa) : bool * sa :=
  match task_type t with
  | TASK_IKE_REKEY | TASK_CHILD_REKEY | TASK_CHILD_DELETE | TASK_IKE_DELETE =>
    match find (fun a => collides (task_type t) (task_type a)) (active_tasks (tm s)) with
    | Some a => (true, collide a t s)
    | None => (false, s)
    end
  | _ => (false, s)
  end.

Record response_flags := Flags { f_delete : bool; f_hook : bool; f_mid_sync : bool }.

Fixpoint build_response_loop (fuel i : nat) (f : response_flags) (m : message) (s : sa)
    : option (response_flags * message * sa) :=
  match fuel with
  | O => None
  | S fuel =>
    match passive_tasks (tm s) !! i with
    | None => Some (f, m, s)
    | Some t =>
      let f := Flags false (f_hook f) (f_mid_sync f || bool_decide (task_type t = TASK_IKE_MID_SYNC)) in
      '(status, m, s) ← build t m s;
      match status with
      | SUCCESS =>
        let '(collision, s) := handle_collisions t (remove_passive i s) in
        build_response_loop fuel i f m (if (collision : bool) then s else destroy t s)
      | NEED_MORE =>
        let '(collision, s) := handle_collisions t s in
        if (collision : bool) then build_response_loop fuel i f m (remove_passive i s)
        else build_response_loop fuel (S i) f m s
      | _ =>
        let '(collision, s) := handle_collisions t s in
        Some (Flags true (negb (bool_decide (status = DESTROY_ME))) (f_mid_sync f), m,
              if (collision : bool) then remove_passive i s else s)
      end
    end
  end.

(** A received message has both addresses. *)
Definition response_message (request : message) (s : sa) : message :=
  let m := set_exchange_type (message_create 2 0) (exchange_type request) in
  let m := set_hosts m (destination request) (source request) in
  set_request (set_message_id m (r_mid (responding (tm s)))) false.

(** The responder SPI is zero while a failed [IKE_SA_INIT] is answered. *)
Definition build_response (request : message) (s : sa) : option (status_t * sa) :=
  '(f, m, s) ← build_response_loop (S (length (passive_tasks (tm s)))) 0 (Flags false false false)
                 (response_message request s) s;
  let hide := f_delete f && (exchange_type request =? IKE_SA_INIT) in
  let id := sa_id s in
  let s := if hide then with_id s (IkeSaId (initiator_spi id) 0 (is_initiator id)) else s in
  '(ps, s) ← tm_generate_message m (set_r_packets s []);
  let s := if hide then with_id s (IkeSaId (initiator_spi (sa_id s)) (responder_spi id) (is_initiator (sa_id s))) else s in
  match ps with
  | None => Some (DESTROY_ME, emit s (IkeUpdown false))
  | Some ps =>
    let s := set_r_packets s (r_packets (responding (tm s)) ++ ps) in
    let s := send_packets (r_packets (responding (tm s))) None None s in
    if f_delete f then Some (DESTROY_ME, if f_hook f then emit s (IkeUpdown false) else s)
    else if f_mid_sync f then Some (NEED_MORE, set_r_packets s [])
    else Some (SUCCESS, s)
  end.

Definition append_passive (c : task_create) (s : sa) : sa :=
  let '(t, s) := create c s in set_passive s (passive_tasks (tm s) ++ [t]).

Definition is_rekey_notify (o : object) : bool :=
  let protocol := int_field (o_p o) "protocol_id" in
  bool_decide (object_type o = PLV2_NOTIFY) && (notify_type o =? REKEY_SA) && ((protocol =? 2) || (protocol =? 3)).

Definition is_selector (o : object) : bool :=
  bool_decide (object_type o = PLV2_TS_INITIATOR) || bool_decide (object_type o = PLV2_TS_RESPONDER).

Definition child_sa_task (l : list object) : task_create :=
  if existsb is_selector l then
    if existsb is_rekey_notify l then child_rekey_create 0 0 else child_create_create None None None
  else ike_rekey_create false.

(** The task for one payload of an [INFORMATIONAL] request. *)
Definition informational_task (state : ike_sa_state_t) (o : object) : option task_create :=
  match object_type o with
  | PLV2_NOTIFY =>
    let type := notify_type o in
    if bool_decide (state = IKE_REKEYED) then None
    else if bool_decide (type ∈ mobike_notifies) then Some (ike_mobike_create false)
    else if type =? AUTH_LIFETIME then Some (ike_auth_lifetime_create false)
    else if type =? AUTHENTICATION_FAILED then Some (ike_delete_create false)
    else if type =? REDIRECT then Some ike_redirect_create
    else if type =? IKEV2_MESSAGE_ID_SYNC then Some ike_mid_sync_create
    else None
  | PLV2_DELETE =>
    Some (if int_field (o_p o) "protocol_id" =? 1 then ike_delete_create false else child_delete_create 0 0 false)
  | _ => None
  end.

Fixpoint first_task (state : ike_sa_state_t) (l : list object) : task_create :=
  match l with
  | [] => ike_dpd_create false
  | o :: l => match informational_task state o with Some c => c | None => first_task state l end
  end.

Definition init_tasks : list task_create :=
  [ike_vendor_create false; ike_init_create false; ike_natd_create false; ike_cert_pre_create false;
   ike_auth_create false; ike_cert_post_create false; ike_config_create false;
   child_create_create None None None; ike_auth_lifetime_create false; ike_mobike_create false].

(** The tasks for a request, if none is waiting for one; [None] if it is rejected. *)
Definition create_passive (m : message) (s : sa) : option sa :=
  match passive_tasks (tm s) with
  | _ :: _ => Some s
  | [] =>
    if exchange_type m =? IKE_SA_INIT then
      Some (fold_left (fun s c => append_passive c s) init_tasks s)
    else if exchange_type m =? CREATE_CHILD_SA then
      if bool_decide (sa_state s = IKE_CREATED) || bool_decide (sa_state s = IKE_CONNECTING) then None
      else Some (append_passive (child_sa_task (payloads m)) s)
    else if exchange_type m =? INFORMATIONAL then Some (append_passive (first_task (sa_state s) (payloads m)) s)
    else Some s
  end.

(** [false]: the IKE_SA is to be destroyed. *)
Fixpoint process_request_loop (fuel i : nat) (m : message) (s : sa) : option (bool * message * sa) :=
  match fuel with
  | O => None
  | S fuel =>
    match passive_tasks (tm s) !! i with
    | None => Some (true, m, s)
    | Some t =>
      '(status, m, s) ← process t m s;
      match status with
      | SUCCESS => process_request_loop fuel i m (destroy t (remove_passive i s))
      | NEED_MORE => process_request_loop fuel (S i) m s
      | DESTROY_ME => Some (false, m, destroy t (remove_passive i s))
      | _ => Some (false, m, destroy t (remove_passive i (emit s (IkeUpdown false))))
      end
    end
  end.

Definition process_request (m : message) (s : sa) : option (status_t * sa) :=
  match create_passive m s with
  | None => Some (FAILED, s)
  | Some s =>
    '(verdict, m, s) ← pre_process_loop (S (length (passive_tasks (tm s)))) 0 (fun s => passive_tasks (tm s)) m s;
    match verdict with
    | Some DESTROY_ME => Some (DESTROY_ME, s)
    | Some _ =>
      if exchange_type m =? IKE_SA_INIT then Some (DESTROY_ME, s)
      else Some (NEED_MORE, if exchange_type m =? IKE_AUTH then s else flush_queue TASK_QUEUE_PASSIVE s)
    | None =>
      '(ok, m, s) ← process_request_loop (S (length (passive_tasks (tm s)))) 0 m s;
      if negb (ok : bool) then Some (DESTROY_ME, s) else build_response m s
    end
  end.

(** ** Message IDs and incoming messages *)

Definition incr_mid (initiate : bool) (s : sa) : sa :=
  if initiate then set_i_mid s (u32 (i_mid (initiating (tm s)) + 1))
  else set_r_mid s (u32 (r_mid (responding (tm s)) + 1)).

Definition get_mid (initiate : bool) (s : sa) : Z :=
  if initiate then i_mid (initiating (tm s)) else r_mid (responding (tm s)).

(** [None] is undefined behaviour: of the generator, or for want of an address. *)
Definition send_notify_response (request : message) (type : Z) (d : chunk) (s : sa) : option sa :=
  let m := set_exchange_type (message_create 2 0) (exchange_type request) in
  let m := set_message_id (set_request m false) (message_id request) in
  let m := add_notify m false type d in
  s ← (if is_anyaddr (my_host s) then h ← destination request; Some (with_hosts s h (other_host s)) else Some s);
  s ← (if is_anyaddr (other_host s) then h ← source request; Some (with_hosts s (my_host s) h) else Some s);
  '(_, p, _, s) ← sa_generate_message (set_hosts m (Some (my_host s)) (Some (other_host s))) s;
  Some match p with Some p => emit s (Sent p) | None => s end.

(** The type of the first unknown payload that is critical. *)
Fixpoint critical_unknown (l : list object) : option Z :=
  match l with
  | [] => None
  | o :: l =>
    match class_of (o_p o) with
    | Unknown t => if bool_field (o_p o) "critical" then Some (u8 (payload_type_value t)) else critical_unknown l
    | Known _ => critical_unknown l
    end
  end.

Definition reject (m : message) (type : Z) (d : chunk) (s : sa) : option sa :=
  if is_request m then s ← send_notify_response m type d s; Some (incr_mid false s) else Some s.

Definition parse_message (m : message) (s : sa) : option (status_t * message * sa) :=
  '(status, m, k) ← parse_body accept_mm m (Some (sa_keymat s));
  let s := with_keys s (keymat_after s k) (sa_rng s) in
  let '(status, type) :=
    if bool_decide (status = SUCCESS) then
      match critical_unknown (payloads m) with Some t => (NOT_SUPPORTED, t) | None => (SUCCESS, 0) end
    else (status, 0) in
  if bool_decide (status = SUCCESS) then Some (SUCCESS, m, s)
  else
    s ← match status with
        | NOT_SUPPORTED => reject m UNSUPPORTED_CRITICAL_PAYLOAD [type] s
        | PARSE_ERROR | VERIFY_ERROR => reject m INVALID_SYNTAX [] s
        | _ => Some s
        end;
    let s := emit s (Alert (ALERT_PARSE_ERROR_BODY m status)) in
    Some (if bool_decide (sa_state s = IKE_CREATED) then DESTROY_ME else status, m, s).

Fixpoint sync_loop (strict : bool) (l : list object) (found : bool) : bool :=
  match l with
  | [] => found
  | o :: l =>
    if bool_decide (object_type o = PLV2_NOTIFY) &&
       ((notify_type o =? IKEV2_MESSAGE_ID_SYNC) || (notify_type o =? IPSEC_REPLAY_COUNTER_SYNC))
    then sync_loop strict l true
    else if strict then false else sync_loop strict l found
  end.

Definition looks_like_mid_sync (m : message) (strict : bool) : bool :=
  if exchange_type m =? INFORMATIONAL then sync_loop strict (payloads m) false else false.

Definition is_mid_sync (s : sa) (m : message) : bool :=
  if bool_decide (sa_state s = IKE_ESTABLISHED) && supports_extension s EXT_IKE_MESSAGE_ID_SYNC
  then looks_like_mid_sync m true else false.

Section Reinject.
Variable reinject : message -> sa -> option (status_t * sa).

(** [handle_fragment] of [Defragment] collects; a reassembled message is processed. *)
Definition tm_handle_fragment (get : sa -> option message) (set : sa -> option message -> sa) (m : message) (s : sa)
    : option (status_t * sa) :=
  '(r, d) ← handle_fragment max_packet (get s) m;
  let s := set s d in
  match r with
  | inl status => Some (status, s)
  | inr reassembled =>
    '(status, s) ← reinject reassembled s;
    Some (if bool_decide (status = SUCCESS) then NEED_MORE else status, s)
  end.

(** Initial messages are rejected in other states than the initial ones; after rekeying
    only an [INFORMATIONAL] is expected. *)
Definition unexpected_request (type : Z) (state : ike_sa_state_t) : bool :=
  ((type =? IKE_SA_INIT) && negb (bool_decide (state = IKE_CREATED))) ||
  ((type =? IKE_AUTH) && negb (bool_decide (state = IKE_CONNECTING))) ||
  (bool_decide (state = IKE_REKEYED) && negb (type =? INFORMATIONAL)).

(** The second result tells whether the end of the function is reached. *)
Definition receive_request (m : message) (s : sa) : option (status_t * bool * sa) :=
  let mid := message_id m in
  let r := responding (tm s) in
  if (mid =? r_mid r) || ((mid =? 0) && is_mid_sync s m) then
    if unexpected_request (exchange_type m) (sa_state s) then Some (FAILED, false, s)
    else
      let s := if supports_extension s EXT_MOBIKE then s
               else update_hosts s (destination m) (source m) (mid =? 1) in
      '(status, s) ← tm_handle_fragment (fun s => r_defrag (responding (tm s))) set_r_defrag m s;
      if negb (bool_decide (status = SUCCESS)) then Some (status, false, s)
      else
        let '(m, s) := bus m true true s in
        if exchange_type m =? EXCHANGE_TYPE_UNDEFINED then Some (SUCCESS, false, s)
        else
          '(status, s) ← process_request m s;
          match status with
          | SUCCESS => Some (SUCCESS, true, set_r_mid s (u32 (r_mid (responding (tm s)) + 1)))
          | NEED_MORE => Some (SUCCESS, true, s)
          | _ => Some (DESTROY_ME, false, flush s)
          end
  else if (mid =? u32 (r_mid r - 1)) && negb (bool_decide (r_packets r = [])) &&
          negb ((mid =? 0) && looks_like_mid_sync m false) then
    '(status, s) ← tm_handle_fragment (fun s => r_defrag (responding (tm s))) set_r_defrag m s;
    if negb (bool_decide (status = SUCCESS)) then Some (status, false, s)
    else
      let s := emit s (Alert (ALERT_RETRANSMIT_RECEIVE m)) in
      Some (SUCCESS, true, send_packets (r_packets (responding (tm s))) (destination m) (source m) s)
  else Some (SUCCESS, true, s).

Definition receive_response (fuel : nat) (m : message) (s : sa) : option (status_t * bool * sa) :=
  let mid := message_id m in
  if mid =? i_mid (initiating (tm s)) then
    let s :=
      if (bool_decide (sa_state s = IKE_CREATED) || bool_decide (sa_state s = IKE_CONNECTING) ||
          negb (exchange_type m =? IKE_SA_INIT)) && negb (supports_extension s EXT_MOBIKE)
      then update_hosts (update_hosts s (destination m) None (mid =? 0)) None (source m) false else s in
    '(status, s) ← tm_handle_fragment (fun s => i_defrag (initiating (tm s))) set_i_defrag m s;
    if negb (bool_decide (status = SUCCESS)) then Some (status, false, s)
    else
      let '(m, s) := bus m true true s in
      if exchange_type m =? EXCHANGE_TYPE_UNDEFINED then Some (SUCCESS, false, s)
      else
        '(status, s) ← process_response fuel m s;
        if bool_decide (status = SUCCESS) then Some (SUCCESS, true, s) else Some (DESTROY_ME, false, flush s)
  else Some (SUCCESS, false, s).

Definition process_message (fuel : nat) (m : message) (s : sa) : option (status_t * sa) :=
  let '(m, s) := bus m true false s in
  '(status, m, s) ← parse_message m s;
  if negb (bool_decide (status = SUCCESS)) then Some (status, s)
  else
    let config := match ike_cfg s with
                  | Some c => Some (c, false)
                  | None => c ← get_ike_cfg (destination m) (source m) (world s); Some (c, true)
                  end in
    match config with
    | None => s ← send_notify_response m NO_PROPOSAL_CHOSEN [] s; Some (DESTROY_ME, s)
    | Some (c, schedule_delete_job) =>
      let s := with_ike_cfg s (Some c) in
      let s := with_stats s (tv_sec (now s)) (stat_outbound s) in
      '(status, finish, s) ← if is_request m then receive_request m s else receive_response fuel m s;
      Some (status, if (finish : bool) && (schedule_delete_job : bool)
                    then emit s (ScheduleHalfOpen (delete_ike_sa_job (sa_id s) false)) else s)
    end.
End Reinject.

(** [process_message] of the IKE_SA.  [depth] bounds how often a reassembled message turns
    out to be a fragment again. *)
Fixpoint sa_process_message (depth fuel : nat) (m : message) (s : sa) : option (status_t * sa) :=
  match depth with
  | O => None
  | S depth =>
    if bool_decide (sa_state s = IKE_PASSIVE) then Some (FAILED, s)
    else if negb (major_version m =? sa_version s) then Some (FAILED, s)
    else
      '(status, s) ← process_message (sa_process_message depth fuel) fuel m s;
      Some (status,
        if flush_auth_cfg s && bool_decide (sa_state s = IKE_ESTABLISHED) &&
           negb (has_condition s COND_ONLINE_VALIDATION_SUSPENDED)
        then with_world (with_flags s (conditions s) false) (flush_auth_cfgs (world s)) else s)
  end.

(** ** Queueing *)

Definition has_queued (type : task_type_t) (s : sa) : bool :=
  existsb (fun q => bool_decide (task_type (q_task q) = type)) (queued_tasks (tm s)).

(** No more than one MOBIKE task is queued. *)
Definition queue_task_delayed (t : T) (delay : Z) (s : sa) : sa :=
  if bool_decide (task_type t = TASK_IKE_MOBIKE) && has_queued TASK_IKE_MOBIKE s then destroy t s
  else
    let time := now s in
    let '(time, s) :=
      if delay =? 0 then (time, s)
      else let time := Timeval (tv_sec time + delay) (tv_usec time) in
           (time, emit s (ScheduleTv (initiate_tasks_job (sa_id s)) time)) in
    set_queued s (queued_tasks (tm s) ++ [Queued t time]).

Definition queue_task (t : T) (s : sa) : sa := queue_task_delayed t 0 s.

Definition queue_new (c : task_create) (s : sa) : sa := let '(t, s) := create c s in queue_task t s.

Definition queue_unless (type : task_type_t) (c : task_create) (s : sa) : sa :=
  if has_queued type s then s else queue_new c s.

(** The peer config has to be there, unless a MOBIKE task is queued. *)
Definition queue_ike (s : sa) : option sa :=
  let s := fold_left (fun s tc => queue_unless (fst tc) (snd tc) s)
    [(TASK_IKE_VENDOR, ike_vendor_create true); (TASK_IKE_INIT, ike_init_create true);
     (TASK_IKE_NATD, ike_natd_create true); (TASK_IKE_CERT_PRE, ike_cert_pre_create true);
     (TASK_IKE_AUTH, ike_auth_create true); (TASK_IKE_CERT_POST, ike_cert_post_create true);
     (TASK_IKE_CONFIG, ike_config_create true); (TASK_IKE_AUTH_LIFETIME, ike_auth_lifetime_create true)] s in
  if has_queued TASK_IKE_MOBIKE s then Some s
  else c ← peer_cfg s; Some (if use_mobike c then queue_new (ike_mobike_create true) s else s).

Definition queue_ike_rekey (s : sa) : sa := queue_new (ike_rekey_create true) s.

Definition queue_ike_reauth (s : sa) : sa :=
  if make_before_break (tm s) then trigger_mbb_reauth s else queue_new ike_reauth_create s.

Definition queue_ike_delete (s : sa) : sa := queue_new (ike_delete_create true) s.

(** A MOBIKE task that is active starts to probe paths. *)
Definition queue_mobike (roam address : bool) (s : sa) : sa :=
  let '(t, s) := create (ike_mobike_create true) s in
  let s :=
    if roam then
      let s := mobike_roam t address s in
      match find (fun a => bool_decide (task_type a = TASK_IKE_MOBIKE)) (active_tasks (tm s)) with
      | Some a => enable_probing a s
      | None => s
      end
    else mobike_addresses t s in
  queue_task t s.

Definition queue_child (cfg tsi tsr : option nat) (reqid : Z) (s : sa) : sa :=
  let '(t, s) := create (child_create_create cfg tsi tsr) s in
  queue_task t (if reqid =? 0 then s else use_reqid t reqid s).

Definition queue_child_rekey (protocol spi : Z) (s : sa) : sa := queue_new (child_rekey_create protocol spi) s.

Definition queue_child_delete (protocol spi : Z) (expired : bool) (s : sa) : sa :=
  queue_new (child_delete_create protocol spi expired) s.

Definition queue_dpd (s : sa) : sa :=
  if supports_extension s EXT_MOBIKE && has_condition s COND_NAT_HERE && has_condition s COND_ORIGINAL_INITIATOR then
    let '(t, s) := create (ike_mobike_create true) s in queue_task t (mobike_dpd t s)
  else queue_new (ike_dpd_create true) s.

(** The queued tasks of another manager, in front of those of this one. *)
Definition adopt_tasks (s : sa) (other : task_manager T) : sa * task_manager T :=
  let time := now s in
  (fold_left (fun s q => let s := migrate (q_task q) s in
                         set_queued s (Queued (q_task q) time :: queued_tasks (tm s)))
     (rev (queued_tasks other)) s,
   with_tasks other [] (active_tasks other) (passive_tasks other)).

Definition is_child_create (t : T) : bool := bool_decide (task_type t = TASK_CHILD_CREATE).

Definition migrate_child_tasks (s : sa) (other : task_manager T) (queue : task_queue_t) : sa * task_manager T :=
  let move l := fold_left (fun s t => queue_task t (migrate t s)) l s in
  match queue with
  | TASK_QUEUE_ACTIVE =>
    (move (List.filter is_child_create (active_tasks other)),
     with_tasks other (queued_tasks other) (List.filter (fun t => negb (is_child_create t)) (active_tasks other))
       (passive_tasks other))
  | TASK_QUEUE_QUEUED =>
    (move (List.filter is_child_create (q_task <$> queued_tasks other)),
     with_tasks other (List.filter (fun q => negb (is_child_create (q_task q))) (queued_tasks other))
       (active_tasks other) (passive_tasks other))
  | TASK_QUEUE_PASSIVE => (s, other)
  end.

Definition adopt_child_tasks (s : sa) (other : task_manager T) : sa * task_manager T :=
  let '(s, other) := migrate_child_tasks s other TASK_QUEUE_ACTIVE in
  migrate_child_tasks s other TASK_QUEUE_QUEUED.

Definition busy (s : sa) : bool := negb (bool_decide (active_tasks (tm s) = [])).

(** [UINT_MAX] leaves a message ID as it is. *)
Definition reset (initiate respond : Z) (s : sa) : sa :=
  let s := set_i_packets (set_r_packets s []) [] in
  let s := set_i_defrag (set_r_defrag s None) None in
  let s := if initiate =? UINT_MAX then s else set_i_mid s initiate in
  let s := if respond =? UINT_MAX then s else set_r_mid s respond in
  let s := set_i_type s EXCHANGE_TYPE_UNDEFINED in
  let time := now s in
  let s := set_queued s ((fun q => Queued (q_task q) time) <$> queued_tasks (tm s)) in
  let s := fold_left (fun s t => migrate t s) (q_task <$> queued_tasks (tm s)) s in
  let active := active_tasks (tm s) in
  let s := fold_left (fun s t => let s := migrate t s in set_queued s (Queued t time :: queued_tasks (tm s)))
             (rev active) (set_active s []) in
  with_tm s (with_reset (tm s) true).

(** [set_message_id] of the IKE_SA. *)
Definition sa_set_message_id (initiate : bool) (mid : Z) (s : sa) : sa :=
  if initiate then reset mid UINT_MAX s else reset UINT_MAX mid s.

(** The tasks an enumerator gives. *)
Definition create_task_enumerator (queue : task_queue_t) (s : sa) : list T :=
  match queue with
  | TASK_QUEUE_ACTIVE => active_tasks (tm s)
  | TASK_QUEUE_PASSIVE => passive_tasks (tm s)
  | TASK_QUEUE_QUEUED => q_task <$> queued_tasks (tm s)
  end.

Definition task_manager_v2_create (tries : Z) (delay : Z -> Z) (jitter limit : Z) (mbb : bool) : task_manager T :=
  TaskManager (Responding 0 [] None) (Initiating 0 0 [] EXCHANGE_TYPE_UNDEFINED false None) [] [] [] false
    (u32 tries) delay (u32 (Z.min jitter 20)) (u32 (limit * 1000)) mbb.
End Operations.
