(* ===== verification/ExchangeSpec.v ===== *)
(** What the exchanges of an IKE_SA promise, apart from how the task manager is written: two
    ends that each have at most one request outstanding, answer a request once and keep the
    answer for repetitions, over a network that loses, repeats and reorders what was sent.
    [IkeExchange] shows that the task managers of two ends implement this. *)
From S2P Require Import Prelude.
From stdpp Require Import base numbers list option.
From Stdlib Require Import Lia ZArith.
Local Open Scope Z_scope.

(** One end: the ID of its current request and the packets of it, none if there is no
    request outstanding; the ID of the next request it answers, and the packets of the last
    answer. *)
Record endpoint := Endpoint {
  next_request : Z;
  outstanding : list chunk;
  next_response : Z;
  answered : list chunk;
}.

(** A packet with what it is: request or response, and its message ID. *)
Record labelled := Labelled { l_request : bool; l_mid : Z; l_data : chunk }.

(** What an end does is done by itself or because of a packet. *)
Inductive input := Internal | Received (p : labelled).

Inductive exchange_step (i : input) : endpoint -> list labelled -> endpoint -> Prop :=
| Step_request e ds : outstanding e = [] -> ds <> [] ->
    exchange_step i e [] (Endpoint (next_request e) ds (next_response e) (answered e))
| Step_send e ds : ds ⊆ outstanding e -> exchange_step i e (Labelled true (next_request e) <$> ds) e
| Step_complete e d : outstanding e <> [] -> i = Received (Labelled false (next_request e) d) ->
    exchange_step i e [] (Endpoint (next_request e + 1) [] (next_response e) (answered e))
| Step_answer e d ds : i = Received (Labelled true (next_response e) d) ->
    exchange_step i e (Labelled false (next_response e) <$> ds)
      (Endpoint (next_request e) (outstanding e) (next_response e + 1) ds)
| Step_repeat e d ds : i = Received (Labelled true (next_response e - 1) d) -> ds ⊆ answered e ->
    exchange_step i e (Labelled false (next_response e - 1) <$> ds) e.

(** A request becomes outstanding and is sent, and sent again; its response completes it.  A
    request is answered if it is the next one, and the answer is repeated if it is the one
    before. *)

(** Several steps for the same reason. *)
Inductive exchange_steps (i : input) : endpoint -> list labelled -> endpoint -> Prop :=
| Steps_none e : exchange_steps i e [] e
| Steps_more e outs e1 outs' e2 : exchange_step i e outs e1 -> exchange_steps i e1 outs' e2 ->
    exchange_steps i e (outs ++ outs') e2.

Lemma steps_one i e outs e' : exchange_step i e outs e' -> exchange_steps i e outs e'.
Proof. intros Hs. rewrite <- (app_nil_r outs). econstructor; [exact Hs|constructor]. Qed.

Lemma steps_trans i e outs e1 outs' e2 :
  exchange_steps i e outs e1 -> exchange_steps i e1 outs' e2 -> exchange_steps i e (outs ++ outs') e2.
Proof. induction 1; intros; [done|]. rewrite <- app_assoc. econstructor; eauto. Qed.

(** ** One direction: the requests of [p], answered by [q] *)

Record lockstep (p q : endpoint) (sent_p sent_q : list labelled) : Prop := Lockstep {
  ls_window : next_request p <= next_response q <= next_request p + 1;
  ls_pending : next_response q = next_request p + 1 -> outstanding p <> [];
  ls_requests mid d : Labelled true mid d ∈ sent_p ->
    mid <= next_request p /\ (mid = next_request p -> d ∈ outstanding p);
  ls_responses mid d : Labelled false mid d ∈ sent_q ->
    mid < next_response q /\ (mid = next_response q - 1 -> d ∈ answered q);
}.

(** The packet that is the reason was sent by the other end. *)
Definition was_sent (i : input) (sent : list labelled) : Prop :=
  match i with Internal => True | Received p => p ∈ sent end.

Lemma in_labelled b mid (ds : list chunk) b' mid' d :
  Labelled b' mid' d ∈ Labelled b mid <$> ds -> b' = b /\ mid' = mid /\ d ∈ ds.
Proof. intros (x & [= -> -> ->] & Hx)%list_elem_of_fmap. done. Qed.

(** A packet that is now sent is an earlier one or a new one. *)
Lemma sent_after b mid d sent b' mid' (ds : list chunk) (P : Prop) :
  (Labelled b mid d ∈ sent -> P) -> (b = b' -> mid = mid' -> d ∈ ds -> P) ->
  Labelled b mid d ∈ sent ++ (Labelled b' mid' <$> ds) -> P.
Proof. intros H1 H2 [Hin|(? & ? & ?)%in_labelled]%elem_of_app; auto. Qed.

(** A step of the end that asks. *)
Lemma requester_step i p outs p' q sent_p sent_q : exchange_step i p outs p' -> was_sent i sent_q ->
  lockstep p q sent_p sent_q -> lockstep p' q (sent_p ++ outs) sent_q.
Proof.
  intros Hs Hi [Hw Hp Hr Hq]. destruct Hs as [e ds Hn Hds|e ds Hsub|e d Ho ->|e d ds ->|e d ds -> Hsub];
    (constructor; cbn in *; [| | |done]); try done; try (intros mid d'; apply sent_after; [by apply Hr|done]).
  - intros mid d'. rewrite app_nil_r. intros Hx. destruct (Hr _ _ Hx) as [Hle Hd].
    split; [done|]. intros E. specialize (Hd E). rewrite Hn in Hd. by apply elem_of_nil in Hd.
  - intros mid d'. apply sent_after; [by apply Hr|]. intros _ -> Hd. split; [lia|auto].
  - destruct (Hq _ _ Hi). lia.
  - destruct (Hq _ _ Hi). lia.
  - intros mid d'. rewrite app_nil_r. intros Hx. destruct (Hr _ _ Hx). split; lia.
Qed.

(** A step of the end that answers. *)
Lemma responder_step i q outs q' p sent_p sent_q : exchange_step i q outs q' -> was_sent i sent_p ->
  lockstep p q sent_p sent_q -> lockstep p q' sent_p (sent_q ++ outs).
Proof.
  intros Hs Hi [Hw Hp Hr Hq]. destruct Hs as [e ds Hn Hds|e ds Hsub|e d Ho ->|e d ds ->|e d ds -> Hsub];
    (constructor; cbn in *; [| |done|]); try done; try (intros mid d'; apply sent_after; [by apply Hq|done]).
  - intros mid d'. rewrite app_nil_r. apply Hq.
  - intros mid d'. rewrite app_nil_r. apply Hq.
  - destruct (Hr _ _ Hi). lia.
  - intros Hx. destruct (Hr _ _ Hi) as [_ Hd]. specialize (Hd ltac:(lia)). intros E. rewrite E in Hd.
    by apply elem_of_nil in Hd.
  - intros mid d'. apply sent_after; [|intros _ -> ?; split; [lia|done]]. intros Hx. destruct (Hq _ _ Hx). split; lia.
  - intros mid d'. apply sent_after; [by apply Hq|]. intros _ -> Hd. split; [lia|auto].
Qed.

Lemma requester_steps i p outs p' q sent_p sent_q : exchange_steps i p outs p' -> was_sent i sent_q ->
  lockstep p q sent_p sent_q -> lockstep p' q (sent_p ++ outs) sent_q.
Proof.
  intros Hs Hi. revert sent_p. induction Hs as [e|e outs e1 outs' e2 H1 _ IH]; intros sent_p Hl; [by rewrite app_nil_r|].
  rewrite app_assoc. apply IH. by eapply requester_step.
Qed.

Lemma responder_steps i q outs q' p sent_p sent_q : exchange_steps i q outs q' -> was_sent i sent_p ->
  lockstep p q sent_p sent_q -> lockstep p q' sent_p (sent_q ++ outs).
Proof.
  intros Hs Hi. revert sent_q. induction Hs as [e|e outs e1 outs' e2 H1 _ IH]; intros sent_q Hl; [by rewrite app_nil_r|].
  rewrite app_assoc. apply IH. by eapply responder_step.
Qed.

(** A request that is answered is the current one of the other end. *)
Lemma answers_current p q sent_p sent_q d : lockstep p q sent_p sent_q ->
  Labelled true (next_response q) d ∈ sent_p -> next_response q = next_request p /\ d ∈ outstanding p.
Proof. intros [Hw _ Hr _] Hin. destruct (Hr _ _ Hin) as [Hle Hd]. split; [lia|]. apply Hd. lia. Qed.

(** A response that completes a request is the answer to it. *)
Lemma completes_with_answer p q sent_p sent_q d : lockstep p q sent_p sent_q ->
  Labelled false (next_request p) d ∈ sent_q -> next_response q = next_request p + 1 /\ d ∈ answered q.
Proof. intros [Hw _ _ Hr] Hin. destruct (Hr _ _ Hin) as [Hle Hd]. split; [lia|]. apply Hd. lia. Qed.
