(* ===== verification/TaskManagerRefine.v ===== *)
(** The task manager of one end implements the exchanges of [ExchangeSpec], for IKE_SAs that
    have their keys, tasks that leave the exchanges to the manager, and messages that are not
    fragmented. *)
From S2P Require Import Prelude Chunk Host EspPacket Scheduler Crypto Payloads Codec CodecParser PayloadVerify.
From S2P Require Import MessageRules EncryptedPayload Message Defragment PayloadChain MessageOrder MessageRoundtrip.
From S2P Require Import TaskManager ExchangeSpec.
From stdpp Require Import base numbers list option strings.
From Stdlib Require Import Lia ZArith.
Local Open Scope Z_scope.

(** ** What is sent and generated *)

(** The data of a packet as it is sent. *)
Definition pdata (p : packet) : chunk := Packet.get_data (Packet.clone p).

Definition sent_event (e : event_t) : option chunk := match e with Sent p => Some (Packet.get_data p) | _ => None end.

(** Messages that are about to be generated. *)
Definition generated_event (e : event_t) : option message :=
  match e with BusMessage m false true => Some m | _ => None end.

Lemma pdata_readdressed p src dst : Packet.get_data
  (match dst with Some h => Packet.set_destination (match src with Some h => Packet.set_source (Packet.clone p) (Some h)
     | None => Packet.clone p end) (Some h)
   | None => match src with Some h => Packet.set_source (Packet.clone p) (Some h) | None => Packet.clone p end end) = pdata p.
Proof. by destruct src, dst. Qed.

Lemma clone_data p : Packet.data (Packet.clone p) = pdata p.
Proof. unfold pdata, Packet.clone. by destruct (Packet.destination p), (Packet.source p), (Packet.data p). Qed.

Lemma pdata_clone p : pdata (Packet.clone p) = pdata p.
Proof.
  unfold pdata at 1, Packet.clone at 1. rewrite clone_data. destruct (pdata p) eqn:E.
  - by destruct (Packet.destination _), (Packet.source _).
  - rewrite <- E. by destruct (Packet.destination _), (Packet.source _).
Qed.

Lemma pdata_dscp p d : pdata (Packet.set_dscp p d) = pdata p.
Proof. unfold pdata, Packet.clone. cbn. by destruct (Packet.destination p), (Packet.source p), (Packet.data p). Qed.

Section Refine.
Context {T W A R : Type} `{AeadLaws A} `{RngLaws R} `{Tasks T W A R} `{Daemon T W A R}.
Abbreviation sa := (ike_sa T W A R).

Definition sent_data (s : sa) : list chunk := omap sent_event (log s).

Definition generated (s : sa) : list message := omap generated_event (log s).

(** ** Keys and messages that are understood *)

Definition keys_ok (vo vi : aead_view) (k : keymat A) : Prop :=
  (exists a, aead_out k = Some a /\ ae_view a = Some vo) /\ (exists b, aead_in k = Some b /\ ae_view b = Some vi).

(** Message IDs are not synchronized by the payload. *)
Definition sync_notify (p : payload) : bool :=
  bool_decide (get_type p = PLV2_NOTIFY) &&
  ((int_field p "notify_type" =? IKEV2_MESSAGE_ID_SYNC) || (int_field p "notify_type" =? IPSEC_REPLAY_COUNTER_SYNC)).

Definition usual (p : payload) : Prop := v2_type (get_type p) = true /\ sync_notify p = false.

(** The other end, with the keys [v], reads [d] as a message with that ID. *)
Definition reads (v : aead_view) (d : chunk) (request : bool) (mid : Z) : Prop :=
  forall accept src dst (k : keymat A) b, aead_in k = Some b -> ae_view b = Some v ->
  exists m1 m2 k2 qs, parse_header (message_create_from_packet src dst d) = Some (SUCCESS, m1) /\ major_version m1 = 2 /\
    parse_body accept m1 (Some k) = Some (SUCCESS, m2, k2) /\ payloads m2 = ordinary <$> qs /\ Forall usual qs /\
    exchange_type m2 ∈ [IKE_AUTH; CREATE_CHILD_SA; INFORMATIONAL] /\ is_request m2 = request /\ message_id m2 = mid.

(** A message that has all it needs, under the keys [v]. *)
Definition complete (v : aead_view) (m : message) : Prop :=
  exists r id ps, ready_to_send m r id ps v /\ verify_rules (mr_rules r) (payloads m) false = SUCCESS /\
    Forall (fun p => sync_notify p = false) ps.

Lemma unlink_sync p : v2_type (get_type p) = true -> sync_notify (unlink p) = sync_notify p.
Proof.
  intros Ht. unfold sync_notify, unlink. rewrite set_next_type_type. destruct (get_type p) eqn:E; try done.
  rewrite !bool_decide_true by done. cbn [andb].
  assert (class_of p = Known PLV2_NOTIFY) as Hc by (rewrite <- E; apply sendable_class; by rewrite E).
  enough (int_field (set_next_type p PL_NONE) "notify_type" = int_field p "notify_type") as -> by done.
  destruct p as [c fs]. cbn [class_of] in Hc. subst c. destruct fs as [|f fs]; reflexivity.
Qed.

Lemma generated_reads vo vi m (k : keymat A) rng m' k' (rng' : option R) : complete vo m -> keys_ok vo vi k ->
  generate junk m (Some k) rng = Some (SUCCESS, m', k', rng') ->
  reads vo (data m') (is_request m) (message_id m) /\ exists k1, k' = Some k1 /\ keys_ok vo vi k1.
Proof.
  intros (r & id & ps & Hr & Hv & Hn) [(a & Ha & Va) Hin] E. split.
  - intros accept src dst kb b Hb Vb.
    destruct (message_sealed junk accept src dst m r id ps vo k kb a b rng Hr Hv Ha Va Hb Vb)
      as (st & m'' & k'' & rng'' & E' & _ & Hok). rewrite E in E'. injection E' as <- <- <- <-.
    destruct (Hok eq_refl) as (_ & m1 & m2 & k2 & qs & E1 & E2 & E3 & E4 & Hsim & _ & E5 & E6 & E7 & _).
    exists m1, m2, k2, qs. do 4 (split; [done|]). split.
    + pose proof (rs_sendable _ _ _ _ _ Hr) as Hs. unfold similar in Hsim.
      assert ((unlink <$> qs) ≡ₚ (unlink <$> ps)) as Hperm.
      { rewrite Hsim, (rs_payloads _ _ _ _ _ Hr). unfold payloads_of. rewrite (in_order_perm m r).
        change (o_p <$> (ordinary <$> ps)) with (payloads_of (ordinary <$> ps)). by rewrite payloads_of_ordinary. }
      apply Forall_forall. intros q Hq. assert (unlink q ∈ unlink <$> ps) as (p & Hu & Hp)%list_elem_of_fmap
        by (rewrite <- Hperm; by apply list_elem_of_fmap_2).
      rewrite Forall_forall in Hn, Hs. pose proof (se_type _ (Hs p Hp)) as Ht.
      assert (get_type q = get_type p) as Eq by (by apply similar_type).
      split; [by rewrite Eq|]. rewrite <- unlink_sync by (by rewrite Eq). rewrite Hu, unlink_sync by done. by apply Hn.
    + rewrite E5. split; [apply Hr|done].
  - destruct (message_sealed junk false None None m r id ps vo k (Keymat (Some a) None) a a rng Hr Hv Ha Va eq_refl Va)
      as (st & m'' & k'' & rng'' & E' & _ & Hok). rewrite E in E'. injection E' as <- <- <- <-.
    destruct (Hok eq_refl) as ((a' & -> & Va') & _). eexists. split; [done|]. split; [by exists a'|exact Hin].
Qed.

(** Parsing keeps the keys. *)
Lemma decrypt_keys v (a : A) o assoc st o' a' : ae_view a = Some v ->
  EncryptedPayload.decrypt a o assoc = Some (st, o', a') -> ae_view a' = Some v.
Proof.
  intros Hv. unfold EncryptedPayload.decrypt. destruct (o_from_plain o).
  { case_bool_decide; [by intros [= <- <- <-]|]. destruct (enc_parse _ _) as [[? ?]|]; [|done]. by intros [= <- <- <-]. }
  destruct (negb _); [by intros [= <- <- <-]|]. unfold append_header, decrypt_content.
  set (o1 := update_length a o). destruct (_ || _); [case_bool_decide; by intros [= <- <- <-]|].
  destruct (load _ 0 _) as [iv|]; [|done]. cbn [mbind option_bind]. destruct (load _ _ _) as [crypt|]; [|done]. cbn [mbind option_bind].
  pose proof (ae_decrypt_view a v crypt (assoc ++ payload_header (o_p o1)) iv Hv) as Hd.
  destruct (aead_decrypt _ _ _ _) as [[plain|] a1]; cbn [snd] in Hd; [|case_bool_decide; by intros [= <- <- <-]].
  cbn [mbind option_bind]. destruct (list.last _); [|done]. cbn [mbind option_bind].
  destruct (_ <? _); [cbn [mbind option_bind]; case_bool_decide; by intros [= <- <- <-]|].
  destruct (load plain _ _); [|done]. cbn [mbind option_bind]. case_bool_decide; try by intros [= <- <- <-].
  destruct (enc_parse _ _) as [[? ?]|]; [|done]. by intros [= <- <- <-].
Qed.

Lemma decrypt_loop_keys vo vi accept r fuel : forall m (k : keymat A) l e st m' k', keys_ok vo vi k ->
  decrypt_loop accept fuel m r (Some k) l e = Some (st, m', k') -> exists k1, k' = Some k1 /\ keys_ok vo vi k1.
Proof.
  induction fuel as [|fuel IH]; [done|]. intros m k l e st m' k' Hk. cbn [decrypt_loop].
  destruct (LinkedList.seq_enumerate l) as [[o|] l1]; [|by intros [= <- <- <-]; eexists].
  destruct (_ && _); [by intros [= <- <- <-]; eexists|]. case_bool_decide; [done|]. pose proof Hk as [Hout (b & Hb & Vb)].
  case_bool_decide.
  - destruct (LinkedList.seq_enumerate _) as [[?|] l2]; [by intros [= <- <- <-]; eexists|]. unfold decrypt_and_extract. rewrite Hb.
    destruct (match m_parser _ with Some _ => _ | None => _ end) as [[[st1 o1] b1]|] eqn:E; [|done].
    assert (ae_view b1 = Some vi) as Vb1.
    { destruct (m_parser _); [|by eapply decrypt_keys]. destruct (_ || _); [by injection E as <- <- <-|].
      destruct (load _ _ _); [by eapply decrypt_keys|done]. }
    cbn [mbind option_bind]. assert (keys_ok vo vi (Keymat (Some b1) (aead_out k))) as Hk1 by (split; [done|by exists b1]).
    case_bool_decide; [by apply IH|]. intros [= <- <- <-]. by eexists.
  - case_bool_decide.
    + destruct (LinkedList.seq_enumerate _) as [[?|] l2]; [by intros [= <- <- <-]; eexists|]. unfold decrypt_fragment. rewrite Hb.
      destruct (_ || _); [cbn; by intros [= <- <- <-]; eexists|].
      destruct (load _ _ _); [|done]. cbn [mbind option_bind].
      destruct (EncryptedPayload.decrypt _ _ _) as [[[st1 o1] b1]|] eqn:E; [|done]. cbn [mbind option_bind].
      assert (keys_ok vo vi (Keymat (Some b1) (aead_out k))) as Hk1
        by (split; [done|exists b1; split; [done|by eapply decrypt_keys]]).
      case_bool_decide; [by apply IH|]. intros [= <- <- <-]. by eexists.
    + destruct (_ && _); [by intros [= <- <- <-]; eexists|]. by apply IH.
Qed.

Lemma parse_body_keys vo vi accept m (k : keymat A) st m' k' : keys_ok vo vi k ->
  parse_body accept m (Some k) = Some (st, m', k') -> exists k1, k' = Some k1 /\ keys_ok vo vi k1.
Proof.
  intros Hk. unfold parse_body. destruct (rule _); [|by intros [= <- <- <-]; eexists].
  destruct (match m_parser _ with Some _ => _ | None => _ end) as [[st1 m1]|]; [|done]. cbn [mbind option_bind].
  destruct (negb _); [by intros [= <- <- <-]; eexists|]. unfold decrypt_payloads.
  destruct (decrypt_loop _ _ _ _ _ _ _) as [[[st2 m2] k2]|] eqn:E; [|done]. cbn [mbind option_bind].
  destruct (decrypt_loop_keys _ _ _ _ _ _ _ _ _ _ _ _ Hk E) as (k1 & -> & Hk1).
  destruct (negb _); intros [= <- <- <-]; by eexists.
Qed.

(** ** Operations that leave the exchanges alone *)

(** Nothing is sent. *)
Definition quiet (s s' : sa) : Prop := sent_data s' = sent_data s /\ generated s `prefix_of` generated s'.

(** Tasks that work on the exchanges themselves: [ike_init.c] resets the manager when the
    responder asks for a cookie or another group, [ike_auth.c] sends an [INFORMATIONAL] request
    of its own with the next message ID when it gives up, and [ike_mid_sync.c] sets message IDs.
    The first two are done with once the IKE_SA is established. *)
Definition own_exchanges : list task_type_t := [TASK_IKE_INIT; TASK_IKE_AUTH; TASK_IKE_MID_SYNC].

Definition calm (t : T) : Prop := task_type t ∉ own_exchanges.

(** What creates tasks of another kind. *)
Definition ordinary_task (c : task_create) : bool :=
  match c with ike_init_create _ | ike_auth_create _ | ike_mid_sync_create => false | _ => true end.

Lemma calm_not_sync t : calm t -> task_type t <> TASK_IKE_MID_SYNC.
Proof. unfold calm. intros Hc E. apply Hc. rewrite E. right. right. left. Qed.

Definition calm_active (s : sa) : Prop :=
  Forall calm (active_tasks (tm s)) /\ Forall calm (q_task <$> queued_tasks (tm s)).

(** The exchanges are where they were, and [ds] is sent. *)
Record steady (ds : list chunk) (s s' : sa) : Prop := Steady {
  st_imid : i_mid (initiating (tm s')) = i_mid (initiating (tm s));
  st_type : i_type (initiating (tm s')) = i_type (initiating (tm s));
  st_ipackets : i_packets (initiating (tm s')) = i_packets (initiating (tm s));
  st_rmid : r_mid (responding (tm s')) = r_mid (responding (tm s));
  st_rpackets : r_packets (responding (tm s')) = r_packets (responding (tm s));
  st_keys vo vi : keys_ok vo vi (sa_keymat s) -> keys_ok vo vi (sa_keymat s');
  st_version : sa_version s' = sa_version s;
  st_cfg : ike_cfg s' = ike_cfg s;
  st_created : sa_state s <> IKE_CREATED -> sa_state s' <> IKE_CREATED;
  st_sent : sent_data s' = sent_data s ++ ds;
  st_generated : generated s `prefix_of` generated s';
  st_free : calm_active s -> calm_active s';
}.

(** The tasks that are active are the same, too. *)
Record kept (s s' : sa) : Prop := Kept {
  ke_steady : steady [] s s';
  ke_active : active_tasks (tm s') = active_tasks (tm s);
  ke_passive : passive_tasks (tm s') = passive_tasks (tm s);
  ke_reset : was_reset (tm s') = was_reset (tm s);
}.

#[export] Instance quiet_preorder : PreOrder quiet.
Proof. split; [by split|]. intros s1 s2 s3 [E1 P1] [E2 P2]. split; [by rewrite E2|by etrans]. Qed.

Lemma steady_refl s : steady [] s s.
Proof. constructor; try done. by rewrite app_nil_r. Qed.

Lemma steady_trans ds1 ds2 s1 s2 s3 : steady ds1 s1 s2 -> steady ds2 s2 s3 -> steady (ds1 ++ ds2) s1 s3.
Proof.
  intros H1' H2'. constructor; try (etrans; [apply H2'|apply H1']); try (intros; apply H2', H1'; done).
  - rewrite (st_sent _ _ _ H2'), (st_sent _ _ _ H1'). by rewrite app_assoc.
  - etrans; [apply H1'|apply H2'].
Qed.

Lemma steady_nil_trans ds s1 s2 s3 : steady [] s1 s2 -> steady ds s2 s3 -> steady ds s1 s3.
Proof. intros Q1 Q2. exact (steady_trans [] ds _ _ _ Q1 Q2). Qed.

Lemma steady_trans_nil ds s1 s2 s3 : steady ds s1 s2 -> steady [] s2 s3 -> steady ds s1 s3.
Proof. intros Q1 Q2. rewrite <- (app_nil_r ds). by eapply steady_trans. Qed.

#[export] Instance kept_preorder : PreOrder kept.
Proof.
  split; [intros s; split; [apply steady_refl|done..]|]. intros s1 s2 s3 [S1 A1 P1 R1] [S2 A2 P2 R2].
  split; [by eapply steady_nil_trans|by etrans..].
Qed.

Lemma steady_quiet s s' : steady [] s s' -> quiet s s'.
Proof. intros Q. split; [|apply Q]. rewrite (st_sent _ _ _ Q). apply app_nil_r. Qed.

Lemma kept_quiet s s' : kept s s' -> quiet s s'.
Proof. intros Q. apply steady_quiet, Q. Qed.

Lemma sent_emit s e : sent_data (emit s e) = sent_data s ++ option_list (sent_event e).
Proof. unfold sent_data. cbn [log emit]. rewrite omap_app. cbn. by destruct (sent_event e). Qed.

Lemma generated_emit s e : generated (emit s e) = generated s ++ option_list (generated_event e).
Proof. unfold generated. cbn [log emit]. rewrite omap_app. cbn. by destruct (generated_event e). Qed.

(** An event that is no packet. *)
Lemma emit_kept s e : sent_event e = None -> kept s (emit s e).
Proof.
  intros He. split; [|done..]. constructor; try done; [|].
  - rewrite sent_emit, He. done.
  - rewrite generated_emit. by apply prefix_app_r.
Qed.

Lemma emit_sent s p : steady [Packet.get_data p] s (emit s (Sent p)).
Proof. constructor; try done; [by rewrite sent_emit|rewrite generated_emit; by apply prefix_app_r]. Qed.

(** Updates of other fields. *)
Ltac unchanged := split; [|done..]; constructor; try done; by rewrite app_nil_r.

Lemma with_world_kept s w : kept s (with_world s w). Proof. unchanged. Qed.
Lemma with_stats_kept s i o : kept s (with_stats s i o). Proof. unchanged. Qed.
Lemma with_hosts_kept s me other : kept s (with_hosts s me other). Proof. unchanged. Qed.
Lemma with_flags_kept s c b : kept s (with_flags s c b). Proof. unchanged. Qed.
Lemma with_id_kept s id : kept s (with_id s id). Proof. unchanged. Qed.
Lemma set_tries_kept s n b : kept s (set_tries s n b). Proof. unchanged. Qed.

Ltac still := constructor; try done; by rewrite app_nil_r.

Lemma set_queued_kept s l : (Forall calm (q_task <$> queued_tasks (tm s)) -> Forall calm (q_task <$> l)) ->
  kept s (set_queued s l).
Proof.
  intros Hl. split; [|done..]. constructor; try done; [by rewrite app_nil_r|]. intros [F1 F2]. by split; [|apply Hl].
Qed.

Lemma set_active_steady s l : (calm_active s -> Forall calm l) -> steady [] s (set_active s l).
Proof. intros Hl. constructor; try done; [by rewrite app_nil_r|]. intros F. by split; [apply Hl|apply F]. Qed.

Lemma set_passive_steady s l : steady [] s (set_passive s l). Proof. still. Qed.
Lemma with_reset_steady s b : steady [] s (with_tm s (with_reset (tm s) b)). Proof. still. Qed.
Lemma set_r_defrag_kept s d : kept s (set_r_defrag s d). Proof. unchanged. Qed.
Lemma set_i_defrag_kept s d : kept s (set_i_defrag s d). Proof. unchanged. Qed.

(** ** Tasks that leave the exchanges to the manager *)

(** The tasks that are [calm] do not reset the manager, send or initiate an exchange by
    themselves, though they may queue tasks; they keep the keys and the configuration of the
    IKE_SA, do not change the ID and direction of the messages they build or the exchange of
    those they process, and do not generate the messages they build.  So a task that calls
    [ike_sa->initiate] has an exchange under way when it does, as tasks that process a response
    have: [initiate] then only queues.  Tasks that process a request may call it while there is
    none, [child_delete.c] if the close action of the CHILD_SA is to restart it and
    [ike_mobike.c] if the addresses of a CHILD_SA cannot be updated; a daemon that does this is
    not covered.  MOBIKE tasks transmit the packet they are given, to as many addresses as they
    like.  Listeners of the bus do not alter messages. *)
Class TaskLaws : Prop := {
  build_kept t m s st m' s' : calm t -> build t m s = Some (st, m', s') ->
    kept s s' /\ message_id m' = message_id m /\ is_request m' = is_request m /\ data m' = data m;
  process_kept t m s st m' s' : calm t -> process t m s = Some (st, m', s') -> kept s s' /\ exchange_type m' = exchange_type m;
  pre_process_kept t f m s st m' s' : calm t -> pre_process t = Some f -> f m s = Some (st, m', s') ->
    kept s s' /\ exchange_type m' = exchange_type m;
  destroy_kept t s : kept s (destroy t s);
  migrate_kept t s : kept s (migrate t s);
  create_kept c s : kept s (snd (create c s));
  create_calm c s : ordinary_task c = true -> calm (fst (create c s));
  collide_kept t t' s : kept s (collide t t' s);
  transmit_steady t p s b s' : transmit t p s = (b, s') ->
    exists ds, Forall (eq (pdata p)) ds /\ steady ds s s' /\ passive_tasks (tm s') = passive_tasks (tm s);
  update_child_sas_kept s : kept s (update_child_sas s);
  bus_unaltered m incoming plain w : fst (bus_message m incoming plain w) = m;
}.

Context {laws : TaskLaws}.

Lemma bus_spec m incoming plain s m' s' : bus m incoming plain s = (m', s') ->
  m' = m /\ kept s s' /\ (incoming = false -> plain = true -> m ∈ generated s').
Proof.
  unfold bus. pose proof (bus_unaltered m incoming plain (world s)) as Hb.
  destruct (bus_message _ _ _ _) as [m1 w]. cbn [fst] in Hb. subst m1. intros [= <- <-].
  split; [done|]. split; [etrans; [|apply with_world_kept]; by apply emit_kept|]. intros -> ->.
  change (m ∈ generated (emit s (BusMessage m false true))). rewrite generated_emit. apply elem_of_app. right. by left.
Qed.

Lemma update_hosts_kept s me other force : kept s (update_hosts s me other force).
Proof.
  unfold update_hosts. destruct (_ || _); [etrans; [apply with_hosts_kept|apply update_child_sas_kept]|].
  destruct (force && _).
  - destruct (_ && _); (etrans; [|apply update_child_sas_kept]).
    + etrans; [|apply with_hosts_kept]. etrans; [|by apply emit_kept]. etrans; [|apply with_hosts_kept]. by apply emit_kept.
    + etrans; [|apply with_hosts_kept]. by apply emit_kept.
  - destruct (_ && _); [|done]. etrans; [|apply update_child_sas_kept]. etrans; [|apply with_hosts_kept]. by apply emit_kept.
Qed.

Lemma destroy_all_kept l : forall s, kept s (destroy_all l s).
Proof. induction l as [|t l IH]; intros s; [done|]. etrans; [apply (destroy_kept t)|apply IH]. Qed.

Lemma flush_queue_steady q s : steady [] s (flush_queue q s).
Proof.
  destruct q; (eapply steady_nil_trans; [|apply ke_steady, destroy_all_kept]);
    [by apply set_active_steady|apply set_passive_steady|by apply set_queued_kept].
Qed.

Lemma flush_quiet s : quiet s (flush s).
Proof. unfold flush. etrans; [|etrans]; apply steady_quiet, flush_queue_steady. Qed.

Lemma send_packets_steady l src dst s : steady (pdata <$> l) s (send_packets l src dst s) /\
  passive_tasks (tm (send_packets l src dst s)) = passive_tasks (tm s).
Proof.
  unfold send_packets. revert s. induction l as [|p l IH]; intros s; [by split; [apply steady_refl|]|]. cbn [fold_left fmap list_fmap].
  match goal with |- context [emit s (Sent ?c)] => set (q := c) end.
  destruct (IH (emit s (Sent q))) as [Hs Hp]. split; [|by rewrite Hp].
  rewrite <- (pdata_readdressed p src dst). fold q. exact (steady_trans [_] _ _ _ _ (emit_sent s q) Hs).
Qed.

(** *** Loops over tasks *)

Lemma remove_active_steady i s : steady [] s (remove_active i s).
Proof. apply set_active_steady. intros [F _]. by apply Forall_delete. Qed.

Lemma remove_passive_steady i s : steady [] s (remove_passive i s).
Proof. apply set_passive_steady. Qed.

Lemma remove_destroy_steady t i s : steady [] s (destroy t (remove_active i s)) /\
  passive_tasks (tm (destroy t (remove_active i s))) = passive_tasks (tm s) /\
  was_reset (tm (destroy t (remove_active i s))) = was_reset (tm s).
Proof.
  pose proof (destroy_kept t (remove_active i s)) as [S _ P Re]. split; [|by rewrite P, Re].
  eapply steady_nil_trans; [apply remove_active_steady|exact S].
Qed.

Lemma build_request_spec fuel : forall i m s b m' s', calm_active s -> build_request fuel i m s = Some (b, m', s') ->
  message_id m' = message_id m /\ is_request m' = is_request m /\ data m' = data m /\ quiet s s' /\
  (b = true -> steady [] s s' /\ passive_tasks (tm s') = passive_tasks (tm s)).
Proof.
  induction fuel as [|fuel IH]; [done|]. intros i m s b m' s' F. cbn [build_request].
  destruct (active_tasks (tm s) !! i) as [t|] eqn:Et; [|intros [= <- <- <-]; split_and!; try done; intros _; by split; [apply steady_refl|]].
  destruct (build t m s) as [[[st m1] s1]|] eqn:E; [|done]. cbn [mbind option_bind].
  destruct (build_kept _ _ _ _ _ _ (Forall_lookup_1 _ _ _ _ (proj1 F) Et) E) as (Hk & E1 & E2 & E3). pose proof (kept_quiet _ _ Hk) as Hq.
  pose proof (st_free _ _ _ (ke_steady _ _ Hk) F) as F1.
  destruct st; intros E';
    try (injection E' as <- <- <-; do 3 (split; [done|]); split; [|done]; first [exact Hq|etrans; [exact Hq|];
         (destruct (_ || _); [by split|etrans; [|by apply kept_quiet, emit_kept]; by split])]).
  - destruct (remove_destroy_steady t i s1) as (S1 & P1 & _).
    destruct (IH _ _ _ _ _ _ (st_free _ _ _ S1 F1) E') as (M1 & M2 & M3 & Q & Hb). rewrite M1, M2, M3. split_and!; try done.
    + etrans; [exact Hq|]. etrans; [apply steady_quiet, S1|exact Q].
    + intros Hbt. destruct (Hb Hbt) as [S2 P2]. split; [|rewrite P2, P1; apply Hk].
      eapply steady_nil_trans; [apply Hk|]. by eapply steady_nil_trans.
  - destruct (IH _ _ _ _ _ _ F1 E') as (M1 & M2 & M3 & Q & Hb). rewrite M1, M2, M3. split_and!; try done.
    + by etrans.
    + intros Hbt. destruct (Hb Hbt) as [S2 P2]. split; [|rewrite P2; apply Hk]. eapply steady_nil_trans; [apply Hk|done].
Qed.

Lemma pre_process_loop_kept fuel tasks : (forall s s', kept s s' -> tasks s' = tasks s) ->
  forall i m s v m' s', Forall calm (tasks s) -> pre_process_loop fuel i tasks m s = Some (v, m', s') ->
  kept s s' /\ exchange_type m' = exchange_type m.
Proof.
  intros Ht. induction fuel as [|fuel IH]; [done|]. intros i m s v m' s' F. cbn [pre_process_loop].
  destruct (tasks s !! i) as [t|] eqn:Et; [|by intros [= <- <- <-]].
  destruct (pre_process t) as [f|] eqn:Ep; [|by apply IH].
  destruct (f m s) as [[[st m1] s1]|] eqn:E; [|done]. cbn [mbind option_bind].
  destruct (pre_process_kept _ _ _ _ _ _ _ (Forall_lookup_1 _ _ _ _ F Et) Ep E) as [Hk Hx].
  destruct st; try (intros [= <- <- <-]; by split). intros E'.
  destruct (IH _ _ _ _ _ _ ltac:(by rewrite (Ht _ _ Hk)) E') as [K1 X1].
  split; [by etrans|congruence].
Qed.

Lemma process_response_loop_spec fuel : forall i m s r m' s', calm_active s -> was_reset (tm s) = false ->
  process_response_loop fuel i m s = Some (r, m', s') ->
  quiet s s' /\ r <> Restart /\ (r = Processed -> steady [] s s' /\ passive_tasks (tm s') = passive_tasks (tm s)).
Proof.
  induction fuel as [|fuel IH]; [done|]. intros i m s r m' s' F Hr. cbn [process_response_loop].
  destruct (active_tasks (tm s) !! i) as [t|] eqn:Et; [|intros [= <- <- <-]; split_and!; try done; intros _; by split; [apply steady_refl|]].
  destruct (process t m s) as [[[st m1] s1]|] eqn:E; [|done]. cbn [mbind option_bind].
  destruct (process_kept _ _ _ _ _ _ (Forall_lookup_1 _ _ _ _ (proj1 F) Et) E) as [Hk _]. pose proof (kept_quiet _ _ Hk) as Hq.
  pose proof (st_free _ _ _ (ke_steady _ _ Hk) F) as F1.
  assert (was_reset (tm s1) = false) as Hr1 by (by rewrite (ke_reset _ _ Hk)).
  assert (forall s, quiet s (destroy t (remove_active i s))) as Hd.
  { intros s2. apply steady_quiet, remove_destroy_steady. }
  destruct st; intros E'; try (injection E' as <- <- <-; split; [|done]; etrans; [exact Hq|];
    first [apply Hd | etrans; [|apply Hd]; by apply kept_quiet, emit_kept]).
  - destruct (remove_destroy_steady t i s1) as (S1 & P1 & R1). rewrite R1, Hr1 in E'.
    destruct (IH _ _ _ _ _ _ (st_free _ _ _ S1 F1) ltac:(by rewrite R1) E') as (Q & Hn & Hp). split_and!; [|done|].
    + etrans; [exact Hq|]. etrans; [apply Hd|exact Q].
    + intros Hpr. destruct (Hp Hpr) as [S2 P2]. split; [|rewrite P2, P1; apply Hk].
      eapply steady_nil_trans; [apply Hk|]. by eapply steady_nil_trans.
  - rewrite Hr1 in E'. destruct (IH _ _ _ _ _ _ F1 Hr1 E') as (Q & Hn & Hp). split_and!; [by etrans|done|].
    intros Hpr. destruct (Hp Hpr) as [S2 P2]. split; [|rewrite P2; apply Hk]. eapply steady_nil_trans; [apply Hk|done].
Qed.

Definition calm_passive (s : sa) : Prop := Forall calm (passive_tasks (tm s)).

Lemma calm_passive_same s s' : passive_tasks (tm s') = passive_tasks (tm s) -> calm_passive s -> calm_passive s'.
Proof. unfold calm_passive. by intros ->. Qed.

Lemma calm_passive_remove i s : calm_passive s -> calm_passive (remove_passive i s).
Proof. unfold calm_passive. cbn. by apply Forall_delete. Qed.

Lemma process_request_loop_spec fuel : forall i m s b m' s', calm_passive s ->
  process_request_loop fuel i m s = Some (b, m', s') -> steady [] s s' /\ calm_passive s' /\ exchange_type m' = exchange_type m.
Proof.
  induction fuel as [|fuel IH]; [done|]. intros i m s b m' s' Hn. cbn [process_request_loop].
  destruct (passive_tasks (tm s) !! i) as [t|] eqn:Et; [|intros [= <- <- <-]; by split_and!; [apply steady_refl|..]].
  destruct (process t m s) as [[[st m1] s1]|] eqn:E; [|done]. cbn [mbind option_bind].
  destruct (process_kept _ _ _ _ _ _ (Forall_lookup_1 _ _ _ _ Hn Et) E) as [Hk Hx].
  assert (calm_passive s1) as Hn1 by (by eapply calm_passive_same; [apply Hk|]).
  assert (forall s2, calm_passive s2 -> steady [] s2 (destroy t (remove_passive i s2)) /\ calm_passive (destroy t (remove_passive i s2))) as Hd.
  { intros s2 Hn2. pose proof (destroy_kept t (remove_passive i s2)) as Hk2. split.
    - eapply steady_nil_trans; [apply remove_passive_steady|apply Hk2].
    - eapply calm_passive_same; [apply Hk2|by apply calm_passive_remove]. }
  destruct (Hd _ Hn1) as [S1 N1].
  destruct (Hd (emit s1 (IkeUpdown false)) Hn1) as [S2 N2].
  assert (steady [] s1 (destroy t (remove_passive i (emit s1 (IkeUpdown false))))) as S3.
  { eapply steady_nil_trans; [|exact S2]. by apply ke_steady, emit_kept. }
  destruct st; intros E'; try (injection E' as <- <- <-; split; [|done]; eapply steady_nil_trans; [apply Hk|done]).
  - destruct (IH _ _ _ _ _ _ N1 E') as (S4 & N4 & X4). split; [|by rewrite X4]. eapply steady_nil_trans; [apply Hk|]. eapply steady_nil_trans; [exact S1|exact S4].
  - destruct (IH _ _ _ _ _ _ Hn1 E') as (S4 & N4 & X4). split; [|by rewrite X4]. by eapply steady_nil_trans; [apply Hk|].
Qed.

Lemma handle_collisions_kept t s b s' : handle_collisions t s = (b, s') -> kept s s'.
Proof.
  unfold handle_collisions. destruct (task_type t); try (by intros [= <- <-]);
    (destruct (find _ _); [|by intros [= <- <-]]; intros [= <- <-]; apply collide_kept).
Qed.

Lemma build_response_loop_spec fuel : forall i f m s f' m' s', calm_passive s -> f_mid_sync f = false ->
  build_response_loop fuel i f m s = Some (f', m', s') ->
  message_id m' = message_id m /\ is_request m' = is_request m /\ data m' = data m /\
  steady [] s s' /\ calm_passive s' /\ f_mid_sync f' = false.
Proof.
  induction fuel as [|fuel IH]; [done|]. intros i f m s f' m' s' Hn Hf. cbn [build_response_loop].
  destruct (passive_tasks (tm s) !! i) as [t|] eqn:Et;
    [|intros [= <- <- <-]; split_and!; try done; apply steady_refl].
  rewrite Hf, (bool_decide_false (task_type t = _)) by (by eapply calm_not_sync, (Forall_lookup_1 _ _ _ _ Hn)). cbn [orb].
  destruct (build t m s) as [[[st m1] s1]|] eqn:E; [|done]. cbn [mbind option_bind].
  destruct (build_kept _ _ _ _ _ _ (Forall_lookup_1 _ _ _ _ Hn Et) E) as (Hk & E1 & E2 & E3).
  assert (calm_passive s1) as Hn1 by (by eapply calm_passive_same; [apply Hk|]).
  destruct (handle_collisions t s1) as [b1 s2] eqn:Ec. pose proof (handle_collisions_kept _ _ _ _ Ec) as Hk2.
  destruct (handle_collisions t (remove_passive i s1)) as [b3 s3] eqn:Ec3.
  pose proof (handle_collisions_kept _ _ _ _ Ec3) as Hk3.
  assert (steady [] s s2 /\ calm_passive s2) as [S2 N2].
  { split; [eapply steady_nil_trans; [apply Hk|apply Hk2]|]. by eapply calm_passive_same; [apply Hk2|]. }
  assert (steady [] s (if b3 then s3 else destroy t s3) /\ calm_passive (if b3 then s3 else destroy t s3)) as [S3 N3].
  { assert (steady [] s s3 /\ calm_passive s3) as [S3 N3].
    { split; [|eapply calm_passive_same; [apply Hk3|by apply calm_passive_remove]].
      eapply steady_nil_trans; [apply Hk|]. eapply steady_nil_trans; [apply remove_passive_steady|apply Hk3]. }
    destruct b3; [done|]. pose proof (destroy_kept t s3) as Hk4.
    split; [eapply steady_nil_trans; [exact S3|apply Hk4]|by eapply calm_passive_same; [apply Hk4|]]. }
  assert (steady [] s (remove_passive i s2) /\ calm_passive (remove_passive i s2)) as [S4 N4].
  { split; [eapply steady_nil_trans; [exact S2|apply remove_passive_steady]|by apply calm_passive_remove]. }
  destruct st; intros E';
    try (injection E' as <- <- <-; split_and!; try done; by destruct b1).
  - apply IH in E' as (M1 & M2 & M3 & S5 & N5 & F5); [|exact N3|done]. rewrite M1, M2, M3.
    split_and!; try done. eapply steady_nil_trans; [exact S3|exact S5].
  - destruct b1; (apply IH in E' as (M1 & M2 & M3 & S5 & N5 & F5); [|done..]);
      rewrite M1, M2, M3; split_and!; try done; (eapply steady_nil_trans; [|exact S5]); done.
Qed.

(** ** One end *)

Definition use_no_fragments (s : sa) : Prop :=
  exists c, ike_cfg s = Some c /\ (fragmentation c = FRAGMENTATION_NO \/ fragmentation c = FRAGMENTATION_ACCEPT).

Lemma no_fragments_used s m : use_no_fragments s -> use_fragments m s = false.
Proof. intros (c & E & Hf). unfold use_fragments. rewrite E. by destruct Hf as [->| ->]. Qed.

Section End_.
Context (vo vi : aead_view).

(** What holds of an end with keys [vo] for what it sends and [vi] for what it receives. *)
Record node_ok (s : sa) : Prop := NodeOk {
  no_keys : keys_ok vo vi (sa_keymat s);
  no_version : sa_version s = 2;
  no_fragments : use_no_fragments s;
  no_created : sa_state s <> IKE_CREATED;
  no_idle : i_type (initiating (tm s)) = EXCHANGE_TYPE_UNDEFINED <-> i_packets (initiating (tm s)) = [];
  no_imid : 0 <= i_mid (initiating (tm s)) < 2 ^ 32;
  no_rmid : 0 <= r_mid (responding (tm s)) < 2 ^ 32;
  no_first : r_mid (responding (tm s)) = 0 -> r_packets (responding (tm s)) = [];
  no_requests : Forall (fun p => reads vo (pdata p) true (i_mid (initiating (tm s)))) (i_packets (initiating (tm s)));
  no_responses : Forall (fun p => reads vo (pdata p) false (r_mid (responding (tm s)) - 1)) (r_packets (responding (tm s)));
  no_passive : calm_passive s;
  no_active : calm_active s;
}.

Definition view (s : sa) : endpoint :=
  Endpoint (i_mid (initiating (tm s))) (pdata <$> i_packets (initiating (tm s)))
    (r_mid (responding (tm s))) (pdata <$> r_packets (responding (tm s))).

Lemma steady_ok ds s s' : steady ds s s' -> calm_passive s' -> node_ok s -> node_ok s'.
Proof.
  intros [E1 E2 E3 E4 E5 E6 E7 E8 E9 _ _ E10] Hn [K V (c & Ec & Hc) C I M1 M2 M3 Q1 Q2 _ F].
  constructor; rewrite ?E1, ?E2, ?E3, ?E4, ?E5; auto; [congruence|]. exists c. by rewrite E8.
Qed.

Lemma kept_ok s s' : kept s s' -> node_ok s -> node_ok s'.
Proof. intros K O. eapply steady_ok; [apply K| |exact O]. eapply calm_passive_same; [apply K|apply O]. Qed.

Lemma steady_view ds s s' : steady ds s s' -> view s' = view s.
Proof. intros []. unfold view. congruence. Qed.

(** All that was generated was complete. *)
Definition all_complete (s : sa) : Prop := Forall (complete vo) (generated s).

Lemma all_complete_before s s' : generated s `prefix_of` generated s' -> all_complete s' -> all_complete s.
Proof. unfold all_complete. intros [l ->] Hc. by apply Forall_app in Hc as [? _]. Qed.

(** The operation that leads from [s] to [s'] is one of the specification, as far as the
    IKE_SA lives on. *)
Definition outcome (i : input) (s s' : sa) (alive : bool) : Prop :=
  exists outs e', exchange_steps i (view s) outs e' /\ sent_data s' = sent_data s ++ (l_data <$> outs) /\
    Forall (fun p => reads vo (l_data p) (l_request p) (l_mid p)) outs /\ generated s `prefix_of` generated s' /\
    (alive = true -> view s' = e' /\ node_ok s').

Lemma outcome_steady i s s' b : steady [] s s' -> calm_passive s' -> node_ok s -> outcome i s s' b.
Proof.
  intros St Hn Ho. exists [], (view s). split; [constructor|]. split; [apply St|]. split; [done|]. split; [apply St|].
  intros _. split; [by eapply steady_view|by eapply steady_ok].
Qed.

Lemma outcome_kept i s s' b : kept s s' -> node_ok s -> outcome i s s' b.
Proof. intros K O. eapply outcome_steady; [apply K| |exact O]. eapply calm_passive_same; [apply K|apply O]. Qed.

Lemma outcome_quiet i s s' : quiet s s' -> outcome i s s' false.
Proof.
  intros [E P]. exists [], (view s). split; [constructor|]. split; [by rewrite app_nil_r|]. by split_and!.
Qed.

Lemma outcome_trans i s s1 s2 b : outcome i s s1 true -> outcome i s1 s2 b -> outcome i s s2 b.
Proof.
  intros (o1 & e1 & X1 & D1 & R1 & G1 & V1) (o2 & e2 & X2 & D2 & R2 & G2 & V2). destruct (V1 eq_refl) as [E1 _].
  rewrite E1 in X2. exists (o1 ++ o2), e2. split; [by eapply steps_trans|].
  split; [rewrite D2, D1, fmap_app, app_assoc; done|]. split; [by apply Forall_app|]. split; [by etrans|done].
Qed.

Lemma outcome_kept_trans i s s1 s2 b : kept s s1 -> node_ok s -> (node_ok s1 -> outcome i s1 s2 b) -> outcome i s s2 b.
Proof. intros K O Hx. eapply outcome_trans; [by apply outcome_kept|]. apply Hx. by eapply kept_ok. Qed.

Lemma outcome_weaken i s s' b b' : (b' = true -> b = true) -> outcome i s s' b -> outcome i s s' b'.
Proof. intros Hb (o & e & X & D & R' & G & V). exists o, e. split_and!; auto. Qed.

Lemma outcome_dead i s s1 s2 b : outcome i s s1 b -> quiet s1 s2 -> outcome i s s2 false.
Proof.
  intros (o & e & X & D & R' & G & _) [E P]. exists o, e. split_and!; try done; [by rewrite E|by etrans].
Qed.

(** Sending the request again. *)
Lemma outcome_send i s s' b ds : steady ds s s' -> calm_passive s' -> node_ok s ->
  ds ⊆ pdata <$> i_packets (initiating (tm s)) -> outcome i s s' b.
Proof.
  intros St Hn Ho Hsub. exists (Labelled true (i_mid (initiating (tm s))) <$> ds), (view s).
  split; [apply steps_one, (Step_send i (view s)); exact Hsub|].
  split; [rewrite (st_sent _ _ _ St), <- list_fmap_compose; f_equal; symmetry; apply list_fmap_id|].
  split; [|split; [apply St|intros _; split; [by eapply steady_view|by eapply steady_ok]]].
  apply Forall_fmap, Forall_forall. intros d Hd. apply Hsub, list_elem_of_fmap in Hd as (p & -> & Hp).
  pose proof (no_requests _ Ho) as Hr. rewrite Forall_forall in Hr. exact (Hr p Hp).
Qed.

Lemma schedule_retransmit_kept timeout s st s' : schedule_retransmit timeout s = (st, s') -> kept s s' /\ st = SUCCESS.
Proof.
  unfold schedule_retransmit. intros [= <- <-]. split; [|done]. etrans; [|by apply emit_kept]. apply set_tries_kept.
Qed.

Lemma defer_exchange_kept s st s' : defer_exchange s = (st, s') -> kept s s' /\ st = SUCCESS.
Proof. unfold defer_exchange. intros [= <- <-]. split; [|done]. etrans; [apply with_flags_kept|apply set_tries_kept]. Qed.

Lemma retransmit_timeout_kept s timeout s' : retransmit_timeout s = (timeout, s') -> kept s s'.
Proof.
  unfold retransmit_timeout. destruct (retransmit_jitter (tm s) =? 0); [by intros [= <- <-]|].
  destruct (apply_jitter _ _ _) as [t w]. intros [= <- <-]. apply with_world_kept.
Qed.

(** The outcome after a MOBIKE task transmitted. *)
Lemma transmit_outcome i t p s sent s1 s' (b : bool) : transmit t p s = (sent, s1) -> node_ok s ->
  head (i_packets (initiating (tm s))) = Some p -> kept s1 s' -> outcome i s s' b.
Proof.
  intros Et Ho Hp K. destruct (transmit_steady _ _ _ _ _ Et) as (ds & Hds & St & Hpas).
  assert (calm_passive s1) as Hn by (eapply calm_passive_same; [exact Hpas|apply Ho]).
  eapply outcome_trans; [|apply outcome_kept; [exact K|by eapply steady_ok]].
  apply (outcome_send i s s1 true ds); [exact St|exact Hn|exact Ho|]. intros d Hd. rewrite Forall_forall in Hds.
  rewrite <- (Hds d Hd). apply list_elem_of_fmap_2. destruct (i_packets _); [done|]. injection Hp as <-. by left.
Qed.

Lemma retransmit_outcome i mid s st s' : node_ok s -> retransmit mid s = (st, s') ->
  outcome i s s' (bool_decide (st <> DESTROY_ME)).
Proof.
  intros Ho. unfold retransmit. destruct (i_packets (initiating (tm s))) as [|p l] eqn:Ep; [intros [= <- <-]; by apply outcome_kept|].
  destruct (negb _); [intros [= <- <-]; by apply outcome_kept|]. set (mobike := if _ =? _ then _ else _).
  destruct (match mobike with Some t => _ | None => None end) as [t|].
  { destruct (_ <=? _); [|intros [= <- <-]; by apply outcome_kept]. destruct (transmit t p s) as [sent s1] eqn:Et.
    destruct (negb sent); [intros [K ->]%defer_exchange_kept|intros [K ->]%schedule_retransmit_kept];
      (eapply transmit_outcome; [exact Et|exact Ho|by rewrite Ep|exact K]). }
  destruct (_ <=? _); [|intros [= <- <-]; apply outcome_kept; [by apply emit_kept|done]].
  destruct (retransmit_timeout s) as [timeout s1] eqn:Eto. pose proof (retransmit_timeout_kept _ _ _ Eto) as K1.
  set (s2 := if _ =? 0 then s1 else _). assert (kept s s2) as K2.
  { etrans; [exact K1|]. unfold s2. destruct (_ =? 0); [done|by apply emit_kept]. }
  intros E'. eapply outcome_kept_trans; [exact K2|exact Ho|]. intros Ho2.
  assert (i_packets (initiating (tm s2)) = p :: l) as Ep2 by (by rewrite (st_ipackets _ _ _ (ke_steady _ _ K2))).
  destruct mobike as [t|].
  - destruct (transmit t p s2) as [sent s3] eqn:Et.
    destruct (negb sent); [apply defer_exchange_kept in E' as [K ->]|apply schedule_retransmit_kept in E' as [K ->]];
      (eapply transmit_outcome; [exact Et|exact Ho2|by rewrite Ep2|exact K]).
  - apply schedule_retransmit_kept in E' as [K ->].
    destruct (send_packets_steady (i_packets (initiating (tm s2))) (Some (my_host s2)) (Some (other_host s2)) s2) as [St Hp].
    assert (calm_passive (send_packets (i_packets (initiating (tm s2))) (Some (my_host s2)) (Some (other_host s2)) s2)) as Hn
      by (eapply calm_passive_same; [exact Hp|apply Ho2]).
    eapply outcome_trans; [|apply outcome_kept; [exact K|by eapply steady_ok]]. by eapply outcome_send.
Qed.

Lemma retransmit_generated mid s st s' : retransmit mid s = (st, s') -> generated s `prefix_of` generated s'.
Proof.
  unfold retransmit. destruct (i_packets (initiating (tm s))) as [|p l]; [by intros [= <- <-]|].
  destruct (negb _); [by intros [= <- <-]|]. set (mobike := if _ =? _ then _ else _).
  assert (forall t sent s1 s2 s3, transmit t p s1 = (sent, s2) -> kept s2 s3 -> generated s1 `prefix_of` generated s3) as Ht.
  { intros t sent s1 s2 s3 E K. destruct (transmit_steady _ _ _ _ _ E) as (ds & _ & St & _). etrans; [apply St|apply K]. }
  destruct (match mobike with Some t => _ | None => None end) as [t|].
  { destruct (_ <=? _); [|by intros [= <- <-]]. destruct (transmit t p s) as [sent s1] eqn:Et.
    destruct (negb sent); [intros [K _]%defer_exchange_kept|intros [K _]%schedule_retransmit_kept]; by eapply Ht. }
  destruct (_ <=? _); [|intros [= <- <-]; rewrite generated_emit; by apply prefix_app_r].
  destruct (retransmit_timeout s) as [timeout s1] eqn:Eto. pose proof (retransmit_timeout_kept _ _ _ Eto) as K1.
  set (s2 := if _ =? 0 then s1 else _). intros E. trans (generated s2).
  { etrans; [apply K1|]. unfold s2. destruct (_ =? 0); [done|]. rewrite generated_emit. by apply prefix_app_r. }
  destruct mobike as [t|].
  - destruct (transmit t p s2) as [sent s3] eqn:Et.
    destruct (negb sent); [apply defer_exchange_kept in E as [K _]|apply schedule_retransmit_kept in E as [K _]]; by eapply Ht.
  - apply schedule_retransmit_kept in E as [K _]. etrans; [|apply K]. eapply (st_generated _ _ _ (proj1 (send_packets_steady _ _ _ _))).
Qed.

(** ** Generating *)

Lemma with_keys_steady s k rng : (forall vo' vi', keys_ok vo' vi' (sa_keymat s) -> keys_ok vo' vi' k) ->
  steady [] s (with_keys s k rng).
Proof. intros Hk. constructor; try done. by rewrite app_nil_r. Qed.

Lemma keys_view vo' vi' (k : keymat A) : keys_ok vo vi k -> keys_ok vo' vi' k -> vo' = vo.
Proof. intros [(a & Ha & Va) _] [(a' & Ha' & Va') _]. congruence. Qed.

Lemma pdata_packet (s : sa) m : pdata (set_dscp s (get_packet m)) = data m.
Proof.
  unfold set_dscp, get_packet. destruct (match peer_cfg s with Some _ => _ | None => _ end); rewrite ?pdata_dscp, pdata_clone;
    unfold pdata, Packet.clone; cbn; by destruct (destination m), (source m), (data m).
Qed.

Lemma sa_generate_spec m s st p m' s' : keys_ok vo vi (sa_keymat s) -> data m = [] ->
  sa_generate_message m s = Some (st, p, m', s') -> all_complete s' ->
  quiet s s' /\ (st = SUCCESS -> steady [] s s' /\ passive_tasks (tm s') = passive_tasks (tm s) /\
    exists q, p = Some q /\ reads vo (pdata q) (is_request m) (message_id m)) /\ (st <> SUCCESS -> p = None).
Proof.
  intros Hk Hd. unfold sa_generate_message, is_encoded. rewrite Hd, bool_decide_true by done. cbn [negb].
  set (s1 := with_stats s _ _). set (m1 := set_ike_sa_id m (sa_id s1)).
  destruct (bus m1 false true s1) as [m2 s2] eqn:Eb. destruct (bus_spec _ _ _ _ _ _ Eb) as (-> & K2 & Hin).
  assert (kept s s2) as K by (etrans; [apply with_stats_kept|exact K2]).
  destruct (generate junk m1 (Some (sa_keymat s2)) (sa_rng s2)) as [[[[st1 m3] k] rng]|] eqn:Eg; [|done]. cbn [mbind option_bind].
  case_bool_decide as Hst.
  2: { intros [= <- <- <- <-] _. split; [|by split]. etrans; [by apply kept_quiet|]. by split. }
  subst st1.
  set (s3 := with_keys s2 _ _). set (q := set_dscp s3 (get_packet m3)).
  destruct (bus m3 false false s3) as [m4 s4] eqn:Eb4. destruct (bus_spec _ _ _ _ _ _ Eb4) as (-> & K4 & _).
  intros [= <- <- <- <-] Hc.
  assert (complete vo m1) as Hm1.
  { unfold all_complete in Hc. rewrite Forall_forall in Hc. apply Hc. eapply elem_of_prefix; [by apply Hin|].
    apply (st_generated [] s3 s4), K4. }
  pose proof (st_keys _ _ _ (ke_steady _ _ K) _ _ Hk) as Hk2.
  assert (steady [] s s3) as S3.
  { eapply steady_nil_trans; [apply K|]. apply with_keys_steady. intros vo' vi' Hk'.
    pose proof (keys_view _ _ _ Hk2 Hk') as ->. destruct (generated_reads _ _ _ _ _ _ _ _ Hm1 Hk' Eg) as (_ & k1 & -> & ?). done. }
  assert (steady [] s s4) as S4 by (eapply steady_nil_trans; [exact S3|apply K4]).
  split; [by apply steady_quiet|]. split; [|done]. intros _. split; [exact S4|].
  split; [rewrite (ke_passive _ _ K4); apply (ke_passive _ _ K)|]. exists q. split; [done|]. unfold q. rewrite pdata_packet.
  exact (proj1 (generated_reads _ _ _ _ _ _ _ _ Hm1 Hk2 Eg)).
Qed.

Lemma tm_generate_spec m s ps s' : keys_ok vo vi (sa_keymat s) -> use_no_fragments s -> data m = [] ->
  tm_generate_message m s = Some (ps, s') -> all_complete s' ->
  quiet s s' /\ match ps with
    | Some ps => steady [] s s' /\ passive_tasks (tm s') = passive_tasks (tm s) /\
        exists q, ps = [q] /\ reads vo (pdata q) (is_request m) (message_id m)
    | None => True
    end.
Proof.
  intros Hk Hf Hd. unfold tm_generate_message, generate_message_fragmented. rewrite (no_fragments_used _ _ Hf). cbn [negb].
  destruct (sa_generate_message m s) as [[[[st p] m'] s1]|] eqn:E; [|done]. cbn [mbind option_bind].
  intros [= <- <-] Hc. destruct (sa_generate_spec _ _ _ _ _ _ Hk Hd E Hc) as (Q & Hs & _). split; [exact Q|].
  case_bool_decide as Hst; [|done]. destruct (Hs Hst) as (S1 & P1 & q & -> & Hr). split; [done|]. split; [done|]. by exists q.
Qed.

(** ** Initiating *)

Lemma activate_task_steady type s b s' : activate_task type s = (b, s') ->
  steady [] s s' /\ passive_tasks (tm s') = passive_tasks (tm s).
Proof.
  unfold activate_task. destruct (list_find _ _) as [[i q]|] eqn:El; intros [= <- <-]; [|by split; [apply steady_refl|]].
  apply list_find_Some in El as [El _]. split; [|done]. constructor; try done; [by rewrite app_nil_r|]. intros [F1 F2].
  rewrite Forall_fmap in F2. split; cbn.
  - apply Forall_app. split; [exact F1|]. apply Forall_singleton. exact (Forall_lookup_1 _ _ _ _ F2 El).
  - apply Forall_fmap. by apply Forall_delete.
Qed.

Lemma activate_first_steady l : forall s e s', activate_first l s = (e, s') ->
  steady [] s s' /\ passive_tasks (tm s') = passive_tasks (tm s).
Proof.
  induction l as [|[type ex] l IH]; intros s e s'; cbn [activate_first]; [intros [= <- <-]; by split; [apply steady_refl|]|].
  destruct (activate_task type s) as [b s1] eqn:E. destruct (activate_task_steady _ _ _ _ E) as [S1 P1].
  destruct b; [by intros [= <- <-]|]. intros E'. destruct (IH _ _ _ E') as [S2 P2].
  split; [by eapply steady_nil_trans|by rewrite P2].
Qed.

Lemma activate_new_steady s e s' : sa_state s <> IKE_CREATED -> activate_new s = (e, s') ->
  steady [] s s' /\ passive_tasks (tm s') = passive_tasks (tm s).
Proof.
  intros Hc. unfold activate_new. destruct (sa_state s); try done; try apply activate_first_steady;
    intros [= <- <-]; by split; [apply steady_refl|].
Qed.

(** While a request is built its type is set. *)
Lemma steady_retype ds s a s' : steady ds (set_i_type s a) s' -> steady ds s (set_i_type s' (i_type (initiating (tm s)))).
Proof. intros []. constructor; done. Qed.

(** A request is ready. *)
Lemma request_outcome i s q : node_ok (set_i_type s EXCHANGE_TYPE_UNDEFINED) -> i_type (initiating (tm s)) <> EXCHANGE_TYPE_UNDEFINED ->
  reads vo (pdata q) true (i_mid (initiating (tm s))) ->
  outcome i (set_i_type s EXCHANGE_TYPE_UNDEFINED) (set_i_packets s (i_packets (initiating (tm s)) ++ [q])) true.
Proof.
  intros Ho Ht Hr. assert (i_packets (initiating (tm s)) = []) as Hn by (by apply (proj1 (no_idle _ Ho))). rewrite Hn.
  eexists [], _. split; [|split; [by rewrite app_nil_r|split; [done|split; [done|intros _; split; [reflexivity|]]]]].
  - apply steps_one. apply (Step_request i (view (set_i_type s EXCHANGE_TYPE_UNDEFINED)) [pdata q]); [|done].
    cbn. by rewrite Hn.
  - destruct Ho. constructor; try done. by apply Forall_singleton.
Qed.

(** The request is generated and sent. *)
Lemma send_request_outcome i m s st s' : node_ok (set_i_type s EXCHANGE_TYPE_UNDEFINED) ->
  i_type (initiating (tm s)) <> EXCHANGE_TYPE_UNDEFINED -> is_request m = true -> message_id m = i_mid (initiating (tm s)) ->
  data m = [] ->
  ('(ps, s) ← tm_generate_message m s;
   match ps with
   | None => Some (DESTROY_ME, emit (flush s) (IkeUpdown false))
   | Some ps => let s := set_i_packets s (i_packets (initiating (tm s)) ++ ps) in Some (retransmit (i_mid (initiating (tm s))) s)
   end) = Some (st, s') -> all_complete s' ->
  outcome i (set_i_type s EXCHANGE_TYPE_UNDEFINED) s' (bool_decide (st <> DESTROY_ME)).
Proof.
  intros Ho Ht Hq Hm Hd. destruct (tm_generate_message m s) as [[ps s5]|] eqn:Eg; [|done]. cbn [mbind option_bind]. intros E Hc.
  assert (all_complete s5) as Hc5.
  { eapply all_complete_before; [|exact Hc]. destruct ps as [ps|]; injection E as E.
    - by apply retransmit_generated in E.
    - subst s'. etrans; [apply flush_quiet|]. rewrite generated_emit. by apply prefix_app_r. }
  assert (keys_ok vo vi (sa_keymat s)) as K4 by apply Ho. assert (use_no_fragments s) as F4 by apply Ho.
  destruct (tm_generate_spec _ _ _ _ K4 F4 Hd Eg Hc5) as [Q5 H5]. destruct ps as [ps|].
  2: { injection E as <- <-. apply outcome_quiet. trans s; [done|]. etrans; [exact Q5|]. etrans; [apply flush_quiet|].
       by apply kept_quiet, emit_kept. }
  destruct H5 as (S5 & P5 & q & -> & Hr). injection E as E.
  set (s0 := set_i_type s EXCHANGE_TYPE_UNDEFINED). assert (steady [] s0 (set_i_type s5 EXCHANGE_TYPE_UNDEFINED)) as S5'.
  { change EXCHANGE_TYPE_UNDEFINED with (i_type (initiating (tm s0))) at 1.
    apply steady_retype with (a := i_type (initiating (tm s))). destruct S5. constructor; done. }
  assert (calm_passive s5) as N5 by (eapply calm_passive_same; [exact P5|apply Ho]).
  eapply outcome_trans; [eapply outcome_steady; [exact S5'|exact N5|exact Ho]|].
  assert (outcome i (set_i_type s5 EXCHANGE_TYPE_UNDEFINED) (set_i_packets s5 (i_packets (initiating (tm s5)) ++ [q])) true) as O6.
  { apply request_outcome; [eapply steady_ok; [exact S5'|exact N5|exact Ho]|by rewrite (st_type _ _ _ S5)|].
    by rewrite (st_imid _ _ _ S5), <- Hm, <- Hq. }
  eapply outcome_trans; [exact O6|]. destruct O6 as (? & ? & _ & _ & _ & _ & Ho6). by eapply retransmit_outcome; [apply Ho6|].
Qed.

Lemma initiate_outcome i fuel : forall s st s', node_ok s -> initiate fuel s = Some (st, s') -> all_complete s' ->
  outcome i s s' (bool_decide (st <> DESTROY_ME)).
Proof.
  induction fuel as [|fuel IH]; [done|]. intros s st s' Ho. cbn [initiate]. destruct (_ =? _) eqn:Et; cbn [negb].
  2: { destruct (deferred _); [|intros [= <- <-] _; by apply outcome_kept]. intros [= E] _.
       eapply outcome_kept_trans; [apply set_tries_kept|exact Ho|]. intros Ho1. by eapply retransmit_outcome. }
  apply Z.eqb_eq in Et. destruct (match active_tasks (tm s) with [] => _ | _ => _ end) as [exchange s1] eqn:Ea.
  assert (steady [] s s1 /\ passive_tasks (tm s1) = passive_tasks (tm s)) as [S1 P1].
  { destruct (active_tasks (tm s)); [exact (activate_new_steady _ _ _ (no_created _ Ho) Ea)|].
    injection Ea as _ <-. by split; [apply steady_refl|]. }
  assert (node_ok s1) as Ho1 by (eapply steady_ok; [exact S1| |exact Ho]; eapply calm_passive_same; [exact P1|apply Ho]).
  assert (forall b, outcome i s s1 b) as O1 by (intros b; eapply outcome_steady; [exact S1|apply Ho1|exact Ho]).
  destruct (exchange =? 0); [intros [= <- <-] _; apply O1|].
  set (s2 := set_tries (set_i_type s1 exchange) 0 false). assert (quiet s1 s2) as Q2 by done.
  destruct (build_request _ _ _ s2) as [[[b m] s3]|] eqn:Eb; [|done]. cbn [mbind option_bind].
  destruct (build_request_spec _ _ _ s2 _ _ _ (no_active _ Ho1) Eb) as (M1 & M2 & M3 & Q3 & Hb).
  destruct b; cbn [negb]; [|intros [= <- <-] _; eapply outcome_dead; [apply (O1 true)|]; etrans; [exact Q3|apply flush_quiet]].
  destruct (Hb eq_refl) as [S3 P3].
  assert (steady [] s1 (set_i_type s3 EXCHANGE_TYPE_UNDEFINED)) as S3'.
  { replace EXCHANGE_TYPE_UNDEFINED with (i_type (initiating (tm s1))) by (by rewrite (st_type _ _ _ S1)).
    apply steady_retype with (a := exchange). eapply steady_nil_trans; [|exact S3]. apply ke_steady, set_tries_kept. }
  assert (calm_passive s3) as N3 by (eapply calm_passive_same; [exact P3|apply Ho1]).
  assert (node_ok (set_i_type s3 EXCHANGE_TYPE_UNDEFINED)) as Ho3 by (eapply steady_ok; [exact S3'|exact N3|exact Ho1]).
  destruct (_ =? _) eqn:Eu.
  { apply Z.eqb_eq in Eu. rewrite Eu. intros E Hc. eapply outcome_trans; [apply (O1 true)|].
    eapply outcome_trans; [by eapply outcome_steady; [exact S3'| |]|]. by apply IH. }
  apply Z.eqb_neq in Eu. intros E Hc. eapply outcome_trans; [apply (O1 true)|].
  eapply outcome_trans; [by eapply outcome_steady; [exact S3'|exact N3|exact Ho1]|].
  apply (send_request_outcome i m (set_i_type s3 (exchange_type m))); [exact Ho3|done|by rewrite M2| |by rewrite M3|exact E|exact Hc].
  rewrite M1. pose proof (st_imid _ _ _ S3') as E3. change (i_mid (initiating (tm s1)) = i_mid (initiating (tm s3))). by rewrite <- E3.
Qed.

(** ** Responses *)

Definition finished (s : sa) : sa :=
  set_i_packets (set_i_type (set_i_mid s (u32 (i_mid (initiating (tm s)) + 1))) EXCHANGE_TYPE_UNDEFINED) [].

Lemma finished_outcome d s : node_ok s -> i_packets (initiating (tm s)) <> [] -> i_mid (initiating (tm s)) + 1 < 2 ^ 32 ->
  outcome (Received (Labelled false (i_mid (initiating (tm s))) d)) s (finished s) true.
Proof.
  intros Ho Hp Hm. pose proof (no_imid _ Ho). assert (u32 (i_mid (initiating (tm s)) + 1) = i_mid (initiating (tm s)) + 1) as Eu
    by (apply uwrap_small; lia).
  eexists [], _. split; [|split; [by rewrite app_nil_r|split; [done|split; [done|intros _; split; [reflexivity|]]]]].
  - unfold view at 2, finished. cbn. rewrite Eu. apply steps_one.
    apply (Step_complete _ (view s) d); [|done]. cbn. by destruct (i_packets _).
  - destruct Ho. constructor; try done. cbn. rewrite Eu. lia.
Qed.

Lemma process_response_outcome d fuel m s st s' : node_ok s -> i_mid (initiating (tm s)) + 1 < 2 ^ 32 ->
  exchange_type m <> EXCHANGE_TYPE_UNDEFINED -> process_response fuel m s = Some (st, s') -> all_complete s' ->
  outcome (Received (Labelled false (i_mid (initiating (tm s))) d)) s s' (bool_decide (st = SUCCESS)).
Proof.
  intros Ho Hmid Hu. unfold process_response. destruct (_ =? _) eqn:Et; cbn [negb].
  2: { intros [= <- <-] _. apply outcome_quiet. by apply kept_quiet, emit_kept. }
  apply Z.eqb_eq in Et. destruct (pre_process_loop _ _ _ m s) as [[[v m1] s1]|] eqn:Ep; [|done]. cbn [mbind option_bind].
  destruct (pre_process_loop_kept _ _ (fun _ _ K => ke_active _ _ K) _ _ _ _ _ _ (proj1 (no_active _ Ho)) Ep) as [K1 _].
  destruct v as [v|]; [destruct v; intros [= <- <-] _; by apply outcome_kept|].
  set (s2 := if _ <? _ then _ else s1). assert (kept s s2) as K2.
  { etrans; [exact K1|]. unfold s2. destruct (_ <? _); [by apply emit_kept|done]. }
  set (s3 := with_tm s2 _).
  destruct (process_response_loop _ _ m1 s3) as [[[r m4] s4]|] eqn:El; [|done]. cbn [mbind option_bind].
  destruct (process_response_loop_spec _ _ _ s3 _ _ _ (no_active _ (kept_ok _ _ K2 Ho)) eq_refl El) as (Q4 & Hnr & Hp).
  assert (quiet s s4) as Q by (etrans; [by apply kept_quiet|]; etrans; [|exact Q4]; apply steady_quiet, with_reset_steady).
  destruct r; [|done|intros [= <- <-] _; by apply outcome_quiet].
  destruct (Hp eq_refl) as [S4 P4].
  assert (steady [] s s4) as S by (eapply steady_nil_trans; [apply K2|]; eapply steady_nil_trans; [apply with_reset_steady|exact S4]).
  assert (calm_passive s4) as N4 by (eapply calm_passive_same; [exact P4|]; eapply calm_passive_same; [apply (ke_passive _ _ K2)|apply Ho]).
  assert (node_ok s4) as Ho4 by (by eapply steady_ok). fold (finished s4). intros E Hc.
  eapply outcome_trans; [by eapply outcome_steady|]. rewrite <- (st_imid _ _ _ S).
  assert (outcome (Received (Labelled false (i_mid (initiating (tm s4))) d)) s4 (finished s4) true) as O5.
  { apply finished_outcome; [done| |by rewrite (st_imid _ _ _ S)]. rewrite (st_ipackets _ _ _ S). intros En.
    apply (no_idle _ Ho) in En. congruence. }
  eapply outcome_trans; [exact O5|]. destruct O5 as (? & ? & _ & _ & _ & _ & Ho5).
  eapply outcome_weaken; [|by eapply initiate_outcome; [apply Ho5| |]]. intros Hs%bool_decide_eq_true. subst st. done.
Qed.

(** ** Requests *)

Lemma append_passive_spec c s : ordinary_task c = true -> calm_passive s ->
  steady [] s (append_passive c s) /\ calm_passive (append_passive c s).
Proof.
  intros Hc Hn. unfold append_passive. pose proof (create_kept c s) as K. pose proof (create_calm c s Hc) as Ht.
  destruct (create c s) as [t s1]. cbn [fst snd] in *. split; [eapply steady_nil_trans; [apply K|apply set_passive_steady]|].
  unfold calm_passive. cbn. rewrite (ke_passive _ _ K). apply Forall_app. split; [exact Hn|by apply Forall_singleton].
Qed.

Lemma first_task_usual state qs : Forall usual qs -> ordinary_task (first_task state (ordinary <$> qs)) = true.
Proof.
  induction 1 as [|q qs [Ht Hs] _ IH]; cbn [first_task fmap list_fmap]; [done|].
  unfold informational_task. change (object_type (ordinary q)) with (get_type q). change (notify_type (ordinary q)) with (int_field q "notify_type").
  unfold sync_notify in Hs. destruct (get_type q); try exact IH.
  - rewrite bool_decide_true in Hs by done. cbn [andb] in Hs. case_bool_decide; [exact IH|]. case_bool_decide; [done|].
    destruct (_ =? AUTH_LIFETIME); [done|]. destruct (_ =? AUTHENTICATION_FAILED); [done|]. destruct (_ =? REDIRECT); [done|].
    apply orb_false_iff in Hs as [-> _]. exact IH.
  - clear Hs. by destruct (int_field _ "protocol_id" =? 1).
Qed.

Lemma create_passive_spec m s s' qs : calm_passive s -> exchange_type m <> IKE_SA_INIT -> payloads m = ordinary <$> qs -> Forall usual qs ->
  create_passive m s = Some s' -> steady [] s s' /\ calm_passive s'.
Proof.
  intros Hn Hx Hp Hu. unfold create_passive. destruct (passive_tasks (tm s)) eqn:E.
  2: { intros [= <-]. by split; [apply steady_refl|]. }
  rewrite (proj2 (Z.eqb_neq _ _) Hx). destruct (_ =? _).
  { destruct (_ || _); [done|]. intros [= <-]. apply append_passive_spec; [|done]. unfold child_sa_task.
    destruct (existsb _ _); [destruct (existsb _ _)|]; done. }
  destruct (_ =? _); [|intros [= <-]; by split; [apply steady_refl|]].
  intros [= <-]. apply append_passive_spec; [|done]. rewrite Hp. by apply first_task_usual.
Qed.

(** The packets of the last answer are replaced while a request is answered. *)
Lemma steady_repackets ds s a s' b : steady ds (set_r_packets s a) s' -> steady ds (set_r_packets s b) (set_r_packets s' b).
Proof. intros []. constructor; done. Qed.

Lemma steady_same_packets s : steady [] s (set_r_packets s (r_packets (responding (tm s)))).
Proof. still. Qed.

(** [d] was sent as the answer, and the IKE_SA is left as it was but for the answer it
    keeps. *)
Definition answered_with (d : chunk) (s s' : sa) (alive : bool) : Prop :=
  reads vo d false (r_mid (responding (tm s))) /\ sent_data s' = sent_data s ++ [d] /\
  generated s `prefix_of` generated s' /\
  (alive = true -> steady [d] s (set_r_packets s' (r_packets (responding (tm s)))) /\
    pdata <$> r_packets (responding (tm s')) = [d] /\ calm_passive s').

Definition request_result (st : status_t) (s s' : sa) : Prop :=
  match st with
  | SUCCESS => exists d, answered_with d s s' true
  | NEED_MORE => steady [] s s' /\ calm_passive s'
  | _ => quiet s s' \/ exists d, answered_with d s s' false
  end.

Lemma build_response_spec request s st s' : node_ok s -> exchange_type request <> IKE_SA_INIT ->
  build_response request s = Some (st, s') -> all_complete s' -> request_result st s s'.
Proof.
  intros Ho Hex. unfold build_response. destruct (build_response_loop _ _ _ _ s) as [[[f m] s1]|] eqn:El; [|done].
  cbn [mbind option_bind].
  destruct (build_response_loop_spec _ _ (Flags false false false) _ _ _ _ _ (no_passive _ Ho) eq_refl El) as (M1 & M2 & M3 & S1 & N1 & F1).
  rewrite (proj2 (Z.eqb_neq _ _) Hex), andb_false_r. assert (node_ok s1) as Ho1 by (by eapply steady_ok).
  destruct (tm_generate_message m (set_r_packets s1 [])) as [[ps s2]|] eqn:Eg; [|done]. cbn [mbind option_bind]. intros E Hc.
  assert (all_complete s2) as Hc2.
  { eapply all_complete_before; [|exact Hc]. destruct ps as [ps|].
    - assert (forall l, generated s2 `prefix_of` generated (send_packets l None None (set_r_packets s2 l))) as Hp.
      { intros l. eapply (st_generated _ _ _ (proj1 (send_packets_steady l None None (set_r_packets s2 l)))). }
      rewrite F1 in E. destruct (f_delete f); [destruct (f_hook f)|]; injection E as <- <-; try apply Hp.
      rewrite generated_emit. apply prefix_app_r, Hp.
    - injection E as <- <-. rewrite generated_emit. by apply prefix_app_r. }
  assert (keys_ok vo vi (sa_keymat (set_r_packets s1 []))) as K1 by apply Ho1.
  assert (use_no_fragments (set_r_packets s1 [])) as U1 by apply Ho1.
  destruct (tm_generate_spec _ _ _ _ K1 U1 ltac:(by rewrite M3) Eg Hc2) as [Q2 H2'].
  destruct ps as [ps|].
  2: { injection E as <- <-. left. etrans; [by apply steady_quiet|]. etrans; [exact Q2|]. by apply kept_quiet, emit_kept. }
  destruct H2' as (S2 & P2 & q & -> & Hr). rewrite M1, M2 in Hr. change (reads vo (pdata q) false (r_mid (responding (tm s)))) in Hr.
  assert (r_packets (responding (tm s2)) = []) as En by (by rewrite (st_rpackets _ _ _ S2)).
  rewrite En in E. cbn [app] in E. set (s3 := set_r_packets s2 [q]) in E.
  change (r_packets (responding (tm s3))) with [q] in E.
  destruct (send_packets_steady [q] None None s3) as [S4 P4]. set (s4 := send_packets _ _ _ _) in *.
  assert (answered_with (pdata q) s s4 true) as Ha.
  { split; [exact Hr|]. assert (steady [] s1 (set_r_packets s2 (r_packets (responding (tm s1))))) as S12.
    { eapply steady_nil_trans; [apply steady_same_packets|]. by eapply steady_repackets. }
    assert (steady [pdata q] s (set_r_packets s4 (r_packets (responding (tm s))))) as S.
    { eapply steady_nil_trans; [exact S1|]. rewrite <- (st_rpackets _ _ _ S1).
      eapply steady_nil_trans; [exact S12|]. eapply steady_repackets. exact S4. }
    split; [apply (st_sent _ _ _ S)|]. split; [apply (st_generated _ _ _ S)|]. intros _. split; [exact S|].
    split; [by rewrite (st_rpackets _ _ _ S4)|]. eapply calm_passive_same; [exact P4|]. by eapply calm_passive_same; [exact P2|]. }
  rewrite F1 in E. destruct (f_delete f); [|injection E as <- <-; by exists (pdata q)].
  destruct Ha as (A1 & A2 & A3 & _).
  destruct (f_hook f); injection E as <- <-; right; exists (pdata q); (split; [exact A1|]); [|done].
  rewrite sent_emit, generated_emit, app_nil_r. split; [exact A2|]. split; [by apply prefix_app_r|done].
Qed.

(** A request that is only looked at changes nothing of the result. *)
Lemma request_result_steady st s s1 s' : steady [] s s1 -> request_result st s1 s' -> request_result st s s'.
Proof.
  intros S Hr. assert (forall d b, answered_with d s1 s' b -> answered_with d s s' b) as Ha.
  { intros d b (A1 & A2 & A3 & A4). rewrite (st_rmid _ _ _ S), (st_rpackets _ _ _ S) in *. destruct (steady_quiet _ _ S) as [E P].
    split; [exact A1|]. split; [by rewrite A2, E|]. split; [by etrans|]. intros Hb. destruct (A4 Hb) as [S1 ?].
    split; [|done]. by eapply steady_nil_trans. }
  assert (quiet s1 s' \/ (exists d, answered_with d s1 s' false) -> quiet s s' \/ exists d, answered_with d s s' false) as Hq.
  { intros [Q|(d & Hd)]; [left; etrans; [by apply steady_quiet|exact Q]|right; exists d; by apply Ha]. }
  destruct st; try (by apply Hq).
  - destruct Hr as (d & Hd). exists d. by apply Ha.
  - destruct Hr as [S1 N1]. split; [by eapply steady_nil_trans|exact N1].
Qed.

Lemma process_request_spec m s st s' qs : node_ok s -> exchange_type m <> IKE_SA_INIT -> payloads m = ordinary <$> qs ->
  Forall usual qs -> process_request m s = Some (st, s') -> all_complete s' -> request_result st s s'.
Proof.
  intros Ho Hex Hp Hu. unfold process_request. destruct (create_passive m s) as [s1|] eqn:Ec; [|intros [= <- <-] _; by left].
  destruct (create_passive_spec _ _ _ _ (no_passive _ Ho) Hex Hp Hu Ec) as [S1 N1].
  destruct (pre_process_loop _ _ _ m s1) as [[[v m2] s2]|] eqn:El; [|done]. cbn [mbind option_bind].
  destruct (pre_process_loop_kept _ _ (fun _ _ K => ke_passive _ _ K) _ _ _ _ _ _ N1 El) as [K2 X2].
  assert (steady [] s s2) as S2 by (eapply steady_nil_trans; [exact S1|apply K2]).
  assert (calm_passive s2) as N2 by (eapply calm_passive_same; [apply K2|exact N1]).
  intros E Hc. apply (request_result_steady _ _ _ _ S2). destruct v as [v|].
  { rewrite X2, (proj2 (Z.eqb_neq _ _) Hex) in E.
    assert (request_result NEED_MORE s2 (if exchange_type m =? IKE_AUTH then s2 else flush_queue TASK_QUEUE_PASSIVE s2)) as Hn.
    { destruct (_ =? _); [by split; [apply steady_refl|]|]. split; [apply flush_queue_steady|].
      unfold calm_passive, flush_queue. rewrite (ke_passive _ _ (destroy_all_kept _ _)). apply Forall_nil_2. }
    destruct v; injection E as <- <-; first [exact Hn|by left]. }
  destruct (process_request_loop _ _ m2 s2) as [[[ok m3] s3]|] eqn:Er; [|done]. cbn [mbind option_bind] in E.
  destruct (process_request_loop_spec _ _ _ _ _ _ _ N2 Er) as (S3 & N3 & X3). apply (request_result_steady _ _ _ _ S3).
  destruct ok; [|injection E as <- <-; by left]. eapply build_response_spec; [|by rewrite X3, X2|exact E|exact Hc].
  eapply steady_ok; [exact S3|exact N3|]. eapply steady_ok; [exact S2|exact N2|exact Ho].
Qed.

(** ** Incoming messages *)

(** A message that is read as one of the other end. *)
Record incoming_ok (m : message) : Prop := IncomingOk {
  in_payloads : exists qs, payloads m = ordinary <$> qs /\ Forall usual qs;
  in_exchange : exchange_type m ∈ [IKE_AUTH; CREATE_CHILD_SA; INFORMATIONAL];
}.

Lemma in_not_init m : incoming_ok m -> exchange_type m <> IKE_SA_INIT /\ exchange_type m <> EXCHANGE_TYPE_UNDEFINED.
Proof.
  intros [_ He]. apply list_elem_of_In in He. destruct He as [<-|[<-|[<-|[]]]]; by split.
Qed.

Lemma in_not_fragment m : incoming_ok m -> get_payload m PLV2_FRAGMENT = None.
Proof.
  intros [(qs & Hp & Hu) _]. unfold get_payload. rewrite Hp. clear Hp. induction Hu as [|q qs [Ht _] _ IH]; [done|].
  cbn [fmap list_fmap find]. rewrite bool_decide_false; [exact IH|]. intros E. unfold object_type in E. cbn in E. by rewrite E in Ht.
Qed.

Lemma in_not_critical m : incoming_ok m -> critical_unknown (payloads m) = None.
Proof.
  intros [(qs & -> & Hu) _]. induction Hu as [|q qs [Ht _] _ IH]; [done|]. cbn [fmap list_fmap critical_unknown].
  change (o_p (ordinary q)) with q. by rewrite (sendable_class q Ht).
Qed.

Lemma in_not_sync m strict : incoming_ok m -> looks_like_mid_sync m strict = false.
Proof.
  intros [(qs & Hp & Hu) _]. unfold looks_like_mid_sync. destruct (_ =? _); [|done]. rewrite Hp. clear Hp.
  induction Hu as [|q qs [_ Hs] _ IH]; [done|]. cbn [fmap list_fmap sync_loop].
  change (_ && _) with (sync_notify q). rewrite Hs. by destruct strict.
Qed.

Lemma handle_no_fragment reinject get set m s : incoming_ok m ->
  tm_handle_fragment reinject get set m s = Some (SUCCESS, set s (get s)).
Proof. intros Hi. unfold tm_handle_fragment, handle_fragment. by rewrite (in_not_fragment _ Hi). Qed.

(** A request was answered. *)
Lemma answer_outcome d0 d s s' : node_ok s -> r_mid (responding (tm s)) + 1 < 2 ^ 32 -> answered_with d s s' true ->
  outcome (Received (Labelled true (r_mid (responding (tm s))) d0)) s (set_r_mid s' (u32 (r_mid (responding (tm s')) + 1))) true.
Proof.
  intros Ho Hm (Hr & Hs & Hg & Ha). destruct (Ha eq_refl) as (St & Hp & Hn). pose proof (no_rmid _ Ho).
  pose proof (st_rmid _ _ _ St) as Er. cbn in Er. rewrite Er, uwrap_small by lia.
  eexists [Labelled false (r_mid (responding (tm s))) d], _. split; [|split; [exact Hs|split; [by apply Forall_singleton|
    split; [exact Hg|intros _; split; [reflexivity|]]]]].
  - unfold view at 2. cbn. rewrite Hp. pose proof (st_imid _ _ _ St) as Ei. pose proof (st_ipackets _ _ _ St) as Ep. cbn in Ei, Ep.
    rewrite Ei, Ep. apply steps_one, (Step_answer _ (view s) d0 [d]). done.
  - pose proof (steady_ok _ _ _ St Hn Ho) as Ho'. destruct Ho'. constructor; try done; cbn in *; [lia|lia|].
    apply (Forall_fmap pdata (fun c => reads vo c false (r_mid (responding (tm s)) + 1 - 1))). rewrite Hp.
    apply Forall_singleton. by replace (r_mid (responding (tm s)) + 1 - 1) with (r_mid (responding (tm s))) by lia.
Qed.

(** The last answer is sent again. *)
Lemma repeat_outcome d s src dst b : node_ok s -> 0 < r_mid (responding (tm s)) ->
  outcome (Received (Labelled true (r_mid (responding (tm s)) - 1) d)) s
    (send_packets (r_packets (responding (tm s))) src dst s) b.
Proof.
  intros Ho Hm. destruct (send_packets_steady (r_packets (responding (tm s))) src dst s) as [St Hp].
  assert (calm_passive (send_packets (r_packets (responding (tm s))) src dst s)) as Hn by (eapply calm_passive_same; [exact Hp|apply Ho]).
  exists (Labelled false (r_mid (responding (tm s)) - 1) <$> (pdata <$> r_packets (responding (tm s)))), (view s).
  split; [apply steps_one, (Step_repeat _ (view s) d); done|].
  split; [rewrite (st_sent _ _ _ St), <- (list_fmap_compose _ l_data); f_equal; symmetry; apply list_fmap_id|].
  split; [|split; [apply St|intros _; split; [by eapply steady_view|by eapply steady_ok]]].
  apply Forall_fmap, Forall_fmap. apply (no_responses _ Ho).
Qed.

Lemma receive_request_outcome reinject d m s st fin s' : node_ok s -> r_mid (responding (tm s)) + 1 < 2 ^ 32 -> incoming_ok m ->
  receive_request reinject m s = Some (st, fin, s') -> all_complete s' ->
  outcome (Received (Labelled true (message_id m) d)) s s' (bool_decide (st <> DESTROY_ME)).
Proof.
  intros Ho Hm Hi. destruct (in_not_init _ Hi) as [Hx1 Hx2]. pose proof (no_rmid _ Ho). unfold receive_request.
  assert (is_mid_sync s m = false) as -> by (unfold is_mid_sync; rewrite (in_not_sync _ _ Hi); by destruct (_ && _)).
  rewrite andb_false_r, orb_false_r, (in_not_sync _ _ Hi), andb_false_r, andb_true_r. destruct (_ =? _) eqn:Em.
  - apply Z.eqb_eq in Em. rewrite Em. destruct (unexpected_request _ _); [intros [= <- <- <-] _; by apply outcome_kept|].
    set (s1 := if supports_extension s _ then s else _). rewrite handle_no_fragment by done. cbn [mbind option_bind].
    rewrite bool_decide_true by done. cbn [negb]. set (s2 := set_r_defrag s1 _).
    destruct (bus m true true s2) as [m3 s3] eqn:Eb. destruct (bus_spec _ _ _ _ _ _ Eb) as (-> & K3 & _).
    assert (kept s s3) as K.
    { etrans; [|exact K3]. etrans; [|apply set_r_defrag_kept]. unfold s1. destruct (supports_extension _ _); [done|apply update_hosts_kept]. }
    rewrite (proj2 (Z.eqb_neq _ _) Hx2). destruct (process_request m s3) as [[st1 s4]|] eqn:Ep; [|done]. cbn [mbind option_bind].
    intros E Hc. eapply outcome_kept_trans; [exact K|exact Ho|]. intros Ho3. destruct (in_payloads _ Hi) as (qs & Hp & Hu).
    assert (all_complete s4) as Hc4.
    { eapply all_complete_before; [|exact Hc]. destruct st1; injection E as <- <- <-; try done; apply flush_quiet. }
    pose proof (process_request_spec _ _ _ _ _ Ho3 Hx1 Hp Hu Ep Hc4) as Hr. rewrite <- (st_rmid _ _ _ (ke_steady _ _ K)) in Hm |- *.
    assert (forall d', answered_with d' s3 s4 false -> outcome (Received (Labelled true (r_mid (responding (tm s3))) d)) s3 (flush s4) false) as Hf.
    { intros d' (A1 & A2 & A3 & _). destruct (flush_quiet s4) as [F1 F2].
      eexists [Labelled false (r_mid (responding (tm s3))) d'], _.
      split; [apply steps_one, (Step_answer _ (view s3) d [d']); done|].
      split; [by rewrite F1, A2|]. split; [by apply Forall_singleton|]. split; [by etrans|done]. }
    destruct st1; injection E as <- <- <-; try (destruct Hr as [Q|(d' & Hd)]; [apply outcome_quiet; etrans; [exact Q|apply flush_quiet]|by eapply Hf]).
    + destruct Hr as (d' & Hd). by eapply answer_outcome.
    + destruct Hr as [S4 N4]. by eapply outcome_steady.
  - destruct (_ && _) eqn:Ea; [|intros [= <- <- <-] _; by apply outcome_kept].
    apply andb_true_iff in Ea as [Ea1 Ea2]. apply Z.eqb_eq in Ea1. apply negb_true_iff, bool_decide_eq_false in Ea2.
    assert (0 < r_mid (responding (tm s))) as Hpos.
    { destruct (Z.eq_dec (r_mid (responding (tm s))) 0) as [Ez|]; [by destruct (Ea2 (no_first _ Ho Ez))|lia]. }
    rewrite uwrap_small in Ea1 by lia. rewrite Ea1, handle_no_fragment by done. cbn [mbind option_bind].
    rewrite bool_decide_true by done. cbn [negb]. intros [= <- <- <-] _.
    set (s1 := emit (set_r_defrag s _) _). assert (kept s s1) as K by (etrans; [|by apply emit_kept]; apply set_r_defrag_kept).
    eapply outcome_kept_trans; [exact K|exact Ho|]. intros Ho1. by apply (repeat_outcome d s1).
Qed.

Lemma receive_response_outcome reinject d fuel m s st fin s' : node_ok s -> i_mid (initiating (tm s)) + 1 < 2 ^ 32 ->
  incoming_ok m -> receive_response reinject fuel m s = Some (st, fin, s') -> all_complete s' ->
  outcome (Received (Labelled false (message_id m) d)) s s' (bool_decide (st <> DESTROY_ME)).
Proof.
  intros Ho Hm Hi. destruct (in_not_init _ Hi) as [Hx1 Hx2]. unfold receive_response.
  destruct (_ =? _) eqn:Em; [|intros [= <- <- <-] _; by apply outcome_kept]. apply Z.eqb_eq in Em. rewrite Em.
  set (s1 := if _ && _ then _ else s). assert (kept s s1) as K1.
  { unfold s1. destruct (_ && _); [|done]. etrans; [|apply update_hosts_kept]. apply update_hosts_kept. }
  clearbody s1. rewrite handle_no_fragment by done. cbn [mbind option_bind]. rewrite bool_decide_true by done. cbn [negb].
  destruct (bus m true true _) as [m3 s3] eqn:Eb. destruct (bus_spec _ _ _ _ _ _ Eb) as (-> & K3 & _).
  assert (kept s s3) as K by (etrans; [exact K1|]; etrans; [|exact K3]; apply set_i_defrag_kept).
  rewrite (proj2 (Z.eqb_neq _ _) Hx2). destruct (process_response fuel m s3) as [[st1 s4]|] eqn:Ep; [|done]. cbn [mbind option_bind].
  intros E Hc. eapply outcome_kept_trans; [exact K|exact Ho|]. intros Ho3. rewrite <- (st_imid _ _ _ (ke_steady _ _ K)) in Hm |- *.
  case_bool_decide as Es; injection E as <- <- <-.
  - pose proof (process_response_outcome d _ _ _ _ _ Ho3 Hm Hx2 Ep Hc) as Hr. by rewrite bool_decide_true in Hr |- *.
  - assert (all_complete s4) as Hc4 by (eapply all_complete_before; [|exact Hc]; apply flush_quiet).
    pose proof (process_response_outcome d _ _ _ _ _ Ho3 Hm Hx2 Ep Hc4) as Hr.
    rewrite (bool_decide_false (DESTROY_ME <> DESTROY_ME)) by auto. eapply outcome_dead; [exact Hr|apply flush_quiet].
Qed.

(** Both counters can still be advanced. *)
Definition below_limit (s : sa) : Prop :=
  i_mid (initiating (tm s)) + 1 < 2 ^ 32 /\ r_mid (responding (tm s)) + 1 < 2 ^ 32.

Lemma receive_outcome reinject fuel d m s st fin s' : node_ok s -> below_limit s -> incoming_ok m ->
  (if is_request m then receive_request reinject m s else receive_response reinject fuel m s) = Some (st, fin, s') ->
  all_complete s' ->
  outcome (Received (Labelled (is_request m) (message_id m) d)) s s' (bool_decide (st <> DESTROY_ME)).
Proof.
  intros Ho [L1 L2] Hi. destruct (is_request m); intros E Hc;
    [by eapply receive_request_outcome|by eapply receive_response_outcome].
Qed.

(** A packet of the other end, as it is handed to the IKE_SA. *)
Lemma process_message_outcome reinject fuel src dst d request mid m s st s' : node_ok s -> below_limit s ->
  reads vi d request mid -> parse_header (message_create_from_packet src dst d) = Some (SUCCESS, m) ->
  process_message reinject fuel m s = Some (st, s') -> all_complete s' ->
  outcome (Received (Labelled request mid d)) s s' (bool_decide (st <> DESTROY_ME)).
Proof.
  intros Ho Hl Hr Eh. unfold process_message. destruct (bus m true false s) as [m0 s1] eqn:Eb.
  destruct (bus_spec _ _ _ _ _ _ Eb) as (-> & K1 & _). unfold parse_message.
  destruct (kept_ok _ _ K1 Ho) as [Hk _ _ _ _ _ _ _ _ _ _ _]. destruct Hk as [_ (b & Hb & Vb)].
  destruct (Hr accept_mm src dst (sa_keymat s1) b Hb Vb) as (m1 & m2 & k2 & qs & E1 & _ & E2 & Hp & Hu & Hx & <- & <-).
  rewrite Eh in E1. injection E1 as <-. rewrite E2. cbn [mbind option_bind]. rewrite bool_decide_true by done.
  assert (incoming_ok m2) as Hi by (split; [by exists qs|done]). rewrite (in_not_critical _ Hi), bool_decide_true by done.
  cbn [mbind option_bind]. rewrite bool_decide_true by done. cbn [negb].
  assert (kept s1 (with_keys s1 (keymat_after s1 k2) (sa_rng s1))) as K2.
  { split; [|done..]. apply with_keys_steady. intros vo' vi' Hk'. by destruct (parse_body_keys _ _ _ _ _ _ _ _ Hk' E2) as (k1 & -> & ?). }
  set (s2 := with_keys s1 _ _) in *. assert (kept s s2) as K by (by etrans). clearbody s2.
  destruct (no_fragments _ (kept_ok _ _ K Ho)) as (c & Ec & _). rewrite Ec.
  set (s3 := with_stats (with_ike_cfg s2 (Some c)) _ _). assert (kept s2 s3) as K3.
  { unfold s3. rewrite <- Ec. etrans; [|apply with_stats_kept]. by destruct s2. }
  clearbody s3. destruct (if is_request m2 then _ else _) as [[[st1 fin] s4]|] eqn:Er; [|done]. cbn [mbind option_bind].
  rewrite andb_false_r. intros [= <- <-] Hc. assert (kept s s3) as K' by (by etrans).
  eapply outcome_kept_trans; [exact K'|exact Ho|]. intros Ho3. eapply receive_outcome; [exact Ho3| |exact Hi|exact Er|exact Hc].
  pose proof (ke_steady _ _ K') as S. unfold below_limit. by rewrite (st_imid _ _ _ S), (st_rmid _ _ _ S).
Qed.

Lemma sa_process_message_outcome depth fuel src dst d request mid m s st s' : node_ok s -> below_limit s ->
  reads vi d request mid -> parse_header (message_create_from_packet src dst d) = Some (SUCCESS, m) ->
  sa_process_message depth fuel m s = Some (st, s') -> all_complete s' ->
  outcome (Received (Labelled request mid d)) s s' (bool_decide (st <> DESTROY_ME)).
Proof.
  intros Ho Hl Hr Eh. destruct depth as [|depth]; [done|]. cbn [sa_process_message].
  case_bool_decide; [intros [= <- <-] _; by apply outcome_kept|].
  destruct (negb _); [intros [= <- <-] _; by apply outcome_kept|].
  destruct (process_message _ fuel m s) as [[st1 s1]|] eqn:Ep; [|done]. cbn [mbind option_bind]. intros [= <- <-] Hc.
  set (s2 := if _ && _ then _ else s1) in *. assert (kept s1 s2) as K.
  { unfold s2. destruct (_ && _); [|done]. etrans; [|apply with_world_kept]. apply with_flags_kept. }
  assert (all_complete s1) as Hc1 by (eapply all_complete_before; [|exact Hc]; apply kept_quiet, K).
  pose proof (process_message_outcome _ _ _ _ _ _ _ _ _ _ _ Ho Hl Hr Eh Ep Hc1) as Hout.
  clearbody s2. destruct (bool_decide (st1 <> DESTROY_ME)); [|eapply outcome_dead; [exact Hout|by apply kept_quiet]].
  eapply outcome_trans; [exact Hout|]. destruct Hout as (? & ? & _ & _ & _ & _ & Hv). by apply outcome_kept, Hv.
Qed.
End End_.
End Refine.
