(* ===== verification/IkeTasks.v ===== *)
(** Tasks of the task manager: dead peer detection (ike_dpd.c) and the synchronization of
    message IDs of RFC 6311 (ike_mid_sync.c), as implementations of the interface of
    [TaskManager]. *)
From S2P Require Import Prelude Chunk Host EspPacket Scheduler Crypto Bio Payloads Codec PayloadVerify EncryptedPayload MessageRules Message.
From S2P Require Import TaskManager TaskManagerRefine.
From stdpp Require Import base numbers list option strings gmap.
From Stdlib Require Import Lia ZArith.
Local Open Scope Z_scope.

(** [private_ike_mid_sync_t]: the nonce and what the peer expects of the next message IDs. *)
Record ike_mid_sync := IkeMidSync { ms_nonce : chunk; ms_send : Z; ms_recv : Z }.

(** The tasks of this file and others.  The objects of [ike_mid_sync_t] are in a heap. *)
Inductive task_ref (O : Type) := Dpd (initiator : bool) | MidSync (ref : nat) | Other (t : O).
Arguments Dpd {O}. Arguments MidSync {O}. Arguments Other {O}.

Record task_world (V : Type) := TaskWorld { sync_tasks : gmap nat ike_mid_sync; rest : V }.
Arguments TaskWorld {V}. Arguments sync_tasks {V}. Arguments rest {V}.

Section Tasks.
Context {O V A R : Type} (other : Tasks (task_ref O) (task_world V) A R) `{Daemon (task_ref O) (task_world V) A R}.
Abbreviation sa := (ike_sa (task_ref O) (task_world V) A R).

Definition set_sync (ref : nat) (t : ike_mid_sync) (s : sa) : sa :=
  with_world s (TaskWorld (<[ref := t]> (sync_tasks (world s))) (rest (world s))).

(** ** ike_dpd.c *)

Definition dpd_build (initiator : bool) : status_t := if initiator then NEED_MORE else SUCCESS.

Definition dpd_process (initiator : bool) : status_t := if initiator then SUCCESS else NEED_MORE.

(** ** ike_mid_sync.c *)

(** The notify is there if the task was created for the message; [None] if it is not. *)
Definition sync_pre_process (t : ike_mid_sync) (m : message) (s : sa) : option (status_t * ike_mid_sync) :=
  if negb (message_id m =? 0) then Some (SUCCESS, t)
  else if negb (supports_extension s EXT_IKE_MESSAGE_ID_SYNC) then Some (FAILED, t)
  else
    notify ← get_notify m IKEV2_MESSAGE_ID_SYNC;
    match Reader.read_data (chunk_field (o_p notify) "notify_data") 4 with
    | None => Some (FAILED, t)
    | Some (nonce, buf) =>
      match Reader.read_uint32 buf with
      | None => Some (FAILED, t)
      | Some (send, buf) =>
        match Reader.read_uint32 buf with
        | None => Some (FAILED, IkeMidSync (ms_nonce t) send (ms_recv t))
        | Some (recv, _) =>
          if send <? get_mid false s then Some (FAILED, IkeMidSync (ms_nonce t) send recv)
          else Some (SUCCESS, IkeMidSync nonce send recv)
        end
      end
    end.

(** The request for the current message ID is under way. *)
Definition has_active_tasks (s : sa) : bool :=
  match create_task_enumerator TASK_QUEUE_ACTIVE s with [] => false | _ => true end.

Section Process.
Context `{Tasks (task_ref O) (task_world V) A R}.

Definition sync_process (t : ike_mid_sync) (m : message) (s : sa) : status_t * ike_mid_sync * sa :=
  if negb (message_id m =? 0) then (SUCCESS, t, s)
  else
    let resp := get_mid false s in
    let m2 := Z.max (ms_send t) resp in
    let s := if resp =? m2 then s else sa_set_message_id false m2 s in
    let init := get_mid true s in
    let p2 := Z.max (ms_recv t) (if has_active_tasks s then u32 (init + 1) else init) in
    let s := if init =? p2 then s else sa_set_message_id true p2 s in
    (NEED_MORE, IkeMidSync (ms_nonce t) p2 m2, s).
End Process.

Definition sync_build (t : ike_mid_sync) (m : message) : message :=
  let w := Writer.write_data junk (Writer.bio_writer_create junk 12) (ms_nonce t) in
  let w := Writer.write_uint32 junk (Writer.write_uint32 junk w (ms_send t)) (ms_recv t) in
  add_notify (set_message_id m 0) false IKEV2_MESSAGE_ID_SYNC (Writer.get_buf w).

(** The nonce is freed. *)
Definition sync_migrate (t : ike_mid_sync) : ike_mid_sync := IkeMidSync [] (ms_send t) (ms_recv t).

(** ** The interface *)

Definition migrate_task (t : task_ref O) (s : sa) : sa :=
  match t with
  | Dpd _ => s
  | MidSync r => match sync_tasks (world s) !! r with Some o => set_sync r (sync_migrate o) s | None => s end
  | Other _ => @migrate _ _ _ _ other t s
  end.

Definition destroy_task (t : task_ref O) (s : sa) : sa :=
  match t with
  | Dpd _ => s
  | MidSync r => with_world s (TaskWorld (delete r (sync_tasks (world s))) (rest (world s)))
  | Other _ => @destroy _ _ _ _ other t s
  end.

Definition create_task (c : task_create) (s : sa) : task_ref O * sa :=
  match c with
  | ike_dpd_create initiator => (Dpd initiator, s)
  | ike_mid_sync_create =>
    let r := fresh (dom (sync_tasks (world s))) in (MidSync r, set_sync r (IkeMidSync [] 0 0) s)
  | _ => @create _ _ _ _ other c s
  end.

Definition type_of_task (t : task_ref O) : task_type_t :=
  match t with Dpd _ => TASK_IKE_DPD | MidSync _ => TASK_IKE_MID_SYNC | Other _ => @task_type _ _ _ _ other t end.

(** The methods a task may use of other tasks, through [reset]. *)
Definition passive_methods : Tasks (task_ref O) (task_world V) A R := {|
  task_type := type_of_task; migrate := migrate_task; destroy := destroy_task; create := create_task;
  build := @build _ _ _ _ other; process := @process _ _ _ _ other; pre_process := @pre_process _ _ _ _ other;
  collide := @collide _ _ _ _ other; is_probing := @is_probing _ _ _ _ other; transmit := @transmit _ _ _ _ other;
  enable_probing := @enable_probing _ _ _ _ other; mobike_roam := @mobike_roam _ _ _ _ other;
  mobike_addresses := @mobike_addresses _ _ _ _ other; mobike_dpd := @mobike_dpd _ _ _ _ other;
  use_reqid := @use_reqid _ _ _ _ other;
|}.

Definition build_task (t : task_ref O) (m : message) (s : sa) : option (status_t * message * sa) :=
  match t with
  | Dpd initiator => Some (dpd_build initiator, m, s)
  | MidSync r => o ← sync_tasks (world s) !! r; Some (SUCCESS, sync_build o m, s)
  | Other _ => @build _ _ _ _ other t m s
  end.

Definition process_task (t : task_ref O) (m : message) (s : sa) : option (status_t * message * sa) :=
  match t with
  | Dpd initiator => Some (dpd_process initiator, m, s)
  | MidSync r =>
    o ← sync_tasks (world s) !! r;
    let '(status, o, s) := @sync_process passive_methods o m s in Some (status, m, set_sync r o s)
  | Other _ => @process _ _ _ _ other t m s
  end.

Definition pre_process_task (t : task_ref O) : option (message -> sa -> option (status_t * message * sa)) :=
  match t with
  | Dpd _ => None
  | MidSync r => Some (fun m s =>
      o ← sync_tasks (world s) !! r; '(status, o) ← sync_pre_process o m s; Some (status, m, set_sync r o s))
  | Other _ => @pre_process _ _ _ _ other t
  end.

(** Tasks of this file are not MOBIKE, rekeying or CHILD_SA tasks, whose methods are the others'. *)
Definition core_tasks : Tasks (task_ref O) (task_world V) A R := {|
  task_type := type_of_task; migrate := migrate_task; destroy := destroy_task; create := create_task;
  build := build_task; process := process_task; pre_process := pre_process_task;
  collide := @collide _ _ _ _ other; is_probing := @is_probing _ _ _ _ other; transmit := @transmit _ _ _ _ other;
  enable_probing := @enable_probing _ _ _ _ other; mobike_roam := @mobike_roam _ _ _ _ other;
  mobike_addresses := @mobike_addresses _ _ _ _ other; mobike_dpd := @mobike_dpd _ _ _ _ other;
  use_reqid := @use_reqid _ _ _ _ other;
|}.
End Tasks.

(** ** The tasks leave the exchanges to the manager *)

Section Laws.
Context {O V A R : Type} `{AeadLaws A} (other : Tasks (task_ref O) (task_world V) A R).
Context `{Daemon (task_ref O) (task_world V) A R}.
Context {other_laws : TaskLaws (H3 := other)}.
Hypothesis dpd_type : forall initiator, @task_type _ _ _ _ other (Dpd initiator) = TASK_IKE_DPD.
Hypothesis sync_type : forall r, @task_type _ _ _ _ other (MidSync r) = TASK_IKE_MID_SYNC.

Lemma calm_core t : calm (H3 := core_tasks other) t <-> calm (H3 := other) t.
Proof. unfold calm. destruct t; cbn; by rewrite ?dpd_type, ?sync_type. Qed.

Lemma steady_core ds s s' : steady (H3 := other) ds s s' -> steady (H3 := core_tasks other) ds s s'.
Proof.
  assert (forall l, Forall (calm (H3 := core_tasks other)) l <-> Forall (calm (H3 := other)) l) as Hl.
  { intros l. apply Forall_iff, calm_core. }
  intros []. constructor; try done. unfold calm_active. by rewrite !Hl.
Qed.

Lemma kept_core s s' : kept (H3 := other) s s' -> kept (H3 := core_tasks other) s s'.
Proof. intros []. split; try done. by apply steady_core. Qed.

(** Only the heap of the tasks changes. *)
Lemma set_sync_kept r o s : kept (H3 := core_tasks other) s (set_sync r o s).
Proof. apply with_world_kept. Qed.

#[export] Instance core_laws : TaskLaws (H3 := core_tasks other).
Proof.
  constructor.
  - intros t m s st m' s' Hn. destruct t as [i|r|o]; cbn; [by intros [= <- <- <-]|by destruct (calm_not_sync _ Hn)|].
    intros E. destruct (build_kept _ _ _ _ _ _ (proj1 (calm_core _) Hn) E) as (K & ?). by split; [apply kept_core|].
  - intros t m s st m' s' Hn. destruct t as [i|r|o]; cbn; [by intros [= <- <- <-]|by destruct (calm_not_sync _ Hn)|].
    intros E. destruct (process_kept _ _ _ _ _ _ (proj1 (calm_core _) Hn) E) as (K & ?). by split; [apply kept_core|].
  - intros t f m s st m' s' Hn. destruct t as [i|r|o]; cbn; [done|by destruct (calm_not_sync _ Hn)|].
    intros Ef E. destruct (pre_process_kept _ _ _ _ _ _ _ (proj1 (calm_core _) Hn) Ef E) as (K & ?). by split; [apply kept_core|].
  - intros t s. destruct t; cbn; [done|apply with_world_kept|apply kept_core, destroy_kept].
  - intros t s. destruct t; cbn; [done| |apply kept_core, migrate_kept].
    destruct (_ !! _); [apply set_sync_kept|done].
  - intros c s. destruct c; cbn; try (apply kept_core, create_kept); [done|apply set_sync_kept].
  - intros c s Hc. destruct c; cbn; try (apply calm_core, create_calm; exact Hc); try done.
    by apply (bool_decide_unpack _).
  - intros t t' s. cbn. apply kept_core, collide_kept.
  - intros t p s b s' E. destruct (transmit_steady (H3 := other) _ _ _ _ _ E) as (ds & Hd & St & Hp). exists ds. by split; [|split; [apply steady_core|]].
  - intros s. apply kept_core, update_child_sas_kept.
  - intros m incoming plain w. apply bus_unaltered.
Qed.
End Laws.

(** ** A small concrete daemon
    It has no other tasks, and its clock stands still. *)
Module ToyDaemon.
Abbreviation toy_task := (task_ref Empty_set).
Abbreviation toy_world := (task_world timeval).
Abbreviation toy_sa := (ike_sa toy_task toy_world Toy.toy_aead nat).

Definition no_tasks : Tasks toy_task toy_world Toy.toy_aead nat := {|
  task_type t := match t with Dpd _ => TASK_IKE_DPD | MidSync _ => TASK_IKE_MID_SYNC | Other _ => TASK_IKE_DPD end;
  build _ m s := Some (FAILED, m, s); process _ m s := Some (FAILED, m, s); pre_process _ := None;
  migrate _ s := s; destroy _ s := s; create _ s := (Dpd false, s); collide _ _ s := s; is_probing _ _ := false;
  transmit _ _ s := (false, s); enable_probing _ s := s; mobike_roam _ _ s := s; mobike_addresses _ s := s;
  mobike_dpd _ s := s; use_reqid _ _ s := s;
|}.

#[global] Instance toy_daemon : Daemon toy_task toy_world Toy.toy_aead nat := {|
  time_monotonic w := rest w; bus_message m _ _ w := (m, w); get_ike_cfg _ _ _ := None; update_child_sas s := s;
  flush_auth_cfgs w := w; apply_jitter t _ w := (t, w); trigger_mbb_reauth s := s; max_packet := 10000;
  accept_mm := false; junk _ := 170;
|}.

#[global] Instance no_tasks_laws : TaskLaws (H3 := no_tasks).
Proof.
  constructor; try done; cbn.
  - by intros t m s st m' s' _ [= <- <- <-].
  - by intros t m s st m' s' _ [= <- <- <-].
  - intros _ _ _. by apply (bool_decide_unpack _).
  - intros t p s b s' [= <- <-]. exists []. split; [done|]. split; [apply steady_refl|done].
Qed.

#[global] Instance toy_tasks : Tasks toy_task toy_world Toy.toy_aead nat := core_tasks no_tasks.

#[global] Instance toy_tasks_laws : TaskLaws (H3 := toy_tasks).
Proof. exact (core_laws no_tasks (fun _ => eq_refl) (fun _ => eq_refl)). Qed.

(** An end of an established IKE_SA, with these tasks queued. *)
Definition toy_sa_with (mid_i mid_r : Z) (initiator : bool) (tasks : list toy_task) : toy_sa :=
  let h n := Host AF_INET [10; 0; 0; n] 500 in
  IkeSa 2 IKE_ESTABLISHED (IkeSaId 1 2 initiator) EXT_IKE_MESSAGE_ID_SYNC 0 (h (if initiator then 1 else 2))
    (h (if initiator then 2 else 1)) (Some (IkeCfg FRAGMENTATION_NO 0)) None 0
    (Keymat (Some Toy.toy_end) (Some Toy.toy_end)) (Some 3%nat) 0 0 false
    (with_tasks (with_exchanges (task_manager_v2_create 5 (fun n => 4000 * 2 ^ n) 0 0 false)
       (Responding mid_r [] None) (Initiating mid_i 0 [] EXCHANGE_TYPE_UNDEFINED false None))
       ((fun t => Queued t (Timeval 0 0)) <$> tasks) [] [])
    (TaskWorld ∅ (Timeval 0 0)) [].
End ToyDaemon.
