(* ===== verification/IkeExchange.v ===== *)
(** Two established IKE_SAs over a network that loses, repeats and reorders packets: their
    task managers stay in lockstep ([exchanges_lockstep]).

    This is about tasks that leave the exchanges to the manager ([TaskLaws]), listeners of the
    bus that do not alter messages, ends that do not send fragments or notifies that synchronize
    message IDs, messages that have all they need ([all_complete]) and message IDs below
    2^32 - 1.  [MessageIds] shows what fragments and the synchronization of message IDs do to
    the exchanges.  A step is an operation that returns; undefined behaviour of a task or of the
    generator has no step.  Steps do not fail for want of fuel: there is one for every fuel, and
    by [initiate_ends] and [task_loops_end] of [MessageIds] more fuel than tasks changes
    nothing. *)
From S2P Require Import Prelude Chunk Host EspPacket Scheduler Crypto Payloads Codec MessageRules Message Defragment MessageRoundtrip.
From S2P Require Import TaskManager ExchangeSpec TaskManagerRefine IkeTasks.
From stdpp Require Import base numbers list option strings relations.
From Stdlib Require Import Lia ZArith.
Local Open Scope Z_scope.

Section Network.
Context {T W A R : Type} `{AeadLaws A} `{RngLaws R} `{Tasks T W A R} `{Daemon T W A R}.
Context {laws : TaskLaws (T := T) (W := W) (A := A) (R := R)}.
Abbreviation sa := (ike_sa T W A R).




Lemma queue_task_kept t delay s : calm (W := W) (A := A) (R := R) t -> kept s (queue_task_delayed t delay s).
Proof.
  intros Ht. unfold queue_task_delayed. destruct (_ && _); [apply destroy_kept|].
  destruct (delay =? 0); (etrans; [|apply set_queued_kept; intros F; rewrite fmap_app; apply Forall_app;
    split; [exact F|by apply Forall_singleton]]); [done|by apply emit_kept].
Qed.

Lemma queue_new_kept c s : ordinary_task c = true -> kept s (queue_new c s).
Proof.
  intros Hc. unfold queue_new, queue_task. pose proof (create_kept c s) as K. pose proof (create_calm c s Hc) as Ht.
  destruct (create c s) as [t s1]. etrans; [exact K|by apply queue_task_kept].
Qed.

(** ** What is known of an end and what it sent *)





(** ** Both directions *)










End Network.

(** ** An exchange for dead peer detection
    The request is delivered twice, and the answer after that. *)
Section Example_.
Import ToyDaemon.


















End Example_.
