(* ===== verification/MessageIds.v ===== *)
(** What moves the message IDs of an IKE_SA: retransmission and giving up, requests that
    cannot be parsed, fragments of an earlier request, and the synchronization of RFC 6311. *)
From S2P Require Import Prelude Chunk Host EspPacket Scheduler Crypto Bio Payloads Codec CodecParser PayloadVerify.
From S2P Require Import EncryptedPayload MessageRules Message Defragment MessageParse MessageRoundtrip.
From S2P Require Import TaskManager ExchangeSpec TaskManagerRefine IkeTasks.
From stdpp Require Import base numbers list option strings gmap.
From Stdlib Require Import Lia ZArith.
Local Open Scope Z_scope.

Section MessageIds.
Context {T W A R : Type} `{Aead A} `{Rng R} `{Tasks T W A R} `{Daemon T W A R}.
Abbreviation sa := (ike_sa T W A R).

(** ** Generating leaves the task manager alone *)

Lemma bus_tm m incoming plain (s : sa) m' s' : bus m incoming plain s = (m', s') -> tm s' = tm s.
Proof. unfold bus. destruct (bus_message _ _ _ _). by intros [= _ <-]. Qed.

Lemma sa_generate_tm m (s : sa) st p m' s' : sa_generate_message m s = Some (st, p, m', s') -> tm s' = tm s.
Proof.
  unfold sa_generate_message. destruct (is_encoded m); [by intros [= _ _ _ <-]|].
  destruct (bus _ false true _) as [m1 s1] eqn:E1. apply bus_tm in E1. cbn in E1.
  destruct (generate _ _ _ _) as [[[[st1 m2] k] rng]|]; [|done]. cbn [mbind option_bind].
  case_bool_decide; [|by intros [= _ _ _ <-]].
  destruct (bus m2 false false _) as [m3 s3] eqn:E3. apply bus_tm in E3. intros [= _ _ _ <-]. by rewrite E3.
Qed.

Lemma tm_generate_tm m (s : sa) ps s' : tm_generate_message m s = Some (ps, s') -> tm s' = tm s.
Proof.
  unfold tm_generate_message, generate_message_fragmented. destruct (negb (use_fragments m s)).
  { destruct (sa_generate_message m s) as [[[[st p] m1] s1]|] eqn:E; [|done]. cbn [mbind option_bind].
    intros [= _ <-]. by eapply sa_generate_tm. }
  set (s1 := with_stats s _ _). set (ms := if is_encoded m then _ else _). assert (tm (snd ms) = tm s) as E1.
  { unfold ms. destruct (is_encoded m); [done|]. destruct (bus _ false true s1) as [m2 s2] eqn:E. by apply bus_tm in E. }
  destruct (fragment _ _ _ _ _) as [[[[[st m2] k] rng] ds]|]; [|done]. cbn [mbind option_bind]. case_bool_decide; [|by intros [= _ <-]].
  destruct (is_encoded m); intros [= _ <-]; [done|]. destruct (bus m2 false false _) as [m3 s3] eqn:E.
  apply bus_tm in E. cbn [snd]. by rewrite E.
Qed.

Lemma send_packets_tm l src dst (s : sa) : tm (send_packets l src dst s) = tm s.
Proof. unfold send_packets. revert s. induction l as [|p l IH]; intros s; [done|]. cbn [fold_left]. by rewrite IH. Qed.

(** ** Requests that cannot be parsed *)

Lemma send_notify_tm request type d (s s' : sa) : send_notify_response request type d s = Some s' -> tm s' = tm s.
Proof.
  unfold send_notify_response.
  assert (forall m s2, tm s2 = tm s -> ('(_, p, _, s) ← sa_generate_message m s2;
    Some match p with Some p => emit s (Sent p) | None => s end) = Some s' -> tm s' = tm s) as Hg.
  { intros m s2 Es. destruct (sa_generate_message m s2) as [[[[st p] m1] s3]|] eqn:E; [|done]. cbn [mbind option_bind].
    apply sa_generate_tm in E. intros [= <-]. destruct p; cbn; congruence. }
  cbv zeta. generalize (add_notify (set_message_id (set_request (set_exchange_type (message_create 2 0)
    (exchange_type request)) false) (message_id request)) false type d). intros m.
  destruct (is_anyaddr (my_host s)); [destruct (destination request) as [h|]; [|done]|]; cbn [mbind option_bind];
    (destruct (is_anyaddr _); [destruct (source request) as [h'|]; [|done]|]); cbn [mbind option_bind]; by apply Hg.
Qed.

Lemma parse_message_rejects m (s : sa) st m' k st' m1 s' :
  parse_body accept_mm m (Some (sa_keymat s)) = Some (st, m', k) -> st = PARSE_ERROR \/ st = VERIFY_ERROR ->
  is_request m' = true -> parse_message m s = Some (st', m1, s') ->
  st' <> SUCCESS /\ r_mid (responding (tm s')) = u32 (r_mid (responding (tm s)) + 1) /\
  r_packets (responding (tm s')) = r_packets (responding (tm s)).
Proof.
  intros Ep Hst Hreq. unfold parse_message. rewrite Ep. cbn [mbind option_bind].
  set (s1 := with_keys s _ _). assert (tm s1 = tm s) as E1 by done. clearbody s1.
  assert (forall s2, reject m' INVALID_SYNTAX [] s1 = Some s2 -> r_mid (responding (tm s2)) = u32 (r_mid (responding (tm s)) + 1) /\
    r_packets (responding (tm s2)) = r_packets (responding (tm s))) as Hr.
  { unfold reject. rewrite Hreq. intros s2. destruct (send_notify_response _ _ _ s1) as [s3|] eqn:En; [|done].
    cbn [mbind option_bind]. intros [= <-]. apply send_notify_tm in En. cbn. by rewrite En, E1. }
  assert (bool_decide (st = SUCCESS) = false) as Hf by (apply bool_decide_false; by destruct Hst as [-> | ->]).
  rewrite Hf, Hf. clear Hf. destruct Hst as [-> | ->]; (destruct (reject m' INVALID_SYNTAX [] s1) as [s2|]; [|done]);
    cbn [mbind option_bind]; case_bool_decide; intros [= <- _ <-]; (split; [done|]); exact (Hr s2 eq_refl).
Qed.

(** C36: A request that cannot be parsed or verified advances the message ID that is expected
    next, whatever message ID it has itself and whether or not anything in it was
    authenticated: the parser of the task manager counts it before the message ID is
    looked at.  The request of the peer that has the expected ID is then ignored. *)
Theorem parse_error_advances_mid reinject fuel m (s : sa) st m' k result s' :
  parse_body accept_mm (fst (bus_message m true false (world s))) (Some (sa_keymat s)) = Some (st, m', k) ->
  st = PARSE_ERROR \/ st = VERIFY_ERROR -> is_request m' = true ->
  process_message reinject fuel m s = Some (result, s') ->
  result <> SUCCESS /\ r_mid (responding (tm s')) = u32 (r_mid (responding (tm s)) + 1) /\
  r_packets (responding (tm s')) = r_packets (responding (tm s)).
Proof.
  intros Ep Hst Hreq. unfold process_message, bus. destruct (bus_message m true false (world s)) as [m0 w]. cbn [fst] in Ep.
  destruct (parse_message _ _) as [[[st' m1] s1]|] eqn:E; [|done]. cbn [mbind option_bind].
  apply (parse_message_rejects m0 (with_world (emit s (BusMessage m true false)) w) _ _ _ _ _ _ Ep Hst Hreq) in E as [Hn Hr]. rewrite bool_decide_false by done.
  intros [= <- <-]. by split.
Qed.

(** ** Fragments of an earlier request *)

(** Fragments of another message are being collected. *)
Definition stale (s : sa) : Prop := exists d, r_defrag (responding (tm s)) = Some d /\ frag d <> None /\
  message_id d <> r_mid (responding (tm s)).

Definition is_fragment_of (mid : Z) (m : message) : Prop := get_payload m PLV2_FRAGMENT <> None /\ message_id m = mid.

Lemma add_fragment_keeps m num d st m' : add_fragment m num d = Some (st, m') ->
  message_id m' = message_id m /\ frag m' <> None.
Proof.
  unfold add_fragment. destruct (frag m) as [f|] eqn:Ef; [|done]. cbn [mbind option_bind].
  destruct (insert_fragment _ _ _); [|intros [= _ <-]; by rewrite Ef].
  destruct (_ <? _); intros [= _ <-]; by split.
Qed.

(** What collects fragments goes on to collect fragments of the same message. *)
Lemma add_fragment_v2_keeps m msg st m' msg' : add_fragment_v2 m msg = Some (st, m', msg') -> st <> SUCCESS ->
  frag m <> None -> message_id m' = message_id m /\ frag m' <> None.
Proof.
  unfold add_fragment_v2. intros E Hst Hf. destruct (frag m) as [f|] eqn:Ef; [|done].
  destruct (get_payload msg PLV2_FRAGMENT) as [o|]; [|injection E as _ <- _; by rewrite Ef].
  destruct (negb _); [injection E as _ <- _; by rewrite Ef|].
  destruct (_ <? _); [injection E as _ <- _; unfold reset_defrag; cbn; by rewrite Ef|].
  set (m1 := if _ || _ then _ else m) in E. assert (message_id m1 = message_id m) as E1 by (unfold m1; by destruct (_ || _)).
  clearbody m1. destruct (add_fragment m1 _ _) as [[st1 m2]|] eqn:Ea; [|done]. cbn [mbind option_bind] in E.
  apply add_fragment_keeps in Ea as [E2 F2]. rewrite E1 in E2. destruct (negb (bool_decide _)); [by injection E as _ <- _|].
  set (mm := if _ =? 1 then _ else (m2, msg)) in E. assert (message_id (fst mm) = message_id m /\ frag (fst mm) <> None) as [E3 F3].
  { unfold mm. by destruct (_ =? 1). }
  clearbody mm. destruct mm as [m3 msg3]. cbn [fst] in E3, F3. destruct (negb _); [by injection E as _ <- _|].
  destruct (merge_fragments m3 msg3) as [d m4]. destruct (head _); [|done]. cbn [mbind option_bind] in E.
  injection E as <- _ _. done.
Qed.

(** A fragment that starts to be collected. *)
Lemma handle_fragment_starts limit m st d : handle_fragment limit None m = Some (inl st, Some d) ->
  message_id d = message_id m /\ frag d <> None.
Proof.
  unfold handle_fragment. destruct (get_payload m PLV2_FRAGMENT) as [o|] eqn:Eo; [|done]. unfold message_create_defrag. rewrite Eo.
  set (c := set_defrag _ None _). assert ((match get_payload m PLV1_FRAGMENT with Some _ | _ => Some c end) = Some c) as ->
    by (by destruct (get_payload m PLV1_FRAGMENT)).
  destruct (add_fragment_v2 c m) as [[[st1 m1] m2]|] eqn:E; [|done]. cbn [mbind option_bind].
  case_bool_decide as Hst; intros [= <- <-]. by apply (add_fragment_v2_keeps _ _ _ _ _ E Hst).
Qed.

(** A fragment of another message. *)
Lemma handle_fragment_other limit d m : frag d <> None -> message_id d <> message_id m ->
  get_payload m PLV2_FRAGMENT <> None -> handle_fragment limit (Some d) m = Some (inl INVALID_ARG, Some d).
Proof.
  intros Hf Hm Ho. unfold handle_fragment, add_fragment_v2. destruct (get_payload m PLV2_FRAGMENT) as [o|]; [|done].
  destruct (frag d); [|done]. rewrite (proj2 (Z.eqb_neq _ _) Hm). done.
Qed.

Section Fragments.
(** Updating the CHILD_SAs leaves the task manager and the state alone. *)
Hypothesis child_sas_apart : forall s : sa, tm (update_child_sas s) = tm s /\ sa_state (update_child_sas s) = sa_state s.

Lemma update_hosts_apart (s : sa) me other force :
  tm (update_hosts s me other force) = tm s /\ sa_state (update_hosts s me other force) = sa_state s.
Proof using child_sas_apart.
  unfold update_hosts. destruct (_ || _); [|destruct (force && _), (_ && _)]; try done;
    (by rewrite (proj1 (child_sas_apart _)), (proj2 (child_sas_apart _))).
Qed.

(** Requests, and what becomes of them. *)
Fixpoint receive_requests (reinject : message -> sa -> option (status_t * sa)) (ms : list message) (s : sa)
    : option (list status_t * sa) :=
  match ms with
  | [] => Some ([], s)
  | m :: ms =>
    '(st, _, s) ← receive_request reinject m s;
    '(sts, s) ← receive_requests reinject ms s;
    Some (st :: sts, s)
  end.

Lemma stale_refuses reinject (s : sa) m : stale s -> is_fragment_of (r_mid (responding (tm s))) m ->
  unexpected_request (exchange_type m) (sa_state s) = false ->
  exists s', receive_request reinject m s = Some (INVALID_ARG, false, s') /\ stale s' /\
    r_mid (responding (tm s')) = r_mid (responding (tm s)) /\ sa_state s' = sa_state s.
Proof using child_sas_apart.
  intros (d & Ed & Hf & Hd) [Hp Hm] Hu. unfold receive_request. rewrite Hm, Z.eqb_refl, Hu. cbn [orb].
  set (s1 := if supports_extension _ _ then s else _). assert (tm s1 = tm s /\ sa_state s1 = sa_state s) as [E1 E2].
  { unfold s1. destruct (supports_extension _ _); [done|apply update_hosts_apart]. }
  clearbody s1. unfold tm_handle_fragment. rewrite E1, Ed, handle_fragment_other by congruence. cbn [mbind option_bind].
  rewrite bool_decide_false by done. cbn [negb]. eexists. split; [reflexivity|]. unfold stale. cbn. rewrite E1, E2.
  split; [|done]. by exists d.
Qed.

Lemma stale_refuses_all reinject ms : forall s, stale s ->
  Forall (fun m => is_fragment_of (r_mid (responding (tm s))) m /\ unexpected_request (exchange_type m) (sa_state s) = false) ms ->
  exists s', receive_requests reinject ms s = Some (replicate (length ms) INVALID_ARG, s') /\
    r_mid (responding (tm s')) = r_mid (responding (tm s)).
Proof using child_sas_apart.
  induction ms as [|m ms IH]; intros s Hs Hm; [by exists s|]. apply Forall_cons in Hm as [[Hm Hu] Hms].
  destruct (stale_refuses reinject s m Hs Hm Hu) as (s1 & E & Hs1 & Er & Est). cbn [receive_requests]. rewrite E. cbn [mbind option_bind].
  rewrite <- Er, <- Est in Hms. destruct (IH s1 Hs1 Hms) as (s2 & -> & Er2). exists s2. cbn [length replicate]. split; [done|].
  congruence.
Qed.

(** C37: One fragment of the last request that arrives again, after the request was
    answered, blocks the next request if that is fragmented: the fragment is kept to collect
    the others of its message, and every fragment of the next request is then refused,
    however many are received, so the message ID does not advance. *)
Theorem stale_fragment_blocks reinject dup st d (s : sa) ms :
  0 < r_mid (responding (tm s)) < 2 ^ 32 -> r_packets (responding (tm s)) <> [] -> r_defrag (responding (tm s)) = None ->
  is_fragment_of (r_mid (responding (tm s)) - 1) dup -> looks_like_mid_sync dup false = false -> is_mid_sync s dup = false ->
  handle_fragment max_packet None dup = Some (inl st, Some d) -> st <> SUCCESS ->
  Forall (fun m => is_fragment_of (r_mid (responding (tm s))) m /\ unexpected_request (exchange_type m) (sa_state s) = false) ms ->
  exists s1 s2, receive_request reinject dup s = Some (st, false, s1) /\
    receive_requests reinject ms s1 = Some (replicate (length ms) INVALID_ARG, s2) /\
    r_mid (responding (tm s2)) = r_mid (responding (tm s)).
Proof using child_sas_apart.
  intros Hr Hp Hd [Hf Hm] Hl Hi Eh Hst Hms. destruct (handle_fragment_starts _ _ _ _ Eh) as [Ed Hfr].
  set (s1 := set_r_defrag s (Some d)). assert (stale s1) as Hs1 by (exists d; split; [done|]; split; [done|]; cbn; lia).
  destruct (stale_refuses_all reinject ms s1 Hs1 Hms) as (s2 & E2 & Er). exists s1, s2. split; [|by split].
  unfold receive_request. rewrite Hm, Hl, Hi, uwrap_small, Z.eqb_refl by lia.
  rewrite (proj2 (Z.eqb_neq _ _)) by lia. rewrite (bool_decide_false _ Hp). rewrite !andb_false_r. cbn [orb andb negb].
  unfold tm_handle_fragment. rewrite Hd, Eh. cbn [mbind option_bind]. by rewrite bool_decide_false.
Qed.
End Fragments.

(** ** Retransmission *)

(** The retransmission job runs [n] times and nothing else happens. *)
Fixpoint retransmits (n : nat) (s : sa) : list status_t * sa :=
  match n with
  | O => ([], s)
  | S n =>
    let '(st, s) := retransmit (i_mid (initiating (tm s))) s in
    let '(sts, s) := retransmits n s in
    (st :: sts, s)
  end.

(** A request is out and has been sent [n] times, and no MOBIKE task has a say in how it is
    sent: the request is of another exchange than [INFORMATIONAL], or no such task is active. *)
Record waiting (ps : list packet) (tries n : Z) (s : sa) : Prop := Waiting {
  wa_packets : i_packets (initiating (tm s)) = ps;
  wa_mobike : i_type (initiating (tm s)) = INFORMATIONAL ->
    Forall (fun t => task_type t <> TASK_IKE_MOBIKE) (active_tasks (tm s));
  wa_sent : retransmitted (initiating (tm s)) = n;
  wa_tries : retransmit_tries (tm s) = tries;
}.

Lemma find_no_mobike type (l : list T) : (type = INFORMATIONAL -> Forall (fun t => task_type t <> TASK_IKE_MOBIKE) l) ->
  (if type =? INFORMATIONAL then find (fun t => bool_decide (task_type t = TASK_IKE_MOBIKE)) l else None) = None.
Proof.
  intros Hl. destruct (Z.eqb_spec type INFORMATIONAL) as [E|]; [|done].
  specialize (Hl E). clear E. induction Hl as [|t l Ht _ IH]; [done|]. cbn [find]. by rewrite bool_decide_false.
Qed.

Lemma sent_data_sends l src dst (s : sa) : sent_data (send_packets l src dst s) = sent_data s ++ (pdata <$> l).
Proof.
  unfold send_packets. revert s. induction l as [|p l IH]; intros s; [by rewrite app_nil_r|]. cbn [fold_left fmap list_fmap].
  rewrite IH, sent_emit, (cons_middle (pdata p)), app_assoc. do 2 f_equal. cbn. by rewrite pdata_readdressed.
Qed.

Lemma retransmit_timeout_tm (s : sa) timeout s' : retransmit_timeout s = (timeout, s') ->
  tm s' = tm s /\ sent_data s' = sent_data s.
Proof.
  unfold retransmit_timeout. destruct (retransmit_jitter (tm s) =? 0); [by intros [= _ <-]|].
  destruct (apply_jitter _ _ _). by intros [= _ <-].
Qed.

(** One more time. *)
Lemma retransmit_again ps tries n (s : sa) : ps <> [] -> waiting ps tries n s -> 0 <= n <= tries -> tries + 1 < 2 ^ 32 ->
  exists s', retransmit (i_mid (initiating (tm s))) s = (SUCCESS, s') /\ waiting ps tries (n + 1) s' /\
    sent_data s' = sent_data s ++ (pdata <$> ps).
Proof.
  intros Hps [Ep Hm Es Et] Hn Hw. unfold retransmit. destruct ps as [|p ps]; [done|]. rewrite Ep, Z.eqb_refl. cbn [negb].
  rewrite (find_no_mobike _ _ Hm), Es, Et. rewrite (proj2 (Z.leb_le n tries)) by lia.
  destruct (retransmit_timeout s) as [timeout s1] eqn:Eto. apply retransmit_timeout_tm in Eto as [E1 D1].
  set (s2 := if n =? 0 then s1 else _). assert (tm s2 = tm s /\ sent_data s2 = sent_data s) as [E2 D2].
  { unfold s2. destruct (n =? 0); [done|]. by rewrite sent_emit, app_nil_r. }
  clearbody s2. rewrite E2, Ep. unfold schedule_retransmit. eexists. split; [reflexivity|].
  set (s3 := send_packets _ _ _ s2). assert (tm s3 = tm s) as E3 by (unfold s3; by rewrite send_packets_tm).
  assert (sent_data s3 = sent_data s ++ (pdata <$> p :: ps)) as D3 by (unfold s3; by rewrite sent_data_sends, D2).
  clearbody s3. split; [|by rewrite sent_emit, app_nil_r].
  constructor; cbn; rewrite E3; [exact Ep|exact Hm| |exact Et]. rewrite Es. apply uwrap_small. lia.
Qed.

Lemma retransmit_last ps tries n (s : sa) : ps <> [] -> waiting ps tries n s -> tries < n ->
  exists s', retransmit (i_mid (initiating (tm s))) s = (DESTROY_ME, s') /\ sent_data s' = sent_data s.
Proof.
  intros Hps [Ep Hm Es Et] Hn. unfold retransmit. destruct ps as [|p ps]; [done|]. rewrite Ep, Z.eqb_refl. cbn [negb].
  rewrite (find_no_mobike _ _ Hm), Es, Et, (proj2 (Z.leb_gt n tries)) by lia. eexists. split; [reflexivity|].
  by rewrite sent_emit, app_nil_r.
Qed.

Lemma retransmits_all ps tries : ps <> [] -> tries + 1 < 2 ^ 32 -> forall k n s, waiting ps tries n s -> 0 <= n ->
  n + Z.of_nat k = tries + 1 ->
  exists s', retransmits (S k) s = (replicate k SUCCESS ++ [DESTROY_ME], s') /\
    sent_data s' = sent_data s ++ concat (replicate k (pdata <$> ps)).
Proof.
  intros Hps Hw. induction k as [|k IH]; intros n s Hs Hn Hk.
  - destruct (retransmit_last ps tries n s Hps Hs ltac:(lia)) as (s' & E & D). cbn [retransmits]. rewrite E.
    exists s'. cbn. by rewrite app_nil_r.
  - destruct (retransmit_again ps tries n s Hps Hs ltac:(lia) Hw) as (s1 & E & Hs1 & D).
    destruct (IH (n + 1) s1 Hs1 ltac:(lia) ltac:(lia)) as (s2 & E2 & D2). exists s2.
    change (retransmits (S (S k)) s) with (let '(st, s) := retransmit (i_mid (initiating (tm s))) s in
      let '(sts, s) := retransmits (S k) s in (st :: sts, s)). rewrite E, E2. split; [done|].
    cbn [replicate concat]. by rewrite D2, D, app_assoc.
Qed.

(** C8: A request that is never answered is sent [retransmit_tries + 1] times, every time the
    same packets, and the next time the IKE_SA is given up: the manager neither stops early
    nor goes on.  This is so unless the request is an [INFORMATIONAL] with a MOBIKE task active
    ([wa_mobike] of [waiting]): such a task transmits by itself, while it probes paths
    [ROUTEABILITY_CHECK_TRIES] is the limit, and the request is deferred when there is no
    path. *)
Theorem retransmission_gives_up ps tries (s : sa) : ps <> [] -> waiting ps tries 0 s -> 0 <= tries -> tries + 1 < 2 ^ 32 ->
  exists s', retransmits (Z.to_nat (tries + 2)) s = (replicate (Z.to_nat (tries + 1)) SUCCESS ++ [DESTROY_ME], s') /\
    sent_data s' = sent_data s ++ concat (replicate (Z.to_nat (tries + 1)) (pdata <$> ps)).
Proof.
  intros Hps Hs Ht Hw. replace (Z.to_nat (tries + 2)) with (S (Z.to_nat (tries + 1))) by lia.
  eapply (retransmits_all ps tries); [done|lia|exact Hs|lia|lia].
Qed.

(** ** Initiating ends *)

Definition task_count (s : sa) : nat := (length (active_tasks (tm s)) + length (queued_tasks (tm s)))%nat.

Definition same_tasks (s s' : sa) : Prop :=
  active_tasks (tm s') = active_tasks (tm s) /\ queued_tasks (tm s') = queued_tasks (tm s).

Section Settling.
(** A task that builds a request or is destroyed leaves the queues to the manager, and one that
    withdraws the request has completed. *)
Hypothesis build_settles : forall t m (s : sa) st m' s', build t m s = Some (st, m', s') ->
  same_tasks s s' /\ (exchange_type m <> EXCHANGE_TYPE_UNDEFINED -> exchange_type m' = EXCHANGE_TYPE_UNDEFINED -> st = SUCCESS).
Hypothesis destroy_settles : forall t (s : sa), same_tasks s (destroy t s).

Lemma remove_active_count i t (s s1 : sa) : active_tasks (tm s) !! i = Some t -> same_tasks s s1 ->
  task_count s = S (task_count (destroy t (remove_active i s1))).
Proof using destroy_settles.
  intros Ei [Ea Eq]. destruct (destroy_settles t (remove_active i s1)) as [Da Dq]. unfold task_count. rewrite Da, Dq. cbn.
  rewrite Ea, Eq. apply lookup_lt_Some in Ei. rewrite length_delete by (by apply lookup_lt_is_Some). lia.
Qed.

(** Tasks only go, and one went if the request was withdrawn. *)
Lemma build_request_count fuel : forall i m (s : sa) m' s', build_request fuel i m s = Some (true, m', s') ->
  (task_count s' <= task_count s)%nat /\
  (exchange_type m <> EXCHANGE_TYPE_UNDEFINED -> exchange_type m' = EXCHANGE_TYPE_UNDEFINED -> (task_count s' < task_count s)%nat).
Proof using build_settles destroy_settles.
  induction fuel as [|fuel IH]; [done|]. intros i m s m' s'. cbn [build_request].
  destruct (active_tasks (tm s) !! i) as [t|] eqn:Ei; [|by intros [= <- <-]].
  destruct (build t m s) as [[[st m1] s1]|] eqn:E; [|done]. cbn [mbind option_bind].
  destruct (build_settles _ _ _ _ _ _ E) as [Hs Hx]. destruct st; intros E'; try done.
  - pose proof (remove_active_count i t s s1 Ei Hs) as Hc. apply IH in E' as [Hle _]. split; intros; lia.
  - apply IH in E' as [Hle Hlt]. assert (task_count s1 = task_count s) as Ec by (unfold task_count; by rewrite (proj1 Hs), (proj2 Hs)).
    rewrite Ec in *. split; [done|]. intros Hm Hm'. apply Hlt; [|done]. intros Hu. by apply Hx in Hu.
Qed.

Lemma activate_task_count type (s : sa) b s' : activate_task type s = (b, s') -> task_count s' = task_count s.
Proof.
  unfold activate_task. destruct (list_find _ _) as [[i q]|] eqn:El; intros [= _ <-]; [|done].
  apply list_find_Some in El as [El _]. unfold task_count. cbn. rewrite length_app. apply lookup_lt_Some in El as Hlt.
  rewrite length_delete by (by apply lookup_lt_is_Some). cbn. lia.
Qed.

Lemma activate_first_count l : forall (s : sa) e s', activate_first l s = (e, s') -> task_count s' = task_count s.
Proof.
  induction l as [|[type ex] l IH]; intros s e s'; cbn [activate_first]; [by intros [= _ <-]|].
  destruct (activate_task type s) as [b s1] eqn:E. apply activate_task_count in E. destruct b; [by intros [= _ <-]|].
  intros E'. apply IH in E'. congruence.
Qed.

Lemma activate_all_count l : forall s : sa, task_count (fold_left (fun s type => snd (activate_task type s)) l s) = task_count s.
Proof.
  induction l as [|type l IH]; intros s; [done|]. cbn [fold_left]. rewrite IH. destruct (activate_task type s) as [b s1] eqn:E.
  by eapply activate_task_count.
Qed.

Lemma activate_new_count (s : sa) e s' : activate_new s = (e, s') -> task_count s' = task_count s.
Proof.
  unfold activate_new. destruct (sa_state s).
  2, 4, 7, 8: by intros [= _ <-].
  2, 3, 4: apply activate_first_count.
  destruct (activate_task TASK_IKE_VENDOR s) as [b s1] eqn:E1. apply activate_task_count in E1. cbn [snd].
  destruct (activate_task TASK_IKE_INIT s1) as [b2 s2] eqn:E2. apply activate_task_count in E2.
  destruct b2; [|intros [= _ <-]; congruence]. set (l := TASK_IKE_NATD :: _). clearbody l. intros [= _ <-].
  rewrite activate_all_count. change (task_count (set_i_mid s2 0)) with (task_count s2). congruence.
Qed.

(** An exchange that is initiated is not the undefined one. *)
Lemma activate_first_exchange l : Forall (fun x => snd x <> EXCHANGE_TYPE_UNDEFINED) l -> forall (s : sa) e s',
  activate_first l s = (e, s') -> e <> EXCHANGE_TYPE_UNDEFINED.
Proof.
  induction 1 as [|[type ex] l Hx _ IH]; intros s e s'; cbn [activate_first]; [by intros [= <- _]|].
  destruct (activate_task type s) as [b s1]. destruct b; [by intros [= <- _]|apply IH].
Qed.

Lemma activate_new_exchange (s : sa) e s' : activate_new s = (e, s') -> e <> EXCHANGE_TYPE_UNDEFINED.
Proof.
  unfold activate_new. destruct (sa_state s).
  2, 4, 7, 8: by intros [= <- _].
  2, 3, 4: apply activate_first_exchange; repeat constructor; discriminate.
  destruct (activate_task TASK_IKE_INIT _) as [b s2]. set (l := TASK_IKE_NATD :: _). clearbody l. by destruct b; intros [= <- _].
Qed.

Lemma reinitiate_exchange (l : list T) : reinitiate l <> EXCHANGE_TYPE_UNDEFINED.
Proof. induction l as [|t l IH]; [done|]. cbn [reinitiate]. by destruct (task_type t). Qed.

(** The fuel of [initiate] is enough if it exceeds the number of tasks: more changes nothing. *)
Theorem initiate_ends n : forall (s : sa) k, (task_count s <= n)%nat -> initiate (S n + k) s = initiate (S n) s.
Proof using build_settles destroy_settles.
  induction n as [n IH] using lt_wf_ind. intros s k Hn. cbn [Nat.add initiate]. destruct (negb _); [done|].
  destruct (match active_tasks (tm s) with [] => _ | _ => _ end) as [exchange s1] eqn:Ea.
  assert (task_count s1 = task_count s /\ exchange <> EXCHANGE_TYPE_UNDEFINED) as [E1 Hx].
  { destruct (active_tasks (tm s)) as [|t l]; [by split; [eapply activate_new_count|eapply activate_new_exchange]|].
    injection Ea as <- <-. split; [done|]. apply (reinitiate_exchange (t :: l)). }
  destruct (exchange =? 0); [done|]. set (s2 := set_tries (set_i_type s1 exchange) 0 false).
  destruct (build_request _ 0 (request_message exchange s1) s2) as [[[b m] s3]|] eqn:Eb; [|done]. cbn [mbind option_bind].
  destruct b; [|done]. cbn [negb]. destruct (exchange_type m =? EXCHANGE_TYPE_UNDEFINED) eqn:Eu; [|done]. apply Z.eqb_eq in Eu.
  apply build_request_count in Eb as [_ Hlt]. specialize (Hlt Hx Eu). change (task_count s2) with (task_count s1) in Hlt.
  set (s4 := set_i_type s3 _). assert (task_count s4 = task_count s3) as E4 by done. clearbody s4.
  destruct n as [|n]; [lia|]. apply (IH n); lia.
Qed.
End Settling.

(** *** Loops over tasks end *)

Definition no_longer (s s' : sa) : Prop := (length (active_tasks (tm s')) <= length (active_tasks (tm s)))%nat /\
  (length (passive_tasks (tm s')) <= length (passive_tasks (tm s)))%nat.

#[local] Instance no_longer_preorder : PreOrder no_longer.
Proof. split; [by split|]. intros s1 s2 s3 [] []. split; lia. Qed.

Lemma delete_shorter {B} i (l : list B) n fuel : (i < n)%nat -> (length l <= n)%nat -> (n - i < S fuel)%nat ->
  (length (delete i l) - i < fuel)%nat.
Proof.
  intros Hi Hl Hf. enough (length (delete i l) <= pred (Nat.max (length l) (S i)))%nat by lia. clear. revert i.
  induction l as [|x l IH]; intros [|i]; [cbn; lia..| |]; [cbn; lia|].
  change (delete (S i) (x :: l)) with (x :: delete i l). specialize (IH i). cbn [length]. lia.
Qed.

Section Loops.
(** Tasks do not add tasks to those that are processed at the moment. *)
Hypothesis build_bounded : forall t m (s : sa) st m' s', build t m s = Some (st, m', s') -> no_longer s s'.
Hypothesis process_bounded : forall t m (s : sa) st m' s', process t m s = Some (st, m', s') -> no_longer s s'.
Hypothesis pre_process_bounded : forall t f m (s : sa) st m' s', pre_process t = Some f -> f m s = Some (st, m', s') -> no_longer s s'.
Hypothesis destroy_bounded : forall t (s : sa), no_longer s (destroy t s).
Hypothesis collide_bounded : forall t t' (s : sa), no_longer s (collide t t' s).

Lemma build_request_fuel fuel : forall k i m (s : sa), (length (active_tasks (tm s)) - i < fuel)%nat ->
  build_request (fuel + k) i m s = build_request fuel i m s.
Proof using build_bounded destroy_bounded.
  induction fuel as [|fuel IH]; intros k i m s Hf; [lia|]. cbn [Nat.add build_request].
  destruct (active_tasks (tm s) !! i) as [t|] eqn:Ei; [|done]. apply lookup_lt_Some in Ei.
  destruct (build t m s) as [[[st m1] s1]|] eqn:E; [|done]. cbn [mbind option_bind]. apply build_bounded in E as [E _].
  destruct st; try done; apply IH; [|lia]. destruct (destroy_bounded t (remove_active i s1)) as [D _].
  pose proof (delete_shorter i (active_tasks (tm s1)) _ fuel Ei E Hf). cbn in D. lia.
Qed.

Lemma pre_process_fuel fuel (tasks : sa -> list T) : (forall s s', no_longer s s' -> (length (tasks s') <= length (tasks s))%nat) ->
  forall k i m s, (length (tasks s) - i < fuel)%nat ->
  pre_process_loop (fuel + k) i tasks m s = pre_process_loop fuel i tasks m s.
Proof using pre_process_bounded.
  intros Ht. induction fuel as [|fuel IH]; intros k i m s Hf; [lia|]. cbn [Nat.add pre_process_loop].
  destruct (tasks s !! i) as [t|] eqn:Ei; [|done]. apply lookup_lt_Some in Ei. destruct (pre_process t) as [f|] eqn:Ep; [|apply IH; lia].
  destruct (f m s) as [[[st m1] s1]|] eqn:E; [|done]. cbn [mbind option_bind].
  apply (pre_process_bounded _ _ _ _ _ _ _ Ep), Ht in E. destruct st; try done. apply IH. lia.
Qed.

Lemma process_response_fuel fuel : forall k i m (s : sa), (length (active_tasks (tm s)) - i < fuel)%nat ->
  process_response_loop (fuel + k) i m s = process_response_loop fuel i m s.
Proof using process_bounded destroy_bounded.
  induction fuel as [|fuel IH]; intros k i m s Hf; [lia|]. cbn [Nat.add process_response_loop].
  destruct (active_tasks (tm s) !! i) as [t|] eqn:Ei; [|done]. apply lookup_lt_Some in Ei.
  destruct (process t m s) as [[[st m1] s1]|] eqn:E; [|done]. cbn [mbind option_bind]. apply process_bounded in E as [E _].
  destruct st; try done; (destruct (was_reset _); [done|]); apply IH; [|lia]. destruct (destroy_bounded t (remove_active i s1)) as [D _].
  pose proof (delete_shorter i (active_tasks (tm s1)) _ fuel Ei E Hf). cbn in D. lia.
Qed.

Lemma process_request_fuel fuel : forall k i m (s : sa), (length (passive_tasks (tm s)) - i < fuel)%nat ->
  process_request_loop (fuel + k) i m s = process_request_loop fuel i m s.
Proof using process_bounded destroy_bounded.
  induction fuel as [|fuel IH]; intros k i m s Hf; [lia|]. cbn [Nat.add process_request_loop].
  destruct (passive_tasks (tm s) !! i) as [t|] eqn:Ei; [|done]. apply lookup_lt_Some in Ei.
  destruct (process t m s) as [[[st m1] s1]|] eqn:E; [|done]. cbn [mbind option_bind]. apply process_bounded in E as [_ E].
  destruct st; try done; apply IH; [|lia]. destruct (destroy_bounded t (remove_passive i s1)) as [_ D].
  pose proof (delete_shorter i (passive_tasks (tm s1)) _ fuel Ei E Hf). cbn in D. lia.
Qed.

Lemma handle_collisions_bounded t (s : sa) b s' : handle_collisions t s = (b, s') -> no_longer s s'.
Proof using collide_bounded.
  unfold handle_collisions. destruct (task_type t); try (by intros [= _ <-]);
    (destruct (find _ _); [|by intros [= _ <-]]; intros [= _ <-]; apply collide_bounded).
Qed.

Lemma build_response_fuel fuel : forall k i f m (s : sa), (length (passive_tasks (tm s)) - i < fuel)%nat ->
  build_response_loop (fuel + k) i f m s = build_response_loop fuel i f m s.
Proof using build_bounded destroy_bounded collide_bounded.
  induction fuel as [|fuel IH]; intros k i f m s Hf; [lia|]. cbn [Nat.add build_response_loop].
  destruct (passive_tasks (tm s) !! i) as [t|] eqn:Ei; [|done]. apply lookup_lt_Some in Ei.
  destruct (build t m s) as [[[st m1] s1]|] eqn:E; [|done]. cbn [mbind option_bind]. apply build_bounded in E as [_ E].
  destruct st; try done.
  - destruct (handle_collisions t (remove_passive i s1)) as [b s2] eqn:Ec. apply handle_collisions_bounded in Ec as [_ Ec]. apply IH.
    pose proof (delete_shorter i (passive_tasks (tm s1)) _ fuel Ei E Hf). cbn in Ec. pose proof (proj2 (destroy_bounded t s2)).
    destruct b; lia.
  - destruct (handle_collisions t s1) as [b s2] eqn:Ec. apply handle_collisions_bounded in Ec as [_ Ec].
    assert (length (passive_tasks (tm s2)) <= length (passive_tasks (tm s)))%nat as E2 by lia.
    pose proof (delete_shorter i (passive_tasks (tm s2)) _ fuel Ei E2 Hf). destruct b; apply IH; [done|lia].
Qed.

(** The loops have the number of tasks as fuel, and more changes nothing. *)
Theorem task_loops_end n m f (s : sa) :
  let a := S (length (active_tasks (tm s))) in let p := S (length (passive_tasks (tm s))) in
  build_request (a + n) 0 m s = build_request a 0 m s /\
  process_response_loop (a + n) 0 m s = process_response_loop a 0 m s /\
  process_request_loop (p + n) 0 m s = process_request_loop p 0 m s /\
  build_response_loop (p + n) 0 f m s = build_response_loop p 0 f m s /\
  pre_process_loop (a + n) 0 (fun s => active_tasks (tm s)) m s = pre_process_loop a 0 (fun s => active_tasks (tm s)) m s /\
  pre_process_loop (p + n) 0 (fun s => passive_tasks (tm s)) m s = pre_process_loop p 0 (fun s => passive_tasks (tm s)) m s.
Proof using build_bounded process_bounded pre_process_bounded destroy_bounded collide_bounded.
  cbn zeta. split_and!; [apply build_request_fuel|apply process_response_fuel|apply process_request_fuel|apply build_response_fuel|
    apply pre_process_fuel; [by intros ?? []|]|apply pre_process_fuel; [by intros ?? []|]]; lia.
Qed.
End Loops.
End MessageIds.

(** ** Synchronizing message IDs *)

Lemma fmap_rev {B C} (f : B -> C) (l : list B) : f <$> rev l = rev (f <$> l).
Proof. induction l as [|x l IH]; [done|]. cbn. by rewrite fmap_app, IH. Qed.

Section Sync.
Context {O V A R : Type} `{Tasks (task_ref O) (task_world V) A R} `{Daemon (task_ref O) (task_world V) A R}.
Abbreviation sa := (ike_sa (task_ref O) (task_world V) A R).
(** Tasks that are migrated leave the manager alone. *)
Hypothesis migrate_apart : forall t (s : sa), tm (migrate t s) = tm s.

Lemma migrate_all_apart l : forall s : sa, tm (fold_left (fun s t => migrate t s) l s) = tm s.
Proof using migrate_apart. induction l as [|t l IH]; intros s; [done|]. cbn [fold_left]. by rewrite IH, migrate_apart. Qed.

(** The tasks are queued again, in front. *)
Lemma requeue_all time l : forall s : sa,
  tm (fold_left (fun s t => let s := migrate t s in set_queued s (Queued t time :: queued_tasks (tm s))) l s) =
  with_tasks (tm s) (rev ((fun t => Queued t time) <$> l) ++ queued_tasks (tm s)) (active_tasks (tm s)) (passive_tasks (tm s)).
Proof using migrate_apart.
  induction l as [|t l IH]; intros s; [cbn; by destruct (tm s)|]. cbn [fold_left]. rewrite IH. cbn. rewrite migrate_apart.
  cbn. by rewrite <- app_assoc.
Qed.

(** What [reset] does to the manager. *)
Lemma reset_spec initiate respond (s : sa) :
  let t := tm (reset initiate respond s) in
  i_mid (initiating t) = (if initiate =? UINT_MAX then i_mid (initiating (tm s)) else initiate) /\
  r_mid (responding t) = (if respond =? UINT_MAX then r_mid (responding (tm s)) else respond) /\
  active_tasks t = [] /\ q_task <$> queued_tasks t = active_tasks (tm s) ++ (q_task <$> queued_tasks (tm s)) /\
  i_packets (initiating t) = [] /\ r_packets (responding t) = [] /\ i_type (initiating t) = EXCHANGE_TYPE_UNDEFINED.
Proof using migrate_apart.
  cbn zeta. unfold reset.
  set (s0 := set_i_defrag _ _). set (s1 := if initiate =? UINT_MAX then s0 else _). set (s2 := if respond =? UINT_MAX then s1 else _).
  set (s3 := set_i_type s2 _). set (s4 := set_queued s3 _).
  set (s5 := fold_left _ (q_task <$> queued_tasks (tm s4)) s4). assert (tm s5 = tm s4) as E5 by apply migrate_all_apart. clearbody s5.
  cbn [tm with_tm with_reset]. rewrite requeue_all. cbn. rewrite E5.
  assert (forall (l : list (task_ref O)) time, q_task <$> ((fun t => Queued t time) <$> l) = l) as Hq.
  { intros l time. rewrite <- list_fmap_compose. apply list_fmap_id. }
  unfold s4, s3, s2, s1. destruct (initiate =? UINT_MAX), (respond =? UINT_MAX); cbn;
    rewrite fmap_app, fmap_rev, Hq, rev_involutive, <- list_fmap_compose; done.
Qed.

(** Active tasks are the first to be activated again, none is lost. *)
Definition all_tasks (s : sa) : list (task_ref O) := active_tasks (tm s) ++ (q_task <$> queued_tasks (tm s)).

(** [set_message_id] if the ID changes. *)
Lemma moved_spec initiate mid (s : sa) : mid < UINT_MAX ->
  let s' := if get_mid initiate s =? mid then s else sa_set_message_id initiate mid s in
  get_mid initiate s' = mid /\ get_mid (negb initiate) s' = get_mid (negb initiate) s /\ all_tasks s' = all_tasks s /\
  (if get_mid initiate s =? mid then s' = s
   else active_tasks (tm s') = [] /\ i_packets (initiating (tm s')) = [] /\ r_packets (responding (tm s')) = []).
Proof using migrate_apart.
  intros Hm. cbn zeta. destruct (_ =? _) eqn:E; [apply Z.eqb_eq in E; by split_and!|]. unfold sa_set_message_id, all_tasks.
  destruct initiate; [destruct (reset_spec mid UINT_MAX s) as (Q1 & Q2 & Q3 & Q4 & Q5 & Q6 & _)|
    destruct (reset_spec UINT_MAX mid s) as (Q1 & Q2 & Q3 & Q4 & Q5 & Q6 & _)];
    rewrite (proj2 (Z.eqb_neq mid UINT_MAX)), Z.eqb_refl in * by lia; cbn [negb get_mid]; rewrite Q3, Q4; by split_and!.
Qed.

(** The ID for the next request: after one that is under way, unless the other ID moves. *)
Definition next_send (t : ike_mid_sync) (s : sa) : Z :=
  if busy s && (ms_send t <=? get_mid false s) then u32 (get_mid true s + 1) else get_mid true s.

Lemma has_active_busy (s : sa) : has_active_tasks s = busy s.
Proof. unfold has_active_tasks, busy, create_task_enumerator. by destruct (active_tasks (tm s)). Qed.

Lemma sync_process_spec t m (s : sa) : message_id m = 0 -> ms_send t < UINT_MAX -> ms_recv t < UINT_MAX ->
  0 <= get_mid true s < UINT_MAX - 1 -> 0 <= get_mid false s < UINT_MAX ->
  let m2 := Z.max (ms_send t) (get_mid false s) in let p2 := Z.max (ms_recv t) (next_send t s) in
  exists s', sync_process t m s = (NEED_MORE, IkeMidSync (ms_nonce t) p2 m2, s') /\
    get_mid false s' = m2 /\ get_mid true s' = p2 /\ all_tasks s' = all_tasks s /\
    (get_mid false s < ms_send t -> active_tasks (tm s') = [] /\ i_packets (initiating (tm s')) = []).
Proof using migrate_apart.
  intros Hm Hs Hr Hi Hf. cbn zeta. unfold sync_process. rewrite Hm. cbn [Z.eqb negb].
  set (m2 := Z.max (ms_send t) (get_mid false s)).
  destruct (moved_spec false m2 s ltac:(lia)) as (A1 & A2 & A3 & A4). set (s1 := if get_mid false s =? m2 then s else _) in *.
  cbn [negb] in A2. rewrite has_active_busy, A2.
  assert ((if busy s1 then u32 (get_mid true s + 1) else get_mid true s) = next_send t s) as En.
  { unfold next_send. destruct (get_mid false s =? m2) eqn:E.
    - rewrite A4. apply Z.eqb_eq in E. rewrite (proj2 (Z.leb_le _ _)) by lia. by rewrite andb_true_r.
    - apply Z.eqb_neq in E. destruct A4 as (A5 & _). unfold busy at 1. rewrite A5, bool_decide_true by done. cbn [negb].
      rewrite (proj2 (Z.leb_gt _ _)) by lia. by rewrite andb_false_r. }
  rewrite En. set (p2 := Z.max (ms_recv t) (next_send t s)). assert (next_send t s < UINT_MAX) as Hn.
  { unfold next_send, UINT_MAX in *. destruct (_ && _); [rewrite uwrap_small by lia|]; lia. }
  destruct (moved_spec true p2 s1 ltac:(lia)) as (B1 & B2 & B3 & B4). rewrite A2 in B1, B2, B3, B4.
  set (s2 := if get_mid true s =? p2 then s1 else _) in *. exists s2. split; [done|]. cbn [negb] in B2. split; [congruence|].
  split; [done|]. split; [congruence|]. intros Hlt. destruct (get_mid false s =? m2) eqn:E; [apply Z.eqb_eq in E; lia|].
  destruct A4 as (A5 & A6 & _). destruct (get_mid true s =? p2); [by rewrite B4|]. by destruct B4 as (? & ? & _).
Qed.

(** C9: Processing a request to synchronize message IDs (RFC 6311) moves both IDs forward only:
    the next request that is accepted has the higher of what the peer asked for and what was
    expected, the next request that is sent has at least the ID the peer expects, and one that
    is not used by a request under way, if the first ID was not moved.  Both are what is
    announced to the peer, and no task is lost. *)
Theorem mid_sync_process t m (s : sa) : message_id m = 0 -> ms_send t < UINT_MAX -> ms_recv t < UINT_MAX ->
  0 <= get_mid true s < UINT_MAX - 1 -> 0 <= get_mid false s < UINT_MAX ->
  exists t' s', sync_process t m s = (NEED_MORE, t', s') /\ ms_nonce t' = ms_nonce t /\
    ms_recv t' = get_mid false s' /\ ms_send t' = get_mid true s' /\
    get_mid false s' = Z.max (ms_send t) (get_mid false s) /\
    get_mid true s <= get_mid true s' /\ ms_recv t <= get_mid true s' /\
    (busy s = true -> ms_send t <= get_mid false s -> get_mid true s < get_mid true s') /\
    all_tasks s' = all_tasks s.
Proof using migrate_apart.
  intros Hm Hs Hr Hi Hf. destruct (sync_process_spec t m s Hm Hs Hr Hi Hf) as (s' & E & E1 & E2 & E3 & _).
  assert (get_mid true s <= next_send t s /\ (busy s = true -> ms_send t <= get_mid false s -> get_mid true s < next_send t s)) as [Hn Hb].
  { unfold next_send, UINT_MAX in *. destruct (busy s), (Z.leb_spec (ms_send t) (get_mid false s)); cbn [andb];
      rewrite ?uwrap_small by lia; lia. }
  eexists _, s'. split; [exact E|]. cbn [ms_nonce ms_send ms_recv]. split_and!; try done; lia.
Qed.

(** C38: The comment of [process] quotes that the ID for the next request must be one more than
    the highest that was used.  If the peer moves the other ID at the same time it is not:
    setting that ID resets the manager, so the request that is under way is not seen any more,
    and the peer is told to expect the ID of that request again.  The tasks of the request are
    queued, its packets are gone, and another request is sent with the ID already used. *)
Theorem mid_sync_reuses_id t m (s : sa) : message_id m = 0 -> ms_send t < UINT_MAX ->
  0 <= get_mid true s < UINT_MAX - 1 -> 0 <= get_mid false s -> busy s = true ->
  get_mid false s < ms_send t -> ms_recv t <= get_mid true s ->
  exists t' s', sync_process t m s = (NEED_MORE, t', s') /\ ms_send t' = get_mid true s /\
    get_mid true s' = get_mid true s /\ i_packets (initiating (tm s')) = [] /\
    active_tasks (tm s') = [] /\ q_task <$> queued_tasks (tm s') = active_tasks (tm s) ++ (q_task <$> queued_tasks (tm s)).
Proof using migrate_apart.
  intros Hm Hs Hi Hf Hb Hlt Hr. destruct (sync_process_spec t m s Hm Hs ltac:(lia) Hi ltac:(lia)) as (s' & E & _ & E2 & E3 & Ha).
  assert (next_send t s = get_mid true s) as En.
  { unfold next_send. by rewrite (proj2 (Z.leb_gt _ _)), andb_false_r by lia. }
  rewrite En, Z.max_r in E, E2 by lia. destruct (Ha Hlt) as [Ha1 Ha2]. unfold all_tasks in E3. rewrite Ha1 in E3.
  eexists _, s'. by split_and!.
Qed.

(** ** The notify *)

Lemma sync_buf t : Writer.get_buf (Writer.write_uint32 junk (Writer.write_uint32 junk
    (Writer.write_data junk (Writer.bio_writer_create junk 12) (ms_nonce t)) (ms_send t)) (ms_recv t)) =
  ms_nonce t ++ be_bytes 4 (ms_send t) ++ be_bytes 4 (ms_recv t).
Proof.
  destruct (Writer.write_data_spec junk (ms_nonce t) _ (Writer.writer_create_ok junk 12)) as [W1 B1].
  destruct (Writer.write_uint32_spec junk (ms_send t) _ W1) as [W2 B2].
  destruct (Writer.write_uint32_spec junk (ms_recv t) _ W2) as [_ B3].
  by rewrite B3, B2, B1, Writer.create_buf, <- app_assoc.
Qed.

(** The only payload of a message. *)
Lemma get_notify_added m type d : major_version m = 2 -> payloads m = [] ->
  exists o, get_notify (add_notify m false type d) type = Some o /\ chunk_field (o_p o) "notify_data" = d.
Proof.
  intros Hv Hn. unfold add_notify. rewrite Hv, Z.eqb_refl. set (o := ordinary _).
  exists (object_set_next o PL_NONE). split; [|reflexivity]. unfold get_notify, add_payload. rewrite Hn, bool_decide_true by done.
  change (payloads (set_payloads ?x ?l)) with l. change (payloads (set_first m ?t)) with (payloads m). rewrite Hn. cbn [app find].
  rewrite bool_decide_true by reflexivity. change (notify_type (object_set_next o PL_NONE)) with type. by rewrite Z.eqb_refl.
Qed.

(** What the task puts into its message is what it reads from one, the nonce and both
    message IDs; a message with an ID below the expected one is refused. *)
Theorem sync_notify_roundtrip t t0 m (s : sa) : major_version m = 2 -> payloads m = [] ->
  supports_extension s EXT_IKE_MESSAGE_ID_SYNC = true -> length (ms_nonce t) = 4%nat ->
  0 <= ms_send t < 2 ^ 32 -> 0 <= ms_recv t < 2 ^ 32 ->
  sync_pre_process t0 (sync_build t m) s =
    Some (if ms_send t <? get_mid false s then (FAILED, IkeMidSync (ms_nonce t0) (ms_send t) (ms_recv t)) else (SUCCESS, t)).
Proof.
  intros Hv Hp He Hl Hs Hr. unfold sync_pre_process, sync_build. rewrite sync_buf. set (d := ms_nonce t ++ _).
  destruct (get_notify_added (set_message_id m 0) IKEV2_MESSAGE_ID_SYNC d Hv Hp) as (o & -> & Ed).
  assert (message_id (add_notify (set_message_id m 0) false IKEV2_MESSAGE_ID_SYNC d) = 0) as ->.
  { unfold add_notify, add_payload. by destruct (_ =? _), (bool_decide _). }
  rewrite He. cbn [Z.eqb negb mbind option_bind]. rewrite Ed. unfold d.
  pose proof (Reader.read_data_app (ms_nonce t) (be_bytes 4 (ms_send t) ++ be_bytes 4 (ms_recv t))) as Er.
  rewrite Hl in Er. rewrite Er.
  rewrite Reader.read_uint32_app by lia. rewrite <- (app_nil_r (be_bytes 4 (ms_recv t))), Reader.read_uint32_app by lia.
  destruct (_ <? _); [done|]. by destruct t.
Qed.
End Sync.

(** ** Examples *)

Section Examples.
Import ToyDaemon.

(** A header of a request with message ID 99, and an encrypted payload that is too short. *)
Definition garbage : chunk :=
  [1; 0; 0; 0; 0; 0; 0; 0; 2; 0; 0; 0; 0; 0; 0; 0; 46; 32; 37; 8; 0; 0; 0; 99; 0; 0; 0; 32; 0; 0; 0; 2].

Definition garbage_message : message :=
  match parse_header (message_create_from_packet (Some toy_host) (Some toy_host) garbage) with
  | Some (SUCCESS, m) => m
  | _ => message_create 2 0
  end.

Definition idle : toy_sa := toy_sa_with 0 4 false [].

Definition after_garbage : toy_sa :=
  match process_message (sa_process_message 1 1) 1 garbage_message idle with Some (_, s) => s | None => idle end.

Lemma parse_error_advances_mid_witness : message_id garbage_message = 99 /\
  PARSE_ERROR <> SUCCESS /\ r_mid (responding (tm after_garbage)) = u32 (r_mid (responding (tm idle)) + 1) /\
  r_packets (responding (tm after_garbage)) = r_packets (responding (tm idle)).
Proof.
  split; [reflexivity|].
  eapply (parse_error_advances_mid (sa_process_message 1 1) 1 garbage_message idle PARSE_ERROR);
    [vm_compute; reflexivity|by left|reflexivity|vm_compute; reflexivity].
Defined.

(** The request with ID 7 was answered; a fragment of it and all of the request 8 follow. *)
Definition answered_seven : toy_sa :=
  set_r_packets (toy_sa_with 0 8 false []) [Packet.packet_create_from_data (Some toy_host) (Some toy_host) [1; 2]].

Definition request_eight : list message :=
  [set_message_id (fragment_example 1 2 [1; 2]) 8; set_message_id (fragment_example 2 2 [3]) 8].

Lemma toy_child_sas (s : toy_sa) : tm (update_child_sas s) = tm s /\ sa_state (update_child_sas s) = sa_state s.
Proof. done. Qed.

Lemma stale_fragment_blocks_witness : exists s1 s2,
  receive_request (sa_process_message 1 1) (fragment_example 2 2 [3]) answered_seven = Some (NEED_MORE, false, s1) /\
  receive_requests (sa_process_message 1 1) request_eight s1 = Some ([INVALID_ARG; INVALID_ARG], s2) /\
  r_mid (responding (tm s2)) = 8.
Proof.
  eapply (stale_fragment_blocks toy_child_sas (sa_process_message 1 1) (fragment_example 2 2 [3]) NEED_MORE
    _ answered_seven request_eight);
    [by vm_compute|done|reflexivity| |reflexivity|reflexivity|vm_compute; reflexivity|done|].
  - split; [vm_compute; discriminate|reflexivity].
  - repeat (constructor; [split; [split; [vm_compute; discriminate|reflexivity]|reflexivity]|]). constructor.
Defined.

(** A request that is out, with the default number of tries. *)
Definition unanswered : toy_sa :=
  set_i_packets (set_i_type (set_active (toy_sa_with 3 0 true []) [Dpd true]) INFORMATIONAL)
    [Packet.packet_create_from_data (Some toy_host) (Some toy_host) [1; 2]].

Lemma retransmission_gives_up_witness : exists s',
  retransmits 7 unanswered = (replicate 6 SUCCESS ++ [DESTROY_ME], s') /\
  sent_data s' = replicate 6 [1; 2].
Proof.
  eapply (retransmission_gives_up (i_packets (initiating (tm unanswered))) 5 unanswered); [done| |done|done].
  constructor; [reflexivity| |reflexivity|reflexivity]. by repeat constructor.
Defined.

Lemma toy_migrate t (s : toy_sa) : tm (migrate t s) = tm s.
Proof. destruct t as [i|r|o]; [done| |done]. cbn. by destruct (_ !! _). Qed.

(** The peer is at 9 and expects 3, the ID of the request that is out. *)
Definition sync_example : ike_mid_sync := IkeMidSync [1; 2; 3; 4] 9 3.

Lemma mid_sync_process_witness : busy unanswered = true /\ exists t' s',
  sync_process (IkeMidSync [1; 2; 3; 4] 0 3) (message_create 2 0) unanswered = (NEED_MORE, t', s') /\ ms_nonce t' = [1; 2; 3; 4] /\
  ms_recv t' = get_mid false s' /\ ms_send t' = get_mid true s' /\
  get_mid false s' = Z.max 0 0 /\ 3 <= get_mid true s' /\ 3 <= get_mid true s' /\
  (busy unanswered = true -> 0 <= 0 -> 3 < get_mid true s') /\
  all_tasks s' = all_tasks unanswered.
Proof.
  split; [reflexivity|].
  apply (mid_sync_process toy_migrate (IkeMidSync [1; 2; 3; 4] 0 3) (message_create 2 0) unanswered); by vm_compute.
Defined.

Lemma mid_sync_reuses_id_witness : exists t' s',
  sync_process sync_example (message_create 2 0) unanswered = (NEED_MORE, t', s') /\ ms_send t' = 3 /\
  get_mid true s' = 3 /\ i_packets (initiating (tm s')) = [] /\
  active_tasks (tm s') = [] /\ q_task <$> queued_tasks (tm s') = [Dpd true].
Proof.
  apply (mid_sync_reuses_id toy_migrate sync_example (message_create 2 0) unanswered); by vm_compute.
Defined.

Lemma sync_notify_roundtrip_witness :
  sync_pre_process (IkeMidSync [] 0 0) (sync_build (O := Empty_set) (V := timeval) sync_example (message_create 2 0)) idle =
  Some (SUCCESS, sync_example).
Proof.
  apply (sync_notify_roundtrip sync_example (IkeMidSync [] 0 0) (message_create 2 0) idle); by vm_compute.
Defined.
End Examples.
